(* ===== verification/_CoqProject ===== *)
-Q . S2P
Prelude.v
GoLib.v
Names.v
Storage.v
Wan.v
Decide.v
DecideProps.v
Execute.v
Orchestrator.v
Sim.v
ExecuteProps.v
OrchProps.v
HandleProps.v
EventProps.v
Backoff.v
Throttle.v
DnsTypes.v
Dedup.v
DedupProps.v
DnsSync.v
DnsApply.v
DnsSyncProps.v
DnsApplyProps.v
DnsTarget.v
DnsSim.v
Failover.v
DnsReconcile.v
GoText.v
Config.v
ConfigProps.v
ConfigImport.v
SaveCoord.v
SaveProps.v
Cache.v
CacheProps.v
ClientRoute.v
ClientRouteLaws.v
ClientRouteProps.v
SbJson.v
SbValidate.v
SbValidateProps.v
SbOrch.v
SbReload.v
SbOrchProps.v
SbLayout.v
SbPredict.v
SbProcess.v
SbReloadProps.v
SbProcessProps.v
SbSim.v
SbRouter.v
SbRouterLib.v
SbOutbounds.v
SbOutboundsProps.v
SbRulesProps.v
SbRouterDns.v
SbRouterDnsProps.v
SbQoS.v
SbQoSProps.v
SbRouterSim.v
SbTunnels.v
SbTunnelsProps.v
SbTunnelBatch.v
SbTunnelBatchProps.v
SbDeviceProxy.v
SbDeviceProxyProps.v
SbBoot.v
SbBootProps.v
SbBootSettle.v
SbMerge.v
SbMergeProps.v
SbApply.v
SbApplyProps.v
SbTunnelsSim.v
Catalog.v
StaticParse.v
StaticParseProps.v
StaticRoute.v
StaticRouteProps.v
StaticRouteSim.v
