(* ===== verification/Prelude.v ===== *)
(** * AWG Manager: verification development

    AWG Manager is a daemon for Keenetic routers (Go, under [src/]) that manages
    AmneziaWG/WireGuard tunnels.  This library models the parts of it that decide
    and carry out what happens to tunnels, routes and router state, as executable
    definitions that follow the Go text, and proves what they promise.

    ** Conventions

    - A Go function is a Definition or Fixpoint of the same name.  A method that
      changes state is a function on the state, or a computation of the state
      monad [ST] below; [(T, error)] is a sum or an option of the error text.
    - Code that is reached through a Go interface or outside the repository is a
      type class over an abstract world ([Executors], [TunnelStore], [DnsRouter],
      [IpTool], [RouteDevice], ...) whose laws, where any are needed, are a second class
      ([DnsRouterLaws], [IpLaws], ...); a concrete instance ([Sim], [DnsSim],
      [simIp]) satisfies the laws, and the witnesses and Examples run on it.
    - [for k, v := range m] over a Go map takes the visiting order as an argument
      ([map_range]); a theorem holds for every order.
    - Integers are Z; where a Go [int], [uint16] or [time.Duration] can leave its
      range the check or the saturation is written out ([in_int], [time_Sub]).
      Strings are byte strings; the unicode tables are the class [GoUnicode].
    - Random values and clock readings are arguments.  I/O failures are outcomes
      of the abstract operations, or a list of coming faults ([Storage],
      [ClientRoute], [StaticRoute]).

    ** The parts, and how they interact

    An HTTP request, an NDMS hook or a WAN change becomes an [Event].  The
    orchestrator [decide]s a list of [Action]s from its cached state, executes
    them under per-tunnel locks through the operators and persists the outcome in
    the tunnel store.  Tunnel changes reach the DNS route service (target,
    difference, commands to the router), the ping check reports tunnel failures to
    the failover manager, which reconciles the DNS routes, and the per-client
    routes follow tunnel starts and stops.  Commands to the router go through the
    save coordinator, which writes the configuration to flash, and reads of the
    router come from TTL caches.  The producers of sing-box configuration (one of them
    the router's editor of rules, outbounds and DNS) hand their slots to the
    configuration orchestrator, which validates them together and drives the daemon.

    Shared library
    - [Prelude]: map iteration, tactics, the hint database [awg], the state monad
      and its Hoare triples.
    - [GoLib], [GoText]: what the code uses of [strings], [strconv], [time],
      [bufio] and [net].

    Tunnel lifecycle ([internal/orchestrator], [internal/tunnel], [internal/storage])
    - [Names]: [tunnel/types.go], [nwg/names.go], [state/matrix_v2.go].
    - [Storage]: [storage/types.go], [storage/awg_store.go]; the interface
      [TunnelStore] and the directory of files that implements it.
    - [Wan]: [tunnel/wan/model.go].
    - [Decide], [DecideProps]: [events.go], [actions.go], [state.go], [decide.go].
      Plans are in a safe order, disable a tunnel only when they should, do not
      depend on the map order, restore every tunnel after a boot once.
    - [Execute], [ExecuteProps]: [execute.go], [helpers.go], [resolve_wan.go].
      Every action refines an abstract effect on the store ([storage_effect]),
      whatever the executors answer.  [resolveWAN] recurses through the tunnel it
      is routed over; fuel 2 is enough because the code stops at the second level.
    - [Orchestrator], [OrchProps], [HandleProps], [EventProps]: [orchestrator.go].
      Invariants of cache, store and locks over [HandleEvent]; the effect of start
      and stop; NDMS edges and their settling.  A computation is one goroutine; where
      it waits without the mutex, [others] does anything to the whole state.
      [group_fuel] is the length of the action list.
    - [Sim]: a world whose operations fail by a script.

    Routing
    - [DnsTypes], [Dedup], [DedupProps]: [dnsroute/types.go], [dedup.go]: the trie
      of domains against its reference.
    - [DnsSync], [DnsApply], [DnsSyncProps], [DnsApplyProps], [DnsTarget],
      [DnsReconcile], [DnsSim]: [dnsroute/sync.go] and the commands of
      [ndms/command]: a reconcile that reports success has brought a lawful router
      in line with the stored lists and left foreign objects alone (or found a router of
      OS4, where it does nothing); the disable flags too, unless a listing of the routes
      failed on the way.  [DnsReconcile] exhibits what is left aside: the order of routes, lists
      of one slug.  [chunks_of] has the length of its list as fuel.
    - [Failover]: [dnsroute/failover.go] over any callback, which is given the failed set
      at the moment it is called: what a clean manager has installed is its failed set.
    - [ClientRoute], [ClientRouteLaws], [ClientRouteProps]: [internal/clientroute],
      [tunnel/ops/clientroute.go], [storage/clientroute.go]: the policy rules in the
      kernel are those of the enabled routes, and the kill switch.  [find_lookups]
      has the length of the text as fuel; the removal of at most 100 rules is the
      bound of the source.
    - [Catalog]: [routing/catalog.go]: the tunnels and interfaces that are offered, and
      what their identifiers resolve to.
    - [StaticParse], [StaticParseProps]: [staticroute/parser.go], [subnet.go]: the import
      of a .bat file and the masks, down to the texts of addresses in [net].
    - [StaticRoute], [StaticRouteProps]: [staticroute/impl.go],
      [storage/staticroute.go], [ndms/command/routes.go]: the routes on the router are
      those of the enabled lists.  The router and the [ip] tool are the class
      [RouteDevice] with [RouteLaws]; the store hands out pointers into its cache, and
      writes through them are part of the model.
    - [StaticRouteSim]: a concrete router, witnesses, and the runs in which a route is
      lost or installed that should not be.

    Tunnel configuration files
    - [Config], [ConfigProps], [ConfigImport]: [tunnel/config]: export and import of
      .conf files are inverse to each other up to a stated canonical form.  A line of
      64 KiB ([MaxScanTokenSize]) ends the scan, as in [bufio.Scanner].

    Services around the router
    - [SaveCoord], [SaveProps]: [ndms/command/save.go], [status.go]: a step function
      over timers, the goroutines of [fire] and [Flush] and a clock; no request is
      lost silently but in two exhibited races.
    - [Cache], [CacheProps]: [ndms/cache]: a step function over reader goroutines;
      coalescing, and coherence after an invalidation.
    - [Backoff]: [singbox/restart_backoff.go]: automatic restarts are rate limited,
      and recover.
    - [Throttle]: [auth/throttle.go] and its use in [api/auth.go], as a step relation
      over concurrent login attempts.

    sing-box configuration ([internal/singbox/orchestrator], [internal/singbox/process.go])
    - [SbJson], [SbValidate], [SbValidateProps]: [types.go], [validate.go]: JSON
      documents as trees, the part of a slot file that is decoded, and the cross-slot
      validation against its declarative reading ([consistent]).
    - [SbOrch], [SbOrchProps], [SbLayout]: [orchestrator.go], [files.go], [draft.go]:
      slots, their files in [config.d] and its subdirectories, drafts and checks, over
      file accesses that may fail; a draft is applied atomically, and the directory the
      daemon reads follows the enabled slots, but for drafts applied to a disabled slot
      ([strayed]).
    - [SbReload], [SbPredict], [SbReloadProps]: [reload.go], [applied.go]: pruning,
      the predicate of active work, and [Reload] over any process with [ProcLaws]; what
      the validation of a draft accepts is accepted by the reload, and the process ends
      up running the enabled files.
    - [SbProcess], [SbProcessProps]: [process.go] over a table of processes; it
      satisfies [ProcLaws] while the process is [steady] (a readable pid file, a process
      that obeys signals).  Reads of the pid file may fail, a process may outlast the
      signals of [Stop], and the clean-up of an exit monitor is two steps: at most one
      daemon lives, but for the three scenarios [SbSim] shows.
    - [SbSim]: concrete instances, the witnesses, and the scenarios that mislead the
      recorded state and the pid file ([stale_adoption], [cleanup_race],
      [unreadable_pid_two_daemons], [stuck_stop_two_daemons]).

    sing-box router configuration ([internal/singbox/router])
    - [SbRouter], [SbRouterLib]: [types.go], [config.go]: rules, rule sets and the
      composition of the router's slot; the checks and edits of rules and rule sets.
      [regexp.Compile] and [url.Parse] are the class [GoParsers].
    - [SbOutbounds], [SbOutboundsProps]: the composite outbounds of [config.go], with the
      checks of [service_outbounds.go], [service_rules.go] and [service_fakeip_crud.go]:
      no edit leaves a dangling reference (but for what the checks do not look up,
      [unchecked]), a duplicate tag or a cycle of outbounds.
    - [SbRulesProps]: edits of rule sets and rules; switching the router on puts the
      system rules in front once and for all.
    - [SbRouterDns], [SbRouterDnsProps]: [config_dns.go], [dns_chain_preset.go],
      [service_dns.go], [withConfig] and [persistConfig] of [service.go], over accesses to
      the configuration and the settings that may fail: a DNS edit that succeeds keeps the
      section consistent and the preset's rules last, one that fails keeps the
      configuration, but may have saved the new preset; the order the chain check enforces; a forced deletion ends with no
      reference to what it deleted.
    - [SbQoS], [SbQoSProps]: [qos.go], [qos_routes.go]: slots of traffic classes are
      stable, their ports distinct, the rules match the inbounds.
    - [SbRouterSim]: witnesses, and inputs that an edit turns into something else than
      was asked for.

    sing-box tunnels, device proxy and start-up ([internal/singbox])
    - [SbTunnels], [SbTunnelsProps]: [config.go]: the slot of the tunnels as a Go map,
      the list of tunnels and its edits; each edit refines an operation on a list of
      tunnels, for any outbound it is given, and panics on none but [null].  What [int(x)] is for a number out of range is the class [GoFloat].
    - [SbTunnelBatch], [SbTunnelBatchProps]: the loop of [operator_tunnels.go],
      [portprobe.go] and [NextFreeIndex] of [proxy.go] that places a batch of links; the
      ports that can be bound and the proxies of the router are the class [SlotWorld].
      [batch_outcome] relates each link to the tunnel or the error it becomes.
    - [SbDeviceProxy], [SbDeviceProxyProps]: [config.go], [deviceproxy_config.go],
      [deviceproxy/singbox_adapter.go]: the instances of the device proxy in a document,
      and the slot built of them.
    - [SbBoot], [SbBootProps], [SbBootSettle]: [MigrateLegacyConfigDir],
      [operator_baseconfig.go], [NewOperator]: the migrations and repairs of the
      configuration directory over file accesses that may fail.  Each repair is a patch
      of one file; without faults one start-up heals the base file and the next one
      changes nothing.  The migration of [deviceproxy_migrate.go] loses no instance under
      any faults, and leaves the named ones in both files.
    - [SbMerge], [SbMergeProps]: [configmerge/merge.go]: what the daemon reads, key by
      key, and when the merge refuses.
    - [SbApply], [SbApplyProps]: [applyConfig] and its callers: what becomes of the old
      and the new slot under any faults, and the operations on tunnels from file to file.  The check of
      sing-box and the daemon are the class [Runtime].
    - [SbTunnelsSim]: witnesses, and inputs or interleavings on which the code does not do
      what its comments promise.

    ** Bounds and fuel

    [resolveWAN] runs with fuel 2 ([resolveWAN_enough]: the code rejects a chain of
    tunnels longer than that); the ID allocator tries one more candidate than there
    are IDs ([nextAvailableID_fresh]); [group_fuel], [chunks_of] and [find_lookups]
    consume at least one element per step and start with the length; [dec_rule] runs
    with the depth of its document ([dec_rule_fuel]: more changes nothing); the search
    of [validateNoCompositeCycles] has one step more than there are outbounds
    ([visit_total]); [cascade] has one more than there are DNS rules ([cascade_ok]);
    [numbered_tag] tries one more name than there are tags
    ([allocUniqueTunnelTag_fresh]); the 128 attempts of [allocBindableSlot] are the
    source's.  All other recursion is structural.

    ** Not modelled

    - The HTTP layer ([internal/api], [internal/server]), the frontend and the wiring
      in [cmd]: request decoding and glue, except what [Throttle] takes from
      [api/auth.go].
    - The bodies of the operators ([tunnel/ops], [tunnel/nwg], [tunnel/service],
      [tunnel/wg], [tunnel/firewall], [sys]): drivers of processes, kernel interfaces
      and NDMS; they are the abstract operations of [Executors].  The client-route
      operations of [tunnel/ops] are modelled.
    - The rest of [internal/ndms] (transport, queries, events, metrics, the commands
      for interfaces, policies and ping check).
    - sing-box beyond its configuration orchestrator, process, restart back-off, the
      configuration editor of its router, and the files of its tunnels and device proxy:
      subscriptions, share links, the clash client, the proxies of the router
      ([proxy.go], [migrate_ndms_proxy.go]), renaming a tunnel across the router's rules,
      the installer, the service of the device proxy, [awgoutbounds].  Of numbers in a
      document the text is kept; the order of keys is not.
    - Of the router: its life cycle, [iptables], policies and marks, FakeIP, the
      inspector, presets from the network, the files of inline rule sets; the draft
      the configuration is saved to is the orchestrator's; the settings store
      of the traffic classes, whose faults are not represented.
    - Of the configuration orchestrator: the sweeps of leftover check directories and
      temporary files, the views for the frontend, the order of keys in files it
      rewrites, keys that differ in case only, documents with duplicate keys.
    - [hydraroute], [managed], [wdtt], [freeturn], [diagnostics], [updater], [backup],
      [monitoring], [pingcheck], [signature], [connections], [terminal], [traffic],
      [accesspolicy], [downloader], logging: drivers of other daemons, presentation and
      file transfer.
    - Of the modelled parts: journal lines, events published to the frontend, and the
      wrapped text of most errors; the CIDR half of the deduplication; the CRUD of
      DNS lists, their subscriptions and the hand-over to HydraRoute; concurrent
      calls of the failover manager. *)
From stdpp Require Export base tactics option list list_numbers fin_sets fin_maps gmap strings sorting pretty.
From Stdlib Require Export Ascii ZArith Lia.

(** ** Iteration over Go maps

    [for k, v := range m] visits every entry of a Go map exactly once, in an
    order the language leaves unspecified.  A definition that ranges over a map
    takes the visiting order as an argument; [map_range m l] says that [l] is a
    possible order for [m]. *)
Definition map_range {V} (m : gmap string V) (l : list (string * V)) : Prop :=
  l ≡ₚ map_to_list m.

Lemma map_range_elem {V} (m : gmap string V) l k v :
  map_range m l → (k, v) ∈ l ↔ m !! k = Some v.
Proof. intros H. rewrite H. apply elem_of_map_to_list. Qed.

Lemma map_range_nodup {V} (m : gmap string V) l :
  map_range m l → NoDup l.*1.
Proof. intros H. unfold map_range in H. rewrite H. apply NoDup_fst_map_to_list. Qed.

Lemma map_range_self {V} (m : gmap string V) : map_range m (map_to_list m).
Proof. unfold map_range. reflexivity. Qed.

(** ** Tactics *)

(** Case analysis on every [if]/[match] of the goal and hypotheses, closing
    the contradictory branches. *)
Ltac split_cases := repeat (case_match; simplify_eq/=; try done).

(** Turn boolean tests into propositions. *)
Ltac to_prop :=
  repeat match goal with
  | H : (_ && _) = true |- _ => apply andb_true_iff in H as [? ?]
  | H : (_ || _) = false |- _ => apply orb_false_iff in H as [? ?]
  | H : negb _ = true |- _ => apply negb_true_iff in H
  | H : negb _ = false |- _ => apply negb_false_iff in H
  | H : bool_decide _ = true |- _ => apply bool_decide_eq_true in H
  | H : bool_decide _ = false |- _ => apply bool_decide_eq_false in H
  | H : (_ <? _)%Z = true |- _ => apply Z.ltb_lt in H
  | H : (_ <? _)%Z = false |- _ => apply Z.ltb_ge in H
  | H : (_ <=? _)%Z = true |- _ => apply Z.leb_le in H
  | H : (_ <=? _)%Z = false |- _ => apply Z.leb_gt in H
  | H : (_ =? _)%Z = true |- _ => apply Z.eqb_eq in H
  | H : (_ =? _)%Z = false |- _ => apply Z.eqb_neq in H
  | H : (_ =? _)%string = true |- _ => apply String.eqb_eq in H
  | H : (_ =? _)%string = false |- _ => apply String.eqb_neq in H
  end.

(** [update_field eta f v r]: the record [r] with the field [f] replaced by [v],
    where [eta r] is [r] written out field by field. *)
Ltac update_field eta f v r :=
  let e := eval cbv beta delta [eta] in (eta r) in
  let p := eval pattern (f r) in e in
  lazymatch p with ?g _ => let r' := eval cbv beta in (g v) in exact r' end.

Create HintDb awg.

(** ** Lists and finite sets *)

Lemma size_list_to_set_le `{Countable A} (l : list A) :
  size (list_to_set (C := gset A) l) ≤ length l.
Proof.
  induction l as [|x l IH]; [done|].
  change (list_to_set (x :: l)) with ({[x]} ∪ list_to_set (C := gset A) l).
  rewrite size_union_alt, size_singleton. simpl.
  assert (list_to_set (C := gset A) l ∖ {[x]} ⊆ list_to_set l) as Hs by set_solver.
  apply subseteq_size in Hs. lia.
Qed.

Lemma length_omap_le {A B} (f : A → option B) (l : list A) : length (omap f l) ≤ length l.
Proof. induction l as [|x l IH]; csimpl; [lia|]. destruct (f x); simpl; lia. Qed.

Lemma list_filter_all {A} (P : A → Prop) `{∀ x, Decision (P x)} (l : list A) :
  Forall P l → filter P l = l.
Proof. induction 1 as [|x l Hx _ IH]; [done|]. by rewrite filter_cons_True, IH. Qed.

Lemma list_filter_none {A} (P : A → Prop) `{∀ x, Decision (P x)} (l : list A) :
  Forall (λ x, ¬ P x) l → filter P l = [].
Proof. induction 1 as [|x l Hx _ IH]; [done|]. by rewrite filter_cons_False, IH. Qed.

Lemma flat_map_nested {A B C} (g : B → list C) (f : A → list B) (l : list A) :
  flat_map g (flat_map f l) = flat_map (λ x, flat_map g (f x)) l.
Proof. induction l as [|x l IH]; simpl; [done|]. by rewrite flat_map_app, IH. Qed.

(** Distinct keys identify the elements. *)
Lemma NoDup_key_inj {A B} (f : A → B) (l : list A) x y :
  NoDup (f <$> l) → x ∈ l → y ∈ l → f x = f y → x = y.
Proof.
  induction l as [|z l IH]; [by intros _ ?%elem_of_nil|]. rewrite fmap_cons, NoDup_cons.
  intros [Hz Hl] [->|Hx]%elem_of_cons [->|Hy]%elem_of_cons E; [done| | |by apply IH].
  - destruct Hz. rewrite E. by apply list_elem_of_fmap_2.
  - destruct Hz. rewrite <- E. by apply list_elem_of_fmap_2.
Qed.

(** ** State passing

    [ST St A]: a computation that reads and updates a state [St].  Fallible Go
    functions return [option string] (an [error], [None] for [nil]) or
    [string + A] (an error or a value). *)
Definition ST (St A : Type) : Type := St → A * St.

#[export] Instance ST_ret St : MRet (ST St) := λ _ a s, (a, s).
#[export] Instance ST_bind St : MBind (ST St) := λ _ _ f m s, let '(a, s) := m s in f a s.

Definition gets {St A} (f : St → A) : ST St A := λ s, (f s, s).
Definition modify {St} (f : St → St) : ST St unit := λ s, (tt, f s).

(** [if err := m; err != nil { return wrap(err) }; k] *)
Definition check {St} (wrap : string → string) (m : ST St (option string))
    (k : ST St (option string)) : ST St (option string) :=
  e ← m; match e with Some e => mret (Some (wrap e)) | None => k end.

(** [x, err := m; if err != nil { return wrap(err) }; k] *)
Definition try_with {St A} (wrap : string → string) (m : ST St (string + A))
    (k : A → ST St (option string)) : ST St (option string) :=
  r ← m; match r with inl e => mret (Some (wrap e)) | inr x => k x end.

(** ** Hoare triples

    [triple P m Q]: from a state in [P], [m] returns a result and a state in
    [Q]. *)
Definition triple {St A} (P : St → Prop) (m : ST St A) (Q : A → St → Prop) : Prop :=
  ∀ s, P s → Q (m s).1 (m s).2.

Section triple.
Context {St : Type}.
Implicit Types P : St → Prop.

Lemma triple_ret {A} P (a : A) (Q : A → St → Prop) : (∀ s, P s → Q a s) → triple P (mret a) Q.
Proof. intros H s Hs. by apply H. Qed.

Lemma triple_gets {A} P (f : St → A) (Q : A → St → Prop) :
  (∀ s, P s → Q (f s) s) → triple P (gets f) Q.
Proof. intros H s Hs. by apply H. Qed.

Lemma triple_bind {A B} P (m : ST St A) (R : A → St → Prop) (f : A → ST St B)
    (Q : B → St → Prop) :
  triple P m R → (∀ a, triple (R a) (f a) Q) → triple P (m ≫= f) Q.
Proof.
  intros Hm Hf s Hs. specialize (Hm s Hs). unfold mbind, ST_bind.
  destruct (m s) as [a s']. by apply Hf.
Qed.

Lemma triple_weaken {A} P P' (m : ST St A) (Q Q' : A → St → Prop) :
  triple P' m Q' → (∀ s, P s → P' s) → (∀ a s, Q' a s → Q a s) → triple P m Q.
Proof. intros H HP HQ s Hs. apply HQ, H, HP, Hs. Qed.

Lemma triple_ext {A} P (m m' : ST St A) (Q : A → St → Prop) :
  (∀ s, m s = m' s) → triple P m' Q → triple P m Q.
Proof. intros Hm H s Hs. rewrite Hm. by apply H. Qed.

Lemma triple_pure {A} (φ : Prop) P (m : ST St A) Q :
  (φ → triple P m Q) → triple (λ s, P s ∧ φ) m Q.
Proof. intros H s [Hs Hφ]. by apply H. Qed.

Lemma triple_exists {A X} (P : X → St → Prop) (m : ST St A) Q :
  (∀ x, triple (P x) m Q) → triple (λ s, ∃ x, P x s) m Q.
Proof. intros H s [x Hs]. by apply (H x). Qed.

Lemma triple_or {A} P P' (m : ST St A) Q :
  triple P m Q → triple P' m Q → triple (λ s, P s ∨ P' s) m Q.
Proof. intros H H' s [Hs|Hs]; auto. Qed.

Lemma triple_check P wrap m k (R : option string → St → Prop) (Q : option string → St → Prop) :
  triple P m R → (∀ e s, R (Some e) s → Q (Some (wrap e)) s) → triple (R None) k Q →
  triple P (check wrap m k) Q.
Proof.
  intros Hm He Hk. apply (triple_bind _ _ R); [done|]. intros [e|]; [|done].
  apply triple_ret. auto.
Qed.

Lemma triple_try {A} P wrap (m : ST St (string + A)) k (R : string + A → St → Prop)
    (Q : option string → St → Prop) :
  triple P m R → (∀ e s, R (inl e) s → Q (Some (wrap e)) s) →
  (∀ x, triple (R (inr x)) (k x) Q) → triple P (try_with wrap m k) Q.
Proof.
  intros Hm He Hk. apply (triple_bind _ _ R); [done|]. intros [e|x]; [|done].
  apply triple_ret. auto.
Qed.
End triple.
