(* ===== verification/GoLib.v ===== *)
(** * Go's standard library, as far as the modelled code uses it

    - [strings]: [HasPrefix], [TrimPrefix], [Split] on a one-byte separator,
      [IndexByte], [TrimSpace], [TrimLeft], [TrimRight], [ToLower];
    - [strconv]: [Atoi] with the range check of the platform's [int], [Itoa];
    - [time]: instants as nanoseconds, [Sub] with Go's saturation.

    A Go string is a sequence of bytes, here Stdlib's [string].  The unicode
    tables behind [strings.ToLower] and [strings.TrimSpace] are only consulted
    by Go when the string holds a byte >= 0x80; that slow path is the class
    [GoUnicode], the fast path is written out. *)
From S2P Require Import Prelude.

(** ** strings *)

Definition byte_code (c : ascii) : nat := nat_of_ascii c.

Fixpoint str_forallb (p : ascii → bool) (s : string) : bool :=
  match s with
  | EmptyString => true
  | String c s' => p c && str_forallb p s'
  end.

Fixpoint str_take (n : nat) (s : string) : string :=
  match n, s with
  | S n', String c s' => String c (str_take n' s')
  | _, _ => ""
  end.

Fixpoint str_drop (n : nat) (s : string) : string :=
  match n, s with
  | S n', String _ s' => str_drop n' s'
  | _, _ => s
  end.

Definition HasPrefix (s pre : string) : bool := String.prefix pre s.

Definition TrimPrefix (s pre : string) : string :=
  if HasPrefix s pre then str_drop (String.length pre) s else s.

(** [strings.Split(s, sep)] for a separator of one byte: never empty. *)
Fixpoint split_byte (sep : ascii) (s : string) : list string :=
  match s with
  | EmptyString => [""]
  | String c s' =>
      if Ascii.eqb c sep then "" :: split_byte sep s'
      else match split_byte sep s' with
           | [] => [String c ""]
           | p :: ps => String c p :: ps
           end
  end.

(** [strings.IndexByte]: [None] stands for -1. *)
Fixpoint index_byte (b : ascii) (s : string) : option nat :=
  match s with
  | EmptyString => None
  | String c s' => if Ascii.eqb c b then Some 0%nat else S <$> index_byte b s'
  end.

Fixpoint contains_byte (b : ascii) (s : string) : bool :=
  match s with
  | EmptyString => false
  | String c s' => Ascii.eqb c b || contains_byte b s'
  end.

Fixpoint trim_left (p : ascii → bool) (s : string) : string :=
  match s with
  | EmptyString => ""
  | String c s' => if p c then trim_left p s' else s
  end.

Fixpoint trim_right (p : ascii → bool) (s : string) : string :=
  match s with
  | EmptyString => ""
  | String c s' =>
      match trim_right p s' with
      | EmptyString => if p c then "" else String c ""
      | r => String c r
      end
  end.

Definition is_ascii_byte (c : ascii) : bool := (byte_code c <? 128)%nat.

(** '\t', '\n', '\v', '\f', '\r' and ' '. *)
Definition ascii_space (c : ascii) : bool :=
  let n := byte_code c in ((9 <=? n) && (n <=? 13) || (n =? 32))%nat.

Definition is_digit (c : ascii) : bool :=
  let n := byte_code c in ((48 <=? n) && (n <=? 57))%nat.

Definition lower_byte (c : ascii) : ascii :=
  let n := byte_code c in
  if ((65 <=? n) && (n <=? 90))%nat then ascii_of_nat (n + 32) else c.

Fixpoint lower_ascii (s : string) : string :=
  match s with
  | EmptyString => ""
  | String c s' => String (lower_byte c) (lower_ascii s')
  end.

Class GoUnicode := {
  unicode_ToLower : string → string;
  unicode_TrimSpace : string → string;
}.

(** A table in which no rune above 0x7F is a space or an upper-case letter:
    the instance the concrete examples use. *)
Definition plain_unicode : GoUnicode := {|
  unicode_ToLower := lower_ascii;
  unicode_TrimSpace := λ s, trim_right ascii_space (trim_left ascii_space s);
|}.

Section unicode.
Context `{U : GoUnicode}.

Definition TrimSpace (s : string) : string :=
  if str_forallb is_ascii_byte s
  then trim_right ascii_space (trim_left ascii_space s)
  else unicode_TrimSpace s.

Definition ToLower (s : string) : string :=
  if str_forallb is_ascii_byte s then lower_ascii s else unicode_ToLower s.
End unicode.

(** ** strconv *)

(** The width of Go's [int]: 64 bits on the arm64 build, 32 on the MIPS ones. *)
Class GoArch := { int_bits : Z; int_bits_ok : int_bits = 32%Z ∨ int_bits = 64%Z }.

Definition arch64 : GoArch := {| int_bits := 64; int_bits_ok := or_intror eq_refl |}.
Definition arch32 : GoArch := {| int_bits := 32; int_bits_ok := or_introl eq_refl |}.

Definition in_int `{GoArch} (z : Z) : bool :=
  ((- 2 ^ (int_bits - 1) <=? z) && (z <? 2 ^ (int_bits - 1)))%Z.

Definition digit_of (c : ascii) : option Z :=
  let n := byte_code c in
  if ((48 <=? n) && (n <=? 57))%nat then Some (Z.of_nat n - 48)%Z else None.

Fixpoint digits_val (acc : Z) (s : string) : option Z :=
  match s with
  | EmptyString => Some acc
  | String c s' => d ← digit_of c; digits_val (acc * 10 + d)%Z s'
  end.

Definition parse_digits (s : string) : option Z :=
  match s with EmptyString => None | _ => digits_val 0 s end.

(** [strconv.Atoi]: [None] is the error result (syntax or range). *)
Definition Atoi `{GoArch} (s : string) : option Z :=
  v ← match s with
      | String "-" s' => Z.opp <$> parse_digits s'
      | String "+" s' => parse_digits s'
      | _ => parse_digits s
      end;
  if in_int v then Some v else None.

(** [strconv.Itoa], also what the verb [%d] prints. *)
Definition Itoa (z : Z) : string := pretty z.

(** ** time

    An instant is the number of nanoseconds since Go's zero [time.Time]; clock
    readings are taken on one line, so [Before]/[After] are [<]/[>]. *)
Abbreviation Time := Z (only parsing).
Abbreviation Duration := Z (only parsing).

Definition IsZero (t : Time) : bool := (t =? 0)%Z.
Definition min_duration : Duration := (- 2 ^ 63)%Z.
Definition max_duration : Duration := (2 ^ 63 - 1)%Z.

(** [t.Sub(u)] saturates at the ends of the [Duration] range. *)
Definition time_Sub (t u : Time) : Duration :=
  Z.max min_duration (Z.min max_duration (t - u))%Z.

Definition Second : Duration := 1000000000%Z.
Definition Minute : Duration := (60 * Second)%Z.
Definition Hour : Duration := (60 * Minute)%Z.

Lemma time_Sub_pos t u : (0 < time_Sub t u ↔ u < t)%Z.
Proof. unfold time_Sub, min_duration, max_duration. lia. Qed.

Lemma time_Sub_lt t u d :
  (min_duration < d ≤ max_duration)%Z → (time_Sub t u < d ↔ t - u < d)%Z.
Proof. unfold time_Sub, min_duration, max_duration. lia. Qed.

Lemma time_Sub_gt t u d :
  (min_duration ≤ d < max_duration)%Z → (d < time_Sub t u ↔ d < t - u)%Z.
Proof. unfold time_Sub, min_duration, max_duration. lia. Qed.

(** [t.UTC().Format(time.RFC3339)]: the civil date of the day number (days since
    1 January of year 1, the Go zero time), then the time of day. *)
Definition civil_of_days (d : Z) : Z * Z * Z :=
  let z := (d + 306)%Z in
  let era := (z / 146097)%Z in
  let doe := (z mod 146097)%Z in
  let yoe := ((doe - doe / 1460 + doe / 36524 - doe / 146096) / 365)%Z in
  let doy := (doe - (365 * yoe + yoe / 4 - yoe / 100))%Z in
  let mp := ((5 * doy + 2) / 153)%Z in
  let day := (doy - (153 * mp + 2) / 5 + 1)%Z in
  let month := (if mp <? 10 then mp + 3 else mp - 9)%Z in
  ((yoe + era * 400 + (if month <=? 2 then 1 else 0))%Z, month, day).

Fixpoint pad0 (n : nat) (s : string) : string :=
  match n with
  | O => s
  | S n => if (String.length s <=? n)%nat then String "0" (pad0 n s) else s
  end.

Definition format_RFC3339 (t : Time) : string :=
  let secs := (t / Second)%Z in
  let '(y, m, d) := civil_of_days (secs / 86400) in
  let sod := (secs mod 86400)%Z in
  let num n v := pad0 n (Itoa v) in
  num 4 y +:+ "-" +:+ num 2 m +:+ "-" +:+ num 2 d +:+ "T" +:+
  num 2 (sod / 3600)%Z +:+ ":" +:+ num 2 (sod / 60 mod 60)%Z +:+ ":" +:+
  num 2 (sod mod 60)%Z +:+ "Z".

Example RFC3339_epoch : format_RFC3339 (62135596800 * Second) = "1970-01-01T00:00:00Z".
Proof. vm_compute. reflexivity. Qed.
Example RFC3339_leap : format_RFC3339 (63844806896 * Second) = "2024-02-29T12:34:56Z".
Proof. vm_compute. reflexivity. Qed.

(** ** Round trip between [Itoa] and [Atoi] *)

Lemma digit_of_pretty x : (x < 10)%N → digit_of (pretty_N_char x) = Some (Z.of_N x).
Proof.
  intros Hx.
  assert (x ∈ [0; 1; 2; 3; 4; 5; 6; 7; 8; 9])%N as Hin.
  { rewrite list_elem_of_In; simpl. lia. }
  repeat (apply elem_of_cons in Hin as [->|Hin]; [done|]). set_solver.
Qed.

Lemma digits_val_go x s acc :
  ∃ k, (1 ≤ k)%Z ∧ digits_val acc (pretty_N_go x s) = digits_val (acc * k + Z.of_N x)%Z s.
Proof.
  revert s acc. induction (N.lt_wf_0 x) as [x _ IH]; intros s acc.
  destruct (decide (0 < x)%N) as [Hx|Hx]; last first.
  { assert (x = 0%N) as -> by lia. exists 1%Z. rewrite pretty_N_go_0. split; [lia|].
    f_equal; lia. }
  rewrite pretty_N_go_step by done.
  destruct (IH (x `div` 10)%N) with (s := String (pretty_N_char (x `mod` 10)) s) (acc := acc)
    as (k & Hk & ->); [by apply N.div_lt|].
  exists (k * 10)%Z. split; [lia|]. simpl.
  rewrite digit_of_pretty by (apply N.mod_lt; done). simpl. f_equal.
  pose proof (N.div_mod x 10 ltac:(done)). lia.
Qed.

Lemma digits_val_pretty_N (n : N) : digits_val 0 (pretty n) = Some (Z.of_N n).
Proof.
  unfold pretty, pretty_N. destruct (decide (n = 0)%N) as [->|Hn]; [done|].
  destruct (digits_val_go n "" 0) as (k & _ & ->). simpl. f_equal; lia.
Qed.

(** A string [digits_val] accepts starts with a digit, so no sign is taken off. *)
Lemma Atoi_digits `{GoArch} s v :
  s ≠ "" → digits_val 0 s = Some v → Atoi s = if in_int v then Some v else None.
Proof.
  intros Hne Hv. unfold Atoi.
  assert (parse_digits s = Some v) as Hp by (by destruct s).
  destruct s as [|c s']; [done|].
  destruct (digit_of c) as [d|] eqn:Hd; [|by simpl in Hv; rewrite Hd in Hv].
  destruct c as [[] [] [] [] [] [] [] []]; try done; by rewrite Hp.
Qed.

Lemma pretty_N_ne n : pretty (n : N) ≠ "".
Proof.
  intros Hn. pose proof (digits_val_pretty_N n) as Hv. rewrite Hn in Hv. simpl in Hv.
  assert (n = 0%N) as -> by (simplify_eq; lia). done.
Qed.

Lemma Itoa_nonneg z : (0 ≤ z)%Z → Itoa z = pretty (Z.to_N z).
Proof. by destruct z. Qed.

Lemma Atoi_Itoa `{GoArch} z :
  (0 ≤ z < 2 ^ (int_bits - 1))%Z → Atoi (Itoa z) = Some z.
Proof.
  intros [Hz Hlt]. rewrite Itoa_nonneg by done.
  rewrite (Atoi_digits _ z); [|apply pretty_N_ne|].
  - unfold in_int. rewrite (proj2 (Z.leb_le _ _)), (proj2 (Z.ltb_lt _ _)); [done|done|].
    destruct int_bits_ok as [->| ->]; lia.
  - rewrite digits_val_pretty_N. f_equal. lia.
Qed.

#[global] Instance Itoa_inj : Inj (=) (=) Itoa.
Proof. apply pretty_Z_inj. Qed.

Lemma str_drop_app p s : str_drop (String.length p) (p +:+ s) = s.
Proof. induction p; simpl; [by destruct s|done]. Qed.

Lemma str_take_app p s : str_take (String.length p) (p +:+ s) = p.
Proof. induction p; simpl; [done|by f_equal]. Qed.

Lemma str_length_app p s : String.length (p +:+ s) = (String.length p + String.length s)%nat.
Proof. induction p; simpl; [done|by f_equal]. Qed.

Lemma format_RFC3339_ne t : format_RFC3339 t ≠ "".
Proof.
  unfold format_RFC3339. destruct (civil_of_days _) as [[y m] d].
  intros E%(f_equal String.length). rewrite !str_length_app in E. simpl in E. lia.
Qed.

(** ** Strings as lists of bytes *)

Abbreviation bytes := String.list_ascii_of_string.

Lemma bytes_app a b : bytes (a +:+ b) = bytes a ++ bytes b.
Proof. induction a as [|c a IH]; [done|]. simpl. by rewrite <- IH. Qed.

Lemma bytes_inj a b : bytes a = bytes b → a = b.
Proof.
  intros E. rewrite <- (String.string_of_list_ascii_of_string a), E.
  apply String.string_of_list_ascii_of_string.
Qed.

Lemma app_inj_l (a b c : string) : a +:+ b = a +:+ c → b = c.
Proof. induction a as [|x a IH]; [done|]. intros E. apply IH. by injection E. Qed.

Lemma str_forallb_app p a b : str_forallb p (a +:+ b) = str_forallb p a && str_forallb p b.
Proof. induction a as [|c a IH]; [done|]. cbn. by rewrite <- andb_assoc, <- IH. Qed.

Lemma str_forallb_bytes p s : str_forallb p s = forallb p (bytes s).
Proof. induction s as [|c s IH]; [done|]. cbn. by rewrite IH. Qed.

Lemma str_forallb_impl (p q : ascii → bool) s :
  (∀ c, p c = true → q c = true) → str_forallb p s = true → str_forallb q s = true.
Proof. intros Hpq. induction s as [|c s IH]; simpl; [done|]. intros H. to_prop. by rewrite Hpq, IH. Qed.

Lemma HasPrefix_app p s : HasPrefix (p +:+ s) p = true.
Proof.
  unfold HasPrefix. induction p as [|c p IH]; simpl; [by destruct s|].
  by destruct (ascii_dec c c).
Qed.

Lemma pretty_digits_go x s : str_forallb is_digit s = true → str_forallb is_digit (pretty_N_go x s) = true.
Proof.
  revert s. induction (N.lt_wf_0 x) as [x _ IH]; intros s Hs.
  destruct (base.decide (0 < x)%N) as [Hx|Hx].
  - rewrite pretty_N_go_step by done. apply IH; [by apply N.div_lt|]. simpl. rewrite Hs, andb_true_r.
    assert (x `mod` 10 < 10)%N as Hm by (by apply N.mod_lt).
    pose proof (digit_of_pretty _ Hm) as E. unfold digit_of in E. unfold is_digit.
    by destruct (_ && _).
  - assert (x = 0%N) as -> by lia. by rewrite pretty_N_go_0.
Qed.

Lemma Itoa_digits n : (0 ≤ n)%Z → Itoa n ≠ "" ∧ str_forallb is_digit (Itoa n) = true.
Proof.
  intros Hn. rewrite Itoa_nonneg by done. split; [apply pretty_N_ne|].
  unfold pretty, pretty_N. case_decide; [done|]. by apply pretty_digits_go.
Qed.
