(* ===== verification/Names.v ===== *)
(** * Tunnel identities and the state matrix

    [internal/tunnel/types.go]: the ISP-interface references, the lifecycle
    [TunnelState] values, the runtime [Config] and the naming scheme [NewNames];
    [internal/tunnel/nwg/names.go]: the NativeWG naming scheme;
    [internal/tunnel/state/matrix_v2.go]: the state matrix. *)
From S2P Require Import Prelude GoLib.

(** ** References to WAN interfaces and other tunnels *)

Definition ISPInterfaceTunnelPrefix : string := "tunnel:".
Definition SystemTunnelPrefix : string := "system:".

Definition IsTunnelRoute (ispInterface : string) : bool :=
  HasPrefix ispInterface ISPInterfaceTunnelPrefix.
Definition TunnelRouteID (ispInterface : string) : string :=
  TrimPrefix ispInterface ISPInterfaceTunnelPrefix.
Definition IsSystemTunnel (tunnelID : string) : bool :=
  HasPrefix tunnelID SystemTunnelPrefix.
Definition SystemTunnelName (tunnelID : string) : string :=
  TrimPrefix tunnelID SystemTunnelPrefix.

(** ** Tunnel states *)

Inductive TunnelState :=
  | StateUnknown | StateNotCreated | StateStopped | StateStarting | StateRunning
  | StateStopping | StateBroken | StateNeedsStart | StateNeedsStop | StateDisabled.

#[export] Instance TunnelState_eq_dec : EqDecision TunnelState.
Proof. solve_decision. Defined.

Definition state_String (s : TunnelState) : string :=
  match s with
  | StateUnknown => "unknown"
  | StateNotCreated => "not_created"
  | StateStopped => "stopped"
  | StateStarting => "starting"
  | StateRunning => "running"
  | StateStopping => "stopping"
  | StateBroken => "broken"
  | StateNeedsStart => "needs_start"
  | StateNeedsStop => "needs_stop"
  | StateDisabled => "disabled"
  end.

Definition IsTerminal (s : TunnelState) : bool :=
  match s with
  | StateNotCreated | StateStopped | StateRunning | StateBroken | StateDisabled => true
  | _ => false
  end.

Record StateInfo := {
  si_State : TunnelState;
  si_ProcessRunning : bool;
  si_HasHandshake : bool;
}.

Inductive InterfaceIntent := IntentDown | IntentUp.

Record StateInputs := {
  HasNDMS : bool;
  OpkgTunExists : bool;
  Intent : InterfaceIntent;
  LinkUp : bool;
  ProcessRunning : bool;
  HasPeer : bool;
}.

Definition DetermineState (input : StateInputs) : TunnelState :=
  if negb (HasNDMS input) then
    if ProcessRunning input then
      if LinkUp input && HasPeer input then StateRunning else StateStarting
    else StateStopped
  else if negb (OpkgTunExists input) then StateNotCreated
  else match Intent input with
  | IntentUp =>
      if ProcessRunning input && LinkUp input then StateRunning
      else if ProcessRunning input then StateStarting
      else StateNeedsStart
  | IntentDown =>
      if ProcessRunning input then StateNeedsStop else StateDisabled
  end.

(** ** Runtime configuration *)

Record Config := {
  cfg_ID : string;
  cfg_Name : string;
  cfg_Address : string;
  cfg_AddressIPv6 : string;
  cfg_MTU : Z;
  cfg_DNS : list string;
  cfg_ConfPath : string;
  cfg_DefaultRoute : bool;
  cfg_ISPInterface : string;
  cfg_KernelDevice : string;
  cfg_EndpointIP : string;
  cfg_Endpoint : string;
}.

Definition set_MTU (c : Config) (m : Z) : Config := {|
  cfg_ID := cfg_ID c; cfg_Name := cfg_Name c; cfg_Address := cfg_Address c;
  cfg_AddressIPv6 := cfg_AddressIPv6 c; cfg_MTU := m; cfg_DNS := cfg_DNS c;
  cfg_ConfPath := cfg_ConfPath c; cfg_DefaultRoute := cfg_DefaultRoute c;
  cfg_ISPInterface := cfg_ISPInterface c; cfg_KernelDevice := cfg_KernelDevice c;
  cfg_EndpointIP := cfg_EndpointIP c; cfg_Endpoint := cfg_Endpoint c |}.

(** [Config.Validate]: the receiver is updated in place (the default MTU is
    written even when a later check fails), the result is the error, if any. *)
Definition Validate (c : Config) : Config * option string :=
  if String.eqb (cfg_ID c) "" then (c, Some "tunnel ID is required")
  else if String.eqb (cfg_Address c) "" then (c, Some "address is required")
  else
    let c := if (cfg_MTU c <=? 0)%Z then set_MTU c 1420 else c in
    if String.eqb (cfg_ConfPath c) "" then (c, Some "config path is required")
    else (c, None).

Section names.
Context `{U : GoUnicode}.

Definition ParseDNSList (dns : string) : list string :=
  if String.eqb dns "" then []
  else filter (λ s, s ≠ "") (TrimSpace <$> split_byte "," dns).

(** ** Interface names *)

Record Names := {
  TunnelID : string;
  TunnelNum : string;
  NDMSName : string;
  IfaceName : string;
  ConfPath : string;
  SocketPath : string;
}.

Fixpoint extractTunnelNum (id : string) : string :=
  match id with
  | EmptyString => "0"
  | String c id' => match digit_of c with Some _ => id | None => extractTunnelNum id' end
  end.

Definition NewNames (tunnelID : string) : Names :=
  let num := extractTunnelNum tunnelID in
  let '(ndmsName, ifaceName) :=
    if HasPrefix tunnelID "awgm" then ("", tunnelID)
    else let n := "OpkgTun" +:+ num in (n, ToLower n) in
  {| TunnelID := tunnelID;
     TunnelNum := num;
     NDMSName := ndmsName;
     IfaceName := ifaceName;
     ConfPath := "/opt/etc/awg-manager/" +:+ tunnelID +:+ ".conf";
     SocketPath := "/tmp/run/amneziawg/" +:+ ifaceName +:+ ".sock" |}.

Record NWGNames := {
  nwg_Index : Z;
  nwg_NDMSName : string;
  nwg_IfaceName : string;
}.

Definition NewNWGNames (index : Z) : NWGNames := {|
  nwg_Index := index;
  nwg_NDMSName := "Wireguard" +:+ Itoa index;
  nwg_IfaceName := "nwg" +:+ Itoa index |}.
End names.
