(* ===== verification/Storage.v ===== *)
(** * Tunnel storage ([internal/storage])

    [types.go]: the stored tunnel record; [awg_store.go]: the store over a
    directory of JSON files and the allocation of tunnel IDs.

    [TunnelStore] is the interface the orchestrator relies on; [disk] is the
    directory, with an I/O fault allowed at every access, and its instance
    proves the laws. *)
From S2P Require Import Prelude GoLib.

(** ** Stored data

    The fields the modelled code reads or writes; the obfuscation parameters,
    keys and labels of [storage.AWGTunnel] travel unchanged and are left out. *)

Record TunnelPingCheck := {
  pc_Enabled : bool;
  pc_Method : string;
  pc_Target : string;
  pc_Interval : Z;
  pc_FailThreshold : Z;
  pc_MinSuccess : Z;
  pc_Timeout : Z;
  pc_Port : Z;
  pc_Restart : bool;
}.

Record AWGTunnel := {
  t_ID : string;
  t_Name : string;
  t_Type : string;
  t_Enabled : bool;
  t_DefaultRoute : bool;
  t_DefaultRouteSet : bool;
  t_ISPInterface : string;
  t_ResolvedEndpointIP : string;
  t_ActiveWAN : string;
  t_StartedAt : string;
  t_Backend : string;
  t_NWGIndex : Z;
  t_Address : string;
  t_MTU : Z;
  t_DNS : string;
  t_Endpoint : string;
  t_PingCheck : option TunnelPingCheck;
}.

#[export] Instance TunnelPingCheck_eq_dec : EqDecision TunnelPingCheck.
Proof. solve_decision. Defined.
#[export] Instance AWGTunnel_eq_dec : EqDecision AWGTunnel.
Proof. solve_decision. Defined.

(** Field updates ([stored.F = v] in the source). *)
Definition upd (t : AWGTunnel) (en : bool) (ip wan at_ : string) : AWGTunnel := {|
  t_ID := t_ID t; t_Name := t_Name t; t_Type := t_Type t; t_Enabled := en;
  t_DefaultRoute := t_DefaultRoute t; t_DefaultRouteSet := t_DefaultRouteSet t;
  t_ISPInterface := t_ISPInterface t; t_ResolvedEndpointIP := ip;
  t_ActiveWAN := wan; t_StartedAt := at_; t_Backend := t_Backend t;
  t_NWGIndex := t_NWGIndex t; t_Address := t_Address t; t_MTU := t_MTU t;
  t_DNS := t_DNS t; t_Endpoint := t_Endpoint t; t_PingCheck := t_PingCheck t |}.
Definition set_Enabled (b : bool) (t : AWGTunnel) : AWGTunnel :=
  upd t b (t_ResolvedEndpointIP t) (t_ActiveWAN t) (t_StartedAt t).
Definition set_ResolvedEndpointIP (v : string) (t : AWGTunnel) : AWGTunnel :=
  upd t (t_Enabled t) v (t_ActiveWAN t) (t_StartedAt t).
Definition set_ActiveWAN (v : string) (t : AWGTunnel) : AWGTunnel :=
  upd t (t_Enabled t) (t_ResolvedEndpointIP t) v (t_StartedAt t).
Definition set_StartedAt (v : string) (t : AWGTunnel) : AWGTunnel :=
  upd t (t_Enabled t) (t_ResolvedEndpointIP t) (t_ActiveWAN t) v.

(** [if tunnel.Type == "" { tunnel.Type = "awg" }] *)
Definition default_type (t : AWGTunnel) : AWGTunnel :=
  if String.eqb (t_Type t) "" then {|
    t_ID := t_ID t; t_Name := t_Name t; t_Type := "awg"; t_Enabled := t_Enabled t;
    t_DefaultRoute := t_DefaultRoute t; t_DefaultRouteSet := t_DefaultRouteSet t;
    t_ISPInterface := t_ISPInterface t; t_ResolvedEndpointIP := t_ResolvedEndpointIP t;
    t_ActiveWAN := t_ActiveWAN t; t_StartedAt := t_StartedAt t; t_Backend := t_Backend t;
    t_NWGIndex := t_NWGIndex t; t_Address := t_Address t; t_MTU := t_MTU t;
    t_DNS := t_DNS t; t_Endpoint := t_Endpoint t; t_PingCheck := t_PingCheck t |}
  else t.

(** [if !tunnel.DefaultRouteSet { DefaultRoute = true; DefaultRouteSet = true }] *)
Definition default_route (t : AWGTunnel) : AWGTunnel :=
  if t_DefaultRouteSet t then t else {|
    t_ID := t_ID t; t_Name := t_Name t; t_Type := t_Type t; t_Enabled := t_Enabled t;
    t_DefaultRoute := true; t_DefaultRouteSet := true;
    t_ISPInterface := t_ISPInterface t; t_ResolvedEndpointIP := t_ResolvedEndpointIP t;
    t_ActiveWAN := t_ActiveWAN t; t_StartedAt := t_StartedAt t; t_Backend := t_Backend t;
    t_NWGIndex := t_NWGIndex t; t_Address := t_Address t; t_MTU := t_MTU t;
    t_DNS := t_DNS t; t_Endpoint := t_Endpoint t; t_PingCheck := t_PingCheck t |}.

(** What every reader sees of a parsed file. *)
Definition migrate (t : AWGTunnel) : AWGTunnel := default_route (default_type t).

(** ** The interface *)

Class StoreOps (S : Type) := {
  store_Get : string → S → (string + AWGTunnel) * S;
  store_List : S → (string + list AWGTunnel) * S;
  store_Save : AWGTunnel → S → option string * S;
  store_Delete : string → S → option string * S;
  (** the tunnels a fault-free [Get] would return, by file name *)
  store_view : S → gmap string AWGTunnel;
}.

(** What the callers may rely on: reads change nothing, a successful [Save]
    installs exactly the given record, a failed write changes nothing; readers
    see migrated records. *)
Class TunnelStore (S : Type) `{!StoreOps S} : Prop := {
  store_Get_view id s : store_view (store_Get id s).2 = store_view s;
  store_Get_sound id s t : (store_Get id s).1 = inr t → store_view s !! id = Some t;
  store_view_migrated id s t : store_view s !! id = Some t → migrate t = t;
  store_List_view s : store_view (store_List s).2 = store_view s;
  store_List_sound s l t :
    (store_List s).1 = inr l → t ∈ l → ∃ id, store_view s !! id = Some t;
  store_Save_ok t s :
    (store_Save t s).1 = None →
    store_view (store_Save t s).2 = <[t_ID t := migrate t]> (store_view s);
  store_Save_err t s e :
    (store_Save t s).1 = Some e → store_view (store_Save t s).2 = store_view s;
  store_Delete_ok id s :
    (store_Delete id s).1 = None →
    store_view (store_Delete id s).2 = delete id (store_view s);
  store_Delete_err id s e :
    (store_Delete id s).1 = Some e → store_view (store_Delete id s).2 = store_view s;
}.

(** ** The directory of JSON files

    [d_files] maps a file stem (the file is [stem ++ ".json"]) to its content;
    [d_faults] lists the outcome of the coming file-system accesses, [true] for
    an I/O error (lock timeout, read, write, rename or remove failure). *)
Inductive file := FJson (t : AWGTunnel) | FCorrupt (raw : string).

Record disk := { d_files : gmap string file; d_faults : list bool }.

Definition next_fault (d : disk) : bool * disk :=
  match d_faults d with
  | [] => (false, d)
  | b :: bs => (b, {| d_files := d_files d; d_faults := bs |})
  end.

Definition set_files (d : disk) (m : gmap string file) : disk :=
  {| d_files := m; d_faults := d_faults d |}.

Definition Get (id : string) (d : disk) : (string + AWGTunnel) * disk :=
  let '(bad, d) := next_fault d in
  match d_files d !! id with
  | None => (inl "tunnel not found", d)
  | Some f =>
      if bad then (inl "read tunnel file", d)
      else match f with
      | FCorrupt _ => (inl "parse tunnel JSON", d)
      | FJson t => (inr (migrate t), d)
      end
  end.

(** [os.ReadDir] sorts by file name. *)
Definition name_le (a b : string) : Prop := String.le (String.append a ".json") (String.append b ".json").
#[export] Instance name_le_dec : RelDecision name_le.
Proof. intros a b. unfold name_le. apply _. Defined.

(** The loop of [List]: an unreadable file is skipped, a corrupt one is
    quarantined (renamed, unless the rename itself fails) and skipped. *)
Fixpoint List_go (ids : list string) (d : disk) : list AWGTunnel * disk :=
  match ids with
  | [] => ([], d)
  | id :: ids =>
      let '(bad, d) := next_fault d in
      if bad then List_go ids d
      else match d_files d !! id with
      | None => List_go ids d
      | Some (FCorrupt _) =>
          let '(stuck, d) := next_fault d in
          List_go ids (if stuck then d else set_files d (delete id (d_files d)))
      | Some (FJson t) =>
          let '(ts, d) := List_go ids d in (migrate t :: ts, d)
      end
  end.

Definition List (d : disk) : (string + list AWGTunnel) * disk :=
  let '(bad, d) := next_fault d in
  if bad then (inl "read tunnels directory", d)
  else
    let '(ts, d) := List_go (merge_sort name_le (map_to_list (d_files d)).*1) d in
    (inr ts, d).

Definition Save (t : AWGTunnel) (d : disk) : option string * disk :=
  let '(locked, d) := next_fault d in
  if locked then (Some "acquire lock", d)
  else
    let t := default_type t in
    let '(bad, d) := next_fault d in
    if bad then (Some "write tunnel file", d)
    else (None, set_files d (<[t_ID t := FJson t]> (d_files d))).

Definition Delete (id : string) (d : disk) : option string * disk :=
  let '(locked, d) := next_fault d in
  if locked then (Some "acquire lock", d)
  else match d_files d !! id with
  | None => (Some "tunnel not found", d)
  | Some _ =>
      let '(bad, d) := next_fault d in
      if bad then (Some "remove tunnel file", d)
      else (None, set_files d (delete id (d_files d)))
  end.

Definition parsed (f : file) : option AWGTunnel :=
  match f with FJson t => Some (migrate t) | FCorrupt _ => None end.

#[export] Instance disk_ops : StoreOps disk := {|
  store_Get := Get;
  store_List := List;
  store_Save := Save;
  store_Delete := Delete;
  store_view d := omap parsed (d_files d);
|}.

(** [ClearRuntimeState] of any store. *)
Definition ClearRuntimeState {S : Type} `{!StoreOps S} (id : string) (s : S) : S :=
  let '(r, s) := store_Get id s in
  match r with
  | inl _ => s
  | inr stored =>
      if negb (String.eqb (t_ActiveWAN stored) "") || negb (String.eqb (t_StartedAt stored) "")
      then (store_Save (set_StartedAt "" (set_ActiveWAN "" stored)) s).2
      else s
  end.

Lemma next_fault_files d : d_files (next_fault d).2 = d_files d.
Proof. unfold next_fault. by destruct (d_faults d). Qed.

Ltac next_fault_step :=
  match goal with
  | |- context [next_fault ?d] =>
      pose proof (next_fault_files d); destruct (next_fault d) as [? ?]; simpl in *
  | H : context [next_fault ?d] |- _ =>
      pose proof (next_fault_files d); destruct (next_fault d) as [? ?]; simpl in *
  end.

Lemma migrate_default_type t : migrate (default_type t) = migrate t.
Proof. unfold migrate, default_type. by destruct (String.eqb (t_Type t) "") eqn:E; simpl; rewrite ?E. Qed.

Lemma default_type_ID t : t_ID (default_type t) = t_ID t.
Proof. unfold default_type. by case_match. Qed.

Lemma migrate_idemp t : migrate (migrate t) = migrate t.
Proof.
  unfold migrate, default_type, default_route.
  destruct (String.eqb (t_Type t) "") eqn:E, (t_DefaultRouteSet t) eqn:F;
    simpl; rewrite ?E; simpl; by rewrite ?F.
Qed.

(** A record that needs no migration, and its run-time updates. *)
Lemma migrate_fix t :
  migrate t = t ↔ String.eqb (t_Type t) "" = false ∧ t_DefaultRouteSet t = true.
Proof.
  unfold migrate, default_type, default_route. split.
  - intros H. destruct (String.eqb (t_Type t) "") eqn:E, (t_DefaultRouteSet t) eqn:F;
      simpl in *; rewrite ?F in *; try done;
      apply (f_equal t_Type) in H as Ht; apply (f_equal t_DefaultRouteSet) in H as Hd;
      simpl in *; try congruence; by rewrite <- Ht in E.
  - intros [-> ->]. done.
Qed.

Lemma migrate_upd t en ip wan at_ : migrate t = t → migrate (upd t en ip wan at_) = upd t en ip wan at_.
Proof. rewrite !migrate_fix. done. Qed.

(** [omap parsed] over the files: what writing and removing a file do to it. *)
Lemma view_insert (m : gmap string file) id t :
  omap parsed (<[id := FJson t]> m) = <[id := migrate t]> (omap parsed m).
Proof. by rewrite (omap_insert_Some _ _ _ _ (migrate t)). Qed.

Lemma view_delete_corrupt (m : gmap string file) id raw :
  m !! id = Some (FCorrupt raw) → omap parsed (delete id m) = omap parsed m.
Proof.
  intros Hm. apply map_eq. intros j. rewrite !lookup_omap, lookup_delete.
  case_decide as Hj; [subst; by rewrite Hm|done].
Qed.

Lemma List_go_view ids d : omap parsed (d_files (List_go ids d).2) = omap parsed (d_files d).
Proof.
  revert d. induction ids as [|id ids IH]; intros d; simpl; [done|].
  next_fault_step. case_match; [by rewrite IH; f_equal|].
  destruct (d_files _ !! id) as [[t|raw]|] eqn:Hf; [| |by rewrite IH; f_equal].
  - match goal with |- context [List_go ids ?d'] =>
      specialize (IH d'); destruct (List_go ids d') as [ts d''] end.
    simpl in *. congruence.
  - next_fault_step. rewrite IH. case_match; [congruence|]. simpl.
    rewrite view_delete_corrupt with (raw := raw) by congruence. congruence.
Qed.

Lemma List_go_sound ids d t :
  t ∈ (List_go ids d).1 → ∃ id, omap parsed (d_files d) !! id = Some t.
Proof.
  revert d. induction ids as [|id ids IH]; intros d; simpl; [set_solver|].
  assert (∀ d', omap parsed (d_files d') = omap parsed (d_files d) →
    t ∈ (List_go ids d').1 → ∃ i, omap parsed (d_files d) !! i = Some t) as IH'.
  { intros d' Hd' Ht. rewrite <- Hd'. by apply IH. }
  next_fault_step. case_match; [apply IH'; congruence|].
  destruct (d_files _ !! id) as [[t'|raw]|] eqn:Hf; [| |apply IH'; congruence].
  - match goal with |- context [List_go ids ?d'] =>
      specialize (IH' d'); destruct (List_go ids d') as [ts d''] end.
    simpl in *. intros [->|Ht]%elem_of_cons; [|apply IH'; [congruence|done]].
    exists id. rewrite lookup_omap. replace (d_files d) with (d_files d0) by congruence.
    by rewrite Hf.
  - next_fault_step. apply IH'. case_match; [congruence|]. simpl.
    rewrite view_delete_corrupt with (raw := raw) by congruence. congruence.
Qed.

(** The directory keeps the promises of the interface, whatever the faults. *)
#[export] Instance disk_store : TunnelStore disk.
Proof.
  split; simpl.
  - intros id d. unfold Get. next_fault_step. repeat case_match; simpl; congruence.
  - intros id d t. unfold Get. next_fault_step. rewrite lookup_omap.
    replace (d_files d) with (d_files d0) by done. repeat case_match; naive_solver.
  - intros id d t. rewrite lookup_omap. destruct (d_files d !! id) as [[t'|]|]; simpl;
      intros ?; simplify_eq. apply migrate_idemp.
  - intros d. unfold List. next_fault_step. case_match; simpl; [congruence|].
    pose proof (List_go_view (merge_sort name_le (map_to_list (d_files d0)).*1) d0).
    destruct (List_go _ _). simpl in *. congruence.
  - intros d l t. unfold List. next_fault_step. case_match; simpl; [done|].
    pose proof (List_go_sound (merge_sort name_le (map_to_list (d_files d0)).*1) d0 t).
    destruct (List_go _ _). simpl in *. intros ? Ht. simplify_eq.
    replace (d_files d) with (d_files d0) by done. auto.
  - intros t d. unfold Save. next_fault_step. case_match; [done|]. next_fault_step.
    case_match; [done|]. intros _. simpl.
    rewrite view_insert, default_type_ID, migrate_default_type. congruence.
  - intros t d e. unfold Save. next_fault_step. case_match; simpl; [congruence|].
    next_fault_step. case_match; simpl; [congruence|done].
  - intros id d. unfold Delete. next_fault_step. case_match; [done|].
    case_match; [|done]. next_fault_step. case_match; [done|]. intros _. simpl.
    rewrite omap_delete. congruence.
  - intros id d e. unfold Delete. next_fault_step. case_match; simpl; [congruence|].
    case_match; simpl; [|congruence]. next_fault_step. case_match; simpl; [congruence|done].
Qed.

(** ** Allocation of tunnel IDs *)

Definition os5MinIndex : Z := 10.
Definition os5MaxIndex : Z := 16.
Definition os5NWGMinIndex : Z := 20.

Section next_id.
Context `{A : GoArch}.

(** The numbers of the IDs with the given prefix: the map [existing]. *)
Definition id_num (pre : string) (t : AWGTunnel) : option Z :=
  let n := String.length pre in
  if (n <? String.length (t_ID t))%nat && String.eqb (str_take n (t_ID t)) pre
  then Atoi (str_drop n (t_ID t)) else None.

Definition existing_nums (pre : string) (tunnels : list AWGTunnel) : gset Z :=
  list_to_set (omap (id_num pre) tunnels).

(** [for i := start; ; i++ { if !existing[i] { return i } }], with fuel. *)
Fixpoint first_free (fuel : nat) (i : Z) (existing : gset Z) : option Z :=
  match fuel with
  | O => None
  | S fuel =>
      if decide (i ∈ existing) then first_free fuel (i + 1) existing else Some i
  end.

(** [for i := first; i <= last; i++] with the same test. *)
Definition first_free_upto (first last : Z) (existing : gset Z) : option Z :=
  first_free (Z.to_nat (last - first + 1)) first existing.

(** [None]: the unbounded search ran out of fuel (it does not, see below);
    [Some (inl _)]: the error result. *)
Definition nextAvailableID (tunnels : list AWGTunnel) (backend : string) (is5 : bool)
    : option (string + string) :=
  let fuel := S (length tunnels) in
  if is5 then
    let existing := existing_nums "awg" tunnels in
    if String.eqb backend "nativewg" then
      i ← first_free fuel os5NWGMinIndex existing;
      Some (inr ("awg" +:+ Itoa i))
    else
      match first_free_upto os5MinIndex os5MaxIndex existing with
      | Some i => Some (inr ("awg" +:+ Itoa i))
      | None => Some (inl "maximum number of tunnels reached")
      end
  else
    let existing := existing_nums "awgm" tunnels in
    i ← first_free fuel 0%Z existing;
    Some (inr ("awgm" +:+ Itoa i)).

Lemma first_free_Some fuel i ex j :
  first_free fuel i ex = Some j →
  (i ≤ j < i + Z.of_nat fuel)%Z ∧ (j ∉ ex) ∧ (∀ k, (i ≤ k < j)%Z → k ∈ ex).
Proof.
  revert i. induction fuel as [|fuel IH]; intros i; simpl; [done|].
  case_decide as Hi.
  - intros (Hj & Hfree & Hall)%IH. repeat split; [lia|lia|done|].
    intros k Hk. destruct (decide (k = i)) as [->|]; [done|]. apply Hall. lia.
  - intros ?; simplify_eq. repeat split; [lia|lia|done|lia].
Qed.

Lemma first_free_None fuel i ex :
  first_free fuel i ex = None → ∀ k, (i ≤ k < i + Z.of_nat fuel)%Z → k ∈ ex.
Proof.
  revert i. induction fuel as [|fuel IH]; intros i; simpl; [lia|].
  case_decide as Hi; [|done]. intros Hn k Hk.
  destruct (decide (k = i)) as [->|]; [done|]. apply (IH _ Hn). lia.
Qed.

(** Pigeonhole: [S (length tunnels)] candidates are enough. *)
Lemma first_free_total pre tunnels i :
  is_Some (first_free (S (length tunnels)) i (existing_nums pre tunnels)).
Proof.
  destruct (first_free _ _ _) eqn:E; [done|]. exfalso.
  set (n := S (length tunnels)).
  assert (list_to_set (seqZ i (Z.of_nat n)) ⊆ existing_nums pre tunnels) as Hsub.
  { intros k Hk. apply elem_of_list_to_set, elem_of_seqZ in Hk.
    apply (first_free_None _ _ _ E). lia. }
  apply subseteq_size in Hsub.
  rewrite size_list_to_set in Hsub by apply NoDup_seqZ.
  rewrite length_seqZ in Hsub. unfold existing_nums in Hsub.
  pose proof (size_list_to_set_le (omap (id_num pre) tunnels)).
  pose proof (length_omap_le (id_num pre) tunnels). lia.
Qed.

Lemma id_num_eq pre t i :
  (0 ≤ i < 2 ^ (int_bits - 1))%Z → t_ID t = pre +:+ Itoa i → id_num pre t = Some i.
Proof.
  intros Hi Ht. unfold id_num. rewrite Ht, str_take_app, str_drop_app, String.eqb_refl.
  rewrite str_length_app. destruct (Itoa i) as [|c s] eqn:E.
  - rewrite Itoa_nonneg in E by lia. by apply pretty_N_ne in E.
  - rewrite (proj2 (Nat.ltb_lt _ _)) by (simpl; lia). simpl. rewrite <- E.
    by apply Atoi_Itoa.
Qed.

Lemma id_fresh pre tunnels i :
  (0 ≤ i < 2 ^ (int_bits - 1))%Z → i ∉ existing_nums pre tunnels →
  pre +:+ Itoa i ∉ t_ID <$> tunnels.
Proof.
  intros Hi Hn (t & Heq & Ht)%list_elem_of_fmap. apply Hn.
  unfold existing_nums. apply elem_of_list_to_set, list_elem_of_omap.
  exists t. split; [done|]. by apply id_num_eq.
Qed.

Lemma int_bits_big i : (i < 2 ^ 31)%Z → (i < 2 ^ (int_bits - 1))%Z.
Proof. destruct int_bits_ok as [->| ->]; lia. Qed.
End next_id.

(** [NextAvailableID] always terminates; the ID it hands out belongs to no
    stored tunnel; and it reports "maximum number of tunnels" only for a kernel
    tunnel on OS 5 with all of awg10..awg16 taken. *)
Theorem nextAvailableID_fresh `{GoArch} tunnels backend is5
    (Hlen : (Z.of_nat (length tunnels) < 2 ^ 30)%Z) :
  ∃ r, nextAvailableID tunnels backend is5 = Some r ∧
    match r with
    | inr id => id ∉ t_ID <$> tunnels
    | inl _ => is5 = true ∧ backend ≠ "nativewg" ∧
        ∀ i, (os5MinIndex ≤ i ≤ os5MaxIndex)%Z → i ∈ existing_nums "awg" tunnels
    end.
Proof.
  unfold nextAvailableID, os5NWGMinIndex.
  assert (∀ pre st, (0 ≤ st ≤ 20)%Z → ∃ i,
    first_free (S (length tunnels)) st (existing_nums pre tunnels) = Some i ∧
    pre +:+ Itoa i ∉ t_ID <$> tunnels) as Hloop.
  { intros pre st Hst. destruct (first_free_total pre tunnels st) as [i Hi].
    exists i. split; [done|]. apply first_free_Some in Hi as (Hr & Hfree & _).
    apply id_fresh; [|done]. split; [lia|]. apply int_bits_big. lia. }
  destruct is5; [destruct (String.eqb backend "nativewg") eqn:Hb|].
  - destruct (Hloop "awg" 20%Z) as (i & -> & Hi); [lia|]. simpl. eauto.
  - unfold first_free_upto, os5MinIndex, os5MaxIndex. destruct (first_free _ _ _) as [i|] eqn:E.
    + eexists. split; [done|]. apply first_free_Some in E as (Hr & Hfree & _).
      apply id_fresh; [|done]. split; [lia|]. apply int_bits_big. lia.
    + eexists. split; [done|]. to_prop. do 2 (split; [done|]).
      intros i Hi. apply (first_free_None _ _ _ E). lia.
  - destruct (Hloop "awgm" 0%Z) as (i & -> & Hi); [lia|]. simpl. eauto.
Qed.

Definition ex_tunnel (id : string) : AWGTunnel := {|
  t_ID := id; t_Name := "t"; t_Type := "awg"; t_Enabled := true; t_DefaultRoute := true;
  t_DefaultRouteSet := true; t_ISPInterface := ""; t_ResolvedEndpointIP := "";
  t_ActiveWAN := ""; t_StartedAt := ""; t_Backend := "kernel"; t_NWGIndex := 0;
  t_Address := "10.8.0.2/32"; t_MTU := 1280; t_DNS := ""; t_Endpoint := "198.51.100.7:51820";
  t_PingCheck := None |}.

Lemma nextAvailableID_fresh_witness :
  ∃ r, @nextAvailableID arch32 [ex_tunnel "awg10"; ex_tunnel "awg12"] "kernel" true = Some r ∧
    match r with
    | inr id => id ∉ t_ID <$> [ex_tunnel "awg10"; ex_tunnel "awg12"]
    | inl _ => true = true ∧ "kernel" ≠ "nativewg" ∧
        ∀ i, (os5MinIndex ≤ i ≤ os5MaxIndex)%Z →
          i ∈ @existing_nums arch32 "awg" [ex_tunnel "awg10"; ex_tunnel "awg12"]
    end.
Proof. apply (@nextAvailableID_fresh arch32). simpl. lia. Defined.
