(* ===== verification/Wan.v ===== *)
(** * The WAN state model ([internal/tunnel/wan/model.go])

    Every WAN interface, keyed by kernel name; the lifecycle code asks it which
    WANs are up and which one the user prefers. *)
From S2P Require Import Prelude GoLib.

Record Interface := {
  Name : string;
  ID : string;
  Label : string;
  Up : bool;
  Priority : Z;
}.

Record Model := {
  interfaces : gmap string Interface;
  populated : bool;
}.

Definition NewModel : Model := {| interfaces := ∅; populated := false |}.

Definition set_Up (b : bool) (i : Interface) : Interface :=
  {| Name := Name i; ID := ID i; Label := Label i; Up := b; Priority := Priority i |}.

(** A later entry with the same name overwrites the earlier one. *)
Definition Populate (l : list Interface) (m : Model) : Model := {|
  interfaces := foldl (λ acc i, <[Name i := i]> acc) ∅ l;
  populated := true;
|}.

(** [SetUp]: the new model and whether the state changed.  [repopulateFn] is
    the callback that re-queries NDMS; it may do anything to the model. *)
Definition SetUp (repopulateFn : option (Model → Model)) (name : string) (up : bool)
    (m : Model) : Model * bool :=
  let put m i := {| interfaces := <[name := set_Up up i]> (interfaces m);
                    populated := populated m |} in
  match interfaces m !! name with
  | Some i => (put m i, negb (Bool.eqb (Up i) up))
  | None =>
      match repopulateFn with
      | Some fn =>
          if populated m then
            let m := fn m in
            match interfaces m !! name with
            | Some i => (put m i, true)
            | None => (m, false)
            end
          else (m, false)
      | None => (m, false)
      end
  end.

Definition IsUp (name : string) (m : Model) : bool :=
  match interfaces m !! name with Some i => Up i | None => false end.

Definition Known (name : string) (m : Model) : bool :=
  match interfaces m !! name with Some _ => true | None => false end.

Definition GetLabel (name : string) (m : Model) : string :=
  match interfaces m !! name with Some i => Label i | None => "" end.

Definition IDFor (kernelName : string) (m : Model) : string :=
  match interfaces m !! kernelName with Some i => ID i | None => "" end.

(** The loops over [m.interfaces] take the iteration order. *)
Definition AnyUp (ord : list (string * Interface)) : bool :=
  existsb (λ e, Up e.2) ord.

Definition better (best : option Interface) (e : string * Interface) : option Interface :=
  if Up e.2 then
    match best with
    | None => Some e.2
    | Some b => if (Priority b <? Priority e.2)%Z then Some e.2 else best
    end
  else best.

Definition PreferredUp (ord : list (string * Interface)) : option string :=
  Name <$> foldl better None ord.

Definition NameForID (ndmsID : string) (ord : list (string * Interface)) : string :=
  match find (λ e, String.eqb (ID e.2) ndmsID) ord with
  | Some e => Name e.2
  | None => ""
  end.

Definition name_lt (a b : Interface) : Prop := String.le (Name a) (Name b).
#[export] Instance name_lt_dec : RelDecision name_lt.
Proof. intros a b. unfold name_lt. apply _. Defined.

(** [ForUI]: sorted by name (names are unique, so the sort is determined). *)
Definition ForUI (ord : list (string * Interface)) : list Interface :=
  merge_sort name_lt ord.*2.

(** ** Invariant: an interface is filed under its own name *)
Definition wf (m : Model) : Prop := ∀ k i, interfaces m !! k = Some i → Name i = k.

Lemma wf_put m k i b : wf m → interfaces m !! k = Some i →
  wf {| interfaces := <[k := set_Up b i]> (interfaces m); populated := populated m |}.
Proof.
  intros Hm Hk k' i'. simpl. rewrite lookup_insert. case_decide; [|apply Hm].
  intros; simplify_eq/=. by apply Hm.
Qed.

Lemma wf_Populate l m : wf (Populate l m).
Proof.
  unfold wf, Populate; simpl.
  assert (∀ acc : gmap string Interface, (∀ k i, acc !! k = Some i → Name i = k) →
    ∀ k i, foldl (λ acc i, <[Name i := i]> acc) acc l !! k = Some i → Name i = k) as H.
  { induction l as [|x l IH]; intros acc Hacc; simpl; [done|].
    apply IH. intros k i. rewrite lookup_insert. case_decide; naive_solver. }
  apply H. intros k i. by rewrite lookup_empty.
Qed.

Lemma wf_SetUp fn name up m :
  wf m → (∀ f, fn = Some f → wf (f m)) → wf (SetUp fn name up m).1.
Proof.
  intros Hm Hf. unfold SetUp. case_match eqn:E; [by apply wf_put|].
  destruct fn as [f|]; [|done]. destruct (populated m); [|done].
  specialize (Hf f eq_refl). case_match; [by apply wf_put|done].
Qed.

#[export] Hint Resolve wf_put wf_Populate wf_SetUp : awg.

(** ** What the loops compute *)
Definition best_of (seen : list (string * Interface)) (best : option Interface) : Prop :=
  match best with
  | None => ∀ e, e ∈ seen → Up e.2 = false
  | Some r =>
      (∃ e, e ∈ seen ∧ e.2 = r ∧ Up r = true) ∧
      (∀ e, e ∈ seen → Up e.2 = true → (Priority e.2 ≤ Priority r)%Z)
  end.

Lemma best_of_better seen b e : best_of seen b → best_of (seen ++ [e]) (better b e).
Proof.
  assert (∀ e', e' ∈ seen ++ [e] → e' ∈ seen ∨ e' = e) as Hcases.
  { intros e' [?|?%list_elem_of_singleton]%elem_of_app; auto. }
  assert (e ∈ seen ++ [e] ∧ ∀ e', e' ∈ seen → e' ∈ seen ++ [e]) as [He Hseen].
  { split; intros; apply elem_of_app; [right; by left|by left]. }
  unfold better, best_of. destruct b as [r|].
  - intros [(e0 & Hin & Hr & Hur) Hmax].
    destruct (Up e.2) eqn:Hup; [destruct (_ <? _)%Z eqn:Hlt; to_prop|].
    + split; [by exists e; auto|]. intros e' [He'| ->]%Hcases Hu; [|lia].
      specialize (Hmax e' He' Hu). lia.
    + split; [by exists e0; auto|]. intros e' [He'| ->]%Hcases Hu; [by apply Hmax|lia].
    + split; [by exists e0; auto|]. intros e' [He'| ->]%Hcases Hu; [by apply Hmax|congruence].
  - intros Hdown. destruct (Up e.2) eqn:Hup.
    + split; [by exists e; auto|]. intros e' [He'| ->]%Hcases Hu; [|lia].
      by rewrite (Hdown _ He') in Hu.
    + intros e' [He'| ->]%Hcases; auto.
Qed.

Lemma foldl_better_spec ord : best_of ord (foldl better None ord).
Proof.
  induction ord as [|e ord IH] using rev_ind; [simpl; set_solver|].
  rewrite foldl_snoc. by apply best_of_better.
Qed.

(** [PreferredUp] picks an interface that is up and that no up interface
    outranks, whatever order the map is visited in; it reports none exactly when
    every WAN is down, which is when [AnyUp] says so. *)
Theorem PreferredUp_spec m ord (Hwf : wf m) (Hord : map_range (interfaces m) ord) :
  match PreferredUp ord with
  | Some n => ∃ i, interfaces m !! n = Some i ∧ Up i = true ∧ AnyUp ord = true ∧
      ∀ n' i', interfaces m !! n' = Some i' → Up i' = true → (Priority i' ≤ Priority i)%Z
  | None => AnyUp ord = false ∧ ∀ n, IsUp n m = false
  end.
Proof.
  unfold PreferredUp. pose proof (foldl_better_spec ord) as Hspec.
  destruct (foldl better None ord) as [r|]; simpl.
  - destruct Hspec as [([k i] & Hin & <- & Hup) Hmax]; simpl in *.
    pose proof (proj1 (map_range_elem _ _ _ _ Hord) Hin) as Hk.
    exists i. rewrite (Hwf _ _ Hk). repeat split; [done|done| |].
    + apply existsb_exists. exists (k, i). by rewrite <- list_elem_of_In.
    + intros n' i' Hn'. apply (Hmax (n', i')). by apply (map_range_elem _ _ _ _ Hord).
  - rename Hspec into Hdown. split.
    + apply not_true_iff_false. intros ([k i] & Hin & Hup)%existsb_exists.
      apply list_elem_of_In in Hin. by rewrite (Hdown _ Hin) in Hup.
    + intros n. unfold IsUp. case_match eqn:E; [|done].
      apply (map_range_elem _ _ _ _ Hord) in E. by apply Hdown in E.
Qed.

Definition ex_iface (n : string) (up : bool) (p : Z) : Interface :=
  {| Name := n; ID := "ISP"; Label := n; Up := up; Priority := p |}.
Definition ex_model : Model :=
  Populate [ex_iface "ppp0" true 10; ex_iface "eth3" true 70; ex_iface "usb0" false 90] NewModel.

Lemma PreferredUp_spec_witness :
  match PreferredUp (map_to_list (interfaces ex_model)) with
  | Some n => ∃ i, interfaces ex_model !! n = Some i ∧ Up i = true ∧
      AnyUp (map_to_list (interfaces ex_model)) = true ∧
      ∀ n' i', interfaces ex_model !! n' = Some i' → Up i' = true → (Priority i' ≤ Priority i)%Z
  | None => AnyUp (map_to_list (interfaces ex_model)) = false ∧ ∀ n, IsUp n ex_model = false
  end.
Proof. apply PreferredUp_spec; [apply wf_Populate|apply map_range_self]. Defined.
