(* ===== verification/Decide.v ===== *)
(** * The lifecycle decisions ([internal/orchestrator])

    [events.go], [actions.go], [state.go] and [decide.go]: from an event and
    the cached state of every tunnel, the list of actions to execute.  The
    functions are pure in the source; the loops over the tunnel map take the
    visiting order [ord] as an argument. *)
From S2P Require Import Prelude GoLib Names Storage.

(** ** Events and actions *)

Inductive EventType :=
  | EventBoot | EventReconnect | EventStart | EventStop | EventRestart
  | EventDelete | EventWANUp | EventWANDown | EventNDMSHook
  | EventPingCheckFailed | EventQuiesce.

Record Event := {
  ev_Type : EventType;
  ev_Tunnel : string;
  ev_Now : Time;
  ev_NDMSName : string;
  ev_Layer : string;
  ev_Level : string;
  ev_WANIface : string;
}.

(** [Event{Type: ty, Tunnel: id}]: the other fields are zero. *)
Definition tunnel_event (ty : EventType) (id : string) : Event := {|
  ev_Type := ty; ev_Tunnel := id; ev_Now := 0%Z; ev_NDMSName := "";
  ev_Layer := ""; ev_Level := ""; ev_WANIface := "" |}.

Inductive ActionType :=
  | ActionColdStartKernel | ActionStartNativeWG | ActionStopKernel
  | ActionStopNativeWG | ActionSuspendProxy | ActionRestoreKmod
  | ActionRestoreEndpointTracking | ActionLinkToggle | ActionReconcileKernel
  | ActionSuspendKernel | ActionResumeKernel | ActionReconcileNativeWG
  | ActionStartMonitoring | ActionStopMonitoring | ActionConfigurePingCheck
  | ActionRemovePingCheck
  | ActionApplyDNSRoutes | ActionApplyStaticRoutes | ActionRemoveStaticRoutes
  | ActionApplyClientRoutes | ActionRemoveClientRoutes
  | ActionReconcileStaticRoutes | ActionReconcileDNSRoutes
  | ActionDeleteDNSRoutes | ActionDeleteStaticRoutes | ActionDeleteClientRoutes
  | ActionPersistRunning | ActionPersistStopped
  | ActionDeleteKernel | ActionDeleteNativeWG.

#[export] Instance EventType_eq_dec : EqDecision EventType.
Proof. solve_decision. Defined.
#[export] Instance ActionType_eq_dec : EqDecision ActionType.
Proof. solve_decision. Defined.

Record Action := {
  a_Type : ActionType;
  a_Tunnel : string;
  a_Iface : string;
}.

Definition act (ty : ActionType) (id : string) : Action :=
  {| a_Type := ty; a_Tunnel := id; a_Iface := "" |}.

(** ** The orchestrator's view of the tunnels *)

Record tunnelState := {
  ts_ID : string;
  ts_Name : string;
  ts_Backend : string;
  ts_Enabled : bool;
  ts_Running : bool;
  ts_Monitoring : bool;
  ts_ActiveWAN : string;
  ts_NWGIndex : Z;
  ts_PingCheck : option TunnelPingCheck;
  ts_ISPInterface : string;
  ts_EndpointMayV6 : bool;
  ts_quiescentUntil : Time;
  ts_lastConfRunningAt : Time;
}.

(** [anyWANUpFn] is what the wired [wan.Model.AnyUp] answers now, [None] while
    it is not wired. *)
Record State := {
  tunnels : gmap string tunnelState;
  anyWANUpFn : option bool;
  supportsASC : bool;
}.

Definition newState : State :=
  {| tunnels := ∅; anyWANUpFn := None; supportsASC := false |}.

Definition anyWANUp (st : State) : bool := default false (anyWANUpFn st).

(** [t.PingCheck != nil && t.PingCheck.Enabled] *)
Definition pingcheck_on (t : tunnelState) : bool :=
  match ts_PingCheck t with Some pc => pc_Enabled pc | None => false end.

Definition is_kernel (t : tunnelState) : bool := String.eqb (ts_Backend t) "kernel".
Definition is_nwg (t : tunnelState) : bool := String.eqb (ts_Backend t) "nativewg".

(** [switch t.Backend { case "kernel": k; case "nativewg": n }] *)
Definition by_backend {A} (t : tunnelState) (k n : list A) : list A :=
  if is_kernel t then k else if is_nwg t then n else [].

Section decide.
Context `{U : GoUnicode}.

Definition ndmsName (t : tunnelState) : string :=
  if is_nwg t then nwg_NDMSName (NewNWGNames (ts_NWGIndex t))
  else NDMSName (NewNames (ts_ID t)).

Definition ifaceName (t : tunnelState) : string :=
  if is_nwg t then nwg_IfaceName (NewNWGNames (ts_NWGIndex t))
  else IfaceName (NewNames (ts_ID t)).

(** The first tunnel, in the visiting order, with that NDMS name. *)
Definition findByNDMSName (name : string) (ord : list (string * tunnelState))
    : option tunnelState :=
  snd <$> find (λ e, String.eqb (ndmsName e.2) name) ord.

(** ** Building blocks *)

Definition appendPostStartActions (t : tunnelState) : list Action :=
  [ act ActionApplyDNSRoutes (ts_ID t);
    {| a_Type := ActionApplyStaticRoutes; a_Tunnel := ts_ID t; a_Iface := ifaceName t |};
    {| a_Type := ActionApplyClientRoutes; a_Tunnel := ts_ID t; a_Iface := ifaceName t |} ] ++
  (if pingcheck_on t then
     (if is_nwg t then [act ActionConfigurePingCheck (ts_ID t)] else []) ++
     [act ActionStartMonitoring (ts_ID t)]
   else []) ++
  [act ActionPersistRunning (ts_ID t)].

Definition appendQuiesceStopActions (t : tunnelState) : list Action :=
  (if ts_Monitoring t then [act ActionStopMonitoring (ts_ID t)] else []) ++
  (if is_nwg t && pingcheck_on t then [act ActionRemovePingCheck (ts_ID t)] else []) ++
  by_backend t [act ActionStopKernel (ts_ID t)] [act ActionStopNativeWG (ts_ID t)].

Definition affectedByWANDown (t : tunnelState) (wanIface : string) : bool :=
  if String.eqb (ts_ISPInterface t) "" then String.eqb (ts_ActiveWAN t) wanIface
  else String.eqb (ts_ISPInterface t) wanIface.

Definition canStartOnWAN (t : tunnelState) (wanIface : string) : bool :=
  if String.eqb (ts_ISPInterface t) "" then true
  else String.eqb (ts_ISPInterface t) wanIface.

Definition reconcile_all : list Action :=
  [act ActionReconcileStaticRoutes ""; act ActionReconcileDNSRoutes ""].

(** ** The handlers *)

(** The body of the loop of [decideBoot]. *)
Definition boot_tunnel (st : State) (t : tunnelState) : list Action :=
  if negb (ts_Enabled t) then []
  else by_backend t
    ([if ts_Running t then act ActionReconcileKernel (ts_ID t)
      else act ActionColdStartKernel (ts_ID t)] ++ appendPostStartActions t)
    (if negb (supportsASC st) then
       [act ActionReconcileNativeWG (ts_ID t)] ++ appendPostStartActions t
     else if ts_EndpointMayV6 t then
       [act ActionStartNativeWG (ts_ID t)] ++ appendPostStartActions t
     else []).

Definition decideBoot (st : State) (ord : list (string * tunnelState)) : list Action :=
  flat_map (λ e, boot_tunnel st e.2) ord ++ reconcile_all.

Definition reconnect_tunnel (st : State) (t : tunnelState) : list Action :=
  if ts_Running t then
    by_backend t
      [act ActionReconcileKernel (ts_ID t)]
      (if supportsASC st then
         [act ActionStartNativeWG (ts_ID t)] ++ appendPostStartActions t
       else
         [act ActionRestoreKmod (ts_ID t)] ++
         (if pingcheck_on t then [act ActionStartMonitoring (ts_ID t)] else [])) ++
    (if is_nwg t then []
     else if pingcheck_on t then [act ActionStartMonitoring (ts_ID t)] else [])
  else if negb (ts_Enabled t) then []
  else by_backend t
    ([act ActionColdStartKernel (ts_ID t)] ++ appendPostStartActions t)
    ([act ActionStartNativeWG (ts_ID t)] ++ appendPostStartActions t).

Definition decideReconnect (st : State) (ord : list (string * tunnelState)) : list Action :=
  [act ActionRestoreEndpointTracking ""] ++
  flat_map (λ e, reconnect_tunnel st e.2) ord ++ reconcile_all.

Definition start_tunnel (t : tunnelState) : list Action :=
  by_backend t [act ActionColdStartKernel (ts_ID t)] [act ActionStartNativeWG (ts_ID t)] ++
  appendPostStartActions t.

Definition decideStart (id : string) (st : State) : list Action :=
  match tunnels st !! id with
  | None => []
  | Some t => if ts_Running t then [] else start_tunnel t
  end.

Definition stop_tunnel (t : tunnelState) : list Action :=
  appendQuiesceStopActions t ++
  [ act ActionRemoveStaticRoutes (ts_ID t);
    act ActionRemoveClientRoutes (ts_ID t);
    act ActionPersistStopped (ts_ID t) ].

Definition decideStop (id : string) (st : State) : list Action :=
  match tunnels st !! id with
  | None => []
  | Some t => stop_tunnel t
  end.

(** [!event.Now.IsZero() && event.Now.Before(t.quiescentUntil)] *)
Definition quiescent (now : Time) (t : tunnelState) : bool :=
  negb (IsZero now) && (now <? ts_quiescentUntil t)%Z.

Definition decideNDMSHook (ev : Event) (st : State) (ord : list (string * tunnelState))
    : list Action :=
  if negb (String.eqb (ev_Layer ev) "conf") then []
  else match findByNDMSName (ev_NDMSName ev) ord with
  | None => []
  | Some t =>
      if String.eqb (ev_Level ev) "running" then
        if ts_Running t || negb (anyWANUp st) then [] else decideStart (ts_ID t) st
      else if String.eqb (ev_Level ev) "disabled" then
        if negb (ts_Running t) then []
        else if quiescent (ev_Now ev) t then []
        else decideStop (ts_ID t) st
      else []
  end.

Definition wanup_tunnel (st : State) (wanIface : string) (t : tunnelState) : list Action :=
  if negb (ts_Enabled t) then []
  else if negb (canStartOnWAN t wanIface) then []
  else by_backend t
    (if ts_Running t then
       if String.eqb (ts_ISPInterface t) "" then [act ActionReconcileKernel (ts_ID t)]
       else [act ActionResumeKernel (ts_ID t)]
     else [act ActionColdStartKernel (ts_ID t)] ++ appendPostStartActions t)
    (if supportsASC st then []
     else if ts_Running t && negb (String.eqb (ts_ActiveWAN t) wanIface) then []
     else [act ActionStartNativeWG (ts_ID t)] ++ appendPostStartActions t).

Definition decideWANUp (wanIface : string) (st : State) (ord : list (string * tunnelState))
    : list Action :=
  flat_map (λ e, wanup_tunnel st wanIface e.2) ord.

(** The loop of [decideWANDown]: the actions, and the tunnels it appends to
    [nwgSuspended]. *)
Definition wandown_affected (wanIface : string) (t : tunnelState) : bool :=
  ts_Enabled t && ts_Running t && affectedByWANDown t wanIface.

Definition wandown_tunnel (st : State) (wanIface : string) (t : tunnelState) : list Action :=
  if wandown_affected wanIface t then
    by_backend t [act ActionSuspendKernel (ts_ID t)]
      (if supportsASC st then [] else [act ActionSuspendProxy (ts_ID t)])
  else [].

Definition nwg_suspended (st : State) (wanIface : string) (t : tunnelState) : list string :=
  if wandown_affected wanIface t then
    by_backend t [] (if supportsASC st then [] else [ts_ID t])
  else [].

(** The failover loop; [state.tunnels[id]] is never nil (see [failover_found]). *)
Definition failover_tunnel (st : State) (id : string) : list Action :=
  match tunnels st !! id with
  | Some t => [act ActionStartNativeWG (ts_ID t)] ++ appendPostStartActions t
  | None => []
  end.

Definition decideWANDown (wanIface : string) (st : State) (ord : list (string * tunnelState))
    : list Action :=
  let actions := flat_map (λ e, wandown_tunnel st wanIface e.2) ord in
  let suspended := flat_map (λ e, nwg_suspended st wanIface e.2) ord in
  if (0 <? length suspended)%nat && anyWANUp st
  then actions ++ flat_map (failover_tunnel st) suspended
  else actions.

Definition decideDelete (id : string) (st : State) : list Action :=
  match tunnels st !! id with
  | None => []
  | Some t =>
      (if ts_Monitoring t then [act ActionStopMonitoring (ts_ID t)] else []) ++
      (if ts_Running t && is_nwg t && pingcheck_on t
       then [act ActionRemovePingCheck (ts_ID t)] else []) ++
      [ act ActionDeleteDNSRoutes (ts_ID t);
        act ActionDeleteStaticRoutes (ts_ID t);
        act ActionDeleteClientRoutes (ts_ID t) ] ++
      by_backend t [act ActionDeleteKernel (ts_ID t)] [act ActionDeleteNativeWG (ts_ID t)]
  end.

Definition quiesce_tunnel (t : tunnelState) : list Action :=
  if ts_Running t then appendQuiesceStopActions t else [].

Definition decideQuiesce (st : State) (ord : list (string * tunnelState)) : list Action :=
  flat_map (λ e, quiesce_tunnel e.2) ord.

Definition decideRestart (id : string) (st : State) : list Action :=
  match tunnels st !! id with
  | None => []
  | Some t =>
      (if ts_Running t then appendQuiesceStopActions t else []) ++ start_tunnel t
  end.

Definition decidePingCheckFailed (id : string) (st : State) : list Action :=
  match tunnels st !! id with
  | None => []
  | Some t =>
      if negb (ts_Running t) || negb (is_kernel t) then []
      else [act ActionLinkToggle (ts_ID t)]
  end.

Definition decide (ev : Event) (st : State) (ord : list (string * tunnelState)) : list Action :=
  match ev_Type ev with
  | EventBoot => decideBoot st ord
  | EventReconnect => decideReconnect st ord
  | EventStart => decideStart (ev_Tunnel ev) st
  | EventStop => decideStop (ev_Tunnel ev) st
  | EventDelete => decideDelete (ev_Tunnel ev) st
  | EventRestart => decideRestart (ev_Tunnel ev) st
  | EventNDMSHook => decideNDMSHook ev st ord
  | EventWANUp => decideWANUp (ev_WANIface ev) st ord
  | EventWANDown => decideWANDown (ev_WANIface ev) st ord
  | EventPingCheckFailed => decidePingCheckFailed (ev_Tunnel ev) st
  | EventQuiesce => decideQuiesce st ord
  end.
End decide.
