(* ===== verification/DecideProps.v ===== *)
(** * Properties of the lifecycle decisions

    Everything [decide] says about one tunnel is a function of that tunnel's
    cached state ([tunnel_plan]): the projection lemmas reduce the multi-tunnel
    handlers, loops over a map included, to that function, and the theorems are
    then case analyses on it. *)
From S2P Require Import Prelude GoLib Names Storage Decide.

(** A tunnel is cached under its own ID. *)
Definition wf (st : State) : Prop := ∀ k t, tunnels st !! k = Some t → ts_ID t = k.

(** The actions of a plan that concern one tunnel. *)
Definition proj (id : string) (l : list Action) : list Action :=
  filter (λ a, a_Tunnel a = id) l.

Definition types (l : list Action) : list ActionType := a_Type <$> l.

Lemma proj_app id l1 l2 : proj id (l1 ++ l2) = proj id l1 ++ proj id l2.
Proof. apply filter_app. Qed.

Lemma proj_all id l : Forall (λ a, a_Tunnel a = id) l → proj id l = l.
Proof. apply list_filter_all. Qed.

Lemma proj_none id id' l : id ≠ id' → Forall (λ a, a_Tunnel a = id') l → proj id l = [].
Proof.
  intros Hne H. apply list_filter_none. eapply Forall_impl; [done|]. simpl. congruence.
Qed.

(** A loop over the map whose body speaks about the visited tunnel only. *)
Lemma proj_flat_map {A} (m : gmap string A) ord (f : A → list Action) id :
  map_range m ord →
  (∀ k x, m !! k = Some x → Forall (λ a, a_Tunnel a = k) (f x)) →
  proj id (flat_map (λ e, f e.2) ord) = match m !! id with Some x => f x | None => [] end.
Proof.
  intros Hord Hf.
  assert (∀ l : list (string * A), NoDup l.*1 →
    (∀ k x, (k, x) ∈ l → m !! k = Some x) →
    proj id (flat_map (λ e, f e.2) l) =
      match m !! id with Some x => if base.decide (id ∈ l.*1) then f x else [] | None => [] end) as H.
  { induction l as [|[k x] l IH]; intros Hnd Hm; simpl.
    { by destruct (m !! id). }
    apply NoDup_cons in Hnd as [Hk Hnd]. rewrite proj_app, IH; [|done|set_solver].
    assert (m !! k = Some x) as Hx by (apply Hm; by left).
    destruct (base.decide (id = k)) as [->|Hne].
    - rewrite Hx, (proj_all k) by (by apply Hf). simpl in Hk.
      rewrite decide_False by done. rewrite decide_True by set_solver. by rewrite app_nil_r.
    - rewrite (proj_none id k) by (done || by apply Hf). simpl.
      destruct (m !! id); [|done]. by repeat case_decide; set_solver. }
  rewrite H; [|by eapply map_range_nodup|].
  - destruct (m !! id) as [x|] eqn:Hx; [|done]. rewrite decide_True; [done|].
    apply list_elem_of_fmap. exists (id, x). split; [done|].
    by apply (map_range_elem _ _ _ _ Hord).
  - intros k x. by apply (map_range_elem _ _ _ _ Hord).
Qed.

Section props.
Context `{U : GoUnicode}.

(** ** Every block speaks about its own tunnel *)
Definition own (t : tunnelState) (l : list Action) : Prop :=
  Forall (λ a, a_Tunnel a = ts_ID t) l.

Ltac own_tac :=
  unfold own, boot_tunnel, reconnect_tunnel, start_tunnel, stop_tunnel, wanup_tunnel,
    wandown_tunnel, quiesce_tunnel, appendQuiesceStopActions, appendPostStartActions,
    by_backend;
  intros; repeat case_match; simpl; repeat constructor.

Lemma own_boot st t : own t (boot_tunnel st t). Proof. own_tac. Qed.
Lemma own_reconnect st t : own t (reconnect_tunnel st t). Proof. own_tac. Qed.
Lemma own_start t : own t (start_tunnel t). Proof. own_tac. Qed.
Lemma own_stop t : own t (stop_tunnel t). Proof. own_tac. Qed.
Lemma own_wanup st w t : own t (wanup_tunnel st w t). Proof. own_tac. Qed.
Lemma own_wandown st w t : own t (wandown_tunnel st w t). Proof. own_tac. Qed.
Lemma own_quiesce t : own t (quiesce_tunnel t). Proof. own_tac. Qed.

Lemma own_delete id t st :
  tunnels st !! id = Some t → own t (decideDelete id st).
Proof. intros H. unfold decideDelete. rewrite H. own_tac. Qed.
Lemma own_restart id t st :
  tunnels st !! id = Some t → own t (decideRestart id st).
Proof. intros H. unfold decideRestart. rewrite H. own_tac. Qed.
Lemma own_pingfail id t st :
  tunnels st !! id = Some t → own t (decidePingCheckFailed id st).
Proof. intros H. unfold decidePingCheckFailed. rewrite H. own_tac. Qed.

(** The failover loop of [decideWANDown] finds every tunnel it suspended. *)
Lemma failover_found st w ord id :
  wf st → map_range (tunnels st) ord →
  id ∈ flat_map (λ e, nwg_suspended st w e.2) ord → is_Some (tunnels st !! id).
Proof.
  intros Hwf Hord. rewrite list_elem_of_In, in_flat_map. intros ([k t] & Hin & Hid).
  apply list_elem_of_In, (map_range_elem _ _ _ _ Hord) in Hin. simpl in Hid.
  unfold nwg_suspended, by_backend in Hid.
  repeat case_match; simpl in Hid; try done.
  destruct Hid as [<-|[]]. rewrite (Hwf _ _ Hin). eauto.
Qed.

(** ** What an event asks of one tunnel *)

Definition wandown_restart (st : State) (w : string) (t : tunnelState) : bool :=
  wandown_affected w t && is_nwg t && negb (is_kernel t) && negb (supportsASC st) &&
  anyWANUp st.

Definition hook_plan (ev : Event) (st : State) (t : tunnelState) : list Action :=
  if String.eqb (ev_Layer ev) "conf" then
    if String.eqb (ev_Level ev) "running" then
      if ts_Running t || negb (anyWANUp st) then [] else start_tunnel t
    else if String.eqb (ev_Level ev) "disabled" then
      if negb (ts_Running t) || quiescent (ev_Now ev) t then [] else stop_tunnel t
    else []
  else [].

Definition tunnel_plan (ev : Event) (st : State) (t : tunnelState) : list Action :=
  let for_me l := if String.eqb (ts_ID t) (ev_Tunnel ev) then l else [] in
  match ev_Type ev with
  | EventBoot => boot_tunnel st t
  | EventReconnect => reconnect_tunnel st t
  | EventStart => for_me (if ts_Running t then [] else start_tunnel t)
  | EventStop => for_me (stop_tunnel t)
  | EventDelete => for_me (decideDelete (ts_ID t) st)
  | EventRestart => for_me (decideRestart (ts_ID t) st)
  | EventNDMSHook =>
      if String.eqb (ndmsName t) (ev_NDMSName ev) then hook_plan ev st t else []
  | EventWANUp => wanup_tunnel st (ev_WANIface ev) t
  | EventWANDown =>
      wandown_tunnel st (ev_WANIface ev) t ++
      (if wandown_restart st (ev_WANIface ev) t
       then [act ActionStartNativeWG (ts_ID t)] ++ appendPostStartActions t else [])
  | EventPingCheckFailed => for_me (decidePingCheckFailed (ts_ID t) st)
  | EventQuiesce => quiesce_tunnel t
  end.

(** The tunnel-less actions around it. *)
Definition before_plan (ev : Event) : list Action :=
  match ev_Type ev with
  | EventReconnect => [act ActionRestoreEndpointTracking ""]
  | _ => []
  end.
Definition after_plan (ev : Event) : list Action :=
  match ev_Type ev with
  | EventBoot | EventReconnect => reconcile_all
  | _ => []
  end.

Definition plan (ev : Event) (st : State) (id : string) : list Action :=
  proj id (before_plan ev) ++
  match tunnels st !! id with Some t => tunnel_plan ev st t | None => [] end ++
  proj id (after_plan ev).

(** At most one cached tunnel answers to the hook's interface name. *)
Definition hook_unique (ev : Event) (st : State) : Prop :=
  ∀ k k' t t', tunnels st !! k = Some t → tunnels st !! k' = Some t' →
    ndmsName t = ev_NDMSName ev → ndmsName t' = ev_NDMSName ev → k = k'.

(** ** The projection lemmas *)
Section project.
Context (st : State) (ord : list (string * tunnelState)).
Context (Hwf : wf st) (Hord : map_range (tunnels st) ord).

Lemma proj_loop (f : tunnelState → list Action) id :
  (∀ t, own t (f t)) →
  proj id (flat_map (λ e, f e.2) ord) =
    match tunnels st !! id with Some t => f t | None => [] end.
Proof using Hwf Hord.
  intros Hf. apply (proj_flat_map (tunnels st)); [done|].
  intros k t Hk. rewrite <- (Hwf _ _ Hk). apply Hf.
Qed.

(** A handler for one tunnel, seen from any tunnel. *)
Lemma proj_single (f : tunnelState → list Action) id id' :
  (∀ t, tunnels st !! id' = Some t → own t (f t)) →
  proj id (match tunnels st !! id' with Some t => f t | None => [] end) =
    match tunnels st !! id with
    | Some t => if String.eqb (ts_ID t) id' then f t else []
    | None => []
    end.
Proof using Hwf.
  intros Hf. destruct (base.decide (id = id')) as [->|Hne].
  - destruct (tunnels st !! id') as [t|] eqn:Ht; [|done].
    rewrite (Hwf _ _ Ht), String.eqb_refl. apply proj_all.
    rewrite <- (Hwf _ _ Ht). by apply Hf.
  - replace (match tunnels st !! id with Some _ => _ | None => _ end) with (@nil Action).
    + destruct (tunnels st !! id') as [t|] eqn:Ht; [|done].
      apply (proj_none _ id'); [done|]. specialize (Hf t eq_refl).
      unfold own in Hf. by rewrite (Hwf _ _ Ht) in Hf.
    + destruct (tunnels st !! id) as [t|] eqn:Ht; [|done].
      rewrite (Hwf _ _ Ht). by apply String.eqb_neq in Hne as ->.
Qed.

Lemma find_ndms name t :
  findByNDMSName name ord = Some t → ndmsName t = name ∧ tunnels st !! ts_ID t = Some t.
Proof using Hwf Hord.
  unfold findByNDMSName. destruct (find _ ord) as [[k t']|] eqn:E; [|done].
  intros; simplify_eq/=. apply find_some in E as [Hin Hn]. simpl in Hn. to_prop.
  apply list_elem_of_In, (map_range_elem _ _ _ _ Hord) in Hin.
  by rewrite (Hwf _ _ Hin).
Qed.

Lemma find_ndms_None name k t :
  findByNDMSName name ord = None → tunnels st !! k = Some t → ndmsName t ≠ name.
Proof using Hwf Hord.
  unfold findByNDMSName. destruct (find _ ord) as [[k' t']|] eqn:E; [done|].
  intros _ Hk Hn. apply (map_range_elem _ _ _ _ Hord) in Hk.
  apply list_elem_of_In in Hk. apply (find_none _ _ E) in Hk. simpl in Hk.
  by rewrite Hn, String.eqb_refl in Hk.
Qed.

Lemma proj_failover w id :
  proj id (flat_map (failover_tunnel st) (flat_map (λ e, nwg_suspended st w e.2) ord)) =
    match tunnels st !! id with
    | Some t =>
        if wandown_affected w t && is_nwg t && negb (is_kernel t) && negb (supportsASC st)
        then [act ActionStartNativeWG (ts_ID t)] ++ appendPostStartActions t else []
    | None => []
    end.
Proof using Hwf Hord.
  rewrite flat_map_nested.
  rewrite (proj_loop (λ t, flat_map (failover_tunnel st) (nwg_suspended st w t))).
  - destruct (tunnels st !! id) as [t|] eqn:Ht; [|done].
    assert (tunnels st !! ts_ID t = Some t) as Hself by (by rewrite (Hwf _ _ Ht)).
    unfold nwg_suspended, by_backend. repeat case_match; to_prop; simpl in *; try done;
      try congruence.
    unfold failover_tunnel. by rewrite Hself, app_nil_r.
  - intros t. unfold nwg_suspended, by_backend, own. repeat case_match; simpl; try done.
    unfold failover_tunnel. rewrite app_nil_r. case_match eqn:Ht; [|done].
    rewrite <- (Hwf _ _ Ht). own_tac.
Qed.

Lemma nwg_suspended_nil w :
  flat_map (λ e, nwg_suspended st w e.2) ord = [] →
  ∀ k t, tunnels st !! k = Some t →
  wandown_affected w t && is_nwg t && negb (is_kernel t) && negb (supportsASC st) = false.
Proof using Hwf Hord.
  intros Hnil k t Hk. apply not_true_iff_false. intros Ht.
  rewrite !andb_true_iff, !negb_true_iff in Ht. destruct Ht as [[[Ha Hn] Hkern] Hasc].
  apply (map_range_elem _ _ _ _ Hord), list_elem_of_In in Hk.
  assert (ts_ID t ∈ flat_map (λ e, nwg_suspended st w e.2) ord) as Hin;
    [|rewrite Hnil in Hin; set_solver].
  rewrite list_elem_of_In, in_flat_map. exists (k, t). split; [done|]. simpl.
  unfold nwg_suspended, by_backend. rewrite Ha, Hkern, Hn, Hasc. by left.
Qed.

(** The handlers that look their tunnel up themselves. *)
Lemma proj_lookup (h : string → list Action) id id' :
  (tunnels st !! id' = None → h id' = []) →
  (∀ t, tunnels st !! id' = Some t → own t (h id')) →
  proj id (h id') =
    match tunnels st !! id with
    | Some t => if String.eqb (ts_ID t) id' then h (ts_ID t) else []
    | None => []
    end.
Proof using Hwf.
  intros Hnone Hown.
  assert (h id' = match tunnels st !! id' with Some t => h (ts_ID t) | None => [] end) as ->.
  { destruct (tunnels st !! id') eqn:Ht; [by rewrite (Hwf _ _ Ht)|auto]. }
  apply (proj_single (λ t, h (ts_ID t))). intros t Ht.
  rewrite (Hwf _ _ Ht). by apply Hown.
Qed.

Lemma proj_hook ev id :
  hook_unique ev st →
  proj id (decideNDMSHook ev st ord) =
    match tunnels st !! id with
    | Some t => if String.eqb (ndmsName t) (ev_NDMSName ev) then hook_plan ev st t else []
    | None => []
    end.
Proof using Hwf Hord.
  intros Huniq. unfold decideNDMSHook, hook_plan.
  destruct (String.eqb (ev_Layer ev) "conf"); simpl; [|by repeat case_match].
  destruct (findByNDMSName _ _) as [t|] eqn:Hf.
  - apply find_ndms in Hf as [Hn Ht].
    assert (∀ l, own t l → proj id l =
      match tunnels st !! id with
      | Some t' => if String.eqb (ndmsName t') (ev_NDMSName ev) then l else []
      | None => []
      end) as Hown.
    { intros l Hl. destruct (base.decide (id = ts_ID t)) as [->|Hne].
      - rewrite Ht, Hn, String.eqb_refl. by apply proj_all.
      - rewrite (proj_none _ (ts_ID t)) by done.
        destruct (tunnels st !! id) as [t'|] eqn:Ht'; [|done].
        case_match; [|done]. to_prop. by destruct Hne; eapply Huniq. }
    unfold decideStart, decideStop. rewrite Ht.
    destruct (tunnels st !! id) as [t'|] eqn:Ht'; last first.
    { rewrite Hown; [done|]. repeat case_match; apply own_start || apply own_stop || constructor. }
    rewrite Hown; [|by repeat case_match; apply own_start || apply own_stop || constructor].
    destruct (String.eqb (ndmsName t') _) eqn:Hn'; [|done]. to_prop.
    assert (id = ts_ID t) as -> by (by eapply Huniq). simplify_eq.
    by destruct (ts_Running t), (anyWANUp st), (quiescent _ _).
  - destruct (tunnels st !! id) as [t|] eqn:Ht; [|done].
    case_match; [|done]. to_prop. by eapply find_ndms_None in Hf.
Qed.

Lemma proj_wandown w id :
  proj id (decideWANDown w st ord) =
    match tunnels st !! id with
    | Some t => wandown_tunnel st w t ++
        (if wandown_restart st w t
         then [act ActionStartNativeWG (ts_ID t)] ++ appendPostStartActions t else [])
    | None => []
    end.
Proof using Hwf Hord.
  unfold decideWANDown, wandown_restart.
  destruct (flat_map (λ e, nwg_suspended st w e.2) ord) as [|x l] eqn:Hs; simpl.
  - rewrite proj_loop by apply own_wandown. destruct (tunnels st !! id) as [t|] eqn:Ht; [|done].
    rewrite (nwg_suspended_nil _ Hs _ _ Ht). simpl. by rewrite app_nil_r.
  - destruct (anyWANUp st).
    + change (failover_tunnel st x ++ flat_map (failover_tunnel st) l) with
        (flat_map (failover_tunnel st) (x :: l)).
      rewrite <- Hs, proj_app, proj_failover, proj_loop by apply own_wandown.
      destruct (tunnels st !! id); [by rewrite andb_true_r|done].
    + rewrite proj_loop by apply own_wandown.
      destruct (tunnels st !! id); [by rewrite andb_false_r, app_nil_r|done].
Qed.

Lemma decide_proj ev id :
  hook_unique ev st → proj id (decide ev st ord) = plan ev st id.
Proof using Hwf Hord.
  intros Huniq. unfold plan, before_plan, after_plan, tunnel_plan, decide.
  assert (∀ l l', l = l' → l = proj id [] ++ l' ++ proj id []) as Hpad.
  { intros l ? <-. by rewrite app_nil_r. }
  destruct (ev_Type ev) eqn:Hty.
  - unfold decideBoot. by rewrite proj_app, (proj_loop _ _ (own_boot st)).
  - unfold decideReconnect. by rewrite !proj_app, (proj_loop _ _ (own_reconnect st)).
  - apply Hpad. unfold decideStart.
    rewrite (proj_single (λ t, if ts_Running t then [] else start_tunnel t)); [done|].
    intros t _. case_match; [constructor|apply own_start].
  - apply Hpad. apply (proj_single stop_tunnel). intros; apply own_stop.
  - apply Hpad, (proj_lookup (λ i, decideRestart i st)); [|intros; by apply own_restart].
    intros Hn. unfold decideRestart. by rewrite Hn.
  - apply Hpad, (proj_lookup (λ i, decideDelete i st)); [|intros; by apply own_delete].
    intros Hn. unfold decideDelete. by rewrite Hn.
  - apply Hpad. apply proj_loop, own_wanup.
  - apply Hpad. apply proj_wandown.
  - apply Hpad. by apply proj_hook.
  - apply Hpad, (proj_lookup (λ i, decidePingCheckFailed i st)); [|intros; by apply own_pingfail].
    intros Hn. unfold decidePingCheckFailed. by rewrite Hn.
  - apply Hpad. apply proj_loop, own_quiesce.
Qed.
End project.
End props.
#[export] Hint Resolve own_boot own_reconnect own_start own_stop own_wanup own_wandown
  own_quiesce own_delete own_restart own_pingfail : awg.

(** ** Ordering of the steps of one tunnel's plan *)

(** Tear-down first (monitoring, ping-check profile, the tunnel, its routes, the
    persisted intent), then bring-up (the tunnel, its routes, ping-check
    profile, monitoring, the persisted intent), then deletion (routes before
    the interface they hang on). *)
Definition rank (ty : ActionType) : nat :=
  match ty with
  | ActionStopMonitoring => 0
  | ActionRemovePingCheck => 1
  | ActionStopKernel | ActionStopNativeWG | ActionSuspendProxy | ActionSuspendKernel => 2
  | ActionRemoveStaticRoutes => 3
  | ActionRemoveClientRoutes => 4
  | ActionPersistStopped => 5
  | ActionColdStartKernel | ActionStartNativeWG | ActionReconcileKernel
  | ActionReconcileNativeWG | ActionResumeKernel | ActionRestoreKmod | ActionLinkToggle => 6
  | ActionApplyDNSRoutes => 7
  | ActionApplyStaticRoutes => 8
  | ActionApplyClientRoutes => 9
  | ActionConfigurePingCheck => 10
  | ActionStartMonitoring => 11
  | ActionPersistRunning => 12
  | ActionDeleteDNSRoutes => 13
  | ActionDeleteStaticRoutes => 14
  | ActionDeleteClientRoutes => 15
  | ActionDeleteKernel | ActionDeleteNativeWG => 16
  | ActionRestoreEndpointTracking | ActionReconcileStaticRoutes
  | ActionReconcileDNSRoutes => 17
  end.

Definition ranked (l : list Action) : Prop := StronglySorted lt (rank <$> types l).

(** The action types that bring a tunnel up or back in order. *)
Definition brings_up (ty : ActionType) : bool :=
  match ty with
  | ActionColdStartKernel | ActionStartNativeWG | ActionReconcileKernel
  | ActionReconcileNativeWG | ActionResumeKernel | ActionRestoreKmod => true
  | _ => false
  end.

(** The executor an action type belongs to. *)
Definition suits (t : tunnelState) (ty : ActionType) : bool :=
  match ty with
  | ActionColdStartKernel | ActionStopKernel | ActionReconcileKernel
  | ActionSuspendKernel | ActionResumeKernel | ActionDeleteKernel | ActionLinkToggle =>
      is_kernel t
  | ActionStartNativeWG | ActionStopNativeWG | ActionSuspendProxy | ActionRestoreKmod
  | ActionReconcileNativeWG | ActionDeleteNativeWG
  | ActionConfigurePingCheck | ActionRemovePingCheck => is_nwg t
  | ActionRestoreEndpointTracking | ActionReconcileStaticRoutes
  | ActionReconcileDNSRoutes => false
  | _ => true
  end.

(** Split on one flag of the goal after another, until it computes. *)
Ltac flags :=
  repeat (try reflexivity; match goal with
    | |- context [is_kernel ?t] => destruct (is_kernel t)
    | |- context [is_nwg ?t] => destruct (is_nwg t)
    | |- context [ts_Running ?t] => destruct (ts_Running t)
    | |- context [ts_Enabled ?t] => destruct (ts_Enabled t)
    | |- context [pingcheck_on ?t] => destruct (pingcheck_on t)
    | |- context [ts_Monitoring ?t] => destruct (ts_Monitoring t)
    | |- context [supportsASC ?s] => destruct (supportsASC s)
    | |- context [ts_EndpointMayV6 ?t] => destruct (ts_EndpointMayV6 t)
    | |- context [anyWANUp ?s] => destruct (anyWANUp s)
    | |- context [quiescent ?n ?t] => destruct (quiescent n t)
    | |- context [canStartOnWAN ?t ?w] => destruct (canStartOnWAN t w)
    | |- context [wandown_affected ?w ?t] => destruct (wandown_affected w t)
    | |- context [String.eqb ?a ?b] => destruct (String.eqb a b)
    end; simpl).

Ltac unfold_plans :=
  unfold tunnel_plan, hook_plan, boot_tunnel, reconnect_tunnel, start_tunnel, stop_tunnel,
    wanup_tunnel, wandown_tunnel, wandown_restart, quiesce_tunnel, start_tunnel,
    appendQuiesceStopActions, appendPostStartActions, by_backend.

Section plans.
Context `{U : GoUnicode}.

Lemma backend_excl t : is_kernel t = true → is_nwg t = true → False.
Proof. unfold is_kernel, is_nwg. intros. to_prop. congruence. Qed.

(** Unfold a plan down to the tunnel's flags and split on them; what is left
    are closed lists. *)
Ltac plan_cases :=
  unfold tunnel_plan, hook_plan, boot_tunnel, reconnect_tunnel, start_tunnel, stop_tunnel,
    wanup_tunnel, wandown_tunnel, wandown_restart, quiesce_tunnel, decideDelete,
    decideRestart, decidePingCheckFailed, start_tunnel, appendQuiesceStopActions,
    appendPostStartActions, by_backend in *;
  repeat (case_match; try done).

Lemma tunnel_plan_ranked ev st t : ranked (tunnel_plan ev st t).
Proof.
  unfold ranked. plan_cases; simpl; repeat constructor; lia.
Qed.

Lemma tunnel_plan_suits ev st t :
  tunnels st !! ts_ID t = Some t →
  Forall (λ a, suits t (a_Type a)) (tunnel_plan ev st t).
Proof.
  intros Ht. unfold tunnel_plan, decideDelete, decideRestart, decidePingCheckFailed.
  rewrite Ht. plan_cases; repeat (apply Forall_cons; split); simpl; try apply Forall_nil;
    to_prop; by repeat match goal with H : _ = true |- _ => rewrite H end.
Qed.

Lemma plan_known ev st id t :
  id ≠ "" → tunnels st !! id = Some t → plan ev st id = tunnel_plan ev st t.
Proof.
  intros Hne Ht. unfold plan. rewrite Ht.
  assert (proj id (before_plan ev) = [] ∧ proj id (after_plan ev) = []) as [-> ->].
  { unfold before_plan, after_plan, reconcile_all.
    split; (case_match; [..|done] || done);
      try done; apply (proj_none _ ""); by repeat constructor. }
  by rewrite app_nil_r.
Qed.

Lemma plan_unknown ev st id : id ≠ "" → tunnels st !! id = None → plan ev st id = [].
Proof.
  intros Hne Ht. unfold plan. rewrite Ht. unfold before_plan, after_plan, reconcile_all.
  repeat case_match; simpl; try done; rewrite !(proj_none _ ""); try done;
    by repeat constructor.
Qed.

(** When an event disables a tunnel in storage. *)
Definition disables (ev : Event) (t : tunnelState) : bool :=
  match ev_Type ev with
  | EventStop => String.eqb (ts_ID t) (ev_Tunnel ev)
  | EventNDMSHook =>
      String.eqb (ndmsName t) (ev_NDMSName ev) && String.eqb (ev_Layer ev) "conf" &&
      String.eqb (ev_Level ev) "disabled" && ts_Running t && negb (quiescent (ev_Now ev) t)
  | _ => false
  end.

Lemma tunnel_plan_disables ev st t :
  tunnels st !! ts_ID t = Some t →
  bool_decide (ActionPersistStopped ∈ types (tunnel_plan ev st t)) = disables ev t.
Proof.
  intros Ht. unfold disables. unfold_plans.
  destruct (String.eqb (ev_Level ev) "running") eqn:Hl; [apply String.eqb_eq in Hl as ->|].
  all: unfold decideDelete, decideRestart, decidePingCheckFailed; rewrite Ht; unfold_plans;
    destruct (ev_Type ev); flags.
Qed.
End plans.

(** ** Concrete tunnels for the witnesses *)
Definition ex_pingcheck : TunnelPingCheck := {|
  pc_Enabled := true; pc_Method := "icmp"; pc_Target := "8.8.8.8"; pc_Interval := 30;
  pc_FailThreshold := 3; pc_MinSuccess := 1; pc_Timeout := 5; pc_Port := 0;
  pc_Restart := true |}.

Definition ex_kernel : tunnelState := {|
  ts_ID := "awg10"; ts_Name := "office"; ts_Backend := "kernel"; ts_Enabled := true;
  ts_Running := true; ts_Monitoring := true; ts_ActiveWAN := "ppp0"; ts_NWGIndex := 0;
  ts_PingCheck := Some ex_pingcheck; ts_ISPInterface := "ppp0"; ts_EndpointMayV6 := false;
  ts_quiescentUntil := 100; ts_lastConfRunningAt := 0 |}.

Definition ex_nwg : tunnelState := {|
  ts_ID := "awg20"; ts_Name := "home"; ts_Backend := "nativewg"; ts_Enabled := true;
  ts_Running := false; ts_Monitoring := false; ts_ActiveWAN := ""; ts_NWGIndex := 3;
  ts_PingCheck := None; ts_ISPInterface := ""; ts_EndpointMayV6 := false;
  ts_quiescentUntil := 0; ts_lastConfRunningAt := 0 |}.

Definition ex_state : State := {|
  tunnels := <["awg10" := ex_kernel]> (<["awg20" := ex_nwg]> ∅);
  anyWANUpFn := Some true;
  supportsASC := false |}.

Definition ex_hook (name level : string) (now : Time) : Event := {|
  ev_Type := EventNDMSHook; ev_Tunnel := ""; ev_Now := now; ev_NDMSName := name;
  ev_Layer := "conf"; ev_Level := level; ev_WANIface := "" |}.

Lemma ex_wf : wf ex_state.
Proof.
  intros k t. simpl. rewrite !lookup_insert_Some, lookup_empty.
  intros [[<- <-]|[_ [[<- <-]|[_ ?]]]]; done.
Qed.

Lemma ex_range : map_range (tunnels ex_state) [("awg20", ex_nwg); ("awg10", ex_kernel)].
Proof.
  unfold map_range. simpl. rewrite !map_to_list_insert by done.
  rewrite map_to_list_empty. apply perm_swap.
Qed.

Lemma ex_unique `{GoUnicode} name level now :
  ndmsName ex_kernel ≠ ndmsName ex_nwg → hook_unique (ex_hook name level now) ex_state.
Proof.
  intros Hne k k' t t'. simpl. rewrite !lookup_insert_Some, !lookup_empty. naive_solver.
Qed.

(** ** Theorems *)

(** Go visits the tunnel map in a random order; the order never shows in
    what is done to a tunnel: for every event, tunnel and pair of visiting
    orders, the sequence of actions planned for that tunnel is the same. *)
Theorem decide_order_independent `{GoUnicode} ev st ord ord' id
    (Hwf : wf st) (Hord : map_range (tunnels st) ord)
    (Hord' : map_range (tunnels st) ord') (Huniq : hook_unique ev st) :
  proj id (decide ev st ord) = proj id (decide ev st ord').
Proof. by rewrite !decide_proj. Qed.

Lemma decide_order_independent_witness :
  proj "awg10" (@decide plain_unicode (ex_hook "OpkgTun10" "disabled" 200) ex_state
    [("awg20", ex_nwg); ("awg10", ex_kernel)]) =
  proj "awg10" (@decide plain_unicode (ex_hook "OpkgTun10" "disabled" 200) ex_state
    (map_to_list (tunnels ex_state))).
Proof.
  apply decide_order_independent; [apply ex_wf|apply ex_range|apply map_range_self|].
  by apply ex_unique.
Defined.

(** C35: The plan for a tunnel never repeats a step and always takes the steps in
    a safe order: monitoring and the ping-check profile are taken down before
    the tunnel, routes and the persisted intent after it; on the way up routes,
    ping-check profile, monitoring and the persisted intent follow the tunnel,
    in that order; a deletion removes the routes before the interface. *)
Theorem decide_ranked `{GoUnicode} ev st ord id
    (Hwf : wf st) (Hord : map_range (tunnels st) ord) (Huniq : hook_unique ev st)
    (Hid : id ≠ "") :
  ranked (proj id (decide ev st ord)).
Proof.
  rewrite decide_proj by done. destruct (tunnels st !! id) as [t|] eqn:Ht.
  - rewrite (plan_known _ _ _ _ Hid Ht). apply tunnel_plan_ranked.
  - rewrite plan_unknown by done. constructor.
Qed.

Lemma decide_ranked_witness :
  ranked (proj "awg10" (@decide plain_unicode (tunnel_event EventRestart "awg10") ex_state
    [("awg20", ex_nwg); ("awg10", ex_kernel)])).
Proof.
  apply decide_ranked; [apply ex_wf|apply ex_range| |done].
  intros k k' t t'. simpl. rewrite !lookup_insert_Some, !lookup_empty. naive_solver.
Defined.

(** C40: Every planned action either concerns no tunnel in particular (endpoint
    tracking, global route reconciliation) or a cached tunnel whose backend has
    an executor for it: kernel steps never reach a NativeWG tunnel, nor NativeWG
    steps a kernel one. *)
Theorem decide_suits `{GoUnicode} ev st ord a
    (Hwf : wf st) (Hord : map_range (tunnels st) ord) (Huniq : hook_unique ev st)
    (Hin : a ∈ decide ev st ord) :
  (a_Tunnel a = "" ∧ a_Type a ∈ [ActionRestoreEndpointTracking; ActionReconcileStaticRoutes;
     ActionReconcileDNSRoutes]) ∨
  ∃ t, tunnels st !! a_Tunnel a = Some t ∧ suits t (a_Type a) = true.
Proof.
  assert (a ∈ proj (a_Tunnel a) (decide ev st ord)) as Hp by (by apply list_elem_of_filter).
  rewrite decide_proj in Hp by done. unfold plan in Hp.
  rewrite !elem_of_app in Hp. destruct Hp as [Hp|[Hp|Hp]].
  - left. apply list_elem_of_filter in Hp as [_ Hp]. unfold before_plan in Hp.
    case_match; rewrite ?list_elem_of_singleton, ?elem_of_nil in Hp; try done.
    subst a. simpl. set_solver.
  - right. destruct (tunnels st !! a_Tunnel a) as [t|] eqn:Ht; [|set_solver].
    exists t. split; [done|].
    assert (tunnels st !! ts_ID t = Some t) as Hself by (by rewrite (Hwf _ _ Ht)).
    pose proof (tunnel_plan_suits ev st t Hself) as Hall. rewrite Forall_forall in Hall.
    by apply Is_true_true, Hall.
  - left. apply list_elem_of_filter in Hp as [_ Hp]. unfold after_plan, reconcile_all in Hp.
    case_match; rewrite ?elem_of_cons, ?elem_of_nil in Hp; try done;
      destruct Hp as [->|[->|[]]]; simpl; set_solver.
Qed.

Lemma decide_suits_witness :
  ∃ a, a ∈ @decide plain_unicode (tunnel_event EventBoot "") ex_state
      [("awg20", ex_nwg); ("awg10", ex_kernel)] ∧
    ((a_Tunnel a = "" ∧ a_Type a ∈ [ActionRestoreEndpointTracking; ActionReconcileStaticRoutes;
        ActionReconcileDNSRoutes]) ∨
     ∃ t, tunnels ex_state !! a_Tunnel a = Some t ∧ suits t (a_Type a) = true).
Proof.
  exists (act ActionReconcileKernel "awg10").
  assert (act ActionReconcileKernel "awg10" ∈
    @decide plain_unicode (tunnel_event EventBoot "") ex_state
      [("awg20", ex_nwg); ("awg10", ex_kernel)]) as Hin
    by (vm_compute; repeat first [left; reflexivity | right]).
  split; [exact Hin|].
  eapply (@decide_suits plain_unicode); [apply ex_wf|apply ex_range| |exact Hin].
  intros k k' t t'. simpl. rewrite !lookup_insert_Some, !lookup_empty. naive_solver.
Defined.

(** A tunnel is switched off in storage by exactly two things: the user's
    Stop, and an external conf=disabled edge for its interface while it runs and
    its start-up quiescence window is over.  No boot, reconnect, WAN change,
    restart, quiesce, ping-check failure or transient NDMS bounce does it. *)
Theorem decide_disables `{GoUnicode} ev st ord id
    (Hwf : wf st) (Hord : map_range (tunnels st) ord) (Huniq : hook_unique ev st)
    (Hid : id ≠ "") :
  ActionPersistStopped ∈ types (proj id (decide ev st ord)) ↔
  ∃ t, tunnels st !! id = Some t ∧ disables ev t = true.
Proof.
  rewrite decide_proj by done. destruct (tunnels st !! id) as [t|] eqn:Ht.
  - rewrite (plan_known _ _ _ _ Hid Ht), <- (bool_decide_eq_true (_ ∈ _)).
    rewrite (tunnel_plan_disables ev st t) by (by rewrite (Hwf _ _ Ht)). naive_solver.
  - rewrite plan_unknown by done. simpl. rewrite elem_of_nil. naive_solver.
Qed.

Lemma decide_disables_witness :
  ActionPersistStopped ∈ types (proj "awg10" (@decide plain_unicode
      (ex_hook "OpkgTun10" "disabled" 200) ex_state
      [("awg20", ex_nwg); ("awg10", ex_kernel)])) ↔
  ∃ t, tunnels ex_state !! "awg10" = Some t ∧
    @disables plain_unicode (ex_hook "OpkgTun10" "disabled" 200) t = true.
Proof.
  apply decide_disables; [apply ex_wf|apply ex_range| |done]. by apply ex_unique.
Defined.

(** An interface enabled from outside (router UI, NDMS) is brought up like a
    user Start when a WAN is up, whatever storage says about [Enabled], and the
    user's "on" is persisted; when it already runs, or no WAN is up, the edge is
    ignored. *)
Theorem external_enable `{GoUnicode} ev st ord t
    (Hwf : wf st) (Hord : map_range (tunnels st) ord) (Huniq : hook_unique ev st)
    (Hty : ev_Type ev = EventNDMSHook) (Hlay : ev_Layer ev = "conf")
    (Hlev : ev_Level ev = "running") (Ht : tunnels st !! ts_ID t = Some t)
    (Hname : ndmsName t = ev_NDMSName ev) :
  let l := decide ev st ord in
  if ts_Running t || negb (anyWANUp st) then l = []
  else l = decide (tunnel_event EventStart (ts_ID t)) st ord ∧
       ActionPersistRunning ∈ types l ∧
       (ts_Backend t = "kernel" → ActionColdStartKernel ∈ types l) ∧
       (ts_Backend t = "nativewg" → ActionStartNativeWG ∈ types l).
Proof.
  unfold decide, tunnel_event; simpl. rewrite Hty. unfold decideNDMSHook.
  rewrite Hlay, Hlev. simpl. destruct (findByNDMSName _ ord) as [t'|] eqn:Hf; last first.
  { by apply (find_ndms_None st ord Hwf Hord _ _ _ Hf) in Ht. }
  apply (find_ndms st ord Hwf Hord) in Hf as [Hn Ht'].
  assert (ts_ID t' = ts_ID t) as Hid by (by eapply Huniq).
  rewrite Hid in *. simplify_eq. destruct (ts_Running t) eqn:Hr, (anyWANUp st); simpl; try done.
  unfold decideStart. rewrite Ht, Hr. split; [done|].
  unfold start_tunnel, appendPostStartActions, types, by_backend, is_kernel, is_nwg.
  rewrite !fmap_app, !elem_of_app. split; [right; right; right; by left|].
  split; intros ->; simpl; left; by left.
Qed.

Lemma external_enable_witness :
  let l := @decide plain_unicode (ex_hook "Wireguard3" "running" 5) ex_state
    [("awg20", ex_nwg); ("awg10", ex_kernel)] in
  if ts_Running ex_nwg || negb (anyWANUp ex_state) then l = []
  else l = @decide plain_unicode (tunnel_event EventStart (ts_ID ex_nwg)) ex_state
         [("awg20", ex_nwg); ("awg10", ex_kernel)] ∧
       ActionPersistRunning ∈ types l ∧
       (ts_Backend ex_nwg = "kernel" → ActionColdStartKernel ∈ types l) ∧
       (ts_Backend ex_nwg = "nativewg" → ActionStartNativeWG ∈ types l).
Proof.
  apply (@external_enable plain_unicode); [apply ex_wf|apply ex_range| |done..].
  by apply ex_unique.
Defined.

(** Which tunnels a restore event must bring up: on a reconnect the running and
    the enabled ones; on boot the enabled ones, except a NativeWG tunnel whose
    whole configuration NDMS itself restores (native ASC, IPv4 endpoint). *)
Definition must_restore (ev : Event) (st : State) (t : tunnelState) : bool :=
  match ev_Type ev with
  | EventReconnect => (ts_Running t || ts_Enabled t) && (is_kernel t || is_nwg t)
  | EventBoot => ts_Enabled t &&
      (is_kernel t || is_nwg t && (negb (supportsASC st) || ts_EndpointMayV6 t))
  | _ => false
  end.

(** After a router boot or a daemon restart every tunnel that has to be up
    is brought up by exactly one action, and a tunnel that neither runs nor is
    enabled is left alone. *)
Theorem restore_once `{GoUnicode} ev st ord id t
    (Hwf : wf st) (Hord : map_range (tunnels st) ord)
    (Hev : ev_Type ev = EventBoot ∨ ev_Type ev = EventReconnect)
    (Hid : id ≠ "") (Ht : tunnels st !! id = Some t) :
  let l := types (proj id (decide ev st ord)) in
  length (filter (λ ty, brings_up ty = true) l) =
    (if must_restore ev st t then 1 else 0)%nat ∧
  (ts_Enabled t = false → ts_Running t = false → l = []).
Proof.
  simpl.
  assert (proj id (decide ev st ord) = tunnel_plan ev st t) as ->.
  { unfold decide, tunnel_plan, decideBoot, decideReconnect.
    destruct Hev as [->| ->]; rewrite !proj_app;
      [rewrite (proj_loop st ord Hwf Hord _ _ (own_boot st))
      |rewrite (proj_loop st ord Hwf Hord _ _ (own_reconnect st))];
      rewrite Ht; unfold reconcile_all; rewrite !(proj_none id "");
      rewrite ?app_nil_r; done || by repeat constructor. }
  unfold must_restore, tunnel_plan.
  pose proof (backend_excl t) as Hexcl. unfold_plans.
  split; [|intros Hen Hrun; rewrite ?Hen, ?Hrun; by destruct Hev as [->| ->]].
  destruct (is_kernel t), (is_nwg t); [by exfalso; auto|..]; clear Hexcl;
    destruct Hev as [->| ->]; flags.
Qed.

Lemma restore_once_witness :
  let l := types (proj "awg20" (@decide plain_unicode (tunnel_event EventReconnect "") ex_state
    [("awg20", ex_nwg); ("awg10", ex_kernel)])) in
  length (filter (λ ty, brings_up ty = true) l) =
    (if must_restore (tunnel_event EventReconnect "") ex_state ex_nwg then 1 else 0)%nat ∧
  (ts_Enabled ex_nwg = false → ts_Running ex_nwg = false → l = []).
Proof.
  apply (@restore_once plain_unicode); [apply ex_wf|apply ex_range|by right|done|done].
Defined.
