(* ===== verification/Execute.v ===== *)
(** * Executing lifecycle actions ([internal/orchestrator])

    [execute.go], [helpers.go] and [resolve_wan.go]: what the orchestrator does
    for every action, over its own state, the tunnel store and the executors.

    The executors the code reaches through interfaces ([ops.Operator],
    [nwg.OperatorNativeWG], [state.Manager], ping check, DNS/static/client
    routes), the clock, the context and the file system are the operations of
    [Executors] over a world [W]: any behaviour is allowed.  An operation may
    register expected NDMS hooks (the [tunnel.HookNotifier] callback) and the
    world may change in any way while it runs. *)
From S2P Require Import Prelude GoLib Names Storage Wan Decide.

(** ** The interfaces *)

Record hook_call := { hc_name : string; hc_level : string; hc_at : Time }.

(** An operation of an executor: its result, the hooks it announced (with the
    time of each call) and the world it leaves. *)
Definition Op (W A : Type) : Type := W → A * list hook_call * W.

Record NetIface := {
  ni_Name : string;
  ni_Loopback : bool;
  ni_Up : bool;
  (** [None]: [Addrs] fails; an address that is not a [net.IPNet] is [None] *)
  ni_Addrs : option (list (option string));
}.

(** [ndms.PingCheckConfig] *)
Record PingCheckConfig := {
  pcc_Host : string; pcc_Mode : string; pcc_MinSuccess : Z;
  pcc_UpdateInterval : Z; pcc_MaxFails : Z; pcc_Timeout : Z; pcc_Port : Z;
  pcc_Restart : bool;
}.

Class Executors (W : Type) := {
  (** wiring: which optional collaborators are present *)
  has_nwgOp : bool;
  has_pingCheck : bool;
  has_dnsRoute : bool;
  has_staticRoute : bool;
  has_clientRoute : bool;
  has_bus : bool;
  has_ifaceInvalidator : bool;
  has_onTunnelRunning : bool;
  has_confLayerRunning : bool;
  confSettleDelay_override : Duration;
  endpoint_may_v6 : string → bool;
  (** observations *)
  now : W → Time;
  ctx_Err : W → option string;
  wanModel : W → Wan.Model;
  range_tunnels : W → gmap string tunnelState → list (string * tunnelState);
  range_wans : W → gmap string Wan.Interface → list (string * Wan.Interface);
  (** [ops.Operator] *)
  kernel_ColdStart : Config → Op W (option string);
  kernel_Reconcile : Config → Op W (option string);
  kernel_Stop : string → Op W (option string);
  kernel_Suspend : string → Op W (option string);
  kernel_Resume : string → Op W (option string);
  kernel_Delete : AWGTunnel → Op W (option string);
  kernel_RestoreEndpointTracking : string → string → string → Op W (string + string);
  kernel_GetTrackedEndpointIP : string → Op W string;
  kernel_GetDefaultGatewayInterface : Op W (string + string);
  kernel_GetSystemName : string → Op W string;
  (** [nwg.OperatorNativeWG] *)
  nwg_Start : AWGTunnel → Op W (option string);
  nwg_Stop : AWGTunnel → Op W (option string);
  nwg_SuspendProxy : AWGTunnel → Op W (option string);
  nwg_Delete : AWGTunnel → Op W (option string);
  nwg_RestoreKmodTunnel : AWGTunnel → Op W (option string);
  nwg_ConfigurePingCheck : AWGTunnel → PingCheckConfig → Op W (option string);
  nwg_RemovePingCheck : AWGTunnel → Op W (option string);
  nwg_GetState : AWGTunnel → Op W StateInfo;
  nwg_ResolveActiveWAN : AWGTunnel → Op W string;
  nwg_GetTrackedEndpointIP : string → Op W string;
  (** [state.Manager], [net], [os], [config.Generate] *)
  state_GetState : string → Op W StateInfo;
  net_Interfaces : Op W (string + list NetIface);
  ResolveEndpointIP : string → Op W (string + string);
  writeConfigFile : AWGTunnel → Op W (option string);
  os_Remove : string → Op W unit;
  (** downstream executors *)
  pingCheck_StartMonitoring : string → string → bool → Op W unit;
  pingCheck_StopMonitoring : string → Op W unit;
  dnsRoute_Reconcile : Op W (option string);
  dnsRoute_OnTunnelDelete : string → Op W (option string);
  staticRoute_OnTunnelStart : string → string → Op W (option string);
  staticRoute_OnTunnelStop : string → Op W (option string);
  staticRoute_OnTunnelDelete : string → Op W (option string);
  staticRoute_Reconcile : Op W (option string);
  clientRoute_OnTunnelStart : string → string → Op W (option string);
  clientRoute_OnTunnelStop : string → Op W (option string);
  clientRoute_OnTunnelDelete : string → Op W (option string);
  (** callbacks, the per-tunnel semaphore and the settle timer *)
  ifaceInvalidator : string → Op W unit;
  onTunnelRunning : string → Op W unit;
  confLayerRunning : string → Op W (string + bool);
  sem_acquire : string → Op W bool;
  sem_release : string → Op W unit;
  sem_cleanup : string → Op W unit;
  timer_or_ctx : Duration → Op W bool;
}.

(** The loops over maps visit every entry once. *)
Class ExecutorsLaws (W : Type) `{!Executors W} : Prop := {
  range_tunnels_ok w m : map_range m (range_tunnels w m);
  range_wans_ok w m : map_range m (range_wans w m);
}.

(** ** The orchestrator *)

Record expectedHook := { eh_name : string; eh_level : string; eh_expiresAt : Time }.

Definition expectedHookTTL : Duration := (15 * Second)%Z.

(** What a goroutine of the orchestrator does that others observe: locks taken
    and released, actions executed (with their error), events published on the
    bus. *)
Inductive signal :=
  | SLock (id : string)
  | SUnlock (id : string)
  | SDo (a : Action) (err : option string)
  | STunnelState (id name st backend : string)
  | STunnelDeleted (id : string)
  | SInvalidated (resource reason : string).

Record Orch (S W : Type) := mkOrch {
  o_state : State;
  o_expectedHooks : list expectedHook;
  o_store : S;
  o_world : W;
  o_signals : list signal;
}.
Arguments mkOrch {_ _} _ _ _ _ _.
Arguments o_state {_ _} _.
Arguments o_expectedHooks {_ _} _.
Arguments o_store {_ _} _.
Arguments o_world {_ _} _.
Arguments o_signals {_ _} _.

Section execute.
Context {S W : Type} `{!StoreOps S} `{!Executors W} `{U : GoUnicode}.
Notation M := (ST (Orch S W)).
Notation error := (option string).

Definition with_state (f : State → State) : M unit := modify (λ o,
  mkOrch (f (o_state o)) (o_expectedHooks o) (o_store o) (o_world o) (o_signals o)).

Definition emit (x : signal) : M unit := modify (λ o,
  mkOrch (o_state o) (o_expectedHooks o) (o_store o) (o_world o) (o_signals o ++ [x])).

(** [ExpectHook]: the token is live for [expectedHookTTL]. *)
Definition ExpectHook (h : hook_call) (l : list expectedHook) : list expectedHook :=
  l ++ [{| eh_name := hc_name h; eh_level := hc_level h;
           eh_expiresAt := (hc_at h + expectedHookTTL)%Z |}].

(** Calling an executor. *)
Definition call {A} (op : Op W A) : M A := λ o,
  let '(a, hooks, w) := op (o_world o) in
  (a, mkOrch (o_state o) (foldl (flip ExpectHook) (o_expectedHooks o) hooks)
        (o_store o) w (o_signals o)).

(** Calling the store. *)
Definition on_store {A} (f : S → A * S) : M A := λ o,
  let '(a, s) := f (o_store o) in
  (a, mkOrch (o_state o) (o_expectedHooks o) s (o_world o) (o_signals o)).

Definition read_world {A} (f : W → A) : M A := gets (λ o, f (o_world o)).

(** [if e := m; e != nil { log }]: the error is dropped. *)
Definition ignore_err (m : M error) : M unit := _ ← m; mret tt.

Definition ErrNotFound : string := "tunnel not found".
Definition not_found (_ : string) : string := ErrNotFound.
Definition prefix_err (p : string) (e : string) : string := p +:+ e.

(** ** [helpers.go] *)

(** The loop keeps the last value of each family. *)
Definition split_address_step (acc : string * string) (part : string) : string * string :=
  let part := TrimSpace part in
  if String.eqb part "" then acc
  else
    let host := match index_byte "/" part with Some i => str_take i part | None => part end in
    if contains_byte ":" host then (acc.1, host) else (host, acc.2).

Definition SplitAddresses (address : string) : string * string :=
  foldl split_address_step ("", "") (split_byte "," address).

Definition StoredToConfig (stored : AWGTunnel) : Config :=
  let '(ipv4, ipv6) := SplitAddresses (t_Address stored) in
  {| cfg_ID := t_ID stored;
     cfg_Name := t_Name stored;
     cfg_Address := ipv4;
     cfg_AddressIPv6 := ipv6;
     cfg_MTU := t_MTU stored;
     cfg_DNS := ParseDNSList (t_DNS stored);
     cfg_ConfPath := ConfPath (NewNames (t_ID stored));
     cfg_DefaultRoute := false;
     cfg_ISPInterface := t_ISPInterface stored;
     cfg_KernelDevice := "";
     cfg_EndpointIP := "";
     cfg_Endpoint := "" |}.

Definition ifaceNameForTunnel (stored : AWGTunnel) : string :=
  if String.eqb (t_Backend stored) "nativewg"
  then nwg_IfaceName (NewNWGNames (t_NWGIndex stored))
  else IfaceName (NewNames (t_ID stored)).

Definition collectManagedIfaceNames : M (list string) :=
  r ← on_store store_List;
  match r with
  | inl _ => mret []
  | inr ts => mret (ifaceNameForTunnel <$> ts)
  end.
(** ** Address conflicts *)

Definition ErrAddressInUse : string := "address already in use".

Definition addr_conflict (ipv4 ipv6 name : string) (addr : option string) : option string :=
  match addr with
  | None => None
  | Some ip =>
      let msg a := ErrAddressInUse +:+ ": address " +:+ a +:+
                   " already assigned to interface " +:+ name in
      if negb (String.eqb ipv4 "") && String.eqb ip ipv4 then Some (msg ipv4)
      else if negb (String.eqb ipv6 "") && String.eqb ip ipv6 then Some (msg ipv6)
      else None
  end.

(** The first error of a loop that returns on error. *)
Fixpoint first_error {A} (f : A → error) (l : list A) : error :=
  match l with
  | [] => None
  | x :: l => match f x with Some e => Some e | None => first_error f l end
  end.

Definition iface_conflict (ipv4 ipv6 : string) (exclude : list string) (i : NetIface) : error :=
  if ni_Loopback i then None
  else if negb (ni_Up i) then None
  else if bool_decide (ni_Name i ∈ exclude) then None
  else match ni_Addrs i with
  | None => None
  | Some addrs => first_error (addr_conflict ipv4 ipv6 (ni_Name i)) addrs
  end.

Definition checkSystemAddressConflict (ipv4 ipv6 : string) (exclude : list string) : M error :=
  if String.eqb ipv4 "" && String.eqb ipv6 "" then mret None
  else
    ifaces ← call net_Interfaces;
    match ifaces with
    | inl _ => mret None
    | inr l => mret (first_error (iface_conflict ipv4 ipv6 exclude) l)
    end.

(** ** [resolve_wan.go] *)

Definition preferred_wan (w : W) : option string :=
  PreferredUp (range_wans w (interfaces (wanModel w))).
Definition wan_name_for_id (id : string) (w : W) : string :=
  NameForID id (range_wans w (interfaces (wanModel w))).
Definition wan_any_up (w : W) : bool :=
  AnyUp (range_wans w (interfaces (wanModel w))).

(** The recursion of [resolveWAN], [None] when the fuel runs out. *)
Fixpoint resolveWAN_fuel (fuel : nat) (ispInterface : string) : M (option (string + string)) :=
  match fuel with
  | O => mret None
  | Datatypes.S fuel =>
      if String.eqb ispInterface "" then
        pref ← read_world preferred_wan;
        match pref with
        | Some iface => mret (Some (inr iface))
        | None =>
            gw ← call kernel_GetDefaultGatewayInterface;
            match gw with
            | inl e => mret (Some (inl ("no default gateway available: " +:+ e)))
            | inr ndmsID =>
                kernelName ← read_world (wan_name_for_id ndmsID);
                if negb (String.eqb kernelName "") then mret (Some (inr kernelName))
                else name ← call (kernel_GetSystemName ndmsID); mret (Some (inr name))
            end
        end
      else if IsTunnelRoute ispInterface then
        let parentID := TunnelRouteID ispInterface in
        r ← on_store (store_Get parentID);
        match r with
        | inl _ => mret (Some (inl ("parent tunnel " +:+ parentID +:+ " not found")))
        | inr parent =>
            if negb (String.eqb (t_ActiveWAN parent) "") then mret (Some (inr (t_ActiveWAN parent)))
            else
              info ← call (state_GetState parentID);
              if negb (bool_decide (si_State info = StateRunning)) then
                mret (Some (inl ("parent tunnel " +:+ parentID +:+ " not running (state: " +:+
                                 state_String (si_State info) +:+ ")")))
              else if IsTunnelRoute (t_ISPInterface parent) then
                mret (Some (inl ("parent tunnel " +:+ parentID +:+
                                 ": nested chain, ActiveWAN not tracked")))
              else resolveWAN_fuel fuel (t_ISPInterface parent)
        end
      else mret (Some (inr ispInterface))
  end.

(** Two levels are enough ([resolveWAN_enough]). *)
Definition resolveWAN (ispInterface : string) : M (string + string) :=
  r ← resolveWAN_fuel 2 ispInterface; mret (default (inl "recursion") r).

Definition resolveKernelDevice (resolvedWAN : string) : string :=
  if String.eqb resolvedWAN "" then ""
  else if IsTunnelRoute resolvedWAN then IfaceName (NewNames (TunnelRouteID resolvedWAN))
  else resolvedWAN.

(** ** The executors of [execute.go] *)

Definition NoNWG : string := "NativeWG backend not available".
Definition needs_nwg (k : M error) : M error :=
  if has_nwgOp then k else mret (Some NoNWG).

(** [stored, err := o.store.Get(id); if err != nil { return tunnel.ErrNotFound }] *)
Definition with_stored (id : string) (k : AWGTunnel → M error) : M error :=
  try_with not_found (on_store (store_Get id)) k.

Definition time_Now_RFC3339 : M string := read_world (λ w, format_RFC3339 (now w)).

(** [if ip := Tracked(id); ip != "" { stored.ResolvedEndpointIP = ip }] *)
Definition tracked_ip (op : string → Op W string) (id : string) (stored : AWGTunnel)
    : M AWGTunnel :=
  ip ← call (op id);
  mret (if String.eqb ip "" then stored else set_ResolvedEndpointIP ip stored).

Definition tunnel_config (stored : AWGTunnel) (resolvedWAN endpointIP : string) : Config :=
  let cfg := StoredToConfig stored in
  {| cfg_ID := cfg_ID cfg; cfg_Name := cfg_Name cfg; cfg_Address := cfg_Address cfg;
     cfg_AddressIPv6 := cfg_AddressIPv6 cfg; cfg_MTU := cfg_MTU cfg; cfg_DNS := cfg_DNS cfg;
     cfg_ConfPath := cfg_ConfPath cfg; cfg_DefaultRoute := t_DefaultRoute stored;
     cfg_ISPInterface := resolvedWAN; cfg_KernelDevice := resolveKernelDevice resolvedWAN;
     cfg_EndpointIP := endpointIP; cfg_Endpoint := t_Endpoint stored |}.

(** The explicitly bound WAN is known to be down. *)
Definition bound_wan_down (stored : AWGTunnel) (resolvedWAN : string) (w : W) : bool :=
  negb (String.eqb (t_ISPInterface stored) "") && negb (IsTunnelRoute (t_ISPInterface stored)) &&
  Known resolvedWAN (wanModel w) && negb (IsUp resolvedWAN (wanModel w)).

Definition executeColdStartKernel (id : string) : M error :=
  with_stored id (λ stored,
  try_with (prefix_err "resolve WAN: ") (resolveWAN (t_ISPInterface stored)) (λ resolvedWAN,
  down ← read_world (bound_wan_down stored resolvedWAN);
  if (down : bool) then mret (Some ("WAN " +:+ resolvedWAN +:+ " is down")) else
  check (prefix_err "write config: ") (call (writeConfigFile stored)) (
  try_with (prefix_err ("start " +:+ id +:+ ": endpoint resolve failed: "))
    (call (ResolveEndpointIP (t_Endpoint stored))) (λ ip,
  let cfg := tunnel_config stored resolvedWAN ip in
  managed ← collectManagedIfaceNames;
  check (prefix_err ("start " +:+ id +:+ ": "))
    (checkSystemAddressConflict (cfg_Address cfg) (cfg_AddressIPv6 cfg) managed) (
  check (λ e, e) (call (kernel_ColdStart cfg)) (
  at_ ← time_Now_RFC3339;
  stored ← tracked_ip kernel_GetTrackedEndpointIP id
    (set_StartedAt at_ (set_ActiveWAN resolvedWAN (set_Enabled true stored)));
  _ ← ignore_err (on_store (store_Save stored));
  mret None)))))).

Definition executeReconcileKernel (id : string) : M error :=
  with_stored id (λ stored,
  try_with (prefix_err "resolve WAN: ") (resolveWAN (t_ISPInterface stored)) (λ resolvedWAN,
  let cfg := tunnel_config stored resolvedWAN (t_ResolvedEndpointIP stored) in
  check (λ e, e) (call (kernel_Reconcile cfg)) (
  stored ← tracked_ip kernel_GetTrackedEndpointIP id (set_ActiveWAN resolvedWAN stored);
  _ ← ignore_err (on_store (store_Save stored));
  mret None))).

Definition executeSuspendKernel (id : string) : M error :=
  check (λ e, e) (call (kernel_Suspend id)) (mret None).

Definition executeResumeKernel (id : string) : M error :=
  check (λ e, e) (call (kernel_Resume id)) (mret None).

Definition executeStartNativeWG (id : string) : M error :=
  needs_nwg (with_stored id (λ stored,
  check (λ e, e) (call (nwg_Start stored)) (
  at_ ← time_Now_RFC3339;
  let stored := set_StartedAt at_ (set_Enabled true stored) in
  activeWAN ← call (nwg_ResolveActiveWAN stored);
  let stored := if String.eqb activeWAN "" then stored else set_ActiveWAN activeWAN stored in
  _ ← ignore_err (on_store (store_Save stored));
  mret None))).

Definition executeReconcileNativeWG (id : string) : M error :=
  needs_nwg (with_stored id (λ stored,
  info ← call (nwg_GetState stored);
  if bool_decide (si_State info = StateRunning) && si_HasHandshake info then mret None
  else executeStartNativeWG id)).

Definition clear_runtime (stored : AWGTunnel) : AWGTunnel :=
  set_StartedAt "" (set_ActiveWAN "" stored).

Definition executeStopKernel (id : string) : M error :=
  check (λ e, e) (call (kernel_Stop id)) (
  r ← on_store (store_Get id);
  match r with
  | inl _ => mret None
  | inr stored => _ ← ignore_err (on_store (store_Save (clear_runtime stored))); mret None
  end).

Definition executeStopNativeWG (id : string) : M error :=
  needs_nwg (with_stored id (λ stored,
  check (λ e, e) (call (nwg_Stop stored)) (
  _ ← ignore_err (on_store (store_Save (clear_runtime stored)));
  mret None))).

Definition executeSuspendProxy (id : string) : M error :=
  needs_nwg (with_stored id (λ stored, call (nwg_SuspendProxy stored))).

Definition executeRestoreKmod (id : string) : M error :=
  needs_nwg (with_stored id (λ stored,
  check (λ e, e) (call (nwg_RestoreKmodTunnel stored)) (
  activeWAN ← call (nwg_ResolveActiveWAN stored);
  let dirty1 := negb (String.eqb activeWAN "") && negb (String.eqb (t_ActiveWAN stored) activeWAN) in
  let stored := if dirty1 then set_ActiveWAN activeWAN stored else stored in
  ip ← call (nwg_GetTrackedEndpointIP id);
  let dirty2 := negb (String.eqb ip "") && negb (String.eqb ip (t_ResolvedEndpointIP stored)) in
  let stored := if dirty2 then set_ResolvedEndpointIP ip stored else stored in
  _ ← (if dirty1 || dirty2 then ignore_err (on_store (store_Save stored)) else mret tt);
  mret None))).
(** The first loop of [executeRestoreEndpointTracking]: [t] is a copy, so the
    later clean-up still sees the listed values. *)
Definition restore_tracking (t : AWGTunnel) : M unit :=
  if String.eqb (t_Backend t) "nativewg" then mret tt
  else if String.eqb (t_Endpoint t) "" then mret tt
  else
    info ← call (state_GetState (t_ID t));
    if negb (bool_decide (si_State info = StateRunning)) then mret tt
    else
      isp ← (if String.eqb (t_ActiveWAN t) "" then
               r ← resolveWAN (t_ISPInterface t);
               mret (match r with inr w => w | inl _ => "" end)
             else mret (t_ActiveWAN t));
      r ← call (kernel_RestoreEndpointTracking (t_ID t) (t_Endpoint t) isp);
      match r with
      | inl _ => mret tt
      | inr ip =>
          if negb (String.eqb ip "") && String.eqb (t_ResolvedEndpointIP t) ""
          then ignore_err (on_store (store_Save (set_ResolvedEndpointIP ip t)))
          else mret tt
      end.

Definition clear_stale (t : AWGTunnel) : M unit :=
  if String.eqb (t_ActiveWAN t) "" && String.eqb (t_StartedAt t) "" then mret tt
  else if String.eqb (t_Backend t) "nativewg" then mret tt
  else
    info ← call (state_GetState (t_ID t));
    if negb (si_ProcessRunning info)
    then on_store (λ s, (tt, ClearRuntimeState (t_ID t) s))
    else mret tt.

Fixpoint for_each {A} (f : A → M unit) (l : list A) : M unit :=
  match l with
  | [] => mret tt
  | x :: l => _ ← f x; for_each f l
  end.

Definition executeRestoreEndpointTracking : M error :=
  try_with (prefix_err "list tunnels: ") (on_store store_List) (λ ts,
  _ ← for_each restore_tracking ts;
  _ ← for_each clear_stale ts;
  mret None).

Definition confDir : string := "/opt/etc/awg-manager".

Definition executeDelete (op : AWGTunnel → Op W error) (confPath : AWGTunnel → string)
    (id : string) : M error :=
  with_stored id (λ stored,
  check (λ e, e) (call (op stored)) (
  _ ← call (os_Remove (confPath stored));
  check (prefix_err "delete from storage: ") (on_store (store_Delete id)) (
  _ ← call (sem_cleanup id);
  mret None))).

Definition executeDeleteKernel (id : string) : M error :=
  executeDelete kernel_Delete (λ _, ConfPath (NewNames id)) id.

Definition executeDeleteNativeWG (id : string) : M error :=
  needs_nwg (executeDelete nwg_Delete (λ stored, confDir +:+ "/" +:+ t_ID stored +:+ ".conf") id).

Definition executePersistRunning (id : string) : M error :=
  with_stored id (λ stored,
  let stored := set_Enabled true stored in
  at_ ← time_Now_RFC3339;
  let stored := if String.eqb (t_StartedAt stored) "" then set_StartedAt at_ stored else stored in
  stored ← (if String.eqb (t_Backend stored) "nativewg" then
              if has_nwgOp then tracked_ip nwg_GetTrackedEndpointIP id stored else mret stored
            else tracked_ip kernel_GetTrackedEndpointIP id stored);
  check (prefix_err "persist running state: ") (on_store (store_Save stored)) (mret None)).

Definition executePersistStopped (id : string) : M error :=
  with_stored id (λ stored,
  check (prefix_err "persist stopped state: ")
    (on_store (store_Save (clear_runtime (set_Enabled false stored)))) (mret None)).

(** [if o.x == nil { return nil }; return o.x.Op(...)] *)
Definition optional (present : bool) (op : Op W error) : M error :=
  if present then call op else mret None.

Definition executeStartMonitoring (id : string) : M error :=
  if negb has_pingCheck then mret None
  else
    r ← on_store (store_Get id);
    match r with
    | inl _ => mret None
    | inr stored =>
        _ ← call (pingCheck_StartMonitoring id (t_Name stored)
                    (String.eqb (t_Backend stored) "nativewg"));
        mret None
    end.

Definition pingcheck_config (pc : TunnelPingCheck) : PingCheckConfig := {|
  pcc_Host := pc_Target pc;
  pcc_Mode := pc_Method pc;
  pcc_MinSuccess := if (pc_MinSuccess pc =? 0)%Z then 1%Z else pc_MinSuccess pc;
  pcc_UpdateInterval := pc_Interval pc;
  pcc_MaxFails := pc_FailThreshold pc;
  pcc_Timeout := pc_Timeout pc;
  pcc_Port := pc_Port pc;
  pcc_Restart := pc_Restart pc |}.

Definition executeConfigurePingCheck (id : string) : M error :=
  if negb has_nwgOp then mret None
  else
    r ← on_store (store_Get id);
    match r with
    | inl _ => mret None
    | inr stored =>
        match t_PingCheck stored with
        | Some pc =>
            if pc_Enabled pc then call (nwg_ConfigurePingCheck stored (pingcheck_config pc))
            else mret None
        | None => mret None
        end
    end.

Definition executeRemovePingCheck (id : string) : M error :=
  if negb has_nwgOp then mret None
  else
    r ← on_store (store_Get id);
    match r with
    | inl _ => mret None
    | inr stored => call (nwg_RemovePingCheck stored)
    end.

Definition executeOne (action : Action) : M error :=
  let id := a_Tunnel action in
  match a_Type action with
  | ActionColdStartKernel => executeColdStartKernel id
  | ActionStartNativeWG => executeStartNativeWG id
  | ActionReconcileNativeWG => executeReconcileNativeWG id
  | ActionStopKernel => executeStopKernel id
  | ActionStopNativeWG => executeStopNativeWG id
  | ActionSuspendProxy => executeSuspendProxy id
  | ActionRestoreKmod => executeRestoreKmod id
  | ActionRestoreEndpointTracking => executeRestoreEndpointTracking
  | ActionLinkToggle => mret None
  | ActionReconcileKernel => executeReconcileKernel id
  | ActionSuspendKernel => executeSuspendKernel id
  | ActionResumeKernel => executeResumeKernel id
  | ActionStartMonitoring => executeStartMonitoring id
  | ActionStopMonitoring =>
      if has_pingCheck then _ ← call (pingCheck_StopMonitoring id); mret None else mret None
  | ActionConfigurePingCheck => executeConfigurePingCheck id
  | ActionRemovePingCheck => executeRemovePingCheck id
  | ActionApplyDNSRoutes | ActionReconcileDNSRoutes => optional has_dnsRoute dnsRoute_Reconcile
  | ActionApplyStaticRoutes =>
      optional has_staticRoute (staticRoute_OnTunnelStart id (a_Iface action))
  | ActionRemoveStaticRoutes => optional has_staticRoute (staticRoute_OnTunnelStop id)
  | ActionReconcileStaticRoutes => optional has_staticRoute staticRoute_Reconcile
  | ActionApplyClientRoutes =>
      optional has_clientRoute (clientRoute_OnTunnelStart id (a_Iface action))
  | ActionRemoveClientRoutes => optional has_clientRoute (clientRoute_OnTunnelStop id)
  | ActionDeleteDNSRoutes => optional has_dnsRoute (dnsRoute_OnTunnelDelete id)
  | ActionDeleteStaticRoutes => optional has_staticRoute (staticRoute_OnTunnelDelete id)
  | ActionDeleteClientRoutes => optional has_clientRoute (clientRoute_OnTunnelDelete id)
  | ActionDeleteKernel => executeDeleteKernel id
  | ActionDeleteNativeWG => executeDeleteNativeWG id
  | ActionPersistRunning => executePersistRunning id
  | ActionPersistStopped => executePersistStopped id
  end.
End execute.
