(* ===== verification/Orchestrator.v ===== *)
(** * The orchestrator ([internal/orchestrator/orchestrator.go], [state.go])

    The state cache, the expected-hook queue, the settling of NDMS [conf]
    edges, and [HandleEvent]: decide, then execute under the tunnel's lock.

    A computation is what one goroutine does.  It gives way to the others where
    it blocks without the mutex (the settle timer, the per-tunnel lock): [others]
    is whatever they do there, to the whole orchestrator. *)
From S2P Require Import Prelude GoLib Names Storage Wan Decide Execute.

Definition bootQuiescenceWindow : Duration := (20 * Second)%Z.
Definition confSettleDelay : Duration := (5 * Second)%Z.
Definition ErrOperationInProgress : string :=
  "операция с туннелем уже выполняется — дождитесь завершения предыдущей".

(** Updates of a cached tunnel. *)
Definition ts_upd (t : tunnelState) (running monitoring : bool) (wan : string)
    (quiet conf : Time) : tunnelState := {|
  ts_ID := ts_ID t; ts_Name := ts_Name t; ts_Backend := ts_Backend t;
  ts_Enabled := ts_Enabled t; ts_Running := running; ts_Monitoring := monitoring;
  ts_ActiveWAN := wan; ts_NWGIndex := ts_NWGIndex t; ts_PingCheck := ts_PingCheck t;
  ts_ISPInterface := ts_ISPInterface t; ts_EndpointMayV6 := ts_EndpointMayV6 t;
  ts_quiescentUntil := quiet; ts_lastConfRunningAt := conf |}.

Definition ts_started (until : Time) (wan : string) (t : tunnelState) : tunnelState :=
  ts_upd t true (ts_Monitoring t) wan until (ts_lastConfRunningAt t).
Definition ts_stopped (t : tunnelState) : tunnelState :=
  ts_upd t false false "" (ts_quiescentUntil t) (ts_lastConfRunningAt t).
Definition ts_set_Monitoring (b : bool) (t : tunnelState) : tunnelState :=
  ts_upd t (ts_Running t) b (ts_ActiveWAN t) (ts_quiescentUntil t) (ts_lastConfRunningAt t).
Definition ts_set_Running (b : bool) (t : tunnelState) : tunnelState :=
  ts_upd t b (ts_Monitoring t) (ts_ActiveWAN t) (ts_quiescentUntil t) (ts_lastConfRunningAt t).
Definition ts_conf_running (at_ : Time) (t : tunnelState) : tunnelState :=
  ts_upd t (ts_Running t) (ts_Monitoring t) (ts_ActiveWAN t) (ts_quiescentUntil t) at_.

(** The fields that live only in the cache. *)
Definition keep_runtime (cur fresh : tunnelState) : tunnelState :=
  ts_upd fresh (ts_Running cur) (ts_Monitoring cur) (ts_ActiveWAN fresh)
    (ts_quiescentUntil cur) (ts_lastConfRunningAt cur).

Definition set_tunnels (m : gmap string tunnelState) (st : State) : State :=
  {| tunnels := m; anyWANUpFn := anyWANUpFn st; supportsASC := supportsASC st |}.
Definition put_tunnel (k : string) (t : tunnelState) (st : State) : State :=
  set_tunnels (<[k := t]> (tunnels st)) st.
Definition alter_tunnel (f : tunnelState → tunnelState) (k : string) (st : State) : State :=
  set_tunnels (alter f k (tunnels st)) st.

(** ** Grouping of multi-tunnel action lists *)

Fixpoint span_tunnel (tid : string) (l : list Action) : list Action * list Action :=
  match l with
  | [] => ([], [])
  | a :: l' =>
      if String.eqb (a_Tunnel a) tid
      then let '(g, rest) := span_tunnel tid l' in (a :: g, rest)
      else ([], l)
  end.

Fixpoint group_fuel (fuel : nat) (l : list Action) : list (list Action) :=
  match fuel, l with
  | Datatypes.S fuel, a :: _ =>
      let '(g, rest) := span_tunnel (a_Tunnel a) l in g :: group_fuel fuel rest
  | _, _ => []
  end.

(** Every round takes at least one action, so [length] rounds are enough. *)
Definition groupContiguousByTunnel (actions : list Action) : list (list Action) :=
  group_fuel (length actions) actions.

Section orchestrator.
Context {S W : Type} `{!StoreOps S} `{!Executors W} `{U : GoUnicode}.
Notation M := (ST (Orch S W)).
Notation error := (option string).
Variable others : Orch S W → Orch S W.

(** ** The state cache *)

Definition tunnelStateFromStored (t : AWGTunnel) : tunnelState := {|
  ts_ID := t_ID t; ts_Name := t_Name t; ts_Backend := t_Backend t;
  ts_Enabled := t_Enabled t; ts_Running := false; ts_Monitoring := false;
  ts_ActiveWAN := t_ActiveWAN t; ts_NWGIndex := t_NWGIndex t;
  ts_PingCheck := t_PingCheck t; ts_ISPInterface := t_ISPInterface t;
  ts_EndpointMayV6 := endpoint_may_v6 (t_Endpoint t);
  ts_quiescentUntil := 0%Z; ts_lastConfRunningAt := 0%Z |}.

Definition load_tunnels (ts : list AWGTunnel) (st : State) : State :=
  foldl (λ st t, put_tunnel (t_ID t) (tunnelStateFromStored t) st) st ts.

Definition loadFromStore : M unit :=
  r ← on_store store_List;
  match r with
  | inl _ => mret tt
  | inr ts => with_state (load_tunnels ts)
  end.

Definition ensureTunnel (id : string) : M bool :=
  st ← gets o_state;
  match tunnels st !! id with
  | Some _ => mret true
  | None =>
      r ← on_store (store_Get id);
      match r with
      | inl _ => mret false
      | inr stored => _ ← with_state (put_tunnel id (tunnelStateFromStored stored)); mret true
      end
  end.

Definition refreshed (id : string) (stored : AWGTunnel) (st : State) : State :=
  let fresh := tunnelStateFromStored stored in
  put_tunnel id
    (match tunnels st !! id with Some cur => keep_runtime cur fresh | None => fresh end) st.

Definition RefreshTunnelState (id : string) : M unit :=
  r ← on_store (store_Get id);
  match r with
  | inl _ => mret tt
  | inr stored => with_state (refreshed id stored)
  end.

(** [anyWANUpFn] is the model's [AnyUp] once wired: its current answer. *)
Definition wire_wan (w : W) (st : State) : State :=
  {| tunnels := tunnels st; anyWANUpFn := Some (wan_any_up w); supportsASC := supportsASC st |}.
Definition sync_wan (w : W) (st : State) : State :=
  match anyWANUpFn st with Some _ => wire_wan w st | None => st end.

(** The running state of one tunnel at start-up, [None] when it cannot be read. *)
Definition probe_running (t : tunnelState) : M (option bool) :=
  if is_nwg t then
    if has_nwgOp then
      r ← on_store (store_Get (ts_ID t));
      match r with
      | inl _ => mret None
      | inr stored =>
          info ← call (nwg_GetState stored);
          mret (Some (bool_decide (si_State info = StateRunning) ||
                      bool_decide (si_State info = StateStarting)))
      end
    else mret (Some (ts_Running t))
  else
    info ← call (state_GetState (ts_ID t));
    mret (Some (bool_decide (si_State info = StateRunning))).

Definition load_tunnel (e : string * tunnelState) : M unit :=
  r ← probe_running e.2;
  match r with
  | None => mret tt
  | Some up =>
      with_state (alter_tunnel (λ t,
        let t := ts_set_Running up t in
        if up && pingcheck_on t then ts_set_Monitoring true t else t) e.1)
  end.

Definition LoadState : M unit :=
  _ ← loadFromStore;
  w ← read_world id;
  _ ← with_state (wire_wan w);
  o ← gets id;
  for_each load_tunnel (range_tunnels (o_world o) (tunnels (o_state o))).

Definition SetSupportsASC (b : bool) : M unit :=
  with_state (λ st, {| tunnels := tunnels st; anyWANUpFn := anyWANUpFn st; supportsASC := b |}).

(** [state.findByNDMSName], over the map in its current order. *)
Definition find_tunnel (name : string) : M (option tunnelState) :=
  gets (λ o, findByNDMSName name (range_tunnels (o_world o) (tunnels (o_state o)))).

Definition QuiescentUntil (id : string) (o : Orch S W) : Time :=
  match tunnels (o_state o) !! id with Some t => ts_quiescentUntil t | None => 0%Z end.

(** ** Expected hooks *)

Definition hook_live (now : Time) (h : expectedHook) : bool := (now <? eh_expiresAt h)%Z.
Definition hook_matches (name level : string) (h : expectedHook) : bool :=
  String.eqb (eh_name h) name && String.eqb (eh_level h) level.

(** The loop that removes the first match. *)
Fixpoint take_hook (name level : string) (l : list expectedHook) : option (list expectedHook) :=
  match l with
  | [] => None
  | h :: l =>
      if hook_matches name level h then Some l
      else cons h <$> take_hook name level l
  end.

Definition consume_hook (now : Time) (name level : string) (l : list expectedHook)
    : bool * list expectedHook :=
  let live := List.filter (hook_live now) l in
  match take_hook name level live with
  | Some rest => (true, rest)
  | None => (false, live)
  end.

Definition consumeExpectedHook (name level : string) : M bool := λ o,
  let '(b, l) := consume_hook (now (o_world o)) name level (o_expectedHooks o) in
  (b, mkOrch (o_state o) l (o_store o) (o_world o) (o_signals o)).
(** ** The tunnel lock and the settling of conf edges *)

(** What [others] do; [o_signals] records this goroutine only. *)
Definition yield_others : M unit := modify (λ o,
  let o' := others o in
  mkOrch (o_state o') (o_expectedHooks o') (o_store o') (o_world o') (o_signals o)).

(** Blocks until the semaphore is free, the context is done or
    [tunnelLockTimeout] passes; the others run meanwhile. *)
Definition lockTunnel (id : string) : M error :=
  ok ← call (sem_acquire id);
  _ ← yield_others;
  if (ok : bool) then _ ← emit (SLock id); mret None
  else mret (Some (ErrOperationInProgress +:+ " (" +:+ id +:+ ")")).

Definition unlockTunnel (id : string) : M unit :=
  _ ← call (sem_release id); emit (SUnlock id).

Definition under_lock (id : string) (m : M error) : M error :=
  check (λ e, e) (lockTunnel id) (r ← m; _ ← unlockTunnel id; mret r).

Definition noteConfRunning (name : string) : M unit :=
  t ← find_tunnel name;
  at_ ← read_world now;
  match t with
  | Some t => with_state (alter_tunnel (ts_conf_running at_) (ts_ID t))
  | None => mret tt
  end.

Definition awaitTunnelIdle (name : string) : M unit :=
  t ← find_tunnel name;
  match t with
  | None => mret tt
  | Some t =>
      if String.eqb (ts_ID t) "" then mret tt
      else
        r ← lockTunnel (ts_ID t);
        match r with None => unlockTunnel (ts_ID t) | Some _ => mret tt end
  end.

Definition settle_delay : Duration :=
  if (confSettleDelay_override <=? 0)%Z then confSettleDelay else confSettleDelay_override.

(** What to do with the held edge once the delay is over: [at_] is when the
    edge arrived. *)
Definition settle_verdict (name id : string) (at_ : Time) : M bool :=
  st ← gets o_state;
  match tunnels st !! id with
  | None => mret true
  | Some t =>
      if (at_ <? ts_lastConfRunningAt t)%Z then mret false
      else if negb has_confLayerRunning then mret true
      else
        r ← call (confLayerRunning name);
        mret (match r with inl _ => true | inr up => negb up end)
  end.

Definition settleConfDisabled (name : string) : M bool :=
  t ← find_tunnel name;
  at_ ← read_world now;
  match t with
  | None => mret true
  | Some t =>
      if negb (ts_Running t) || (at_ <? ts_quiescentUntil t)%Z then mret true
      else
        gone ← call (timer_or_ctx settle_delay);
        _ ← yield_others;
        if (gone : bool) then mret false
        else settle_verdict name (ts_ID t) at_
  end.

(** ** Executing a plan *)

Definition started_action (ty : ActionType) : bool :=
  match ty with
  | ActionColdStartKernel | ActionStartNativeWG | ActionReconcileNativeWG
  | ActionReconcileKernel | ActionResumeKernel => true
  | _ => false
  end.
Definition stopped_action (ty : ActionType) : bool :=
  match ty with ActionStopKernel | ActionStopNativeWG => true | _ => false end.
Definition suspended_action (ty : ActionType) : bool :=
  match ty with ActionSuspendProxy | ActionSuspendKernel => true | _ => false end.
Definition deleted_action (ty : ActionType) : bool :=
  match ty with ActionDeleteKernel | ActionDeleteNativeWG => true | _ => false end.

(** The first [switch] of [updateState]: the cache. *)
Definition update_cache (action : Action) (t : tunnelState) : M unit :=
  let id := a_Tunnel action in
  if started_action (a_Type action) then
    at_ ← read_world now;
    r ← on_store (store_Get id);
    let wan := match r with inr stored => t_ActiveWAN stored | inl _ => ts_ActiveWAN t end in
    with_state (alter_tunnel (ts_started (at_ + bootQuiescenceWindow) wan) id)
  else if stopped_action (a_Type action) then with_state (alter_tunnel ts_stopped id)
  else match a_Type action with
  | ActionStartMonitoring => with_state (alter_tunnel (ts_set_Monitoring true) id)
  | ActionStopMonitoring => with_state (alter_tunnel (ts_set_Monitoring false) id)
  | ActionDeleteKernel | ActionDeleteNativeWG =>
      with_state (λ st, set_tunnels (delete id (tunnels st)) st)
  | _ => mret tt
  end.

(** The second [switch]: the event bus and the callbacks. *)
Definition publish_update (action : Action) (t : tunnelState) : M unit :=
  if negb has_bus then mret tt
  else if started_action (a_Type action) then
    _ ← emit (STunnelState (ts_ID t) (ts_Name t) "running" (ts_Backend t));
    _ ← emit (SInvalidated "tunnels" "state-running");
    let name := NDMSName (NewNames (ts_ID t)) in
    _ ← (if has_ifaceInvalidator && is_kernel t && negb (String.eqb name "")
         then call (ifaceInvalidator name) else mret tt);
    if has_onTunnelRunning then call (onTunnelRunning (ts_ID t)) else mret tt
  else if stopped_action (a_Type action) || suspended_action (a_Type action) then
    _ ← emit (STunnelState (ts_ID t) (ts_Name t) "stopped" (ts_Backend t));
    emit (SInvalidated "tunnels" "state-stopped")
  else if deleted_action (a_Type action) then
    _ ← emit (STunnelDeleted (a_Tunnel action));
    emit (SInvalidated "tunnels" "deleted")
  else mret tt.

Definition updateState (action : Action) : M unit :=
  st ← gets o_state;
  match tunnels st !! a_Tunnel action with
  | None => mret tt
  | Some t => _ ← update_cache action t; publish_update action t
  end.

Definition or_first (first e : error) : error :=
  match first with Some _ => first | None => e end.

(** One round of the loop of [executeActions]: the cache follows success. *)
Definition run_action (action : Action) : M error :=
  r ← executeOne action;
  _ ← emit (SDo action r);
  _ ← match r with Some _ => mret tt | None => updateState action end;
  mret r.

Fixpoint executeActions_from (firstErr : error) (actions : list Action) : M error :=
  match actions with
  | [] => mret firstErr
  | action :: rest =>
      ctx ← read_world ctx_Err;
      match ctx with
      | Some e => mret (or_first firstErr (Some e))
      | None =>
          r ← run_action action;
          executeActions_from (or_first firstErr r) rest
      end
  end.
Definition executeActions : list Action → M error := executeActions_from None.

Definition group_tunnel (group : list Action) : string :=
  match group with a :: _ => a_Tunnel a | [] => "" end.

Definition executeGroup (group : list Action) : M error :=
  let tid := group_tunnel group in
  if String.eqb tid "" then executeActions group
  else under_lock tid (executeActions group).

Fixpoint execute_groups (firstErr : error) (groups : list (list Action)) : M error :=
  match groups with
  | [] => mret firstErr
  | g :: rest => r ← executeGroup g; execute_groups (or_first firstErr r) rest
  end.
Definition executeActionsGrouped (actions : list Action) : M error :=
  execute_groups None (groupContiguousByTunnel actions).

(** ** [HandleEvent] *)

Definition is_hook (ev : Event) : bool := bool_decide (ev_Type ev = EventNDMSHook).

(** [false]: the edge is dropped. *)
Definition conf_gate (ev : Event) : M bool :=
  if is_hook ev && String.eqb (ev_Layer ev) "conf" then
    if String.eqb (ev_Level ev) "running" then
      _ ← noteConfRunning (ev_NDMSName ev);
      _ ← awaitTunnelIdle (ev_NDMSName ev);
      mret true
    else if String.eqb (ev_Level ev) "disabled" then settleConfDisabled (ev_NDMSName ev)
    else mret true
  else mret true.

Definition set_Now (at_ : Time) (ev : Event) : Event := {|
  ev_Type := ev_Type ev; ev_Tunnel := ev_Tunnel ev; ev_Now := at_;
  ev_NDMSName := ev_NDMSName ev; ev_Layer := ev_Layer ev; ev_Level := ev_Level ev;
  ev_WANIface := ev_WANIface ev |}.

Definition decide_now (ev : Event) : M (list Action) :=
  at_ ← read_world now;
  let ev := if IsZero (ev_Now ev) then set_Now at_ ev else ev in
  _ ← (if String.eqb (ev_Tunnel ev) "" then mret true else ensureTunnel (ev_Tunnel ev));
  w ← read_world id;
  _ ← with_state (sync_wan w);
  gets (λ o, decide ev (o_state o) (range_tunnels (o_world o) (tunnels (o_state o)))).

Definition execute_plan (ev : Event) (actions : list Action) : M error :=
  match actions with
  | [] => mret None
  | _ :: _ =>
      if String.eqb (ev_Tunnel ev) "" then executeActionsGrouped actions
      else under_lock (ev_Tunnel ev) (executeActions actions)
  end.

Definition HandleEvent (ev : Event) : M error :=
  self ← (if is_hook ev then consumeExpectedHook (ev_NDMSName ev) (ev_Level ev)
          else mret false);
  if (self : bool) then mret None
  else
    go ← conf_gate ev;
    if negb go then mret None
    else actions ← decide_now ev; execute_plan ev actions.
End orchestrator.
