(* ===== verification/Sim.v ===== *)
(** * A concrete world

    An instance of [Executors] whose operations fail by a script, on which the
    theorems about arbitrary executors are instantiated. *)
From S2P Require Import Prelude GoLib Names Storage Wan Decide Execute Orchestrator.

(** [sim_faults]: the outcome of the coming fallible operations, [true] for an
    error (no fault once the script is over). *)
Record sim := {
  sim_now : Time;
  sim_ctx : option string;
  sim_wans : Wan.Model;
  sim_up : bool;
  sim_busy : bool;
  sim_gone : bool;
  sim_faults : list bool;
}.

Definition sim_pop (w : sim) : bool * sim :=
  match sim_faults w with
  | [] => (false, w)
  | b :: bs =>
      (b, {| sim_now := sim_now w; sim_ctx := sim_ctx w; sim_wans := sim_wans w;
             sim_up := sim_up w; sim_busy := sim_busy w; sim_gone := sim_gone w;
             sim_faults := bs |})
  end.

Definition sim_op : Op sim (option string) := λ w,
  let '(b, w) := sim_pop w in (if b then Some "fault" else None, [], w).
Definition sim_val (s : string) : Op sim (string + string) := λ w,
  let '(b, w) := sim_pop w in (if b then inl "fault" else inr s, [], w).
Definition sim_ret {A} (f : sim → A) : Op sim A := λ w, (f w, [], w).

(** Bringing an NDMS interface down announces the edge it will cause. *)
Definition sim_stop (name : string) : Op sim (option string) := λ w,
  let '(b, w) := sim_pop w in
  (if b then Some "fault" else None,
   [{| hc_name := name; hc_level := "disabled"; hc_at := sim_now w |}], w).

Definition sim_info (w : sim) : StateInfo := {|
  si_State := if sim_up w then StateRunning else StateDisabled;
  si_ProcessRunning := sim_up w; si_HasHandshake := sim_up w |}.

#[export] Instance sim_executors : Executors sim := {|
  has_nwgOp := true; has_pingCheck := true; has_dnsRoute := true; has_staticRoute := true;
  has_clientRoute := true; has_bus := true; has_ifaceInvalidator := true;
  has_onTunnelRunning := true; has_confLayerRunning := true;
  confSettleDelay_override := 0%Z;
  endpoint_may_v6 _ := false;
  now := sim_now; ctx_Err := sim_ctx; wanModel := sim_wans;
  range_tunnels _ m := map_to_list m; range_wans _ m := map_to_list m;
  kernel_ColdStart _ := sim_op; kernel_Reconcile _ := sim_op;
  kernel_Stop id := sim_stop (NDMSName (NewNames (U := plain_unicode) id));
  kernel_Suspend _ := sim_op; kernel_Resume _ := sim_op; kernel_Delete _ := sim_op;
  kernel_RestoreEndpointTracking _ _ _ := sim_val "192.0.2.1";
  kernel_GetTrackedEndpointIP _ := sim_ret (λ _, "192.0.2.1");
  kernel_GetDefaultGatewayInterface := sim_val "PPPoE0";
  kernel_GetSystemName id := sim_ret (λ _, id);
  nwg_Start _ := sim_op; nwg_Stop t := sim_stop (nwg_NDMSName (NewNWGNames (t_NWGIndex t)));
  nwg_SuspendProxy _ := sim_op; nwg_Delete _ := sim_op; nwg_RestoreKmodTunnel _ := sim_op;
  nwg_ConfigurePingCheck _ _ := sim_op; nwg_RemovePingCheck _ := sim_op;
  nwg_GetState _ := sim_ret sim_info; nwg_ResolveActiveWAN _ := sim_ret (λ _, "ppp0");
  nwg_GetTrackedEndpointIP _ := sim_ret (λ _, "");
  state_GetState _ := sim_ret sim_info;
  net_Interfaces := sim_ret (λ _, inr []);
  ResolveEndpointIP _ := sim_val "192.0.2.1";
  writeConfigFile _ := sim_op;
  os_Remove _ := sim_ret (λ _, tt);
  pingCheck_StartMonitoring _ _ _ := sim_ret (λ _, tt);
  pingCheck_StopMonitoring _ := sim_ret (λ _, tt);
  dnsRoute_Reconcile := sim_op; dnsRoute_OnTunnelDelete _ := sim_op;
  staticRoute_OnTunnelStart _ _ := sim_op; staticRoute_OnTunnelStop _ := sim_op;
  staticRoute_OnTunnelDelete _ := sim_op; staticRoute_Reconcile := sim_op;
  clientRoute_OnTunnelStart _ _ := sim_op; clientRoute_OnTunnelStop _ := sim_op;
  clientRoute_OnTunnelDelete _ := sim_op;
  ifaceInvalidator _ := sim_ret (λ _, tt); onTunnelRunning _ := sim_ret (λ _, tt);
  confLayerRunning _ := sim_ret (λ w, inr (sim_up w));
  sem_acquire _ := sim_ret (λ w, negb (sim_busy w));
  sem_release _ := sim_ret (λ _, tt); sem_cleanup _ := sim_ret (λ _, tt);
  timer_or_ctx _ := sim_ret sim_gone;
|}.

#[export] Instance sim_laws : ExecutorsLaws sim.
Proof. split; intros; apply map_range_self. Qed.

Definition sim_wan_up : Wan.Model :=
  Populate [{| Wan.Name := "ppp0"; Wan.ID := "PPPoE0"; Wan.Label := "ISP"; Wan.Up := true;
               Wan.Priority := 700 |}] NewModel.

Definition sim_world (faults : list bool) : sim := {|
  sim_now := (1000 * Hour)%Z; sim_ctx := None; sim_wans := sim_wan_up; sim_up := true;
  sim_busy := false; sim_gone := false; sim_faults := faults |}.

(** Two stored tunnels, a kernel one and a NativeWG one. *)
Definition sim_tunnel (id backend : string) (index : Z) (enabled : bool) : AWGTunnel := {|
  t_ID := id; t_Name := "office"; t_Type := "awg"; t_Enabled := enabled;
  t_DefaultRoute := true; t_DefaultRouteSet := true; t_ISPInterface := "";
  t_ResolvedEndpointIP := ""; t_ActiveWAN := "ppp0"; t_StartedAt := "2025-01-01T00:00:00Z";
  t_Backend := backend; t_NWGIndex := index; t_Address := "10.0.0.2/32, fd00::2/128";
  t_MTU := 1280; t_DNS := "1.1.1.1"; t_Endpoint := "vpn.example.org:51820";
  t_PingCheck := None |}.

Definition sim_disk (enabled : bool) (faults : list bool) : disk := {|
  d_files := <["awg10" := FJson (sim_tunnel "awg10" "kernel" 0 enabled)]>
    (<["awg20" := FJson (sim_tunnel "awg20" "nativewg" 1 enabled)]> ∅);
  d_faults := faults |}.

Definition sim_orch (enabled running : bool) (faults : list bool) : Orch disk sim :=
  mkOrch {| tunnels :=
              <["awg10" := ts_set_Running running
                  (tunnelStateFromStored (sim_tunnel "awg10" "kernel" 0 enabled))]>
              (<["awg20" := ts_set_Running running
                  (tunnelStateFromStored (sim_tunnel "awg20" "nativewg" 1 enabled))]> ∅);
            anyWANUpFn := Some true; supportsASC := false |}
    [] (sim_disk enabled []) (sim_world faults) [].
