(* ===== verification/ExecuteProps.v ===== *)
(** * What an action does to the stored tunnels

    [storage_effect]: the abstract meaning of every action on the store, and
    the refinement theorem that [executeOne] implements it whatever the
    executors answer. *)
From S2P Require Import Prelude GoLib Names Storage Wan Decide Execute Orchestrator Sim.

Notation view := (gmap string AWGTunnel).

(** Files are named after the tunnel they hold. *)
Definition view_wf (v : view) : Prop :=
  map_Forall (λ id t, t_ID t = id ∧ migrate t = t) v.

(** ** The specification *)

(** How an action may rewrite a stored tunnel: only the four run-time fields
    change. *)
Definition stored_change (ty : ActionType) (t t' : AWGTunnel) : Prop :=
  ∃ en ip wan at_, t' = upd t en ip wan at_ ∧
  match ty with
  | ActionColdStartKernel | ActionStartNativeWG | ActionReconcileNativeWG =>
      en = true ∧ at_ ≠ ""
  | ActionPersistRunning => en = true ∧ at_ ≠ "" ∧ wan = t_ActiveWAN t
  | ActionStopKernel | ActionStopNativeWG =>
      en = t_Enabled t ∧ ip = t_ResolvedEndpointIP t ∧ wan = "" ∧ at_ = ""
  | ActionPersistStopped =>
      en = false ∧ ip = t_ResolvedEndpointIP t ∧ wan = "" ∧ at_ = ""
  | ActionReconcileKernel | ActionRestoreKmod => en = t_Enabled t ∧ at_ = t_StartedAt t
  | ActionRestoreEndpointTracking => en = t_Enabled t
  | _ => False
  end.

Definition write (ty : ActionType) (id : string) (v v' : view) : Prop :=
  ∃ t t', v !! id = Some t ∧ stored_change ty t t' ∧ v' = <[id := t']> v.

(** [r]: the error of the action.  The persist and delete actions succeed only
    if they did their work; restoring the endpoint tracking may touch any
    tunnel. *)
Definition storage_effect (a : Action) (r : option string) (v v' : view) : Prop :=
  match a_Type a with
  | ActionPersistRunning | ActionPersistStopped =>
      (r = None ∧ write (a_Type a) (a_Tunnel a) v v') ∨ (r ≠ None ∧ v' = v)
  | ActionDeleteKernel | ActionDeleteNativeWG =>
      (r = None ∧ is_Some (v !! a_Tunnel a) ∧ v' = delete (a_Tunnel a) v) ∨ (r ≠ None ∧ v' = v)
  | ActionRestoreEndpointTracking =>
      rtc (λ v v', ∃ id, write ActionRestoreEndpointTracking id v v') v v'
  | _ => v' = v ∨ (r = None ∧ write (a_Type a) (a_Tunnel a) v v')
  end.

Lemma write_wf ty id v v' : view_wf v → write ty id v v' → view_wf v'.
Proof.
  intros Hv (t & t' & Ht & (en & ip & wan & at_ & -> & _) & ->).
  apply map_Forall_insert_2; [|done]. destruct (Hv _ _ Ht) as [Hid Hm]. split; [done|].
  by apply migrate_upd.
Qed.

Lemma storage_effect_wf a r v v' : view_wf v → storage_effect a r v v' → view_wf v'.
Proof.
  intros Hv. unfold storage_effect.
  assert (∀ ty, write ty (a_Tunnel a) v v' → view_wf v') by (intros; by eapply write_wf).
  destruct (a_Type a); try (intros; naive_solver);
    try (intros [(_ & _ & ->)|[_ ->]]; [by apply map_Forall_delete|done]).
  clear H. induction 1 as [|v1 v2 v3 [id Hw] _ IH]; [done|]. apply IH; by eapply write_wf.
Qed.

(** ** The proof *)

Section effects.
Context {S W : Type} `{!StoreOps S} `{!TunnelStore S} `{!Executors W} `{U : GoUnicode}.
Notation M := (ST (Orch S W)).
Notation error := (option string).

(** The cache, this goroutine's signals and the stored tunnels are as given. *)
Definition at_view (st : State) (sg : list signal) (v : view) (o : Orch S W) : Prop :=
  o_state o = st ∧ o_signals o = sg ∧ store_view (o_store o) = v.

Context (st : State) (sg : list signal).
Notation at_ := (at_view st sg).

Lemma t_call {A} v (op : Op W A) : triple (at_ v) (call op) (λ _, at_ v).
Proof. intros o (? & ? & ?). unfold call. destruct (op _) as [[a h] w]. done. Qed.

Lemma t_world {A} v (f : W → A) : triple (at_ v) (read_world f) (λ _, at_ v).
Proof. by intros o ?. Qed.

Lemma t_get v id :
  triple (at_ v) (on_store (store_Get id))
    (λ r o, at_ v o ∧ match r with inr t => v !! id = Some t | inl _ => True end).
Proof.
  intros o (? & ? & Hv). unfold on_store.
  pose proof (store_Get_view id (o_store o)) as Hg.
  pose proof (store_Get_sound id (o_store o)) as Hs.
  destruct (store_Get id (o_store o)) as [r s]. simpl in *. unfold at_view. simpl.
  split; [split_and!; congruence|]. destruct r; [done|]. rewrite <- Hv. by apply Hs.
Qed.

Lemma t_list v :
  triple (at_ v) (on_store store_List)
    (λ r o, at_ v o ∧ match r with
                      | inr l => ∀ t, t ∈ l → ∃ id, v !! id = Some t
                      | inl _ => True end).
Proof.
  intros o (? & ? & Hv). unfold on_store.
  pose proof (store_List_view (o_store o)) as Hg.
  pose proof (store_List_sound (o_store o)) as Hs.
  destruct (store_List (o_store o)) as [r s]. simpl in *. unfold at_view. simpl.
  split; [split_and!; congruence|]. destruct r as [|l]; [done|]. intros t Ht.
  destruct (Hs l t eq_refl Ht) as [id Hid]. exists id. congruence.
Qed.

Lemma t_save v t :
  triple (at_ v) (on_store (store_Save t))
    (λ r, at_ (match r with None => <[t_ID t := migrate t]> v | Some _ => v end)).
Proof.
  intros o (? & ? & Hv). unfold on_store.
  pose proof (store_Save_ok t (o_store o)) as Hok.
  pose proof (store_Save_err t (o_store o)) as Herr.
  destruct (store_Save t (o_store o)) as [[e|] s]; simpl in *; split_and!; simpl;
    try done; [rewrite (Herr e)|rewrite Hok]; congruence.
Qed.

Lemma t_delete v id :
  triple (at_ v) (on_store (store_Delete id))
    (λ r, at_ (match r with None => delete id v | Some _ => v end)).
Proof.
  intros o (? & ? & Hv). unfold on_store.
  pose proof (store_Delete_ok id (o_store o)) as Hok.
  pose proof (store_Delete_err id (o_store o)) as Herr.
  destruct (store_Delete id (o_store o)) as [[e|] s]; simpl in *; split_and!; simpl;
    try done; [rewrite (Herr e)|rewrite Hok]; congruence.
Qed.

(** Everything but the stored tunnels and the world is left alone. *)
Lemma t_conflict v ip4 ip6 l :
  triple (at_ v) (checkSystemAddressConflict ip4 ip6 l) (λ _, at_ v).
Proof.
  unfold checkSystemAddressConflict. case_match; [by apply triple_ret|].
  eapply triple_bind; [apply t_call|]. intros [e|l']; by apply triple_ret.
Qed.

Lemma t_managed v : triple (at_ v) collectManagedIfaceNames (λ _, at_ v).
Proof.
  eapply triple_bind; [apply t_list|]. intros [e|ts]; apply triple_ret; naive_solver.
Qed.

Lemma t_resolve_fuel v n isp : triple (at_ v) (resolveWAN_fuel n isp) (λ _, at_ v).
Proof.
  revert isp. induction n as [|n IH]; intros isp; simpl; [by apply triple_ret|].
  case_match.
  - eapply triple_bind; [apply t_world|]. intros [i|]; [by apply triple_ret|].
    eapply triple_bind; [apply t_call|]. intros [e|i]; [by apply triple_ret|].
    eapply triple_bind; [apply t_world|]. intros k. case_match; [by apply triple_ret|].
    eapply triple_bind; [apply t_call|]. intros ?. by apply triple_ret.
  - case_match; [|by apply triple_ret].
    eapply triple_bind; [apply t_get|]. intros [e|t]; [apply triple_ret; naive_solver|].
    apply triple_pure. intros _. case_match; [by apply triple_ret|].
    eapply triple_bind; [apply t_call|]. intros info.
    case_match; [by apply triple_ret|]. case_match; [by apply triple_ret|apply IH].
Qed.

Lemma t_resolve v isp : triple (at_ v) (resolveWAN isp) (λ _, at_ v).
Proof. eapply triple_bind; [apply t_resolve_fuel|]. intros r. by apply triple_ret. Qed.

(** Reaching [storage_effect]: no change, or a write whose [Save] error counts
    or does not. *)
Definition effect (a : Action) (v : view) (r : error) (o : Orch S W) : Prop :=
  ∃ v', at_ v' o ∧ storage_effect a r v v'.

(** The actions that may leave the store as it is and still succeed. *)
Definition lenient (ty : ActionType) : bool :=
  match ty with
  | ActionPersistRunning | ActionPersistStopped | ActionDeleteKernel | ActionDeleteNativeWG => false
  | _ => true
  end.

Lemma effect_err a v e : storage_effect a (Some e) v v.
Proof. unfold storage_effect. destruct (a_Type a); auto; by apply rtc_refl. Qed.

Lemma effect_same a v r : lenient (a_Type a) = true → storage_effect a r v v.
Proof. unfold storage_effect. destruct (a_Type a); try done; auto; intros; by apply rtc_refl. Qed.

Lemma effect_write a v v' :
  write (a_Type a) (a_Tunnel a) v v' → storage_effect a None v v'.
Proof.
  intros Hw. unfold storage_effect.
  destruct (a_Type a) eqn:E; auto; [by apply rtc_once; eauto| |];
    destruct Hw as (? & ? & _ & (? & ? & ? & ? & _ & []) & _).
Qed.

Lemma t_same a v r : lenient (a_Type a) = true → triple (at_ v) (mret r) (effect a v).
Proof. intros. apply triple_ret. intros o Ho. exists v. split; [done|]. by apply effect_same. Qed.

Lemma t_err a v e : triple (at_ v) (mret (Some e)) (effect a v).
Proof. apply triple_ret. intros o Ho. exists v. split; [done|]. apply effect_err. Qed.

Lemma t_check_call a v (op : Op W error) k :
  triple (at_ v) k (effect a v) → triple (at_ v) (check (λ e, e) (call op) k) (effect a v).
Proof.
  intros Hk. eapply triple_check; [apply t_call| |exact Hk].
  intros e o Ho. exists v. split; [done|apply effect_err].
Qed.

Lemma t_check a v wrap m k :
  triple (at_ v) m (λ _, at_ v) → triple (at_ v) k (effect a v) →
  triple (at_ v) (check wrap m k) (effect a v).
Proof.
  intros Hm Hk. eapply triple_check; [apply Hm| |exact Hk].
  intros e o Ho. exists v. split; [done|apply effect_err].
Qed.

Lemma t_try {A} a v wrap (m : M (string + A)) k :
  triple (at_ v) m (λ _, at_ v) → (∀ x, triple (at_ v) (k x) (effect a v)) →
  triple (at_ v) (try_with wrap m k) (effect a v).
Proof.
  intros Hm Hk. eapply triple_try; [apply Hm| |exact Hk].
  intros e o Ho. exists v. split; [done|apply effect_err].
Qed.

Lemma t_stored a v id k :
  (∀ t, v !! id = Some t → triple (at_ v) (k t) (effect a v)) →
  triple (at_ v) (with_stored id k) (effect a v).
Proof.
  intros Hk. eapply triple_try; [apply t_get| |].
  - intros e o [Ho _]. exists v. split; [done|apply effect_err].
  - intros t. apply triple_pure, Hk.
Qed.

Lemma t_optional a v b op :
  lenient (a_Type a) = true → triple (at_ v) (optional b op) (effect a v).
Proof.
  intros Hl. unfold optional. destruct b; [|by apply t_same].
  eapply triple_weaken; [apply t_call|done|]. intros r o Ho. exists v. split; [done|].
  by apply effect_same.
Qed.

Lemma t_needs_nwg a v k :
  triple (at_ v) k (effect a v) → triple (at_ v) (needs_nwg k) (effect a v).
Proof. intros Hk. unfold needs_nwg. case_match; [done|apply t_err]. Qed.

(** Writing back a record that was read and updated. *)
Lemma t_save_write a v t t' :
  view_wf v → v !! a_Tunnel a = Some t →
  stored_change (a_Type a) t t' →
  triple (at_ v) (on_store (store_Save t'))
    (λ r o, match r with
            | None => effect a v None o
            | Some e => at_ v o
            end).
Proof.
  intros Hv Ht Hc. eapply triple_weaken; [apply t_save|done|].
  intros [e|] o Ho; [done|]. destruct (Hv _ _ Ht) as [Hid Hm].
  eexists. split; [exact Ho|]. apply effect_write. exists t, t'.
  split_and!; [done..|]. destruct Hc as (? & ? & ? & ? & -> & _).
  rewrite migrate_upd by done. simpl. by rewrite Hid.
Qed.

Lemma t_save_ignored a v t t' :
  view_wf v → v !! a_Tunnel a = Some t → lenient (a_Type a) = true →
  stored_change (a_Type a) t t' →
  triple (at_ v) (_ ← ignore_err (on_store (store_Save t')); mret None)
    (effect a v).
Proof.
  intros Hv Ht Hl Hc. apply (triple_bind _ _ (λ _, effect a v None)).
  - eapply triple_bind; [by eapply t_save_write|]. intros [e|]; apply triple_ret; [|done].
    intros o Ho. exists v. split; [done|]. by apply effect_same.
  - intros []. by apply triple_ret.
Qed.

Lemma t_save_checked a v t t' wrap :
  view_wf v → v !! a_Tunnel a = Some t →
  stored_change (a_Type a) t t' →
  triple (at_ v) (check wrap (on_store (store_Save t')) (mret None))
    (effect a v).
Proof.
  intros Hv Ht Hc. eapply triple_check; [by eapply t_save_write| |by apply triple_ret].
  intros e o Ho. exists v. split; [done|apply effect_err].
Qed.

(** [upd] with the four fields named: what the executors write. *)
Lemma t_tracked {B} v (op : string → Op W string) id t (k : AWGTunnel → M B) Q :
  (∀ ip, triple (at_ v) (k (set_ResolvedEndpointIP ip t)) Q) →
  triple (at_ v) (k t) Q →
  triple (at_ v) (t ← tracked_ip op id t; k t) Q.
Proof.
  intros Hip Hno. apply (triple_bind _ _ (λ t' o, at_ v o ∧ (t' = t ∨ ∃ ip, t' = set_ResolvedEndpointIP ip t))).
  - eapply triple_bind; [apply t_call|]. intros ip. apply triple_ret. intros o Ho.
    split; [done|]. case_match; eauto.
  - intros t'. apply triple_pure. intros [->|[ip ->]]; auto.
Qed.

Lemma t_now {B} v (k : string → M B) Q :
  (∀ s, s ≠ "" → triple (at_ v) (k s) Q) → triple (at_ v) (s ← time_Now_RFC3339; k s) Q.
Proof.
  intros Hk. apply (triple_bind _ _ (λ s o, at_ v o ∧ s ≠ "")).
  - apply triple_gets. intros o Ho. split; [done|]. apply format_RFC3339_ne.
  - intros s. apply triple_pure, Hk.
Qed.

(** One executor: read the record, call out, write back. *)
Ltac exec_step Hv :=
  first
    [ apply t_needs_nwg
    | apply t_stored; intros ? ?
    | apply t_check_call
    | apply t_optional; done
    | apply t_try; [apply t_resolve || apply t_call|intros ?]
    | apply t_check; [apply t_call || apply t_conflict|]
    | eapply t_save_ignored; [exact Hv|eassumption|done|]
    | eapply t_save_checked; [exact Hv|eassumption|]
    | apply t_tracked; [intros ?|]
    | apply t_now; intros ? ?
    | apply t_err
    | apply t_same; done
    | eapply triple_bind; [apply t_world || apply t_call || apply t_managed|intros ?]
    | case_match ].

Ltac change_tac :=
  eexists _, _, _, _; split; [reflexivity|]; simpl; to_prop; split_and!; auto.

Lemma coldstart_effect v id :
  view_wf v → triple (at_ v) (executeColdStartKernel id)
    (effect (act ActionColdStartKernel id) v).
Proof. intros Hv. unfold executeColdStartKernel. repeat exec_step Hv; change_tac. Qed.

Lemma reconcile_kernel_effect v id :
  view_wf v → triple (at_ v) (executeReconcileKernel id)
    (effect (act ActionReconcileKernel id) v).
Proof. intros Hv. unfold executeReconcileKernel. repeat exec_step Hv; change_tac. Qed.

Lemma start_nwg_effect v id :
  view_wf v → triple (at_ v) (executeStartNativeWG id)
    (effect (act ActionStartNativeWG id) v).
Proof. intros Hv. unfold executeStartNativeWG. repeat exec_step Hv; change_tac. Qed.

Lemma reconcile_nwg_effect v id :
  view_wf v → triple (at_ v) (executeReconcileNativeWG id)
    (effect (act ActionReconcileNativeWG id) v).
Proof.
  intros Hv. unfold executeReconcileNativeWG, executeStartNativeWG.
  repeat exec_step Hv; change_tac.
Qed.

Lemma stop_kernel_effect v id :
  view_wf v → triple (at_ v) (executeStopKernel id)
    (effect (act ActionStopKernel id) v).
Proof.
  intros Hv. unfold executeStopKernel. exec_step Hv.
  eapply triple_bind; [apply t_get|]. intros [e|t].
  - apply triple_ret. intros o [Ho _]. exists v. split; [done|]. by apply effect_same.
  - apply triple_pure. intros Ht. repeat exec_step Hv; change_tac.
Qed.

Lemma stop_nwg_effect v id :
  view_wf v → triple (at_ v) (executeStopNativeWG id)
    (effect (act ActionStopNativeWG id) v).
Proof. intros Hv. unfold executeStopNativeWG. repeat exec_step Hv; change_tac. Qed.

Lemma restore_kmod_effect v id :
  view_wf v → triple (at_ v) (executeRestoreKmod id)
    (effect (act ActionRestoreKmod id) v).
Proof. intros Hv. unfold executeRestoreKmod. repeat exec_step Hv; first [done|change_tac]. Qed.

Lemma persist_running_effect v id :
  view_wf v → triple (at_ v) (executePersistRunning id)
    (effect (act ActionPersistRunning id) v).
Proof.
  intros Hv. unfold executePersistRunning. repeat exec_step Hv; change_tac.
Qed.

Lemma persist_stopped_effect v id :
  view_wf v → triple (at_ v) (executePersistStopped id)
    (effect (act ActionPersistStopped id) v).
Proof. intros Hv. unfold executePersistStopped. repeat exec_step Hv; change_tac. Qed.

Lemma delete_effect ty v op conf id :
  ty = ActionDeleteKernel ∨ ty = ActionDeleteNativeWG →
  triple (at_ v) (executeDelete op conf id) (effect (act ty id) v).
Proof.
  intros Hty. apply t_stored. intros t Ht. apply t_check_call.
  eapply triple_bind; [apply t_call|]. intros ?.
  eapply triple_check; [apply t_delete| |].
  - intros e o Ho. exists v. split; [done|apply effect_err].
  - eapply triple_bind; [apply t_call|]. intros ?. apply triple_ret. intros o Ho.
    eexists. split; [exact Ho|]. unfold storage_effect. simpl.
    destruct Hty as [-> | ->]; left; rewrite Ht; eauto.
Qed.

(** The clean-up loops of [executeRestoreEndpointTracking]: the listed records
    stay current up to their run-time fields. *)
Definition tracking_step (v v' : view) : Prop :=
  ∃ id, write ActionRestoreEndpointTracking id v v'.

Definition current (ts : list AWGTunnel) (v : view) : Prop :=
  ∀ t, t ∈ ts → ∃ ip wan at_, v !! t_ID t = Some (upd t (t_Enabled t) ip wan at_).

Definition tracking_inv (ts : list AWGTunnel) (v0 : view) (o : Orch S W) : Prop :=
  ∃ v, at_ v o ∧ view_wf v ∧ current ts v ∧ rtc tracking_step v0 v.

Lemma upd_self t : upd t (t_Enabled t) (t_ResolvedEndpointIP t) (t_ActiveWAN t) (t_StartedAt t) = t.
Proof. by destruct t. Qed.

Lemma current_list ts v :
  view_wf v → (∀ t, t ∈ ts → ∃ id, v !! id = Some t) → current ts v.
Proof.
  intros Hv Hts t Ht. destruct (Hts t Ht) as [id Hid].
  destruct (Hv _ _ Hid) as [<- _]. do 3 eexists. by rewrite upd_self.
Qed.

Lemma current_write ts v t ip wan at_' :
  current ts v → v !! t_ID t = Some t →
  current ts (<[t_ID t := upd t (t_Enabled t) ip wan at_']> v).
Proof.
  intros Hts Ht u Hu. destruct (Hts u Hu) as (ip' & wan' & at'' & Hl).
  rewrite lookup_insert. case_decide as E; [|eauto].
  rewrite E, Hl in Ht. injection Ht as <-. do 3 eexists. reflexivity.
Qed.

Lemma tracking_save ts v0 v t ip wan at_' :
  view_wf v → current ts v → rtc tracking_step v0 v → v !! t_ID t = Some t →
  triple (at_ v) (on_store (store_Save (upd t (t_Enabled t) ip wan at_')))
    (λ _, tracking_inv ts v0).
Proof.
  intros Hv Hc Hr Ht. eapply triple_weaken; [apply t_save|done|].
  intros [e|] o Ho; [by exists v|]. eexists. split; [exact Ho|].
  rewrite migrate_upd by (by apply (Hv _ _ Ht)). simpl.
  assert (write ActionRestoreEndpointTracking (t_ID t) v
    (<[t_ID t := upd t (t_Enabled t) ip wan at_']> v)) as Hw.
  { exists t, (upd t (t_Enabled t) ip wan at_'). split_and!; [done| |done].
    do 4 eexists. done. }
  split_and!; [by eapply write_wf|by apply current_write|].
  eapply rtc_r; [exact Hr|]. by exists (t_ID t).
Qed.
Lemma t_inv {A} ts v0 (m : M A) :
  (∀ v, view_wf v → current ts v → rtc tracking_step v0 v →
    triple (at_ v) m (λ _, tracking_inv ts v0)) →
  triple (tracking_inv ts v0) m (λ _, tracking_inv ts v0).
Proof. intros H o (v & Ho & Hv & Hc & Hr). by apply (H v). Qed.

Lemma t_inv_keep {A} ts v0 v (m : M A) :
  view_wf v → current ts v → rtc tracking_step v0 v →
  triple (at_ v) m (λ _, at_ v) → triple (at_ v) m (λ _, tracking_inv ts v0).
Proof. intros. eapply triple_weaken; [eassumption|done|]. intros ? o Ho. by exists v. Qed.

Lemma t_restore_tracking ts v0 t :
  t ∈ ts → triple (tracking_inv ts v0) (restore_tracking t) (λ _, tracking_inv ts v0).
Proof.
  intros Ht. apply t_inv. intros v Hv Hc Hr. unfold restore_tracking.
  assert (∀ u : unit, triple (at_ v) (mret u) (λ _ : unit, tracking_inv ts v0)) as Hret.
  { intros u. apply t_inv_keep; [done..|]. by apply triple_ret. }
  case_match; [apply Hret|]. case_match; [apply Hret|].
  eapply triple_bind; [apply t_call|]. intros info. case_match; [apply Hret|].
  apply (triple_bind _ _ (λ _, at_ v)).
  { case_match; [|by apply triple_ret]. eapply triple_bind; [apply t_resolve|].
    intros r. by apply triple_ret. }
  intros isp. eapply triple_bind; [apply t_call|]. intros [e|ip]; [apply Hret|].
  case_match; [|apply Hret].
  apply (triple_bind _ _ (λ _, tracking_inv ts v0)); [|intros r; by apply triple_ret].
  destruct (Hc t Ht) as (ip' & wan & at_' & Hl).
  exact (tracking_save ts v0 v (upd t (t_Enabled t) ip' wan at_') ip (t_ActiveWAN t)
    (t_StartedAt t) Hv Hc Hr Hl).
Qed.

Lemma clear_runtime_spec id (o : Orch S W) :
  on_store (λ s, (tt, ClearRuntimeState id s)) o =
  (r ← on_store (store_Get id);
   match r with
   | inl _ => mret tt
   | inr t =>
       if negb (String.eqb (t_ActiveWAN t) "") || negb (String.eqb (t_StartedAt t) "")
       then _ ← on_store (store_Save (clear_runtime t)); mret tt else mret tt
   end) o.
Proof.
  unfold on_store, ClearRuntimeState, clear_runtime, mbind, ST_bind.
  destruct (store_Get id (o_store o)) as [[e|t] s]; [done|]. simpl.
  case_match; simpl; [|done]. by destruct (store_Save _ s).
Qed.

Lemma t_clear_stale ts v0 t :
  t ∈ ts → triple (tracking_inv ts v0) (clear_stale t) (λ _, tracking_inv ts v0).
Proof.
  intros Ht. apply t_inv. intros v Hv Hc Hr. unfold clear_stale.
  assert (∀ u : unit, triple (at_ v) (mret u) (λ _ : unit, tracking_inv ts v0)) as Hret.
  { intros u. apply t_inv_keep; [done..|]. by apply triple_ret. }
  case_match; [apply Hret|]. case_match; [apply Hret|].
  eapply triple_bind; [apply t_call|]. intros info. case_match; [|apply Hret].
  eapply triple_ext; [apply clear_runtime_spec|].
  eapply triple_bind; [apply t_get|]. intros [e|t'].
  { apply triple_pure. intros _. apply Hret. }
  apply triple_pure. intros Hl. case_match; [|apply Hret].
  apply (triple_bind _ _ (λ _, tracking_inv ts v0)); [|intros r; by apply triple_ret].
  rewrite <- (proj1 (Hv _ _ Hl)) in Hl.
  exact (tracking_save ts v0 v t' (t_ResolvedEndpointIP t') "" "" Hv Hc Hr Hl).
Qed.

Lemma t_for_each {A} P (f : A → M unit) l :
  (∀ x, x ∈ l → triple P (f x) (λ _, P)) → triple P (for_each f l) (λ _, P).
Proof.
  induction l as [|x l IH]; intros Hf; simpl; [by apply triple_ret|].
  eapply triple_bind; [apply Hf; set_solver|]. intros ?. apply IH. set_solver.
Qed.

Lemma restore_tracking_effect v :
  view_wf v → triple (at_ v) executeRestoreEndpointTracking
    (effect (act ActionRestoreEndpointTracking "") v).
Proof.
  intros Hv. eapply triple_try; [apply t_list| |].
  { intros e o [Ho _]. exists v. split; [done|apply effect_err]. }
  intros ts. apply triple_pure. intros Hts.
  apply (triple_weaken _ (tracking_inv ts v) _ _ (λ _, tracking_inv ts v)).
  - eapply triple_bind; [apply t_for_each; intros t Ht; by apply t_restore_tracking|].
    intros ?. eapply triple_bind; [apply t_for_each; intros t Ht; by apply t_clear_stale|].
    intros ?. by apply triple_ret.
  - intros o Ho. exists v. split_and!; [done..| |apply rtc_refl]. by apply current_list.
  - intros r o (v' & Ho & _ & _ & Hr). by exists v'.
Qed.
(** Reads and downstream calls. *)
Lemma t_read_then a v (k : string + AWGTunnel → M error) :
  (∀ r, triple (at_ v) (k r) (effect a v)) →
  triple (at_ v) (r ← on_store (store_Get (a_Tunnel a)); k r) (effect a v).
Proof.
  intros Hk. eapply triple_bind; [apply t_get|]. intros r. by apply triple_pure.
Qed.

Lemma t_call_same a v (op : Op W error) :
  lenient (a_Type a) = true → triple (at_ v) (call op) (effect a v).
Proof. apply (t_optional a v true op). Qed.

Lemma executeOne_effect a v :
  view_wf v → triple (at_ v) (executeOne a) (effect a v).
Proof.
  intros Hv. destruct a as [ty id iface].
  assert (∀ m, triple (at_ v) m (effect (act ty id) v) →
    triple (at_ v) m (effect {| a_Type := ty; a_Tunnel := id; a_Iface := iface |} v)) as Hact
    by (intros m Hm; exact Hm).
  unfold executeOne. simpl. destruct ty; simpl; try (by apply t_optional);
    try (by apply t_same); apply Hact.
  - by apply coldstart_effect.
  - by apply start_nwg_effect.
  - by apply stop_kernel_effect.
  - by apply stop_nwg_effect.
  - unfold executeSuspendProxy. repeat exec_step Hv. by apply t_call_same.
  - by apply restore_kmod_effect.
  - by apply restore_tracking_effect.
  - by apply reconcile_kernel_effect.
  - unfold executeSuspendKernel. repeat exec_step Hv.
  - unfold executeResumeKernel. repeat exec_step Hv.
  - by apply reconcile_nwg_effect.
  - unfold executeStartMonitoring. case_match; [by apply t_same|].
    apply t_read_then. intros [e|t]; [by apply t_same|]. repeat exec_step Hv.
  - repeat exec_step Hv.
  - unfold executeConfigurePingCheck. case_match; [by apply t_same|].
    apply t_read_then. intros [e|t]; [by apply t_same|].
    repeat case_match; [by apply t_call_same|by apply t_same..].
  - unfold executeRemovePingCheck. case_match; [by apply t_same|].
    apply t_read_then. intros [e|t]; [by apply t_same|by apply t_call_same].
  - by apply persist_running_effect.
  - by apply persist_stopped_effect.
  - by apply delete_effect; left.
  - apply t_needs_nwg. by apply delete_effect; right.
Qed.
End effects.

(** C29: executing an action does to the stored tunnels exactly what its
    specification allows, whatever the executors answer: it rewrites at most
    the run-time fields of its own tunnel, in the way that suits its kind
    (a start enables it and stamps it, a stop only clears the run-time fields,
    only PersistStopped disables it, only a delete removes it); the persist and
    delete actions succeed only with their write done.  The cache and the
    published events are left alone, and the store stays well formed. *)
Theorem executeOne_refines {S W : Type} `{!StoreOps S} `{!TunnelStore S} `{!Executors W}
    `{GoUnicode} (a : Action) (o : Orch S W) :
  view_wf (store_view (o_store o)) →
  let '(r, o') := executeOne a o in
  storage_effect a r (store_view (o_store o)) (store_view (o_store o')) ∧
  view_wf (store_view (o_store o')) ∧
  o_state o' = o_state o ∧ o_signals o' = o_signals o.
Proof.
  intros Hv. destruct (executeOne_effect (o_state o) (o_signals o) a _ Hv o)
    as (v' & (Hst & Hsg & Hv') & He); [done|].
  destruct (executeOne a o) as [r o']. simpl in *. subst v'.
  split_and!; [done| |done..]. by eapply storage_effect_wf.
Qed.

(** The simulated store is well formed. *)
Lemma sim_view_wf enabled running faults :
  view_wf (store_view (o_store (sim_orch enabled running faults))).
Proof. unfold view_wf. apply (bool_decide_unpack _). by destruct enabled; vm_compute. Qed.

Lemma executeOne_refines_witness :
  let a := act ActionStopNativeWG "awg20" in
  let o := sim_orch true true [] in
  view_wf (store_view (o_store o)) ∧
  let '(r, o') := executeOne (U := plain_unicode) a o in
  storage_effect a r (store_view (o_store o)) (store_view (o_store o')) ∧
  view_wf (store_view (o_store o')) ∧
  o_state o' = o_state o ∧ o_signals o' = o_signals o.
Proof.
  split; [apply sim_view_wf|].
  apply (executeOne_refines (H := plain_unicode) _ (sim_orch true true [])), sim_view_wf.
Defined.
