(* ===== verification/OrchProps.v ===== *)
(** * Correctness of the orchestrator

    The invariant of the cache and the store, lock discipline, error handling
    of a plan, and what start, stop and the other events do to the store. *)
From S2P Require Import Prelude GoLib Names Storage Wan Decide DecideProps Execute Orchestrator Sim ExecuteProps.

(** ** Grouping *)

Lemma span_tunnel_spec tid l :
  let '(g, rest) := span_tunnel tid l in
  l = g ++ rest ∧ Forall (λ a, a_Tunnel a = tid) g ∧
  match rest with a :: _ => a_Tunnel a ≠ tid | [] => True end.
Proof.
  induction l as [|a l IH]; simpl; [auto|].
  destruct (String.eqb _ _) eqn:E; to_prop; [|auto].
  destruct (span_tunnel tid l) as [g rest]. destruct IH as (-> & ? & ?). auto.
Qed.

(** Consecutive groups belong to different tunnels. *)
Fixpoint alternating (groups : list (list Action)) : Prop :=
  match groups with
  | g :: ((h :: _) as rest) => group_tunnel g ≠ group_tunnel h ∧ alternating rest
  | _ => True
  end.

Lemma group_fuel_spec fuel l :
  length l ≤ fuel →
  let gs := group_fuel fuel l in
  concat gs = l ∧
  Forall (λ g, g ≠ [] ∧ Forall (λ a, a_Tunnel a = group_tunnel g) g) gs ∧
  alternating gs ∧ match gs, l with g :: _, a :: _ => group_tunnel g = a_Tunnel a | _, _ => True end.
Proof.
  revert l. induction fuel as [|fuel IH]; intros [|a l] Hlen; simpl in *; [done|lia|done|].
  rewrite String.eqb_refl. pose proof (span_tunnel_spec (a_Tunnel a) l) as Hs.
  destruct (span_tunnel (a_Tunnel a) l) as [g rest]. destruct Hs as (-> & Hg & Hrest).
  rewrite length_app in Hlen.
  destruct (IH rest) as (Hc & Hf & Ha & Hh); [lia|]. simpl. rewrite Hc.
  split; [done|]. split; [constructor; [split; [done|by constructor]|done]|].
  split; [|done]. destruct (group_fuel fuel rest) as [|h hs] eqn:Eg; [done|].
  split; [|done]. destruct rest as [|b rest]; [by destruct fuel|]. simpl. congruence.
Qed.

Lemma groupContiguousByTunnel_wf l :
  Forall (λ g, g ≠ [] ∧ Forall (λ a, a_Tunnel a = group_tunnel g) g) (groupContiguousByTunnel l).
Proof. by destruct (group_fuel_spec (length l) l) as (_ & ? & _). Qed.

Lemma groupContiguousByTunnel_concat l : concat (groupContiguousByTunnel l) = l.
Proof. by destruct (group_fuel_spec (length l) l) as (? & _). Qed.

(** groupContiguousByTunnel cuts an action list, in order and without
    loss, into non-empty groups that each concern a single tunnel, and it never
    splits a run: two consecutive groups concern different tunnels. *)
Theorem groupContiguousByTunnel_spec (l : list Action) :
  concat (groupContiguousByTunnel l) = l ∧
  Forall (λ g, g ≠ [] ∧ Forall (λ a, a_Tunnel a = group_tunnel g) g) (groupContiguousByTunnel l) ∧
  alternating (groupContiguousByTunnel l).
Proof.
  destruct (group_fuel_spec (length l) l) as (? & ? & ? & _); auto.
Qed.

(** ** Updating the cache *)

(** Published events: neither a lock nor an executed action. *)
Definition published (x : signal) : bool :=
  match x with SLock _ | SUnlock _ | SDo _ _ => false | _ => true end.

(** What [updateState] does to the cached tunnel of the action. *)
Definition running_after (ty : ActionType) (was : bool) : bool :=
  if started_action ty then true else if stopped_action ty then false else was.

Definition cache_effect (a : Action) (st st' : State) : Prop :=
  anyWANUpFn st' = anyWANUpFn st ∧ supportsASC st' = supportsASC st ∧
  (∀ k, k ≠ a_Tunnel a → tunnels st' !! k = tunnels st !! k) ∧
  match tunnels st !! a_Tunnel a with
  | None => tunnels st' !! a_Tunnel a = None
  | Some t =>
      if deleted_action (a_Type a) then tunnels st' !! a_Tunnel a = None
      else ∃ t', tunnels st' !! a_Tunnel a = Some t' ∧ ts_ID t' = ts_ID t ∧
        ts_Backend t' = ts_Backend t ∧ ts_Enabled t' = ts_Enabled t ∧
        ts_Running t' = running_after (a_Type a) (ts_Running t)
  end.

Lemma cache_effect_wf a st st' : wf st → cache_effect a st st' → wf st'.
Proof.
  intros Hst (_ & _ & Hk & Hid) k t Ht.
  destruct (base.decide (k = a_Tunnel a)) as [->|Hne]; [|rewrite Hk in Ht by done; by apply Hst].
  destruct (tunnels st !! a_Tunnel a) as [t0|] eqn:E; [|congruence].
  destruct (deleted_action _); [congruence|].
  destruct Hid as (t' & Ht' & Hid & _). rewrite Ht' in Ht. simplify_eq.
  rewrite Hid. by apply Hst.
Qed.

Lemma cache_effect_alter f a st t :
  tunnels st !! a_Tunnel a = Some t → deleted_action (a_Type a) = false →
  ts_ID (f t) = ts_ID t → ts_Backend (f t) = ts_Backend t → ts_Enabled (f t) = ts_Enabled t →
  ts_Running (f t) = running_after (a_Type a) (ts_Running t) →
  cache_effect a st (alter_tunnel f (a_Tunnel a) st).
Proof.
  intros Ht Hd ? ? ? ?. split_and!; [done..| |].
  - intros k Hk. simpl. by rewrite lookup_alter_ne.
  - rewrite Ht, Hd. exists (f t). split_and!; try done. simpl. by rewrite lookup_alter_eq, Ht.
Qed.

Section updates.
Context {S W : Type} `{!StoreOps S} `{!TunnelStore S} `{!Executors W} `{U : GoUnicode}.
Notation M := (ST (Orch S W)).
Notation error := (option string).

(** The cache and the stored tunnels are as given, only events were published. *)
Definition at_pub (st : State) (sg : list signal) (v : view) (o : Orch S W) : Prop :=
  o_state o = st ∧ store_view (o_store o) = v ∧
  ∃ ext, o_signals o = sg ++ ext ∧ Forall published ext.

Lemma p_call {A} st sg v (op : Op W A) : triple (at_pub st sg v) (call op) (λ _, at_pub st sg v).
Proof. intros o (? & ? & ?). unfold call. destruct (op _) as [[a h] w]. done. Qed.

Lemma p_emit st sg v x : published x →
  triple (at_pub st sg v) (emit x) (λ _, at_pub st sg v).
Proof.
  intros Hx o (? & ? & ext & Hs & Hp). split_and!; [done..|]. exists (ext ++ [x]).
  split; [simpl; by rewrite Hs, (assoc_L (++))|]. apply Forall_app. auto.
Qed.

Lemma p_set st sg v f : triple (at_pub st sg v) (with_state f) (λ _, at_pub (f st) sg v).
Proof. intros o (<- & ? & ?). done. Qed.

Lemma p_update_cache sg v st a t :
  tunnels st !! a_Tunnel a = Some t →
  triple (at_pub st sg v) (update_cache a t)
    (λ _ o, ∃ st', at_pub st' sg v o ∧ cache_effect a st st').
Proof.
  intros Ht. unfold update_cache.
  assert (∀ f, cache_effect a st (f st) → triple (at_pub st sg v) (with_state f)
    (λ _ o, ∃ st', at_pub st' sg v o ∧ cache_effect a st st')) as Hset.
  { intros f Hf. eapply triple_weaken; [apply p_set|done|]. intros ? o Ho. by exists (f st). }
  assert (∀ f, deleted_action (a_Type a) = false → ts_ID (f t) = ts_ID t →
    ts_Backend (f t) = ts_Backend t → ts_Enabled (f t) = ts_Enabled t →
    ts_Running (f t) = running_after (a_Type a) (ts_Running t) →
    triple (at_pub st sg v) (with_state (alter_tunnel f (a_Tunnel a)))
      (λ _ o, ∃ st', at_pub st' sg v o ∧ cache_effect a st st')) as Halt.
  { intros f ? ? ? ? ?. apply Hset. by eapply cache_effect_alter. }
  destruct (started_action (a_Type a)) eqn:Es.
  { eapply (triple_bind _ _ (λ _, at_pub st sg v)); [by intros ? ?|]. intros at_.
    apply (triple_bind _ _ (λ _, at_pub st sg v)).
    - intros o (? & Hv & ?). unfold on_store. pose proof (store_Get_view (a_Tunnel a) (o_store o)).
      destruct (store_Get _ _). simpl in *. split_and!; [done|simpl; congruence|done].
    - intros r. apply Halt; try done; [|unfold running_after; by rewrite Es].
      by destruct (a_Type a). }
  destruct (stopped_action (a_Type a)) eqn:Et.
  { apply Halt; try done; [|unfold running_after; by rewrite Es, Et]. by destruct (a_Type a). }
  assert (cache_effect a st (set_tunnels (delete (a_Tunnel a) (tunnels st)) st) ∨
          deleted_action (a_Type a) = false) as Hdel.
  { destruct (deleted_action (a_Type a)) eqn:Ed; [left|by right]. split_and!; [done..| |].
    - intros k Hk. simpl. by rewrite lookup_delete_ne.
    - rewrite Ht, Ed. simpl. apply lookup_delete_eq. }
  assert (deleted_action (a_Type a) = false → cache_effect a st st) as Hsame.
  { intros Hd. split_and!; [done..|]. rewrite Ht, Hd. exists t.
    unfold running_after. by rewrite Es, Et. }
  destruct (a_Type a) eqn:Ety; try discriminate;
    try (apply triple_ret; intros o Ho; exists st; split; [done|by apply Hsame]);
    try (apply Halt; unfold running_after; by rewrite ?Ety);
    apply Hset; by destruct Hdel.
Qed.
Lemma p_publish sg v st a t :
  triple (at_pub st sg v) (publish_update a t) (λ _, at_pub st sg v).
Proof.
  unfold publish_update.
  repeat first
    [ apply p_call | apply p_emit; done | apply triple_ret; done
    | eapply triple_bind; [by apply p_emit|intros ?]
    | eapply triple_bind; [|intros ?; case_match; [apply p_call|by apply triple_ret]]
    | case_match ].
Qed.

Lemma p_update sg v st a :
  triple (at_pub st sg v) (updateState a)
    (λ _ o, ∃ st', at_pub st' sg v o ∧ cache_effect a st st').
Proof.
  unfold updateState.
  apply (triple_bind _ _ (λ st0 o, at_pub st sg v o ∧ st0 = st)).
  { apply triple_gets. intros o Ho. split; [done|]. apply Ho. }
  intros st0. apply triple_pure. intros ->.
  destruct (tunnels st !! a_Tunnel a) as [t|] eqn:Ht.
  - eapply triple_bind; [by apply p_update_cache|]. intros ?.
    apply triple_exists. intros st'. apply triple_pure. intros Hc.
    eapply triple_weaken; [apply p_publish|done|]. intros ? o Ho. by exists st'.
  - apply triple_ret. intros o Ho. exists st. split; [done|]. split_and!; [done..|]. by rewrite Ht.
Qed.

(** One action of a plan: storage, cache and events. *)
Lemma run_action_spec a (o : Orch S W) :
  view_wf (store_view (o_store o)) →
  let '(r, o') := run_action a o in
  storage_effect a r (store_view (o_store o)) (store_view (o_store o')) ∧
  view_wf (store_view (o_store o')) ∧
  match r with
  | None => cache_effect a (o_state o) (o_state o')
  | Some _ => o_state o' = o_state o
  end ∧
  ∃ ext, o_signals o' = o_signals o ++ SDo a r :: ext ∧ Forall published ext.
Proof.
  intros Hv. set (v := store_view (o_store o)).
  assert (triple (at_view (o_state o) (o_signals o) v) (run_action a) (λ r o',
    ∃ v', storage_effect a r v v' ∧ ∃ st', at_pub st' (o_signals o ++ [SDo a r]) v' o' ∧
      match r with None => cache_effect a (o_state o) st' | Some _ => st' = o_state o end)) as H.
  { eapply triple_bind; [by apply executeOne_effect|]. intros r.
    apply triple_exists. intros v'. apply triple_pure. intros He.
    apply (triple_bind _ _ (λ _, at_pub (o_state o) (o_signals o ++ [SDo a r]) v')).
    { intros o1 (? & Hsg & ?). split_and!; [done..|]. exists [].
      split; [|done]. simpl. by rewrite Hsg, app_nil_r. }
    intros ?. apply (triple_bind _ _ (λ _ o', ∃ st',
      at_pub st' (o_signals o ++ [SDo a r]) v' o' ∧
      match r with None => cache_effect a (o_state o) st' | Some _ => st' = o_state o end)).
    - destruct r; [|apply p_update]. apply triple_ret. eauto.
    - intros ?. apply triple_ret. eauto. }
  destruct (H o) as (v' & He & st' & (Hst & Hv' & ext & Hsg & Hp) & Hc); [done|].
  destruct (run_action a o) as [r o']. simpl in *. rewrite Hv'.
  split_and!; [done|by eapply storage_effect_wf| |exists ext].
  - destruct r; congruence.
  - split; [|done]. by rewrite Hsg, <- (assoc_L (++)).
Qed.
End updates.

(** ** Running a plan *)

Fixpoint first_err (rs : list (option string)) : option string :=
  match rs with
  | [] => None
  | r :: rs => or_first r (first_err rs)
  end.

Lemma first_err_None rs : first_err rs = None ↔ Forall (λ r, r = None) rs.
Proof.
  induction rs as [|[e|] rs IH]; simpl; [by split| |].
  - split; [done|]. intros H. by inversion H.
  - rewrite IH. split; [by constructor|]. by inversion 1.
Qed.

Lemma or_first_assoc a b c : or_first (or_first a b) c = or_first a (or_first b c).
Proof. by destruct a. Qed.

Section runs.
Context {S W : Type} `{!StoreOps S} `{!TunnelStore S} `{!Executors W} `{U : GoUnicode}.
Notation M := (ST (Orch S W)).

(** The actions of the list were executed, in order, with these results. *)
Inductive runs : list Action → list (option string) → Orch S W → Orch S W → Prop :=
  | runs_nil o : runs [] [] o o
  | runs_cons a l r rs o o1 o2 :
      run_action a o = (r, o1) → runs l rs o1 o2 → runs (a :: l) (r :: rs) o o2.

Lemma executeActions_runs e0 l (o : Orch S W) :
  let '(e, o') := executeActions_from e0 l o in
  ∃ l1 l2 rs, l = l1 ++ l2 ∧ runs l1 rs o o' ∧
    match l2 with
    | [] => e = or_first e0 (first_err rs)
    | _ :: _ => ∃ c, ctx_Err (o_world o') = Some c ∧
                e = or_first e0 (or_first (first_err rs) (Some c))
    end.
Proof.
  revert e0 o. induction l as [|a l IH]; intros e0 o; simpl.
  { exists [], [], []. split_and!; [done|constructor|by destruct e0]. }
  unfold mbind at 1, ST_bind. simpl.
  destruct (ctx_Err (o_world o)) as [c|] eqn:Ec; simpl.
  { exists [], (a :: l), []. split_and!; [done|constructor|]. exists c. by rewrite Ec. }
  unfold mbind at 1, ST_bind.
  destruct (run_action a o) as [r o1] eqn:Er. specialize (IH (or_first e0 r) o1).
  destruct (executeActions_from _ l o1) as [e o'].
  destruct IH as (l1 & l2 & rs & -> & Hr & He).
  exists (a :: l1), l2, (r :: rs). split_and!; [done|by econstructor|]. simpl.
  destruct l2; [|destruct He as (c & Hc & ->); exists c; split; [done|]];
    by rewrite ?He, or_first_assoc, ?or_first_assoc.
Qed.

Lemma runs_wf l rs o o' :
  runs l rs o o' → view_wf (store_view (o_store o)) → view_wf (store_view (o_store o')).
Proof.
  induction 1 as [|a l r rs o o1 o2 Hr _ IH]; [done|]. intros Hv. apply IH.
  pose proof (run_action_spec a o Hv) as H. rewrite Hr in H. tauto.
Qed.

Lemma runs_app l1 l2 rs o o' :
  runs (l1 ++ l2) rs o o' →
  ∃ rs1 rs2 om, rs = rs1 ++ rs2 ∧ runs l1 rs1 o om ∧ runs l2 rs2 om o'.
Proof.
  revert rs o. induction l1 as [|a l1 IH]; intros rs o; simpl.
  - intros H. exists [], rs, o. split_and!; [done|constructor|done].
  - inversion 1 as [|? ? r rs' ? o1 ? Hr Hrs]; subst.
    destruct (IH _ _ Hrs) as (rs1 & rs2 & om & -> & H1 & H2).
    exists (r :: rs1), rs2, om. split_and!; [done|by econstructor|done].
Qed.

(** The executed actions, read off the signals. *)
Definition executed (sg : list signal) : list (Action * option string) :=
  omap (λ x, match x with SDo a r => Some (a, r) | _ => None end) sg.

Lemma executed_published ext : Forall published ext → executed ext = [].
Proof. induction 1 as [|x ext Hx _ IH]; [done|]. by destruct x. Qed.

Lemma runs_executed l rs o o' :
  view_wf (store_view (o_store o)) → runs l rs o o' →
  ∃ ext, o_signals o' = o_signals o ++ ext ∧ executed ext = zip l rs.
Proof.
  intros Hv. induction 1 as [|a l r rs o o1 o2 Hr Hrs IH].
  { exists []. by rewrite app_nil_r. }
  pose proof (run_action_spec a o Hv) as H. rewrite Hr in H.
  destruct H as (_ & Hv1 & _ & ext & Hsg & Hp).
  destruct (IH Hv1) as (ext' & Hsg' & He). exists (SDo a r :: ext ++ ext'). split.
  - rewrite Hsg', Hsg, <- (assoc_L (++)). done.
  - unfold executed in *. simpl. rewrite omap_app, He.
    fold (executed ext). by rewrite executed_published.
Qed.
End runs.

(** A plan is executed best-effort, in order: every action up to a
    cancellation of the context is executed exactly once, a failed action stops
    nothing, and the result is the first error, the cancellation coming last. *)
Theorem executeActions_best_effort {S W : Type} `{!StoreOps S} `{!TunnelStore S}
    `{!Executors W} `{GoUnicode} (l : list Action) (o : Orch S W) :
  view_wf (store_view (o_store o)) →
  let '(e, o') := executeActions l o in
  ∃ l1 l2 rs ext,
    l = l1 ++ l2 ∧ length rs = length l1 ∧
    o_signals o' = o_signals o ++ ext ∧ executed ext = zip l1 rs ∧
    match l2 with
    | [] => e = first_err rs
    | _ :: _ => ∃ c, ctx_Err (o_world o') = Some c ∧ e = or_first (first_err rs) (Some c)
    end.
Proof.
  intros Hv. unfold executeActions. pose proof (executeActions_runs None l o) as H'.
  destruct (executeActions_from None l o) as [e o'].
  destruct H' as (l1 & l2 & rs & -> & Hr & He).
  destruct (runs_executed _ _ _ _ Hv Hr) as (ext & Hsg & Hex).
  exists l1, l2, rs, ext. split_and!; [done| |done..].
  clear -Hr. induction Hr; simpl; congruence.
Qed.

Lemma executeActions_best_effort_witness :
  let l := [act ActionStopKernel "awg10"; act ActionRemoveStaticRoutes "awg10";
            act ActionPersistStopped "awg10"] in
  view_wf (store_view (o_store (sim_orch true true [true]))) ∧
  let '(e, o') := executeActions (U := plain_unicode) l (sim_orch true true [true]) in
  ∃ l1 l2 rs ext,
    l = l1 ++ l2 ∧ length rs = length l1 ∧
    o_signals o' = [] ++ ext ∧ executed ext = zip l1 rs ∧
    match l2 with
    | [] => e = first_err rs
    | _ :: _ => ∃ c, ctx_Err (o_world o') = Some c ∧ e = or_first (first_err rs) (Some c)
    end.
Proof.
  split; [apply sim_view_wf|].
  apply (executeActions_best_effort (H := plain_unicode) _ (sim_orch true true [true])), sim_view_wf.
Defined.
