(* ===== verification/HandleProps.v ===== *)
(** * Handling an event

    The invariants of [HandleEvent] (well-formed cache and store, lock
    discipline), what an event may do to the user's intent in the store, and
    the effect of start and stop. *)
From S2P Require Import Prelude GoLib Names Storage Wan Decide DecideProps Execute Orchestrator Sim ExecuteProps OrchProps.

(** ** Lock discipline *)

(** The lock held after a signal, [None] if the signal breaks the discipline:
    at most one lock at a time, and an action on a tunnel only under its lock. *)
Definition lock_step (held : option string) (x : signal) : option (option string) :=
  match x with
  | SLock id => match held with None => Some (Some id) | Some _ => None end
  | SUnlock id => if bool_decide (held = Some id) then Some None else None
  | SDo a _ =>
      if String.eqb (a_Tunnel a) "" || bool_decide (held = Some (a_Tunnel a))
      then Some held else None
  | _ => Some held
  end.

Fixpoint lock_run (held : option string) (l : list signal) : option (option string) :=
  match l with
  | [] => Some held
  | x :: l => h ← lock_step held x; lock_run h l
  end.

Lemma lock_run_app h l1 l2 : lock_run h (l1 ++ l2) = lock_run h l1 ≫= λ h', lock_run h' l2.
Proof. revert h. induction l1 as [|x l1 IH]; intros h; simpl; [done|]. destruct (lock_step h x); simpl; [apply IH|done]. Qed.

Lemma lock_run_published h l : Forall published l → lock_run h l = Some h.
Proof. induction 1 as [|x l Hx _ IH]; [done|]. by destruct x. Qed.

(** An event that names a tunnel concerns that tunnel only. *)
Definition single_event (ty : EventType) : bool :=
  match ty with
  | EventStart | EventStop | EventRestart | EventDelete | EventPingCheckFailed => true
  | _ => false
  end.
Definition event_ok (ev : Event) : Prop := ev_Tunnel ev = "" ∨ single_event (ev_Type ev) = true.

Section safety.
Context {S W : Type} `{!StoreOps S} `{!TunnelStore S} `{!Executors W} `{U : GoUnicode}.
Notation M := (ST (Orch S W)).
Notation error := (option string).
Context (others : Orch S W → Orch S W).

(** The invariant of the cache and the store. *)
Definition orch_ok (o : Orch S W) : Prop :=
  wf (o_state o) ∧ view_wf (store_view (o_store o)).

(** How the stored tunnels may evolve: a preorder that the other goroutines and
    the allowed actions respect. *)
Context (R : relation view) `{!PreOrder R} (allowed : Action → Prop).
Context (others_ok : ∀ o, orch_ok o →
  orch_ok (others o) ∧ R (store_view (o_store o)) (store_view (o_store (others o)))).
Context (allowed_R : ∀ a r v v', allowed a → view_wf v → storage_effect a r v v' → R v v').

(** The invariant, the evolution since [v0], and the locks taken since [sg] in
    order, [h] being held. *)
Definition safe (v0 : view) (sg : list signal) (h : option string) (o : Orch S W) : Prop :=
  orch_ok o ∧ R v0 (store_view (o_store o)) ∧
  ∃ ext, o_signals o = sg ++ ext ∧ lock_run None ext = Some h.

Context (v0 : view) (sg : list signal).
Notation G := (safe v0 sg).

Lemma s_call {A} h (op : Op W A) : triple (G h) (call op) (λ _, G h).
Proof. intros o Ho. unfold call. destruct (op _) as [[a l] w]. exact Ho. Qed.

Lemma s_world {A} h (f : W → A) : triple (G h) (read_world f) (λ _, G h).
Proof. by intros o Ho. Qed.

Lemma s_yield h : triple (G h) (yield_others others) (λ _, G h).
Proof.
  intros o (Ho & Hr & Hs). destruct (others_ok o Ho) as [Ho' Hr'].
  split_and!; [exact Ho'|by etrans|exact Hs].
Qed.

Lemma s_emit h h' x : lock_step h x = Some h' → triple (G h) (emit x) (λ _, G h').
Proof.
  intros Hx o (Ho & Hr & ext & Hs & Hl). split_and!; [exact Ho|exact Hr|].
  exists (ext ++ [x]). simpl.
  by rewrite Hs, (assoc_L (++)), lock_run_app, Hl; simpl; rewrite Hx.
Qed.

Lemma s_state h f : (∀ st, wf st → wf (f st)) → triple (G h) (with_state f) (λ _, G h).
Proof.
  intros Hf o ((Hst & Hv) & Hr & Hs). split_and!; [|exact Hr|exact Hs].
  split; [by apply Hf|done].
Qed.

Lemma s_get h id :
  triple (G h) (on_store (store_Get id))
    (λ r o, G h o ∧ match r with inr t => t_ID t = id | inl _ => True end).
Proof.
  intros o ((Hst & Hv) & Hr & Hs). unfold on_store.
  pose proof (store_Get_view id (o_store o)) as Hg.
  pose proof (store_Get_sound id (o_store o)) as Hs'.
  destruct (store_Get id (o_store o)) as [r s]. simpl in *. split.
  - split_and!; [split; [done|simpl; by rewrite Hg]|simpl; by rewrite Hg|done].
  - destruct r; [done|]. by apply (Hv _ _ (Hs' _ eq_refl)).
Qed.

Definition covers (h : option string) (a : Action) : Prop :=
  (a_Tunnel a = "" ∨ h = Some (a_Tunnel a)) ∧ allowed a.

Lemma s_run_action h a : covers h a → triple (G h) (run_action a) (λ _, G h).
Proof.
  intros [Hc Ha] o ((Hst & Hv) & HR & ext & Hs & Hl).
  pose proof (run_action_spec a o Hv) as H. destruct (run_action a o) as [r o'].
  destruct H as (He & Hv' & Hcache & ext' & Hs' & Hp). simpl. split_and!.
  - split; [|done]. destruct r; [by rewrite Hcache|]. by eapply cache_effect_wf.
  - etrans; [exact HR|]. by eapply allowed_R.
  - exists (ext ++ SDo a r :: ext'). rewrite Hs', Hs, (assoc_L (++)). split; [done|].
    rewrite lock_run_app, Hl. simpl.
    rewrite (proj2 (orb_true_iff _ _)); [simpl; by apply lock_run_published|].
    destruct Hc as [-> | ->]; [by left|right]. by apply bool_decide_eq_true.
Qed.

Lemma s_executeActions h e l :
  Forall (covers h) l → triple (G h) (executeActions_from e l) (λ _, G h).
Proof.
  intros Hl. revert e. induction Hl as [|a l Ha _ IH]; intros e; simpl; [by apply triple_ret|].
  eapply triple_bind; [apply s_world|]. intros [c|]; [by apply triple_ret|].
  eapply triple_bind; [by apply s_run_action|]. intros r. apply IH.
Qed.

Lemma s_under_lock id (m : M error) :
  triple (G (Some id)) m (λ _, G (Some id)) →
  triple (G None) (under_lock others id m) (λ _, G None).
Proof.
  intros Hm. eapply (triple_check _ _ _ _ (λ r, G (match r with None => Some id | _ => None end))).
  - eapply triple_bind; [apply s_call|]. intros ok. eapply triple_bind; [apply s_yield|].
    intros ?. destruct ok; [|by apply triple_ret].
    eapply triple_bind; [by apply s_emit|]. intros ?. by apply triple_ret.
  - by intros e o Ho.
  - eapply triple_bind; [exact Hm|]. intros r.
    apply (triple_bind _ _ (λ _, G None)); [|intros ?; by apply triple_ret].
    eapply triple_bind; [apply s_call|]. intros ?. apply s_emit. simpl.
    by rewrite bool_decide_eq_true_2.
Qed.

Lemma s_groups e gs :
  Forall (λ g, g ≠ [] ∧ Forall (λ a, a_Tunnel a = group_tunnel g) g) gs →
  Forall (Forall allowed) gs →
  triple (G None) (execute_groups others e gs) (λ _, G None).
Proof.
  intros Hgs Hal. revert e.
  induction Hgs as [|g gs [_ Hg] _ IH]; intros e; simpl; [by apply triple_ret|].
  apply Forall_cons in Hal as [Hga Hal].
  eapply triple_bind; [|intros r; by apply IH]. unfold executeGroup.
  pose proof (conj Hg Hga) as Hboth%Forall_and.
  destruct (String.eqb _ _) eqn:E; to_prop.
  - apply s_executeActions. eapply Forall_impl; [exact Hboth|].
    intros a [Ha Hal']. split; [left; congruence|done].
  - apply s_under_lock, s_executeActions. eapply Forall_impl; [exact Hboth|].
    intros a [Ha Hal']. split; [right; by rewrite Ha|done].
Qed.
Lemma s_find h name : triple (G h) (find_tunnel name) (λ _, G h).
Proof. by intros o Ho. Qed.

Lemma cache_put_wf k t st : wf st → ts_ID t = k → wf (put_tunnel k t st).
Proof.
  intros Hst Ht k' t'. simpl. rewrite lookup_insert. case_decide; [naive_solver|apply Hst].
Qed.

Lemma cache_alter_wf f k st : wf st → (∀ t, ts_ID (f t) = ts_ID t) → wf (alter_tunnel f k st).
Proof.
  intros Hst Hf k' t'. simpl. rewrite lookup_alter. case_decide; [|apply Hst].
  subst. destruct (tunnels st !! k') as [t0|] eqn:E; simpl; [|done].
  intros ?; simplify_eq. rewrite Hf. by apply Hst.
Qed.

Lemma s_gate ev : triple (G None) (conf_gate others ev) (λ _, G None).
Proof.
  unfold conf_gate. case_match; [|by apply triple_ret]. case_match.
  - apply (triple_bind _ _ (λ _, G None)).
    { eapply triple_bind; [apply s_find|]. intros t. eapply triple_bind; [apply s_world|].
      intros at_. destruct t; [|by apply triple_ret]. apply s_state. intros st Hst.
      by apply cache_alter_wf. }
    intros ?. apply (triple_bind _ _ (λ _, G None)); [|intros ?; by apply triple_ret].
    eapply triple_bind; [apply s_find|]. intros [t|]; [|by apply triple_ret].
    case_match; [by apply triple_ret|]. intros o Ho. simpl.
    pose proof (s_under_lock (ts_ID t) (mret None) ltac:(by apply triple_ret) o Ho) as Hl.
    unfold under_lock, check, mbind, ST_bind in *.
    destruct (lockTunnel _ _ _) as [[e|] o1]; [done|]. simpl in Hl.
    destruct (unlockTunnel _ _). exact Hl.
  - case_match; [|by apply triple_ret].
    eapply triple_bind; [apply s_find|]. intros t. eapply triple_bind; [apply s_world|].
    intros at_. destruct t as [t|]; [|by apply triple_ret]. case_match; [by apply triple_ret|].
    eapply triple_bind; [apply s_call|]. intros gone. eapply triple_bind; [apply s_yield|].
    intros ?. case_match; [by apply triple_ret|].
    unfold settle_verdict. apply (triple_bind _ _ (λ _, G None)); [by apply triple_gets|].
    intros st. case_match; [|by apply triple_ret]. case_match; [by apply triple_ret|].
    case_match; [by apply triple_ret|]. eapply triple_bind; [apply s_call|].
    intros r. by apply triple_ret.
Qed.

Lemma s_ensure id : triple (G None) (ensureTunnel id) (λ _, G None).
Proof.
  apply (triple_bind _ _ (λ _, G None)); [by apply triple_gets|]. intros st.
  case_match; [by apply triple_ret|].
  eapply triple_bind; [apply s_get|]. intros [e|t]; [apply triple_ret; naive_solver|].
  apply triple_pure. intros Hid. apply (triple_bind _ _ (λ _, G None)); [|intros ?; by apply triple_ret].
  apply s_state. intros st' Hst'. by apply cache_put_wf.
Qed.

Definition about (id : string) (a : Action) : Prop := a_Tunnel a = "" ∨ a_Tunnel a = id.

Lemma single_about ev st ord :
  wf st → single_event (ev_Type ev) = true →
  Forall (about (ev_Tunnel ev)) (decide ev st ord).
Proof.
  intros Hst Hty. set (id := ev_Tunnel ev).
  assert (∀ t l, tunnels st !! id = Some t → own t l → Forall (about id) l) as Hown.
  { intros t l Ht Hl. eapply Forall_impl; [exact Hl|]. intros a Ha. right.
    by rewrite Ha, (Hst _ _ Ht). }
  unfold decide. fold id. destruct (tunnels st !! id) as [t|] eqn:Ht.
  - destruct (ev_Type ev); try discriminate.
    + unfold decideStart. rewrite Ht. case_match; [done|]. eapply Hown; [done|apply own_start].
    + unfold decideStop. rewrite Ht. eapply Hown; [done|apply own_stop].
    + eapply Hown; [done|by apply own_restart].
    + eapply Hown; [done|by apply own_delete].
    + eapply Hown; [done|by apply own_pingfail].
  - destruct (ev_Type ev); try discriminate;
      unfold decideStart, decideStop, decideRestart, decideDelete, decidePingCheckFailed;
      by rewrite Ht.
Qed.

(** Every plan of the event is made of allowed actions. *)
Definition plans_allowed (ev : Event) : Prop :=
  ∀ ev' st ord, ev_Type ev' = ev_Type ev → ev_Layer ev' = ev_Layer ev →
    ev_Level ev' = ev_Level ev → Forall allowed (decide ev' st ord).

Lemma s_decide ev :
  plans_allowed ev →
  triple (G None) (decide_now ev)
    (λ l o, G None o ∧ Forall allowed l ∧
      (single_event (ev_Type ev) = true → Forall (about (ev_Tunnel ev)) l)).
Proof.
  intros Hal. eapply triple_bind; [apply s_world|]. intros at_.
  set (ev' := if IsZero (ev_Now ev) then set_Now at_ ev else ev).
  assert (ev_Tunnel ev' = ev_Tunnel ev ∧ ev_Type ev' = ev_Type ev ∧
    ev_Layer ev' = ev_Layer ev ∧ ev_Level ev' = ev_Level ev) as (Ht & Hty & ? & ?)
    by (unfold ev'; by case_match).
  apply (triple_bind _ _ (λ _, G None)); [case_match; [by apply triple_ret|apply s_ensure]|].
  intros ?. eapply triple_bind; [apply s_world|]. intros w.
  apply (triple_bind _ _ (λ _, G None)).
  { apply s_state. intros st Hst. unfold sync_wan. case_match; done. }
  intros ?. apply triple_gets. intros o Ho. split_and!; [done|by apply Hal|].
  intros Hs. rewrite <- Ht. apply single_about; [apply Ho|congruence].
Qed.

Lemma s_HandleEvent ev :
  event_ok ev → plans_allowed ev →
  triple (G None) (HandleEvent others ev) (λ _, G None).
Proof.
  intros Hev Hal. unfold HandleEvent. apply (triple_bind _ _ (λ _, G None)).
  { case_match; [|by apply triple_ret]. intros o Ho. unfold consumeExpectedHook.
    by destruct (consume_hook _ _ _ _). }
  intros self. case_match; [by apply triple_ret|].
  eapply triple_bind; [apply s_gate|]. intros go. case_match; [by apply triple_ret|].
  eapply triple_bind; [by apply s_decide|]. intros l. apply triple_pure. intros [Hla Hl].
  unfold execute_plan. destruct l as [|a l]; [by apply triple_ret|].
  destruct (String.eqb _ _) eqn:E; to_prop.
  - apply s_groups; [apply groupContiguousByTunnel_wf|].
    apply Forall_concat. by rewrite groupContiguousByTunnel_concat.
  - apply s_under_lock, s_executeActions. destruct Hev as [|Hs]; [done|].
    pose proof (conj Hla (Hl Hs)) as Hboth%Forall_and. eapply Forall_impl; [exact Hboth|].
    intros b [Hb [Hid|Hid]]; (split; [|done]); [by left|by right; rewrite Hid].
Qed.
End safety.

(** ** The user's intent in the store *)

Definition anything (v v' : view) : Prop := True.
#[export] Instance anything_preorder : PreOrder anything.
Proof. by split. Qed.

(** The same tunnels, with the same [Enabled] flags. *)
Definition same_intent (v v' : view) : Prop :=
  ∀ id, t_Enabled <$> v !! id = t_Enabled <$> v' !! id.
#[export] Instance same_intent_preorder : PreOrder same_intent.
Proof. split; [done|]. intros v1 v2 v3 H12 H23 id. by rewrite H12. Qed.

(** No enabled tunnel is disabled or lost. *)
Definition enabled_kept (v v' : view) : Prop :=
  ∀ id t, v !! id = Some t → t_Enabled t = true →
    ∃ t', v' !! id = Some t' ∧ t_Enabled t' = true.
#[export] Instance enabled_kept_preorder : PreOrder enabled_kept.
Proof.
  split; [intros v id t; eauto|]. intros v1 v2 v3 H12 H23 id t Ht He.
  destruct (H12 id t Ht He) as (t' & Ht' & He'). by apply (H23 id t').
Qed.

(** Actions that leave every [Enabled] flag, resp. every set flag, as it is. *)
Definition neutral (ty : ActionType) : bool :=
  match ty with
  | ActionColdStartKernel | ActionStartNativeWG | ActionReconcileNativeWG
  | ActionPersistRunning | ActionPersistStopped
  | ActionDeleteKernel | ActionDeleteNativeWG => false
  | _ => true
  end.
Definition never_disables (ty : ActionType) : bool :=
  match ty with
  | ActionPersistStopped | ActionDeleteKernel | ActionDeleteNativeWG => false
  | _ => true
  end.

Lemma write_flag ty id v v' (P : bool → bool → Prop) :
  write ty id v v' → (∀ t t', stored_change ty t t' → P (t_Enabled t) (t_Enabled t')) →
  (∀ k, k ≠ id → v' !! k = v !! k) ∧
  ∃ t t', v !! id = Some t ∧ v' !! id = Some t' ∧ P (t_Enabled t) (t_Enabled t').
Proof.
  intros (t & t' & Ht & Hc & ->) HP. split.
  - intros k Hk. by rewrite lookup_insert_ne.
  - exists t, t'. rewrite lookup_insert_eq. auto.
Qed.

Lemma change_neutral ty t t' :
  neutral ty = true → stored_change ty t t' → t_Enabled t' = t_Enabled t.
Proof. intros Hn (en & ip & wan & at_ & -> & H). by destruct ty; naive_solver. Qed.

Lemma change_enabled ty t t' :
  never_disables ty = true → stored_change ty t t' → t_Enabled t = true → t_Enabled t' = true.
Proof. intros Hn (en & ip & wan & at_ & -> & H) He. destruct ty; naive_solver congruence. Qed.

Lemma write_same_intent ty id v v' :
  neutral ty = true → write ty id v v' → same_intent v v'.
Proof.
  intros Hn Hw. destruct (write_flag _ _ _ _ (λ b b', b' = b) Hw) as (Hk & t & t' & Ht & Ht' & E).
  { intros. by eapply change_neutral. }
  intros k. destruct (base.decide (k = id)) as [->|Hne]; [|by rewrite Hk].
  rewrite Ht, Ht'. simpl. congruence.
Qed.

Lemma write_enabled_kept ty id v v' :
  never_disables ty = true → write ty id v v' → enabled_kept v v'.
Proof.
  intros Hn Hw. destruct (write_flag _ _ _ _ (λ b b', b = true → b' = true) Hw)
    as (Hk & t & t' & Ht & Ht' & E).
  { intros. by eapply change_enabled. }
  intros k u Hu He. destruct (base.decide (k = id)) as [->|Hne]; [|rewrite Hk by done; eauto].
  rewrite Ht in Hu. simplify_eq. eauto.
Qed.

Lemma effect_lift (R : relation view) `{!PreOrder R} (ok : ActionType → bool) a r v v' :
  (∀ ty id v v', ok ty = true → write ty id v v' → R v v') →
  deleted_action (a_Type a) = false → ok (a_Type a) = true →
  storage_effect a r v v' → R v v'.
Proof.
  intros HR Hd Hok. unfold storage_effect. pose proof (HR (a_Type a)) as HR'.
  destruct (a_Type a) eqn:E; try discriminate;
    try (intros; naive_solver).
  induction 1 as [|v1 v2 v3 [id Hw] _ IH]; [done|]. etrans; [|apply IH]. by eapply HR'.
Qed.

Lemma neutral_effect a r v v' :
  neutral (a_Type a) = true → view_wf v → storage_effect a r v v' → same_intent v v'.
Proof.
  intros Hn _. apply (effect_lift same_intent neutral); [by apply write_same_intent| |done].
  by destruct (a_Type a).
Qed.

Lemma enabled_effect a r v v' :
  never_disables (a_Type a) = true → view_wf v → storage_effect a r v v' → enabled_kept v v'.
Proof.
  intros Hn _. apply (effect_lift enabled_kept never_disables); [by apply write_enabled_kept| |done].
  by destruct (a_Type a).
Qed.
(** C33: handling any event keeps the cache and the store well formed (every
    tunnel filed under its own ID) and respects the lock discipline: a tunnel's
    actions run only while its lock is held, two locks are never held at once,
    and every lock taken is released, whatever the executors answer. *)
Theorem HandleEvent_safe {S W : Type} `{!StoreOps S} `{!TunnelStore S} `{!Executors W}
    `{GoUnicode} (others : Orch S W → Orch S W) (ev : Event) (o : Orch S W) :
  (∀ o, orch_ok o → orch_ok (others o)) → event_ok ev → orch_ok o →
  let '(_, o') := HandleEvent others ev o in
  orch_ok o' ∧
  ∃ ext, o_signals o' = o_signals o ++ ext ∧ lock_run None ext = Some None.
Proof.
  intros Hoth Hev Ho.
  destruct (s_HandleEvent others anything (λ _, True)
    ltac:(intros o1 Ho1; split; [by apply Hoth|done]) ltac:(done)
    (store_view (o_store o)) (o_signals o) ev Hev
    ltac:(intros ? ? ? _ _ _; by apply Forall_true) o) as (Ho' & _ & Hs).
  - split_and!; [exact Ho|done|]. exists []. by rewrite app_nil_r.
  - by destruct (HandleEvent others ev o).
Qed.

(** The others of the examples: a concurrent status update on another tunnel. *)
Definition sim_others (o : Orch disk sim) : Orch disk sim :=
  mkOrch (o_state o) [] (o_store o) (o_world o) [].

Lemma sim_orch_ok enabled running faults : orch_ok (sim_orch enabled running faults).
Proof.
  split; [|apply sim_view_wf].
  change (map_Forall (λ k t, ts_ID t = k) (tunnels (o_state (sim_orch enabled running faults)))).
  apply (bool_decide_unpack _). by destruct enabled, running; vm_compute.
Qed.

Lemma HandleEvent_safe_witness :
  let o := sim_orch true true [false; true] in
  let ev := tunnel_event EventReconnect "" in
  orch_ok o ∧
  let '(_, o') := HandleEvent (U := plain_unicode) sim_others ev o in
  orch_ok o' ∧ ∃ ext, o_signals o' = o_signals o ++ ext ∧ lock_run None ext = Some None.
Proof.
  split; [apply sim_orch_ok|].
  apply (HandleEvent_safe (H := plain_unicode)); [done|by left|apply sim_orch_ok].
Defined.

(** Plans of harmless actions. *)
Lemma Forall_plan (f : tunnelState → list Action) (P : Action → Prop) ord :
  (∀ t, Forall P (f t)) → Forall P (flat_map (λ e : string * tunnelState, f e.2) ord).
Proof.
  intros Hf. induction ord as [|e ord IH]; simpl; [done|]. apply Forall_app. auto.
Qed.

Ltac block_tac :=
  unfold boot_tunnel, reconnect_tunnel, start_tunnel, wanup_tunnel, wandown_tunnel,
    quiesce_tunnel, appendQuiesceStopActions, appendPostStartActions, by_backend, reconcile_all;
  intros; repeat case_match; simpl; repeat constructor.

Lemma quiesce_neutral `{GoUnicode} ev st ord :
  ev_Type ev = EventQuiesce → Forall (λ a, neutral (a_Type a) = true) (decide ev st ord).
Proof. intros E. unfold decide. rewrite E. apply Forall_plan. block_tac. Qed.

(** Every event but a user's stop or delete and an external disable. *)
Definition keeps_enabled_event (ev : Event) : bool :=
  match ev_Type ev with
  | EventStop | EventDelete => false
  | EventNDMSHook => negb (String.eqb (ev_Layer ev) "conf" && String.eqb (ev_Level ev) "disabled")
  | _ => true
  end.

Lemma keeps_enabled_plan `{GoUnicode} ev st ord :
  keeps_enabled_event ev = true →
  Forall (λ a, never_disables (a_Type a) = true) (decide ev st ord).
Proof.
  unfold keeps_enabled_event. intros Hev.
  assert (∀ t, Forall (λ a, never_disables (a_Type a) = true) (start_tunnel t)) as Hstart
    by block_tac.
  assert (∀ id, Forall (λ a, never_disables (a_Type a) = true) (decideStart id st)) as Hs.
  { intros id. unfold decideStart. destruct (tunnels st !! id) as [t|]; [|done].
    destruct (ts_Running t); [done|apply Hstart]. }
  unfold decide. destruct (ev_Type ev); try discriminate.
  - apply Forall_app. split; [apply Forall_plan|]; block_tac.
  - apply Forall_app. split; [block_tac|]. apply Forall_app.
    split; [apply Forall_plan|]; block_tac.
  - apply Hs.
  - unfold decideRestart. case_match; [|done]. apply Forall_app.
    split; [block_tac|apply Hstart].
  - apply Forall_plan. block_tac.
  - unfold decideWANDown. case_match; [|apply Forall_plan; block_tac].
    apply Forall_app. split; [apply Forall_plan; block_tac|].
    match goal with H : _ = true |- _ => clear H end.
    induction (flat_map _ ord) as [|id l IH]; simpl; [done|]. apply Forall_app.
    split; [unfold failover_tunnel; block_tac|exact IH].
  - unfold decideNDMSHook. apply negb_true_iff in Hev.
    destruct (String.eqb (ev_Layer ev) "conf"); simpl in *; [|done].
    destruct (findByNDMSName _ _) as [t|]; [|done].
    destruct (String.eqb _ "running"); [destruct (_ || _); [done|apply Hs]|].
    by rewrite Hev.
  - unfold decidePingCheckFailed. repeat case_match; repeat constructor.
  - apply Forall_plan. block_tac.
Qed.

Section intent.
Context {S W : Type} `{!StoreOps S} `{!TunnelStore S} `{!Executors W} `{U : GoUnicode}.

Lemma HandleEvent_evolves (R : relation view) `{!PreOrder R} (allowed : Action → Prop)
    (others : Orch S W → Orch S W) ev (o : Orch S W) :
  (∀ a r v v', allowed a → view_wf v → storage_effect a r v v' → R v v') →
  (∀ o, orch_ok o →
    orch_ok (others o) ∧ R (store_view (o_store o)) (store_view (o_store (others o)))) →
  event_ok ev → plans_allowed allowed ev → orch_ok o →
  R (store_view (o_store o)) (store_view (o_store (HandleEvent others ev o).2)).
Proof.
  intros HR Hoth Hev Hal Ho.
  destruct (s_HandleEvent others R allowed Hoth HR (store_view (o_store o)) (o_signals o)
    ev Hev Hal o) as (_ & HR' & _); [|done].
  split_and!; [exact Ho|done|]. exists []. by rewrite app_nil_r.
Qed.
End intent.

(** Quiescing (which brings every running tunnel down so that data files
    can be swapped) never changes the user's intent: the same tunnels are stored
    with the same [Enabled] flags, even when operations fail half-way. *)
Theorem quiesce_keeps_intent {S W : Type} `{!StoreOps S} `{!TunnelStore S} `{!Executors W}
    `{GoUnicode} (others : Orch S W → Orch S W) (o : Orch S W) :
  (∀ o, orch_ok o → orch_ok (others o) ∧
    same_intent (store_view (o_store o)) (store_view (o_store (others o)))) →
  orch_ok o →
  same_intent (store_view (o_store o))
    (store_view (o_store (HandleEvent others (tunnel_event EventQuiesce "") o).2)).
Proof.
  intros Hoth Ho.
  apply (HandleEvent_evolves same_intent (λ a, neutral (a_Type a) = true));
    [apply neutral_effect|exact Hoth|by left| |exact Ho].
  intros ev' st ord Hty _ _. by apply quiesce_neutral.
Qed.

Lemma quiesce_keeps_intent_witness :
  let o := sim_orch true true [false; true; true] in
  orch_ok o ∧
  same_intent (store_view (o_store o))
    (store_view (o_store (HandleEvent (U := plain_unicode) sim_others
      (tunnel_event EventQuiesce "") o).2)).
Proof.
  split; [apply sim_orch_ok|].
  apply (quiesce_keeps_intent (H := plain_unicode)); [|apply sim_orch_ok].
  intros o Ho. split; [exact Ho|]. intros id. reflexivity.
Defined.

(** C34: boot, reconnect, start, restart, WAN up and down, failed ping checks,
    quiescing and every NDMS hook but conf=disabled never disable or lose a
    tunnel the user has enabled, whatever the executors answer and whatever
    order the events of the others take. *)
Theorem enabled_survives {S W : Type} `{!StoreOps S} `{!TunnelStore S} `{!Executors W}
    `{GoUnicode} (others : Orch S W → Orch S W) (ev : Event) (o : Orch S W) :
  (∀ o, orch_ok o → orch_ok (others o) ∧
    enabled_kept (store_view (o_store o)) (store_view (o_store (others o)))) →
  event_ok ev → keeps_enabled_event ev = true → orch_ok o →
  enabled_kept (store_view (o_store o)) (store_view (o_store (HandleEvent others ev o).2)).
Proof.
  intros Hoth Hev Hk Ho.
  apply (HandleEvent_evolves enabled_kept (λ a, never_disables (a_Type a) = true));
    [apply enabled_effect|exact Hoth|exact Hev| |exact Ho].
  intros ev' st ord Hty Hla Hle. apply keeps_enabled_plan.
  unfold keeps_enabled_event in *. by rewrite Hty, Hla, Hle.
Qed.

Lemma enabled_survives_witness :
  let o := sim_orch true true [true; false; true] in
  let ev := tunnel_event EventRestart "awg20" in
  orch_ok o ∧ keeps_enabled_event ev = true ∧
  enabled_kept (store_view (o_store o))
    (store_view (o_store (HandleEvent (U := plain_unicode) sim_others ev o).2)).
Proof.
  split_and!; [apply sim_orch_ok|reflexivity|].
  apply (enabled_survives (H := plain_unicode)); [|by right|reflexivity|apply sim_orch_ok].
  intros o Ho. split; [exact Ho|]. intros id t Ht He. exists t. by split.
Defined.
