(* ===== verification/EventProps.v ===== *)
(** * What start, stop and the NDMS edges achieve

    The functional effect of the single-tunnel events on store and cache, the
    settling of a conf=disabled edge, expected hooks, the cache refresh, WAN
    resolution and address conflicts. *)
From S2P Require Import Prelude GoLib Names Storage Wan Decide DecideProps Execute Orchestrator Sim ExecuteProps OrchProps HandleProps.

Section effects.
Context {S W : Type} `{!StoreOps S} `{!TunnelStore S} `{!Executors W} `{U : GoUnicode}.
Notation error := (option string).

(** [m] run with the lock held: unlocking touches neither cache nor store. *)
Lemma under_lock_inv others id (m : ST (Orch S W) error) o e o' :
  (∀ o, orch_ok o → orch_ok (others o)) → orch_ok o →
  under_lock others id m o = (e, o') →
  e ≠ None ∨ ∃ o2 o3, orch_ok o2 ∧ m o2 = (e, o3) ∧
    o_state o' = o_state o3 ∧ o_store o' = o_store o3.
Proof.
  intros Hoth Ho. unfold under_lock, check, lockTunnel, mbind, ST_bind, call, mret, ST_ret.
  destruct (sem_acquire id (o_world o)) as [[ok l] w]. simpl.
  set (o1 := mkOrch _ _ _ w _).
  destruct ok; simpl; [|intros ?; simplify_eq; by left].
  match goal with |- context [m ?x] => set (o2 := x) end.
  assert (orch_ok o2) as Ho2 by exact (Hoth o1 Ho).
  intros H. right. destruct (m o2) as [e' o3] eqn:Em.
  unfold unlockTunnel, mbind, ST_bind, call in H; unfold mret, ST_ret in H.
  destruct (sem_release id (o_world o3)) as [[u l'] w']. simpl in H. simplify_eq.
  exists o2, o3. split_and!; [exact Ho2|done..].
Qed.

(** A single-tunnel event on a cached tunnel: its plan runs on some state. *)
Lemma single_event_inv others ev t (o : Orch S W) e o' :
  (∀ o, orch_ok o → orch_ok (others o)) → orch_ok o →
  single_event (ev_Type ev) = true → ev_Tunnel ev ≠ "" →
  tunnels (o_state o) !! ev_Tunnel ev = Some t →
  HandleEvent others ev o = (e, o') →
  ∃ ev' st ord,
    ev_Type ev' = ev_Type ev ∧ ev_Tunnel ev' = ev_Tunnel ev ∧
    tunnels st = tunnels (o_state o) ∧
    let l := decide ev' st ord in
    (l = [] ∧ e = None) ∨ e ≠ None ∨
    ∃ o2 o3, orch_ok o2 ∧ executeActions l o2 = (e, o3) ∧
      o_state o' = o_state o3 ∧ o_store o' = o_store o3.
Proof.
  intros Hoth Ho Hs Hne Ht. unfold HandleEvent, is_hook.
  rewrite bool_decide_eq_false_2 by (intros E; by rewrite E in Hs).
  unfold mbind at 1, ST_bind. simpl. unfold mbind at 1, ST_bind, conf_gate, is_hook.
  rewrite bool_decide_eq_false_2 by (intros E; by rewrite E in Hs). simpl.
  unfold mbind at 1, ST_bind. unfold decide_now, mbind at 1, ST_bind. simpl.
  set (ev' := if IsZero (ev_Now ev) then _ else ev).
  assert (ev_Tunnel ev' = ev_Tunnel ev ∧ ev_Type ev' = ev_Type ev) as [Htu Hty]
    by (unfold ev'; by case_match).
  unfold mbind at 1, ST_bind. rewrite Htu.
  rewrite (proj2 (String.eqb_neq _ _)) by done.
  unfold ensureTunnel, mbind at 1, ST_bind. simpl. rewrite Ht. simpl.
  set (st := sync_wan (o_world o) (o_state o)).
  set (ord := range_tunnels _ _). unfold execute_plan.
  intros H. exists ev', st, ord. split_and!; [done|done| |].
  { unfold st, sync_wan. by destruct (anyWANUpFn _). }
  cbv zeta. destruct (decide ev' st ord) as [|a l]; [|right].
  { left. by injection H as <- _. }
  rewrite (proj2 (String.eqb_neq _ _)) in H by done.
  eapply under_lock_inv; [exact Hoth| |exact H].
  split; [|apply Ho]. unfold st, sync_wan. simpl. destruct (anyWANUpFn _); apply Ho.
Qed.

(** A plan without error ran every action without error. *)
Lemma executeActions_ok l (o o' : Orch S W) :
  executeActions l o = (None, o') → ∃ rs, runs l rs o o' ∧ Forall (λ r, r = None) rs.
Proof.
  intros H. pose proof (executeActions_runs None l o) as Hr.
  unfold executeActions in H. rewrite H in Hr.
  destruct Hr as (l1 & [|a l2] & rs & -> & Hr & He).
  - exists rs. rewrite app_nil_r. split; [done|]. by apply first_err_None.
  - destruct He as (c & _ & He). by destruct (first_err rs).
Qed.

(** The belief about one tunnel, along a plan. *)
Definition believed (b : bool) (id : string) (o : Orch S W) : Prop :=
  ∀ t, tunnels (o_state o) !! id = Some t → ts_Running t = b.

Lemma run_action_believed b a (o o1 : Orch S W) :
  view_wf (store_view (o_store o)) → run_action a o = (None, o1) →
  (running_after (a_Type a) b = b → believed b (a_Tunnel a) o → believed b (a_Tunnel a) o1) ∧
  (running_after (a_Type a) (negb b) = b → believed b (a_Tunnel a) o1).
Proof.
  intros Hv Hr. pose proof (run_action_spec a o Hv) as H. rewrite Hr in H.
  destruct H as (_ & _ & (_ & _ & _ & Hc) & _). unfold believed.
  destruct (tunnels (o_state o) !! a_Tunnel a) as [t|] eqn:Ht; [|rewrite Hc; by split].
  destruct (deleted_action (a_Type a)); [rewrite Hc; by split|].
  destruct Hc as (t' & -> & _ & _ & _ & Hrun). split.
  - intros Hb Ho t1 ?. simplify_eq. rewrite Hrun, (Ho t eq_refl). exact Hb.
  - intros Hb t1 ?. simplify_eq. rewrite Hrun. revert Hb. unfold running_after.
    repeat case_match; try done. by destruct b.
Qed.

Lemma runs_believed b id l rs (o o' : Orch S W) :
  view_wf (store_view (o_store o)) → runs l rs o o' → Forall (λ r, r = None) rs →
  Forall (λ a, a_Tunnel a = id ∧ running_after (a_Type a) b = b) l →
  believed b id o → believed b id o'.
Proof.
  intros Hv Hr. revert Hv. induction Hr as [|a l r rs o o1 o2 Hr Hrs IH]; [done|].
  intros Hv Hn Hl Hb. apply Forall_cons in Hn as [-> Hn], Hl as [[Hid Ha] Hl].
  pose proof (run_action_spec a o Hv) as H. rewrite Hr in H.
  apply IH; [tauto|done|done|]. rewrite <- Hid in *.
  destruct (run_action_believed b a o o1 Hv Hr) as [Hk _]. by apply Hk.
Qed.

(** The last action of a plan. *)
Lemma runs_last l a rs (o o' : Orch S W) :
  view_wf (store_view (o_store o)) → runs (l ++ [a]) rs o o' → Forall (λ r, r = None) rs →
  ∃ v, storage_effect a None v (store_view (o_store o')).
Proof.
  intros Hv Hr Hn. destruct (runs_app _ _ _ _ _ Hr) as (rs1 & rs2 & om & -> & Hr1 & Hr2).
  pose proof (runs_wf _ _ _ _ Hr1 Hv) as Hv'.
  inversion Hr2 as [|? ? r rs' ? o1 ? Hra Hrn]; subst. inversion Hrn; subst.
  apply Forall_app in Hn as [_ Hn]. apply Forall_cons in Hn as [-> _].
  pose proof (run_action_spec a om Hv') as H. rewrite Hra in H.
  eexists. apply H.
Qed.
Definition backed (t : tunnelState) : bool := is_kernel t || is_nwg t.

(** The action that brings a tunnel up, and the one that brings it down. *)
Definition up_action (t : tunnelState) : Action :=
  act (if is_kernel t then ActionColdStartKernel else ActionStartNativeWG) (ts_ID t).
Definition down_action (t : tunnelState) : Action :=
  act (if is_kernel t then ActionStopKernel else ActionStopNativeWG) (ts_ID t).

Definition before_down (t : tunnelState) : list Action :=
  (if ts_Monitoring t then [act ActionStopMonitoring (ts_ID t)] else []) ++
  (if is_nwg t && pingcheck_on t then [act ActionRemovePingCheck (ts_ID t)] else []).

Lemma stop_tunnel_shape t :
  backed t = true →
  stop_tunnel t = (before_down t ++ [down_action t] ++
    [act ActionRemoveStaticRoutes (ts_ID t); act ActionRemoveClientRoutes (ts_ID t)]) ++
    [act ActionPersistStopped (ts_ID t)].
Proof.
  unfold stop_tunnel, appendQuiesceStopActions, before_down, by_backend, down_action, backed.
  intros Hb. rewrite <- !(assoc_L (++)). do 2 f_equal.
  destruct (is_kernel t); [done|]. by destruct (is_nwg t).
Qed.

Definition after_up (t : tunnelState) : list Action :=
  [ act ActionApplyDNSRoutes (ts_ID t);
    {| a_Type := ActionApplyStaticRoutes; a_Tunnel := ts_ID t; a_Iface := ifaceName t |};
    {| a_Type := ActionApplyClientRoutes; a_Tunnel := ts_ID t; a_Iface := ifaceName t |} ] ++
  (if pingcheck_on t then
     (if is_nwg t then [act ActionConfigurePingCheck (ts_ID t)] else []) ++
     [act ActionStartMonitoring (ts_ID t)]
   else []).

Lemma start_tunnel_shape t :
  backed t = true →
  start_tunnel t = (up_action t :: after_up t) ++ [act ActionPersistRunning (ts_ID t)].
Proof.
  unfold start_tunnel, appendPostStartActions, after_up, by_backend, up_action, backed.
  intros Hb. simpl.
  destruct (is_kernel t); [done|]. by destruct (is_nwg t).
Qed.

Lemma runs_cons_ok a l rs (o o' : Orch S W) :
  runs (a :: l) rs o o' → Forall (λ r, r = None) rs → view_wf (store_view (o_store o)) →
  ∃ rs' o1, run_action a o = (None, o1) ∧ runs l rs' o1 o' ∧ Forall (λ r, r = None) rs' ∧
    view_wf (store_view (o_store o1)).
Proof.
  inversion 1 as [|? ? r rs' ? o1 ? Hra Hrn]; subst.
  intros [-> Hn]%Forall_cons Hv. exists rs', o1.
  pose proof (run_action_spec a o Hv) as He. rewrite Hra in He. tauto.
Qed.

(** A plan that contains an action fixing the belief, and nothing after it that
    changes it. *)
Lemma runs_fix_belief b a l rs (o o' : Orch S W) :
  view_wf (store_view (o_store o)) → runs (a :: l) rs o o' → Forall (λ r, r = None) rs →
  running_after (a_Type a) (negb b) = b →
  Forall (λ a', a_Tunnel a' = a_Tunnel a ∧ running_after (a_Type a') b = b) l →
  believed b (a_Tunnel a) o'.
Proof.
  intros Hv Hr Hn Ha Hl.
  destruct (runs_cons_ok _ _ _ _ _ Hr Hn Hv) as (rs' & o1 & Hra & Hr1 & Hn1 & Hv1).
  eapply runs_believed; [exact Hv1|exact Hr1|exact Hn1|exact Hl|].
  destruct (run_action_believed b a o o1 Hv Hra) as [_ Hk]. by apply Hk.
Qed.
End effects.

(** When stopping a tunnel reports success, the tunnel is disabled in the
    store, its run-time fields are cleared and the cache no longer believes it
    to be running. *)
Theorem stop_succeeds {S W : Type} `{!StoreOps S} `{!TunnelStore S} `{!Executors W}
    `{GoUnicode} (others : Orch S W → Orch S W) id t (o o' : Orch S W) :
  (∀ o, orch_ok o → orch_ok (others o)) → orch_ok o → id ≠ "" →
  tunnels (o_state o) !! id = Some t → backed t = true →
  HandleEvent others (tunnel_event EventStop id) o = (None, o') →
  (∃ s, store_view (o_store o') !! id = Some s ∧
        t_Enabled s = false ∧ t_ActiveWAN s = "" ∧ t_StartedAt s = "") ∧
  believed false id o'.
Proof.
  intros Hoth Ho Hne Ht Hb Hh. pose proof (proj1 Ho _ _ Ht) as Hid.
  destruct (single_event_inv others (tunnel_event EventStop id) t o None o')
    as (ev' & st & ord & Hty & Htu & Hst & Hcase); [done..|].
  assert (decide ev' st ord = stop_tunnel t) as Hplan.
  { unfold decide. rewrite Hty, Htu. simpl. unfold decideStop. by rewrite Hst, Ht. }
  rewrite Hplan, stop_tunnel_shape in Hcase by done.
  destruct Hcase as [[Hnil _]|[?|(o2 & o3 & Ho2 & Hx & Es & Ev)]]; [by destruct (before_down t)|done|].
  destruct (executeActions_ok _ _ _ Hx) as (rs & Hr & Hn). unfold believed. rewrite Es, Ev.
  assert (view_wf (store_view (o_store o2))) as Hv by apply Ho2. split.
  - destruct (runs_last _ _ _ _ _ Hv Hr Hn) as (v & [[_ Hw]|[? _]]); [|done].
    destruct Hw as (s & s' & Hs & (en & ip & wan & at_ & -> & -> & _ & -> & ->) & Hv'). simpl in *.
    rewrite Hv', Hid, lookup_insert_eq. eexists. by split_and!.
  - rewrite <- !(assoc_L (++)) in Hr.
    destruct (runs_app _ _ _ _ _ Hr) as (rs1 & rs2 & om & -> & Hr1 & Hr2).
    apply Forall_app in Hn as [_ Hn]. rewrite <- Hid.
    apply (runs_fix_belief false (down_action t) _ _ _ _ (runs_wf _ _ _ _ Hr1 Hv) Hr2 Hn).
    + unfold down_action. by destruct (is_kernel t).
    + repeat constructor.
Qed.

(** When starting a cached tunnel that was not running reports success, the
    tunnel is enabled in the store with a start time, and the cache believes it
    to be running. *)
Theorem start_succeeds {S W : Type} `{!StoreOps S} `{!TunnelStore S} `{!Executors W}
    `{GoUnicode} (others : Orch S W → Orch S W) id t (o o' : Orch S W) :
  (∀ o, orch_ok o → orch_ok (others o)) → orch_ok o → id ≠ "" →
  tunnels (o_state o) !! id = Some t → backed t = true → ts_Running t = false →
  HandleEvent others (tunnel_event EventStart id) o = (None, o') →
  (∃ s, store_view (o_store o') !! id = Some s ∧ t_Enabled s = true ∧ t_StartedAt s ≠ "") ∧
  believed true id o'.
Proof.
  intros Hoth Ho Hne Ht Hb Hnr Hh. pose proof (proj1 Ho _ _ Ht) as Hid.
  destruct (single_event_inv others (tunnel_event EventStart id) t o None o')
    as (ev' & st & ord & Hty & Htu & Hst & Hcase); [done..|].
  assert (decide ev' st ord = start_tunnel t) as Hplan.
  { unfold decide. rewrite Hty, Htu. simpl. unfold decideStart. by rewrite Hst, Ht, Hnr. }
  rewrite Hplan, start_tunnel_shape in Hcase by done.
  destruct Hcase as [[Hnil _]|[?|(o2 & o3 & Ho2 & Hx & Es & Ev)]]; [done|done|].
  destruct (executeActions_ok _ _ _ Hx) as (rs & Hr & Hn). unfold believed. rewrite Es, Ev.
  assert (view_wf (store_view (o_store o2))) as Hv by apply Ho2. split.
  - destruct (runs_last _ _ _ _ _ Hv Hr Hn) as (v & [[_ Hw]|[? _]]); [|done].
    destruct Hw as (s & s' & Hs & (en & ip & wan & at_ & -> & -> & Hat & _) & Hv'). simpl in *.
    rewrite Hv', Hid, lookup_insert_eq. eexists. by split_and!.
  - rewrite <- Hid. change (ts_ID t) with (a_Tunnel (up_action t)).
    apply (runs_fix_belief true (up_action t) _ _ _ _ Hv Hr Hn).
    + unfold up_action. by destruct (is_kernel t).
    + simpl. unfold after_up. repeat case_match; repeat constructor.
Qed.

(** a start that fails still marks the tunnel as started: the plan goes on
    after the failed start action, so the store ends up enabled with a fresh
    start time while the event reports the error and nothing runs. *)
Theorem failed_start_marks_started :
  let o := sim_orch false false [true] in
  let '(e, o') := HandleEvent (U := plain_unicode) sim_others (tunnel_event EventStart "awg20") o in
  e = Some "fault" ∧
  t_Enabled <$> store_view (o_store o) !! "awg20" = Some false ∧
  t_Enabled <$> store_view (o_store o') !! "awg20" = Some true ∧
  ts_Running <$> tunnels (o_state o') !! "awg20" = Some false.
Proof. vm_compute. by split_and!. Qed.

Lemma stop_succeeds_witness :
  let o := sim_orch true true [] in
  let '(e, o') := HandleEvent (U := plain_unicode) sim_others (tunnel_event EventStop "awg10") o in
  e = None ∧
  (∃ s, store_view (o_store o') !! "awg10" = Some s ∧
        t_Enabled s = false ∧ t_ActiveWAN s = "" ∧ t_StartedAt s = "") ∧
  believed false "awg10" o'.
Proof.
  intros o. subst o.
  destruct (HandleEvent (U := plain_unicode) sim_others _ _) as [e o'] eqn:E.
  assert (e = None) as ->.
  { apply (f_equal fst) in E. simpl in E. rewrite <- E. vm_compute. reflexivity. }
  split; [reflexivity|].
  eapply (stop_succeeds (H := plain_unicode) sim_others "awg10"
    (ts_set_Running true (tunnelStateFromStored (sim_tunnel "awg10" "kernel" 0 true)))
    (sim_orch true true []));
    [done|apply sim_orch_ok|done|vm_compute; reflexivity|reflexivity|exact E].
Defined.

Lemma start_succeeds_witness :
  let o := sim_orch false false [] in
  let '(e, o') := HandleEvent (U := plain_unicode) sim_others (tunnel_event EventStart "awg10") o in
  e = None ∧
  (∃ s, store_view (o_store o') !! "awg10" = Some s ∧ t_Enabled s = true ∧ t_StartedAt s ≠ "") ∧
  believed true "awg10" o'.
Proof.
  intros o. subst o.
  destruct (HandleEvent (U := plain_unicode) sim_others _ _) as [e o'] eqn:E.
  assert (e = None) as ->.
  { apply (f_equal fst) in E. simpl in E. rewrite <- E. vm_compute. reflexivity. }
  split; [reflexivity|].
  eapply (start_succeeds (H := plain_unicode) sim_others "awg10"
    (ts_set_Running false (tunnelStateFromStored (sim_tunnel "awg10" "kernel" 0 false)))
    (sim_orch false false []));
    [done|apply sim_orch_ok|done|vm_compute; reflexivity|reflexivity|reflexivity|exact E].
Defined.

(** ** Expected hooks *)

Lemma take_hook_spec name level l :
  match take_hook name level l with
  | Some rest => ∃ l1 h l2, l = l1 ++ h :: l2 ∧ rest = l1 ++ l2 ∧
      hook_matches name level h = true ∧ Forall (λ h, hook_matches name level h = false) l1
  | None => Forall (λ h, hook_matches name level h = false) l
  end.
Proof.
  induction l as [|h l IH]; simpl; [done|].
  destruct (hook_matches name level h) eqn:E.
  { exists [], h, l. by split_and!. }
  destruct (take_hook name level l) as [rest|]; simpl; [|by constructor].
  destruct IH as (l1 & h' & l2 & -> & -> & Hh & Hl). exists (h :: l1), h', l2.
  split_and!; [done|done|done|by constructor].
Qed.

(** an NDMS edge is absorbed exactly when an expectation for it was
    announced less than 15 seconds ago; it uses up the oldest such expectation
    and no other, so a single announcement never absorbs two edges, and expired
    expectations are forgotten without absorbing anything. *)
Theorem consume_hook_spec (now : Time) (name level : string) (l : list expectedHook) :
  let fresh h := hook_live now h && hook_matches name level h in
  let '(b, rest) := consume_hook now name level l in
  b = existsb fresh l ∧
  Forall (λ h, hook_live now h = true) rest ∧
  match b with
  | false => rest = List.filter (hook_live now) l
  | true => ∃ l1 h l2, l = l1 ++ h :: l2 ∧ fresh h = true ∧
      Forall (λ h, fresh h = false) l1 ∧
      rest = List.filter (hook_live now) l1 ++ List.filter (hook_live now) l2
  end.
Proof.
  cbv zeta. unfold consume_hook.
  assert (∀ l', Forall (λ h, hook_live now h = true) (List.filter (hook_live now) l')) as Hlive.
  { intros l'. apply Forall_forall. intros h Hh%list_elem_of_In%filter_In. tauto. }
  induction l as [|h l IH]; simpl; [by split_and!|].
  destruct (hook_live now h) eqn:El; simpl; last first.
  - destruct (take_hook name level (List.filter (hook_live now) l)) as [rest|];
      destruct IH as (Hb & Hf & IH); (split; [done|]; split; [done|]); [|done].
    destruct IH as (l1 & h' & l2 & -> & Hh' & Hl1 & ->). exists (h :: l1), h', l2.
    simpl. rewrite El. split_and!; [done|done|by constructor; [rewrite El|]|done].
  - destruct (hook_matches name level h) eqn:Em; simpl.
    { split_and!; [done|apply Hlive|]. exists [], h, l. rewrite El, Em. by split_and!. }
    destruct (take_hook name level (List.filter (hook_live now) l)) as [rest|]; simpl;
      destruct IH as (Hb & Hf & IH); (split; [done|]; split; [by constructor|]).
    + destruct IH as (l1 & h' & l2 & -> & Hh' & Hl1 & ->). exists (h :: l1), h', l2.
      simpl. rewrite El. split_and!; [done|done| |done]. constructor; [by rewrite El, Em|done].
    + done.
Qed.

(** ** The settling of conf=disabled *)

(** An interface bounce is not a stop: when conf=disabled of a running
    tunnel is held back and the tunnel's conf=running edge arrives meanwhile (or
    NDMS still reports the interface up, or the caller gives up), the event
    succeeds without executing anything; cache and store are what the other
    goroutines left. *)
Theorem bounce_is_ignored {S W : Type} `{!StoreOps S} `{!Executors W} `{GoUnicode}
    (others : Orch S W → Orch S W) (ev : Event) t (o : Orch S W) :
  ev_Type ev = EventNDMSHook → ev_Layer ev = "conf" → ev_Level ev = "disabled" →
  let '(absorbed, o1) := consumeExpectedHook (ev_NDMSName ev) "disabled" o in
  let '(gone, o2) := call (timer_or_ctx settle_delay) o1 in
  let o3 := (yield_others others o2).2 in
  absorbed = false →
  findByNDMSName (ev_NDMSName ev) (range_tunnels (o_world o) (tunnels (o_state o))) = Some t →
  ts_Running t = true → (ts_quiescentUntil t ≤ now (o_world o))%Z →
  (gone = true ∨
   ∃ t', tunnels (o_state o3) !! ts_ID t = Some t' ∧
     ((now (o_world o) < ts_lastConfRunningAt t')%Z ∨
      has_confLayerRunning = true ∧
      ∃ h w, confLayerRunning (ev_NDMSName ev) (o_world o3) = (inr true, h, w))) →
  let '(e, o') := HandleEvent others ev o in
  e = None ∧ o_state o' = o_state o3 ∧ o_store o' = o_store o3 ∧ o_signals o' = o_signals o.
Proof.
  intros Hty Hla Hle.
  destruct (consumeExpectedHook _ _ o) as [absorbed o1] eqn:E1.
  destruct (call _ o1) as [gone o2] eqn:E2. cbv zeta.
  intros -> Hf Hrun Hq Hcase.
  assert (is_hook ev = true) as Hhook by (unfold is_hook; by rewrite Hty, bool_decide_eq_true_2).
  assert (o_state o1 = o_state o ∧ o_world o1 = o_world o ∧ o_signals o1 = o_signals o)
    as (Es1 & Ew1 & Eg1).
  { unfold consumeExpectedHook in E1. destruct (consume_hook _ _ _ _). by simplify_eq. }
  assert (o_signals o2 = o_signals o) as Eg2.
  { unfold call in E2. destruct (timer_or_ctx _ _) as [[? ?] ?]. by simplify_eq. }
  unfold HandleEvent. rewrite Hhook, Hle. unfold mbind at 1, ST_bind. rewrite E1. simpl.
  unfold conf_gate. rewrite Hhook, Hla, Hle. simpl.
  unfold settleConfDisabled, find_tunnel, gets, read_world, mbind, ST_bind. simpl.
  rewrite Es1, Ew1, Hf, Hrun, (proj2 (Z.ltb_ge _ _)) by done. simpl. rewrite E2. simpl.
  set (o3 := mkOrch _ _ _ _ _). change (yield_others others o2).2 with o3 in Hcase.
  assert (∃ o4, (if gone then mret false
                 else settle_verdict (ev_NDMSName ev) (ts_ID t) (now (o_world o))) o3 = (false, o4) ∧
    o_state o4 = o_state o3 ∧ o_store o4 = o_store o3 ∧ o_signals o4 = o_signals o3)
    as (o4 & -> & Es4 & Ev4 & Eg4).
  { destruct gone; [by exists o3|]. destruct Hcase as [?|(t' & Ht' & Hc)]; [done|].
    unfold settle_verdict, gets, mbind, ST_bind. rewrite Ht'.
    destruct (_ <? _)%Z eqn:Eb; [by exists o3|].
    destruct Hc as [?|(-> & h & w & Hup)]; [to_prop; lia|]. simpl.
    unfold call. rewrite Hup. simpl. eexists. by split_and!. }
  simpl. rewrite Es4, Ev4, Eg4. split_and!; [done..|]. simpl. congruence.
Qed.

(** The bounce of issue #667 on the example: conf=running is noted during the
    delay. *)
Definition sim_bounce (o : Orch disk sim) : Orch disk sim :=
  mkOrch (alter_tunnel (ts_conf_running (1000 * Hour + Second)%Z) "awg10" (o_state o))
    [] (o_store o) (o_world o) [].

Lemma bounce_is_ignored_witness :
  let o := sim_orch true true [] in
  let '(e, o') := HandleEvent (U := plain_unicode) sim_bounce
    (ex_hook "OpkgTun10" "disabled" 0) o in
  e = None ∧ o_store o' = o_store o ∧ o_signals o' = [].
Proof.
  pose proof (bounce_is_ignored (H := plain_unicode) sim_bounce
    (ex_hook "OpkgTun10" "disabled" 0)
    (ts_set_Running true (tunnelStateFromStored (sim_tunnel "awg10" "kernel" 0 true)))
    (sim_orch true true []) eq_refl eq_refl eq_refl) as Hb.
  vm_compute in Hb. destruct Hb as (He & _ & Hv & Hg); [done|done|done|done|..].
  - right. eexists. split; [reflexivity|]. by left.
  - vm_compute. by split_and!.
Defined.

(** ** The cache refresh *)

(** refreshing a tunnel takes every setting from the store and nothing
    else: what the orchestrator believes of the running tunnel (running,
    monitoring, quiescence, last conf edge) survives, the other tunnels are
    untouched, and no action, event or write happens. *)
Theorem RefreshTunnelState_spec {S W : Type} `{!StoreOps S} `{!TunnelStore S}
    `{!Executors W} `{GoUnicode} (id : string) (o : Orch S W) :
  let '(_, o') := RefreshTunnelState id o in
  o_world o' = o_world o ∧ o_expectedHooks o' = o_expectedHooks o ∧
  o_signals o' = o_signals o ∧ store_view (o_store o') = store_view (o_store o) ∧
  delete id (tunnels (o_state o')) = delete id (tunnels (o_state o)) ∧
  match (store_Get id (o_store o)).1 with
  | inl _ => o_state o' = o_state o
  | inr stored => ∃ t, tunnels (o_state o') !! id = Some t ∧
      (ts_Name t = t_Name stored ∧ ts_Backend t = t_Backend stored ∧
       ts_Enabled t = t_Enabled stored ∧ ts_ActiveWAN t = t_ActiveWAN stored ∧
       ts_NWGIndex t = t_NWGIndex stored ∧ ts_PingCheck t = t_PingCheck stored ∧
       ts_ISPInterface t = t_ISPInterface stored) ∧
      match tunnels (o_state o) !! id with
      | Some cur =>
          ts_Running t = ts_Running cur ∧ ts_Monitoring t = ts_Monitoring cur ∧
          ts_quiescentUntil t = ts_quiescentUntil cur ∧
          ts_lastConfRunningAt t = ts_lastConfRunningAt cur
      | None => ts_Running t = false ∧ ts_Monitoring t = false
      end
  end.
Proof.
  unfold RefreshTunnelState, mbind, ST_bind, on_store.
  pose proof (store_Get_view id (o_store o)) as Hv.
  destruct (store_Get id (o_store o)) as [[e|stored] s]; simpl in *; [by split_and!|].
  split_and!; [done..| |].
  - by rewrite delete_insert_eq.
  - rewrite lookup_insert_eq. eexists. split; [reflexivity|].
    destruct (tunnels (o_state o) !! id) as [cur|]; by split_and!.
Qed.

Lemma RefreshTunnelState_spec_witness :
  let o := sim_orch true true [] in
  let '(_, o') := RefreshTunnelState "awg10" o in
  store_view (o_store o') = store_view (o_store o) ∧
  ts_Running <$> tunnels (o_state o') !! "awg10" = Some true.
Proof.
  pose proof (RefreshTunnelState_spec (H := plain_unicode) "awg10" (sim_orch true true [])) as Hr.
  cbv zeta. destruct (RefreshTunnelState "awg10" _) as [u o'].
  destruct Hr as (_ & _ & _ & Hv & _ & t & Ht & _ & Hrun & _).
  split; [exact Hv|]. rewrite Ht. simpl. f_equal. exact Hrun.
Defined.

(** ** WAN resolution *)

Lemma not_tunnel_route_enough {S W : Type} `{!StoreOps S} `{!Executors W} `{GoUnicode}
    n m isp (o : Orch S W) :
  IsTunnelRoute isp = false →
  resolveWAN_fuel (Datatypes.S n) isp o = resolveWAN_fuel (Datatypes.S m) isp o ∧
  is_Some (resolveWAN_fuel (Datatypes.S n) isp o).1.
Proof.
  intros Hn. simpl. rewrite Hn.
  unfold mbind, ST_bind, read_world, gets, call.
  destruct (String.eqb isp ""); [|by split]. destruct (preferred_wan _); [by split|].
  destruct (kernel_GetDefaultGatewayInterface _) as [[[e|ndms] h] w]; [by split|]. simpl.
  destruct (negb _); [by split|].
  simpl. by destruct (kernel_GetSystemName ndms w) as [[name h'] w'].
Qed.

(** WAN resolution terminates: the chain of tunnels is followed at most one
    step, so two levels of recursion always suffice. *)
Theorem resolveWAN_enough {S W : Type} `{!StoreOps S} `{!Executors W} `{GoUnicode}
    (n : nat) (isp : string) (o : Orch S W) :
  2 ≤ n →
  resolveWAN_fuel n isp o = resolveWAN_fuel 2 isp o ∧ is_Some (resolveWAN_fuel n isp o).1.
Proof.
  intros Hn. destruct n as [|[|n]]; [lia..|].
  destruct (IsTunnelRoute isp) eqn:Et; [|by apply not_tunnel_route_enough].
  assert (∀ isp o, IsTunnelRoute isp = false →
    resolveWAN_fuel (Datatypes.S n) isp o = resolveWAN_fuel 1 isp o ∧
    is_Some (resolveWAN_fuel (Datatypes.S n) isp o).1) as Hk
    by (intros; by apply not_tunnel_route_enough).
  revert Hk. generalize (Datatypes.S n) as k1. generalize 1%nat as k2. intros k2 k1 Hk.
  assert (String.eqb isp "" = false) as Hne.
  { apply String.eqb_neq. intros ->. done. }
  simpl. rewrite Et, Hne. unfold mbind, ST_bind, on_store.
  destruct (store_Get _ _) as [[e|parent] s]; [by split|].
  destruct (negb (String.eqb (t_ActiveWAN parent) "")); [by split|].
  unfold call. simpl. destruct (state_GetState _ _) as [[info h] w].
  destruct (negb (bool_decide _)); [by split|].
  destruct (IsTunnelRoute (t_ISPInterface parent)) eqn:Ep; [by split|by apply Hk].
Qed.

Lemma resolveWAN_enough_witness :
  let o := sim_orch true true [] in
  (2 ≤ 5) ∧ resolveWAN_fuel 5 "tunnel:awg10" o = resolveWAN_fuel 2 "tunnel:awg10" o ∧
  is_Some (resolveWAN_fuel 5 "tunnel:awg10" o).1.
Proof.
  split; [lia|]. apply (resolveWAN_enough (H := plain_unicode)). lia.
Defined.

(** ** Address conflicts *)

Lemma first_error_spec {A} (f : A → option string) l :
  is_Some (first_error f l) ↔ ∃ x, x ∈ l ∧ is_Some (f x).
Proof.
  induction l as [|x l IH]; simpl.
  { split; [intros [? ?]; done|set_solver]. }
  destruct (f x) eqn:E.
  - split; [|eauto]. intros _. exists x. rewrite E. set_solver.
  - rewrite IH. split; [set_solver|]. intros (y & [->|Hy]%elem_of_cons & Hf); [|eauto].
    rewrite E in Hf. by destruct Hf.
Qed.

Lemma addr_conflict_spec ipv4 ipv6 name addr :
  is_Some (addr_conflict ipv4 ipv6 name addr) ↔
  ∃ ip, addr = Some ip ∧ ip ≠ "" ∧ (ip = ipv4 ∨ ip = ipv6).
Proof.
  unfold addr_conflict. destruct addr as [ip|]; [|split; [by intros []|naive_solver]].
  destruct (String.eqb_spec ipv4 ""), (String.eqb_spec ip ipv4),
    (String.eqb_spec ipv6 ""), (String.eqb_spec ip ipv6); simpl; subst;
    (split; [intros; try (exists ip); naive_solver congruence
            |intros (? & ? & ? & ?); try done; naive_solver congruence]).
Qed.

(** a cold start is refused for an address conflict exactly when one of
    the tunnel's addresses is already on an interface that is up, is not the
    loopback and is not one of ours; when the interfaces cannot be listed the
    start goes ahead. *)
Theorem checkSystemAddressConflict_spec {S W : Type} `{!StoreOps S} `{!Executors W}
    `{GoUnicode} (ipv4 ipv6 : string) (exclude : list string) (o : Orch S W) :
  is_Some (checkSystemAddressConflict ipv4 ipv6 exclude o).1 ↔
  ∃ ifaces hooks w i addrs ip,
    net_Interfaces (o_world o) = (inr ifaces, hooks, w) ∧ i ∈ ifaces ∧
    ni_Loopback i = false ∧ ni_Up i = true ∧ ni_Name i ∉ exclude ∧
    ni_Addrs i = Some addrs ∧ Some ip ∈ addrs ∧ ip ≠ "" ∧ (ip = ipv4 ∨ ip = ipv6).
Proof.
  assert (∀ i, is_Some (iface_conflict ipv4 ipv6 exclude i) ↔ ∃ addrs ip,
    ni_Loopback i = false ∧ ni_Up i = true ∧ ni_Name i ∉ exclude ∧
    ni_Addrs i = Some addrs ∧ Some ip ∈ addrs ∧ ip ≠ "" ∧ (ip = ipv4 ∨ ip = ipv6)) as Hi.
  { intros i. unfold iface_conflict. destruct (ni_Loopback i), (ni_Up i); simpl;
      try (split; [by intros []|naive_solver]).
    case_bool_decide; [split; [by intros []|naive_solver]|].
    destruct (ni_Addrs i) as [addrs|]; [|split; [by intros []|naive_solver]].
    rewrite first_error_spec. setoid_rewrite addr_conflict_spec. naive_solver. }
  unfold checkSystemAddressConflict, mbind, ST_bind, call.
  destruct (String.eqb ipv4 "" && String.eqb ipv6 "") eqn:E.
  { to_prop. subst. simpl. split; [by intros []|naive_solver]. }
  destruct (net_Interfaces (o_world o)) as [[[e|ifaces] hooks] w]; simpl.
  { split; [by intros []|naive_solver]. }
  rewrite first_error_spec. setoid_rewrite Hi. naive_solver.
Qed.
