(* ===== verification/Backoff.v ===== *)
(** * Restart back-off of the sing-box engine ([internal/singbox/restart_backoff.go])

    Automatic restarts have a free budget over a sliding window; once it is
    exhausted each further request starts a pause that doubles up to a cap. *)
From S2P Require Import Prelude GoLib.

Definition restartFreeBudget : nat := 3.
Definition restartCrashWindow : Duration := (10 * Minute)%Z.
Definition restartBackoffBase : Duration := Minute.
Definition restartBackoffCap : Duration := (15 * Minute)%Z.
Definition restartHealthyRun : Duration := (5 * Minute)%Z.

(** [restartBackoff]; [b_denials] is a Go [int]; a denial takes at least a
    minute, so it cannot overflow within four thousand years. *)
Record restartBackoff := {
  b_attempts : list Time;
  b_suppressedUntil : Time;
  b_denials : Z;
  b_lastStart : Time;
}.
Definition zero_backoff : restartBackoff :=
  {| b_attempts := []; b_suppressedUntil := 0; b_denials := 0; b_lastStart := 0 |}%Z.

(** [restartToken]: the attempt, and whether it is settled. *)
Record restartToken := { tk_at : Time; tk_settled : bool }.

Definition set_attempts (l : list Time) (b : restartBackoff) : restartBackoff :=
  {| b_attempts := l; b_suppressedUntil := b_suppressedUntil b;
     b_denials := b_denials b; b_lastStart := b_lastStart b |}.

(** [x << n] on a 64-bit signed duration. *)
Definition int64_wrap (x : Z) : Z := ((x + 2 ^ 63) mod 2 ^ 64 - 2 ^ 63)%Z.
Definition int64_shl (x n : Z) : Z := int64_wrap (Z.shiftl x n).

Definition pause_for (denials : Z) : Duration :=
  let pause := int64_shl restartBackoffBase denials in
  if (restartBackoffCap <? pause)%Z || (pause <=? 0)%Z then restartBackoffCap else pause.

Definition prune (now : Time) (l : list Time) : list Time :=
  List.filter (λ t, (time_Sub now t <? restartCrashWindow)%Z) l.

(** The result: the token if allowed, the end of the pause, and whether this
    call started it. *)
Definition Allow (now : Time) (b : restartBackoff)
    : (option restartToken * Time * bool) * restartBackoff :=
  if (now <? b_suppressedUntil b)%Z then ((None, b_suppressedUntil b, false), b)
  else
    let b := set_attempts (prune now (b_attempts b)) b in
    if length (b_attempts b) <? restartFreeBudget then
      ((Some {| tk_at := now; tk_settled := false |}, 0%Z, false),
       set_attempts (b_attempts b ++ [now]) b)
    else
      let until := (now + pause_for (b_denials b))%Z in
      ((None, until, true),
       {| b_attempts := b_attempts b; b_suppressedUntil := until;
          b_denials := (b_denials b + 1)%Z; b_lastStart := b_lastStart b |}).

Definition Commit (tk : restartToken) : restartToken := {| tk_at := tk_at tk; tk_settled := true |}.

(** Removes the last attempt recorded at [at_]: the loop counts down. *)
Fixpoint remove_first (at_ : Time) (l : list Time) : list Time :=
  match l with
  | [] => []
  | t :: l => if (t =? at_)%Z then l else t :: remove_first at_ l
  end.
Definition remove_last (at_ : Time) (l : list Time) : list Time :=
  reverse (remove_first at_ (reverse l)).

Definition Rollback (tk : restartToken) (b : restartBackoff) : restartToken * restartBackoff :=
  if tk_settled tk then (tk, b)
  else (Commit tk, set_attempts (remove_last (tk_at tk) (b_attempts b)) b).

Definition NoteProcessStart (now : Time) (b : restartBackoff) : restartBackoff :=
  {| b_attempts := b_attempts b; b_suppressedUntil := b_suppressedUntil b;
     b_denials := b_denials b; b_lastStart := now |}.

Definition Reset (b : restartBackoff) : restartBackoff :=
  {| b_attempts := []; b_suppressedUntil := 0; b_denials := 0; b_lastStart := b_lastStart b |}%Z.

Definition NoteCrash (now : Time) (b : restartBackoff) : restartBackoff :=
  if negb (IsZero (b_lastStart b)) && (restartHealthyRun <=? time_Sub now (b_lastStart b))%Z
  then Reset b else b.

Definition SuppressedUntil (now : Time) (b : restartBackoff) : Time :=
  if (now <? b_suppressedUntil b)%Z then b_suppressedUntil b else 0%Z.

(** ** The pause *)

Lemma int64_shl_big x n : (64 ≤ n)%Z → int64_shl x n = 0%Z.
Proof.
  intros Hn. unfold int64_shl, int64_wrap. rewrite Z.shiftl_mul_pow2 by lia.
  replace n with (64 + (n - 64))%Z by lia. rewrite Z.pow_add_r by lia.
  replace (x * (2 ^ 64 * 2 ^ (n - 64)) + 2 ^ 63)%Z
    with (2 ^ 63 + x * 2 ^ (n - 64) * 2 ^ 64)%Z by ring.
  rewrite Z_mod_plus_full. reflexivity.
Qed.

Lemma pause_small :
  Forall (λ n, pause_for (Z.of_nat n) = Z.min (restartBackoffBase * 2 ^ Z.of_nat n) restartBackoffCap)
    (seq 0 64).
Proof. apply (bool_decide_unpack _). by vm_compute. Qed.

(** the k-th consecutive pause is the base doubled k times, bounded by the
    cap: the wrap-around of the 64-bit shift never produces a short pause. *)
Theorem pause_for_spec (k : Z) :
  (0 ≤ k)%Z →
  pause_for k = Z.min (restartBackoffBase * 2 ^ k) restartBackoffCap ∧
  (restartBackoffBase ≤ pause_for k ≤ restartBackoffCap)%Z.
Proof.
  intros Hk.
  assert (pause_for k = Z.min (restartBackoffBase * 2 ^ k) restartBackoffCap) as ->.
  { destruct (decide (k < 64)%Z) as [Hlt|Hge].
    - pose proof pause_small as H. rewrite Forall_forall in H.
      specialize (H (Z.to_nat k)). rewrite Z2Nat.id in H by done. apply H.
      apply elem_of_seq. lia.
    - unfold pause_for. rewrite int64_shl_big by lia.
      assert (2 ^ 64 ≤ 2 ^ k)%Z by (apply Z.pow_le_mono_r; lia).
      change (restartBackoffBase) with 60000000000%Z.
      change (restartBackoffCap) with 900000000000%Z. simpl. lia. }
  split; [done|]. assert (0 < 2 ^ k)%Z by (by apply Z.pow_pos_nonneg).
  change (restartBackoffBase) with 60000000000%Z.
  change (restartBackoffCap) with 900000000000%Z. lia.
Qed.

Lemma pause_for_spec_witness :
  (0 ≤ 28)%Z ∧ pause_for 28 = Z.min (restartBackoffBase * 2 ^ 28) restartBackoffCap ∧
  (restartBackoffBase ≤ pause_for 28 ≤ restartBackoffCap)%Z.
Proof. split; [lia|]. apply (pause_for_spec 28). lia. Defined.

(** ** The rate of automatic restarts *)

(** Allow calls at the given times, every token committed: the allowed ones. *)
Fixpoint allow_all (ts : list Time) (b : restartBackoff) : list Time * restartBackoff :=
  match ts with
  | [] => ([], b)
  | t :: ts =>
      let '((tk, _, _), b) := Allow t b in
      let '(l, b) := allow_all ts b in
      (match tk with Some _ => t :: l | None => l end, b)
  end.

(** [done]: the restarts allowed so far; the attempts are those of the window
    at the last pruning [m]. *)
Definition tracks (done : list Time) (m : Time) (b : restartBackoff) : Prop :=
  b_attempts b = prune m done ∧ Forall (λ t, (t ≤ m)%Z) done.

Lemma prune_in now t l : t ∈ prune now l ↔ t ∈ l ∧ (now - t < restartCrashWindow)%Z.
Proof.
  unfold prune. rewrite !list_elem_of_In, filter_In, Z.ltb_lt, time_Sub_lt; [done|].
  by vm_compute.
Qed.

Lemma prune_prune m n l : (m ≤ n)%Z → prune n (prune m l) = prune n l.
Proof.
  intros Hmn. induction l as [|t l IH]; simpl; [done|].
  destruct (_ <? _)%Z eqn:E; simpl; [by rewrite IH|].
  destruct (time_Sub n t <? restartCrashWindow)%Z eqn:E2; [|done].
  rewrite Z.ltb_lt, time_Sub_lt in E2 by by vm_compute.
  rewrite Z.ltb_ge in E. assert (¬ (time_Sub m t < restartCrashWindow)%Z) as E3 by lia.
  rewrite time_Sub_lt in E3 by by vm_compute. lia.
Qed.

Lemma Allow_tracks done m now b :
  tracks done m b → (m ≤ now)%Z →
  let '((tk, _, _), b') := Allow now b in
  match tk with
  | Some _ => length (prune now done) < restartFreeBudget ∧ tracks (done ++ [now]) now b'
  | None => ∃ m', (m ≤ m' ≤ now)%Z ∧ tracks done m' b'
  end.
Proof.
  intros [Ha Hd] Hm. unfold Allow.
  destruct (now <? b_suppressedUntil b)%Z; [by exists m|]. simpl.
  assert (Forall (λ t, (t ≤ now)%Z) done) as Hd' by (eapply Forall_impl; [exact Hd|]; simpl; lia).
  rewrite Ha, prune_prune by done.
  destruct (_ <? _) eqn:E; simpl.
  - apply Nat.ltb_lt in E. split; [done|]. split; [|apply Forall_app; by repeat constructor].
    unfold prune. rewrite List.filter_app. simpl.
    rewrite (proj2 (Z.ltb_lt _ _)); [done|]. rewrite time_Sub_lt by by vm_compute.
    rewrite Z.sub_diag. by vm_compute.
  - exists now. split; [lia|]. by split.
Qed.

(** Increasing times: those allowed along a run stay apart. *)
Lemma allow_all_tracks ts : ∀ done m b,
  tracks done m b → StronglySorted Z.le (m :: ts) →
  ∀ l1 a l2, (allow_all ts b).1 = l1 ++ a :: l2 →
    length (prune a (done ++ l1)) < restartFreeBudget ∧ (m ≤ a)%Z ∧
    Forall (λ t, (t ≤ a)%Z) (done ++ l1).
Proof.
  induction ts as [|n ts IH]; intros done m b Ht Hs l1 a l2 Hl; simpl in Hl; [by destruct l1|].
  inversion Hs as [|? ? Hs' Hm]; subst. apply Forall_cons in Hm as [Hmn _].
  pose proof (Allow_tracks done m n b Ht Hmn) as Ha.
  destruct (Allow n b) as [[[[tk|] u] nb] b'].
  - destruct Ha as [Hlen Ht']. specialize (IH _ _ _ Ht' Hs').
    destruct (allow_all ts b') as [l bf]. simpl in *.
    destruct l1 as [|x l1]; simplify_eq/=.
    + rewrite app_nil_r. split_and!; [done|done|].
      eapply Forall_impl; [apply Ht|]. simpl. lia.
    + destruct (IH l1 a l2 eq_refl) as (H1 & H2 & H3).
      rewrite <- (assoc_L (++)) in H1, H3. simpl in *. split_and!; [done|lia|done].
  - destruct Ha as (m' & Hm' & Ht').
    assert (StronglySorted Z.le (m' :: ts)) as Hs''.
    { inversion Hs'; subst. constructor; [done|]. eapply Forall_impl; [eassumption|].
      simpl. lia. }
    specialize (IH _ _ _ Ht' Hs'').
    destruct (allow_all ts b') as [l bf]. simpl in *. subst l.
    destruct (IH l1 a l2 eq_refl) as (H1 & H2 & H3). split_and!; [done|lia|done].
Qed.

(** However often the watchdogs ask, at most [restartFreeBudget] automatic
    restarts are allowed in any [restartCrashWindow]: four allowed restarts
    always span ten minutes or more. *)
Theorem restart_rate_limited (ts : list Time) (l1 l2 l3 l4 l5 : list Time) (a b c d : Time) :
  StronglySorted Z.le (0%Z :: ts) →
  (allow_all ts zero_backoff).1 = l1 ++ a :: l2 ++ b :: l3 ++ c :: l4 ++ d :: l5 →
  (restartCrashWindow ≤ d - a)%Z.
Proof.
  intros Hs Hl.
  assert (tracks [] 0%Z zero_backoff) as Ht by (by split).
  destruct (allow_all_tracks ts _ _ _ Ht Hs (l1 ++ a :: l2 ++ b :: l3 ++ c :: l4) d l5)
    as (Hlen & _ & Hle).
  { by rewrite Hl, <- !(assoc_L (++)); simpl; rewrite <- !(assoc_L (++)); simpl;
      rewrite <- !(assoc_L (++)). }
  simpl in Hlen.
  destruct (decide (restartCrashWindow ≤ d - a)%Z) as [|Hlt]; [done|exfalso].
  destruct (allow_all_tracks ts _ _ _ Ht Hs l1 a (l2 ++ b :: l3 ++ c :: l4 ++ d :: l5))
    as (_ & _ & _); [done|].
  destruct (allow_all_tracks ts _ _ _ Ht Hs (l1 ++ a :: l2) b (l3 ++ c :: l4 ++ d :: l5))
    as (_ & _ & Hb); [by rewrite Hl, <- (assoc_L (++))|].
  destruct (allow_all_tracks ts _ _ _ Ht Hs (l1 ++ a :: l2 ++ b :: l3) c (l4 ++ d :: l5))
    as (_ & _ & Hc); [by rewrite Hl, <- !(assoc_L (++)); simpl; rewrite <- !(assoc_L (++))|].
  simpl in Hb, Hc. decompose_Forall_hyps.
  unfold prune in Hlen. rewrite !List.filter_app in Hlen. simpl in Hlen.
  rewrite !List.filter_app in Hlen. simpl in Hlen. rewrite !List.filter_app in Hlen. simpl in Hlen.
  assert (∀ t, (a ≤ t)%Z → (time_Sub d t <? restartCrashWindow)%Z = true) as Hin.
  { intros t Hta. apply Z.ltb_lt, time_Sub_lt; [by vm_compute|lia]. }
  rewrite !Hin in Hlen by lia. rewrite !length_app in Hlen. simpl in Hlen.
  rewrite !length_app in Hlen. simpl in Hlen. rewrite !length_app in Hlen. simpl in Hlen.
  unfold restartFreeBudget in Hlen. lia.
Qed.

Lemma restart_rate_limited_witness :
  let t k := (1000 * Hour + k * Minute)%Z in
  let ts := [t 0; t 1; t 2; t 3; t 4; t 20]%Z in
  StronglySorted Z.le (0%Z :: ts) ∧
  (allow_all ts zero_backoff).1 = [t 0; t 1; t 2; t 20]%Z ∧
  (restartCrashWindow ≤ t 20 - t 0)%Z.
Proof.
  split_and!; [apply (bool_decide_unpack _); by vm_compute|by vm_compute|].
  apply (restart_rate_limited
    [1000 * Hour + 0 * Minute; 1000 * Hour + 1 * Minute; 1000 * Hour + 2 * Minute;
     1000 * Hour + 3 * Minute; 1000 * Hour + 4 * Minute; 1000 * Hour + 20 * Minute]%Z
    [] [] [] [] [] _ (1000 * Hour + 1 * Minute)%Z (1000 * Hour + 2 * Minute)%Z);
    [apply (bool_decide_unpack _); by vm_compute|by vm_compute].
Defined.

(** ** Recovery *)

(** The states reachable by calls at increasing times; [m] is the last one. *)
Inductive reach : Time → restartBackoff → Prop :=
  | reach_zero : reach 0%Z zero_backoff
  | reach_allow m n b : reach m b → (m ≤ n)%Z → reach n (Allow n b).2
  | reach_start m n b : reach m b → (m ≤ n)%Z → reach n (NoteProcessStart n b)
  | reach_crash m n b : reach m b → (m ≤ n)%Z → reach n (NoteCrash n b)
  | reach_reset m b : reach m b → reach m (Reset b)
  | reach_rollback m tk b : reach m b → reach m (Rollback tk b).2.

Definition bounded (m : Time) (b : restartBackoff) : Prop :=
  Forall (λ t, (t ≤ m)%Z) (b_attempts b) ∧ (b_suppressedUntil b ≤ m + restartBackoffCap)%Z ∧
  (0 ≤ b_denials b)%Z.

Lemma remove_first_incl at_ l t : t ∈ remove_first at_ l → t ∈ l.
Proof. induction l as [|x l IH]; simpl; [done|]. case_match; set_solver. Qed.

Lemma bounded_mono m n b : bounded m b → (m ≤ n)%Z → bounded n b.
Proof.
  intros (Ha & Hs & Hd) Hmn. split_and!; [|lia|done].
  eapply Forall_impl; [exact Ha|]. simpl. lia.
Qed.

Lemma bounded_reset m b : (0 ≤ m)%Z → bounded m (Reset b).
Proof. intros Hm. split_and!; [constructor| |done]. unfold restartBackoffCap, Minute, Second. simpl. lia. Qed.

Lemma prune_Forall (P : Time → Prop) n l : Forall P l → Forall P (prune n l).
Proof. rewrite !Forall_forall. intros H t [Ht _]%prune_in. by apply H. Qed.

Lemma bounded_allow n b : bounded n b → bounded n (Allow n b).2.
Proof.
  intros (Ha & Hs & Hd). unfold Allow. case_match; [done|]. simpl.
  case_match; simpl; split_and!; simpl; try done; [|by apply prune_Forall| |lia].
  - apply Forall_app. split; [by apply prune_Forall|by repeat constructor].
  - assert (pause_for (b_denials b) ≤ restartBackoffCap)%Z; [|lia].
    unfold pause_for. destruct (_ || _) eqn:E; [done|]. to_prop. lia.
Qed.

Lemma reach_bounded m b : reach m b → (0 ≤ m)%Z ∧ bounded m b.
Proof.
  induction 1 as [|m n b _ [Hm IH] Hn|m n b _ [Hm IH] Hn|m n b _ [Hm IH] Hn
                 |m b _ [Hm IH]|m tk b _ [Hm IH]].
  - split; [done|]. split_and!; [constructor|by vm_compute|done].
  - split; [lia|]. by apply bounded_allow, (bounded_mono m).
  - split; [lia|]. by apply (bounded_mono m n b).
  - split; [lia|]. unfold NoteCrash. case_match; [by apply bounded_reset; lia|].
    by apply (bounded_mono m).
  - split; [done|]. by apply bounded_reset.
  - split; [done|]. unfold Rollback. destruct IH as (Ha & Hs & Hd).
    case_match; [by split_and!|]. split_and!; [|done..]. simpl.
    rewrite Forall_forall in Ha |- *. intros t Ht. apply Ha. unfold remove_last in Ht.
    rewrite elem_of_reverse in Ht. apply remove_first_incl in Ht. by rewrite elem_of_reverse in Ht.
Qed.

(** the engine is never given up: in every reachable state, a restart asked
    for at least one cap (15 minutes) after the last call is allowed. *)
Theorem restart_recovers (m n : Time) (b : restartBackoff) :
  reach m b → (m + restartBackoffCap ≤ n)%Z →
  (Allow n b).1 = (Some {| tk_at := n; tk_settled := false |}, 0%Z, false).
Proof.
  intros Hr Hn. destruct (reach_bounded m b Hr) as (_ & Ha & Hs & _).
  unfold Allow. rewrite (proj2 (Z.ltb_ge _ _)) by lia. simpl.
  assert (prune n (b_attempts b) = []) as ->; [|done].
  destruct (prune n (b_attempts b)) as [|t l] eqn:E; [done|exfalso].
  assert (t ∈ prune n (b_attempts b)) as Ht by (rewrite E; set_solver).
  apply prune_in in Ht as [Ht Hlt]. rewrite Forall_forall in Ha. specialize (Ha t Ht). simpl in Ha.
  change restartBackoffCap with 900000000000%Z in Hn.
  change restartCrashWindow with 600000000000%Z in Hlt. lia.
Qed.

Lemma restart_recovers_witness :
  let b := (allow_all [1; 2; 3; 4]%Z zero_backoff).2 in
  b_suppressedUntil b = (4 + Minute)%Z ∧
  (Allow (16 * Minute) b).1 = (Some {| tk_at := (16 * Minute)%Z; tk_settled := false |}, 0%Z, false).
Proof.
  split; [reflexivity|].
  apply (restart_recovers 4%Z); [|by vm_compute].
  apply (reach_allow 3 4 (allow_all [1; 2; 3]%Z zero_backoff).2); [|done].
  apply (reach_allow 2 3 (allow_all [1; 2]%Z zero_backoff).2); [|done].
  apply (reach_allow 1 2 (allow_all [1]%Z zero_backoff).2); [|done].
  apply (reach_allow 0 1 zero_backoff); [|done]. apply reach_zero.
Defined.

(** a restart that turned out to be unnecessary costs nothing: rolling the
    token back undoes exactly the attempt its Allow recorded, and settling it
    again changes nothing. *)
Theorem rollback_refunds (now : Time) (b b' : restartBackoff) tk u nb :
  Allow now b = ((Some tk, u, nb), b') →
  let '(tk', b'') := Rollback tk b' in
  b'' = set_attempts (prune now (b_attempts b)) b ∧ Rollback tk' b'' = (tk', b'').
Proof.
  unfold Allow. destruct (_ <? _)%Z; [done|]. destruct (_ <? _) eqn:E; [|done].
  intros H. injection H as <- _ _ <-. unfold Rollback. simpl.
  unfold remove_last. rewrite reverse_app. simpl. rewrite Z.eqb_refl, reverse_involutive.
  by split.
Qed.

Lemma rollback_refunds_witness :
  let '((tk, _, _), b') := Allow 7%Z zero_backoff in
  ∃ tk0, tk = Some tk0 ∧ (Rollback tk0 b').2 = zero_backoff.
Proof.
  simpl. eexists. split; [reflexivity|].
  pose proof (rollback_refunds 7%Z zero_backoff _ _ _ _ eq_refl) as H.
  destruct (Rollback _ _) as [tk' b'']. destruct H as [-> _]. reflexivity.
Defined.
