(* ===== verification/Throttle.v ===== *)
(** * The login throttle ([internal/auth/throttle.go])

    The per-IP guard of the login handler, and the protocol in which
    [internal/api/auth.go] uses it (Begin; verification; Fail or Success; Done)
    as a step relation over concurrent attempts. *)
From S2P Require Import Prelude GoLib.

Definition throttleMaxFailures : Z := 5.
Definition throttleBlockDuration : Duration := (30 * Second)%Z.
Definition throttleSweepInterval : Duration := (5 * Minute)%Z.
Definition throttleEntryTTL : Duration := (10 * Minute)%Z.

Record throttleEntry := {
  te_failures : Z;
  te_inFlight : Z;
  te_blockedUntil : Time;
  te_lastSeen : Time;
}.

Record LoginThrottle := {
  th_entries : gmap string throttleEntry;
  th_lastSweep : Time;
}.

Definition NewLoginThrottle : LoginThrottle := {| th_entries := ∅; th_lastSweep := 0 |}.

Definition zero_entry : throttleEntry :=
  {| te_failures := 0; te_inFlight := 0; te_blockedUntil := 0; te_lastSeen := 0 |}%Z.

Definition set_entries (m : gmap string throttleEntry) (t : LoginThrottle) : LoginThrottle :=
  {| th_entries := m; th_lastSweep := th_lastSweep t |}.
Definition put_entry (ip : string) (e : throttleEntry) (t : LoginThrottle) : LoginThrottle :=
  set_entries (<[ip := e]> (th_entries t)) t.

(** An entry idle past its TTL and not blocked. *)
Definition stale (now : Time) (e : throttleEntry) : bool :=
  (throttleEntryTTL <? time_Sub now (te_lastSeen e))%Z && negb (now <? te_blockedUntil e)%Z.

Definition sweepLocked (now : Time) (t : LoginThrottle) : LoginThrottle :=
  if (time_Sub now (th_lastSweep t) <? throttleSweepInterval)%Z then t
  else {| th_entries := filter (λ p, stale now p.2 = false) (th_entries t);
          th_lastSweep := now |}.

Definition entry (ip : string) (t : LoginThrottle) : throttleEntry :=
  default zero_entry (th_entries t !! ip).

(** The result: how long to wait, and whether the IP is blocked. *)
Definition Check (now : Time) (ip : string) (t : LoginThrottle) : (Duration * bool) * LoginThrottle :=
  let t := sweepLocked now t in
  match th_entries t !! ip with
  | None => ((0%Z, false), t)
  | Some e =>
      let remaining := time_Sub (te_blockedUntil e) now in
      if (0 <? remaining)%Z then ((remaining, true), t) else ((0%Z, false), t)
  end.

(** An elapsed block leaves one failure to the limit. *)
Definition reopen (e : throttleEntry) : throttleEntry :=
  if IsZero (te_blockedUntil e) then e
  else {| te_failures := throttleMaxFailures - 1; te_inFlight := te_inFlight e;
          te_blockedUntil := 0; te_lastSeen := te_lastSeen e |}%Z.

Definition Begin (now : Time) (ip : string) (t : LoginThrottle) : (Duration * bool) * LoginThrottle :=
  let t := sweepLocked now t in
  let e := entry ip t in
  let remaining := time_Sub (te_blockedUntil e) now in
  if (0 <? remaining)%Z then ((remaining, true), put_entry ip e t)
  else
    let e := reopen e in
    if (throttleMaxFailures <=? te_failures e + te_inFlight e)%Z
    then ((throttleBlockDuration, true), put_entry ip e t)
    else ((0%Z, false),
          put_entry ip {| te_failures := te_failures e; te_inFlight := te_inFlight e + 1;
                          te_blockedUntil := te_blockedUntil e; te_lastSeen := now |}%Z t).

Definition Done (ip : string) (t : LoginThrottle) : LoginThrottle :=
  match th_entries t !! ip with
  | None => t
  | Some e =>
      let n := if (0 <? te_inFlight e)%Z then (te_inFlight e - 1)%Z else te_inFlight e in
      if (n =? 0)%Z && (te_failures e =? 0)%Z && IsZero (te_blockedUntil e)
      then set_entries (delete ip (th_entries t)) t
      else put_entry ip {| te_failures := te_failures e; te_inFlight := n;
                           te_blockedUntil := te_blockedUntil e;
                           te_lastSeen := te_lastSeen e |} t
  end.

Definition Fail (now : Time) (ip : string) (t : LoginThrottle) : bool * LoginThrottle :=
  let t := sweepLocked now t in
  let e := entry ip t in
  let n := (te_failures e + 1)%Z in
  if (throttleMaxFailures <=? n)%Z then
    ((te_blockedUntil e <? now)%Z || IsZero (te_blockedUntil e),
     put_entry ip {| te_failures := n; te_inFlight := te_inFlight e;
                     te_blockedUntil := (now + throttleBlockDuration)%Z;
                     te_lastSeen := now |} t)
  else
    (false, put_entry ip {| te_failures := n; te_inFlight := te_inFlight e;
                            te_blockedUntil := te_blockedUntil e; te_lastSeen := now |} t).

Definition Success (ip : string) (t : LoginThrottle) : LoginThrottle :=
  match th_entries t !! ip with
  | None => t
  | Some e =>
      if (te_inFlight e <=? 0)%Z then set_entries (delete ip (th_entries t)) t
      else put_entry ip {| te_failures := 0; te_inFlight := te_inFlight e;
                           te_blockedUntil := 0; te_lastSeen := te_lastSeen e |}%Z t
  end.

(** ** The login protocol

    An admitted attempt is verified, then settled (failed or succeeded), then
    done; a rejected request body goes from admitted to done directly. *)
Record attempt := { at_ip : string; at_begin : Time; at_settled : bool }.

Record logins := { lg_th : LoginThrottle; lg_att : list attempt; lg_now : Time }.

Definition settle (a : attempt) : attempt :=
  {| at_ip := at_ip a; at_begin := at_begin a; at_settled := true |}.

(** No attempt outlives the TTL of its entry.  The check of the credentials is bounded by
    the timeouts of the router client, far below ten minutes; the body of the request,
    which the handler reads after [Begin], is not: see [slow_bodies_pass_limit]. *)
Definition timely (now : Time) (l : list attempt) : Prop :=
  Forall (λ a, (now - at_begin a ≤ throttleEntryTTL)%Z) l.

Inductive login_step : logins → logins → Prop :=
  | L_begin n ip th att m :
      (m ≤ n)%Z → timely n att → (Begin n ip th).1.2 = false →
      login_step {| lg_th := th; lg_att := att; lg_now := m |}
        {| lg_th := (Begin n ip th).2;
           lg_att := {| at_ip := ip; at_begin := n; at_settled := false |} :: att; lg_now := n |}
  | L_refused n ip th att m :
      (m ≤ n)%Z → timely n att → (Begin n ip th).1.2 = true →
      login_step {| lg_th := th; lg_att := att; lg_now := m |}
        {| lg_th := (Begin n ip th).2; lg_att := att; lg_now := n |}
  | L_fail n th l1 a l2 m :
      (m ≤ n)%Z → timely n (l1 ++ a :: l2) → at_settled a = false →
      login_step {| lg_th := th; lg_att := l1 ++ a :: l2; lg_now := m |}
        {| lg_th := (Fail n (at_ip a) th).2; lg_att := l1 ++ settle a :: l2; lg_now := n |}
  | L_success th l1 a l2 m :
      at_settled a = false →
      login_step {| lg_th := th; lg_att := l1 ++ a :: l2; lg_now := m |}
        {| lg_th := Success (at_ip a) th; lg_att := l1 ++ settle a :: l2; lg_now := m |}
  | L_done th l1 a l2 m :
      login_step {| lg_th := th; lg_att := l1 ++ a :: l2; lg_now := m |}
        {| lg_th := Done (at_ip a) th; lg_att := l1 ++ l2; lg_now := m |}.

(** The throttle of a running daemon: clock readings are after year 1. *)
Definition start : logins := {| lg_th := NewLoginThrottle; lg_att := []; lg_now := 1 |}.

Definition of_ip (ip : string) (l : list attempt) : list attempt :=
  filter (λ a, at_ip a = ip) l.
(** The attempts whose credentials may still be under verification. *)
Definition verifying (ip : string) (l : list attempt) : list attempt :=
  filter (λ a, at_ip a = ip ∧ at_settled a = false) l.

(** ** The invariant *)

Definition entry_ok (now : Time) (att : list attempt) (ip : string) (e : throttleEntry) : Prop :=
  te_inFlight e = Z.of_nat (length (of_ip ip att)) ∧
  (0 ≤ te_failures e)%Z ∧
  (te_failures e + Z.of_nat (length (verifying ip att)) ≤ throttleMaxFailures)%Z ∧
  (te_blockedUntil e ≠ 0%Z ↔ te_failures e = throttleMaxFailures) ∧
  (te_blockedUntil e ≠ 0%Z → te_blockedUntil e = te_lastSeen e + throttleBlockDuration)%Z ∧
  (te_lastSeen e ≤ now)%Z ∧
  Forall (λ a, (at_begin a ≤ te_lastSeen e)%Z) (of_ip ip att).

Definition logins_ok (s : logins) : Prop :=
  (0 < lg_now s)%Z ∧ ∀ ip, entry_ok (lg_now s) (lg_att s) ip (entry ip (lg_th s)).

Lemma entry_put ip ip' e t : entry ip (put_entry ip' e t) = if decide (ip = ip') then e else entry ip t.
Proof.
  unfold entry, put_entry. simpl. rewrite lookup_insert.
  destruct (decide (ip' = ip)), (decide (ip = ip')); by subst.
Qed.

Lemma entry_delete ip ip' t :
  entry ip (set_entries (delete ip' (th_entries t)) t) =
  if decide (ip = ip') then zero_entry else entry ip t.
Proof.
  unfold entry. simpl. rewrite lookup_delete.
  destruct (decide (ip' = ip)), (decide (ip = ip')); by subst.
Qed.

Lemma entry_sweep now ip t :
  entry ip (sweepLocked now t) = entry ip t ∨
  (stale now (entry ip t) = true ∧ entry ip (sweepLocked now t) = zero_entry).
Proof.
  unfold sweepLocked. case_match; [by left|]. unfold entry. simpl.
  rewrite map_lookup_filter. destruct (th_entries t !! ip) as [e|]; simpl; [|by left].
  destruct (stale now e) eqn:Es; [right|left]; case_guard; simpl in *; by try congruence.
Qed.

Lemma verifying_of_ip ip l : length (verifying ip l) ≤ length (of_ip ip l).
Proof.
  unfold verifying, of_ip. induction l as [|a l IH]; [done|].
  rewrite !filter_cons. repeat case_decide; simpl; try lia. naive_solver.
Qed.

Lemma of_ip_nil_verifying ip l : of_ip ip l = [] → verifying ip l = [].
Proof. intros H. pose proof (verifying_of_ip ip l) as Hl. rewrite H in Hl. destruct (verifying ip l); [done|simpl in Hl; lia]. Qed.

Lemma zero_ok now att ip : (0 ≤ now)%Z → of_ip ip att = [] → entry_ok now att ip zero_entry.
Proof.
  intros Hn H. unfold entry_ok. rewrite H, of_ip_nil_verifying by done. simpl.
  split_and!; [done|done|by unfold throttleMaxFailures|by split|done|done|done].
Qed.

(** Time passes, the sweep runs. *)
Lemma sweep_ok now m att ip t :
  (0 ≤ m ≤ now)%Z → timely now att → entry_ok m att ip (entry ip t) → entry_ok now att ip (entry ip (sweepLocked now t)).
Proof.
  intros Hm Ht Hok. destruct (entry_sweep now ip t) as [->|[Hs ->]].
  { destruct Hok as (? & ? & ? & ? & ? & ? & ?). split_and!; try done; lia. }
  apply zero_ok; [lia|]. destruct Hok as (_ & _ & _ & _ & _ & _ & Hseen).
  destruct (of_ip ip att) as [|a l] eqn:E; [done|exfalso].
  apply Forall_cons in Hseen as [Ha _].
  assert (a ∈ of_ip ip att) as [_ Hin]%list_elem_of_filter by (rewrite E; set_solver).
  unfold timely in Ht. rewrite Forall_forall in Ht. specialize (Ht a Hin). simpl in Ht.
  unfold stale in Hs. to_prop.
  assert (throttleEntryTTL < now - te_lastSeen (entry ip t))%Z; [|lia].
  apply (time_Sub_gt now (te_lastSeen (entry ip t)) throttleEntryTTL); [by vm_compute|done].
Qed.

Lemma of_ip_mid ip l1 a l2 :
  of_ip ip (l1 ++ a :: l2) = of_ip ip l1 ++ (if decide (at_ip a = ip) then [a] else []) ++ of_ip ip l2.
Proof. unfold of_ip. rewrite filter_app, filter_cons. by case_decide. Qed.

Lemma verifying_mid ip l1 a l2 :
  verifying ip (l1 ++ a :: l2) =
  verifying ip l1 ++ (if decide (at_ip a = ip ∧ at_settled a = false) then [a] else []) ++ verifying ip l2.
Proof. unfold verifying. rewrite filter_app, filter_cons. by case_decide. Qed.

(** Settling an attempt of another IP changes nothing for this one. *)
Lemma entry_ok_ext now att att' ip e :
  length (of_ip ip att') = length (of_ip ip att) →
  length (verifying ip att') = length (verifying ip att) →
  (∀ P : Time → Prop, Forall (λ a, P (at_begin a)) (of_ip ip att) →
                      Forall (λ a, P (at_begin a)) (of_ip ip att')) →
  entry_ok now att ip e → entry_ok now att' ip e.
Proof.
  unfold entry_ok. intros -> -> HF (? & ? & ? & ? & ? & ? & Hs). split_and!; try done.
  by apply (HF (λ t, (t ≤ te_lastSeen e)%Z)).
Qed.

(** The effect of every operation on the entry of each IP. *)
Lemma entry_Fail n ip ip' t :
  entry ip (Fail n ip' t).2 =
  let e := entry ip (sweepLocked n t) in
  if decide (ip = ip') then
    {| te_failures := te_failures e + 1; te_inFlight := te_inFlight e;
       te_blockedUntil := if (throttleMaxFailures <=? te_failures e + 1)%Z
                          then n + throttleBlockDuration else te_blockedUntil e;
       te_lastSeen := n |}%Z
  else e.
Proof.
  cbv zeta. unfold Fail. case_decide as Hip; [subst ip'|];
    destruct (throttleMaxFailures <=? _)%Z; simpl; rewrite entry_put; by case_decide.
Qed.

Lemma entry_Success ip ip' t :
  entry ip (Success ip' t) =
  if decide (ip = ip') then
    match th_entries t !! ip with
    | Some e => if (te_inFlight e <=? 0)%Z then zero_entry
                else {| te_failures := 0; te_inFlight := te_inFlight e;
                        te_blockedUntil := 0; te_lastSeen := te_lastSeen e |}%Z
    | None => zero_entry
    end
  else entry ip t.
Proof.
  unfold Success. case_decide as Hip; subst.
  - destruct (th_entries t !! ip') as [e|] eqn:E; [|unfold entry; by rewrite E].
    case_match; [rewrite entry_delete|rewrite entry_put]; by case_decide.
  - repeat case_match; rewrite ?entry_delete, ?entry_put; by rewrite ?decide_False.
Qed.

Lemma entry_Done ip ip' t :
  te_inFlight (entry ip' t) ≠ 0%Z → (0 ≤ te_inFlight (entry ip' t))%Z →
  let e := entry ip t in
  let e1 := {| te_failures := te_failures e; te_inFlight := te_inFlight e - 1;
               te_blockedUntil := te_blockedUntil e; te_lastSeen := te_lastSeen e |}%Z in
  entry ip (Done ip' t) =
  if decide (ip = ip') then
    if (te_inFlight e1 =? 0)%Z && (te_failures e =? 0)%Z && IsZero (te_blockedUntil e)
    then zero_entry else e1
  else e.
Proof.
  intros Hne Hge. cbv zeta. unfold Done.
  destruct (th_entries t !! ip') as [e|] eqn:E; [|unfold entry in Hne; by rewrite E in Hne].
  assert (entry ip' t = e) as He by (unfold entry; by rewrite E).
  rewrite He in Hne, Hge. rewrite (proj2 (Z.ltb_lt 0 (te_inFlight e))) by lia.
  case_decide as Hip; subst; [simpl|];
    (case_match; [rewrite entry_delete|rewrite entry_put]; by case_decide).
Qed.

Lemma reopen_ok n att ip e :
  entry_ok n att ip e → entry_ok n att ip (reopen e) ∧ te_blockedUntil (reopen e) = 0%Z.
Proof.
  intros (Hf & H0 & Hv & Hb & Hl & Hn & Hs). unfold reopen, IsZero.
  destruct (Z.eqb_spec (te_blockedUntil e) 0) as [Hz|Hz]; [by split|].
  apply Hb in Hz. split; [|done]. unfold entry_ok, throttleMaxFailures in *. simpl.
  split_and!; [done|lia|lia|lia|lia|done|done].
Qed.

(** Putting back an entry that is fine for its IP. *)
Lemma put_ok n att ip e t :
  (∀ ip', ip' ≠ ip → entry_ok n att ip' (entry ip' t)) → entry_ok n att ip e →
  ∀ ip', entry_ok n att ip' (entry ip' (put_entry ip e t)).
Proof. intros Hoth He ip'. rewrite entry_put. case_decide; [by subst|by apply Hoth]. Qed.

Lemma attempt_other ip a att n e :
  at_ip a ≠ ip → entry_ok n att ip e → entry_ok n (a :: att) ip e.
Proof.
  intros Hne He. unfold entry_ok, of_ip, verifying in *.
  by rewrite !filter_cons_False by naive_solver.
Qed.

Lemma begin_ok s n ip :
  logins_ok s → (lg_now s ≤ n)%Z → timely n (lg_att s) →
  let '((_, blocked), th) := Begin n ip (lg_th s) in
  logins_ok {| lg_th := th; lg_now := n;
    lg_att := if blocked then lg_att s
              else {| at_ip := ip; at_begin := n; at_settled := false |} :: lg_att s |}.
Proof.
  intros [Hpos Hok] Hn Ht. unfold Begin. set (t := sweepLocked n (lg_th s)).
  assert (∀ ip', entry_ok n (lg_att s) ip' (entry ip' t)) as He 
    by (intros; eapply sweep_ok; [split; [|exact Hn]; lia|done|apply Hok]).
  destruct (0 <? _)%Z eqn:Er.
  { split; [simpl; lia|]. apply put_ok; auto. }
  destruct (reopen_ok n _ _ _ (He ip)) as [Hr Hz].
  destruct (throttleMaxFailures <=? _)%Z eqn:El; (split; [simpl; lia|]); simpl.
  { apply put_ok; auto. }
  apply put_ok; [intros ip' Hne; by apply attempt_other|].
  destruct Hr as (Hf & H0 & Hv & Hb & Hl & Hls & Hs). to_prop. rewrite Hz in *.
  unfold entry_ok. simpl. unfold of_ip, verifying in *. rewrite !filter_cons_True by done.
  pose proof (verifying_of_ip ip (lg_att s)) as Hle. unfold of_ip, verifying in Hle.
  rewrite Hf in *. simpl.
  split_and!; [lia|done|lia|split; [done|]; lia|done|lia|].
  apply Forall_cons. simpl. split; [lia|].
  eapply Forall_impl; [exact Hs|]. simpl. lia.
Qed.

Lemma settle_counts ip l1 a l2 :
  at_settled a = false →
  of_ip ip (l1 ++ settle a :: l2) = of_ip ip l1 ++ (if decide (at_ip a = ip) then [settle a] else []) ++ of_ip ip l2 ∧
  length (of_ip ip (l1 ++ settle a :: l2)) = length (of_ip ip (l1 ++ a :: l2)) ∧
  length (verifying ip (l1 ++ a :: l2)) =
    (length (verifying ip (l1 ++ settle a :: l2)) + (if decide (at_ip a = ip) then 1 else 0))%nat.
Proof.
  intros Ha. split; [exact (of_ip_mid ip l1 (settle a) l2)|]. rewrite !of_ip_mid, !verifying_mid, !length_app. simpl.
  rewrite Ha. split; repeat case_decide; simpl; try lia; naive_solver.
Qed.

Lemma settle_begins (P : Time → Prop) ip l1 a l2 :
  Forall (λ a, P (at_begin a)) (of_ip ip (l1 ++ a :: l2)) →
  Forall (λ a, P (at_begin a)) (of_ip ip (l1 ++ settle a :: l2)).
Proof.
  rewrite !of_ip_mid, !Forall_app. simpl. intros (H1 & H2 & H3). split_and!; [done| |done].
  case_decide; [|done]. apply Forall_cons in H2 as [H2 _]. by constructor.
Qed.

Lemma settle_other n ip l1 a l2 e :
  at_settled a = false → at_ip a ≠ ip →
  entry_ok n (l1 ++ a :: l2) ip e → entry_ok n (l1 ++ settle a :: l2) ip e.
Proof.
  intros Ha Hne. destruct (settle_counts ip l1 a l2 Ha) as (_ & Hf & Hv).
  apply entry_ok_ext; [done|by rewrite Hv, decide_False, Nat.add_0_r by done|].
  intros P. apply settle_begins.
Qed.

Lemma fail_ok n th l1 a l2 m :
  logins_ok {| lg_th := th; lg_att := l1 ++ a :: l2; lg_now := m |} →
  (m ≤ n)%Z → timely n (l1 ++ a :: l2) → at_settled a = false →
  logins_ok {| lg_th := (Fail n (at_ip a) th).2; lg_att := l1 ++ settle a :: l2; lg_now := n |}.
Proof.
  intros [Hpos Hok] Hn Ht Ha. simpl in *. split; [simpl; lia|]. intros ip. simpl.
  rewrite entry_Fail. cbv zeta.
  assert (entry_ok n (l1 ++ a :: l2) ip (entry ip (sweepLocked n th))) as He
    by (eapply sweep_ok; [split; [|exact Hn]; lia|done|apply Hok]).
  case_decide as Hip; [|by apply settle_other]. subst ip.
  destruct (settle_counts (at_ip a) l1 a l2 Ha) as (_ & Hf & Hv).
  rewrite decide_True in Hv by done.
  destruct He as (Hi & H0 & Hle & Hb & Hl & Hls & Hs).
  set (e := entry (at_ip a) (sweepLocked n th)) in *.
  unfold entry_ok, throttleMaxFailures in *. split_and!; simpl; [by rewrite Hf|lia|lia| | |lia|].
  - destruct (Z.leb_spec 5 (te_failures e + 1)); [|lia].
    assert (te_failures e = 4)%Z by lia. unfold throttleBlockDuration, Second. split; lia.
  - destruct (Z.leb_spec 5 (te_failures e + 1)); lia.
  - apply (settle_begins (λ t, (t ≤ n)%Z)). eapply Forall_impl; [exact Hs|]. simpl. lia.
Qed.

Lemma success_ok th l1 a l2 m :
  logins_ok {| lg_th := th; lg_att := l1 ++ a :: l2; lg_now := m |} → at_settled a = false →
  logins_ok {| lg_th := Success (at_ip a) th; lg_att := l1 ++ settle a :: l2; lg_now := m |}.
Proof.
  intros [Hpos Hok] Ha. simpl in *. split; [done|]. intros ip. simpl. rewrite entry_Success.
  pose proof (Hok ip) as He. case_decide as Hip; [|by apply settle_other]. subst ip.
  destruct (settle_counts (at_ip a) l1 a l2 Ha) as (_ & Hf & Hv).
  rewrite decide_True in Hv by done.
  destruct He as (Hi & H0 & Hle & Hb & Hl & Hls & Hs).
  pose proof (verifying_of_ip (at_ip a) (l1 ++ a :: l2)) as Hvo.
  unfold entry in *. destruct (th_entries th !! at_ip a) as [e|]; simpl in *; [|lia].
  destruct (Z.leb_spec (te_inFlight e) 0); [lia|].
  unfold entry_ok, throttleMaxFailures in *. split_and!; simpl; [by rewrite Hf|lia|lia|by split|done|done|].
  by apply (settle_begins (λ t, (t ≤ te_lastSeen e)%Z)).
Qed.

Lemma done_ok th l1 a l2 m :
  logins_ok {| lg_th := th; lg_att := l1 ++ a :: l2; lg_now := m |} →
  logins_ok {| lg_th := Done (at_ip a) th; lg_att := l1 ++ l2; lg_now := m |}.
Proof.
  intros [Hpos Hok]. simpl in *. split; [done|]. intros ip. simpl.
  assert (∀ ip', length (of_ip ip' (l1 ++ a :: l2)) =
    (length (of_ip ip' (l1 ++ l2)) + (if decide (at_ip a = ip') then 1 else 0))%nat ∧
    (length (verifying ip' (l1 ++ l2)) ≤ length (verifying ip' (l1 ++ a :: l2))) ∧
    (at_ip a ≠ ip' → length (verifying ip' (l1 ++ l2)) = length (verifying ip' (l1 ++ a :: l2))) ∧
    (∀ P : Time → Prop, Forall (λ a, P (at_begin a)) (of_ip ip' (l1 ++ a :: l2)) →
       Forall (λ a, P (at_begin a)) (of_ip ip' (l1 ++ l2)))) as Hcnt.
  { intros ip'. rewrite of_ip_mid, verifying_mid. unfold of_ip, verifying.
    rewrite !filter_app, !length_app. split_and!.
    - case_decide; simpl; lia.
    - lia.
    - intros Hne. rewrite decide_False by naive_solver. done.
    - intros P. rewrite !Forall_app. tauto. }
  pose proof (Hok (at_ip a)) as (Hi & _).
  destruct (Hcnt (at_ip a)) as (Hc & _). rewrite decide_True in Hc by done.
  rewrite entry_Done by lia. cbv zeta. simpl.
  destruct (Hok ip) as (Hi' & H0 & Hle & Hb & Hl & Hls & Hs).
  destruct (Hcnt ip) as (Hc' & Hv' & Hvne & HP).
  destruct (decide (ip = at_ip a)) as [->|Hip].
  - rewrite decide_True in Hc' by done. case_match.
    + to_prop. apply zero_ok; [lia|]. apply length_zero_iff_nil. lia.
    + split_and!; simpl; [lia|done|lia|done|done|done|]. by apply (HP (λ t, (t ≤ te_lastSeen _)%Z)).
  - rewrite decide_False in Hc' by congruence. split_and!; [lia|done| |done|done|done|].
    + rewrite Hvne by congruence. exact Hle.
    + by apply (HP (λ t, (t ≤ te_lastSeen (entry ip th))%Z)).
Qed.

Lemma login_step_ok s s' : logins_ok s → login_step s s' → logins_ok s'.
Proof.
  intros Hs Hstep. destruct Hstep as [n ip th att m Hn Ht Hb|n ip th att m Hn Ht Hb|
    n th l1 a l2 m Hn Ht Ha|th l1 a l2 m Ha|th l1 a l2 m].
  - pose proof (begin_ok _ n ip Hs Hn Ht) as H. simpl in H.
    destruct (Begin n ip th) as [[r b] th']. simpl in *. by subst b.
  - pose proof (begin_ok _ n ip Hs Hn Ht) as H. simpl in H.
    destruct (Begin n ip th) as [[r b] th']. simpl in *. by subst b.
  - by apply (fail_ok n th l1 a l2 m).
  - by apply success_ok.
  - by apply done_ok.
Qed.

Lemma start_ok : logins_ok start.
Proof. split; [done|]. intros ip. by apply zero_ok. Qed.

Lemma reachable_ok s : rtc login_step start s → logins_ok s.
Proof.
  intros Hr. pose proof start_ok as Hs. induction Hr as [|s1 s2 s3 Hstep _ IH]; [done|].
  apply IH. by eapply login_step_ok.
Qed.

(** C37: However the login attempts of an IP overlap, as long as none lasts longer than the
    ten minutes after which an idle entry is swept (the program does not enforce that: the
    body of a request may arrive slowly, see [slow_bodies_pass_limit]): the failures
    counted and the attempts under verification are together at most five, and every
    attempt in flight is counted. *)
Theorem throttle_bounds_attempts (s : logins) (ip : string) :
  rtc login_step start s →
  (0 ≤ te_failures (entry ip (lg_th s)))%Z ∧
  (te_failures (entry ip (lg_th s)) + Z.of_nat (length (verifying ip (lg_att s)))
     ≤ throttleMaxFailures)%Z ∧
  te_inFlight (entry ip (lg_th s)) = Z.of_nat (length (of_ip ip (lg_att s))).
Proof. intros Hr. destruct (reachable_ok s Hr) as [_ Hok]. destruct (Hok ip) as (? & ? & ? & _). auto. Qed.

(** An attempt that lasts longer is forgotten with its entry: five requests whose bodies
    are slow to arrive do not count any more after ten minutes, and five more are let
    through to verification beside them. *)
Definition begin_times (n : Time) (ip : string) (k : nat) (t : LoginThrottle) : list bool * LoginThrottle :=
  Nat.iter k (λ r, let '((_, blocked), t) := Begin n ip r.2 in (r.1 ++ [blocked], t)) ([], t).
Theorem slow_bodies_pass_limit :
  let '(first, t) := begin_times Second "192.0.2.7" 6 NewLoginThrottle in
  let '(second, t) := begin_times (throttleEntryTTL + 2 * Second) "192.0.2.7" 6 t in
  first = [false; false; false; false; false; true] ∧ second = [false; false; false; false; false; true] ∧
  te_inFlight (entry "192.0.2.7" t) = 5%Z.
Proof. vm_compute. split_and!; reflexivity. Qed.

(** ** The block window *)

Definition blocked_at (ip : string) (b : Time) (s : logins) : Prop :=
  te_blockedUntil (entry ip (lg_th s)) = b ∧ te_failures (entry ip (lg_th s)) = throttleMaxFailures.

Lemma blocked_not_verifying ip b s :
  logins_ok s → blocked_at ip b s → verifying ip (lg_att s) = [].
Proof.
  intros [_ Hok] [_ Hf]. destruct (Hok ip) as (_ & _ & Hle & _). rewrite Hf in Hle.
  destruct (verifying ip (lg_att s)); [done|]. simpl in Hle. lia.
Qed.

Lemma blocked_sweep ip b n t :
  te_blockedUntil (entry ip t) = b → (n < b)%Z → entry ip (sweepLocked n t) = entry ip t.
Proof.
  intros Hb Hn. destruct (entry_sweep n ip t) as [?|[Hs _]]; [done|].
  unfold stale in Hs. to_prop. rewrite Hb in *. lia.
Qed.

Lemma verifying_in ip l1 a l2 :
  at_ip a = ip → at_settled a = false → verifying ip (l1 ++ a :: l2) ≠ [].
Proof.
  intros Hip Ha. rewrite verifying_mid, decide_True by done.
  by destruct (verifying ip l1).
Qed.

Lemma blocked_Begin ip b n t :
  te_blockedUntil (entry ip t) = b → (n < b)%Z →
  Begin n ip t = ((time_Sub b n, true), put_entry ip (entry ip t) (sweepLocked n t)).
Proof.
  intros Hb Hn. unfold Begin. rewrite (blocked_sweep _ b) by done. rewrite Hb.
  by rewrite (proj2 (Z.ltb_lt _ _)) by (apply time_Sub_pos; lia).
Qed.

Lemma Begin_other n ip ip' t : ip ≠ ip' → entry ip (Begin n ip' t).2 = entry ip (sweepLocked n t).
Proof.
  intros Hne. unfold Begin. cbv zeta. repeat (case_match; simpl); rewrite entry_put;
    by rewrite decide_False.
Qed.

Lemma blocked_step ip b s s' :
  logins_ok s → (lg_now s' < b)%Z → blocked_at ip b s → login_step s s' → blocked_at ip b s'.
Proof.
  intros Hs Hb Hbl Hstep. pose proof (blocked_not_verifying _ _ _ Hs Hbl) as Hv.
  destruct Hbl as [Hu Hf]. destruct Hs as [Hpos Hok]. unfold blocked_at.
  destruct Hstep as [n ip' th att m Hn Ht Hn'|n ip' th att m Hn Ht Hn'|
    n th l1 a l2 m Hn Ht Ha|th l1 a l2 m Ha|th l1 a l2 m]; simpl in *.
  - destruct (decide (ip = ip')) as [<-|Hne].
    + by rewrite (blocked_Begin _ b) in Hn'.
    + by rewrite Begin_other, (blocked_sweep _ b).
  - destruct (decide (ip = ip')) as [<-|Hne].
    + rewrite (blocked_Begin _ b) by done. simpl. by rewrite entry_put, decide_True.
    + by rewrite Begin_other, (blocked_sweep _ b).
  - rewrite entry_Fail. cbv zeta. rewrite (blocked_sweep _ b) by done.
    destruct (decide (ip = at_ip a)) as [->|]; [|done]. exfalso. by apply (verifying_in _ _ _ _ eq_refl Ha) in Hv.
  - rewrite entry_Success.
    destruct (decide (ip = at_ip a)) as [->|]; [|done]. exfalso. by apply (verifying_in _ _ _ _ eq_refl Ha) in Hv.
  - pose proof (Hok (at_ip a)) as (Hi & _).
    rewrite of_ip_mid, decide_True, !length_app in Hi by done. simpl in Hi.
    rewrite entry_Done by lia. cbv zeta.
    destruct (decide (ip = at_ip a)) as [->|]; [|done].
    rewrite Hf. simpl. by rewrite andb_false_r.
Qed.

(** once five failures of an address are recorded, it stays blocked until
    thirty seconds after the last of them: whatever else happens meanwhile (also
    on the same address), its failures are not forgotten, none of its attempts
    is under verification, and every new one is refused with the time left. *)
Theorem block_holds (s s' : logins) (ip : string) (n : Time) :
  rtc login_step start s → te_failures (entry ip (lg_th s)) = throttleMaxFailures →
  let b := (te_lastSeen (entry ip (lg_th s)) + throttleBlockDuration)%Z in
  rtc login_step s s' → (lg_now s' < b)%Z → (n < b)%Z →
  verifying ip (lg_att s') = [] ∧
  te_failures (entry ip (lg_th s')) = throttleMaxFailures ∧
  (Begin n ip (lg_th s')).1 = (time_Sub b n, true).
Proof.
  intros Hr Hf b Hr' Hb Hn. pose proof (reachable_ok s Hr) as Hs.
  assert (blocked_at ip b s) as Hbl.
  { destruct Hs as [_ Hok]. destruct (Hok ip) as (_ & _ & _ & Hiff & Hl & _).
    split; [|done]. apply Hl. by apply Hiff. }
  assert (∀ s0, rtc login_step s0 s' → logins_ok s0 → (lg_now s0 ≤ lg_now s')%Z) as Hmono.
  { clear. induction 1 as [|s1 s2 s3 Hstep _ IH]; [done|]. intros Hs.
    pose proof (login_step_ok _ _ Hs Hstep) as Hs2. specialize (IH Hs2).
    destruct Hstep; simpl in *; lia. }
  assert (logins_ok s' ∧ blocked_at ip b s') as [Hs' Hbl'].
  { clear Hr Hf Hn. clearbody b. induction Hr' as [|s1 s2 s3 Hstep Hr' IH]; [done|].
    pose proof (login_step_ok _ _ Hs Hstep) as Hs2. apply IH; try done.
    eapply blocked_step; [exact Hs| |exact Hbl|exact Hstep].
    pose proof (Hmono _ Hr' Hs2). lia. }
  split; [by eapply blocked_not_verifying|]. split; [apply Hbl'|].
  by rewrite (blocked_Begin _ b) by (try done; apply Hbl').
Qed.

(** Five failed logins of one address, one per second. *)
Definition ex_fail (n : Time) (ip : string) (s : logins) : logins := {|
  lg_th := Done ip (Fail n ip (Begin n ip (lg_th s)).2).2; lg_att := []; lg_now := n |}.

Lemma ex_fail_steps n ip s :
  lg_att s = [] → (lg_now s ≤ n)%Z → (Begin n ip (lg_th s)).1.2 = false →
  rtc login_step s (ex_fail n ip s).
Proof.
  destruct s as [th att m]. simpl. intros -> Hn Hb.
  eapply rtc_l; [by apply (L_begin n ip); [|constructor|]|].
  eapply rtc_l.
  { apply (L_fail n _ [] {| at_ip := ip; at_begin := n; at_settled := false |} []); [done| |done].
    constructor; [|constructor]. simpl. rewrite Z.sub_diag. by vm_compute. }
  apply rtc_once. apply (L_done _ [] (settle {| at_ip := ip; at_begin := n; at_settled := false |}) []).
Qed.

Definition ex_five : logins :=
  ex_fail 5 "10.0.0.9" (ex_fail 4 "10.0.0.9" (ex_fail 3 "10.0.0.9"
    (ex_fail 2 "10.0.0.9" (ex_fail 1 "10.0.0.9" start)))).

Lemma ex_five_reachable : rtc login_step start ex_five.
Proof.
  unfold ex_five.
  do 4 (etrans; [|apply ex_fail_steps; [reflexivity|by vm_compute|by vm_compute]]).
  by apply ex_fail_steps.
Qed.

Lemma throttle_bounds_attempts_witness :
  rtc login_step start ex_five ∧
  (te_failures (entry "10.0.0.9" (lg_th ex_five)) +
     Z.of_nat (length (verifying "10.0.0.9" (lg_att ex_five))) ≤ throttleMaxFailures)%Z.
Proof.
  split; [apply ex_five_reachable|].
  apply (throttle_bounds_attempts ex_five "10.0.0.9"), ex_five_reachable.
Defined.

Lemma block_holds_witness :
  te_failures (entry "10.0.0.9" (lg_th ex_five)) = throttleMaxFailures ∧
  (Begin (10 * Second) "10.0.0.9" (lg_th ex_five)).1 =
    (time_Sub (5 + 30 * Second) (10 * Second), true).
Proof.
  split; [by vm_compute|].
  apply (block_holds ex_five ex_five "10.0.0.9" (10 * Second)%Z);
    [apply ex_five_reachable|by vm_compute|done|by vm_compute|by vm_compute].
Defined.
