(* ===== verification/DnsTypes.v ===== *)
(** * DNS route data ([internal/dnsroute/types.go])

    The stored lists with their route chains and the deduplication report,
    shared by the deduplicator, the failover manager and the router sync. *)
From S2P Require Import Prelude GoLib.

Definition MaxDomainsPerGroup : Z := 300.
Definition MaxSubnetsPerList : Z := 20000.

Record Subscription := {
  sub_URL : string; sub_Name : string; sub_LastFetched : string;
  sub_LastCount : Z; sub_LastError : string;
}.

Record RouteTarget := { rt_Interface : string; rt_TunnelID : string; rt_Fallback : string }.

Record DedupeItem := {
  di_Domain : string; di_Reason : string; di_CoveredBy : string;
  di_ListID : string; di_ListName : string;
}.
Record DedupeReport := {
  TotalInput : nat; TotalKept : nat; TotalRemoved : nat;
  ExactDupes : nat; WildcardDupes : nat; Items : list DedupeItem;
}.

(** [*string] fields that a request may leave out are options. *)
Record DomainList := {
  dl_ID : string;
  dl_Name : string;
  dl_Domains : list string;
  dl_Excludes : list string;
  dl_ExcludesText : option string;
  dl_ExcludeSubnets : list string;
  dl_Subnets : list string;
  dl_ManualDomains : list string;
  dl_ManualText : option string;
  dl_Subscriptions : list Subscription;
  dl_Routes : list RouteTarget;
  dl_Enabled : bool;
  dl_CreatedAt : string;
  dl_UpdatedAt : string;
  dl_LastDedupeReport : option DedupeReport;
  dl_Backend : string;
  dl_IconURL : string;
  dl_HRRouteMode : string;
  dl_HRPolicyName : string;
  dl_HRPolicyInterfaces : list string;
}.

(** The stored file. *)
Record StoreData := { sd_Lists : list DomainList; sd_HRRuleIcons : gmap string string }.

(** An enabled list of the NDMS backend with the given domains, excludes and
    routes: the shape of the concrete examples. *)
Definition plain_list (id name : string) (domains excludes : list string)
    (routes : list RouteTarget) : DomainList := {|
  dl_ID := id; dl_Name := name; dl_Domains := domains; dl_Excludes := excludes;
  dl_ExcludesText := None; dl_ExcludeSubnets := []; dl_Subnets := [];
  dl_ManualDomains := domains; dl_ManualText := None; dl_Subscriptions := [];
  dl_Routes := routes; dl_Enabled := true; dl_CreatedAt := ""; dl_UpdatedAt := "";
  dl_LastDedupeReport := None; dl_Backend := ""; dl_IconURL := ""; dl_HRRouteMode := "";
  dl_HRPolicyName := ""; dl_HRPolicyInterfaces := [] |}.
