(* ===== verification/Dedup.v ===== *)
(** * Deduplication of DNS route domains ([internal/dnsroute/dedup.go])

    A trie over reversed labels: a list's domain covers its subdomains, except
    below the list's own exclude holes.  The reference of [Check] is stated on
    the registrations found at each path. *)
From S2P Require Import Prelude GoLib DnsTypes.

Inductive trieNode :=
  TrieNode (children : gmap string trieNode) (owners : gmap string string)
    (excludeOwners : gset string).

Definition children (n : trieNode) := let '(TrieNode c _ _) := n in c.
Definition owners (n : trieNode) := let '(TrieNode _ o _) := n in o.
Definition excludeOwners (n : trieNode) := let '(TrieNode _ _ h) := n in h.

Definition new_node : trieNode := TrieNode ∅ ∅ ∅.
Abbreviation DomainIndex := trieNode (only parsing).
Definition NewDomainIndex : DomainIndex := new_node.

Record CheckResult := {
  Removed : bool;
  Reason : string;
  CoveredBy : string;
  OwnerListID : string;
}.
Definition not_removed : CheckResult :=
  {| Removed := false; Reason := ""; CoveredBy := ""; OwnerListID := "" |}.

(** [pending]: the owner list and its domain. *)
Record pending := { pd_owner : string; pd_domain : string }.

(** ** Building the trie *)

(** Walks down creating the missing nodes, then changes the last one. *)
Fixpoint at_path (f : trieNode → trieNode) (labels : list string) (n : trieNode) : trieNode :=
  match labels with
  | [] => f n
  | l :: ls =>
      TrieNode (<[l := at_path f ls (default new_node (children n !! l))]> (children n))
        (owners n) (excludeOwners n)
  end.

(** The first registration of a list at a node is kept. *)
Definition add_owner (listID domain : string) (n : trieNode) : trieNode :=
  match owners n !! listID with
  | Some _ => n
  | None => TrieNode (children n) (<[listID := domain]> (owners n)) (excludeOwners n)
  end.

Definition add_hole (listID : string) (n : trieNode) : trieNode :=
  TrieNode (children n) (owners n) ({[listID]} ∪ excludeOwners n).

Definition splitLabels (domain : string) : list string := reverse (split_byte "." domain).

(** [sort.Strings] over the map keys. *)
Definition sorted_ids (m : gmap string string) : list string :=
  merge_sort String.le (map_to_list m).*1.

Definition filterPending (stack : list pending) (holes : gset string) : list pending :=
  filter (λ p, pd_owner p ∉ holes) stack.

Definition push_owners (m : gmap string string) (stack : list pending) : list pending :=
  stack ++ ((λ id, {| pd_owner := id; pd_domain := default "" (m !! id) |}) <$> sorted_ids m).

Definition wildcard (stack : list pending) : CheckResult :=
  match last stack with
  | Some top => {| Removed := true; Reason := "wildcard"; CoveredBy := pd_domain top;
                   OwnerListID := pd_owner top |}
  | None => not_removed
  end.

(** [id < bestID] of the exact match, over the owners in map order. *)
Definition str_lt (a b : string) : bool := String.leb a b && negb (String.eqb a b).
Definition best_owner (best : string * string) (e : string * string) : string * string :=
  if String.eqb best.1 "" || str_lt e.1 best.1 then e else best.

Section dedup.
Context `{U : GoUnicode}.
(** The iteration order of the owner maps. *)
Variable range : gmap string string → list (string * string).

Definition normalizeDomain (d : string) : string :=
  trim_left (Ascii.eqb ".") (trim_right (Ascii.eqb ".") (ToLower (TrimSpace d))).

Definition Add (domain listID : string) (idx : DomainIndex) : DomainIndex :=
  let domain := normalizeDomain domain in
  if String.eqb domain "" || String.eqb listID "" then idx
  else at_path (add_owner listID domain) (splitLabels domain) idx.

Definition AddExcludeHole (domain ownerListID : string) (idx : DomainIndex) : DomainIndex :=
  let domain := normalizeDomain domain in
  if String.eqb domain "" || String.eqb ownerListID "" then idx
  else at_path (add_hole ownerListID) (splitLabels domain) idx.

Definition exact_match (m : gmap string string) : CheckResult :=
  let '(id, dom) := foldl best_owner ("", "") (range m) in
  {| Removed := true; Reason := "exact"; CoveredBy := dom; OwnerListID := id |}.

(** The loop of [Check]; [inner] is [i > 0]. *)
Fixpoint check_loop (inner : bool) (labels : list string) (node : trieNode)
    (stack : list pending) : CheckResult :=
  match labels with
  | [] =>
      if bool_decide (owners node = ∅)
      then wildcard (filterPending stack (excludeOwners node))
      else exact_match (owners node)
  | label :: rest =>
      let stack := if inner then push_owners (owners node) stack else stack in
      let stack := filterPending stack (excludeOwners node) in
      match children node !! label with
      | None => wildcard stack
      | Some child => check_loop true rest child stack
      end
  end.

Definition Check (domain : string) (idx : DomainIndex) : CheckResult :=
  let domain := normalizeDomain domain in
  if String.eqb domain "" then not_removed
  else check_loop false (splitLabels domain) idx [].

Definition add_list (excludeListID : string) (idx : DomainIndex) (l : DomainList) : DomainIndex :=
  if String.eqb (dl_ID l) excludeListID then idx
  else
    let idx := foldl (λ idx d, Add d (dl_ID l) idx) idx (dl_Domains l) in
    foldl (λ idx e, AddExcludeHole e (dl_ID l) idx) idx (dl_Excludes l).

Definition BuildIndex (lists : list DomainList) (excludeListID : string) : DomainIndex :=
  foldl (add_list excludeListID) NewDomainIndex lists.

(** A later list with the same ID overwrites the name. *)
Definition listNameMap (lists : list DomainList) : gmap string string :=
  foldl (λ m l, <[dl_ID l := dl_Name l]> m) ∅ lists.

Definition count_removed (r : DedupeReport) (exact : bool) (it : DedupeItem) : DedupeReport := {|
  TotalInput := TotalInput r; TotalKept := TotalKept r; TotalRemoved := TotalRemoved r + 1;
  ExactDupes := if exact then ExactDupes r + 1 else ExactDupes r;
  WildcardDupes := if exact then WildcardDupes r else WildcardDupes r + 1;
  Items := Items r ++ [it] |}.

(** The loop of [CheckBatch]. *)
Fixpoint batch_loop (idx : DomainIndex) (currentListID : string) (names : gmap string string)
    (domains : list string) (work : DomainIndex) (kept : list string) (report : DedupeReport)
    : list string * DedupeReport :=
  match domains with
  | [] => (kept, report)
  | raw :: domains =>
      let d := normalizeDomain raw in
      if String.eqb d "" then batch_loop idx currentListID names domains work kept report
      else
        let item res owner := {|
          di_Domain := d; di_Reason := Reason res; di_CoveredBy := CoveredBy res;
          di_ListID := owner; di_ListName := default "" (names !! owner) |} in
        let res := Check d idx in
        if Removed res then
          batch_loop idx currentListID names domains work kept
            (count_removed report (String.eqb (Reason res) "exact") (item res (OwnerListID res)))
        else
          let res := Check d work in
          if Removed res then
            batch_loop idx currentListID names domains work kept
              (count_removed report (String.eqb (Reason res) "exact") (item res currentListID))
          else
            batch_loop idx currentListID names domains (Add d currentListID work)
              (kept ++ [d]) report
  end.

Definition CheckBatch (idx : DomainIndex) (domains : list string) (currentListID : string)
    (names : gmap string string) : list string * DedupeReport :=
  let report := {| TotalInput := length domains; TotalKept := 0; TotalRemoved := 0;
                   ExactDupes := 0; WildcardDupes := 0; Items := [] |} in
  match domains with
  | [] => ([], report)
  | _ =>
      let '(kept, r) := batch_loop idx currentListID names domains NewDomainIndex [] report in
      (kept, {| TotalInput := TotalInput r; TotalKept := length kept;
                TotalRemoved := TotalRemoved r; ExactDupes := ExactDupes r;
                WildcardDupes := WildcardDupes r; Items := Items r |})
  end.
End dedup.
