(* ===== verification/DedupProps.v ===== *)
(** * Correctness of the domain deduplication

    [Check] against its reference on the registrations of the trie, what
    [BuildIndex] registers, and what [CheckBatch] keeps. *)
From S2P Require Import Prelude GoLib DnsTypes Dedup.

(** ** The registrations at a path *)

Fixpoint node_at (p : list string) (n : trieNode) : option trieNode :=
  match p with
  | [] => Some n
  | l :: p => c ← children n !! l; node_at p c
  end.

Definition owners_at (p : list string) (n : trieNode) : gmap string string :=
  match node_at p n with Some m => owners m | None => ∅ end.
Definition holes_at (p : list string) (n : trieNode) : gset string :=
  match node_at p n with Some m => excludeOwners m | None => ∅ end.

(** List [id] covers [q] from its domain at the proper ancestor [p]: none of
    its holes lies between the two, both included. *)
Definition covers (idx : trieNode) (q p : list string) (id dom : string) : Prop :=
  p ≠ [] ∧ p `prefix_of` q ∧ p ≠ q ∧ owners_at p idx !! id = Some dom ∧
  ∀ r, p `prefix_of` r → r `prefix_of` q → id ∉ holes_at r idx.

Lemma node_at_app p q n : node_at (p ++ q) n = node_at p n ≫= node_at q.
Proof. revert n. induction p as [|l p IH]; intros n; simpl; [done|]. destruct (children n !! l); simpl; [apply IH|done]. Qed.

(** Below a missing node nothing is registered. *)
Lemma below_missing p q n :
  node_at p n = None → owners_at (p ++ q) n = ∅ ∧ holes_at (p ++ q) n = ∅.
Proof. intros H. unfold owners_at, holes_at. by rewrite node_at_app, H. Qed.

(** ** The stack of [check_loop] *)

(** An entry of the stack together with the path it was pushed at. *)
Record at_entry := { ae_path : list string; ae_id : string; ae_dom : string }.
Definition ae_pending (x : at_entry) : pending :=
  {| pd_owner := ae_id x; pd_domain := ae_dom x |}.

(** Deeper entries, then greater list IDs, are later. *)
Definition ae_le (x y : at_entry) : Prop :=
  length (ae_path x) < length (ae_path y) ∨
  (ae_path x = ae_path y ∧ String.le (ae_id x) (ae_id y)).

(** The entries pushed strictly above the node [pre] and not refuted above it. *)
Definition alive (idx : trieNode) (pre : list string) (x : at_entry) : Prop :=
  ae_path x ≠ [] ∧ ae_path x `prefix_of` pre ∧ ae_path x ≠ pre ∧
  owners_at (ae_path x) idx !! ae_id x = Some (ae_dom x) ∧
  ∀ r, ae_path x `prefix_of` r → r `prefix_of` pre → r ≠ pre → ae_id x ∉ holes_at r idx.

Definition stack_ok (idx : trieNode) (pre : list string) (l : list at_entry) : Prop :=
  StronglySorted ae_le l ∧ ∀ x, x ∈ l ↔ alive idx pre x.

Lemma prefix_snoc_inv {A} (p q : list A) x :
  p `prefix_of` q ++ [x] → p = q ++ [x] ∨ p `prefix_of` q.
Proof.
  intros [k Hk]. destruct k as [|y k _] using rev_ind.
  - left. by rewrite app_nil_r in Hk.
  - right. exists k. rewrite (assoc_L (++)) in Hk. by apply app_inj_tail in Hk as [-> _].
Qed.

Lemma StronglySorted_filter {A} (R : A → A → Prop) (P : A → Prop) `{∀ x, Decision (P x)} l :
  StronglySorted R l → StronglySorted R (filter P l).
Proof.
  induction 1 as [|x l _ IH Hx]; [constructor|]. rewrite filter_cons. case_decide; [|done].
  constructor; [done|]. rewrite Forall_forall in Hx |- *.
  intros y [_ Hy]%list_elem_of_filter. by apply Hx.
Qed.

Lemma StronglySorted_app_2 {A} (R : A → A → Prop) l1 l2 :
  StronglySorted R l1 → StronglySorted R l2 → (∀ x y, x ∈ l1 → y ∈ l2 → R x y) →
  StronglySorted R (l1 ++ l2).
Proof.
  induction 1 as [|x l _ IH Hx]; intros H2 H12; simpl; [done|]. constructor.
  - apply IH; [done|]. intros; apply H12; set_solver.
  - apply Forall_app. split; [done|]. apply Forall_forall. intros; apply H12; set_solver.
Qed.

Lemma StronglySorted_last {A} (R : A → A → Prop) l x :
  StronglySorted R l → last l = Some x → ∀ y, y ∈ l → y = x ∨ R y x.
Proof.
  induction 1 as [|z l _ IH Hz]; [done|]. intros Hl y Hy.
  destruct l as [|z' l]; [simplify_eq/=; set_solver|].
  rewrite last_cons_cons in Hl. apply elem_of_cons in Hy as [->|Hy]; [right|by apply IH].
  rewrite Forall_forall in Hz. apply Hz. by apply last_Some_elem_of.
Qed.

(** The owners of a node, in the order they are pushed. *)
Definition pushed (pre : list string) (m : gmap string string) : list at_entry :=
  (λ id, {| ae_path := pre; ae_id := id; ae_dom := default "" (m !! id) |}) <$> sorted_ids m.

Lemma sorted_ids_in m id : id ∈ sorted_ids m ↔ is_Some (m !! id).
Proof.
  unfold sorted_ids. rewrite merge_sort_Permutation, list_elem_of_fmap. split.
  - intros ([k v] & -> & Hin%elem_of_map_to_list). by exists v.
  - intros [v Hv]. exists (id, v). split; [done|]. by apply elem_of_map_to_list.
Qed.

Lemma pushed_in pre m x :
  x ∈ pushed pre m ↔ ae_path x = pre ∧ m !! ae_id x = Some (ae_dom x).
Proof.
  unfold pushed. rewrite list_elem_of_fmap. split.
  - intros (id & -> & Hid%sorted_ids_in). simpl. split; [done|]. destruct Hid as [v Hv].
    by rewrite Hv.
  - intros [<- Hx]. exists (ae_id x). rewrite sorted_ids_in, Hx. split; [by destruct x|done].
Qed.

Lemma pushed_sorted pre m : StronglySorted ae_le (pushed pre m).
Proof.
  unfold pushed. assert (StronglySorted String.le (sorted_ids m)) as H
    by (apply StronglySorted_merge_sort; apply _).
  induction H as [|id l _ IH Hid]; simpl; [constructor|]. constructor; [done|].
  apply Forall_fmap. eapply Forall_impl; [exact Hid|]. intros k Hk. right. by split.
Qed.

(** Passing a node: push its owners, apply its holes, descend. *)
Lemma stack_descend idx pre n l lbl :
  node_at pre idx = Some n → stack_ok idx pre l →
  let l1 := if bool_decide (pre = []) then l else l ++ pushed pre (owners n) in
  stack_ok idx (pre ++ [lbl]) (filter (λ x, ae_id x ∉ excludeOwners n) l1).
Proof.
  intros Hn [Hs Hl]. cbv zeta.
  set (l1 := if bool_decide _ then _ else _).
  assert (owners_at pre idx = owners n ∧ holes_at pre idx = excludeOwners n) as [Eo Eh]
    by (unfold owners_at, holes_at; by rewrite Hn).
  assert (∀ x, x ∈ l1 ↔ alive idx pre x ∨
    (pre ≠ [] ∧ ae_path x = pre ∧ owners n !! ae_id x = Some (ae_dom x))) as Hl1.
  { intros x. unfold l1. case_bool_decide.
    - rewrite Hl. naive_solver.
    - rewrite elem_of_app, Hl, pushed_in. naive_solver. }
  split.
  - apply StronglySorted_filter. unfold l1. case_bool_decide; [done|].
    apply StronglySorted_app_2; [done|apply pushed_sorted|].
    intros x y Hx%Hl Hy%pushed_in. left. destruct Hx as (_ & Hp & Hne & _).
    destruct Hy as [-> _]. destruct Hp as [k Hk]. rewrite Hk, length_app.
    destruct k; [|simpl; lia]. rewrite app_nil_r in Hk. congruence.
  - intros x. rewrite list_elem_of_filter, Hl1. split.
    + intros [Hh [(H1 & H2 & H3 & H4 & H5)|(H1 & H2 & H3)]].
      * split_and!; [done|by apply prefix_app_r| |done|].
        { intros E. rewrite E in H2. destruct H2 as [k Hk].
          apply (f_equal length) in Hk. rewrite !length_app in Hk. simpl in Hk. lia. }
        intros r Hr1 [->|Hr2]%prefix_snoc_inv Hr3; [done|].
        destruct (decide (r = pre)) as [->|]; [by rewrite Eh|by apply H5].
      * split_and!; [by rewrite H2|rewrite H2; by apply prefix_app_r| |by rewrite H2, Eo|].
        { rewrite H2. intros E. apply (f_equal length) in E. rewrite length_app in E. simpl in E. lia. }
        intros r Hr1 [->|Hr2]%prefix_snoc_inv Hr3; [done|].
        rewrite H2 in Hr1. assert (r = pre) as -> by (by apply (anti_symm prefix)). by rewrite Eh.
    + intros (H1 & H2 & H3 & H4 & H5).
      apply prefix_snoc_inv in H2 as [|H2]; [done|].
      assert (pre ≠ pre ++ [lbl]) as Hne.
      { intros E. apply (f_equal length) in E. rewrite length_app in E. simpl in E. lia. }
      split.
      * rewrite <- Eh. apply H5; [done|by apply prefix_app_r|done].
      * destruct (decide (ae_path x = pre)) as [E|Hp]; [right|left].
        { split_and!; [by rewrite <- E|done|by rewrite <- Eo, <- E]. }
        split_and!; [done..|]. intros r Hr1 Hr2 Hr3. apply H5; [done|by apply prefix_app_r|].
        intros ->. destruct Hr2 as [k Hk]. apply (f_equal length) in Hk.
        rewrite !length_app in Hk. simpl in Hk. lia.
Qed.

(** ** The result of [Check] *)

Definition check_ok (idx : trieNode) (q : list string) (res : CheckResult) : Prop :=
  (Removed res = true ∧ Reason res = "exact" ∧
   owners_at q idx !! OwnerListID res = Some (CoveredBy res) ∧
   ∀ id, is_Some (owners_at q idx !! id) → String.le (OwnerListID res) id) ∨
  (owners_at q idx = ∅ ∧ Removed res = true ∧ Reason res = "wildcard" ∧
   ∃ p, covers idx q p (OwnerListID res) (CoveredBy res) ∧
   ∀ p' id' dom', covers idx q p' id' dom' →
     length p' < length p ∨ (p' = p ∧ String.le id' (OwnerListID res))) ∨
  (res = not_removed ∧ owners_at q idx = ∅ ∧ ∀ p id dom, ¬ covers idx q p id dom).

(** The top of a stack that holds exactly the covering entries. *)
Lemma wildcard_ok idx q l :
  owners_at q idx = ∅ → StronglySorted ae_le l →
  (∀ x, x ∈ l ↔ covers idx q (ae_path x) (ae_id x) (ae_dom x)) →
  check_ok idx q (wildcard (ae_pending <$> l)).
Proof.
  intros Ho Hs Hl. unfold wildcard. rewrite fmap_last.
  destruct (last l) as [x|] eqn:El; simpl; [right; left|right; right].
  - split_and!; [done..|]. exists (ae_path x). simpl. split.
    + apply Hl. by apply last_Some_elem_of.
    + intros p' id' dom' Hc.
      assert ({| ae_path := p'; ae_id := id'; ae_dom := dom' |} ∈ l) as Hin by (by apply Hl).
      destruct (StronglySorted_last _ _ _ Hs El _ Hin) as [<-|[?|[? ?]]]; simpl in *;
        [right; by split|by left|by right].
  - apply last_None in El. subst. split_and!; [done..|]. intros p id dom Hc.
    apply (Hl {| ae_path := p; ae_id := id; ae_dom := dom |}) in Hc. set_solver.
Qed.

Lemma str_lt_spec a b : str_lt a b = true ↔ String.le a b ∧ a ≠ b.
Proof.
  unfold str_lt, String.le. rewrite andb_true_iff, negb_true_iff, String.eqb_neq.
  by rewrite Is_true_true.
Qed.

Lemma best_owner_fold l best :
  Forall (λ e, e.1 ≠ "") l →
  let r := foldl best_owner best l in
  (r = best ∨ r ∈ l) ∧ (∀ e, e ∈ l → String.le r.1 e.1) ∧
  (best.1 ≠ "" → String.le r.1 best.1) ∧ (l ≠ [] ∨ best.1 ≠ "" → r.1 ≠ "").
Proof.
  revert best. induction l as [|e l IH]; intros best Hl; simpl.
  { split_and!; [by left|set_solver|done|intros [?|?]; done]. }
  apply Forall_cons in Hl as [He Hl]. destruct (IH (best_owner best e) Hl) as (H1 & H2 & H3 & H4).
  unfold best_owner in *.
  destruct (String.eqb_spec best.1 "") as [Hb|Hb]; simpl in *.
  { split_and!.
    - right. destruct H1 as [->|H1]; set_solver.
    - intros x [->|Hx]%elem_of_cons; [by apply H3|by apply H2].
    - done.
    - intros _. apply H4. by right. }
  destruct (str_lt e.1 best.1) eqn:Elt.
  - apply str_lt_spec in Elt as [Hle Hne]. split_and!.
    + right. destruct H1 as [->|H1]; set_solver.
    + intros x [->|Hx]%elem_of_cons; [by apply H3|by apply H2].
    + intros _. etrans; [by apply H3|done].
    + intros _. apply H4. by right.
  - assert (String.le best.1 e.1) as Hle.
    { destruct (total String.le best.1 e.1) as [?|Hle]; [done|].
      destruct (decide (e.1 = best.1)) as [->|Hne]; [done|].
      assert (str_lt e.1 best.1 = true) by (by apply str_lt_spec). congruence. }
    split_and!.
    + destruct H1 as [->|H1]; [by left|set_solver].
    + intros x [->|Hx]%elem_of_cons; [|by apply H2]. etrans; [by apply H3|done].
    + done.
    + intros _. apply H4. by right.
Qed.

Lemma exact_ok range idx q :
  map_range (owners_at q idx) (range (owners_at q idx)) →
  owners_at q idx ≠ ∅ → owners_at q idx !! "" = None →
  check_ok idx q (exact_match range (owners_at q idx)).
Proof.
  intros Hr Hne Hemp. left. unfold exact_match.
  set (m := owners_at q idx) in *. set (l := range m) in *.
  assert (Forall (λ e, e.1 ≠ "") l) as Hl.
  { apply Forall_forall. intros [id d] Hin E. simpl in E. subst.
    apply (map_range_elem _ _ _ _ Hr) in Hin. congruence. }
  destruct (best_owner_fold l ("", "") Hl) as (H1 & H2 & _ & H4).
  assert (l ≠ []) as Hnil.
  { intros E. destruct (map_choose m Hne) as (k & v & Hkv).
    apply (map_range_elem _ _ _ _ Hr) in Hkv. rewrite E in Hkv. set_solver. }
  specialize (H4 (or_introl Hnil)).
  destruct (foldl best_owner _ l) as [id dom]. simpl in *. split_and!; [done|done| |].
  - destruct H1 as [E|Hin]; [congruence|]. by apply (map_range_elem _ _ _ _ Hr) in Hin.
  - intros id' [d Hd]. apply (map_range_elem _ _ _ _ Hr) in Hd. apply (H2 _ Hd).
Qed.

Lemma filterPending_fmap l holes :
  filterPending (ae_pending <$> l) holes = ae_pending <$> filter (λ x, ae_id x ∉ holes) l.
Proof.
  unfold filterPending. induction l as [|x l IH]; [done|]. csimpl. rewrite !filter_cons.
  simpl. case_decide; csimpl; by rewrite IH.
Qed.

Lemma push_owners_fmap pre m l :
  push_owners m (ae_pending <$> l) = ae_pending <$> (l ++ pushed pre m).
Proof. unfold push_owners, pushed. by rewrite fmap_app, <- list_fmap_compose. Qed.

Lemma check_loop_ok range idx rest :
  (∀ m, map_range m (range m)) → (∀ p, owners_at p idx !! "" = None) →
  ∀ pre n l, node_at pre idx = Some n → stack_ok idx pre l →
  check_ok idx (pre ++ rest)
    (check_loop range (negb (bool_decide (pre = []))) rest n (ae_pending <$> l)).
Proof.
  intros Hr Hemp. induction rest as [|lbl rest IH]; intros pre n l Hn Hst; simpl.
  - rewrite app_nil_r. assert (owners_at pre idx = owners n ∧ holes_at pre idx = excludeOwners n)
      as [Eo Eh] by (unfold owners_at, holes_at; by rewrite Hn).
    case_bool_decide as Ho; [|rewrite <- Eo; apply exact_ok; [apply Hr|by rewrite Eo|apply Hemp]].
    rewrite filterPending_fmap. destruct Hst as [Hs Hl].
    apply wildcard_ok; [by rewrite Eo|by apply StronglySorted_filter|].
    intros x. rewrite list_elem_of_filter, Hl, <- Eh. split.
    + intros (Hh & H1 & H2 & H3 & H4 & H5). split_and!; [done..|].
      intros r Hr1 Hr2. destruct (decide (r = pre)) as [->|]; [done|by apply H5].
    + intros (H1 & H2 & H3 & H4 & H5). split; [by apply H5|]. split_and!; auto.
  - pose proof (stack_descend idx pre n l lbl Hn Hst) as Hd. cbv zeta in Hd.
    set (l' := filter _ _) in Hd.
    assert (filterPending (if negb (bool_decide (pre = []))
              then push_owners (owners n) (ae_pending <$> l) else ae_pending <$> l)
              (excludeOwners n) = ae_pending <$> l') as ->.
    { unfold l'. case_bool_decide; simpl.
      - apply filterPending_fmap.
      - rewrite (push_owners_fmap pre). apply filterPending_fmap. }
    rewrite cons_middle, (assoc_L (++)).
    destruct (children n !! lbl) as [c|] eqn:Ec.
    + assert (node_at (pre ++ [lbl]) idx = Some c) as Hc
        by (rewrite node_at_app, Hn; simpl; by rewrite Ec).
      specialize (IH _ _ _ Hc Hd).
      rewrite bool_decide_eq_false_2 in IH by (by destruct pre). exact IH.
    + assert (node_at (pre ++ [lbl]) idx = None) as Hc
        by (rewrite node_at_app, Hn; simpl; by rewrite Ec).
      assert (∀ r, pre ++ [lbl] `prefix_of` r → owners_at r idx = ∅ ∧ holes_at r idx = ∅) as Hbelow.
      { intros r [k ->]. by apply below_missing. }
      assert (∀ r, r `prefix_of` (pre ++ [lbl]) ++ rest →
        pre ++ [lbl] `prefix_of` r ∨ (r `prefix_of` pre ++ [lbl])) as Hcmp.
      { intros r Hr1. destruct (prefix_weak_total r (pre ++ [lbl]) _ Hr1) as [?|?];
          [by apply prefix_app_r|by right|by left]. }
      destruct Hd as [Hs' Hl'].
      apply wildcard_ok; [by apply Hbelow, prefix_app_r|done|].
      intros x. rewrite Hl'. split.
      * intros (H1 & H2 & H3 & H4 & H5). split_and!; [done|by apply prefix_app_r| |done|].
        { intros E. rewrite E in H2. destruct (Hbelow (pre ++ [lbl] ++ rest)) as [Ho _].
          { rewrite (assoc_L (++)). by apply prefix_app_r. }
          rewrite E, <- (assoc_L (++)), Ho in H4. done. }
        intros r Hr1 Hr2. destruct (Hcmp r Hr2) as [Hr3|Hr3].
        { rewrite (proj2 (Hbelow r Hr3)). set_solver. }
        destruct (decide (r = pre ++ [lbl])) as [->|]; [|by apply H5].
        rewrite (proj2 (Hbelow _ (reflexivity _))). set_solver.
      * intros (H1 & H2 & H3 & H4 & H5).
        assert (ae_path x `prefix_of` pre ++ [lbl]) as Hp.
        { destruct (Hcmp _ H2) as [Hp|Hp]; [|done]. by rewrite (proj1 (Hbelow _ Hp)) in H4. }
        split_and!; [done|done| |done|].
        { intros E. rewrite E in H4. by rewrite (proj1 (Hbelow _ (reflexivity _))) in H4. }
        intros r Hr1 Hr2 _. apply H5; [done|by apply prefix_app_r].
Qed.

(** ** Registrations *)

Lemma node_at_new p : owners_at p new_node = ∅ ∧ holes_at p new_node = ∅.
Proof. unfold owners_at, holes_at. destruct p; simpl; [done|]. by rewrite lookup_empty. Qed.

Lemma at_child {X} (g : trieNode → X) (e : X) l p n :
  (match node_at p new_node with Some m => g m | None => e end = e) →
  match node_at (l :: p) n with Some m => g m | None => e end =
  match node_at p (default new_node (children n !! l)) with Some m => g m | None => e end.
Proof. intros He. simpl. destruct (children n !! l); simpl; [done|]. by rewrite He. Qed.

(** Changing the node at [q] changes what is found at [q] only. *)
Lemma at_path_owners f q p n :
  (∀ m, children (f m) = children m) →
  owners_at p (at_path f q n) =
  if decide (p = q) then owners (f (TrieNode (match node_at q n with Some m => children m | None => ∅ end)
                                             (owners_at q n) (holes_at q n)))
  else owners_at p n.
Proof.
  intros Hf. revert p n. induction q as [|l q IH]; intros p n; simpl.
  - destruct p as [|l' p]; simpl.
    + unfold owners_at, holes_at. simpl. by destruct n.
    + unfold owners_at. simpl. by rewrite Hf.
  - destruct p as [|l' p]; [by destruct n|].
    unfold owners_at at 1. simpl. rewrite lookup_insert.
    destruct (decide (l = l')) as [<-|Hne].
    + simpl. fold (owners_at p (at_path f q (default new_node (children n !! l)))). rewrite IH.
      assert (owners_at (l :: p) n = owners_at p (default new_node (children n !! l)) ∧
        owners_at (l :: q) n = owners_at q (default new_node (children n !! l)) ∧
        holes_at (l :: q) n = holes_at q (default new_node (children n !! l))) as (-> & Eo & Eh).
      { split_and!; apply at_child; apply node_at_new. }
      rewrite Eo, Eh.
      destruct (decide (p = q)) as [->|Hne']; [|by rewrite decide_False by congruence].
      rewrite decide_True by done. do 2 f_equal.
      destruct (children n !! l); simpl; [done|]. by destruct q; simpl; rewrite ?lookup_empty.
    + rewrite decide_False by congruence. unfold owners_at. simpl.
      by destruct (children n !! l').
Qed.

Lemma at_path_holes f q p n :
  (∀ m, children (f m) = children m) →
  holes_at p (at_path f q n) =
  if decide (p = q) then excludeOwners (f (TrieNode (match node_at q n with Some m => children m | None => ∅ end)
                                             (owners_at q n) (holes_at q n)))
  else holes_at p n.
Proof.
  intros Hf. revert p n. induction q as [|l q IH]; intros p n; simpl.
  - destruct p as [|l' p]; simpl.
    + unfold owners_at, holes_at. simpl. by destruct n.
    + unfold holes_at. simpl. by rewrite Hf.
  - destruct p as [|l' p]; [by destruct n|].
    unfold holes_at at 1. simpl. rewrite lookup_insert.
    destruct (decide (l = l')) as [<-|Hne].
    + simpl. fold (holes_at p (at_path f q (default new_node (children n !! l)))). rewrite IH.
      assert (holes_at (l :: p) n = holes_at p (default new_node (children n !! l)) ∧
        owners_at (l :: q) n = owners_at q (default new_node (children n !! l)) ∧
        holes_at (l :: q) n = holes_at q (default new_node (children n !! l))) as (-> & Eo & Eh).
      { split_and!; apply at_child; apply node_at_new. }
      rewrite Eo, Eh.
      destruct (decide (p = q)) as [->|Hne']; [|by rewrite decide_False by congruence].
      rewrite decide_True by done. do 2 f_equal.
      destruct (children n !! l); simpl; [done|]. by destruct q; simpl; rewrite ?lookup_empty.
    + rewrite decide_False by congruence. unfold holes_at. simpl.
      by destruct (children n !! l').
Qed.

Lemma add_owner_children id d m : children (add_owner id d m) = children m.
Proof. unfold add_owner. by case_match. Qed.

Section registered.
Context `{U : GoUnicode}.

(** A domain that is registered at all, and its path. *)
Definition labels_of (raw : string) : option (list string) :=
  let d := normalizeDomain raw in
  if String.eqb d "" then None else Some (splitLabels d).

Lemma Add_owners raw id p idx :
  owners_at p (Add raw id idx) =
  if decide (labels_of raw = Some p ∧ id ≠ "")
  then match owners_at p idx !! id with
       | Some _ => owners_at p idx
       | None => <[id := normalizeDomain raw]> (owners_at p idx)
       end
  else owners_at p idx.
Proof.
  unfold Add, labels_of. cbv zeta.
  destruct (String.eqb_spec (normalizeDomain raw) ""); cbn [orb];
    [case_decide; [naive_solver|done]|].
  destruct (String.eqb_spec id ""); [case_decide; [naive_solver|done]|].
  rewrite at_path_owners by apply add_owner_children.
  destruct (decide (p = _)) as [->|Hne]; [|by rewrite decide_False by naive_solver].
  rewrite decide_True by done. unfold add_owner. simpl. by case_match.
Qed.

Lemma Add_holes raw id p idx : holes_at p (Add raw id idx) = holes_at p idx.
Proof.
  unfold Add. cbv zeta. case_match; [done|]. rewrite at_path_holes by apply add_owner_children.
  case_decide; [subst|done]. unfold add_owner. simpl. by case_match.
Qed.

Lemma Hole_owners raw id p idx : owners_at p (AddExcludeHole raw id idx) = owners_at p idx.
Proof.
  unfold AddExcludeHole. cbv zeta. case_match; [done|]. rewrite at_path_owners by done.
  case_decide; by subst.
Qed.

Lemma Hole_holes raw id p idx :
  holes_at p (AddExcludeHole raw id idx) =
  if decide (labels_of raw = Some p ∧ id ≠ "") then {[id]} ∪ holes_at p idx else holes_at p idx.
Proof.
  unfold AddExcludeHole, labels_of. cbv zeta.
  destruct (String.eqb_spec (normalizeDomain raw) ""); cbn [orb];
    [case_decide; [naive_solver|done]|].
  destruct (String.eqb_spec id ""); [case_decide; [naive_solver|done]|].
  rewrite at_path_holes by done.
  destruct (decide (p = _)) as [->|Hne]; [|by rewrite decide_False by naive_solver].
  by rewrite decide_True.
Qed.

(** The indexes the program can build. *)
Inductive built : trieNode → Prop :=
  | built_new : built NewDomainIndex
  | built_add d id idx : built idx → built (Add d id idx)
  | built_hole d id idx : built idx → built (AddExcludeHole d id idx).

Lemma built_no_empty idx p : built idx → owners_at p idx !! "" = None.
Proof.
  intros Hb. induction Hb as [|d id idx _ IH|d id idx _ IH].
  - unfold NewDomainIndex. by rewrite (proj1 (node_at_new p)).
  - rewrite Add_owners. case_decide as Hd; [|done]. case_match; [done|].
    rewrite lookup_insert_ne; [done|naive_solver].
  - by rewrite Hole_owners.
Qed.

Lemma root_stack idx : stack_ok idx [] [].
Proof.
  split; [constructor|]. intros x. split; [set_solver|].
  intros (H1 & H2 & H3 & _). by apply prefix_nil_inv in H2.
Qed.

Lemma Check_ok range idx d q :
  (∀ m, map_range m (range m)) → built idx → labels_of d = Some q →
  check_ok idx q (Check range d idx).
Proof.
  intros Hr Hb Hq. unfold Check, labels_of in *. cbv zeta in *. case_match; simplify_eq.
  apply (check_loop_ok range idx (splitLabels (normalizeDomain d)) Hr
    (λ p, built_no_empty idx p Hb) [] idx []); [done|apply root_stack].
Qed.

Lemma Check_None range idx d : labels_of d = None → Check range d idx = not_removed.
Proof. unfold labels_of, Check. cbv zeta. by case_match. Qed.
End registered.

(** C36: checking a domain against an index answers: an exact hit when some list
    owns the domain itself (the smallest such list ID, holes irrelevant); else
    a wildcard hit when some list owns a proper ancestor with none of its own
    exclude holes in between (the deepest such ancestor, then the greatest list
    ID); else nothing.  The random order of the maps does not matter. *)
Theorem Check_spec `{GoUnicode} (range : gmap string string → list (string * string))
    (idx : trieNode) (d : string) (q : list string) :
  (∀ m, map_range m (range m)) → built idx → labels_of d = Some q →
  let res := Check range d idx in
  (Removed res = true ∧ Reason res = "exact" ∧
   owners_at q idx !! OwnerListID res = Some (CoveredBy res) ∧
   ∀ id, is_Some (owners_at q idx !! id) → String.le (OwnerListID res) id) ∨
  (owners_at q idx = ∅ ∧ Removed res = true ∧ Reason res = "wildcard" ∧
   ∃ p, covers idx q p (OwnerListID res) (CoveredBy res) ∧
   ∀ p' id' dom', covers idx q p' id' dom' →
     length p' < length p ∨ (p' = p ∧ String.le id' (OwnerListID res))) ∨
  (res = not_removed ∧ owners_at q idx = ∅ ∧ ∀ p id dom, ¬ covers idx q p id dom).
Proof. intros Hr Hb Hq. exact (Check_ok range idx d q Hr Hb Hq). Qed.

(** Two lists: the first owns "example.com" with a hole at "ads.example.com",
    the second owns "ads.example.com". *)
Definition ex_lists : list DomainList :=
  [ plain_list "list-1" "work" ["Example.com."] ["ads.example.com"] [];
    plain_list "list-2" "ads" ["ads.example.com"] [] [] ].

Section build.
Context `{U : GoUnicode}.

Definition owned (p : list string) (id : string) (idx : trieNode) : Prop :=
  is_Some (owners_at p idx !! id).

Lemma owned_Add raw id p id' idx :
  owned p id' (Add raw id idx) ↔
  owned p id' idx ∨ (labels_of raw = Some p ∧ id ≠ "" ∧ id' = id).
Proof.
  unfold owned. rewrite Add_owners. case_decide as Hd.
  - destruct (owners_at p idx !! id) eqn:E.
    + split; [by left|]. intros [?|(_ & _ & ->)]; [done|]. by rewrite E.
    + destruct (decide (id' = id)) as [->|Hne].
      * rewrite lookup_insert_eq. split; [right; naive_solver|done].
      * rewrite lookup_insert_ne by done. naive_solver.
  - naive_solver.
Qed.

Lemma hole_Add raw id p id' idx :
  id' ∈ holes_at p (AddExcludeHole raw id idx) ↔
  id' ∈ holes_at p idx ∨ (labels_of raw = Some p ∧ id ≠ "" ∧ id' = id).
Proof. rewrite Hole_holes. case_decide; set_solver. Qed.

Lemma adds_owned id ds p id' idx :
  (owned p id' (foldl (λ idx d, Add d id idx) idx ds) ↔
   owned p id' idx ∨ (id ≠ "" ∧ id' = id ∧ ∃ d, d ∈ ds ∧ labels_of d = Some p)) ∧
  holes_at p (foldl (λ idx d, Add d id idx) idx ds) = holes_at p idx ∧
  (built idx → built (foldl (λ idx d, Add d id idx) idx ds)).
Proof.
  revert idx. induction ds as [|d ds IH]; intros idx; simpl.
  { split_and!; [set_solver|done|done]. }
  destruct (IH (Add d id idx)) as (H1 & H2 & H3). split_and!.
  - rewrite H1, owned_Add. set_solver.
  - by rewrite H2, Add_holes.
  - intros Hb. by apply H3, built_add.
Qed.

Lemma holes_owned id es p id' idx :
  (id' ∈ holes_at p (foldl (λ idx e, AddExcludeHole e id idx) idx es) ↔
   id' ∈ holes_at p idx ∨ (id ≠ "" ∧ id' = id ∧ ∃ e, e ∈ es ∧ labels_of e = Some p)) ∧
  owners_at p (foldl (λ idx e, AddExcludeHole e id idx) idx es) = owners_at p idx ∧
  (built idx → built (foldl (λ idx e, AddExcludeHole e id idx) idx es)).
Proof.
  revert idx. induction es as [|e es IH]; intros idx; simpl.
  { split_and!; [set_solver|done|done]. }
  destruct (IH (AddExcludeHole e id idx)) as (H1 & H2 & H3). split_and!.
  - rewrite H1, hole_Add. set_solver.
  - by rewrite H2, Hole_owners.
  - intros Hb. by apply H3, built_hole.
Qed.

(** The lists that count, and what they register. *)
Definition registers (f : DomainList → list string) (lists : list DomainList)
    (ex p_id : string) (p : list string) : Prop :=
  ∃ l d, l ∈ lists ∧ dl_ID l = p_id ∧ p_id ≠ ex ∧ p_id ≠ "" ∧ d ∈ f l ∧ labels_of d = Some p.

Lemma add_list_spec ex l idx p id :
  (owned p id (add_list ex idx l) ↔ owned p id idx ∨ registers dl_Domains [l] ex id p) ∧
  (id ∈ holes_at p (add_list ex idx l) ↔ id ∈ holes_at p idx ∨ registers dl_Excludes [l] ex id p) ∧
  (built idx → built (add_list ex idx l)).
Proof.
  unfold add_list, registers.
  destruct (String.eqb_spec (dl_ID l) ex) as [E|E]; [split_and!; [set_solver..|done]|].
  destruct (adds_owned (dl_ID l) (dl_Domains l) p id idx) as (H1 & H2 & H3).
  destruct (holes_owned (dl_ID l) (dl_Excludes l) p id
    (foldl (λ idx d, Add d (dl_ID l) idx) idx (dl_Domains l))) as (H4 & H5 & H6).
  cbv zeta. split_and!.
  - unfold owned in *. rewrite H5, H1. set_solver.
  - rewrite H4, H2. set_solver.
  - auto.
Qed.

Lemma build_from ex lists idx p id :
  (owned p id (foldl (add_list ex) idx lists) ↔ owned p id idx ∨ registers dl_Domains lists ex id p) ∧
  (id ∈ holes_at p (foldl (add_list ex) idx lists) ↔
     id ∈ holes_at p idx ∨ registers dl_Excludes lists ex id p) ∧
  (built idx → built (foldl (add_list ex) idx lists)).
Proof.
  revert idx. induction lists as [|l lists IH]; intros idx; simpl.
  { unfold registers. split_and!; [set_solver..|done]. }
  destruct (IH (add_list ex idx l)) as (H1 & H2 & H3).
  destruct (add_list_spec ex l idx p id) as (H4 & H5 & H6). split_and!; [| |auto].
  - rewrite H1, H4. unfold registers. set_solver.
  - rewrite H2, H5. unfold registers. set_solver.
Qed.
End build.

(** an index built from the lists registers, at the path of each domain,
    exactly the other lists that own it, and as holes exactly the lists that
    exclude it; the edited list itself (and a list without ID) never counts. *)
Theorem BuildIndex_spec `{GoUnicode} (lists : list DomainList) (ex : string)
    (p : list string) (id : string) :
  built (BuildIndex lists ex) ∧
  (is_Some (owners_at p (BuildIndex lists ex) !! id) ↔
   ∃ l d, l ∈ lists ∧ dl_ID l = id ∧ id ≠ ex ∧ id ≠ "" ∧ d ∈ dl_Domains l ∧
          labels_of d = Some p) ∧
  (id ∈ holes_at p (BuildIndex lists ex) ↔
   ∃ l e, l ∈ lists ∧ dl_ID l = id ∧ id ≠ ex ∧ id ≠ "" ∧ e ∈ dl_Excludes l ∧
          labels_of e = Some p).
Proof.
  destruct (build_from ex lists NewDomainIndex p id) as (H1 & H2 & H3).
  destruct (node_at_new p) as [Eo Eh].
  split; [apply H3, built_new|]. unfold BuildIndex, owned, NewDomainIndex in *.
  rewrite H1, H2, Eo, Eh. split.
  - split; [intros [[? ?]|?]; done|by right].
  - split; [intros [?|?]; set_solver|by right].
Qed.

Lemma Check_spec_witness :
  let idx := BuildIndex (U := plain_unicode) ex_lists "list-9" in
  let res := Check (U := plain_unicode) map_to_list "www.example.com" idx in
  res = {| Removed := true; Reason := "wildcard"; CoveredBy := "example.com";
           OwnerListID := "list-1" |} ∧
  ∃ p, covers idx ["com"; "example"; "www"] p (OwnerListID res) (CoveredBy res).
Proof.
  split; [by vm_compute|].
  destruct (Check_spec (H := plain_unicode) map_to_list
    (BuildIndex (U := plain_unicode) ex_lists "list-9") "www.example.com"
    ["com"; "example"; "www"]) as [H|[H|H]].
  - intros m. apply map_range_self.
  - apply (build_from (U := plain_unicode) "list-9" ex_lists NewDomainIndex [] ""), built_new.
  - by vm_compute.
  - destruct H as (_ & E & _). by vm_compute in E.
  - destruct H as (_ & _ & _ & p & Hp & _). by exists p.
  - destruct H as (E & _). by vm_compute in E.
Defined.

(** The hole lets the second list claim the subtree. *)
Example ex_hole :
  Check (U := plain_unicode) map_to_list "x.ads.example.com"
    (BuildIndex (U := plain_unicode) ex_lists "list-2") = not_removed.
Proof. by vm_compute. Qed.

(** ** A batch *)

Section batch.
Context `{U : GoUnicode} (range : gmap string string → list (string * string)).
Context (range_ok : ∀ m, map_range m (range m)).
Context (idx : trieNode) (cur : string) (names : gmap string string).
Context (cur_ne : cur ≠ "").

(** [d'] is [d] or an ancestor of it. *)
Definition above (d' d : string) : Prop :=
  ∃ q' q, labels_of d' = Some q' ∧ labels_of d = Some q ∧ q' `prefix_of` q.

(** The working index holds the kept domains, without holes. *)
Definition work_ok (kept : list string) (work : trieNode) : Prop :=
  built work ∧ (∀ p id, owned p id work ↔ id = cur ∧ ∃ d, d ∈ kept ∧ labels_of d = Some p) ∧
  ∀ p, holes_at p work = ∅.

Lemma splitLabels_ne d : splitLabels d ≠ [].
Proof.
  unfold splitLabels. intros E. apply (f_equal length) in E. rewrite length_reverse in E.
  destruct d as [|c d]; simpl in E; [done|]. repeat case_match; simpl in E; done.
Qed.

Lemma labels_ne d q : labels_of d = Some q → q ≠ [].
Proof.
  unfold labels_of. cbv zeta. case_match; [done|]. intros ?; simplify_eq. apply splitLabels_ne.
Qed.

Lemma work_check kept work d :
  work_ok kept work →
  Removed (Check range d work) = true ↔ ∃ d', d' ∈ kept ∧ above d' d.
Proof.
  intros (Hb & Ho & Hh). unfold above. destruct (labels_of d) as [q|] eqn:Eq.
  2: { rewrite Check_None by done. split; [done|]. intros (? & _ & ? & ? & _ & ? & _). done. }
  destruct (Check_ok range work d q range_ok Hb Eq) as [H|[H|H]].
  - destruct H as (-> & _ & H & _). split; [intros _|done].
    assert (owned q (OwnerListID (Check range d work)) work) as Hown by (by eexists).
    apply Ho in Hown as (_ & d' & Hd' & Hl). exists d'. eauto 10.
  - destruct H as (_ & -> & _ & p & (Hne & Hp & _ & Hown & _) & _). split; [intros _|done].
    assert (owned p (OwnerListID (Check range d work)) work) as Hown' by (by eexists).
    apply Ho in Hown' as (_ & d' & Hd' & Hl). exists d'. eauto 10.
  - destruct H as (-> & Hex & Hnone). split; [done|]. intros (d' & Hd' & q' & ? & Hl & [= <-] & Hp).
    assert (owned q' cur work) as [dom Hdom] by (apply Ho; eauto).
    destruct (decide (q' = q)) as [->|Hne]; [by rewrite Hex in Hdom|].
    exfalso. apply (Hnone q' cur dom). split_and!; [by eapply labels_ne|done..|].
    intros r _ _. rewrite Hh. set_solver.
Qed.

Lemma work_add kept work d : work_ok kept work → work_ok (kept ++ [d]) (Add d cur work).
Proof.
  intros (Hb & Ho & Hh). split_and!; [by constructor| |intros p; by rewrite Add_holes].
  intros p id. rewrite owned_Add, Ho. set_solver.
Qed.

Definition report_ok (r : DedupeReport) : Prop :=
  TotalRemoved r = ExactDupes r + WildcardDupes r ∧ TotalRemoved r = length (Items r).

(** What the loop guarantees of the kept domains [kept'] and the report, when it
    starts from [kept]. *)
Lemma batch_loop_ok domains : ∀ work kept r,
  work_ok kept work → report_ok r →
  let '(kept', r') := batch_loop range idx cur names domains work kept r in
  ∃ new, kept' = kept ++ new ∧ report_ok r' ∧ TotalInput r' = TotalInput r ∧
    TotalRemoved r' + length new =
      TotalRemoved r + length (filter (λ raw, normalizeDomain raw ≠ "") domains) ∧
    (∀ d, d ∈ new → Removed (Check range d idx) = false ∧ ∀ d', d' ∈ kept → ¬ above d' d) ∧
    StronglySorted (λ d' d, ¬ above d' d) new ∧
    (∀ raw, raw ∈ domains → normalizeDomain raw ≠ "" →
      normalizeDomain raw ∈ new ∨ Removed (Check range (normalizeDomain raw) idx) = true ∨
      ∃ d', d' ∈ kept' ∧ above d' (normalizeDomain raw)).
Proof.
  induction domains as [|raw domains IH]; intros work kept r Hw Hr.
  { simpl. exists []. rewrite app_nil_r. split_and!; try done; [set_solver|constructor|set_solver]. }
  simpl. rewrite filter_cons. destruct (String.eqb_spec (normalizeDomain raw) "") as [Hz|Hz].
  { rewrite decide_False by naive_solver. specialize (IH work kept r Hw Hr).
    destruct (batch_loop _ _ _ _ _ _ _) as [kept' r'].
    destruct IH as (new & H1 & H2 & H3 & H4 & H5 & H6 & H7). exists new.
    split_and!; try done. intros raw' [->|Hin]%elem_of_cons; [done|by apply H7]. }
  rewrite decide_True by done. set (d := normalizeDomain raw) in *.
  assert (∀ exact it, report_ok (count_removed r exact it)) as Hcount.
  { intros exact it. destruct Hr as [H1 H2]. unfold report_ok. simpl.
    rewrite length_app. simpl. destruct exact; lia. }
  destruct (Removed (Check range d idx)) eqn:E1.
  { specialize (IH work kept _ Hw (Hcount (String.eqb (Reason (Check range d idx)) "exact") {|
      di_Domain := d; di_Reason := Reason (Check range d idx);
      di_CoveredBy := CoveredBy (Check range d idx); di_ListID := OwnerListID (Check range d idx);
      di_ListName := default "" (names !! OwnerListID (Check range d idx)) |})).
    destruct (batch_loop _ _ _ _ _ _ _) as [kept' r'].
    destruct IH as (new & H1 & H2 & H3 & H4 & H5 & H6 & H7). exists new.
    simpl in *. split_and!; try done; [lia|].
    intros raw' [->|Hin]%elem_of_cons; [by right; left|by apply H7]. }
  destruct (Removed (Check range d work)) eqn:E2.
  { specialize (IH work kept _ Hw (Hcount (String.eqb (Reason (Check range d work)) "exact") {|
      di_Domain := d; di_Reason := Reason (Check range d work);
      di_CoveredBy := CoveredBy (Check range d work); di_ListID := cur;
      di_ListName := default "" (names !! cur) |})).
    destruct (batch_loop _ _ _ _ _ _ _) as [kept' r'].
    destruct IH as (new & H1 & H2 & H3 & H4 & H5 & H6 & H7). exists new.
    simpl in *. split_and!; try done; [lia|].
    intros raw' [->|Hin]%elem_of_cons; [|by apply H7]. intros _. right; right.
    apply (work_check kept work d Hw) in E2 as (d' & Hd' & Ha). exists d'.
    split; [|done]. rewrite H1. set_solver. }
  specialize (IH _ _ r (work_add kept work d Hw) Hr).
  destruct (batch_loop _ _ _ _ _ _ _) as [kept' r'].
  destruct IH as (new & H1 & H2 & H3 & H4 & H5 & H6 & H7). exists (d :: new).
  assert (∀ d', d' ∈ kept → ¬ above d' d) as Hfree.
  { intros d' Hd' Ha. assert (Removed (Check range d work) = true); [|congruence].
    apply (work_check kept work d Hw). eauto. }
  split_and!; try done.
  - by rewrite H1, <- (assoc_L (++)).
  - simpl. lia.
  - intros d0 [->|Hd0]%elem_of_cons; [by split|]. destruct (H5 d0 Hd0) as [? Hk].
    split; [done|]. intros d' Hd'. apply Hk. set_solver.
  - constructor; [done|]. apply Forall_forall. intros d0 Hd0. apply (H5 d0 Hd0). set_solver.
  - intros raw' [->|Hin]%elem_of_cons Hne; [left; set_solver|].
    destruct (H7 raw' Hin Hne) as [?|[?|?]]; [left; set_solver|by right; left|by right; right].
Qed.
End batch.

(** deduplicating a batch keeps exactly what is new: every kept domain is
    covered by no other list and by no domain kept before it, every dropped one
    is covered by another list or by a kept domain, and the report adds up
    (kept and removed are all the non-blank inputs, one item per removal). *)
Theorem CheckBatch_spec `{GoUnicode} (range : gmap string string → list (string * string))
    (idx : trieNode) (domains : list string) (cur : string) (names : gmap string string) :
  (∀ m, map_range m (range m)) → cur ≠ "" →
  let '(kept, r) := CheckBatch range idx domains cur names in
  TotalInput r = length domains ∧ TotalKept r = length kept ∧
  TotalRemoved r = ExactDupes r + WildcardDupes r ∧ TotalRemoved r = length (Items r) ∧
  TotalKept r + TotalRemoved r = length (filter (λ raw, normalizeDomain raw ≠ "") domains) ∧
  Forall (λ d, Removed (Check range d idx) = false) kept ∧
  StronglySorted (λ d' d, ¬ above d' d) kept ∧
  Forall (λ raw, normalizeDomain raw = "" ∨ normalizeDomain raw ∈ kept ∨
    Removed (Check range (normalizeDomain raw) idx) = true ∨
    ∃ d', d' ∈ kept ∧ above d' (normalizeDomain raw)) domains.
Proof.
  intros Hr Hcur. unfold CheckBatch. destruct domains as [|d0 ds].
  { simpl. split_and!; try done; constructor. }
  set (domains := d0 :: ds). set (r0 := {| TotalInput := _ |}).
  pose proof (batch_loop_ok range Hr idx cur names Hcur domains NewDomainIndex [] r0) as H'.
  destruct (batch_loop _ _ _ _ _ _ _) as [kept r'].
  destruct H' as (new & -> & [Hr1 Hr2] & Hin & Hsum & Hkept & Hsort & Hall).
  - unfold NewDomainIndex. split_and!; [apply built_new| |intros p; apply node_at_new].
    intros p id. unfold owned. rewrite (proj1 (node_at_new p)). split; [intros [? ?]; done|set_solver].
  - by split.
  - simpl in *. split_and!; try done; [lia| |].
    + apply Forall_forall. intros d Hd. by apply Hkept.
    + apply Forall_forall. intros raw Hraw.
      destruct (decide (normalizeDomain raw = "")); [by left|right]. by apply Hall.
Qed.

Lemma CheckBatch_spec_witness :
  let idx := BuildIndex (U := plain_unicode) ex_lists "list-9" in
  let '(kept, r) := CheckBatch (U := plain_unicode) map_to_list idx
    ["www.example.com"; "other.org"; "a.other.org"; "new.ads.example.net"] "list-9" ∅ in
  kept = ["other.org"; "new.ads.example.net"] ∧ TotalRemoved r = 2 ∧
  StronglySorted (λ d' d, ¬ above (U := plain_unicode) d' d) kept.
Proof.
  pose proof (CheckBatch_spec (H := plain_unicode) map_to_list
    (BuildIndex (U := plain_unicode) ex_lists "list-9")
    ["www.example.com"; "other.org"; "a.other.org"; "new.ads.example.net"] "list-9" ∅
    (λ m, map_range_self m) ltac:(done)) as H.
  cbv zeta. destruct (CheckBatch _ _ _ _ _) as [kept r] eqn:E. vm_compute in E.
  destruct H as (_ & _ & _ & _ & _ & _ & Hs & _). injection E as <- <-. by split_and!.
Defined.

(** normalising a domain is not idempotent, so the batch can keep a blank
    entry: the input ". ." becomes " ", which is not empty, but which the index
    normalises again and ignores. *)
Theorem batch_keeps_blank :
  normalizeDomain (U := plain_unicode) ". ." = " " ∧
  normalizeDomain (U := plain_unicode) " " = "" ∧
  (CheckBatch (U := plain_unicode) map_to_list NewDomainIndex [". ."] "list-1" ∅).1 = [" "].
Proof. by vm_compute. Qed.
