(* ===== verification/DnsSync.v ===== *)
(** * DNS route synchronisation ([internal/dnsroute/sync.go])

    The desired router state is computed from the stored lists, compared with
    the state the router reports, and the difference is applied through the
    commands of [internal/ndms/command] (dnsroutes.go, objectgroups.go,
    mutation.go).  The router itself is the class [DnsRouter]: posting a payload
    and listing the routes; what the code relies on is [DnsRouterLaws]. *)
From S2P Require Import Prelude GoLib DnsTypes.

(** ** The desired state *)

Record targetGroup := { tg_name : string; tg_includes : list string; tg_excludes : list string }.
Record targetRoute := {
  tr_group : string; tr_iface : string; tr_fallback : string; tr_disabled : bool;
}.
Record targetState := { ts_groups : list targetGroup; ts_routes : list targetRoute }.

(** ** The actual state *)

Record FQDNGroup := { fg_Name : string; fg_Includes : list string; fg_Excludes : list string }.
Record DNSRouteRule := {
  dr_Group : string; dr_Interface : string; dr_Auto : bool; dr_Reject : bool;
  dr_Index : string; dr_Disabled : bool;
}.

Record currentGroupData := { cg_includes : list string; cg_excludes : list string }.
Record currentRoute := {
  cr_group : string; cr_iface : string; cr_fallback : string; cr_index : string;
  cr_disabled : bool;
}.
Record currentState := { cs_groups : gmap string currentGroupData; cs_routes : list currentRoute }.

(** ** The difference *)

Record rciRouteDelete := { rd_Group : string; rd_Iface : string }.
Record rciRouteDisable := {
  rx_Index : string; rx_Disabled : bool; rx_Group : string; rx_Iface : string;
}.
Record rciRouteOp := {
  ro_Group : string; ro_Iface : string; ro_Auto : bool; ro_Reject : bool; ro_Disabled : bool;
}.
Record rciGroupUpdate := {
  gu_name : string; gu_addIncludes : list string; gu_removeIncludes : list string;
  gu_addExcludes : list string; gu_removeExcludes : list string; gu_isNew : bool;
}.
Record rciDiff := {
  routeDeletes : list rciRouteDelete;
  groupDeletes : list string;
  groupUpdates : list rciGroupUpdate;
  routeUpserts : list rciRouteOp;
  routeDisables : list rciRouteDisable;
}.

Definition is_nil {A} (l : list A) : bool := match l with [] => true | _ => false end.

Definition isEmpty (d : rciDiff) : bool :=
  is_nil (routeDeletes d) && is_nil (groupDeletes d) && is_nil (groupUpdates d) &&
  is_nil (routeUpserts d) && is_nil (routeDisables d).

(** ** Names of the object groups *)

(** [for _, r := range s] decodes UTF-8; a byte that starts no valid sequence is
    the rune U+FFFD. *)
Definition cont_byte (c : ascii) : option Z :=
  let n := byte_code c in
  if ((128 <=? n) && (n <? 192))%nat then Some (Z.of_nat n - 128)%Z else None.

Definition rune_error : Z := 65533.

(** The rune at the head of [c :: s] and the number of further bytes it takes. *)
Definition decode_rune (c : ascii) (s : list ascii) : Z * nat :=
  let n := Z.of_nat (byte_code c) in
  let bad := (rune_error, 0) in
  if (n <? 128)%Z then (n, 0)
  else if (n <? 194)%Z then bad
  else if (n <? 224)%Z then
    match s with
    | c1 :: _ => match cont_byte c1 with Some a => (((n - 192) * 64 + a)%Z, 1) | _ => bad end
    | _ => bad
    end
  else if (n <? 240)%Z then
    match s with
    | c1 :: c2 :: _ =>
        match cont_byte c1, cont_byte c2 with
        | Some a, Some b =>
            let r := ((n - 224) * 4096 + a * 64 + b)%Z in
            if (r <? 2048)%Z || (55296 <=? r)%Z && (r <? 57344)%Z then bad else (r, 2)
        | _, _ => bad
        end
    | _ => bad
    end
  else if (n <? 245)%Z then
    match s with
    | c1 :: c2 :: c3 :: _ =>
        match cont_byte c1, cont_byte c2, cont_byte c3 with
        | Some a, Some b, Some c =>
            let r := ((n - 240) * 262144 + a * 4096 + b * 64 + c)%Z in
            if (r <? 65536)%Z || (1114112 <=? r)%Z then bad else (r, 3)
        | _, _, _ => bad
        end
    | _ => bad
    end
  else bad.

(** [skip]: bytes that belong to the rune before. *)
Fixpoint runes_from (skip : nat) (l : list ascii) : list Z :=
  match l with
  | [] => []
  | c :: l =>
      match skip with
      | S k => runes_from k l
      | O => let '(r, k) := decode_rune c l in r :: runes_from k l
      end
  end.
Definition runes (s : string) : list Z := runes_from 0 (String.list_ascii_of_string s).

(** The Cyrillic letters U+0430 .. U+044F in order, and U+0451. *)
Definition cyr_table : list string :=
  ["a"; "b"; "v"; "g"; "d"; "e"; "zh"; "z"; "i"; "y"; "k"; "l"; "m"; "n"; "o"; "p";
   "r"; "s"; "t"; "u"; "f"; "kh"; "ts"; "ch"; "sh"; "sch"; ""; "y"; ""; "e"; "yu"; "ya"].
Definition cyrTranslit (r : Z) : option string :=
  if (r =? 1105)%Z then Some "yo"
  else if (1072 <=? r)%Z then cyr_table !! Z.to_nat (r - 1072) else None.

Definition slug_rune (r : Z) : string :=
  match cyrTranslit r with
  | Some tr => tr
  | None =>
      if ((97 <=? r) && (r <=? 122) || (48 <=? r) && (r <=? 57))%Z
      then String (ascii_of_nat (Z.to_nat r)) "" else "_"
  end.

(** [collapseUnderscores.ReplaceAllString(s, "_")] *)
Fixpoint collapse (prev : bool) (s : string) : string :=
  match s with
  | EmptyString => ""
  | String c s' =>
      if Ascii.eqb c "_" then if prev then collapse true s' else String c (collapse true s')
      else String c (collapse false s')
  end.

Definition maxGroupNamePart : nat := 20.

Definition underscore (c : ascii) : bool := Ascii.eqb c "_".
Definition trim_underscores (s : string) : string := trim_left underscore (trim_right underscore s).

Definition is_slug (c : ascii) : bool :=
  let n := byte_code c in is_digit c || ((97 <=? n) && (n <=? 122))%nat || underscore c.

(** [awgGroupNameRE], [^[a-z0-9_]+_p[0-9]+$], read from the right: the digits
    are the longest digit suffix, for "p" is none. *)
Fixpoint drop_digits (l : list ascii) : list ascii :=
  match l with c :: l' => if is_digit c then drop_digits l' else l | [] => [] end.

Definition IsAWGManagedName (name : string) : bool :=
  let l := reverse (String.list_ascii_of_string name) in
  match l with
  | c :: _ =>
      is_digit c &&
      match drop_digits l with
      | p :: u :: x :: r => Ascii.eqb p "p" && underscore u && forallb is_slug (x :: r)
      | _ => false
      end
  | [] => false
  end.

Definition isOwned (name : string) : bool := IsAWGManagedName name || HasPrefix name "AWG_".

Definition isNDMS (backend : string) : bool := String.eqb backend "" || String.eqb backend "ndms".

Definition materializedFallback (f : string) : string :=
  if String.eqb f "reject" then "reject" else "".

(** [items[i:i+budget]] for [i] = 0, budget, ...; the fuel is the number of
    items left, enough as the budget is at least 1. *)
Fixpoint chunks_of (fuel budget : nat) (items : list string) : list (list string) :=
  match fuel, items with
  | S fuel, _ :: _ => take budget items :: chunks_of fuel budget (drop budget items)
  | _, _ => []
  end.

Definition chunkWithReserve (items : list string) (maxPerChunk reserved : Z) : list (list string) :=
  if (maxPerChunk <=? 0)%Z || is_nil items then []
  else
    let budget := (maxPerChunk - reserved)%Z in
    let budget := if (budget <? 1)%Z then 1%Z else budget in
    chunks_of (length items) (Z.to_nat budget) items.

Section sync.
Context `{U : GoUnicode}.

Definition sanitizeGroupName (name : string) : string :=
  let s := foldr (λ r acc, slug_rune r +:+ acc) "" (runes (ToLower name)) in
  let s := trim_underscores (collapse false s) in
  (* s is ASCII, so its runes are its bytes *)
  if (maxGroupNamePart <? String.length s)%nat
  then trim_right underscore (str_take maxGroupNamePart s) else s.

Definition GroupSlug (listID listName : string) : string :=
  let slug := sanitizeGroupName listName in
  if negb (String.eqb slug "") then slug
  else if HasPrefix listID "list_" then TrimPrefix listID "list_" else listID.

Definition buildGroupName (listID listName : string) (chunk : Z) : string :=
  GroupSlug listID listName +:+ "_p" +:+ Itoa chunk.

(** ** [buildTargetState] *)

Definition activeRoutes (failed : gset string) (l : DomainList) : list RouteTarget :=
  filter (λ rt, rt_TunnelID rt ∉ failed) (dl_Routes l).

(** The last active route inherits the fallback of the last route. *)
Definition target_routes (failed : gset string) (l : DomainList) (groupName : string)
    : list targetRoute :=
  let active := activeRoutes failed l in
  imap (λ j rt,
    let fallback :=
      if (j =? length active - 1) && negb (is_nil (dl_Routes l))
      then default "" (rt_Fallback <$> last (dl_Routes l)) else "" in
    {| tr_group := groupName; tr_iface := rt_Interface rt;
       tr_fallback := materializedFallback fallback; tr_disabled := negb (dl_Enabled l) |}) active.

Definition list_chunks (l : DomainList) : list (list string) :=
  chunkWithReserve (dl_Domains l ++ dl_Subnets l) MaxDomainsPerGroup
    (Z.of_nat (length (dl_Excludes l))).

(** The groups and routes of one list. *)
Definition list_target (failed : gset string) (l : DomainList) : list (targetGroup * list targetRoute) :=
  if negb (isNDMS (dl_Backend l)) then []
  else if is_nil (dl_Domains l) && is_nil (dl_Subnets l) then []
  else
    imap (λ i chunk,
      let groupName := buildGroupName (dl_ID l) (dl_Name l) (Z.of_nat i + 1) in
      ({| tg_name := groupName; tg_includes := chunk; tg_excludes := dl_Excludes l |},
       target_routes failed l groupName)) (list_chunks l).

Definition buildTargetState (data : StoreData) (failed : gset string) : targetState :=
  let parts := flat_map (list_target failed) (sd_Lists data) in
  {| ts_groups := parts.*1; ts_routes := concat parts.*2 |}.

(** ** [filterAWGState] *)

Definition filterAWGState (groups : list FQDNGroup) (routes : list DNSRouteRule) : currentState := {|
  cs_groups := foldl (λ m g,
    if isOwned (fg_Name g)
    then <[fg_Name g := {| cg_includes := fg_Includes g; cg_excludes := fg_Excludes g |}]> m
    else m) ∅ groups;
  cs_routes := omap (λ r,
    if isOwned (dr_Group r)
    then Some {| cr_group := dr_Group r; cr_iface := dr_Interface r;
                 cr_fallback := if dr_Reject r then "reject" else "";
                 cr_index := dr_Index r; cr_disabled := dr_Disabled r |}
    else None) routes |}.

(** ** [computeDiff] *)

Definition lower_set (l : list string) : gset string := list_to_set (ToLower <$> l).

Definition diffStringSlices (current target : list string) : list string * list string :=
  (filter (λ s, ToLower s ∉ lower_set current) target,
   filter (λ s, ToLower s ∉ lower_set target) current).

Fixpoint routesEqual (current : list currentRoute) (target : list targetRoute) : bool :=
  match current, target with
  | [], [] => true
  | c :: current, t :: target =>
      String.eqb (cr_group c) (tr_group t) && String.eqb (cr_iface c) (tr_iface t) &&
      String.eqb (cr_fallback c) (tr_fallback t) && Bool.eqb (cr_disabled c) (tr_disabled t) &&
      routesEqual current target
  | _, _ => false
  end.

(** The iteration order over the maps of routes by group. *)
Context (range : ∀ V, gmap string V → list (string * V)).

Definition group_update (cur : gmap string currentGroupData) (tg : targetGroup)
    : option rciGroupUpdate :=
  match cur !! tg_name tg with
  | None => Some {| gu_name := tg_name tg; gu_addIncludes := tg_includes tg;
                    gu_removeIncludes := []; gu_addExcludes := tg_excludes tg;
                    gu_removeExcludes := []; gu_isNew := true |}
  | Some c =>
      let '(addInc, removeInc) := diffStringSlices (cg_includes c) (tg_includes tg) in
      let '(addExc, removeExc) := diffStringSlices (cg_excludes c) (tg_excludes tg) in
      if is_nil addInc && is_nil removeInc && is_nil addExc && is_nil removeExc then None
      else Some {| gu_name := tg_name tg; gu_addIncludes := addInc; gu_removeIncludes := removeInc;
                   gu_addExcludes := addExc; gu_removeExcludes := removeExc; gu_isNew := false |}
  end.

(** [m[k] = append(m[k], x)] over a list. *)
Definition group_by {A} (key : A → string) (l : list A) : gmap string (list A) :=
  foldl (λ m x, <[key x := default [] (m !! key x) ++ [x]]> m) ∅ l.

Definition delete_of (cr : currentRoute) : rciRouteDelete :=
  {| rd_Group := cr_group cr; rd_Iface := cr_iface cr |}.
Definition upsert_of (tr : targetRoute) : rciRouteOp :=
  {| ro_Group := tr_group tr; ro_Iface := tr_iface tr; ro_Auto := true;
     ro_Reject := String.eqb (tr_fallback tr) "reject"; ro_Disabled := tr_disabled tr |}.

(** Later routes of the same interface overwrite earlier ones. *)
Definition by_iface (curs : list currentRoute) : gmap string currentRoute :=
  foldl (λ m cr, <[cr_iface cr := cr]> m) ∅ curs.

Inductive route_change := Upsert (op : rciRouteOp) | Toggle (d : rciRouteDisable) | Keep.

Definition route_change_of (cur : gmap string currentRoute) (tr : targetRoute) : route_change :=
  match cur !! tr_iface tr with
  | None => Upsert (upsert_of tr)
  | Some cr =>
      if negb (String.eqb (cr_fallback cr) (tr_fallback tr)) then Upsert (upsert_of tr)
      else if negb (Bool.eqb (cr_disabled cr) (tr_disabled tr)) then
        Toggle {| rx_Index := cr_index cr; rx_Disabled := tr_disabled tr;
                  rx_Group := tr_group tr; rx_Iface := tr_iface tr |}
      else Keep
  end.

(** The changes of one target group: deletions, upserts, toggles. *)
Definition group_routes_diff (curs : list currentRoute) (tgts : list targetRoute)
    : list rciRouteDelete * list rciRouteOp * list rciRouteDisable :=
  if routesEqual curs tgts then ([], [], [])
  else
    let targetIfaceSet : gset string := list_to_set (tr_iface <$> tgts) in
    let changes := route_change_of (by_iface curs) <$> tgts in
    (delete_of <$> filter (λ cr, cr_iface cr ∉ targetIfaceSet) curs,
     omap (λ c, match c with Upsert op => Some op | _ => None end) changes,
     omap (λ c, match c with Toggle d => Some d | _ => None end) changes).

Definition computeDiff (current : currentState) (target : targetState) : rciDiff :=
  let targetGroupSet : gset string := list_to_set (tg_name <$> ts_groups target) in
  let groupDeletes := merge_sort String.le
    (filter (λ name, name ∉ targetGroupSet) (range _ (cs_groups current)).*1) in
  let currentByGroup := group_by cr_group (cs_routes current) in
  let targetByGroup := group_by tr_group (ts_routes target) in
  let current_of name := default [] (currentByGroup !! name) in
  let parts := (λ '(group, tgts), group_routes_diff (current_of group) tgts)
    <$> range _ targetByGroup in
  let deletedGroupSet : gset string := list_to_set groupDeletes in
  {| routeDeletes :=
       flat_map (λ name, delete_of <$> current_of name) groupDeletes ++
       flat_map (λ p, p.1.1) parts ++
       flat_map (λ '(group, curs),
         match targetByGroup !! group with
         | None => if bool_decide (group ∈ deletedGroupSet) then [] else delete_of <$> curs
         | Some _ => []
         end) (range _ currentByGroup);
     groupDeletes := groupDeletes;
     groupUpdates := omap (group_update (cs_groups current)) (ts_groups target);
     routeUpserts := flat_map (λ p, p.1.2) parts;
     routeDisables := flat_map (λ p, p.2) parts |}.
End sync.
