(* ===== verification/DnsApply.v ===== *)
(** * Applying the DNS route difference

    [applyDiff] and [reconcile] of [internal/dnsroute/sync.go] over the commands
    of [internal/ndms/command] (dnsroutes.go, objectgroups.go, mutation.go), and
    the laws of the router they rely on.  Journal lines and cache invalidations
    are left out: a listing after an invalidation asks the router. *)
From S2P Require Import Prelude GoLib DnsTypes DnsSync.

(** ** The RCI payloads *)

(** An element of [dns-proxy.route]: absent JSON booleans are [false]. *)
Record route_entry := {
  re_group : string; re_interface : string; re_no : bool; re_auto : bool; re_reject : bool;
}.
(** An element of [object-group.fqdn.<name>.include] or [.exclude]. *)
Record address_entry := { ae_address : string; ae_no : bool }.

Inductive payload :=
  | RoutePayload (l : list route_entry)
  | RouteDisable (index : string) (no : bool)
  | GroupsDelete (names : list string)
  | GroupEntries (name : string) (include exclude : list address_entry).

Inductive query_error := ErrNotSupportedOnOS4 | QueryError (msg : string).

Definition not_supported : string := "not supported on OS4".
Definition query_error_text (e : query_error) : string :=
  match e with ErrNotSupportedOnOS4 => not_supported | QueryError m => m end.

(** The router, its queries, and the save coordinator. *)
Class DnsRouter (R : Type) := {
  Post : payload → ST R (option string);
  list_routes : ST R (query_error + list DNSRouteRule);
  list_groups : ST R (query_error + list FQDNGroup);
  save_Request : R → R;
  save_Flush : ST R (option string);
}.

(** ** The commands *)

Record DNSRouteSpec := { sp_Group : string; sp_Interface : string; sp_Reject : bool }.
Record FQDNGroupMutation := {
  fm_Name : string; fm_AddIncludes : list string; fm_RemoveIncludes : list string;
  fm_AddExcludes : list string; fm_RemoveExcludes : list string;
}.

Section commands.
Context `{DnsRouter R}.
Variable isOS5 : bool.

Definition postMutation (p : payload) (opDesc : string) : ST R (option string) :=
  check (λ e, opDesc +:+ ": " +:+ e) (Post p) (_ ← modify save_Request; mret None).

Definition DeleteRoutes (specs : list DNSRouteSpec) : ST R (option string) :=
  if negb isOS5 then mret (Some not_supported)
  else if is_nil specs then mret None
  else postMutation (RoutePayload ((λ s, {| re_group := sp_Group s; re_interface := sp_Interface s;
                                            re_no := true; re_auto := false; re_reject := false |})
                                   <$> specs)) "delete dns-proxy routes".

Definition UpsertRoutes (specs : list DNSRouteSpec) : ST R (option string) :=
  if negb isOS5 then mret (Some not_supported)
  else if is_nil specs then mret None
  else postMutation (RoutePayload ((λ s, {| re_group := sp_Group s; re_interface := sp_Interface s;
                                            re_no := false; re_auto := true;
                                            re_reject := sp_Reject s |})
                                   <$> specs)) "upsert dns-proxy routes".

(** The save is flushed at once, not debounced. *)
Definition SetDisabled (index : string) (disabled : bool) : ST R (option string) :=
  if negb isOS5 then mret (Some not_supported)
  else if String.eqb index "" then mret None
  else
    check (λ e, "toggle dns-proxy route disable: " +:+ e) (Post (RouteDisable index (negb disabled)))
      (check (λ e, "save after dns-proxy disable toggle: " +:+ e) save_Flush (mret None)).

Definition DeleteGroups (names : list string) : ST R (option string) :=
  if is_nil names then mret None
  else postMutation (GroupsDelete names) "delete fqdn groups".

(** Removals first, then additions. *)
Definition buildEntries (adds removes : list string) : list address_entry :=
  ((λ a, {| ae_address := a; ae_no := true |}) <$> removes) ++
  ((λ a, {| ae_address := a; ae_no := false |}) <$> adds).

Definition UpsertGroup (m : FQDNGroupMutation) : ST R (option string) :=
  if String.eqb (fm_Name m) "" then mret (Some "upsert fqdn group: empty name")
  else if is_nil (fm_AddIncludes m ++ fm_RemoveIncludes m ++ fm_AddExcludes m ++ fm_RemoveExcludes m)
  then mret None
  else postMutation (GroupEntries (fm_Name m) (buildEntries (fm_AddIncludes m) (fm_RemoveIncludes m))
                       (buildEntries (fm_AddExcludes m) (fm_RemoveExcludes m)))
         ("upsert fqdn group " +:+ fm_Name m).

(** ** [applyDiff] *)

(** Phase 3 goes on after an error; the errors are collected. *)
Fixpoint update_groups (l : list rciGroupUpdate) : ST R (list string) :=
  match l with
  | [] => mret []
  | g :: l =>
      err ← UpsertGroup {| fm_Name := gu_name g; fm_AddIncludes := gu_addIncludes g;
                           fm_RemoveIncludes := gu_removeIncludes g;
                           fm_AddExcludes := gu_addExcludes g;
                           fm_RemoveExcludes := gu_removeExcludes g |};
      errs ← update_groups l;
      mret (match err with Some e => (gu_name g +:+ ": " +:+ e) :: errs | None => errs end)
  end.

Definition route_key (group iface : string) : string := group +:+ "|" +:+ iface.

(** The maps [indexByKey] and [disabledByKey]. *)
Definition fresh_routes (l : list DNSRouteRule) : gmap string (string * bool) :=
  foldl (λ m r, if String.eqb (dr_Index r) "" then m
                else <[route_key (dr_Group r) (dr_Interface r) := (dr_Index r, dr_Disabled r)]> m) ∅ l.

(** The toggle an upserted route still needs. *)
Definition pending_toggle (fresh : gmap string (string * bool)) (ro : rciRouteOp)
    : option rciRouteDisable :=
  match fresh !! route_key (ro_Group ro) (ro_Iface ro) with
  | None => None
  | Some (idx, disabled) =>
      if String.eqb idx "" then None
      else if Bool.eqb disabled (ro_Disabled ro) then None
      else Some {| rx_Index := idx; rx_Disabled := ro_Disabled ro; rx_Group := ro_Group ro;
                   rx_Iface := ro_Iface ro |}
  end.

(** Phase 5a: a failed listing is left to the next reconcile. *)
Definition post_disables (diff : rciDiff) : ST R (list rciRouteDisable) :=
  if is_nil (routeUpserts diff) then mret (routeDisables diff)
  else
    r ← list_routes;
    mret (match r with
          | inl _ => routeDisables diff
          | inr fresh => routeDisables diff ++
                         omap (pending_toggle (fresh_routes fresh)) (routeUpserts diff)
          end).

(** Phase 5b. *)
Fixpoint apply_toggles (l : list rciRouteDisable) (k : ST R (option string)) : ST R (option string) :=
  match l with
  | [] => k
  | rd :: l =>
      if String.eqb (rx_Index rd) "" then apply_toggles l k
      else check (λ e, "set disabled " +:+ rx_Group rd +:+ "->" +:+ rx_Iface rd +:+ ": " +:+ e)
             (SetDisabled (rx_Index rd) (rx_Disabled rd)) (apply_toggles l k)
  end.

Fixpoint join (sep : string) (l : list string) : string :=
  match l with
  | [] => ""
  | [s] => s
  | s :: l => s +:+ sep +:+ join sep l
  end.

Definition applyDiff (diff : rciDiff) : ST R (option string) :=
  check (λ e, "delete routes: " +:+ e)
    (if is_nil (routeDeletes diff) then mret None
     else DeleteRoutes ((λ rd, {| sp_Group := rd_Group rd; sp_Interface := rd_Iface rd;
                                  sp_Reject := false |}) <$> routeDeletes diff))
  (check (λ e, "delete groups: " +:+ e)
    (if is_nil (groupDeletes diff) then mret None else DeleteGroups (groupDeletes diff))
  (groupErrors ← update_groups (groupUpdates diff);
   check (λ e, "upsert routes: " +:+ e)
    (if is_nil (routeUpserts diff) then mret None
     else UpsertRoutes ((λ ro, {| sp_Group := ro_Group ro; sp_Interface := ro_Iface ro;
                                  sp_Reject := ro_Reject ro |}) <$> routeUpserts diff))
  (postDisables ← post_disables diff;
   apply_toggles postDisables
     (mret (if is_nil groupErrors then None
            else Some (Itoa (Z.of_nat (length groupErrors)) +:+ " group update(s) failed: " +:+
                       join "; " groupErrors)))))).

Context `{GoUnicode}.
Context (range : ∀ V, gmap string V → list (string * V)).

(** [reconcile]; [None]: the store is not loaded. *)
Definition reconcile (data : option StoreData) (failedSet : gset string) : ST R (option string) :=
  match data with
  | None => mret None
  | Some data =>
      let target := buildTargetState data failedSet in
      allRoutes ← list_routes;
      match allRoutes with
      | inl ErrNotSupportedOnOS4 => mret None
      | inl e => mret (Some ("show dns-proxy route: " +:+ query_error_text e))
      | inr allRoutes =>
          allGroups ← list_groups;
          match allGroups with
          | inl e => mret (Some ("show object-group fqdn: " +:+ query_error_text e))
          | inr allGroups =>
              let diff := computeDiff range (filterAWGState allGroups allRoutes) target in
              if isEmpty diff then mret None
              else check (λ e, "apply diff: " +:+ e) (applyDiff diff) (mret None)
          end
      end
  end.
End commands.

(** ** What the code relies on of the router *)

Definition rule_key (r : DNSRouteRule) : string * string := (dr_Group r, dr_Interface r).
Definition route_map (l : list DNSRouteRule) : gmap (string * string) DNSRouteRule :=
  list_to_map ((λ r, (rule_key r, r)) <$> l).
Definition group_map (l : list FQDNGroup) : gmap string FQDNGroup :=
  list_to_map ((λ g, (fg_Name g, g)) <$> l).

Definition set_reject (b : bool) (r : DNSRouteRule) : DNSRouteRule :=
  {| dr_Group := dr_Group r; dr_Interface := dr_Interface r; dr_Auto := dr_Auto r;
     dr_Reject := b; dr_Index := dr_Index r; dr_Disabled := dr_Disabled r |}.
Definition set_disabled (b : bool) (r : DNSRouteRule) : DNSRouteRule :=
  {| dr_Group := dr_Group r; dr_Interface := dr_Interface r; dr_Auto := dr_Auto r;
     dr_Reject := dr_Reject r; dr_Index := dr_Index r; dr_Disabled := b |}.

(** One entry of a route payload.  A route that exists keeps its index and its
    disable flag; a new one is enabled and has an index. *)
Definition entry_effect (e : route_entry) (m m' : gmap (string * string) DNSRouteRule) : Prop :=
  let k := (re_group e, re_interface e) in
  if re_no e then m' = delete k m
  else match m !! k with
       | Some r => m' = <[k := set_reject (re_reject e) r]> m
       | None => ∃ i, m' = <[k := {| dr_Group := re_group e; dr_Interface := re_interface e;
                                     dr_Auto := re_auto e; dr_Reject := re_reject e;
                                     dr_Index := i; dr_Disabled := false |}]> m
       end.

Fixpoint entries_effect (l : list route_entry) (m m' : gmap (string * string) DNSRouteRule) : Prop :=
  match l with
  | [] => m' = m
  | e :: l => ∃ m1, entry_effect e m m1 ∧ entries_effect l m1 m'
  end.

(** The addresses of a group compare without case. *)
Definition entries_on `{GoUnicode} (l : list address_entry) (s : gset string) : gset string :=
  foldl (λ s e, if ae_no e then s ∖ {[ToLower (ae_address e)]} else {[ToLower (ae_address e)]} ∪ s) s l.

(** What the router shows; [rv_ok]: its names and route keys are unique and hold
    no "|", and every route has an index of its own. *)
Class DnsRouterView (R : Type) := {
  rv_groups : R → list FQDNGroup;
  rv_routes : R → list DNSRouteRule;
}.

Record rv_ok `{DnsRouterView R} (s : R) : Prop := {
  rv_names : NoDup (fg_Name <$> rv_groups s);
  rv_keys : NoDup (rule_key <$> rv_routes s);
  rv_index : NoDup (dr_Index <$> rv_routes s);
  rv_index_ne : ∀ r, r ∈ rv_routes s → dr_Index r ≠ "";
  rv_bar : ∀ r, r ∈ rv_routes s → contains_byte "|" (dr_Group r) = false;
}.

Definition same_view `{DnsRouterView R} (s s' : R) : Prop :=
  rv_groups s' = rv_groups s ∧ rv_routes s' = rv_routes s.

(** A group with its addresses, compared without case; a missing one is empty. *)
Definition group_sets `{GoUnicode} (g : FQDNGroup) : gset string * gset string :=
  (lower_set (fg_Includes g), lower_set (fg_Excludes g)).

(** Nothing is said of a group that loses its last include. *)
Class DnsRouterLaws (R : Type) `{DnsRouter R, DnsRouterView R, GoUnicode} := {
  law_routes s r s' : list_routes s = (r, s') →
    same_view s s' ∧ match r with inr l => l = rv_routes s | inl _ => True end;
  law_groups s r s' : list_groups s = (r, s') →
    same_view s s' ∧ match r with inr l => l = rv_groups s | inl _ => True end;
  law_request s : same_view s (save_Request s);
  law_flush s r s' : save_Flush s = (r, s') → same_view s s';
  law_route_payload l s s' : rv_ok s → Post (RoutePayload l) s = (None, s') →
    rv_ok s' ∧ rv_groups s' = rv_groups s ∧
    entries_effect l (route_map (rv_routes s)) (route_map (rv_routes s'));
  law_route_disable i no s s' : rv_ok s → Post (RouteDisable i no) s = (None, s') →
    rv_ok s' ∧ rv_groups s' = rv_groups s ∧
    rv_routes s' = (λ r, if String.eqb (dr_Index r) i then set_disabled (negb no) r else r)
                   <$> rv_routes s;
  law_groups_delete names s s' : rv_ok s → Post (GroupsDelete names) s = (None, s') →
    rv_ok s' ∧
    group_map (rv_groups s') = filter (λ p, p.1 ∉ names) (group_map (rv_groups s)) ∧
    (∀ r, r ∈ rv_routes s' → r ∈ rv_routes s) ∧
    (∀ r, r ∈ rv_routes s → dr_Group r ∉ names → r ∈ rv_routes s');
  law_group_entries name inc exc s s' : rv_ok s → Post (GroupEntries name inc exc) s = (None, s') →
    let '(i, e) := default (∅, ∅) (group_sets <$> group_map (rv_groups s) !! name) in
    entries_on inc i ≠ ∅ →
    rv_ok s' ∧ rv_routes s' = rv_routes s ∧
    ∃ g', group_map (rv_groups s') = <[name := g']> (group_map (rv_groups s)) ∧
      group_sets g' = (entries_on inc i, entries_on exc e);
}.
