(* ===== verification/DnsSyncProps.v ===== *)
(** * Correctness of the DNS route synchronisation

    The difference element by element, its emptiness, the convergence of
    [applyDiff], and what [buildTargetState] asks for. *)
From S2P Require Import Prelude GoLib DnsTypes DnsSync DnsApply.

(** ** Well-formed states *)

Definition tr_key (t : targetRoute) : string * string := (tr_group t, tr_iface t).
Definition cr_key (c : currentRoute) : string * string := (cr_group c, cr_iface c).

Record target_ok (t : targetState) : Prop := {
  to_names : NoDup (tg_name <$> ts_groups t);
  to_owned : ∀ g, g ∈ ts_groups t → isOwned (tg_name g) = true;
  to_bar : ∀ g, g ∈ ts_groups t → contains_byte "|" (tg_name g) = false;
  to_includes : ∀ g, g ∈ ts_groups t → tg_includes g ≠ [];
  to_groups : ∀ r, r ∈ ts_routes t → tr_group r ∈ tg_name <$> ts_groups t;
  to_keys : NoDup (tr_key <$> ts_routes t);
  to_fallback : ∀ r, r ∈ ts_routes t → tr_fallback r = materializedFallback (tr_fallback r);
}.

Record current_ok (c : currentState) : Prop := {
  co_keys : NoDup (cr_key <$> cs_routes c);
}.

(** ** Maps built by a loop *)

Lemma group_by_lookup {A} (key : A → string) (l : list A) k :
  group_by key l !! k =
  match filter (λ x, key x = k) l with [] => None | f => Some f end.
Proof.
  induction l as [|x l IH] using rev_ind; [exact (lookup_empty k)|].
  unfold group_by. rewrite foldl_snoc. fold (group_by key l). rewrite filter_app, filter_cons.
  destruct (base.decide (key x = k)) as [<-|Hne].
  - rewrite lookup_insert_eq, IH. destruct (filter _ l); simpl; [done|]. by f_equal.
  - rewrite lookup_insert_ne by done. rewrite IH. simpl. by rewrite app_nil_r.
Qed.

Lemma group_by_default {A} (key : A → string) (l : list A) k :
  default [] (group_by key l !! k) = filter (λ x, key x = k) l.
Proof. rewrite group_by_lookup. by destruct (filter _ l). Qed.

Lemma foldl_insert_lookup {A} (key : A → string) (l : list A) k :
  foldl (λ (m : gmap string A) x, <[key x := x]> m) ∅ l !! k = last (filter (λ x, key x = k) l).
Proof.
  induction l as [|x l IH] using rev_ind; [exact (lookup_empty k)|].
  rewrite foldl_snoc, filter_app, filter_cons.
  destruct (base.decide (key x = k)) as [<-|Hne].
  - by rewrite lookup_insert_eq, filter_nil, last_snoc.
  - rewrite lookup_insert_ne by done. rewrite IH. simpl. by rewrite app_nil_r.
Qed.

(** With distinct keys the loop's map is the list. *)
Lemma last_filter_NoDup {A} (key : A → string) (l : list A) k x :
  NoDup (key <$> l) → last (filter (λ x, key x = k) l) = Some x ↔ x ∈ l ∧ key x = k.
Proof.
  intros Hnd. split.
  - intros Hl. apply last_Some_elem_of, list_elem_of_filter in Hl. naive_solver.
  - intros [Hx <-]. apply list_elem_of_split in Hx as (l1 & l2 & ->).
    rewrite fmap_app, fmap_cons in Hnd. apply NoDup_app in Hnd as (_ & H1 & H2).
    apply NoDup_cons in H2 as [H2 _].
    rewrite filter_app, filter_cons_True by done.
    rewrite (list_filter_none _ l2); [by rewrite last_snoc|].
    apply Forall_forall. intros y Hy E. apply H2. rewrite <- E. by apply list_elem_of_fmap_2.
Qed.

(** ** The routes of one group *)

Lemma routesEqual_cur curs tgts c :
  routesEqual curs tgts = true → c ∈ curs →
  ∃ t, t ∈ tgts ∧ tr_iface t = cr_iface c ∧ tr_fallback t = cr_fallback c ∧
       tr_disabled t = cr_disabled c.
Proof.
  revert tgts. induction curs as [|c' curs IH]; intros [|t tgts]; simpl; try done;
    [by intros _ ?%elem_of_nil|].
  intros H [->|Hc]%elem_of_cons; to_prop.
  - exists t. apply Bool.eqb_prop in H1. split; [by left|done].
  - destruct (IH tgts) as (t' & ? & ?); [done..|]. exists t'. split; [by right|done].
Qed.

Lemma routesEqual_tgt curs tgts t :
  routesEqual curs tgts = true → t ∈ tgts →
  ∃ c, c ∈ curs ∧ tr_iface t = cr_iface c ∧ tr_fallback t = cr_fallback c ∧
       tr_disabled t = cr_disabled c.
Proof.
  revert tgts. induction curs as [|c' curs IH]; intros [|t' tgts]; simpl; try done;
    [by intros _ ?%elem_of_nil|].
  intros H [->|Hc]%elem_of_cons; to_prop.
  - exists c'. apply Bool.eqb_prop in H1. split; [by left|done].
  - destruct (IH tgts) as (c & ? & ?); [done..|]. exists c. split; [by right|done].
Qed.

Definition toggle_of (c : currentRoute) (t : targetRoute) : rciRouteDisable :=
  {| rx_Index := cr_index c; rx_Disabled := tr_disabled t; rx_Group := tr_group t;
     rx_Iface := tr_iface t |}.

(** When is a route deleted, upserted, toggled. *)
Definition stale_route (c : currentRoute) (tgts : list targetRoute) : Prop :=
  ∀ t, t ∈ tgts → tr_key t ≠ cr_key c.
Definition new_shape (t : targetRoute) (curs : list currentRoute) : Prop :=
  ∀ c, c ∈ curs → cr_key c = tr_key t → cr_fallback c ≠ tr_fallback t.
Definition flag_differs (c : currentRoute) (t : targetRoute) : Prop :=
  cr_key c = tr_key t ∧ cr_fallback c = tr_fallback t ∧ cr_disabled c ≠ tr_disabled t.

Section one_group.
Context (g : string) (curs : list currentRoute) (tgts : list targetRoute).
Context (Hc : ∀ c, c ∈ curs → cr_group c = g) (Ht : ∀ t, t ∈ tgts → tr_group t = g).
Context (Hcn : NoDup (cr_iface <$> curs)) (Htn : NoDup (tr_iface <$> tgts)).

Lemma key_iface c t : c ∈ curs → t ∈ tgts → cr_key c = tr_key t ↔ cr_iface c = tr_iface t.
Proof using Hc Ht.
  intros H1%Hc H2%Ht. unfold cr_key, tr_key. rewrite H1, H2. split; [by intros [= ?]|by intros ->].
Qed.

Lemma by_iface_Some i c : by_iface curs !! i = Some c ↔ c ∈ curs ∧ cr_iface c = i.
Proof using Hcn.
  unfold by_iface. rewrite foldl_insert_lookup. by apply last_filter_NoDup.
Qed.

Lemma route_change_elem t : t ∈ tgts →
  (∀ u, route_change_of (by_iface curs) t = Upsert u ↔ u = upsert_of t ∧ new_shape t curs) ∧
  (∀ x, route_change_of (by_iface curs) t = Toggle x ↔
     ∃ c, c ∈ curs ∧ x = toggle_of c t ∧ flag_differs c t).
Proof using Hc Ht Hcn.
  intros Hin. unfold route_change_of, new_shape, flag_differs.
  assert (∀ c, c ∈ curs → cr_key c = tr_key t → by_iface curs !! tr_iface t = Some c) as Hk.
  { intros c H1 H2. apply by_iface_Some. by apply key_iface in H2. }
  destruct (by_iface curs !! tr_iface t) as [c|] eqn:E.
  - apply by_iface_Some in E as [H1 H2].
    assert (cr_key c = tr_key t) as H3 by (by apply key_iface).
    assert (∀ c', c' ∈ curs → cr_key c' = tr_key t → c' = c) as Hu.
    { intros c' ? ?. pose proof (Hk c') as ?. pose proof (Hk c). naive_solver. }
    destruct (String.eqb_spec (cr_fallback c) (tr_fallback t)) as [Ef|Ef]; simpl;
      [destruct (Bool.eqb_spec (cr_disabled c) (tr_disabled t)) as [Ed|Ed]; simpl|].
    + split; split; [done|naive_solver|done|naive_solver].
    + split; split; [done|naive_solver|naive_solver|].
      intros (c' & ? & -> & ? & ?). by rewrite (Hu c').
    + split; split; [naive_solver|naive_solver|done|].
      intros (c' & ? & -> & ? & ? & ?). destruct Ef. by rewrite <- (Hu c').
  - assert (∀ c, c ∈ curs → cr_key c ≠ tr_key t) as Hno by (intros c H1 H2; by specialize (Hk c H1 H2)).
    split; split; [|by intros [-> _]|done|].
    + intros [= <-]. split; [done|]. intros c H1 H2. by destruct (Hno c).
    + intros (c & ? & _ & ? & _). by destruct (Hno c).
Qed.

Lemma group_diff_elem :
  (∀ d, d ∈ (group_routes_diff curs tgts).1.1 ↔
        ∃ c, c ∈ curs ∧ d = delete_of c ∧ stale_route c tgts) ∧
  (∀ u, u ∈ (group_routes_diff curs tgts).1.2 ↔
        ∃ t, t ∈ tgts ∧ u = upsert_of t ∧ new_shape t curs) ∧
  (∀ x, x ∈ (group_routes_diff curs tgts).2 ↔
        ∃ c t, c ∈ curs ∧ t ∈ tgts ∧ x = toggle_of c t ∧ flag_differs c t).
Proof using All.
  assert (∀ c c', c ∈ curs → c' ∈ curs → cr_iface c = cr_iface c' → c = c') as Hinj.
  { intros c c' H1 H2 E. assert (by_iface curs !! cr_iface c = Some c) as B1 by (by apply by_iface_Some).
    assert (by_iface curs !! cr_iface c = Some c') as B2 by (by apply by_iface_Some). congruence. }
  unfold group_routes_diff. destruct (routesEqual curs tgts) eqn:Eq; simpl.
  - split_and!; (intros d; split; [by intros ?%elem_of_nil|]).
    + intros (c & H1 & -> & Hs). destruct (routesEqual_cur _ _ _ Eq H1) as (t & Ht' & E & _).
      destruct (Hs t Ht'). symmetry. by apply key_iface.
    + intros (t & H1 & -> & Hs). destruct (routesEqual_tgt _ _ _ Eq H1) as (c & Hc' & E & Ef & _).
      destruct (Hs c Hc'); [by apply key_iface|done].
    + intros (c & t & H1 & H2 & -> & Hk & _ & Hd).
      destruct (routesEqual_tgt _ _ _ Eq H2) as (c' & Hc' & E & _ & Ed).
      apply key_iface in Hk; [|done..]. destruct Hd. rewrite (Hinj c c'); congruence.
  - split_and!.
    + intros d. rewrite list_elem_of_fmap. setoid_rewrite list_elem_of_filter.
      split; [intros (c & -> & Hs & H1)|intros (c & H1 & -> & Hs)]; exists c; split_and!; try done.
      * intros t Ht' E. apply Hs. rewrite elem_of_list_to_set, list_elem_of_fmap.
        exists t. split; [|done]. by apply key_iface.
      * rewrite elem_of_list_to_set, list_elem_of_fmap. intros (t & E & Ht').
        destruct (Hs t Ht'). symmetry. by apply key_iface.
    + intros u. rewrite list_elem_of_omap. setoid_rewrite list_elem_of_fmap. split.
      * intros (? & (t & -> & H1) & H2). exists t. split; [done|].
        apply (route_change_elem t H1). case_match; by simplify_eq.
      * intros (t & H1 & H2). apply (route_change_elem t H1) in H2.
        exists (Upsert u). split; [|done]. by exists t.
    + intros x. rewrite list_elem_of_omap. setoid_rewrite list_elem_of_fmap. split.
      * intros (? & (t & -> & H1) & H2).
        assert (route_change_of (by_iface curs) t = Toggle x) as H3 by (case_match; by simplify_eq).
        apply (route_change_elem t H1) in H3 as (c & ? & ? & ?). by exists c, t.
      * intros (c & t & H1 & H2 & H3). exists (Toggle x). split; [|done]. exists t. split; [|done].
        symmetry. apply (route_change_elem t H2). by exists c.
Qed.
End one_group.

(** ** The difference, element by element *)

Lemma NoDup_key_filter {A} (group iface : A → string) (l : list A) g :
  NoDup ((λ x, (group x, iface x)) <$> l) → NoDup (iface <$> filter (λ x, group x = g) l).
Proof.
  induction l as [|x l IH]; [by intros; apply NoDup_nil|]. rewrite fmap_cons, NoDup_cons.
  intros [Hx Hl]. rewrite filter_cons. case_decide as Hg; [|by apply IH].
  rewrite fmap_cons, NoDup_cons. split; [|by apply IH]. intros Hin. apply Hx.
  apply list_elem_of_fmap in Hin as (y & E & Hy). apply list_elem_of_filter in Hy as [Hgy Hy].
  apply list_elem_of_fmap. exists y. split; [|done]. by rewrite E, Hg, Hgy.
Qed.

Section diff.
Context `{U : GoUnicode} (range : ∀ V, gmap string V → list (string * V)).
Context (Hrange : ∀ V (m : gmap string V), map_range m (range V m)).
Context (c : currentState) (t : targetState) (Hc : NoDup (cr_key <$> cs_routes c)) (Ht : target_ok t).

Abbreviation curs g := (filter (λ x, cr_group x = g) (cs_routes c)).
Abbreviation tgts g := (filter (λ x, tr_group x = g) (ts_routes t)).

Lemma part_elem g :
  (∀ d, d ∈ (group_routes_diff (curs g) (tgts g)).1.1 ↔
        ∃ x, x ∈ curs g ∧ d = delete_of x ∧ stale_route x (ts_routes t)) ∧
  (∀ u, u ∈ (group_routes_diff (curs g) (tgts g)).1.2 ↔
        ∃ y, y ∈ tgts g ∧ u = upsert_of y ∧ new_shape y (cs_routes c)) ∧
  (∀ u, u ∈ (group_routes_diff (curs g) (tgts g)).2 ↔
        ∃ x y, x ∈ cs_routes c ∧ y ∈ tgts g ∧ u = toggle_of x y ∧ flag_differs x y).
Proof using Hc Ht.
  destruct (group_diff_elem g (curs g) (tgts g)) as (HD & HU & HT).
  - intros x Hx. by apply list_elem_of_filter in Hx as [? _].
  - intros x Hx. by apply list_elem_of_filter in Hx as [? _].
  - by apply NoDup_key_filter.
  - apply NoDup_key_filter, (to_keys t Ht).
  - split_and!; intros z; rewrite ?HD, ?HU, ?HT; clear HD HU HT.
    + apply exist_proper; intros x. split; intros (H1 & H2 & H3); split_and!; try done.
      * intros y Hy E. apply (H3 y); [|done]. apply list_elem_of_filter. split; [|done].
        apply list_elem_of_filter in H1 as [<- _]. by injection E.
      * intros y Hy. apply list_elem_of_filter in Hy as [_ Hy]. by apply H3.
    + apply exist_proper; intros y. split; intros (H1 & H2 & H3); split_and!; try done.
      * intros x Hx E. apply (H3 x); [|done]. apply list_elem_of_filter. split; [|done].
        apply list_elem_of_filter in H1 as [<- _]. by injection E.
      * intros x Hx. apply list_elem_of_filter in Hx as [_ Hx]. by apply H3.
    + apply exist_proper; intros x. apply exist_proper; intros y. rewrite !list_elem_of_filter.
      split; [naive_solver|]. intros (H1 & H2 & H3 & H4). split_and!; try naive_solver.
      destruct H4 as [E _]. destruct H2 as [<- _]. by injection E.
Qed.

(** The groups the loop over [targetByGroup] visits. *)
Lemma flat_parts {B} (f : list rciRouteDelete * list rciRouteOp * list rciRouteDisable → list B) b :
  b ∈ flat_map f ((λ '(group, ts), group_routes_diff
      (default [] (group_by cr_group (cs_routes c) !! group)) ts)
      <$> range _ (group_by tr_group (ts_routes t))) ↔
  ∃ g, tgts g ≠ [] ∧ b ∈ f (group_routes_diff (curs g) (tgts g)).
Proof using Hrange.
  rewrite list_elem_of_In, in_flat_map. split.
  - intros (p & Hp & Hb). apply list_elem_of_In, list_elem_of_fmap in Hp as ([g ts] & -> & Hg).
    apply (map_range_elem _ _ _ _ (Hrange _ _)) in Hg. rewrite group_by_lookup in Hg.
    rewrite group_by_default in Hb. exists g. destruct (tgts g); simplify_eq.
    split; [done|]. by apply list_elem_of_In.
  - intros (g & Hne & Hb). exists (group_routes_diff (curs g) (tgts g)).
    split; [|by apply list_elem_of_In]. apply list_elem_of_In, list_elem_of_fmap.
    exists (g, tgts g). split; [by rewrite group_by_default|].
    apply (map_range_elem _ _ _ _ (Hrange _ _)). rewrite group_by_lookup. by destruct (tgts g).
Qed.

Lemma upsert_elem u :
  u ∈ routeUpserts (computeDiff range c t) ↔
  ∃ y, y ∈ ts_routes t ∧ u = upsert_of y ∧ new_shape y (cs_routes c).
Proof using All.
  simpl. rewrite flat_parts. split.
  - intros (g & _ & H). apply part_elem in H as (y & Hy & ?).
    apply list_elem_of_filter in Hy as [_ ?]. eauto.
  - intros (y & Hy & H). exists (tr_group y).
    assert (y ∈ tgts (tr_group y)) as Hin by (by apply list_elem_of_filter).
    split; [by intros E; rewrite E in Hin; apply elem_of_nil in Hin|].
    apply part_elem. eauto.
Qed.

Lemma toggle_elem u :
  u ∈ routeDisables (computeDiff range c t) ↔
  ∃ x y, x ∈ cs_routes c ∧ y ∈ ts_routes t ∧ u = toggle_of x y ∧ flag_differs x y.
Proof using All.
  simpl. rewrite flat_parts. split.
  - intros (g & _ & H). apply part_elem in H as (x & y & ? & Hy & ?).
    apply list_elem_of_filter in Hy as [_ ?]. eauto.
  - intros (x & y & Hx & Hy & H). exists (tr_group y).
    assert (y ∈ tgts (tr_group y)) as Hin by (by apply list_elem_of_filter).
    split; [by intros E; rewrite E in Hin; apply elem_of_nil in Hin|].
    apply part_elem. eauto.
Qed.

Lemma group_delete_elem n :
  n ∈ groupDeletes (computeDiff range c t) ↔
  n ∈ dom (cs_groups c) ∧ n ∉ tg_name <$> ts_groups t.
Proof using Hrange.
  simpl. rewrite merge_sort_Permutation, list_elem_of_filter, elem_of_list_to_set.
  rewrite elem_of_dom, (list_elem_of_fmap fst). split.
  - intros [? ([k v] & -> & H%(map_range_elem _ _ _ _ (Hrange _ _)))].
    split; [by exists v|done].
  - intros [[v H] ?]. split; [done|]. exists (n, v). split; [done|].
    by apply (map_range_elem _ _ _ _ (Hrange _ _)).
Qed.

Lemma stale_no_targets x : tgts (cr_group x) = [] → stale_route x (ts_routes t).
Proof.
  intros E y Hy Hk. assert (y ∈ tgts (cr_group x)) as Hin.
  { apply list_elem_of_filter. split; [by injection Hk|done]. }
  rewrite E in Hin. by apply elem_of_nil in Hin.
Qed.

Lemma delete_elem d :
  d ∈ routeDeletes (computeDiff range c t) ↔
  ∃ x, x ∈ cs_routes c ∧ d = delete_of x ∧ stale_route x (ts_routes t).
Proof using All.
  simpl. set (gd := merge_sort _ _).
  assert (∀ n, n ∈ gd → tgts n = []) as Hgd.
  { intros n Hn. apply (group_delete_elem n) in Hn as [_ Hn]. apply list_filter_none, Forall_forall.
    intros y Hy <-. by apply Hn, (to_groups t Ht). }
  assert (∀ x g, x ∈ curs g → x ∈ cs_routes c ∧ cr_group x = g) as Hcurs.
  { intros x g Hx. by apply list_elem_of_filter in Hx as [? ?]. }
  rewrite !elem_of_app, flat_parts, !list_elem_of_In, !in_flat_map.
  setoid_rewrite <- list_elem_of_In. split.
  - intros [(n & Hn & Hd)|[(g & _ & Hd)|([g xs] & Hg & Hd)]].
    + rewrite group_by_default in Hd. apply list_elem_of_fmap in Hd as (x & -> & [Hx <-]%Hcurs).
      exists x. split_and!; [done..|]. by apply stale_no_targets, Hgd.
    + apply part_elem in Hd as (x & [Hx _]%Hcurs & ?). eauto.
    + apply (map_range_elem _ _ _ _ (Hrange _ _)) in Hg.
      pose proof (group_by_default cr_group (cs_routes c) g) as E. rewrite Hg in E. simpl in E.
      destruct (group_by tr_group _ !! g) eqn:Eg; [by apply elem_of_nil in Hd|].
      case_bool_decide; [by apply elem_of_nil in Hd|]. subst xs.
      apply list_elem_of_fmap in Hd as (x & -> & [Hx <-]%Hcurs).
      exists x. split_and!; [done..|]. apply stale_no_targets.
      rewrite group_by_lookup in Eg. by destruct (tgts _).
  - intros (x & Hx & -> & Hs).
    assert (x ∈ curs (cr_group x)) as Hin by (by apply list_elem_of_filter).
    destruct (tgts (cr_group x)) as [|y ys] eqn:Et.
    + destruct (base.decide (cr_group x ∈ gd)).
      * left. exists (cr_group x). split; [done|]. rewrite group_by_default.
        by apply list_elem_of_fmap_2.
      * right; right. exists (cr_group x, curs (cr_group x)). split.
        -- apply (map_range_elem _ _ _ _ (Hrange _ _)). rewrite group_by_lookup.
           destruct (curs _) eqn:E; [by apply elem_of_nil in Hin|done].
        -- rewrite group_by_lookup, Et, bool_decide_eq_false_2 by (by rewrite elem_of_list_to_set).
           by apply list_elem_of_fmap_2.
    + right; left. exists (cr_group x). rewrite Et. split; [done|]. rewrite <- Et.
      apply part_elem. eauto.
Qed.
End diff.

(** ** When there is nothing to do *)

(** The group has the addresses of the target, compared without case. *)
Definition group_in_sync `{GoUnicode} (c : currentGroupData) (t : targetGroup) : Prop :=
  lower_set (cg_includes c) = lower_set (tg_includes t) ∧
  lower_set (cg_excludes c) = lower_set (tg_excludes t).

Definition route_in_sync (c : currentRoute) (t : targetRoute) : Prop :=
  cr_key c = tr_key t ∧ cr_fallback c = tr_fallback t ∧ cr_disabled c = tr_disabled t.

(** The same groups and the same routes, the order of the routes left aside. *)
Record in_sync `{GoUnicode} (c : currentState) (t : targetState) : Prop := {
  is_groups : ∀ n, n ∈ dom (cs_groups c) ↔ n ∈ tg_name <$> ts_groups t;
  is_addresses : ∀ tg cg, tg ∈ ts_groups t → cs_groups c !! tg_name tg = Some cg → group_in_sync cg tg;
  is_routes : ∀ y, y ∈ ts_routes t → ∃ x, x ∈ cs_routes c ∧ route_in_sync x y;
  is_no_more : ∀ x, x ∈ cs_routes c → ∃ y, y ∈ ts_routes t ∧ tr_key y = cr_key x;
}.

(** The same, with or without the disable flags of the routes. *)
Definition route_in_place (flags : bool) (c : currentRoute) (t : targetRoute) : Prop :=
  cr_key c = tr_key t ∧ cr_fallback c = tr_fallback t ∧ (flags = true → cr_disabled c = tr_disabled t).

Record in_place `{GoUnicode} (flags : bool) (c : currentState) (t : targetState) : Prop := {
  ip_groups : ∀ n, n ∈ dom (cs_groups c) ↔ n ∈ tg_name <$> ts_groups t;
  ip_addresses : ∀ tg cg, tg ∈ ts_groups t → cs_groups c !! tg_name tg = Some cg → group_in_sync cg tg;
  ip_routes : ∀ y, y ∈ ts_routes t → ∃ x, x ∈ cs_routes c ∧ route_in_place flags x y;
  ip_no_more : ∀ x, x ∈ cs_routes c → ∃ y, y ∈ ts_routes t ∧ tr_key y = cr_key x;
}.

Lemma in_sync_place `{GoUnicode} c t : in_sync c t ↔ in_place true c t.
Proof.
  split; intros [H1 H2 H3 H4]; (split; [done|done| |done]); intros y Hy; destruct (H3 y Hy) as (x & Hx & Hk & Hf & Hd);
    exists x; unfold route_in_sync, route_in_place in *; naive_solver.
Qed.
Lemma in_place_any `{GoUnicode} b c t : in_place true c t → in_place b c t.
Proof.
  intros [H1 H2 H3 H4]. split; [done|done| |done]. intros y Hy. destruct (H3 y Hy) as (x & ? & ? & ? & ?).
  exists x. unfold route_in_place in *. naive_solver.
Qed.

Lemma is_nil_spec {A} (l : list A) : is_nil l = true ↔ ∀ x, x ∉ l.
Proof. destruct l as [|a l]; simpl; split; try done; [by intros _ x ?%elem_of_nil|]. intros H. by destruct (H a); left. Qed.

Section empty.
Context `{U : GoUnicode}.

Lemma diffStringSlices_nil (a b : list string) :
  is_nil (diffStringSlices a b).1 = true ∧ is_nil (diffStringSlices a b).2 = true ↔
  lower_set a = lower_set b.
Proof.
  unfold diffStringSlices. rewrite !is_nil_spec. simpl. setoid_rewrite list_elem_of_filter.
  unfold lower_set. split.
  - intros [H1 H2]. apply leibniz_equiv. intros s. rewrite !elem_of_list_to_set, !list_elem_of_fmap.
    setoid_rewrite elem_of_list_to_set in H1. setoid_rewrite elem_of_list_to_set in H2.
    split; intros (x & -> & Hx).
    + destruct (base.decide (ToLower x ∈ ToLower <$> b)) as [Hin|Hn]; [by apply list_elem_of_fmap|].
      destruct (H2 x). done.
    + destruct (base.decide (ToLower x ∈ ToLower <$> a)) as [Hin|Hn]; [by apply list_elem_of_fmap|].
      destruct (H1 x). done.
  - intros E. split; intros x [H Hx]; apply H.
    + rewrite E. rewrite elem_of_list_to_set. by apply list_elem_of_fmap_2.
    + rewrite <- E. rewrite elem_of_list_to_set. by apply list_elem_of_fmap_2.
Qed.

Lemma group_update_None cur tg :
  group_update cur tg = None ↔ ∃ cg, cur !! tg_name tg = Some cg ∧ group_in_sync cg tg.
Proof.
  unfold group_update. destruct (cur !! tg_name tg) as [cg|]; [|naive_solver].
  destruct (diffStringSlices (cg_includes cg) (tg_includes tg)) as [a1 r1] eqn:E1.
  destruct (diffStringSlices (cg_excludes cg) (tg_excludes tg)) as [a2 r2] eqn:E2.
  transitivity (group_in_sync cg tg); [|naive_solver]. unfold group_in_sync.
  rewrite <- !diffStringSlices_nil, E1, E2. simpl.
  destruct (is_nil a1), (is_nil r1), (is_nil a2), (is_nil r2); simpl; naive_solver.
Qed.

Context (range : ∀ V, gmap string V → list (string * V)).
Context (Hrange : ∀ V (m : gmap string V), map_range m (range V m)).
Context (c : currentState) (t : targetState) (Hc : NoDup (cr_key <$> cs_routes c)) (Ht : target_ok t).

Lemma cur_key_inj x y : x ∈ cs_routes c → y ∈ cs_routes c → cr_key x = cr_key y → x = y.
Proof using Hc. intros. by apply (NoDup_key_inj cr_key (cs_routes c)). Qed.

Lemma isEmpty_spec (d : rciDiff) :
  isEmpty d = true ↔
  (∀ x, x ∉ routeDeletes d) ∧ (∀ x, x ∉ groupDeletes d) ∧ (∀ x, x ∉ groupUpdates d) ∧
  (∀ x, x ∉ routeUpserts d) ∧ (∀ x, x ∉ routeDisables d).
Proof. unfold isEmpty. rewrite !andb_true_iff, !is_nil_spec. naive_solver. Qed.

Lemma empty_in_sync : isEmpty (computeDiff range c t) = true → in_sync c t.
Proof using All.
  intros (HD & HG & HU & HP & HT)%isEmpty_spec.
  assert (∀ tg, tg ∈ ts_groups t → ∃ cg, cs_groups c !! tg_name tg = Some cg ∧ group_in_sync cg tg) as Hg.
  { intros tg Htg. apply group_update_None.
    destruct (group_update (cs_groups c) tg) as [u|] eqn:E; [|done].
    destruct (HU u). simpl. apply list_elem_of_omap. eauto. }
  assert (∀ x, x ∈ cs_routes c → ∃ y, y ∈ ts_routes t ∧ tr_key y = cr_key x) as Hmore.
  { intros x Hx. destruct (base.decide (Exists (λ y, tr_key y = cr_key x) (ts_routes t))) as [He|He].
    - by apply Exists_exists in He.
    - destruct (HD (delete_of x)). apply (delete_elem range Hrange c t Hc Ht). exists x.
      split_and!; [done..|]. intros y Hy E. apply He, Exists_exists. eauto. }
  split; [| |intros y Hy|done].
  - intros n. split.
    + intros Hn. destruct (base.decide (n ∈ tg_name <$> ts_groups t)); [done|].
      destruct (HG n). by apply (group_delete_elem range Hrange c t).
    + intros (tg & -> & Htg)%list_elem_of_fmap. destruct (Hg tg Htg) as (cg & E & _).
      apply elem_of_dom. by exists cg.
  - intros tg cg Htg E. destruct (Hg tg Htg) as (cg' & E' & ?). naive_solver.
  - destruct (base.decide (Exists (λ x, cr_key x = tr_key y ∧ cr_fallback x = tr_fallback y)
      (cs_routes c))) as [He|He].
    + apply Exists_exists in He as (x & Hx & Hk & Hf). exists x. split; [done|].
      split_and!; [done..|]. destruct (base.decide (cr_disabled x = tr_disabled y)) as [|Hd]; [done|].
      destruct (HT (toggle_of x y)). apply (toggle_elem range Hrange c t Hc Ht).
      exists x, y. by split_and!.
    + destruct (HP (upsert_of y)). apply (upsert_elem range Hrange c t Hc Ht). exists y.
      split_and!; [done..|]. intros x Hx Hk Hf. apply He, Exists_exists. eauto.
Qed.

Lemma in_sync_empty : in_sync c t → isEmpty (computeDiff range c t) = true.
Proof using All.
  intros [Hg Ha Hr Hm]. apply isEmpty_spec. split_and!; intros z Hz.
  - apply (delete_elem range Hrange c t Hc Ht) in Hz as (x & Hx & _ & Hs).
    destruct (Hm x Hx) as (y & Hy & E). by apply (Hs y).
  - apply (group_delete_elem range Hrange c t) in Hz as [H1%Hg H2]. done.
  - simpl in Hz. apply list_elem_of_omap in Hz as (tg & Htg & E).
    assert (group_update (cs_groups c) tg = None) as E'; [|by rewrite E' in E].
    apply group_update_None. assert (tg_name tg ∈ dom (cs_groups c)) as [cg Ecg]%elem_of_dom.
    { apply Hg. by apply list_elem_of_fmap_2. }
    exists cg. eauto.
  - apply (upsert_elem range Hrange c t Hc Ht) in Hz as (y & Hy & _ & Hn).
    destruct (Hr y Hy) as (x & Hx & Hk & Hf & _). by apply (Hn x).
  - apply (toggle_elem range Hrange c t Hc Ht) in Hz as (x & y & Hx & Hy & _ & Hk & _ & Hd).
    destruct (Hr y Hy) as (x' & Hx' & Hk' & _ & Hd'). apply Hd.
    rewrite (cur_key_inj x x'); congruence.
Qed.
End empty.
