(* ===== verification/DnsApplyProps.v ===== *)
(** * Convergence of the DNS route reconciliation

    The phases of [applyDiff] one by one, then: a reconcile that reports success
    leaves the router in sync with the target, touches nothing it does not own,
    and the next reconcile has nothing to do. *)
From S2P Require Import Prelude GoLib DnsTypes DnsSync DnsApply DnsSyncProps.

(** ** What the router shows, as maps *)

Lemma route_map_Some l k r :
  NoDup (rule_key <$> l) → route_map l !! k = Some r ↔ r ∈ l ∧ rule_key r = k.
Proof.
  intros Hnd. unfold route_map. rewrite <- elem_of_list_to_map.
  - rewrite list_elem_of_fmap. split; [intros (x & [= -> ->] & ?)|intros [? <-]]; eauto.
  - rewrite <- list_fmap_compose. by erewrite list_fmap_ext by done.
Qed.

Lemma group_map_Some l n g :
  NoDup (fg_Name <$> l) → group_map l !! n = Some g ↔ g ∈ l ∧ fg_Name g = n.
Proof.
  intros Hnd. unfold group_map. rewrite <- elem_of_list_to_map.
  - rewrite list_elem_of_fmap. split; [intros (x & [= -> ->] & ?)|intros [? <-]]; eauto.
  - rewrite <- list_fmap_compose. by erewrite list_fmap_ext by done.
Qed.

Definition data_of (g : FQDNGroup) : currentGroupData :=
  {| cg_includes := fg_Includes g; cg_excludes := fg_Excludes g |}.
Definition route_of (r : DNSRouteRule) : currentRoute :=
  {| cr_group := dr_Group r; cr_iface := dr_Interface r;
     cr_fallback := if dr_Reject r then "reject" else "";
     cr_index := dr_Index r; cr_disabled := dr_Disabled r |}.

Lemma filterAWGState_groups groups routes n :
  NoDup (fg_Name <$> groups) →
  cs_groups (filterAWGState groups routes) !! n =
  if isOwned n then data_of <$> group_map groups !! n else None.
Proof.
  simpl. induction groups as [|g groups IH] using rev_ind; intros Hnd; [by destruct (isOwned n)|].
  rewrite fmap_app in Hnd. pose proof Hnd as (Hnd' & Hnew & _)%NoDup_app.
  specialize (IH Hnd'). rewrite foldl_snoc.
  assert (group_map (groups ++ [g]) !! n =
    if base.decide (fg_Name g = n) then Some g else group_map groups !! n) as ->.
  { case_decide as Hn.
    - apply group_map_Some; [by rewrite fmap_app|]. split; [|done]. apply elem_of_app. right. by left.
    - apply option_eq. intros x. rewrite !group_map_Some by (by rewrite ?fmap_app).
      rewrite elem_of_app, list_elem_of_singleton. naive_solver. }
  case_decide as Hn; [subst n|].
  - destruct (isOwned (fg_Name g)); [by rewrite lookup_insert_eq|done].
  - destruct (isOwned (fg_Name g)); [by rewrite lookup_insert_ne|done].
Qed.

Lemma filterAWGState_routes groups routes x :
  x ∈ cs_routes (filterAWGState groups routes) ↔
  ∃ r, r ∈ routes ∧ isOwned (dr_Group r) = true ∧ x = route_of r.
Proof.
  simpl. rewrite list_elem_of_omap. apply exist_proper. intros r.
  destruct (isOwned (dr_Group r)); unfold route_of; naive_solver.
Qed.

Lemma filterAWGState_keys groups routes :
  NoDup (rule_key <$> routes) → NoDup (cr_key <$> cs_routes (filterAWGState groups routes)).
Proof.
  simpl. induction routes as [|r routes IH]; [by intros; apply NoDup_nil|].
  rewrite fmap_cons, NoDup_cons. intros [Hr Hl]. csimpl.
  destruct (isOwned (dr_Group r)); [|by apply IH]. rewrite fmap_cons, NoDup_cons.
  split; [|by apply IH]. intros (x & E & Hx)%list_elem_of_fmap. apply Hr.
  apply (filterAWGState_routes groups) in Hx as (r' & Hr' & _ & ->).
  apply list_elem_of_fmap. by exists r'.
Qed.

(** ** Success of the commands *)

Section success.
Context `{HR : DnsRouter R} `{HV : !DnsRouterView R} `{U : GoUnicode} `{HL : !DnsRouterLaws R}.
Implicit Types s : R.

Lemma check_ok wrap (m k : ST R (option string)) s s' :
  check wrap m k s = (None, s') → ∃ s1, m s = (None, s1) ∧ k s1 = (None, s').
Proof.
  unfold check, mbind, ST_bind. destruct (m s) as [[e|] s1]; [done|]. eauto.
Qed.

Lemma same_view_ok s s' : same_view s s' → rv_ok s → rv_ok s'.
Proof. intros [Hg Hr] []. split; rewrite ?Hg, ?Hr; done. Qed.

Lemma postMutation_ok p d s s' :
  postMutation p d s = (None, s') → ∃ s1, Post p s = (None, s1) ∧ same_view s1 s'.
Proof.
  intros (s1 & H1 & H2)%check_ok. exists s1. split; [done|].
  unfold mbind, ST_bind, modify, mret, ST_ret in H2. simplify_eq. apply law_request.
Qed.

Abbreviation RM s := (route_map (rv_routes s)).
Abbreviation GM s := (group_map (rv_groups s)).

Lemma RM_Some s k r : rv_ok s → RM s !! k = Some r ↔ r ∈ rv_routes s ∧ rule_key r = k.
Proof. intros Hs. apply route_map_Some, Hs. Qed.

(** *** Phase 1: the routes are deleted *)

Definition del_entry (d : rciRouteDelete) : route_entry :=
  {| re_group := rd_Group d; re_interface := rd_Iface d; re_no := true; re_auto := false;
     re_reject := false |}.

Lemma entries_del (ds : list rciRouteDelete) m m' k :
  entries_effect (del_entry <$> ds) m m' →
  m' !! k = if base.decide (k ∈ (λ d, (rd_Group d, rd_Iface d)) <$> ds) then None else m !! k.
Proof.
  revert m. induction ds as [|d ds IH]; intros m; simpl; [by intros ->|].
  intros (m1 & -> & H). rewrite (IH _ H). simpl.
  destruct (base.decide (k = (rd_Group d, rd_Iface d))) as [-> |Hne].
  - rewrite lookup_delete_eq, (decide_True (P := _ ∈ _ :: _)) by (by left). by case_decide.
  - rewrite lookup_delete_ne by done. repeat case_decide; try done; set_solver.
Qed.

Lemma phase_delete_routes os5 ds s s' :
  rv_ok s →
  (if is_nil ds then mret None
   else DeleteRoutes os5 ((λ rd, {| sp_Group := rd_Group rd; sp_Interface := rd_Iface rd;
                                    sp_Reject := false |}) <$> ds)) s = (None, s') →
  rv_ok s' ∧ rv_groups s' = rv_groups s ∧
  ∀ k, RM s' !! k = if base.decide (k ∈ (λ d, (rd_Group d, rd_Iface d)) <$> ds)
                    then None else RM s !! k.
Proof using HL.
  intros Hs. destruct ds as [|d ds]; [intros [= ->]; by split_and!|].
  unfold DeleteRoutes. destruct os5; [|done]. cbn [negb is_nil fmap list_fmap].
  intros (s1 & HP & Hv)%postMutation_ok.
  apply law_route_payload in HP as (Hs1 & Hg & He); [|done].
  split_and!; [by eapply same_view_ok|by rewrite (proj1 Hv)|]. intros k.
  rewrite (proj2 Hv). apply (entries_del (d :: ds)). cbn [fmap list_fmap].
  rewrite <- list_fmap_compose in He. exact He.
Qed.

(** *** Phase 2: the groups are deleted *)

Lemma phase_delete_groups names s s' :
  rv_ok s →
  (if is_nil names then mret None else DeleteGroups names) s = (None, s') →
  rv_ok s' ∧ (∀ n, GM s' !! n = if base.decide (n ∈ names) then None else GM s !! n) ∧
  (∀ k r, RM s' !! k = Some r → RM s !! k = Some r) ∧
  (∀ k, k.1 ∉ names → RM s' !! k = RM s !! k).
Proof using HL.
  intros Hs. destruct names as [|n names]; simpl.
  { intros [= ->]. split_and!; try done. }
  intros (s1 & HP & Hv)%postMutation_ok.
  apply law_groups_delete in HP as (Hs1 & Hg & Hsub & Hkeep); [|done].
  assert (rv_ok s') as Hs' by (by eapply same_view_ok).
  destruct Hv as [Hv1 Hv2]. split_and!; [done| | |].
  - intros n'. rewrite Hv1, Hg, map_lookup_filter. destruct (GM s !! n'); simpl; [|by case_decide].
    repeat case_decide; done || by simplify_option_eq.
  - intros k r. rewrite !RM_Some by done. rewrite Hv2. naive_solver.
  - intros k Hk. apply option_eq. intros r. rewrite !RM_Some by done. rewrite Hv2.
    split; [naive_solver|]. intros [? <-]. split; [|done]. by apply Hkeep.
Qed.

(** *** Phase 4: the routes are upserted *)

Definition up_key (u : rciRouteOp) : string * string := (ro_Group u, ro_Iface u).
Definition up_entry (u : rciRouteOp) : route_entry :=
  {| re_group := ro_Group u; re_interface := ro_Iface u; re_no := false; re_auto := true;
     re_reject := ro_Reject u |}.

(** The route has the wanted shape; one that existed keeps its index and flag. *)
Definition upserted (u : rciRouteOp) (old : option DNSRouteRule) (r : DNSRouteRule) : Prop :=
  dr_Reject r = ro_Reject u ∧
  ∀ r0, old = Some r0 → dr_Index r = dr_Index r0 ∧ dr_Disabled r = dr_Disabled r0.

Lemma entry_up u m m1 :
  entry_effect (up_entry u) m m1 →
  (∀ k, k ≠ up_key u → m1 !! k = m !! k) ∧
  ∃ r, m1 !! up_key u = Some r ∧ upserted u (m !! up_key u) r.
Proof.
  unfold entry_effect. simpl. fold (up_key u). intros H. unfold upserted.
  destruct (m !! up_key u) as [r0|]; [subst m1|destruct H as [i ->]].
  - split; [intros k Hk; by rewrite lookup_insert_ne|]. rewrite lookup_insert_eq.
    eexists. split; [done|]. split; [done|]. by intros ? [= <-].
  - split; [intros k Hk; by rewrite lookup_insert_ne|]. rewrite lookup_insert_eq.
    eexists. split; [done|]. by split.
Qed.

Lemma entries_up us m m' :
  (∀ u1 u2, u1 ∈ us → u2 ∈ us → up_key u1 = up_key u2 → ro_Reject u1 = ro_Reject u2) →
  entries_effect (up_entry <$> us) m m' →
  (∀ k, k ∉ up_key <$> us → m' !! k = m !! k) ∧
  (∀ u, u ∈ us → ∃ r, m' !! up_key u = Some r ∧ upserted u (m !! up_key u) r).
Proof.
  revert m. induction us as [|u us IH]; intros m Hf; simpl.
  { intros ->. split; [done|]. by intros u ?%elem_of_nil. }
  intros (m1 & [Hm1 (r1 & Hr1 & [Hj1 Hk1])]%entry_up & H).
  destruct (IH m1) as [IH1 IH2]; [intros; apply Hf; [by right..|done]|done|]. split.
  - intros k Hk. rewrite IH1 by set_solver. apply Hm1. set_solver.
  - assert (∀ u2, u2 ∈ us → ∃ r, m' !! up_key u2 = Some r ∧ upserted u2 (m !! up_key u2) r) as Ht.
    { intros u2 H2. destruct (IH2 u2 H2) as (r & Hr & Hj & Hk). exists r. split; [done|].
      split; [done|]. destruct (base.decide (up_key u2 = up_key u)) as [E|Hne].
      - rewrite E in *. intros r0 Hr0. destruct (Hk r1 Hr1) as [-> ->]. by apply Hk1.
      - intros r0 Hr0. apply Hk. by rewrite Hm1. }
    intros u2 [-> |H2]%elem_of_cons; [|by apply Ht].
    destruct (base.decide (up_key u ∈ up_key <$> us)) as [Hin|Hn].
    + apply list_elem_of_fmap in Hin as (u3 & E & H3). destruct (Ht u3 H3) as (r & Hr & Hj & Hk).
      rewrite E. exists r. split; [done|]. split; [|done]. rewrite Hj.
      apply Hf; [by right|by left|done].
    + exists r1. rewrite IH1 by done. done.
Qed.

Lemma phase_upsert_routes os5 us s s' :
  rv_ok s →
  (∀ u1 u2, u1 ∈ us → u2 ∈ us → up_key u1 = up_key u2 → ro_Reject u1 = ro_Reject u2) →
  (if is_nil us then mret None
   else UpsertRoutes os5 ((λ ro, {| sp_Group := ro_Group ro; sp_Interface := ro_Iface ro;
                                    sp_Reject := ro_Reject ro |}) <$> us)) s = (None, s') →
  rv_ok s' ∧ rv_groups s' = rv_groups s ∧
  (∀ k, k ∉ up_key <$> us → RM s' !! k = RM s !! k) ∧
  (∀ u, u ∈ us → ∃ r, RM s' !! up_key u = Some r ∧ upserted u (RM s !! up_key u) r).
Proof using HL.
  intros Hs Hf. destruct us as [|u us].
  { intros [= ->]. split_and!; try done. by intros u ?%elem_of_nil. }
  unfold UpsertRoutes. destruct os5; [|done]. cbn [negb is_nil fmap list_fmap].
  intros (s1 & HP & Hv)%postMutation_ok.
  apply law_route_payload in HP as (Hs1 & Hg & He); [|done].
  split; [by eapply same_view_ok|]. split; [by rewrite (proj1 Hv)|].
  rewrite (proj2 Hv). apply (entries_up (u :: us)); [done|]. cbn [fmap list_fmap].
  rewrite <- list_fmap_compose in He. exact He.
Qed.

(** *** Phase 3: the groups are updated *)

Lemma entries_on_build adds removes (z : gset string) :
  entries_on (buildEntries adds removes) z = z ∖ lower_set removes ∪ lower_set adds.
Proof.
  unfold entries_on, buildEntries, lower_set. rewrite foldl_app.
  assert (∀ l (z : gset string), foldl (λ z e, if ae_no e then z ∖ {[ToLower (ae_address e)]}
      else {[ToLower (ae_address e)]} ∪ z) z ((λ a, {| ae_address := a; ae_no := true |}) <$> l) =
      z ∖ list_to_set (ToLower <$> l)) as ->.
  { induction l as [|a l IH]; intros z1; simpl; [set_solver|]. rewrite IH. set_solver. }
  generalize (z ∖ list_to_set (ToLower <$> removes)). clear z.
  induction adds as [|a l IH]; intros z1; simpl; [set_solver|]. rewrite IH. set_solver.
Qed.

(** The addresses of a group, and after an update. *)
Definition base s (n : string) : gset string * gset string :=
  default (∅, ∅) (group_sets <$> GM s !! n).
Definition after (u : rciGroupUpdate) (b : gset string * gset string) : gset string * gset string :=
  (b.1 ∖ lower_set (gu_removeIncludes u) ∪ lower_set (gu_addIncludes u),
   b.2 ∖ lower_set (gu_removeExcludes u) ∪ lower_set (gu_addExcludes u)).

Definition mutation_of (u : rciGroupUpdate) : FQDNGroupMutation :=
  {| fm_Name := gu_name u; fm_AddIncludes := gu_addIncludes u;
     fm_RemoveIncludes := gu_removeIncludes u; fm_AddExcludes := gu_addExcludes u;
     fm_RemoveExcludes := gu_removeExcludes u |}.
Definition changes (u : rciGroupUpdate) : bool :=
  negb (is_nil (gu_addIncludes u ++ gu_removeIncludes u ++ gu_addExcludes u ++ gu_removeExcludes u)).

Lemma UpsertGroup_ok u s s' :
  rv_ok s → changes u = true → (after u (base s (gu_name u))).1 ≠ ∅ →
  UpsertGroup (mutation_of u) s = (None, s') →
  rv_ok s' ∧ rv_routes s' = rv_routes s ∧
  (∀ n, n ≠ gu_name u → GM s' !! n = GM s !! n) ∧
  ∃ g, GM s' !! gu_name u = Some g ∧ group_sets g = after u (base s (gu_name u)).
Proof using HL.
  intros Hs Hch%negb_true_iff Hne. unfold UpsertGroup. simpl. rewrite Hch.
  destruct (String.eqb _ _); [done|]. intros (s1 & HP & Hv)%postMutation_ok.
  apply law_group_entries in HP; [|done]. unfold base, after in *.
  destruct (default _ _) as [i e]. rewrite !entries_on_build in HP.
  destruct (HP Hne) as (Hs1 & Hr & g & Hg & Eg). destruct Hv as [Hv1 Hv2].
  split_and!; [by eapply same_view_ok|by rewrite Hv2| |].
  - intros n Hn. by rewrite Hv1, Hg, lookup_insert_ne.
  - exists g. by rewrite Hv1, Hg, lookup_insert_eq.
Qed.

Lemma update_groups_ok us s s' :
  rv_ok s → NoDup (gu_name <$> us) →
  (∀ u, u ∈ us → changes u = true ∧ (after u (base s (gu_name u))).1 ≠ ∅) →
  update_groups us s = ([], s') →
  rv_ok s' ∧ rv_routes s' = rv_routes s ∧
  (∀ n, n ∉ gu_name <$> us → GM s' !! n = GM s !! n) ∧
  (∀ u, u ∈ us → ∃ g, GM s' !! gu_name u = Some g ∧ group_sets g = after u (base s (gu_name u))).
Proof using HL.
  revert s. induction us as [|u us IH]; intros s Hs Hnd Hu; simpl.
  { intros [= ->]. split_and!; try done. by intros u ?%elem_of_nil. }
  unfold mbind at 1, ST_bind at 1. fold (mutation_of u).
  destruct (UpsertGroup (mutation_of u) s) as [err s1] eqn:E1.
  unfold mbind, ST_bind. destruct (update_groups us s1) as [errs s2] eqn:E2.
  unfold mret, ST_ret. destruct err as [e|]; [done|]. intros [= -> ->].
  destruct (Hu u) as [Hc Hne]; [by left|].
  apply UpsertGroup_ok in E1 as (Hs1 & Hr1 & Hg1 & g & Eg & Es); [|done..].
  rewrite fmap_cons, NoDup_cons in Hnd. destruct Hnd as [Hnin Hnd].
  assert (∀ u2, u2 ∈ us → base s1 (gu_name u2) = base s (gu_name u2)) as Hb.
  { intros u2 H2. unfold base. rewrite Hg1; [done|]. intros E. apply Hnin. rewrite <- E.
    by apply list_elem_of_fmap_2. }
  destruct (IH s1 Hs1 Hnd) as (Hs' & Hr' & Hg' & Hin); [|done|].
  { intros u2 H2. rewrite Hb by done. apply Hu. by right. }
  split_and!; [done|by rewrite Hr'| |].
  - intros n Hn. rewrite Hg' by set_solver. apply Hg1. set_solver.
  - intros u2 [-> |H2]%elem_of_cons.
    + exists g. by rewrite Hg'.
    + rewrite <- Hb by done. by apply Hin.
Qed.

(** *** Phase 5: the flags are toggled *)

Definition toggle_all (l : list rciRouteDisable) (r : DNSRouteRule) : DNSRouteRule :=
  foldl (λ r x, if String.eqb (dr_Index r) (rx_Index x) then set_disabled (rx_Disabled x) r else r) r l.

Lemma toggle_all_same l r :
  rule_key (toggle_all l r) = rule_key r ∧ dr_Reject (toggle_all l r) = dr_Reject r ∧
  dr_Index (toggle_all l r) = dr_Index r.
Proof.
  revert r. induction l as [|x l IH]; intros r; simpl; [done|].
  destruct (IH (if String.eqb (dr_Index r) (rx_Index x) then set_disabled (rx_Disabled x) r else r))
    as (H1 & H2 & H3). unfold toggle_all in *. rewrite H1, H2, H3. by destruct (String.eqb _ _).
Qed.

Lemma toggle_all_flag l r b :
  (∀ x, x ∈ l → rx_Index x = dr_Index r → rx_Disabled x = b) →
  (dr_Disabled r = b ∨ ∃ x, x ∈ l ∧ rx_Index x = dr_Index r) →
  dr_Disabled (toggle_all l r) = b.
Proof.
  revert r. induction l as [|x l IH]; intros r Hl Hr; simpl.
  { destruct Hr as [?|(x & []%elem_of_nil & _)]. done. }
  unfold toggle_all. simpl. destruct (String.eqb_spec (dr_Index r) (rx_Index x)) as [E|E].
  - apply IH; simpl; [intros; apply Hl; [by right|done]|]. left. apply Hl; [by left|done].
  - apply IH; [intros; apply Hl; [by right|done]|].
    destruct Hr as [?|(y & [-> |Hy]%elem_of_cons & Ey)]; [by left|done|]. right. eauto.
Qed.

Lemma toggle_all_other l r :
  (∀ x, x ∈ l → rx_Index x ≠ dr_Index r) → toggle_all l r = r.
Proof.
  induction l as [|x l IH]; intros Hl; [done|]. unfold toggle_all. simpl.
  destruct (String.eqb_spec (dr_Index r) (rx_Index x)) as [E|E].
  - destruct (Hl x); [by left|done].
  - apply IH. intros y Hy. apply Hl. by right.
Qed.

Lemma apply_toggles_ok os5 l m s s' :
  rv_ok s → apply_toggles os5 l m s = (None, s') →
  ∃ s1, m s1 = (None, s') ∧ rv_ok s1 ∧ rv_groups s1 = rv_groups s ∧
        rv_routes s1 = toggle_all l <$> rv_routes s.
Proof using HL.
  revert s. induction l as [|x l IH]; intros s Hs; simpl.
  { intros H. exists s. split_and!; [done..|]. by rewrite list_fmap_id. }
  destruct (String.eqb_spec (rx_Index x) "") as [Ex|Ex].
  - intros H. destruct (IH s Hs H) as (s1 & ? & ? & ? & Hr). exists s1. split_and!; [done..|].
    rewrite Hr. apply list_fmap_ext. intros i r Hi. unfold toggle_all. simpl.
    rewrite Ex. destruct (String.eqb_spec (dr_Index r) "") as [E|]; [|done].
    by destruct (rv_index_ne s Hs r (list_elem_of_lookup_2 _ _ _ Hi)).
  - intros (s1 & H1 & H2)%check_ok. unfold SetDisabled in H1. destruct os5; [|done].
    simpl in H1. apply String.eqb_neq in Ex as Ex'. rewrite Ex' in H1.
    apply check_ok in H1 as (s2 & HP & HF). apply check_ok in HF as (s3 & HF & [= <-]).
    apply law_flush in HF as Hv. apply law_route_disable in HP as (Hs2 & Hg2 & Hr2); [|done].
    assert (rv_ok s3) as Hs3 by (by eapply same_view_ok). destruct Hv as [Hv1 Hv2].
    destruct (IH s3 Hs3 H2) as (s4 & ? & ? & Hg & Hr). exists s4. split_and!; [done..| |].
    + congruence.
    + rewrite Hr, Hv2, Hr2, <- list_fmap_compose. apply list_fmap_ext. intros i r _.
      unfold toggle_all. simpl. by rewrite negb_involutive.
Qed.
End success.

(** ** The listing after the upserts *)

Lemma route_key_inj g i g' i' :
  contains_byte "|" g = false → contains_byte "|" g' = false →
  route_key g i = route_key g' i' → g = g' ∧ i = i'.
Proof.
  unfold route_key. revert g'. induction g as [|c g IH]; intros [|c' g']; cbn; intros H H' E;
    simplify_eq; try done.
  to_prop. by destruct (IH g') as [-> ->].
Qed.

Lemma fresh_routes_lookup l k v :
  NoDup ((λ r, route_key (dr_Group r) (dr_Interface r)) <$> l) →
  (∀ r, r ∈ l → dr_Index r ≠ "") →
  fresh_routes l !! k = Some v ↔
  ∃ r, r ∈ l ∧ route_key (dr_Group r) (dr_Interface r) = k ∧ v = (dr_Index r, dr_Disabled r).
Proof.
  induction l as [|r l IH] using rev_ind; intros Hnd Hne.
  { split; [done|]. by intros (? & []%elem_of_nil & _). }
  rewrite fmap_app in Hnd. apply NoDup_app in Hnd as (Hnd & Hnew & _).
  unfold fresh_routes. rewrite foldl_snoc. fold (fresh_routes l).
  destruct (String.eqb_spec (dr_Index r) "") as [E|_].
  { destruct (Hne r); [|done]. apply elem_of_app. right. by left. }
  specialize (IH Hnd). assert (∀ r, r ∈ l → dr_Index r ≠ "") as Hne'.
  { intros r' Hr'. apply Hne. apply elem_of_app. by left. }
  setoid_rewrite elem_of_app. setoid_rewrite list_elem_of_singleton.
  destruct (base.decide (route_key (dr_Group r) (dr_Interface r) = k)) as [<-|Hk].
  - rewrite lookup_insert_eq. split; [intros [= <-]; exists r; naive_solver|].
    intros (r' & [Hr'| ->] & E & ->); [|done]. destruct (Hnew (route_key (dr_Group r) (dr_Interface r))).
    + rewrite <- E. by apply (list_elem_of_fmap_2 (λ r, route_key (dr_Group r) (dr_Interface r))).
    + by left.
  - rewrite lookup_insert_ne by done. rewrite IH by done. naive_solver.
Qed.

Section converge.
Context `{HR : DnsRouter R} `{HV : !DnsRouterView R} `{U : GoUnicode} `{HL : !DnsRouterLaws R}.
Context (range : ∀ V, gmap string V → list (string * V)).
Context (Hrange : ∀ V (m : gmap string V), map_range m (range V m)).

Definition shown (s : R) : currentState := filterAWGState (rv_groups s) (rv_routes s).
Abbreviation RM s := (route_map (rv_routes s)).
Abbreviation GM s := (group_map (rv_groups s)).

Lemma fresh_of s g i v :
  rv_ok s → contains_byte "|" g = false →
  fresh_routes (rv_routes s) !! route_key g i = Some v ↔
  ∃ r, RM s !! (g, i) = Some r ∧ v = (dr_Index r, dr_Disabled r).
Proof.
  intros Hs Hg. rewrite fresh_routes_lookup; [| |apply (rv_index_ne s Hs)].
  - setoid_rewrite (RM_Some s _ _ Hs). split.
    + intros (r & Hr & E & ->). apply route_key_inj in E as [<- <-]; [|by apply (rv_bar s Hs)|done].
      by exists r.
    + intros (r & [Hr [= <- <-]] & ->). by exists r.
  - pose proof (rv_keys s Hs) as Hk. pose proof (rv_bar s Hs) as Hb.
    induction (rv_routes s) as [|r l IH]; [apply NoDup_nil_2|].
    rewrite fmap_cons in *. apply NoDup_cons in Hk as [Hn Hl]. apply NoDup_cons. split.
    + intros (r' & E & Hr')%list_elem_of_fmap. apply Hn, list_elem_of_fmap. exists r'.
      split; [|done]. apply route_key_inj in E as [E1 E2].
      * unfold rule_key. congruence.
      * apply Hb. by left.
      * apply Hb. by right.
    + apply IH; [done|]. intros r' Hr'. apply Hb. by right.
Qed.

Context (s : R) (t : targetState) (Hs : rv_ok s) (Ht : target_ok t).
Let d := computeDiff range (shown s) t.

Lemma shown_keys : NoDup (cr_key <$> cs_routes (shown s)).
Proof using Hs. apply filterAWGState_keys, Hs. Qed.

Lemma shown_route x : x ∈ cs_routes (shown s) ↔
  ∃ r, RM s !! cr_key x = Some r ∧ isOwned (dr_Group r) = true ∧ x = route_of r.
Proof using Hs.
  unfold shown. rewrite filterAWGState_routes. apply exist_proper. intros r.
  rewrite (RM_Some s _ _ Hs). split; [intros (? & ? & ->); by split_and!|naive_solver].
Qed.

Lemma target_owned y : y ∈ ts_routes t → isOwned (tr_group y) = true.
Proof using Ht.
  intros (g & -> & Hg)%(to_groups t Ht)%list_elem_of_fmap. by apply (to_owned t Ht).
Qed.

Lemma target_bar y : y ∈ ts_routes t → contains_byte "|" (tr_group y) = false.
Proof using Ht.
  intros (g & -> & Hg)%(to_groups t Ht)%list_elem_of_fmap. by apply (to_bar t Ht).
Qed.

Lemma target_key_inj y y' : y ∈ ts_routes t → y' ∈ ts_routes t → tr_key y = tr_key y' → y = y'.
Proof using Ht. apply NoDup_key_inj, Ht. Qed.

Lemma upsert_reject u1 u2 :
  u1 ∈ routeUpserts d → u2 ∈ routeUpserts d → up_key u1 = up_key u2 → ro_Reject u1 = ro_Reject u2.
Proof using All.
  intros (y1 & H1 & -> & _)%(upsert_elem range Hrange _ t shown_keys Ht)
    (y2 & H2 & -> & _)%(upsert_elem range Hrange _ t shown_keys Ht) E.
  by rewrite (target_key_inj y1 y2).
Qed.

(** The routes deleted: owned ones without a target. *)
Lemma deleted_key k :
  k ∈ (λ d, (rd_Group d, rd_Iface d)) <$> routeDeletes d ↔
  isOwned k.1 = true ∧ is_Some (RM s !! k) ∧ ∀ y, y ∈ ts_routes t → tr_key y ≠ k.
Proof using All.
  rewrite list_elem_of_fmap. unfold d. setoid_rewrite (delete_elem range Hrange _ t shown_keys Ht). split.
  - intros (? & -> & x & Hx & -> & Hst). apply shown_route in Hx as (r & Hr & Ho & ->).
    unfold stale_route in Hst. unfold delete_of. simpl. by split_and!; [|exists r|].
  - intros (Ho & [r Hr] & Hst). pose proof Hr as [Hin Hk]%(RM_Some s _ _ Hs).
    exists (delete_of (route_of r)). split; [done|]. exists (route_of r). split_and!; [|done|].
    + apply shown_route. exists r. split_and!; [by rewrite <- Hk in Hr| |done]. by rewrite <- Hk in Ho.
    + intros y Hy. rewrite <- Hk in Hst. by apply Hst.
Qed.

(** *** The routes after phase 4, and the toggles of phase 5 *)

Definition base_route k := if base.decide (k ∈ (λ d, (rd_Group d, rd_Iface d)) <$> routeDeletes d)
                           then None else RM s !! k.

Section toggles.
Context (s4 : R) (Hs4 : rv_ok s4).
Context (Hkeep : ∀ k, k ∉ up_key <$> routeUpserts d → RM s4 !! k = base_route k).
Context (Hup : ∀ u, u ∈ routeUpserts d →
  ∃ r, RM s4 !! up_key u = Some r ∧ upserted u (base_route (up_key u)) r).

(** [fresh]: whether the listing of phase 5a succeeded. *)
Definition toggles (fresh : bool) : list rciRouteDisable :=
  routeDisables d ++ if fresh then omap (pending_toggle (fresh_routes (rv_routes s4))) (routeUpserts d) else [].

Lemma base_target y : y ∈ ts_routes t → base_route (tr_key y) = RM s !! tr_key y.
Proof using All.
  intros Hy. unfold base_route. case_decide as Hd; [|done].
  apply deleted_key in Hd as (_ & _ & Hd). by destruct (Hd y).
Qed.

(** A target that has its shape already is left alone. *)
Lemma kept_route x y :
  x ∈ cs_routes (shown s) → y ∈ ts_routes t → cr_key x = tr_key y → cr_fallback x = tr_fallback y →
  ∃ r, x = route_of r ∧ RM s4 !! tr_key y = Some r.
Proof using All.
  intros Hx Hy Hk Hf. apply shown_route in Hx as Hx'. destruct Hx' as (r & Hr & _ & ->).
  exists r. split; [done|]. rewrite Hkeep; [rewrite base_target by done; by rewrite <- Hk|].
  intros (u & Eu & Hu)%list_elem_of_fmap.
  apply (upsert_elem range Hrange _ t shown_keys Ht) in Hu as (y' & Hy' & -> & Hn).
  assert (y = y') as <- by (by apply target_key_inj). by apply (Hn (route_of r)).
Qed.

Lemma toggle_target fresh x :
  x ∈ toggles fresh → ∃ y r, y ∈ ts_routes t ∧ RM s4 !! tr_key y = Some r ∧
    rx_Index x = dr_Index r ∧ rx_Disabled x = tr_disabled y.
Proof using All.
  intros [Hx|Hx]%elem_of_app.
  - apply (toggle_elem range Hrange _ t shown_keys Ht) in Hx as (c & y & Hc & Hy & -> & Hk & Hf & _).
    destruct (kept_route c y Hc Hy Hk Hf) as (r & -> & Hr). by exists y, r.
  - destruct fresh; [|by apply elem_of_nil in Hx]. apply list_elem_of_omap in Hx as (u & Hu & Ep).
    apply (upsert_elem range Hrange _ t shown_keys Ht) in Hu as (y & Hy & -> & _).
    unfold pending_toggle in Ep. destruct (fresh_routes _ !! _) as [[idx b]|] eqn:Ef; [|done].
    apply fresh_of in Ef as (r & Hr & [= -> ->]); [|done|by apply target_bar].
    repeat case_match; simplify_eq. by exists y, r.
Qed.

Lemma same_index k k' r r' :
  RM s4 !! k = Some r → RM s4 !! k' = Some r' → dr_Index r = dr_Index r' → k = k' ∧ r = r'.
Proof using Hs4.
  intros [H1 <-]%(RM_Some s4 _ _ Hs4) [H2 <-]%(RM_Some s4 _ _ Hs4) E.
  by rewrite (NoDup_key_inj dr_Index _ r r' (rv_index s4 Hs4)).
Qed.

Lemma toggle_flag fresh y r :
  y ∈ ts_routes t → RM s4 !! tr_key y = Some r →
  (dr_Disabled r = tr_disabled y ∨ ∃ x, x ∈ toggles fresh ∧ rx_Index x = dr_Index r) →
  dr_Disabled (toggle_all (toggles fresh) r) = tr_disabled y.
Proof using All.
  intros Hy Hr. apply toggle_all_flag. intros x Hx Ei.
  destruct (toggle_target fresh x Hx) as (y' & r' & Hy' & Hr' & Ei' & ->).
  destruct (same_index _ _ _ _ Hr Hr') as [Ek _]; [congruence|].
  by rewrite (target_key_inj y y').
Qed.

Lemma upsert_toggled y r :
  y ∈ ts_routes t → upsert_of y ∈ routeUpserts d → RM s4 !! tr_key y = Some r →
  dr_Disabled r = tr_disabled y ∨ ∃ x, x ∈ toggles true ∧ rx_Index x = dr_Index r.
Proof using Hs4 Ht.
  intros Hy Hin Hr. destruct (Bool.eqb_spec (dr_Disabled r) (tr_disabled y)) as [|Hne]; [by left|].
  right. exists {| rx_Index := dr_Index r; rx_Disabled := tr_disabled y; rx_Group := tr_group y;
                   rx_Iface := tr_iface y |}.
  split; [|done]. apply elem_of_app. right. apply list_elem_of_omap. exists (upsert_of y).
  split; [done|]. unfold pending_toggle. simpl.
  rewrite (proj2 (fresh_of s4 _ _ (dr_Index r, dr_Disabled r) Hs4 (target_bar y Hy)))
    by (by exists r).
  apply RM_Some in Hr as [Hin' _]; [|done]. apply rv_index_ne in Hin'; [|done].
  apply String.eqb_neq in Hin' as ->. by apply Bool.eqb_false_iff in Hne as ->.
Qed.

(** Every target route is there, with its shape and, in the end, its flag. *)
Lemma target_route fresh y : y ∈ ts_routes t →
  ∃ r, RM s4 !! tr_key y = Some r ∧ route_in_place fresh (route_of (toggle_all (toggles fresh) r)) y.
Proof using All.
  intros Hy.
  assert (∃ r, RM s4 !! tr_key y = Some r ∧ dr_Reject r = String.eqb (tr_fallback y) "reject" ∧
    (fresh = true → dr_Disabled r = tr_disabled y ∨ ∃ x, x ∈ toggles fresh ∧ rx_Index x = dr_Index r))
    as (r & Hr & Hrej & Hflag).
  { destruct (base.decide (Exists (λ x, cr_key x = tr_key y ∧ cr_fallback x = tr_fallback y)
      (cs_routes (shown s)))) as [He|He].
    - apply Exists_exists in He as (x & Hx & Hk & Hf).
      destruct (kept_route x y Hx Hy Hk Hf) as (r & -> & Hr). exists r. split_and!; [done| |].
      + rewrite <- Hf. simpl. by destruct (dr_Reject r).
      + intros _. destruct (base.decide (dr_Disabled r = tr_disabled y)) as [|Hne]; [by left|]. right.
        exists (toggle_of (route_of r) y). split; [|done]. apply elem_of_app. left.
        apply (toggle_elem range Hrange _ t shown_keys Ht). by exists (route_of r), y.
    - assert (upsert_of y ∈ routeUpserts d) as Hin.
      { apply (upsert_elem range Hrange _ t shown_keys Ht). exists y.
        split_and!; [done..|]. intros x Hx Hk Hf. apply He, Exists_exists. eauto. }
      destruct (Hup _ Hin) as (r & Hr & Hrej & _). exists r. split_and!; [done..|].
      intros ->. by apply upsert_toggled. }
  exists r. split; [done|]. destruct (toggle_all_same (toggles fresh) r) as (Hk & Hj & _).
  unfold route_in_place. split_and!.
  - apply RM_Some in Hr as [_ Hr]; [|done]. transitivity (rule_key (toggle_all (toggles fresh) r)); [done|].
    by rewrite Hk.
  - simpl. rewrite Hj, Hrej, (to_fallback t Ht y Hy). unfold materializedFallback.
    by destruct (String.eqb_spec (tr_fallback y) "reject").
  - intros Hf. by apply (toggle_flag fresh y); [..|apply Hflag].
Qed.

Lemma other_route fresh k r :
  RM s4 !! k = Some r → (∀ y, y ∈ ts_routes t → tr_key y ≠ k) → toggle_all (toggles fresh) r = r.
Proof using All.
  intros Hr Hk. apply toggle_all_other. intros x Hx E.
  destruct (toggle_target fresh x Hx) as (y & r' & Hy & Hr' & Ei & _).
  destruct (same_index _ _ _ _ Hr Hr') as [Ek _]; [congruence|]. by apply (Hk y).
Qed.
End toggles.

(** *** The groups *)

Lemma shown_group s0 n : rv_ok s0 →
  cs_groups (shown s0) !! n = if isOwned n then data_of <$> GM s0 !! n else None.
Proof. intros H. apply filterAWGState_groups, H. Qed.

Lemma update_elem u :
  u ∈ groupUpdates d ↔ ∃ tg, tg ∈ ts_groups t ∧ group_update (cs_groups (shown s)) tg = Some u.
Proof. apply list_elem_of_omap. Qed.

Lemma update_name tg u : group_update (cs_groups (shown s)) tg = Some u → gu_name u = tg_name tg.
Proof.
  unfold group_update. destruct (_ !! _); [|by intros [= <-]].
  destruct (diffStringSlices _ _), (diffStringSlices _ _). case_match; [done|]. by intros [= <-].
Qed.

Lemma update_names : NoDup (gu_name <$> groupUpdates d).
Proof using Ht.
  unfold d. simpl. pose proof (to_names t Ht) as Hnd.
  induction (ts_groups t) as [|tg l IH]; [apply NoDup_nil_2|].
  rewrite fmap_cons in Hnd. apply NoDup_cons in Hnd as [Hn Hl]. csimpl.
  destruct (group_update _ tg) as [u|] eqn:E; [|by apply IH]. rewrite fmap_cons. apply NoDup_cons.
  split; [|by apply IH]. rewrite (update_name tg u E).
  intros (u' & E' & (tg' & Htg' & Eu)%list_elem_of_omap)%list_elem_of_fmap. apply Hn.
  rewrite E', (update_name tg' u' Eu). by apply list_elem_of_fmap_2.
Qed.

Definition wanted (tg : targetGroup) : gset string * gset string :=
  (lower_set (tg_includes tg), lower_set (tg_excludes tg)).

Lemma elem_of_lower_set (l : list string) z : z ∈ lower_set l ↔ ∃ x, z = ToLower x ∧ x ∈ l.
Proof. unfold lower_set. by rewrite elem_of_list_to_set, list_elem_of_fmap. Qed.

(** Removing what is not wanted and adding what is missing gives the target. *)
Lemma diff_sets (a b : list string) :
  lower_set a ∖ lower_set (diffStringSlices a b).2 ∪ lower_set (diffStringSlices a b).1 = lower_set b.
Proof.
  assert (∀ z c e, z ∈ lower_set (filter (λ s, ToLower s ∉ lower_set c) e) ↔
    z ∈ lower_set e ∧ z ∉ lower_set c) as Hf.
  { intros z c' e. split.
    - intros (x & -> & [H1 H2]%list_elem_of_filter)%elem_of_lower_set.
      split; [apply elem_of_lower_set; eauto|done].
    - intros [(x & -> & Hx)%elem_of_lower_set H]. apply elem_of_lower_set.
      exists x. split; [done|]. by apply list_elem_of_filter. }
  apply leibniz_equiv. intros z. rewrite elem_of_union, elem_of_difference. simpl.
  rewrite !Hf. destruct (base.decide (z ∈ lower_set a)), (base.decide (z ∈ lower_set b)); tauto.
Qed.

Lemma is_nil_app {A} (a b : list A) : is_nil (a ++ b) = is_nil a && is_nil b.
Proof. by destruct a. Qed.

Lemma update_after tg u :
  tg ∈ ts_groups t → group_update (cs_groups (shown s)) tg = Some u →
  changes u = true ∧ after u (base s (tg_name tg)) = wanted tg.
Proof using All.
  intros Htg. unfold group_update, base. rewrite (shown_group s) by done.
  rewrite (to_owned t Ht) by done. destruct (GM s !! tg_name tg) as [g|]; simpl.
  - pose proof (diff_sets (fg_Includes g) (tg_includes tg)) as H1.
    pose proof (diff_sets (fg_Excludes g) (tg_excludes tg)) as H2. simpl in H1, H2.
    case_match eqn:En; [done|]. intros [= <-].
    unfold changes, after, wanted, group_sets. simpl. rewrite H1, H2. split; [|done].
    by rewrite !is_nil_app, !andb_assoc, En.
  - intros [= <-]. unfold changes, after, wanted. simpl. split.
    + pose proof (to_includes t Ht tg Htg). by destruct (tg_includes tg).
    + f_equal; set_solver.
Qed.

Lemma wanted_ne tg : tg ∈ ts_groups t → (wanted tg).1 ≠ ∅.
Proof using All.
  intros Htg E. pose proof (to_includes t Ht tg Htg) as Hne. unfold wanted in E. simpl in E.
  destruct (tg_includes tg) as [|a l]; [done|]. unfold lower_set in E. set_solver.
Qed.

(** *** The whole of [applyDiff] *)

Lemma post_disables_ok s4 :
  ∃ fresh s5, post_disables d s4 = (toggles s4 fresh, s5) ∧ same_view s4 s5 ∧
    (fresh = false → ∃ e, list_routes s4 = (inl e, s5)).
Proof using HL.
  unfold post_disables, toggles. destruct (routeUpserts d) as [|u us] eqn:E; simpl.
  - exists true, s4. split; [|done]. unfold mret, ST_ret. by rewrite app_nil_r.
  - unfold mbind, ST_bind. destruct (list_routes s4) as [[e|l] s5] eqn:El; destruct (law_routes _ _ _ El) as [Hv Hl].
    + exists false, s5. rewrite app_nil_r. split; [done|]. split; [done|]. intros _. by exists e.
    + subst l. by exists true, s5.
Qed.

(** What a successful [applyDiff] leaves. *)
Record applied (flags : bool) (s' : R) : Prop := {
  ap_ok : rv_ok s';
  ap_deleted : ∀ n, n ∉ tg_name <$> ts_groups t →
    GM s' !! n = if base.decide (n ∈ groupDeletes d) then None else GM s !! n;
  ap_group : ∀ tg, tg ∈ ts_groups t → ∃ g, GM s' !! tg_name tg = Some g ∧ group_sets g = wanted tg;
  ap_route : ∀ y, y ∈ ts_routes t →
    ∃ r, RM s' !! tr_key y = Some r ∧ route_in_place flags (route_of r) y;
  ap_other : ∀ k, (∀ y, y ∈ ts_routes t → tr_key y ≠ k) → RM s' !! k = base_route k;
}.

Lemma deleted_base k : k.1 ∈ groupDeletes d → base_route k = None.
Proof using All.
  intros Hk. apply (group_delete_elem range Hrange) in Hk as [Hd Hn].
  unfold base_route. case_decide as Hin; [done|]. destruct (RM s !! k) as [r|] eqn:Er; [|done].
  destruct Hin. apply deleted_key. split_and!; [|by exists r|].
  - apply elem_of_dom in Hd as [v Hv]. rewrite shown_group in Hv by done. by destruct (isOwned _).
  - intros y Hy <-. by apply Hn, (to_groups t Ht).
Qed.

Lemma deleted_not_target n : n ∈ groupDeletes d → n ∉ tg_name <$> ts_groups t.
Proof using Hrange. by intros [_ ?]%(group_delete_elem range Hrange). Qed.

Lemma phases_123 os5 k s' :
  check (λ e, "delete routes: " +:+ e)
    (if is_nil (routeDeletes d) then mret None
     else DeleteRoutes os5 ((λ rd, {| sp_Group := rd_Group rd; sp_Interface := rd_Iface rd;
                                      sp_Reject := false |}) <$> routeDeletes d))
  (check (λ e, "delete groups: " +:+ e)
    (if is_nil (groupDeletes d) then mret None else DeleteGroups (groupDeletes d))
    k) s = (None, s') →
  ∃ s2, k s2 = (None, s') ∧ rv_ok s2 ∧
    (∀ n, GM s2 !! n = if base.decide (n ∈ groupDeletes d) then None else GM s !! n) ∧
    (∀ q, RM s2 !! q = base_route q).
Proof using All.
  intros (s1 & H1 & (s2 & H2 & H)%check_ok)%check_ok.
  apply phase_delete_routes in H1 as (Hs1 & Hg1 & Hr1); [|done].
  apply phase_delete_groups in H2 as (Hs2 & Hg2 & Hsub & Hr2); [|done].
  exists s2. split_and!; [done..| |].
  - intros n. by rewrite Hg2, Hg1.
  - intros q. destruct (base.decide (q.1 ∈ groupDeletes d)) as [Hq|Hq].
    + rewrite deleted_base by done. destruct (RM s2 !! q) as [r|] eqn:E; [|done].
      apply Hsub in E. rewrite Hr1 in E. fold (base_route q) in E. by rewrite deleted_base in E.
    + by rewrite Hr2, Hr1.
Qed.

Lemma updates_ok s2 s3 :
  rv_ok s2 →
  (∀ n, GM s2 !! n = if base.decide (n ∈ groupDeletes d) then None else GM s !! n) →
  update_groups (groupUpdates d) s2 = ([], s3) →
  rv_ok s3 ∧ rv_routes s3 = rv_routes s2 ∧
  (∀ n, n ∉ tg_name <$> ts_groups t → GM s3 !! n = GM s2 !! n) ∧
  (∀ tg, tg ∈ ts_groups t → ∃ g, GM s3 !! tg_name tg = Some g ∧ group_sets g = wanted tg).
Proof using All.
  intros Hs2 Hg2 HU.
  assert (∀ tg, tg ∈ ts_groups t → GM s2 !! tg_name tg = GM s !! tg_name tg) as Hgt.
  { intros tg Htg. rewrite Hg2. case_decide as Hd; [|done]. destruct (deleted_not_target _ Hd).
    by apply list_elem_of_fmap_2. }
  assert (∀ tg u, tg ∈ ts_groups t → group_update (cs_groups (shown s)) tg = Some u →
    changes u = true ∧ after u (base s2 (gu_name u)) = wanted tg) as Hu.
  { intros tg u Htg Eu. rewrite (update_name tg u Eu). unfold base. rewrite Hgt by done.
    by apply (update_after tg u). }
  apply update_groups_ok in HU as (Hs3 & Hr3 & Hg3 & Hin);
    [|done|exact update_names|].
  - split_and!; [done..| |].
    + intros n Hn. apply Hg3. intros (u & -> & (tg & Htg & Eu)%update_elem)%list_elem_of_fmap.
      apply Hn. rewrite (update_name tg u Eu). by apply list_elem_of_fmap_2.
    + intros tg Htg. destruct (group_update (cs_groups (shown s)) tg) as [u|] eqn:Eu.
      * destruct (Hin u) as (g & Eg & Es); [apply update_elem; eauto|].
        rewrite (update_name tg u Eu) in Eg. exists g. split; [done|]. rewrite Es. by apply Hu.
      * apply group_update_None in Eu as Eu'. destruct Eu' as (cg & Ecg & Hi & He).
        rewrite shown_group, (to_owned t Ht) in Ecg by done.
        destruct (GM s !! tg_name tg) as [g|] eqn:Eg; [|done]. injection Ecg as <-.
        exists g. rewrite Hg3; [rewrite Hgt by done; split; [done|by apply pair_equal_spec]|].
        intros (u & En & (tg' & Htg' & Eu')%update_elem)%list_elem_of_fmap.
        rewrite (update_name tg' u Eu') in En.
        by rewrite (NoDup_key_inj tg_name _ tg tg' (to_names t Ht)), Eu' in Eu.
  - intros u (tg & Htg & Eu)%update_elem. destruct (Hu tg u Htg Eu) as [? ->].
    split; [done|]. by apply wanted_ne.
Qed.

Lemma apply_toggles_last os5 l r s0 s' :
  apply_toggles os5 l (mret (M := ST R) r) s0 = (None, s') → r = None.
Proof.
  revert s0. induction l as [|x l IH]; intros s0; simpl; [by intros [= ->]|].
  destruct (String.eqb _ _); [apply IH|]. intros (s1 & _ & H)%check_ok. by apply IH in H.
Qed.

(** The disable flags are right unless the listing of phase 5a failed. *)
Lemma applyDiff_applied os5 s' : applyDiff os5 d s = (None, s') →
  ∃ flags, applied flags s' ∧ (flags = false → ∃ s4 e s5, list_routes s4 = (inl e, s5)).
Proof using All.
  intros (s2 & H & Hs2 & Hg2 & Hr2)%phases_123.
  unfold mbind in H at 1. unfold ST_bind in H at 1.
  destruct (update_groups (groupUpdates d) s2) as [errs s3] eqn:E3.
  apply check_ok in H as (s4 & H4 & H). unfold mbind, ST_bind in H.
  destruct (post_disables_ok s4) as (fresh & s5 & E5 & Hv & Hfresh). rewrite E5 in H.
  assert (errs = []) as -> by (apply apply_toggles_last in H; by destruct errs).
  apply updates_ok in E3 as (Hs3 & Hr3 & Hgo & Hgt); [|done..].
  apply phase_upsert_routes in H4 as (Hs4 & Hg4 & Hkeep & Hup); [|done|exact upsert_reject].
  rewrite Hr3 in Hkeep, Hup. setoid_rewrite Hr2 in Hkeep. setoid_rewrite Hr2 in Hup.
  apply apply_toggles_ok in H as (s6 & [= <-] & Hs' & Hg' & Hr'); [|by eapply same_view_ok].
  destruct Hv as [Hv1 Hv2]. rewrite Hv1, Hg4 in Hg'. rewrite Hv2 in Hr'.
  exists fresh. split; [|by intros []%Hfresh; eauto].
  assert (∀ q, RM s6 !! q = toggle_all (toggles s4 fresh) <$> RM s4 !! q) as HM.
  { intros q. apply option_eq. intros r. rewrite fmap_Some, (RM_Some s6) by done.
    setoid_rewrite (RM_Some s4 _ _ Hs4). rewrite Hr', list_elem_of_fmap. split.
    - intros [(r0 & -> & Hr0) <-]. exists r0. split_and!; [done| |done].
      by destruct (toggle_all_same (toggles s4 fresh) r0) as (-> & _).
    - intros (r0 & [Hr0 <-] & ->). split; [eauto|].
      by destruct (toggle_all_same (toggles s4 fresh) r0) as (-> & _). }
  split; [done| | | |].
  - intros n Hn. by rewrite Hg', Hgo, Hg2.
  - intros tg Htg. rewrite Hg'. by apply Hgt.
  - intros y Hy. destruct (target_route s4 Hs4 Hkeep Hup fresh y Hy) as (r & Hr & Hi).
    exists (toggle_all (toggles s4 fresh) r). by rewrite HM, Hr.
  - intros k Hk. rewrite HM. rewrite <- Hkeep.
    + destruct (RM s4 !! k) as [r|] eqn:Er; [|done]. simpl. f_equal.
      by apply (other_route s4 Hs4 Hkeep Hup fresh k).
    + intros (u & -> & (y & Hy & -> & _)%(upsert_elem range Hrange _ t shown_keys Ht))%list_elem_of_fmap.
      by apply (Hk y).
Qed.

Lemma applied_in_place flags s' : applied flags s' → in_place flags (shown s') t.
Proof using All.
  intros [Hs' Hd Hg Hr Ho]. split.
  - intros n. rewrite elem_of_dom, shown_group by done. split.
    + intros Hn. destruct (base.decide (n ∈ tg_name <$> ts_groups t)) as [|Hnt]; [done|].
      destruct (isOwned n) eqn:Eo; [|by destruct Hn]. rewrite Hd in Hn by done.
      case_decide as Hdel; [by destruct Hn|]. destruct Hdel.
      apply (group_delete_elem range Hrange). split; [|done].
      apply elem_of_dom. by rewrite shown_group, Eo.
    + intros (tg & -> & Htg)%list_elem_of_fmap. destruct (Hg tg Htg) as (g & Eg & _).
      by rewrite (to_owned t Ht), Eg.
  - intros tg cg Htg E. rewrite shown_group, (to_owned t Ht) in E by done.
    destruct (Hg tg Htg) as (g & Eg & Es). rewrite Eg in E. injection E as <-.
    by injection Es.
  - intros y Hy. destruct (Hr y Hy) as (r & Er & Hi). exists (route_of r). split; [|done].
    pose proof Er as [Hin Hk]%(RM_Some s' _ _ Hs').
    apply filterAWGState_routes. exists r. split_and!; [done| |done].
    injection Hk as -> _. by apply target_owned.
  - intros x Hx. apply filterAWGState_routes in Hx as (r & Hin & Hown & ->).
    destruct (base.decide (Exists (λ y, tr_key y = rule_key r) (ts_routes t))) as [He|He].
    { apply Exists_exists in He as (y & Hy & Hk). by exists y. }
    assert (∀ y, y ∈ ts_routes t → tr_key y ≠ rule_key r) as Hno.
    { intros y Hy E. apply He, Exists_exists. eauto. }
    assert (RM s' !! rule_key r = Some r) as Er by (by apply RM_Some).
    rewrite Ho in Er by done. unfold base_route in Er. case_decide as Hdel; [done|].
    destruct Hdel. apply deleted_key. by split_and!; [|exists r|].
Qed.
End converge.
