(* ===== verification/DnsTarget.v ===== *)
(** * The target of the DNS route synchronisation

    The names of the object groups are recognised as our own and distinct, the
    chunks lose nothing and respect the capacity of a group, and the target
    state of well-formed lists is well-formed. *)
From S2P Require Import Prelude GoLib DnsTypes DnsSync DnsApply DnsSyncProps.

(** ** Group names *)

Lemma forallb_reverse {A} (p : A → bool) l : forallb p (reverse l) = forallb p l.
Proof.
  induction l as [|x l IH]; [done|]. rewrite reverse_cons, forallb_app, IH. simpl.
  by rewrite andb_true_r, andb_comm.
Qed.

Lemma drop_digits_app l l' :
  forallb is_digit l = true → drop_digits (l ++ l') = drop_digits l'.
Proof. induction l as [|c l IH]; simpl; [done|]. intros H. to_prop. by rewrite H, IH. Qed.

(** A slug as the names are built from: not empty, of [a-z0-9_]. *)
Definition slug_ok (s : string) : Prop := s ≠ "" ∧ str_forallb is_slug s = true.

Definition name_of (slug : string) (n : Z) : string := slug +:+ "_p" +:+ Itoa n.

Lemma name_bytes slug n :
  reverse (bytes (name_of slug n)) = reverse (bytes (Itoa n)) ++ "p"%char :: "_"%char :: reverse (bytes slug).
Proof.
  unfold name_of. rewrite !bytes_app, !reverse_app. simpl. by rewrite <- app_assoc.
Qed.

Lemma name_drop slug n : (0 ≤ n)%Z →
  drop_digits (reverse (bytes (name_of slug n))) = "p"%char :: "_"%char :: reverse (bytes slug).
Proof.
  intros Hn. rewrite name_bytes, drop_digits_app; [done|].
  rewrite forallb_reverse, <- str_forallb_bytes. by apply Itoa_digits.
Qed.

Lemma name_owned slug n : slug_ok slug → (0 ≤ n)%Z → IsAWGManagedName (name_of slug n) = true.
Proof.
  intros [Hne Hs] Hn. unfold IsAWGManagedName. destruct (Itoa_digits n Hn) as [Hin Hd].
  rewrite name_drop by done. rewrite name_bytes.
  rewrite str_forallb_bytes, <- forallb_reverse in Hs, Hd.
  destruct (reverse (bytes (Itoa n))) as [|c l] eqn:E.
  { apply (f_equal reverse) in E. rewrite reverse_involutive in E. by destruct (Itoa n). }
  simpl in Hd. to_prop. simpl. rewrite H. simpl.
  destruct (reverse (bytes slug)) as [|x r] eqn:Er; [|done].
  apply (f_equal reverse) in Er. rewrite reverse_involutive in Er. by destruct slug.
Qed.

Lemma name_inj slug n slug' n' :
  (0 ≤ n)%Z → (0 ≤ n')%Z → name_of slug n = name_of slug' n' → slug = slug' ∧ n = n'.
Proof.
  intros Hn Hn' E. pose proof (name_drop slug n Hn) as H. rewrite E, name_drop in H by done.
  injection H as H. apply (f_equal reverse) in H. rewrite !reverse_involutive in H.
  apply bytes_inj in H as ->. split; [done|]. unfold name_of in E.
  apply app_inj_l, (app_inj_l "_p") in E. by apply Itoa_inj in E.
Qed.

Lemma contains_byte_forallb b (p : ascii → bool) s :
  p b = false → str_forallb p s = true → contains_byte b s = false.
Proof.
  intros Hb. induction s as [|c s IH]; [done|]. simpl. intros H. to_prop. rewrite IH, orb_false_r by done.
  destruct (Ascii.eqb_spec c b); congruence.
Qed.

Lemma slug_digit c : is_digit c = true → is_slug c = true.
Proof. unfold is_slug. by intros ->. Qed.

Lemma name_slug slug n : slug_ok slug → (0 ≤ n)%Z → str_forallb is_slug (name_of slug n) = true.
Proof.
  intros [_ Hs] Hn. unfold name_of. rewrite !str_forallb_app, Hs. simpl.
  apply (str_forallb_impl is_digit); [apply slug_digit|]. by apply Itoa_digits.
Qed.

(** ** The slug of a list *)

Lemma slug_rune_ok r : str_forallb is_slug (slug_rune r) = true.
Proof.
  unfold slug_rune. destruct (cyrTranslit r) as [tr|] eqn:E.
  - unfold cyrTranslit in E. destruct (r =? 1105)%Z; [by injection E as <-|].
    destruct (1072 <=? r)%Z; [|done].
    assert (Forall (λ s, str_forallb is_slug s = true) cyr_table) as Hf by (repeat constructor).
    by apply (Forall_lookup_1 _ _ _ _ Hf) in E.
  - destruct (_ || _) eqn:Er; [|done]. simpl. rewrite andb_true_r. unfold is_slug, is_digit, byte_code.
    rewrite nat_ascii_embedding by (apply orb_true_iff in Er as [Er|Er]; to_prop; lia).
    apply orb_true_iff in Er as [Er|Er]; to_prop;
      [apply orb_true_iff; left; apply orb_true_iff; right|apply orb_true_iff; left; apply orb_true_iff; left];
      apply andb_true_iff; split; apply Nat.leb_le; lia.
Qed.

Lemma collapse_ok p prev s : str_forallb p s = true → str_forallb p (collapse prev s) = true.
Proof.
  revert prev. induction s as [|c s IH]; intros prev; simpl; [done|]. intros H. to_prop.
  destruct (Ascii.eqb c "_"), prev; simpl; rewrite ?H; by apply IH.
Qed.

Lemma trim_left_ok p q s : str_forallb p s = true → str_forallb p (trim_left q s) = true.
Proof. induction s as [|c s IH]; simpl; [done|]. intros H. destruct (q c); [|done]. to_prop. by apply IH. Qed.

Lemma trim_right_ok p q s : str_forallb p s = true → str_forallb p (trim_right q s) = true.
Proof.
  induction s as [|c s IH]; simpl; [done|]. intros H. to_prop. specialize (IH H0).
  destruct (trim_right q s); [destruct (q c)|]; simpl in *; by rewrite ?H, ?IH.
Qed.

Lemma str_take_ok p n s : str_forallb p s = true → str_forallb p (str_take n s) = true.
Proof.
  revert n. induction s as [|c s IH]; intros [|n]; simpl; try done. intros H. to_prop.
  by rewrite H, IH.
Qed.

Section target.
Context `{U : GoUnicode}.

Lemma sanitize_ok name : str_forallb is_slug (sanitizeGroupName name) = true.
Proof.
  unfold sanitizeGroupName, trim_underscores. set (s := trim_left _ _).
  assert (str_forallb is_slug s = true) as Hs.
  { unfold s. apply trim_left_ok, trim_right_ok, collapse_ok.
    induction (runes (ToLower name)) as [|r l IH]; [done|].
    simpl. by rewrite str_forallb_app, slug_rune_ok, IH. }
  case_match; [|done]. by apply trim_right_ok, str_take_ok.
Qed.

(** An ID as [nextListID] makes it: "list_" and a number. *)
Definition id_ok (id : string) : Prop := ∃ n, id = "list_" +:+ n ∧ slug_ok n.

Lemma GroupSlug_ok id name : id_ok id → slug_ok (GroupSlug id name).
Proof.
  intros (n & -> & Hn). unfold GroupSlug.
  destruct (String.eqb_spec (sanitizeGroupName name) "") as [E|E]; cbn [negb].
  - unfold TrimPrefix. by rewrite HasPrefix_app, str_drop_app.
  - split; [done|]. apply sanitize_ok.
Qed.

(** ** The chunks *)

Lemma chunks_of_spec fuel budget items :
  (1 ≤ budget)%nat → (length items ≤ fuel)%nat →
  concat (chunks_of fuel budget items) = items ∧
  ∀ ch, ch ∈ chunks_of fuel budget items → ch ≠ [] ∧ (length ch ≤ budget)%nat.
Proof.
  intros Hb. revert items. induction fuel as [|fuel IH]; intros [|x items] Hl; simpl in *;
    try (split; [done|by intros ? ?%elem_of_nil]); [lia|].
  destruct (IH (drop budget (x :: items))) as [Hc Hch].
  { rewrite length_drop. simpl. lia. }
  split; [by rewrite Hc, take_drop|].
  intros ch [-> |H]%elem_of_cons; [|by apply Hch]. split; [by destruct budget; [lia|]|].
  rewrite length_take. lia.
Qed.

Lemma list_chunks_spec l :
  concat (list_chunks l) = dl_Domains l ++ dl_Subnets l ∧
  ∀ ch, ch ∈ list_chunks l → ch ≠ [] ∧
    ((length (dl_Excludes l) < 300)%nat → (length ch + length (dl_Excludes l) ≤ 300)%nat).
Proof.
  unfold list_chunks, chunkWithReserve. change (MaxDomainsPerGroup <=? 0)%Z with false. simpl.
  destruct (is_nil _) eqn:En.
  { split; [by destruct (dl_Domains l ++ dl_Subnets l)|by intros ? ?%elem_of_nil]. }
  set (b := (MaxDomainsPerGroup - _)%Z).
  destruct (chunks_of_spec (length (dl_Domains l ++ dl_Subnets l))
    (Z.to_nat (if (b <? 1)%Z then 1 else b)) (dl_Domains l ++ dl_Subnets l)) as [Hc Hch];
    [case_match eqn:E; to_prop; lia|done|].
  split; [done|]. intros ch [Hne Hlen]%Hch. split; [done|]. intros He.
  unfold b, MaxDomainsPerGroup in Hlen. case_match eqn:E; to_prop; lia.
Qed.

(** ** The target state *)

(** A list the sync materializes. *)
Definition live (l : DomainList) : bool :=
  isNDMS (dl_Backend l) && negb (is_nil (dl_Domains l) && is_nil (dl_Subnets l)).

Definition slug (l : DomainList) : string := GroupSlug (dl_ID l) (dl_Name l).

(** The lists have proper IDs, names that differ in their slugs, and no interface
    twice in a chain. *)
Record lists_ok (lists : list DomainList) : Prop := {
  lo_ids : ∀ l, l ∈ lists → id_ok (dl_ID l);
  lo_slugs : NoDup (slug <$> filter (λ l, live l = true) lists);
  lo_routes : ∀ l, l ∈ lists → NoDup (rt_Interface <$> dl_Routes l);
}.

Context (failed : gset string).

Lemma list_target_dead l : live l = false → list_target failed l = [].
Proof.
  unfold live, list_target. destruct (isNDMS _); [|done]. simpl.
  by destruct (is_nil (dl_Domains l) && is_nil (dl_Subnets l)).
Qed.

Lemma list_target_live l : live l = true →
  list_target failed l = imap (λ i chunk,
    let name := name_of (slug l) (Z.of_nat i + 1) in
    ({| tg_name := name; tg_includes := chunk; tg_excludes := dl_Excludes l |},
     target_routes failed l name)) (list_chunks l).
Proof.
  unfold live, list_target. destruct (isNDMS _); [|done]. simpl.
  by destruct (is_nil (dl_Domains l) && is_nil (dl_Subnets l)).
Qed.

Definition parts (lists : list DomainList) := flat_map (list_target failed) lists.

Lemma parts_live lists : parts lists = filter (λ l, live l = true) lists ≫= list_target failed.
Proof.
  induction lists as [|l lists IH]; [done|]. unfold parts in *. simpl. rewrite IH, filter_cons.
  destruct (live l) eqn:E; case_decide; try done. by rewrite list_target_dead.
Qed.

(** A part belongs to a chunk of a live list. *)
Lemma part_of lists g rs :
  (g, rs) ∈ parts lists ↔
  ∃ l i ch, l ∈ lists ∧ live l = true ∧ list_chunks l !! i = Some ch ∧
    g = {| tg_name := name_of (slug l) (Z.of_nat i + 1); tg_includes := ch;
           tg_excludes := dl_Excludes l |} ∧ rs = target_routes failed l (tg_name g).
Proof.
  rewrite parts_live, list_elem_of_bind. split.
  - intros (l & Hp & [El Hl]%list_elem_of_filter). rewrite list_target_live in Hp by done.
    apply elem_of_lookup_imap in Hp as (i & ch & [= -> ->] & Hch). eauto 10.
  - intros (l & i & ch & Hl & El & Hch & -> & ->). exists l.
    split; [|by apply list_elem_of_filter]. rewrite list_target_live by done.
    apply elem_of_lookup_imap. eauto.
Qed.

Lemma target_route_of l name r :
  r ∈ target_routes failed l name →
  tr_group r = name ∧ tr_fallback r = materializedFallback (tr_fallback r) ∧
  tr_disabled r = negb (dl_Enabled l) ∧
  ∃ rt, rt ∈ dl_Routes l ∧ rt_TunnelID rt ∉ failed ∧ tr_iface r = rt_Interface rt.
Proof.
  intros (j & rt & -> & Hj)%elem_of_lookup_imap. simpl. split_and!; [done| |done|].
  - unfold materializedFallback at 1 3. by case_match.
  - apply list_elem_of_lookup_2, list_elem_of_filter in Hj as [? ?]. eauto.
Qed.

Lemma target_routes_keys l name :
  NoDup (rt_Interface <$> dl_Routes l) → NoDup (tr_key <$> target_routes failed l name).
Proof.
  intros Hnd. unfold target_routes.
  assert (NoDup (rt_Interface <$> activeRoutes failed l)) as Ha.
  { unfold activeRoutes. induction (dl_Routes l) as [|rt l' IH]; [apply NoDup_nil_2|].
    rewrite fmap_cons in Hnd. apply NoDup_cons in Hnd as [Hn Hl]. rewrite filter_cons.
    case_decide; [|by apply IH]. rewrite fmap_cons. apply NoDup_cons. split; [|by apply IH].
    intros (x & E & Hx)%list_elem_of_fmap. apply list_elem_of_filter in Hx as [_ Hx].
    apply Hn. rewrite E. by apply list_elem_of_fmap_2. }
  assert (∀ f : nat → RouteTarget → targetRoute, (∀ j rt, tr_key (f j rt) = (name, rt_Interface rt)) →
    ∀ l', tr_key <$> imap f l' = (λ i, (name, i)) <$> (rt_Interface <$> l')) as Hk.
  { intros f Hf l'. revert f Hf. induction l' as [|rt l' IH]; intros f Hf; [done|].
    simpl. rewrite Hf. f_equal. apply (IH (f ∘ S)). intros. apply Hf. }
  rewrite Hk by done.
  assert (Inj (=) (=) (λ i : string, (name, i))) as Hinj by (by intros ? ? [= ->]).
  by apply NoDup_fmap_2.
Qed.

Section well_formed.
Context (lists : list DomainList) (Hok : lists_ok lists).

Lemma slug_of_ok l : l ∈ lists → slug_ok (slug l).
Proof using Hok. intros. by apply GroupSlug_ok, Hok. Qed.

(** The name of a group tells its list and its chunk. *)
Lemma part_name_inj l1 l2 i1 i2 :
  l1 ∈ lists → l2 ∈ lists → live l1 = true → live l2 = true →
  name_of (slug l1) (Z.of_nat i1 + 1) = name_of (slug l2) (Z.of_nat i2 + 1) → l1 = l2 ∧ i1 = i2.
Proof using Hok.
  intros H1 H2 E1 E2 [Es Ei]%name_inj; [|lia..]. split; [|lia].
  apply (NoDup_key_inj slug (filter (λ l, live l = true) lists)); [apply Hok| | |done];
    by apply list_elem_of_filter.
Qed.

Lemma live_lists_NoDup : NoDup (filter (λ l, live l = true) lists).
Proof using Hok. eapply NoDup_fmap_1, Hok. Qed.

(** A function of the parts that tells their groups has no duplicates. *)
Lemma parts_NoDup {B} (f : targetGroup * list targetRoute → list B) (name : B → string) :
  (∀ p b, b ∈ f p → p ∈ parts lists → name b = tg_name p.1) →
  (∀ p, p ∈ parts lists → NoDup (f p)) →
  NoDup (parts lists ≫= f).
Proof using Hok.
  intros Hname Hf.
  assert (∀ l i ch, l ∈ lists → live l = true → list_chunks l !! i = Some ch → 
    ({| tg_name := name_of (slug l) (Z.of_nat i + 1); tg_includes := ch;
        tg_excludes := dl_Excludes l |},
     target_routes failed l (name_of (slug l) (Z.of_nat i + 1))) ∈ parts lists) as Hin.
  { intros. apply part_of. eauto 10. }
  apply NoDup_bind; [|done|].
  - intros [g1 r1] [g2 r2] b H1 H2 B1 B2.
    pose proof (Hname _ _ B1 H1) as N1. pose proof (Hname _ _ B2 H2) as N2. simpl in N1, N2.
    apply part_of in H1 as (l1 & i1 & c1 & ? & ? & ? & -> & ->).
    apply part_of in H2 as (l2 & i2 & c2 & ? & ? & ? & -> & ->). simpl in *.
    destruct (part_name_inj l1 l2 i1 i2) as [-> ->]; [congruence..|]. by simplify_eq.
  - rewrite parts_live. apply NoDup_bind; [| |exact live_lists_NoDup].
    + intros l1 l2 [g rs] [E1 H1]%list_elem_of_filter [E2 H2]%list_elem_of_filter.
      rewrite !list_target_live by done.
      intros (i1 & c1 & [= -> _] & _)%elem_of_lookup_imap (i2 & c2 & [= E _] & _)%elem_of_lookup_imap.
      by eapply part_name_inj.
    + intros l [E Hl]%list_elem_of_filter. rewrite list_target_live by done.
      apply NoDup_alt. intros i j p Hi Hj. rewrite list_lookup_imap in Hi, Hj.
      apply fmap_Some in Hi as (c1 & _ & ->). apply fmap_Some in Hj as (c2 & _ & [= En _ _]).
      by apply part_name_inj in En as [_ ?].
Qed.

Lemma names_bind (l : list (targetGroup * list targetRoute)) :
  tg_name <$> l.*1 = l ≫= λ p, [tg_name p.1].
Proof. induction l as [|p l IH]; [done|]. csimpl. by rewrite IH. Qed.

Lemma keys_bind (l : list (targetGroup * list targetRoute)) :
  tr_key <$> concat l.*2 = l ≫= λ p, tr_key <$> p.2.
Proof. induction l as [|p l IH]; [done|]. csimpl. by rewrite fmap_app, IH. Qed.

Lemma buildTargetState_ok (icons : gmap string string) :
  target_ok (buildTargetState {| sd_Lists := lists; sd_HRRuleIcons := icons |} failed).
Proof using Hok.
  assert (∀ g rs, (g, rs) ∈ parts lists → ∃ l n, l ∈ lists ∧ (0 ≤ n)%Z ∧ tg_name g = name_of (slug l) n
    ∧ tg_includes g ≠ [] ∧ rs = target_routes failed l (tg_name g)) as Hp.
  { intros g rs (l & i & ch & Hl & El & Hch & -> & ->)%part_of. exists l, (Z.of_nat i + 1)%Z.
    split_and!; [done|lia|done| |done]. simpl.
    apply list_elem_of_lookup_2 in Hch. by apply (list_chunks_spec l) in Hch as [? _]. }
  assert (∀ g, g ∈ (parts lists).*1 → ∃ rs, (g, rs) ∈ parts lists) as Hg.
  { intros g ([g' rs] & -> & H)%list_elem_of_fmap. eauto. }
  assert (∀ r, r ∈ concat (parts lists).*2 → ∃ g rs, (g, rs) ∈ parts lists ∧ r ∈ rs) as Hr.
  { intros r H. apply list_elem_of_In, in_concat in H as (rs & Hrs & Hin).
    apply list_elem_of_In in Hrs, Hin. apply list_elem_of_fmap in Hrs as ([g rs'] & -> & H). eauto. }
  unfold buildTargetState. simpl. fold (parts lists).
  split; simpl.
  - assert (tg_name <$> (parts lists).*1 = parts lists ≫= λ p, [tg_name p.1]) as ->.
    { apply names_bind. }
    apply (parts_NoDup _ id); [by intros p b ->%list_elem_of_singleton|].
    intros p _. apply NoDup_singleton.
  - intros g (rs & H)%Hg. destruct (Hp g rs H) as (l & n & Hl & Hn & -> & _).
    unfold isOwned. by rewrite name_owned by (done || by apply slug_of_ok).
  - intros g (rs & H)%Hg. destruct (Hp g rs H) as (l & n & Hl & Hn & -> & _).
    apply (contains_byte_forallb _ is_slug); [done|]. by apply name_slug; [apply slug_of_ok|].
  - intros g (rs & H)%Hg. by destruct (Hp g rs H) as (l & n & _ & _ & _ & ? & _).
  - intros r (g & rs & H & Hin)%Hr. destruct (Hp g rs H) as (l & n & _ & _ & _ & _ & ->).
    apply target_route_of in Hin as [-> _]. apply list_elem_of_fmap. exists g. split; [done|].
    apply list_elem_of_fmap. by exists (g, target_routes failed l (tg_name g)).
  - assert (tr_key <$> concat (parts lists).*2 = parts lists ≫= λ p, tr_key <$> p.2) as ->.
    { apply keys_bind. }
    apply (parts_NoDup _ fst).
    + intros [g rs] b Hb H. simpl in Hb. destruct (Hp g rs H) as (l & n & _ & _ & _ & _ & ->).
      apply list_elem_of_fmap in Hb as (r & -> & Hin). by apply target_route_of in Hin as [? _].
    + intros [g rs] H. simpl. destruct (Hp g rs H) as (l & n & Hl & _ & _ & _ & ->).
      by apply target_routes_keys, Hok.
  - intros r (g & rs & H & Hin)%Hr. destruct (Hp g rs H) as (l & n & _ & _ & _ & _ & ->).
    by apply target_route_of in Hin as (_ & ? & _).
Qed.
End well_formed.
End target.
