(* ===== verification/DnsSim.v ===== *)
(** * A router that meets the laws

    A concrete [DnsRouter]: every command succeeds at once unless a name holds
    "|".  It is the instance the concrete examples run on. *)
From S2P Require Import Prelude GoLib DnsTypes DnsSync DnsApply DnsSyncProps DnsApplyProps.

Record dns_sim := { ds_groups : list FQDNGroup; ds_routes : list DNSRouteRule }.

(** An index no other route has. *)
Definition fresh_index (l : list DNSRouteRule) : string := fresh ("" :: (dr_Index <$> l)).

Definition has_key (k : string * string) (r : DNSRouteRule) : bool := bool_decide (rule_key r = k).

Definition sim_entry (e : route_entry) (l : list DNSRouteRule) : list DNSRouteRule :=
  let k := (re_group e, re_interface e) in
  if re_no e then filter (λ r, rule_key r ≠ k) l
  else if existsb (has_key k) l
  then (λ r, if has_key k r then set_reject (re_reject e) r else r) <$> l
  else l ++ [{| dr_Group := re_group e; dr_Interface := re_interface e; dr_Auto := re_auto e;
                dr_Reject := re_reject e; dr_Index := fresh_index l; dr_Disabled := false |}].

Section sim.
Context `{U : GoUnicode}.

Definition sim_address (l : list string) (e : address_entry) : list string :=
  if ae_no e then filter (λ a, ToLower a ≠ ToLower (ae_address e)) l else l ++ [ae_address e].

Definition sim_group (name : string) (inc exc : list address_entry) (g : FQDNGroup) : FQDNGroup :=
  {| fg_Name := name; fg_Includes := foldl sim_address (fg_Includes g) inc;
     fg_Excludes := foldl sim_address (fg_Excludes g) exc |}.

Definition sim_groups (name : string) (inc exc : list address_entry) (l : list FQDNGroup)
    : list FQDNGroup :=
  if existsb (λ g, String.eqb (fg_Name g) name) l
  then (λ g, if String.eqb (fg_Name g) name then sim_group name inc exc g else g) <$> l
  else l ++ [sim_group name inc exc {| fg_Name := name; fg_Includes := []; fg_Excludes := [] |}].

Definition sim_post (p : payload) : ST dns_sim (option string) := λ s,
  match p with
  | RoutePayload l =>
      if existsb (λ e, contains_byte "|" (re_group e)) l then (Some "bad name", s)
      else (None, {| ds_groups := ds_groups s; ds_routes := foldl (λ r e, sim_entry e r) (ds_routes s) l |})
  | RouteDisable i no =>
      (None, {| ds_groups := ds_groups s;
                ds_routes := (λ r, if String.eqb (dr_Index r) i then set_disabled (negb no) r else r)
                             <$> ds_routes s |})
  | GroupsDelete names =>
      (None, {| ds_groups := filter (λ g, fg_Name g ∉ names) (ds_groups s); ds_routes := ds_routes s |})
  | GroupEntries name inc exc =>
      (None, {| ds_groups := sim_groups name inc exc (ds_groups s); ds_routes := ds_routes s |})
  end.

#[export] Instance dns_sim_router : DnsRouter dns_sim := {|
  Post := sim_post;
  list_routes := λ s, (inr (ds_routes s), s);
  list_groups := λ s, (inr (ds_groups s), s);
  save_Request := λ s, s;
  save_Flush := λ s, (None, s);
|}.
#[export] Instance dns_sim_view : DnsRouterView dns_sim :=
  {| rv_groups := ds_groups; rv_routes := ds_routes |}.

(** ** The laws *)

Lemma NoDup_fmap_filter {A B} (f : A → B) (P : A → Prop) `{∀ x, Decision (P x)} l :
  NoDup (f <$> l) → NoDup (f <$> filter P l).
Proof.
  induction l as [|x l IH]; [done|]. rewrite fmap_cons, NoDup_cons, filter_cons. intros [Hx Hl].
  case_decide; [|by apply IH]. rewrite fmap_cons, NoDup_cons. split; [|by apply IH].
  intros (y & E & Hy)%list_elem_of_fmap. apply Hx. rewrite E. apply list_elem_of_fmap_2.
  by apply list_elem_of_filter in Hy as [_ ?].
Qed.

Lemma NoDup_fmap_same {A B} (f : A → B) (g : A → A) l :
  (∀ x, f (g x) = f x) → NoDup (f <$> l) → NoDup (f <$> (g <$> l)).
Proof.
  intros Hf. rewrite <- list_fmap_compose. rewrite (list_fmap_ext (f ∘ g) f); [done|].
  intros. apply Hf.
Qed.

(** The well-formed lists of routes. *)
Definition routes_ok (l : list DNSRouteRule) : Prop :=
  NoDup (rule_key <$> l) ∧ NoDup (dr_Index <$> l) ∧
  ∀ r, r ∈ l → dr_Index r ≠ "" ∧ contains_byte "|" (dr_Group r) = false.

Lemma rv_ok_sim (s : dns_sim) : rv_ok s ↔ NoDup (fg_Name <$> ds_groups s) ∧ routes_ok (ds_routes s).
Proof.
  unfold routes_ok. split.
  - intros [H1 H2 H3 H4 H5]. split_and!; [done..|]. intros r Hr. split; [by apply H4|by apply H5].
  - intros (H1 & H2 & H3 & H4). split; try done; intros r Hr; by apply H4.
Qed.

Lemma fresh_index_ok l : fresh_index l ≠ "" ∧ fresh_index l ∉ dr_Index <$> l.
Proof.
  unfold fresh_index. pose proof (infinite_is_fresh ("" :: (dr_Index <$> l))) as H.
  apply not_elem_of_cons in H. naive_solver.
Qed.

Lemma existsb_key k l : existsb (has_key k) l = true ↔ ∃ r, r ∈ l ∧ rule_key r = k.
Proof.
  rewrite existsb_exists. unfold has_key. setoid_rewrite bool_decide_eq_true.
  by setoid_rewrite list_elem_of_In.
Qed.

Lemma sim_entry_ok e l :
  contains_byte "|" (re_group e) = false → routes_ok l →
  routes_ok (sim_entry e l) ∧ entry_effect e (route_map l) (route_map (sim_entry e l)).
Proof.
  intros Hb (Hk & Hi & Hr). unfold sim_entry, entry_effect. set (k := (re_group e, re_interface e)).
  destruct (re_no e).
  { assert (routes_ok (filter (λ r, rule_key r ≠ k) l)) as Hok.
    { split_and!; [by apply NoDup_fmap_filter..|].
      intros r [_ ?]%list_elem_of_filter. by apply Hr. }
    split; [done|]. apply map_eq. intros k'. apply option_eq. intros r.
    rewrite lookup_delete_Some, !route_map_Some by (done || apply Hok).
    rewrite list_elem_of_filter. naive_solver. }
  destruct (existsb (has_key k) l) eqn:Ee.
  - apply existsb_key in Ee as (r0 & Hr0 & Ek). set (f := λ r, if has_key k r then _ else r).
    assert (∀ r, rule_key (f r) = rule_key r) as Hf by (intros r; unfold f; by destruct (has_key k r)).
    assert (routes_ok (f <$> l)) as Hok.
    { split_and!; [by apply NoDup_fmap_same| |].
      - apply NoDup_fmap_same; [|done]. intros r. unfold f. by destruct (has_key k r).
      - intros r (r1 & -> & Hr1)%list_elem_of_fmap. unfold f. destruct (has_key k r1); exact (Hr r1 Hr1). }
    split; [done|]. rewrite (proj2 (route_map_Some l k r0 Hk)) by done.
    apply map_eq. intros k'. apply option_eq. intros r.
    rewrite route_map_Some, lookup_insert_Some, route_map_Some by (done || apply Hok).
    rewrite list_elem_of_fmap. split.
    + intros [(r1 & -> & Hr1) E]. rewrite Hf in E. unfold f, has_key. case_bool_decide as E1.
      * left. split; [congruence|]. by rewrite (NoDup_key_inj rule_key l r1 r0) by congruence.
      * right. split_and!; congruence.
    + intros [[<- <-]|(Hne & Hr1 & <-)].
      * split; [|done]. exists r0. split; [|done]. unfold f, has_key. by rewrite bool_decide_true.
      * split; [|done]. exists r. split; [|done]. unfold f, has_key. by rewrite bool_decide_false.
  - assert (∀ r, r ∈ l → rule_key r ≠ k) as Hno.
    { intros r Hin E. apply not_true_iff_false in Ee. apply Ee, existsb_key. eauto. }
    set (new := {| dr_Group := _ |}). destruct (fresh_index_ok l) as [Hf1 Hf2].
    assert (routes_ok (l ++ [new])) as Hok.
    { split_and!; rewrite ?fmap_app.
      - apply NoDup_app. split_and!; [done| |apply NoDup_singleton].
        intros x (r & -> & Hin)%list_elem_of_fmap E%list_elem_of_singleton. by apply (Hno r).
      - apply NoDup_app. split_and!; [done| |apply NoDup_singleton].
        intros x Hx E%list_elem_of_singleton. by rewrite E in Hx.
      - intros r [?| ->%list_elem_of_singleton]%elem_of_app; [by apply Hr|done]. }
    split; [done|]. assert (route_map l !! k = None) as ->.
    { apply eq_None_not_Some. intros [r Hin]. apply route_map_Some in Hin as [? ?]; [|done].
      by apply (Hno r). }
    exists (fresh_index l). fold new. apply map_eq. intros k'. apply option_eq. intros r.
    rewrite route_map_Some, lookup_insert_Some, route_map_Some by (done || apply Hok).
    rewrite elem_of_app, list_elem_of_singleton. split.
    + intros [[Hin| ->] <-]; [right|by left]. split; [|done]. intros E. by apply (Hno r).
    + intros [[<- <-]|(Hne & Hin & <-)]; [split; [by right|done]|split; [by left|done]].
Qed.

Lemma sim_entries_ok es l :
  existsb (λ e, contains_byte "|" (re_group e)) es = false → routes_ok l →
  routes_ok (foldl (λ r e, sim_entry e r) l es) ∧
  entries_effect es (route_map l) (route_map (foldl (λ r e, sim_entry e r) l es)).
Proof.
  revert l. induction es as [|e es IH]; intros l He Hl; simpl in *; [done|]. to_prop.
  destruct (sim_entry_ok e l) as [H1 H2]; [done..|].
  destruct (IH (sim_entry e l)) as [H3 H4]; [done..|]. eauto.
Qed.

Lemma lower_set_app a b : lower_set (a ++ b) = lower_set a ∪ lower_set b.
Proof. unfold lower_set. rewrite fmap_app. set_solver. Qed.

Lemma sim_address_set l e :
  lower_set (sim_address l e) =
  if ae_no e then lower_set l ∖ {[ToLower (ae_address e)]} else {[ToLower (ae_address e)]} ∪ lower_set l.
Proof.
  unfold sim_address. destruct (ae_no e).
  - unfold lower_set. induction l as [|a l IH]; [set_solver|].
    rewrite filter_cons. case_decide; csimpl; [rewrite IH; set_solver|]. rewrite IH.
    apply leibniz_equiv. intros x. destruct (base.decide (x = ToLower a)); set_solver.
  - rewrite lower_set_app. unfold lower_set. simpl. set_solver.
Qed.

Lemma sim_addresses_set es l : lower_set (foldl sim_address l es) = entries_on es (lower_set l).
Proof.
  revert l. induction es as [|e es IH]; intros l; [done|]. simpl. rewrite IH, sim_address_set.
  unfold entries_on. simpl. done.
Qed.

Lemma sim_groups_ok name inc exc l :
  NoDup (fg_Name <$> l) →
  NoDup (fg_Name <$> sim_groups name inc exc l) ∧
  ∃ g', group_map (sim_groups name inc exc l) = <[name := g']> (group_map l) ∧
    let '(i, e) := default (∅, ∅) (group_sets <$> group_map l !! name) in
    group_sets g' = (entries_on inc i, entries_on exc e).
Proof.
  intros Hnd. unfold sim_groups. destruct (existsb _ l) eqn:Ee.
  - apply existsb_exists in Ee as (g0 & Hg0%list_elem_of_In & E%String.eqb_eq).
    set (f := λ g, if String.eqb (fg_Name g) name then _ else g).
    assert (∀ g, fg_Name (f g) = fg_Name g) as Hf.
    { intros g. unfold f. destruct (String.eqb_spec (fg_Name g) name) as [<-|]; done. }
    assert (NoDup (fg_Name <$> (f <$> l))) as Hnd' by (by apply NoDup_fmap_same).
    split; [done|]. exists (sim_group name inc exc g0).
    rewrite (proj2 (group_map_Some l name g0 Hnd)) by done. split.
    + apply map_eq. intros n. apply option_eq. intros g.
      rewrite group_map_Some, lookup_insert_Some, group_map_Some by done.
      rewrite list_elem_of_fmap. split.
      * intros [(g1 & -> & Hg1) <-]. rewrite Hf. unfold f.
        destruct (String.eqb_spec (fg_Name g1) name) as [E1|E1]; [left|by right].
        split; [done|]. by rewrite (NoDup_key_inj fg_Name l g1 g0) by congruence.
      * intros [[<- <-]|(Hne & Hg1 & <-)].
        -- split; [|done]. exists g0. split; [|done]. unfold f. by rewrite E, String.eqb_refl.
        -- split; [|done]. exists g. split; [|done]. unfold f. by rewrite (proj2 (String.eqb_neq _ _)).
    + simpl. unfold group_sets. simpl. by rewrite !sim_addresses_set.
  - assert (∀ g, g ∈ l → fg_Name g ≠ name) as Hno.
    { intros g Hin En. apply not_true_iff_false in Ee. apply Ee, existsb_exists.
      exists g. split; [by apply list_elem_of_In|]. by apply String.eqb_eq. }
    set (new := sim_group _ _ _ _). assert (NoDup (fg_Name <$> l ++ [new])) as Hnd'.
    { rewrite fmap_app. apply NoDup_app. split_and!; [done| |apply NoDup_singleton].
      intros x (g & -> & Hin)%list_elem_of_fmap E%list_elem_of_singleton. by apply (Hno g). }
    split; [done|]. exists new. assert (group_map l !! name = None) as ->.
    { apply eq_None_not_Some. intros [g Hin]. apply group_map_Some in Hin as [? ?]; [|done].
      by apply (Hno g). }
    split.
    + apply map_eq. intros n. apply option_eq. intros g.
      rewrite group_map_Some, lookup_insert_Some, group_map_Some by done.
      rewrite elem_of_app, list_elem_of_singleton. split.
      * intros [[Hin| ->] <-]; [right|by left]. split; [|done]. intros E. by apply (Hno g).
      * intros [[<- <-]|(Hne & Hin & <-)]; [split; [by right|done]|split; [by left|done]].
    + simpl. unfold group_sets. simpl. by rewrite !sim_addresses_set.
Qed.

#[export] Instance dns_sim_laws : DnsRouterLaws dns_sim.
Proof.
  split.
  - by intros s r s' [= <- <-].
  - by intros s r s' [= <- <-].
  - done.
  - by intros s r s' [= <- <-].
  - intros l s s' [Hg Hr]%rv_ok_sim. simpl. destruct (existsb _ l) eqn:E; [done|]. intros [= <-].
    destruct (sim_entries_ok l (ds_routes s)) as [H1 H2]; [done..|].
    split_and!; [by apply rv_ok_sim|done..].
  - intros i no s s' [Hg (Hk & Hi & Hr)]%rv_ok_sim. simpl. intros [= <-].
    split_and!; [|done..]. apply rv_ok_sim. simpl. set (f := λ r, if String.eqb _ _ then _ else r).
    unfold routes_ok. split_and!; [done| | |].
    + apply NoDup_fmap_same; [|done]. intros r. unfold f. by destruct (String.eqb _ _).
    + apply NoDup_fmap_same; [|done]. intros r. unfold f. by destruct (String.eqb _ _).
    + intros r (r1 & -> & Hr1)%list_elem_of_fmap. unfold f.
      destruct (String.eqb (dr_Index r1) i); exact (Hr r1 Hr1).
  - intros names s s' [Hg Hr]%rv_ok_sim. simpl. intros [= <-]. simpl.
    assert (NoDup (fg_Name <$> filter (λ g, fg_Name g ∉ names) (ds_groups s))) as Hnd
      by (by apply NoDup_fmap_filter).
    split_and!; [by apply rv_ok_sim| |done|done].
    apply map_eq. intros n. apply option_eq. intros g.
    rewrite group_map_Some, map_lookup_filter_Some, group_map_Some by done.
    rewrite list_elem_of_filter. simpl. split; [intros [[? ?] <-]|intros [[? <-] ?]]; done.
  - intros name inc exc s s' [Hg Hr]%rv_ok_sim. simpl. intros [= <-].
    destruct (sim_groups_ok name inc exc (ds_groups s) Hg) as (Hnd & g' & Hm & Hs).
    destruct (default _ _) as [i e]. intros _. split_and!; [by apply rv_ok_sim|done|eauto].
Qed.
End sim.
