(* ===== verification/Failover.v ===== *)
(** * DNS route failover ([internal/dnsroute/failover.go])

    The set of failed tunnels, the reconcile callback that installs it and the
    report of the affected lists ([LookupAffectedLists] of [impl.go]).  A call
    is taken as atomic: ping-check events come from one listener goroutine, one
    at a time.  The mutex is released while the callback runs, so a tunnel
    deletion can interleave; it reconciles once more when it is through, and
    that overlap is not modelled.  The callback reads the failed set and may
    fail: it is a function of that set and of what it works on. *)
From S2P Require Import Prelude GoLib DnsTypes.

Record AffectedList := {
  al_ListID : string; al_ListName : string; al_FromTunnel : string; al_ToTunnel : string;
}.

Record PingCheckStateEvent := {
  pe_TunnelID : string; pe_Status : string; pe_FailCount : Z; pe_SuccessCount : Z;
  pe_RestartDetected : bool;
}.

Record DNSRouteFailoverEvent := {
  fe_ListID : string; fe_ListName : string; fe_TunnelID : string;
  fe_FromTunnel : string; fe_ToTunnel : string; fe_Action : string; fe_Error : string;
}.

(** What the manager sends to the bus and the journal. *)
Inductive output :=
  | Publish (e : DNSRouteFailoverEvent)
  | Warnf (msg : string)
  | Infof (msg : string).

Record FailoverManager := { fm_failedSet : gset string; fm_dirty : bool }.

Definition NewFailoverManager : FailoverManager := {| fm_failedSet := ∅; fm_dirty := false |}.

Definition IsFailed (id : string) (fm : FailoverManager) : bool := bool_decide (id ∈ fm_failedSet fm).

(** ** The affected lists *)

(** The index of the tunnel's first route in the chain. *)
Fixpoint route_index (id : string) (l : list RouteTarget) : option nat :=
  match l with
  | [] => None
  | rt :: l => if String.eqb (rt_TunnelID rt) id then Some 0 else S <$> route_index id l
  end.

(** The interface of the first route, other than number [idx], of a tunnel that
    has not failed; [i] counts the routes passed. *)
Fixpoint next_active (failed : gset string) (idx i : nat) (l : list RouteTarget) : string :=
  match l with
  | [] => ""
  | rt :: l =>
      if (i =? idx) || bool_decide (rt_TunnelID rt ∈ failed)
      then next_active failed idx (S i) l else rt_Interface rt
  end.

Definition affected_list (failed : gset string) (id action : string) (l : DomainList)
    : option AffectedList :=
  if dl_Enabled l then
    idx ← route_index id (dl_Routes l);
    rt ← dl_Routes l !! idx;
    let nextActive := next_active failed idx 0 (dl_Routes l) in
    let '(from, to) := if String.eqb action "switched" then (rt_Interface rt, nextActive)
                       else (nextActive, rt_Interface rt) in
    Some {| al_ListID := dl_ID l; al_ListName := dl_Name l; al_FromTunnel := from;
            al_ToTunnel := to |}
  else None.

(** [None]: the store is not loaded. *)
Definition LookupAffectedLists (data : option StoreData) (failed : gset string)
    (id action : string) : list AffectedList :=
  match data with
  | None => []
  | Some d => omap (affected_list failed id action) (sd_Lists d)
  end.

Section failover.
(** The lookup of the affected lists ([None]: not wired) reads the failed set at
    the time of the call; whether the bus and the journal are wired.

    [E]: what the reconcile callback works on; [reconcileFn] ([None]: not wired) is given
    the failed set the manager holds when it is called ([FailedTunnels]). *)
Notation error := (option string).
Context {E : Type}.
Context (lookup : option (gset string → string → string → list AffectedList)).
Context (reconcileFn : option (gset string → ST E error)).
Context (has_bus has_log : bool).
Notation M := (ST (FailoverManager * E)).

Definition manager : M FailoverManager := gets fst.
Definition on_manager (f : FailoverManager → FailoverManager) : M unit := modify (λ w, (f w.1, w.2)).
Definition set_failedSet (f : gset string → gset string) (fm : FailoverManager) : FailoverManager :=
  {| fm_failedSet := f (fm_failedSet fm); fm_dirty := fm_dirty fm |}.
Definition set_dirty (b : bool) (fm : FailoverManager) : FailoverManager :=
  {| fm_failedSet := fm_failedSet fm; fm_dirty := b |}.
(** [fm.reconcileFn()] *)
Definition call_back (f : gset string → ST E error) : M error := λ w,
  let '(err, e) := f (fm_failedSet w.1) w.2 in (err, (w.1, e)).

Definition publishFailoverEvents (id baseAction : string) (err : error) (fm : FailoverManager)
    : list output :=
  match lookup with
  | Some f =>
      if has_bus then
        let '(action, msg) := match err with Some e => ("error", e) | None => (baseAction, "") end in
        (λ a, Publish {| fe_ListID := al_ListID a; fe_ListName := al_ListName a;
                         fe_TunnelID := id; fe_FromTunnel := al_FromTunnel a;
                         fe_ToTunnel := al_ToTunnel a; fe_Action := action; fe_Error := msg |})
          <$> f (fm_failedSet fm) id baseAction
      else []
  | None => []
  end.

Definition affectedCount (id action : string) (fm : FailoverManager) : Z :=
  match lookup with
  | Some f => Z.of_nat (length (f (fm_failedSet fm) id action))
  | None => (-1)%Z
  end.

Definition log_failed (id : string) (changed : bool) (err : error) (fm : FailoverManager)
    : list output :=
  if has_log && changed then
    let n := affectedCount id "switched" fm in
    if (n =? 0)%Z then [] else
    match err with
    | Some e => [Warnf ("failover: DNS lists switch off failed tunnel " +:+ id +:+
                        " did not apply: " +:+ e)]
    | None =>
        if (0 <? n)%Z
        then [Warnf ("failover: tunnel " +:+ id +:+ " failed, " +:+ Itoa n +:+
                     " DNS list(s) switched to backup")]
        else [Warnf ("failover: tunnel " +:+ id +:+ " failed, DNS lists switched to backup")]
    end
  else [].

Definition log_recovered (id : string) (changed : bool) (err : error) (fm : FailoverManager)
    : list output :=
  if has_log && changed then
    if (affectedCount id "restored" fm =? 0)%Z then [] else
    match err with
    | Some e => [Warnf ("failover: DNS lists restore to recovered tunnel " +:+ id +:+
                        " did not apply: " +:+ e)]
    | None => [Infof ("failover: tunnel " +:+ id +:+ " recovered, DNS lists restored")]
    end
  else [].

Definition MarkFailed (id : string) : M (error * list output) :=
  fm ← manager;
  let alreadyFailed := IsFailed id fm in
  if alreadyFailed && negb (fm_dirty fm) then mret (None, [])
  else
    _ ← (if alreadyFailed then mret tt else on_manager (set_failedSet ({[id]} ∪.)));
    match reconcileFn with
    | None => mret (None, [])
    | Some f =>
        err ← call_back f;
        _ ← match err with
            | Some _ =>
                _ ← (if alreadyFailed then mret tt else on_manager (set_failedSet (.∖ {[id]})));
                on_manager (set_dirty true)
            | None => on_manager (set_dirty false)
            end;
        fm ← manager;
        mret (err, log_failed id (negb alreadyFailed) err fm ++ publishFailoverEvents id "switched" err fm)
    end.

Definition MarkRecovered (id : string) : M (error * list output) :=
  fm ← manager;
  let wasFailed := IsFailed id fm in
  if negb wasFailed && negb (fm_dirty fm) then mret (None, [])
  else
    _ ← (if wasFailed then on_manager (set_failedSet (.∖ {[id]})) else mret tt);
    match reconcileFn with
    | None => mret (None, [])
    | Some f =>
        err ← call_back f;
        _ ← match err with
            | Some _ =>
                _ ← (if wasFailed then on_manager (set_failedSet ({[id]} ∪.)) else mret tt);
                on_manager (set_dirty true)
            | None => on_manager (set_dirty false)
            end;
        fm ← manager;
        mret (err, log_recovered id wasFailed err fm ++ publishFailoverEvents id "restored" err fm)
    end.

(** [None]: the payload of the event has another type. *)
Definition handlePingCheckEvent (data : option PingCheckStateEvent) : M (list output) :=
  match data with
  | None => mret (if has_log then [Warnf "dnsroute failover: unexpected pingcheck event type"] else [])
  | Some ev =>
      if String.eqb (pe_Status ev) "fail" then
        if (pe_FailCount ev =? 0)%Z then mret [] else r ← MarkFailed (pe_TunnelID ev); mret r.2
      else if String.eqb (pe_Status ev) "pass" then r ← MarkRecovered (pe_TunnelID ev); mret r.2
      else mret []
  end.

(** The failover part of [OnTunnelDelete]. *)
Definition forget_tunnel (id : string) : M (list output) :=
  fm ← manager;
  if IsFailed id fm then r ← MarkRecovered id; mret r.2 else mret [].

(** ** Histories *)

Inductive failover_op :=
  | PingCheck (data : option PingCheckStateEvent)
  | TunnelDeleted (id : string).

Definition handle_op (op : failover_op) : M (list output) :=
  match op with
  | PingCheck data => handlePingCheckEvent data
  | TunnelDeleted id => forget_tunnel id
  end.

Fixpoint run_ops (ops : list failover_op) (w : FailoverManager * E) : FailoverManager * E :=
  match ops with
  | [] => w
  | op :: ops => run_ops ops (handle_op op w).2
  end.

(** ** The state after a call *)

Lemma set_add_in (id : string) (s : gset string) : id ∈ s → {[id]} ∪ s = s.
Proof. set_solver. Qed.
Lemma set_del_out (id : string) (s : gset string) : id ∉ s → s ∖ {[id]} = s.
Proof. set_solver. Qed.
Lemma set_add_del (id : string) (s : gset string) : id ∉ s → ({[id]} ∪ s) ∖ {[id]} = s.
Proof. set_solver. Qed.
Lemma set_del_add (id : string) (s : gset string) : id ∈ s → {[id]} ∪ s ∖ {[id]} = s.
Proof. intros. apply leibniz_equiv. intros x. destruct (base.decide (x = id)); set_solver. Qed.

Section wired.
Context (f : gset string → ST E error) (wired : reconcileFn = Some f).

(** The failed set with the verdict taken over. *)
Definition with_verdict (id : string) (failed : bool) (s : gset string) : gset string :=
  if failed then {[id]} ∪ s else s ∖ {[id]}.

(** What a call does to a manager that has to act: it shows the callback the set with the
    verdict, keeps that set when the callback succeeds, and otherwise goes back to the
    old one and remembers that something is left to do. *)
Definition acted (id : string) (b : bool) (w : FailoverManager * E) : FailoverManager * E :=
  let s := fm_failedSet w.1 in
  let '(err, e) := f (with_verdict id b s) w.2 in
  match err with
  | Some _ => ({| fm_failedSet := s; fm_dirty := true |}, e)
  | None => ({| fm_failedSet := with_verdict id b s; fm_dirty := false |}, e)
  end.

Definition idle (id : string) (b : bool) (fm : FailoverManager) : bool :=
  Bool.eqb (IsFailed id fm) b && negb (fm_dirty fm).

Lemma MarkFailed_state id w : (MarkFailed id w).2 = if idle id true w.1 then w else acted id true w.
Proof using wired.
  destruct w as [[s d] e]. unfold MarkFailed, idle, acted, with_verdict, IsFailed, manager, on_manager, call_back, mbind, ST_bind.
  rewrite wired. cbn. case_bool_decide; destruct d; cbn; try done.
  all: rewrite ?set_add_in by done; destruct (f _ e) as [[err|] e']; cbn; unfold set_dirty, set_failedSet; cbn;
    by rewrite ?set_add_del by done.
Qed.

Lemma MarkRecovered_state id w : (MarkRecovered id w).2 = if idle id false w.1 then w else acted id false w.
Proof using wired.
  destruct w as [[s d] e]. unfold MarkRecovered, idle, acted, with_verdict, IsFailed, manager, on_manager, call_back, mbind, ST_bind.
  rewrite wired. cbn. case_bool_decide; destruct d; cbn; try done.
  all: rewrite ?set_del_out by done; destruct (f _ e) as [[err|] e']; cbn; unfold set_dirty, set_failedSet; cbn;
    by rewrite ?set_del_add by done.
Qed.

(** The verdict of a ping check: failed after [n] failures, or alive. *)
Definition verdict_op (id : string) (failed : bool) (n : Z) : failover_op :=
  PingCheck (Some {| pe_TunnelID := id; pe_Status := if failed then "fail" else "pass";
                     pe_FailCount := n; pe_SuccessCount := 0; pe_RestartDetected := false |}).

Lemma drop_result {A B} (m : M A) (g : A → B) w : (mbind (λ r, mret (g r)) m w).2 = (m w).2.
Proof. unfold mbind, ST_bind. by destruct (m w). Qed.

Lemma verdict_state id b n w : n ≠ 0%Z →
  (handle_op (verdict_op id b n) w).2 = if idle id b w.1 then w else acted id b w.
Proof using wired.
  intros Hn%Z.eqb_neq. destruct b; cbn; rewrite ?Hn, drop_result; [apply MarkFailed_state|apply MarkRecovered_state].
Qed.

(** An operation does nothing or acts on a verdict. *)
Lemma handle_op_state op w : (handle_op op w).2 = w ∨ ∃ id b, (handle_op op w).2 = acted id b w.
Proof using wired.
  destruct op as [[ev|]|id]; cbn; [|by left|].
  - destruct (String.eqb _ "fail"); [|destruct (String.eqb _ "pass"); [|by left]].
    + destruct (_ =? 0)%Z; [by left|]. rewrite drop_result, MarkFailed_state. destruct (idle _ _ _); eauto.
    + rewrite drop_result, MarkRecovered_state. destruct (idle _ _ _); eauto.
  - assert ((forget_tunnel id w).2 = if IsFailed id w.1 then (MarkRecovered id w).2 else w) as ->.
    { unfold forget_tunnel, manager. unfold mbind at 1, ST_bind at 1. cbn. destruct (IsFailed id w.1); [|done].
      apply drop_result. }
    destruct (IsFailed id w.1); [|by left]. rewrite MarkRecovered_state. destruct (idle _ _ _); eauto.
Qed.

(** What a successful callback leaves behind. *)
Context (Installed : gset string → E → Prop) (installs : ∀ s e e', f s e = (None, e') → Installed s e').

(** A clean manager's failed set is the one installed. *)
Definition failover_ok (w : FailoverManager * E) : Prop := fm_dirty w.1 = false → Installed (fm_failedSet w.1) w.2.

Lemma acted_ok id b w : failover_ok (acted id b w).
Proof using installs.
  unfold failover_ok, acted. destruct (f _ _) as [[err|] e'] eqn:Ef; [done|]. intros _. by eapply installs.
Qed.

Lemma run_ops_ok ops w : failover_ok w → failover_ok (run_ops ops w).
Proof using wired installs.
  revert w. induction ops as [|op ops IH]; intros w Hok; [done|]. cbn [run_ops]. apply IH.
  destruct (handle_op_state op w) as [->|(id & b & ->)]; [done|apply acted_ok].
Qed.

(** C39: after any history of ping-check events and tunnel deletions, whatever their
    reconciles answered, and a new verdict about a tunnel: a manager that is clean holds
    the verdict, every other tunnel's status as before, and exactly its failed set has
    been installed by the reconcile callback; it is clean unless the callback, run on the
    failed set with the verdict, failed.  A manager that is not clean has kept its failed
    set, and the next verdict about any tunnel runs the callback again, on the set with
    that verdict. *)
Theorem failover_converges (e0 : E) (ops : list failover_op) (id : string) (b : bool) (n : Z) :
  Installed ∅ e0 → n ≠ 0%Z →
  let w := run_ops ops (NewFailoverManager, e0) in
  let w' := (handle_op (verdict_op id b n) w).2 in
  (fm_dirty w'.1 = false →
   IsFailed id w'.1 = b ∧ (∀ j, j ≠ id → IsFailed j w'.1 = IsFailed j w.1) ∧ Installed (fm_failedSet w'.1) w'.2) ∧
  (fm_dirty w'.1 = true →
   fm_failedSet w'.1 = fm_failedSet w.1 ∧ (∃ err, f (with_verdict id b (fm_failedSet w.1)) w.2 = (Some err, w'.2)) ∧
   ∀ j c m, m ≠ 0%Z → (handle_op (verdict_op j c m) w').2.2 = (f (with_verdict j c (fm_failedSet w'.1)) w'.2).2).
Proof using wired installs.
  intros H0 Hn. cbv zeta. pose proof (run_ops_ok ops (NewFailoverManager, e0) (λ _, H0)) as Hok.
  set (w := run_ops ops _) in *. rewrite verdict_state by done. unfold idle.
  assert (∀ j, j ≠ id → IsFailed j {| fm_failedSet := with_verdict id b (fm_failedSet w.1); fm_dirty := false |} = IsFailed j w.1) as Hj.
  { intros j Hj. apply bool_decide_ext. destruct b; cbn; set_solver. }
  destruct (Bool.eqb (IsFailed id w.1) b && negb (fm_dirty w.1)) eqn:Hi.
  - to_prop. apply Bool.eqb_prop in H. split; [intros _; eauto|congruence].
  - unfold acted. destruct (f _ w.2) as [[err|] e'] eqn:Ef; cbn [fst snd fm_dirty fm_failedSet]; (split; [|try done]).
    + done.
    + intros _. split; [done|]. split; [by exists err|]. intros j c m Hm. rewrite verdict_state by done.
      unfold idle, acted. cbn [fst snd fm_dirty fm_failedSet]. rewrite andb_false_r. by destruct (f _ e') as [[]].
    + intros _. split_and!; [|done|by eapply installs]. destruct b; cbn; [apply bool_decide_eq_true|apply bool_decide_eq_false]; set_solver.
Qed.
End wired.
End failover.

(** A router that keeps the failed set it was last given, and refuses as scripted. *)
Definition scripted (s : gset string) : ST (list bool * gset string) (option string) := λ e,
  match e.1 with
  | true :: l => (Some "ndms down", (l, e.2))
  | false :: l => (None, (l, s))
  | [] => (None, ([], s))
  end.

Lemma failover_converges_witness :
  let run := run_ops None (Some scripted) false false in
  let w := run [verdict_op "awg10" true 3; verdict_op "awg11" false 1] (NewFailoverManager, ([true; false], ∅)) in
  let w' := (handle_op None (Some scripted) false false (verdict_op "awg10" true 4) w).2 in
  fm_dirty w'.1 = false ∧ IsFailed "awg10" w'.1 = true ∧ w'.2.2 = fm_failedSet w'.1.
Proof.
  intros run w w'. assert (fm_dirty w'.1 = false) as E by reflexivity. split; [exact E|].
  destruct (failover_converges None (Some scripted) false false scripted eq_refl (λ s e, e.2 = s)
    ltac:(intros s [[|[] l] s0] e' H; by inversion H) ([true; false], ∅)
    [verdict_op "awg10" true 3; verdict_op "awg11" false 1] "awg10" true 4 eq_refl ltac:(done)) as [H _].
  destruct (H E) as (? & _ & ?). by split.
Defined.
