(* ===== verification/DnsReconcile.v ===== *)
(** * The DNS route reconciliation as a whole

    What the target asks for, when there is nothing to do, and that a reconcile
    which reports success has brought the router in sync; with the two ways in
    which the code falls short of it: the order of routes, and lists whose
    names share a slug. *)
From S2P Require Import Prelude GoLib DnsTypes DnsSync DnsApply DnsSyncProps DnsApplyProps DnsTarget DnsSim Failover.

Definition data_with (lists : list DomainList) : StoreData :=
  {| sd_Lists := lists; sd_HRRuleIcons := ∅ |}.

(** The order of Go's map iteration in the concrete examples. *)
Definition some_range : ∀ V, gmap string V → list (string * V) := λ V m, map_to_list m.
Lemma some_range_ok V (m : gmap string V) : map_range m (some_range V m).
Proof. apply map_range_self. Qed.

(** ** Convergence *)

Section reconcile.
Context `{HR : DnsRouter R} `{HV : !DnsRouterView R} `{U : GoUnicode} `{HL : !DnsRouterLaws R}.
Context (range : ∀ V, gmap string V → list (string * V)).
Context (Hrange : ∀ V (m : gmap string V), map_range m (range V m)).
Implicit Types s : R.

(** A reconcile of a router that is in sync issues no command. *)
Lemma reconcile_idle os5 data failed s r s' :
  rv_ok s → target_ok (buildTargetState data failed) →
  in_sync (shown s) (buildTargetState data failed) →
  reconcile os5 range (Some data) failed s = (r, s') → same_view s s'.
Proof using All.
  intros Hs Ht Hi. unfold reconcile, mbind, ST_bind, mret, ST_ret.
  destruct (list_routes s) as [lr s1] eqn:E1. destruct (law_routes _ _ _ E1) as [[Hg1 Hr1] Hl1].
  destruct lr as [[]|lr]; [by intros [= _ <-]..|].
  destruct (list_groups s1) as [lg s2] eqn:E2. destruct (law_groups _ _ _ E2) as [[Hg2 Hr2] Hl2].
  assert (same_view s s2) as Hv by (split; congruence).
  destruct lg as [e|lg]; [by intros [= _ <-]|]. subst lr lg.
  rewrite Hg1. fold (shown s).
  rewrite (in_sync_empty range Hrange _ _ (shown_keys s Hs) Ht Hi). by intros [= _ <-].
Qed.

(** What a reconcile that reports success leaves: the router does not support the routes
    and nothing was done; or the router is in line with the target, its foreign groups
    and routes untouched, and the disable flags are right unless a listing failed. *)
Record brought_in_line (t : targetState) (flags : bool) s s' : Prop := {
  bl_ok : rv_ok s';
  bl_place : in_place flags (shown s') t;
  bl_groups : ∀ n, isOwned n = false → group_map (rv_groups s') !! n = group_map (rv_groups s) !! n;
  bl_routes : ∀ k, isOwned k.1 = false → route_map (rv_routes s') !! k = route_map (rv_routes s) !! k;
}.

Lemma reconcile_ok os5 data failed s s' :
  rv_ok s → target_ok (buildTargetState data failed) →
  reconcile os5 range (Some data) failed s = (None, s') →
  (∃ s1, list_routes s = (inl ErrNotSupportedOnOS4, s1) ∧ same_view s s') ∨
  ∃ flags, brought_in_line (buildTargetState data failed) flags s s' ∧
    (flags = false → ∃ s4 e s5, list_routes s4 = (inl e, s5)).
Proof using All.
  intros Hs Ht. unfold reconcile, mbind, ST_bind, mret, ST_ret.
  destruct (list_routes s) as [lr s1] eqn:E1. destruct (law_routes _ _ _ E1) as [[Hg1 Hr1] Hl1].
  destruct lr as [[]|lr]; [intros [= <-]; left; by exists s1|done|].
  right. destruct (list_groups s1) as [lg s2] eqn:E2. destruct (law_groups _ _ _ E2) as [[Hg2 Hr2] Hl2].
  destruct lg as [e|lg]; [done|]. subst lr lg.
  assert (same_view s s2) as Hv by (split; congruence).
  assert (rv_ok s2) as Hs2 by (by eapply same_view_ok).
  destruct Hv as [Hvg Hvr]. revert H. rewrite Hg1, <- Hvg, <- Hvr. fold (shown s2). intros H.
  destruct (isEmpty _) eqn:Ee.
  { injection H as <-. exists true. split; [|done]. split; [done| |by rewrite Hvg|by rewrite Hvr].
    by apply in_sync_place, (empty_in_sync range Hrange _ _ (shown_keys s2 Hs2) Ht). }
  apply check_ok in H as (s3 & H & [= <-]).
  destruct (applyDiff_applied range Hrange s2 _ Hs2 Ht _ _ H) as (flags & Ha & Hflags). exists flags. split; [|done].
  split; [apply Ha|by eapply applied_in_place| |].
  - intros n Hn. rewrite <- Hvg. destruct Ha as [_ Hd _ _ _]. rewrite Hd.
    + case_decide as Hdel; [|done]. apply (group_delete_elem range Hrange) in Hdel as [Hdel _].
      apply elem_of_dom in Hdel as [v Hv]. by rewrite shown_group, Hn in Hv.
    + intros (tg & -> & Htg)%list_elem_of_fmap. by rewrite (to_owned _ Ht) in Hn.
  - intros k Hk. rewrite <- Hvr. destruct Ha as [_ _ _ _ Ho]. rewrite Ho.
    + unfold base_route. case_decide as Hdel; [|done].
      apply (deleted_key range Hrange s2 _ Hs2 Ht) in Hdel as [Hdel _]. by rewrite Hk in Hdel.
    + intros y Hy <-. pose proof (target_owned _ Ht y Hy) as E; simpl in Hk; congruence.
Qed.

(** C1: for lists with well-formed identifiers and distinct slugs, none with an interface
    twice, a reconcile that reports success found a router without support for such routes (OS4) and did nothing, or it
    has brought the router in line with the stored lists and the failed tunnels: exactly
    the wanted groups with the wanted addresses, exactly the wanted routes with the
    wanted fallback; no group and no route it does not own is touched.  The disable flags
    are the wanted ones too unless a listing of the routes failed on the way; then a
    further reconcile issues no command.  The order of the routes of a list is left
    aside: the difference does not look at it (see [route_order_never_repaired]). *)
Theorem reconcile_converges (os5 : bool) (lists : list DomainList) (icons : gmap string string)
    (failed : gset string) s s' :
  rv_ok s → lists_ok lists →
  let data := {| sd_Lists := lists; sd_HRRuleIcons := icons |} in
  reconcile os5 range (Some data) failed s = (None, s') →
  (∃ s1, list_routes s = (inl ErrNotSupportedOnOS4, s1) ∧ same_view s s') ∨
  ∃ flags, brought_in_line (buildTargetState data failed) flags s s' ∧
    (flags = false → ∃ s4 e s5, list_routes s4 = (inl e, s5)) ∧
    (flags = true → in_sync (shown s') (buildTargetState data failed) ∧
       ∀ r s'', reconcile os5 range (Some data) failed s' = (r, s'') → same_view s' s'').
Proof using All.
  intros Hs Hok data H.
  assert (target_ok (buildTargetState data failed)) as Ht by (by apply buildTargetState_ok).
  destruct (reconcile_ok os5 data failed s s' Hs Ht H) as [?|(flags & Hl & Hf)]; [by left|right].
  exists flags. split; [done|]. split; [done|]. intros ->. destruct Hl as [Hs' Hp _ _]. apply in_sync_place in Hp.
  split; [done|]. intros r s'' H'. by eapply reconcile_idle.
Qed.
End reconcile.

(** ** Nothing to do *)

(** The difference is empty exactly when the router has the wanted groups,
    addresses and routes with their fallbacks and flags. *)
Theorem computeDiff_empty `{GoUnicode} (range : ∀ V, gmap string V → list (string * V))
    (c : currentState) (t : targetState) :
  (∀ V (m : gmap string V), map_range m (range V m)) →
  NoDup (cr_key <$> cs_routes c) → target_ok t →
  isEmpty (computeDiff range c t) = true ↔ in_sync c t.
Proof. intros. split; [by apply empty_in_sync|by apply in_sync_empty]. Qed.

(** the order of the routes of a list, which is their priority, is never
    repaired: when the router has the wanted routes in another order, the
    difference is empty, although [routesEqual] tells the two apart. *)
Theorem route_order_never_repaired `{GoUnicode} (range : ∀ V, gmap string V → list (string * V))
    (c : currentState) (t t' : targetState) :
  (∀ V (m : gmap string V), map_range m (range V m)) →
  NoDup (cr_key <$> cs_routes c) → target_ok t' →
  in_sync c t → ts_groups t' = ts_groups t → ts_routes t' ≡ₚ ts_routes t →
  isEmpty (computeDiff range c t') = true.
Proof.
  intros Hr Hc Ht' [Hg Ha Hi Hn] Eg Er. apply in_sync_empty; [done..|].
  split; rewrite ?Eg; [done|done| |].
  - intros y Hy. rewrite Er in Hy. by apply Hi.
  - intros x Hx. destruct (Hn x Hx) as (y & Hy & E). exists y. by rewrite Er.
Qed.

(** ** What the target asks for *)

(** Every domain and subnet of a materialized list is in one of its groups,
    with the list's excludes and a route through each of its tunnels that has
    not failed; a group never holds more than 300 entries (as long as the
    excludes leave room); no route goes through a failed tunnel, and the routes
    of a disabled list are paused. *)
Theorem buildTargetState_spec `{GoUnicode} (lists : list DomainList) (failed : gset string) :
  let t := buildTargetState (data_with lists) failed in
  (∀ l d, l ∈ lists → live l = true → d ∈ dl_Domains l ++ dl_Subnets l →
     ∃ g, g ∈ ts_groups t ∧ d ∈ tg_includes g ∧ tg_excludes g = dl_Excludes l ∧
       ∀ rt, rt ∈ dl_Routes l → rt_TunnelID rt ∉ failed →
         ∃ r, r ∈ ts_routes t ∧ tr_group r = tg_name g ∧ tr_iface r = rt_Interface rt) ∧
  (∀ g, g ∈ ts_groups t → (length (tg_excludes g) < 300)%nat →
     (length (tg_includes g) + length (tg_excludes g) ≤ 300)%nat) ∧
  (∀ r, r ∈ ts_routes t → ∃ l rt, l ∈ lists ∧ live l = true ∧ rt ∈ dl_Routes l ∧
     rt_TunnelID rt ∉ failed ∧ tr_iface r = rt_Interface rt ∧ tr_disabled r = negb (dl_Enabled l)).
Proof.
  unfold buildTargetState, data_with. simpl. fold (parts failed lists). split_and!.
  - intros l d Hl El Hd. destruct (list_chunks_spec l) as [Hc _]. rewrite <- Hc in Hd.
    apply list_elem_of_In, in_concat in Hd as (ch & Hch%list_elem_of_In & Hd%list_elem_of_In).
    apply list_elem_of_lookup in Hch as [i Hi].
    set (g := {| tg_name := name_of (slug l) (Z.of_nat i + 1); tg_includes := ch;
                 tg_excludes := dl_Excludes l |}).
    assert ((g, target_routes failed l (tg_name g)) ∈ parts failed lists) as Hp.
    { apply part_of. exists l, i, ch. by split_and!. }
    exists g. split_and!; [by apply (list_elem_of_fmap_2 fst) in Hp|done|done|].
    intros rt Hrt Hf. assert (rt ∈ activeRoutes failed l) as [j Hj]%list_elem_of_lookup.
    { by apply list_elem_of_filter. }
    assert (∃ r, r ∈ target_routes failed l (tg_name g) ∧ tr_group r = tg_name g ∧
      tr_iface r = rt_Interface rt) as (r & Hr & ? & ?).
    { eexists. split; [apply elem_of_lookup_imap; exists j, rt; by split|done]. }
    exists r. split; [|done]. apply list_elem_of_In, in_concat.
    exists (target_routes failed l (tg_name g)). split; [|by apply list_elem_of_In].
    apply list_elem_of_In. by apply (list_elem_of_fmap_2 snd) in Hp.
  - intros g ([g' rs] & -> & Hp)%list_elem_of_fmap. simpl.
    apply part_of in Hp as (l & i & ch & _ & _ & Hch & -> & _). simpl. intros He.
    apply list_elem_of_lookup_2 in Hch. apply (list_chunks_spec l) in Hch as [_ Hlen]. auto.
  - intros r (rs & Hrs & Hr)%list_elem_of_In%in_concat.
    apply list_elem_of_In in Hrs, Hr. apply list_elem_of_fmap in Hrs as ([g rs'] & -> & Hp).
    apply part_of in Hp as (l & i & ch & Hl & El & _ & -> & ->).
    apply target_route_of in Hr as (_ & _ & Hd & rt & ? & ? & ?). by exists l, rt.
Qed.

(** ** Concrete runs *)

#[local] Existing Instance plain_unicode.

Definition chain (l : list (string * string)) : list RouteTarget :=
  (λ p, {| rt_Interface := p.1; rt_TunnelID := p.2; rt_Fallback := "" |}) <$> l.

(** Two lists; the first goes through two tunnels in order. *)
Definition ex_work : DomainList :=
  plain_list "list_1" "Work" ["intra.example.com"; "Git.example.com"] []
    (chain [("Wireguard0", "awg10"); ("Wireguard1", "awg11")]).
Definition ex_dns_lists : list DomainList :=
  [ ex_work;
    plain_list "list_2" "" ["video.example.org"] ["ads.example.org"] (chain [("Wireguard1", "awg11")]) ].

(** The router holds a group of the user and a stale one of ours. *)
Definition ex_router : dns_sim := {|
  ds_groups := [ {| fg_Name := "Home"; fg_Includes := ["home.lan"]; fg_Excludes := [] |};
                 {| fg_Name := "old_p1"; fg_Includes := ["old.example.com"]; fg_Excludes := [] |} ];
  ds_routes := [ {| dr_Group := "Home"; dr_Interface := "ISP"; dr_Auto := true; dr_Reject := false;
                    dr_Index := "h1"; dr_Disabled := false |};
                 {| dr_Group := "old_p1"; dr_Interface := "Wireguard0"; dr_Auto := true;
                    dr_Reject := false; dr_Index := "h2"; dr_Disabled := false |} ] |}.

Definition run (failed : gset string) (s : dns_sim) : option string * dns_sim :=
  reconcile true some_range (Some (data_with ex_dns_lists)) failed s.

Lemma ex_lists_ok : lists_ok ex_dns_lists.
Proof.
  assert (∀ n, n ≠ "" → str_forallb is_slug n = true → id_ok ("list_" +:+ n)) as Hid.
  { intros n ? ?. by exists n. }
  split.
  - intros l [-> |[-> |[]%elem_of_nil]%elem_of_cons]%elem_of_cons; [by apply (Hid "1")|by apply (Hid "2")].
  - apply (bool_decide_unpack _). by vm_compute.
  - intros l [-> |[-> |[]%elem_of_nil]%elem_of_cons]%elem_of_cons;
      apply (bool_decide_unpack _); by vm_compute.
Qed.

Lemma ex_router_ok : rv_ok ex_router.
Proof.
  apply rv_ok_sim. split; [apply (bool_decide_unpack _); by vm_compute|].
  split; [apply (bool_decide_unpack _); by vm_compute|].
  split; [apply (bool_decide_unpack _); by vm_compute|].
  intros r [-> |[-> |[]%elem_of_nil]%elem_of_cons]%elem_of_cons; by vm_compute.
Qed.

Lemma reconcile_converges_witness :
  (run ∅ ex_router).1 = None ∧
  in_sync (shown (run ∅ ex_router).2) (buildTargetState (data_with ex_dns_lists) ∅).
Proof.
  assert ((run ∅ ex_router).1 = None) as E by (by vm_compute). split; [exact E|].
  destruct (run ∅ ex_router) as [r s'] eqn:Er. simpl in E. subst r.
  destruct (reconcile_converges some_range some_range_ok true ex_dns_lists ∅ ∅ ex_router s')
    as [(s1 & E1 & _)|(flags & Hl & Hf & Hs)]; [exact ex_router_ok|exact ex_lists_ok|exact Er|discriminate E1|].
  destruct flags; [exact (proj1 (Hs eq_refl))|].
  destruct (Hf eq_refl) as (s4 & e & s5 & E4). discriminate E4.
Defined.

Lemma buildTargetState_spec_witness :
  ∃ g, g ∈ ts_groups (buildTargetState (data_with ex_dns_lists) {["awg10"]}) ∧
    "Git.example.com" ∈ tg_includes g ∧ tg_excludes g = [].
Proof.
  destruct (buildTargetState_spec ex_dns_lists {["awg10"]}) as (H & _).
  destruct (H ex_work "Git.example.com") as (g & ? & ? & ? & _).
  - left.
  - reflexivity.
  - right. left.
  - exists g. split_and!; assumption.
Defined.

Lemma computeDiff_empty_witness :
  isEmpty (computeDiff some_range (shown (run ∅ ex_router).2)
    (buildTargetState (data_with ex_dns_lists) ∅)) = true ↔
  in_sync (shown (run ∅ ex_router).2) (buildTargetState (data_with ex_dns_lists) ∅).
Proof.
  apply computeDiff_empty.
  - exact some_range_ok.
  - apply (bool_decide_unpack _). by vm_compute.
  - apply buildTargetState_ok. exact ex_lists_ok.
Defined.

(** The first tunnel of the chain fails and recovers: its route comes back
    behind the other one, and there it stays. *)
Lemma route_order_never_repaired_witness :
  let s := (run ∅ (run {["awg10"]} (run ∅ ex_router).2).2).2 in
  let routes := filter (λ r, dr_Group r = "work_p1") (rv_routes s) in
  (dr_Interface <$> routes = ["Wireguard1"; "Wireguard0"]) ∧
  (tr_iface <$> filter (λ r, tr_group r = "work_p1")
     (ts_routes (buildTargetState (data_with ex_dns_lists) ∅)) = ["Wireguard0"; "Wireguard1"]) ∧
  isEmpty (computeDiff some_range (shown s) (buildTargetState (data_with ex_dns_lists) ∅)) = true.
Proof.
  split; [by vm_compute|]. split; [by vm_compute|].
  apply (route_order_never_repaired some_range _ (buildTargetState (data_with ex_dns_lists) ∅)).
  - exact some_range_ok.
  - apply (bool_decide_unpack _). by vm_compute.
  - apply buildTargetState_ok. exact ex_lists_ok.
  - apply (empty_in_sync some_range some_range_ok).
    + apply (bool_decide_unpack _). by vm_compute.
    + apply buildTargetState_ok. exact ex_lists_ok.
    + by vm_compute.
  - reflexivity.
  - reflexivity.
Defined.

(** two lists whose names differ only outside the slug share a group: when
    the group holds the domains of both, one reconcile asks the router to remove
    the second list's domains and then the first list's, so both are lost. *)
Theorem colliding_names_empty_the_group :
  let t := buildTargetState (data_with
    [plain_list "list_1" "Work!" ["a.example.com"] [] (chain [("Wireguard0", "awg10")]);
     plain_list "list_2" "work" ["b.example.com"] [] (chain [("Wireguard1", "awg11")])]) ∅ in
  let c := {| cs_groups := {["work_p1" := {| cg_includes := ["a.example.com"; "b.example.com"];
                                             cg_excludes := [] |}]};
              cs_routes := [] |} in
  tg_name <$> ts_groups t = ["work_p1"; "work_p1"] ∧
  (λ u, (gu_name u, gu_addIncludes u, gu_removeIncludes u))
    <$> groupUpdates (computeDiff some_range c t) =
  [("work_p1", [], ["b.example.com"]); ("work_p1", [], ["a.example.com"])].
Proof. by vm_compute. Qed.

(** A backup tunnel that fails while the primary is up is reported as a switch
    from the backup to the primary. *)
Lemma backup_failure_reported_as_switch :
  LookupAffectedLists (Some (data_with [plain_list "list_1" "Work" ["a.example.com"] []
      (chain [("Wireguard0", "awg10"); ("Wireguard1", "awg11")])])) {["awg11"]} "awg11" "switched" =
  [{| al_ListID := "list_1"; al_ListName := "Work"; al_FromTunnel := "Wireguard1";
      al_ToTunnel := "Wireguard0" |}].
Proof. by vm_compute. Qed.
