(* ===== verification/GoText.v ===== *)
(** * Go's text and network address helpers

    The parts of [strings], [strconv], [bufio] and [net] behind the tunnel
    configuration: [Join], [Index], [LastIndex], [ParseUint], the line scanner
    with its limit on the length of a line, [SplitHostPort], [JoinHostPort] and
    the test "[ParseIP] is not nil"; then the facts the round trips need. *)
From S2P Require Import Prelude GoLib.

(** ** strings and strconv *)

(** [strings.Join] *)
Fixpoint Join (l : list string) (sep : string) : string :=
  match l with
  | [] => ""
  | [s] => s
  | s :: l' => s +:+ sep +:+ Join l' sep
  end.

(** [strings.LastIndexByte]: [None] stands for -1. *)
Fixpoint last_index_byte (b : ascii) (s : string) : option nat :=
  match s with
  | EmptyString => None
  | String c s' =>
      match last_index_byte b s' with
      | Some i => Some (S i)
      | None => if Ascii.eqb c b then Some 0%nat else None
      end
  end.

(** [strings.Cut] on a separator of one byte. *)
Definition Cut (s : string) (b : ascii) : string * string * bool :=
  match index_byte b s with
  | Some i => (str_take i s, str_drop (S i) s, true)
  | None => (s, "", false)
  end.

(** [strconv.ParseUint(s, 10, bits)]: [None] is a syntax or a range error. *)
Definition ParseUint (s : string) (bits : Z) : option Z :=
  v ← parse_digits s; if (v <? 2 ^ bits)%Z then Some v else None.

(** ** bufio.Scanner over lines

    [ScanLines] cuts at every newline, takes one carriage return off the end of
    a line and gives no last line when the text ends in a newline.  The buffer
    holds [MaxScanTokenSize] bytes: a line that fills it without its newline
    ends the scan with [ErrTooLong], after the lines before it. *)
Definition newline : ascii := ascii_of_nat 10.
Definition carriage_return : ascii := ascii_of_nat 13.
Definition nl : string := String newline "".
Definition MaxScanTokenSize : nat := 64 * 1024.

Fixpoint dropCR (s : string) : string :=
  match s with
  | EmptyString => ""
  | String c EmptyString => if Ascii.eqb c carriage_return then "" else s
  | String c s' => String c (dropCR s')
  end.

Fixpoint drop_last_empty (l : list string) : list string :=
  match l with
  | [] => []
  | [s] => if String.eqb s "" then [] else [s]
  | s :: l' => s :: drop_last_empty l'
  end.

(** [strlen s < n], looking at [n] bytes at most. *)
Fixpoint shorter (s : string) (n : nat) : bool :=
  match n, s with
  | O, _ => false
  | S _, EmptyString => true
  | S n', String _ s' => shorter s' n'
  end.

(** The lines before the first one that is too long, and whether there is one. *)
Fixpoint cut_long (limit : nat) (l : list string) : list string * bool :=
  match l with
  | [] => ([], false)
  | s :: l' =>
      if shorter s limit then let '(r, e) := cut_long limit l' in (dropCR s :: r, e)
      else ([], true)
  end.

Definition scan_lines (text : string) : list string * bool :=
  cut_long MaxScanTokenSize (drop_last_empty (split_byte newline text)).

(** ** net *)

(** [net.SplitHostPort]: [None] is one of its errors. *)
Definition SplitHostPort (hostport : string) : option (string * string) :=
  match last_index_byte ":" hostport with
  | None => None (* missing port *)
  | Some i =>
      let finish host j k :=
        if contains_byte "[" (str_drop j hostport) then None
        else if contains_byte "]" (str_drop k hostport) then None
        else Some (host, str_drop (S i) hostport) in
      if HasPrefix hostport "[" then
        match index_byte "]" hostport with
        | None => None (* missing ']' *)
        | Some e =>
            if (S e =? i)%nat then finish (str_drop 1 (str_take e hostport)) 1%nat (S e)
            else None (* missing port, too many colons *)
        end
      else
        let host := str_take i hostport in
        if contains_byte ":" host then None (* too many colons *)
        else finish host 0%nat 0%nat
  end.

(** [net.JoinHostPort] *)
Definition JoinHostPort (host port : string) : string :=
  if contains_byte ":" host then "[" +:+ host +:+ "]:" +:+ port else host +:+ ":" +:+ port.

Definition is_hex (c : ascii) : bool :=
  let n := byte_code c in
  is_digit c || ((97 <=? n) && (n <=? 102) || (65 <=? n) && (n <=? 70))%nat.

(** [netip.parseIPv4Fields] on the whole of [s], the octets: [fresh] holds at the
    start and after a dot, [zero] when the octet so far is the single digit 0. *)
Fixpoint v4_fields (pos : nat) (val : Z) (fresh zero : bool) (s : string) : option (list Z) :=
  match s with
  | EmptyString => if negb fresh && (pos =? 3)%nat then Some [val] else None
  | String c s' =>
      match digit_of c with
      | Some d =>
          if zero then None
          else if (255 <? val * 10 + d)%Z then None
          else v4_fields pos (val * 10 + d)%Z false (fresh && (d =? 0)%Z) s'
      | None =>
          if Ascii.eqb c "." then
            if fresh then None else if (pos =? 3)%nat then None
            else cons val <$> v4_fields (S pos) 0 true false s'
          else None
      end
  end.

Definition parseIPv4 (s : string) : option (list Z) := v4_fields 0 0 true false s.

Fixpoint hex_span (s : string) : nat :=
  match s with
  | String c s' => if is_hex c then S (hex_span s') else O
  | EmptyString => O
  end.

Definition hex_digit (c : ascii) : Z :=
  let n := byte_code c in
  if (n <=? 57)%nat then (Z.of_nat n - 48)%Z
  else if (n <=? 70)%nat then (Z.of_nat n - 55)%Z else (Z.of_nat n - 87)%Z.

Fixpoint hex_val (acc : Z) (s : string) : Z :=
  match s with
  | String c s' => hex_val (Z.shiftl acc 4 + hex_digit c)%Z s'
  | EmptyString => acc
  end.

(** Two 16-bit groups from four octets. *)
Definition v4_groups (l : list Z) : list Z :=
  match l with [a; b; c; d] => [a * 256 + b; c * 256 + d]%Z | _ => [] end.

(** The loop of [netip.parseIPv6]: [n] more 16-bit groups fit (so
    [i = 16 - 2 * n]), [ell]: an ellipsis has been seen.  The groups up to the
    ellipsis, and those after it when it comes in the rest. *)
Fixpoint v6_loop (n : nat) (ell : bool) (s : string) : option (list Z * option (list Z)) :=
  match n with
  | O => if String.eqb s "" && negb ell then Some ([], None) else None
  | S n' =>
      let off := hex_span s in
      if (off =? 0)%nat || (4 <? off)%nat then None
      else
        let g := hex_val 0 (str_take off s) in
        match str_drop off s with
        | EmptyString =>
            if (n' =? 0)%nat && negb ell || negb (n' =? 0)%nat && ell then Some ([g], None) else None
        | String c rest =>
            if Ascii.eqb c "." then
              (* an embedded IPv4 address ends the text *)
              if negb ell && negb (n =? 2)%nat then None
              else if (n <? 2)%nat then None
              else
                l ← v4_fields 0 0 true false s;
                if (n =? 2)%nat && negb ell || (2 <? n)%nat && ell then Some (v4_groups l, None) else None
            else if negb (Ascii.eqb c ":") then None
            else
              match rest with
              | EmptyString => None
              | String c' rest' =>
                  if Ascii.eqb c' ":" then
                    if ell then None
                    else if String.eqb rest' "" then
                      if negb (n' =? 0)%nat then Some ([g], Some []) else None
                    else '(post, _) ← v6_loop n' true rest'; Some ([g], Some post)
                  else '(pre, post) ← v6_loop n' ell rest; Some (g :: pre, post)
              end
        end
  end.

(** The ellipsis is as many zero groups as are missing. *)
Definition v6_expand (r : list Z * option (list Z)) : list Z :=
  match r with
  | (pre, Some post) => pre ++ repeat 0%Z (8 - length pre - length post) ++ post
  | (pre, None) => pre
  end.

Definition parseIPv6 (s : string) : option (list Z) :=
  match s with
  | String ":" (String ":" s') =>
      if String.eqb s' "" then Some (repeat 0%Z 8)
      else '(post, _) ← v6_loop 8 true s'; Some (v6_expand ([], Some post))
  | _ => v6_expand <$> v6_loop 8 false s
  end.

Fixpoint first_special (s : string) : option ascii :=
  match s with
  | EmptyString => None
  | String c s' =>
      if Ascii.eqb c "." || Ascii.eqb c ":" || Ascii.eqb c "%" then Some c else first_special s'
  end.

(** [net.ParseIP], as eight 16-bit groups, an IPv4 address in its mapped form: [None]
    stands for nil, which it also is for an address with a zone. *)
Definition ParseIP (s : string) : option (list Z) :=
  match first_special s with
  | Some "."%char => l ← parseIPv4 s; Some ([0; 0; 0; 0; 0; 65535]%Z ++ v4_groups l)
  | Some ":"%char => if contains_byte "%" s then None else parseIPv6 s
  | _ => None
  end.

Definition ParseIP_ok (s : string) : bool := match ParseIP s with Some _ => true | None => false end.

(** [ip.To4()]: the two groups of an IPv4 address. *)
Definition To4 (ip : list Z) : option (Z * Z) :=
  match ip with
  | [a; b; c; d; e; f; g; h] =>
      if forallb (Z.eqb 0) [a; b; c; d; e] && (f =? 65535)%Z then Some (g, h) else None
  | _ => None
  end.

(** [ip.String()] of an IPv4 address. *)
Definition ip4_String (ip : Z * Z) : string :=
  let '(g, h) := ip in
  Join (Itoa <$> [Z.shiftr g 8; Z.land g 255; Z.shiftr h 8; Z.land h 255]) ".".

Example ParseIP_ok_ex :
  ParseIP_ok <$> ["::1"; "2001:db8::a"; "::ffff:1.2.3.4"; "1.2.3.4"; "1:2:3:4:5:6:7:8"; "::"; "1::"; "::1:2:3:4:5:6:7"]
  = [true; true; true; true; true; true; true; true].
Proof. reflexivity. Qed.
Example ParseIP_bad_ex :
  ParseIP_ok <$> ["1:2:3:4:5:6:7"; "1::2::3"; "fe80::1%eth0"; "01.2.3.4"; "1.2.3"; ":1:2:3:4:5:6:7"; "12345::"; "1:2:3:4:5:6:7:8:9"; "1:2:3:4:5:6:7:1.2.3.4"; "::1:2:3:4:5:6:7:8"; "example"; "1:"]
  = repeat false 12.
Proof. reflexivity. Qed.
Example ParseIP_value_ex :
  ParseIP <$> ["::ffff:10.0.1.2"; "10.0.1.2"; "2001:db8::a:b"; "::"; "1::"]
  = [Some [0; 0; 0; 0; 0; 65535; 2560; 258]; Some [0; 0; 0; 0; 0; 65535; 2560; 258];
     Some [8193; 3512; 0; 0; 0; 0; 10; 11]; Some [0; 0; 0; 0; 0; 0; 0; 0]; Some [1; 0; 0; 0; 0; 0; 0; 0]]%Z.
Proof. reflexivity. Qed.
Example ip4_String_ex : (ip4_String <$> (ParseIP "::ffff:192.168.10.5" ≫= To4)) = Some "192.168.10.5".
Proof. reflexivity. Qed.
Example SplitHostPort_ex :
  SplitHostPort <$> ["a:1"; "[::1]:80"; "::1:80"; "a"; "[a]"; "[a:1"; "a]:1"; "[]:80"; ":"]
  = [Some ("a", "1"); Some ("::1", "80"); None; None; None; None; None; Some ("", "80"); Some ("", "")].
Proof. reflexivity. Qed.

(** ** Facts *)

Abbreviation strlen := String.length.

Lemma shorter_spec s n : shorter s n = (strlen s <? n)%nat.
Proof. revert n. induction s as [|c s IH]; intros [|n]; simpl; [done..|]. by rewrite IH. Qed.

Lemma str_app_nil b : "" +:+ b = b.
Proof. done. Qed.
Lemma str_app_cons c a b : String c a +:+ b = String c (a +:+ b).
Proof. done. Qed.

Lemma app_ne_r a b : b ≠ "" → a +:+ b ≠ "".
Proof. by destruct a. Qed.

Lemma app_empty_r a : a +:+ "" = a.
Proof. induction a as [|c a IH]; [done|]. by rewrite str_app_cons, IH. Qed.

#[global] Instance str_app_assoc : Assoc (=) String.append.
Proof. intros a b c. induction a as [|x a IH]; [done|]. by rewrite !str_app_cons, IH. Qed.

(** *** Trimming *)

Lemma trim_right_app p a b :
  trim_right p (a +:+ b) = if String.eqb (trim_right p b) "" then trim_right p a else a +:+ trim_right p b.
Proof.
  induction a as [|c a IH].
  - rewrite !str_app_nil. by destruct (String.eqb_spec (trim_right p b) "").
  - rewrite !str_app_cons. simpl. rewrite IH. destruct (String.eqb_spec (trim_right p b) "") as [|Hb]; [done|].
    by destruct (a +:+ trim_right p b) eqn:E; [destruct (app_ne_r _ _ Hb E)|].
Qed.

Lemma trim_right_none p s : str_forallb (λ c, negb (p c)) s = true → trim_right p s = s.
Proof.
  induction s as [|c s IH]; simpl; [done|]. intros H. to_prop. rewrite IH by done.
  destruct s; [|done]. by destruct (p c).
Qed.

Lemma trim_left_none p s : str_forallb (λ c, negb (p c)) s = true → trim_left p s = s.
Proof. destruct s as [|c s]; simpl; [done|]. intros H. to_prop. by destruct (p c). Qed.

Lemma trim_right_idem p s : trim_right p (trim_right p s) = trim_right p s.
Proof.
  induction s as [|c s IH]; [done|]. simpl. destruct (trim_right p s) as [|d r] eqn:E.
  - destruct (p c) eqn:Hc; simpl; [done|]. by rewrite Hc.
  - remember (String d r) as w. simpl. rewrite IH. by subst.
Qed.

Lemma trim_left_right p s : trim_left p (trim_right p (trim_left p s)) = trim_right p (trim_left p s).
Proof.
  induction s as [|c s IH]; [done|]. simpl. destruct (p c) eqn:Hc; [done|].
  simpl. destruct (trim_right p s) as [|d r]; [by rewrite Hc; simpl; rewrite Hc|]. simpl. by rewrite Hc.
Qed.

Lemma str_forallb_trim_left q p s : str_forallb q s = true → str_forallb q (trim_left p s) = true.
Proof. induction s as [|c s IH]; simpl; [done|]. intros H. to_prop. destruct (p c); simpl; [auto|]. by rewrite H, H0. Qed.

Lemma str_forallb_trim_right q p s : str_forallb q s = true → str_forallb q (trim_right p s) = true.
Proof.
  induction s as [|c s IH]; simpl; [done|]. intros H. to_prop. specialize (IH H0).
  destruct (trim_right p s) as [|d r]; [destruct (p c); simpl; by rewrite ?H|].
  simpl in *. by rewrite H.
Qed.

Lemma strlen_trim_left p s : (strlen (trim_left p s) ≤ strlen s)%nat.
Proof. induction s as [|c s IH]; simpl; [done|]. destruct (p c); simpl; lia. Qed.

Lemma strlen_trim_right p s : (strlen (trim_right p s) ≤ strlen s)%nat.
Proof.
  induction s as [|c s IH]; simpl; [done|]. destruct (trim_right p s) as [|d r]; simpl in *; [|lia].
  destruct (p c); simpl; lia.
Qed.

Section ascii.
Context `{U : GoUnicode}.

Abbreviation ascii_str s := (str_forallb is_ascii_byte s = true).

Lemma TrimSpace_ascii s :
  ascii_str s → TrimSpace s = trim_right ascii_space (trim_left ascii_space s).
Proof. unfold TrimSpace. by intros ->. Qed.

Lemma TrimSpace_forallb q s : ascii_str s → str_forallb q s = true → str_forallb q (TrimSpace s) = true.
Proof.
  intros Hs H. rewrite TrimSpace_ascii by done. by apply str_forallb_trim_right, str_forallb_trim_left.
Qed.

Lemma TrimSpace_idem s : ascii_str s → TrimSpace (TrimSpace s) = TrimSpace s.
Proof.
  intros Hs. rewrite (TrimSpace_ascii (TrimSpace s)) by (by apply TrimSpace_forallb).
  rewrite TrimSpace_ascii by done. by rewrite trim_left_right, trim_right_idem.
Qed.

Lemma strlen_TrimSpace s : ascii_str s → (strlen (TrimSpace s) ≤ strlen s)%nat.
Proof.
  intros Hs. rewrite TrimSpace_ascii by done.
  etransitivity; [apply strlen_trim_right|apply strlen_trim_left].
Qed.

(** A trimmed text keeps both ends when something is put between them. *)
Lemma trimmed_parts s :
  ascii_str s → TrimSpace s = s → trim_left ascii_space s = s ∧ trim_right ascii_space s = s.
Proof.
  intros Hs Ht. rewrite TrimSpace_ascii in Ht by done.
  assert (trim_left ascii_space s = s) as Hl.
  { destruct s as [|c s]; [done|]. simpl in *. destruct (ascii_space c) eqn:Hc; [|done].
    apply (f_equal strlen) in Ht.
    pose proof (strlen_trim_right ascii_space (trim_left ascii_space s)).
    pose proof (strlen_trim_left ascii_space s). simpl in *. lia. }
  by rewrite Hl in Ht.
Qed.
End ascii.

(** *** Splitting and joining *)

Definition free_of (b : ascii) (s : string) : bool := str_forallb (λ c, negb (Ascii.eqb c b)) s.

Lemma contains_free b s : contains_byte b s = negb (free_of b s).
Proof. induction s as [|c s IH]; [done|]. simpl. unfold free_of in *. rewrite IH. simpl. by destruct (Ascii.eqb c b). Qed.

Lemma free_of_app b s1 s2 : free_of b (s1 +:+ s2) = free_of b s1 && free_of b s2.
Proof. apply str_forallb_app. Qed.

Lemma split_byte_app b s s' :
  free_of b s = true → split_byte b (s +:+ String b s') = s :: split_byte b s'.
Proof.
  intros H. induction s as [|c s IH]; unfold free_of in *; simpl in *.
  - by rewrite Ascii.eqb_refl.
  - to_prop. rewrite H, IH by done. done.
Qed.

Lemma split_byte_free b s : free_of b s = true → split_byte b s = [s].
Proof.
  induction s as [|c s IH]; unfold free_of in *; simpl; [done|]. intros H. to_prop.
  by rewrite H, IH.
Qed.

Lemma split_byte_elem b s p : p ∈ split_byte b s → free_of b p = true.
Proof.
  revert p. induction s as [|c s IH]; simpl; intros p.
  { intros ->%list_elem_of_singleton. done. }
  destruct (Ascii.eqb c b) eqn:E.
  { intros [->|H]%elem_of_cons; [done|auto]. }
  destruct (split_byte b s) as [|q qs].
  - intros ->%list_elem_of_singleton. unfold free_of. simpl. by rewrite E.
  - intros [->|H]%elem_of_cons; [|apply IH; by right].
    unfold free_of. simpl. rewrite E. apply (IH q). by left.
Qed.

Lemma split_byte_forallb q b s p : str_forallb q s = true → p ∈ split_byte b s → str_forallb q p = true.
Proof.
  revert p. induction s as [|c s IH]; simpl; intros p.
  { by intros _ ->%list_elem_of_singleton. }
  intros H. to_prop. destruct (Ascii.eqb c b) eqn:E.
  { intros [->|Hp]%elem_of_cons; [done|auto]. }
  destruct (split_byte b s) as [|r rs].
  - intros ->%list_elem_of_singleton. simpl. by rewrite H.
  - intros [->|Hp]%elem_of_cons; [|apply IH; [done|by right]].
    simpl. rewrite H. apply (IH r); [done|by left].
Qed.

(** *** The line scanner on a text of good lines *)

(** [b.WriteString(line + "\n")] for each line. *)
Fixpoint unlines (l : list string) : string :=
  match l with [] => "" | s :: l' => s +:+ nl +:+ unlines l' end.

Lemma unlines_app l1 l2 : unlines (l1 ++ l2) = unlines l1 +:+ unlines l2.
Proof. induction l1 as [|s l1 IH]; [done|]. simpl. by rewrite IH, !(assoc_L String.append). Qed.

(** A line the scanner hands over as it is. *)
Definition scan_ok (s : string) : Prop :=
  free_of newline s = true ∧ dropCR s = s ∧ (strlen s < MaxScanTokenSize)%nat.

Lemma split_unlines l :
  Forall (λ s, free_of newline s = true) l → split_byte newline (unlines l) = l ++ [""].
Proof.
  induction 1 as [|s l Hs _ IH]; [done|]. simpl. unfold nl at 1.
  rewrite str_app_cons, str_app_nil, split_byte_app by done. by rewrite IH.
Qed.

Lemma drop_last_empty_snoc l : drop_last_empty (l ++ [""]) = l.
Proof. induction l as [|s [|s' l] IH]; [done..|]. simpl in *. by rewrite IH. Qed.

Lemma cut_long_ok n l :
  Forall (λ s, dropCR s = s ∧ (strlen s < n)%nat) l → cut_long n l = (l, false).
Proof.
  induction 1 as [|s l [Hs Hn] _ IH]; [done|]. cbn [cut_long]. rewrite shorter_spec, IH, Hs.
  by rewrite (proj2 (Nat.ltb_lt _ _) Hn).
Qed.

Lemma scan_unlines l : Forall scan_ok l → scan_lines (unlines l) = (l, false).
Proof.
  intros H. unfold scan_lines. rewrite split_unlines, drop_last_empty_snoc.
  - apply cut_long_ok. eapply Forall_impl; [exact H|]. by intros s (_ & ? & ?).
  - eapply Forall_impl; [exact H|]. by intros s (? & _ & _).
Qed.

Lemma dropCR_forallb q s : str_forallb q s = true → str_forallb q (dropCR s) = true.
Proof.
  induction s as [|c s IH]; [done|]. cbn. intros H. to_prop. destruct s as [|d s].
  - destruct (Ascii.eqb c carriage_return); [done|]. cbn. by rewrite H.
  - cbn [str_forallb]. rewrite H. by apply IH.
Qed.

Lemma dropCR_none s : free_of carriage_return s = true → dropCR s = s.
Proof.
  unfold free_of. induction s as [|c s IH]; [done|]. cbn. intros H. to_prop. destruct s as [|d s].
  - by rewrite H.
  - by rewrite IH.
Qed.

Lemma dropCR_app a b : b ≠ "" → dropCR (a +:+ b) = a +:+ dropCR b.
Proof.
  intros Hb. induction a as [|c a IH]; [done|]. rewrite !str_app_cons, <- IH. cbn.
  by destruct (a +:+ b) eqn:E; [destruct (app_ne_r _ _ Hb E)|].
Qed.

(** Every scanned line is a piece of the text. *)
Lemma dropCR_length s : (strlen (dropCR s) ≤ strlen s)%nat.
Proof.
  induction s as [|c [|d s] IH]; [done| |].
  - cbn. destruct (Ascii.eqb c carriage_return); simpl; lia.
  - cbn [dropCR strlen] in *. lia.
Qed.

Lemma split_byte_length b s p : p ∈ split_byte b s → (strlen p ≤ strlen s)%nat.
Proof.
  revert p. induction s as [|c s IH]; simpl; intros p.
  { by intros ->%list_elem_of_singleton. }
  destruct (Ascii.eqb c b).
  { intros [->|H]%elem_of_cons; [simpl; lia|]. specialize (IH _ H). lia. }
  destruct (split_byte b s) as [|q qs].
  - intros ->%list_elem_of_singleton. simpl. lia.
  - intros [->|H]%elem_of_cons; simpl.
    + specialize (IH q ltac:(by left)). lia.
    + specialize (IH p ltac:(by right)). lia.
Qed.

Lemma drop_last_empty_elem l s : s ∈ drop_last_empty l → s ∈ l.
Proof.
  induction l as [|x [|y l] IH]; [done| |].
  - simpl. destruct (String.eqb x ""); [by intros ?%elem_of_nil|done].
  - intros [->|H]%elem_of_cons; [by left|right; by apply IH].
Qed.

Lemma cut_long_elem n l s : s ∈ (cut_long n l).1 → ∃ p, p ∈ l ∧ s = dropCR p.
Proof.
  induction l as [|x l IH]; cbn [cut_long]; [by intros ?%elem_of_nil|].
  destruct (shorter x n); [|by intros ?%elem_of_nil].
  destruct (cut_long n l) as [r e]. intros [->|H]%elem_of_cons; [exists x; split; [by left|done]|].
  destruct (IH H) as (p & Hp & ->). exists p. split; [by right|done].
Qed.

Lemma scan_lines_elem q text s :
  str_forallb q text = true → s ∈ (scan_lines text).1 →
  str_forallb q s = true ∧ free_of newline s = true ∧ (strlen s ≤ strlen text)%nat.
Proof.
  intros Hq (p & Hp%drop_last_empty_elem & ->)%cut_long_elem. split_and!.
  - by eapply dropCR_forallb, split_byte_forallb.
  - by eapply dropCR_forallb, split_byte_elem.
  - etransitivity; [apply dropCR_length|by eapply split_byte_length].
Qed.

Fixpoint total_len (l : list string) : nat :=
  match l with [] => 0 | s :: l' => strlen s + total_len l' end%nat.

Lemma split_byte_total b s : (total_len (split_byte b s) ≤ strlen s)%nat.
Proof.
  induction s as [|c s IH]; [done|]. simpl. destruct (Ascii.eqb c b); [simpl; lia|].
  destruct (split_byte b s) as [|p ps]; simpl in *; lia.
Qed.

Lemma scan_lines_total text : (total_len (scan_lines text).1 ≤ strlen text)%nat.
Proof.
  unfold scan_lines. etransitivity; [|apply (split_byte_total newline)].
  generalize (split_byte newline text). intros l.
  transitivity (total_len (drop_last_empty l)).
  - generalize (drop_last_empty l). clear. intros l. induction l as [|s l IH]; [done|].
    cbn [cut_long]. destruct (shorter s _); [|simpl; lia]. destruct (cut_long _ l) as [r e].
    simpl in *. pose proof (dropCR_length s). lia.
  - induction l as [|s [|s' l] IH]; [done| |].
    + simpl. destruct (String.eqb s ""); simpl; lia.
    + cbn [drop_last_empty total_len] in *. lia.
Qed.

Lemma str_forallb_take q n s : str_forallb q s = true → str_forallb q (str_take n s) = true.
Proof. revert n. induction s as [|c s IH]; intros [|n]; simpl; try done. intros H. to_prop. by rewrite H, IH. Qed.

Lemma str_forallb_drop q n s : str_forallb q s = true → str_forallb q (str_drop n s) = true.
Proof. revert n. induction s as [|c s IH]; intros [|n]; simpl; try done. intros H. to_prop. auto. Qed.

Lemma strlen_drop n s : (strlen (str_drop n s) ≤ strlen s)%nat.
Proof. revert n. induction s as [|c s IH]; intros [|n]; simpl; try done. specialize (IH n). lia. Qed.

Lemma strlen_take n s : (strlen (str_take n s) ≤ strlen s)%nat.
Proof. revert n. induction s as [|c s IH]; intros [|n]; simpl; try lia. specialize (IH n). lia. Qed.

Lemma take_drop_byte b n s :
  last_index_byte b s = Some n → s = str_take n s +:+ String b (str_drop (S n) s) ∧ free_of b (str_drop (S n) s) = true.
Proof.
  revert n. induction s as [|c s IH]; [done|]. intros n. cbn [last_index_byte].
  destruct (last_index_byte b s) as [i|] eqn:E.
  - intros [= <-]. destruct (IH i) as [Hs Hf]; [done|]. cbn [str_take str_drop]. rewrite str_app_cons.
    split; [by f_equal|done].
  - destruct (Ascii.eqb_spec c b) as [->|]; [|done]. intros [= <-]. split; [done|].
    clear IH. cbn. revert E. clear. unfold free_of. induction s as [|d s IH]; [done|]. cbn.
    destruct (last_index_byte b s); [done|]. destruct (Ascii.eqb d b); [done|]. auto.
Qed.

Lemma index_byte_split b n s :
  index_byte b s = Some n → s = str_take n s +:+ String b (str_drop (S n) s) ∧ free_of b (str_take n s) = true.
Proof.
  revert n. induction s as [|c s IH]; [done|]. intros n. cbn [index_byte].
  destruct (Ascii.eqb_spec c b) as [->|Hc]; [by intros [= <-]|].
  destruct (index_byte b s) as [i|]; [|done]. intros [= <-]. destruct (IH i) as [Hs Hf]; [done|].
  cbn [str_take str_drop]. rewrite str_app_cons. split; [by f_equal|].
  unfold free_of in *. cbn. rewrite Hf, andb_true_r. by apply negb_true_iff, Ascii.eqb_neq.
Qed.

Lemma index_byte_app b s s' : free_of b s = true → index_byte b (s +:+ String b s') = Some (strlen s).
Proof.
  induction s as [|c s IH]; intros H.
  - rewrite str_app_nil. simpl. by rewrite Ascii.eqb_refl.
  - rewrite str_app_cons. unfold free_of in *. simpl in *. to_prop. rewrite H. by rewrite IH.
Qed.

Lemma last_index_byte_app b s s' :
  free_of b s' = true → last_index_byte b (s +:+ String b s') = Some (strlen s).
Proof.
  intros H. induction s as [|c s IH].
  - rewrite str_app_nil. cbn. assert (last_index_byte b s' = None) as ->; [|by rewrite Ascii.eqb_refl].
    revert H. unfold free_of. induction s' as [|d s' IH]; [done|]. cbn. intros H. to_prop. by rewrite IH, H.
  - rewrite str_app_cons. cbn. by rewrite IH.
Qed.

(** *** Host and port *)

Definition no_brackets (s : string) : bool := free_of "[" s && free_of "]" s.

Lemma str_drop_last b n s :
  last_index_byte b s = Some n → str_drop n s = String b (str_drop (S n) s).
Proof.
  revert n. induction s as [|c s IH]; [done|]. intros n. cbn [last_index_byte].
  destruct (last_index_byte b s) as [i|] eqn:E.
  - intros [= <-]. cbn [str_drop]. by apply IH.
  - destruct (Ascii.eqb_spec c b) as [->|]; [|done]. by intros [= <-].
Qed.

Lemma HasPrefix_byte c s b : HasPrefix (String c s) (String b "") = Ascii.eqb c b.
Proof.
  unfold HasPrefix. cbn [String.prefix].
  destruct (ascii_dec b c) as [->|Hne]; [rewrite Ascii.eqb_refl; by destruct s|].
  symmetry. apply Ascii.eqb_neq. congruence.
Qed.

Lemma SplitHostPort_parts s h p :
  SplitHostPort s = Some (h, p) →
  no_brackets h = true ∧ no_brackets p = true ∧ free_of ":" p = true ∧
  (s = h +:+ String ":" p ∧ free_of ":" h = true ∨ s = "[" +:+ h +:+ "]:" +:+ p).
Proof.
  unfold SplitHostPort, no_brackets. destruct (last_index_byte ":" s) as [i|] eqn:Hi; [|done].
  destruct (take_drop_byte _ _ _ Hi) as [Hs Hp]. rewrite !contains_free.
  destruct (HasPrefix s "[") eqn:Hb.
  - destruct s as [|c s']; [done|]. destruct (index_byte "]" (String c s')) as [e|] eqn:He; [|done].
    destruct (Nat.eqb_spec (S e) i) as [<-|]; [|done].
    assert (c = "["%char) as ->.
    { rewrite HasPrefix_byte in Hb. by apply Ascii.eqb_eq in Hb. }
    destruct (index_byte_split _ _ _ He) as [Hs' Hh]. rewrite (str_drop_last _ _ _ Hi) in *.
    change (str_drop 1 (String "[" s')) with s'.
    remember (str_drop (S (S e)) (String "[" s')) as q.
    destruct e as [|e]; [done|]. cbn [str_take] in *. change (str_drop 1 (String "[" ?x)) with x.
    rewrite str_app_cons in Hs'. injection Hs' as Hs'. remember (str_take e s') as t. subst s'.
    change (free_of "]" (String "[" t)) with (free_of "]" t) in Hh.
    rewrite !contains_free, free_of_app.
    change (free_of "[" (String "]" (String ":" q))) with (free_of "[" q).
    change (free_of "]" (String ":" q)) with (free_of "]" q).
    destruct (free_of "[" t) eqn:H1, (free_of "[" q) eqn:H2, (free_of "]" q) eqn:H3; cbn [negb andb]; try done.
    intros [= <- <-]. rewrite H1, H2, H3, Hh. split_and!; [done..|]. by right.
  - destruct (free_of ":" (str_take i s)) eqn:Hc; [|done]. cbn [negb].
    change (str_drop 0 s) with s. revert Hp Hc Hs. clear Hi.
    generalize (str_take i s) (str_drop (S i) s). intros t q Hp Hc ->.
    rewrite !free_of_app. change (free_of "[" (String ":" q)) with (free_of "[" q).
    change (free_of "]" (String ":" q)) with (free_of "]" q).
    destruct (free_of "[" t) eqn:H1, (free_of "[" q) eqn:H2, (free_of "]" t) eqn:H3, (free_of "]" q) eqn:H4;
      cbn [negb andb]; try done.
    intros [= <- <-]. rewrite H1, H2, H3, H4. split_and!; [done..|]. by left.
Qed.

Lemma SplitHostPort_plain h p :
  no_brackets h = true → no_brackets p = true → free_of ":" h = true → free_of ":" p = true →
  SplitHostPort (h +:+ String ":" p) = Some (h, p).
Proof.
  unfold no_brackets. intros [H1 H2]%andb_true_iff [H3 H4]%andb_true_iff Hh Hp. unfold SplitHostPort.
  rewrite last_index_byte_app by done.
  assert (HasPrefix (h +:+ String ":" p) "[" = false) as ->.
  { destruct h as [|c h]; [done|]. rewrite str_app_cons, HasPrefix_byte. unfold free_of in H1.
    cbn in H1. by to_prop. }
  assert (str_drop (S (strlen h)) (h +:+ String ":" p) = p) as ->.
  { clear. induction h; [done|]. by rewrite str_app_cons. }
  rewrite str_take_app, !contains_free, Hh. change (str_drop 0 ?x) with x. rewrite !free_of_app, H1, H2.
  change (free_of "[" (String ":" p)) with (free_of "[" p).
  change (free_of "]" (String ":" p)) with (free_of "]" p). by rewrite H3, H4.
Qed.

Lemma SplitHostPort_bracketed h p :
  no_brackets h = true → no_brackets p = true → free_of ":" p = true →
  SplitHostPort ("[" +:+ h +:+ "]:" +:+ p) = Some (h, p).
Proof.
  unfold no_brackets. intros [H1 H2]%andb_true_iff [H3 H4]%andb_true_iff Hp. unfold SplitHostPort.
  change ("[" +:+ h +:+ "]:" +:+ p) with (String "[" (h +:+ String "]" (String ":" p))).
  assert (String "[" (h +:+ String "]" (String ":" p)) = (String "[" h +:+ "]") +:+ String ":" p) as E.
  { by rewrite <- (assoc_L String.append). }
  rewrite E at 1. rewrite last_index_byte_app, HasPrefix_byte by done. cbn [Ascii.eqb Bool.eqb].
  rewrite <- (str_app_cons "[" h) at 1. rewrite index_byte_app by (by unfold free_of in *; cbn).
  rewrite str_length_app. cbn [strlen]. rewrite Nat.add_1_r, Nat.eqb_refl.
  assert (str_drop (S (S (S (strlen h)))) (String "[" (h +:+ String "]" (String ":" p))) = p) as ->.
  { cbn [str_drop]. clear. induction h; [done|]. by rewrite str_app_cons. }
  assert (str_drop (S (S (strlen h))) (String "[" (h +:+ String "]" (String ":" p))) = String ":" p) as ->.
  { cbn [str_drop]. clear. induction h; [done|]. by rewrite str_app_cons. }
  assert (∀ r, str_take (S (strlen h)) (String "[" (h +:+ r)) = String "[" h) as ->.
  { intros r. cbn [str_take]. by rewrite str_take_app. }
  change (str_drop 1 (String "[" ?x)) with x. rewrite !contains_free, free_of_app.
  change (free_of "[" (String "]" (String ":" p))) with (free_of "[" p).
  change (free_of "]" (String ":" p)) with (free_of "]" p). by rewrite H1, H3, H4.
Qed.

Lemma SplitHostPort_Join h p :
  no_brackets h = true → no_brackets p = true → free_of ":" p = true →
  SplitHostPort (JoinHostPort h p) = Some (h, p).
Proof.
  intros Hh Hp Hc. unfold JoinHostPort. rewrite contains_free.
  destruct (free_of ":" h) eqn:E; [by apply SplitHostPort_plain|by apply SplitHostPort_bracketed].
Qed.

(** *** The characters of an address *)

Definition ip_char (c : ascii) : bool := is_hex c || Ascii.eqb c ":" || Ascii.eqb c ".".

Lemma hex_ip_char c : is_hex c = true → ip_char c = true.
Proof. unfold ip_char. by intros ->. Qed.

Lemma hex_span_forallb q s :
  (∀ c, is_hex c = true → q c = true) →
  str_forallb q (str_drop (hex_span s) s) = true → str_forallb q s = true.
Proof.
  intros Hq. induction s as [|c s IH]; [done|]. cbn [hex_span]. destruct (is_hex c) eqn:Hc; [|done].
  cbn [str_drop str_forallb]. intros H. by rewrite Hq, IH.
Qed.

Lemma v4_fields_chars pos val fresh zero s l :
  v4_fields pos val fresh zero s = Some l → str_forallb ip_char s = true.
Proof.
  revert pos val fresh zero l. induction s as [|c s IH]; intros pos val fresh zero l; [done|].
  cbn [v4_fields str_forallb]. destruct (digit_of c) as [d|] eqn:Hd.
  - assert (is_hex c = true) as Hc.
    { unfold digit_of in Hd. unfold is_hex, is_digit. by destruct (_ && _). }
    destruct zero; [done|]. destruct (_ <? _)%Z; [done|]. intros H%IH. by rewrite hex_ip_char.
  - destruct (Ascii.eqb_spec c ".") as [->|]; [|done]. destruct fresh; [done|].
    destruct (_ =? _)%nat; [done|]. intros (x & H & _)%fmap_Some. by apply IH in H.
Qed.

Lemma v6_loop_chars n ell s r : v6_loop n ell s = Some r → str_forallb ip_char s = true.
Proof.
  revert ell s r. induction n as [|n IH]; intros ell s r; cbn [v6_loop].
  { by destruct (String.eqb_spec s "") as [->|]. }
  destruct (_ || _); [done|]. intros H.
  destruct (str_drop (hex_span s) s) as [|c rest] eqn:Hs.
  { apply (hex_span_forallb _ _ hex_ip_char). by rewrite Hs. }
  destruct (Ascii.eqb c "."); [|destruct (Ascii.eqb_spec c ":") as [->|]; [|done]].
  { destruct (_ && _); [done|]. destruct (_ <? _)%nat; [done|].
    apply bind_Some in H as (l & H & _). by eapply v4_fields_chars. }
  apply (hex_span_forallb _ _ hex_ip_char). rewrite Hs. destruct rest as [|c' rest]; [done|].
  cbn [negb] in H. change (str_forallb ip_char (String c' rest) = true).
  destruct (Ascii.eqb_spec c' ":") as [->|];
    [|apply bind_Some in H as ([pre post] & H & _); by eapply IH].
  destruct ell; [done|]. destruct (String.eqb_spec rest "") as [->|]; [done|].
  apply bind_Some in H as ([post q] & H & _). cbn. by eapply IH.
Qed.

Lemma ParseIP_ok_chars s : ParseIP_ok s = true → str_forallb ip_char s = true.
Proof.
  assert (∀ r, parseIPv6 s = Some r → str_forallb ip_char s = true) as H6.
  { assert (∀ n e r, v6_expand <$> v6_loop n e s = Some r → str_forallb ip_char s = true) as Hl
      by (intros n e r (x & H & _)%fmap_Some; by eapply v6_loop_chars).
    intros r. unfold parseIPv6. repeat (case_match; try by apply Hl); subst; intros H.
    - match goal with E : String.eqb ?x "" = true |- _ => apply String.eqb_eq in E as -> end. done.
    - apply bind_Some in H as ([post q] & H & _). cbn. by eapply v6_loop_chars. }
  unfold ParseIP_ok. destruct (ParseIP s) as [l|] eqn:E; [intros _|done]. unfold ParseIP, parseIPv4 in E.
  repeat (case_match; try done).
  - apply bind_Some in E as (x & E & _). by eapply v4_fields_chars.
  - by eapply H6.
Qed.

Lemma ParseIP_ok_brackets s : ParseIP_ok s = true → no_brackets s = true.
Proof.
  intros H%ParseIP_ok_chars. unfold no_brackets, free_of. apply andb_true_iff.
  split; revert H; apply str_forallb_impl; by intros [[] [] [] [] [] [] [] []].
Qed.

(** *** Decimal numbers *)

Lemma Atoi_Itoa_int `{GoArch} z : in_int z = true → Atoi (Itoa z) = Some z.
Proof.
  intros Hin. destruct (base.decide (0 ≤ z)%Z) as [Hz|Hz].
  - apply Atoi_Itoa. unfold in_int in Hin. to_prop. lia.
  - destruct z as [| |n]; [lia..|].
    change (Itoa (Z.neg n)) with ("-" +:+ pretty (N.pos n)).
    change (Atoi ("-" +:+ pretty (N.pos n)))
      with (v ← Z.opp <$> parse_digits (pretty (N.pos n)); if in_int v then Some v else None).
    assert (parse_digits (pretty (N.pos n)) = Some (Z.pos n)) as ->; last first.
    { change ((if in_int (Z.neg n) then Some (Z.neg n) else None) = Some (Z.neg n)). by rewrite Hin. }
    unfold parse_digits. destruct (pretty (N.pos n)) eqn:E; [by destruct (pretty_N_ne (N.pos n))|].
    by rewrite <- E, digits_val_pretty_N.
Qed.

Lemma pretty_go_length k x s : (x < 10 ^ N.of_nat k)%N → (strlen (pretty_N_go x s) ≤ k + strlen s)%nat.
Proof.
  revert x s. induction k as [|k IH]; intros x s Hx.
  - assert (x = 0%N) as -> by (simpl in Hx; lia). by rewrite pretty_N_go_0.
  - destruct (base.decide (0 < x)%N) as [Hp|Hp].
    + rewrite pretty_N_go_step by done. etransitivity; [apply IH|simpl; lia].
      apply N.Div0.div_lt_upper_bound. rewrite <- N.pow_succ_r', <- Nat2N.inj_succ. done.
    + assert (x = 0%N) as -> by lia. rewrite pretty_N_go_0. lia.
Qed.

Lemma Itoa_length `{GoArch} z : in_int z = true → (strlen (Itoa z) ≤ 21)%nat.
Proof.
  intros Hin. assert (- 2 ^ 63 ≤ z < 2 ^ 63)%Z as Hz.
  { unfold in_int in Hin. to_prop. by destruct int_bits_ok as [E|E]; rewrite E in *; lia. }
  assert (∀ n : N, (n < 10 ^ 20)%N → (strlen (pretty n) ≤ 20)%nat) as Hn.
  { intros n Hn. unfold pretty, pretty_N. case_decide; [simpl; lia|].
    etransitivity; [by apply (pretty_go_length 20)|simpl; lia]. }
  unfold Itoa, pretty, pretty_Z. destruct z as [|p|p].
  - simpl. lia.
  - etransitivity; [apply Hn|]; lia.
  - rewrite str_length_app. simpl. apply le_n_S, (Hn (N.pos p)). lia.
Qed.

(** ** Suffixes *)

Definition HasSuffix (s suf : string) : bool :=
  (String.length suf <=? String.length s)%nat && String.eqb (str_drop (String.length s - String.length suf) s) suf.
Definition TrimSuffix (s suf : string) : string :=
  if HasSuffix s suf then str_take (String.length s - String.length suf) s else s.

(** ** Runs of bytes, as the regular expressions of the source use them *)

(** [\s] *)
Definition is_space_re (c : ascii) : bool :=
  let n := byte_code c in ((9 <=? n) && (n <=? 10) || (12 <=? n) && (n <=? 13) || (n =? 32))%nat.

Fixpoint span_byte (p : ascii → bool) (s : string) : string * string :=
  match s with
  | String c s' => if p c then let '(a, b) := span_byte p s' in (String c a, b) else ("", s)
  | EmptyString => ("", "")
  end.

Lemma span_byte_spec p s : let '(a, b) := span_byte p s in
  s = a +:+ b ∧ str_forallb p a = true ∧ (∀ c b', b = String c b' → p c = false).
Proof.
  induction s as [|c s IH]; simpl; [by repeat split; intros|].
  destruct (p c) eqn:Hp.
  - destruct (span_byte p s) as [a b]. destruct IH as (-> & Ha & Hb).
    split; [done|]. simpl. by rewrite Hp, Ha.
  - split; [done|]. split; [done|]. by intros c' b' [= -> ->].
Qed.

Lemma span_byte_app p a b :
  str_forallb p a = true → (∀ c b', b = String c b' → p c = false) → span_byte p (a +:+ b) = (a, b).
Proof.
  intros Ha Hb. induction a as [|c a IH]; simpl.
  - rewrite str_app_nil. destruct b as [|c b]; [done|]. simpl. by rewrite (Hb c b).
  - simpl in Ha. to_prop. cbn. rewrite H.
    by rewrite IH.
Qed.

Lemma HasPrefix_inv s p : HasPrefix s p = true → ∃ t, s = p +:+ t.
Proof.
  unfold HasPrefix. revert s. induction p as [|c p IH]; intros s; [by exists s|].
  destruct s as [|c' s]; simpl; [done|]. destruct (ascii_dec c c') as [->|]; [|done].
  intros [t ->]%IH. by exists t.
Qed.
