(* ===== verification/Config.v ===== *)
(** * Tunnel configuration files ([internal/tunnel/config])

    [storage/types.go]: the interface, obfuscation and peer records;
    [classify.go]: the protocol version; [validate_keepalive.go],
    [validate_awg3.go]: the validators; [config.go]: the .conf generators, the
    parser and the canonical form of an endpoint. *)
From S2P Require Import Prelude GoLib GoText.

(** ** Data ([storage/types.go]) *)

Record AWGObfuscation := {
  Qlen : Z; Jc : Z; Jmin : Z; Jmax : Z; S1 : Z; S2 : Z; S3 : Z; S4 : Z;
  H1 : string; H2 : string; H3 : string; H4 : string;
  I1 : string; I2 : string; I3 : string; I4 : string; I5 : string;
  HeaderProtectionKey : string;
  ContentPaddingAddition : string;
  RekeyAfterTime : string;
  RekeyTimeout : string;
  RejectAfterTime : string;
  KeepaliveTimeout : string;
  MaxHandshakeAttempts : string;
}.

(** The Go type embeds the obfuscation: here it is a field. *)
Record AWGInterface := {
  PrivateKey : string;
  Address : string;
  MTU : Z;
  DNS : string;
  obf : AWGObfuscation;
}.

Abbreviation Keepalive := string (only parsing).

Record AWGPeer := {
  PublicKey : string;
  PresharedKey : string;
  Endpoint : string;
  AllowedIPs : list string;
  PersistentKeepalive : Keepalive;
}.

(** The fields of [storage.AWGTunnel] this package reads or writes; [Parse]
    leaves the others at their zero values. *)
Record AWGTunnel := { Type_ : string; Interface : AWGInterface; Peer : AWGPeer }.

#[export] Instance AWGObfuscation_eq_dec : EqDecision AWGObfuscation.
Proof. solve_decision. Defined.
#[export] Instance AWGInterface_eq_dec : EqDecision AWGInterface.
Proof. solve_decision. Defined.
#[export] Instance AWGPeer_eq_dec : EqDecision AWGPeer.
Proof. solve_decision. Defined.
#[export] Instance AWGTunnel_eq_dec : EqDecision AWGTunnel.
Proof. solve_decision. Defined.

Definition zero_obf : AWGObfuscation := {|
  Qlen := 0; Jc := 0; Jmin := 0; Jmax := 0; S1 := 0; S2 := 0; S3 := 0; S4 := 0;
  H1 := ""; H2 := ""; H3 := ""; H4 := ""; I1 := ""; I2 := ""; I3 := ""; I4 := ""; I5 := "";
  HeaderProtectionKey := ""; ContentPaddingAddition := ""; RekeyAfterTime := "";
  RekeyTimeout := ""; RejectAfterTime := ""; KeepaliveTimeout := "";
  MaxHandshakeAttempts := "" |}.

(** *** Assignments to one field *)

Definition eta_obf (o : AWGObfuscation) : AWGObfuscation := {|
  Qlen := Qlen o; Jc := Jc o; Jmin := Jmin o; Jmax := Jmax o;
  S1 := S1 o; S2 := S2 o; S3 := S3 o; S4 := S4 o;
  H1 := H1 o; H2 := H2 o; H3 := H3 o; H4 := H4 o;
  I1 := I1 o; I2 := I2 o; I3 := I3 o; I4 := I4 o; I5 := I5 o;
  HeaderProtectionKey := HeaderProtectionKey o;
  ContentPaddingAddition := ContentPaddingAddition o;
  RekeyAfterTime := RekeyAfterTime o; RekeyTimeout := RekeyTimeout o;
  RejectAfterTime := RejectAfterTime o; KeepaliveTimeout := KeepaliveTimeout o;
  MaxHandshakeAttempts := MaxHandshakeAttempts o |}.
Definition eta_iface (i : AWGInterface) : AWGInterface := {|
  PrivateKey := PrivateKey i; Address := Address i; MTU := MTU i; DNS := DNS i; obf := obf i |}.
Definition eta_peer (p : AWGPeer) : AWGPeer := {|
  PublicKey := PublicKey p; PresharedKey := PresharedKey p; Endpoint := Endpoint p;
  AllowedIPs := AllowedIPs p; PersistentKeepalive := PersistentKeepalive p |}.

Section setters.
Implicit Types (o : AWGObfuscation) (i : AWGInterface) (p : AWGPeer) (z : Z) (v : string).

Definition set_Jc z o : AWGObfuscation := ltac:(update_field eta_obf Jc z o).
Definition set_Jmin z o : AWGObfuscation := ltac:(update_field eta_obf Jmin z o).
Definition set_Jmax z o : AWGObfuscation := ltac:(update_field eta_obf Jmax z o).
Definition set_S1 z o : AWGObfuscation := ltac:(update_field eta_obf S1 z o).
Definition set_S2 z o : AWGObfuscation := ltac:(update_field eta_obf S2 z o).
Definition set_S3 z o : AWGObfuscation := ltac:(update_field eta_obf S3 z o).
Definition set_S4 z o : AWGObfuscation := ltac:(update_field eta_obf S4 z o).
Definition set_H1 v o : AWGObfuscation := ltac:(update_field eta_obf H1 v o).
Definition set_H2 v o : AWGObfuscation := ltac:(update_field eta_obf H2 v o).
Definition set_H3 v o : AWGObfuscation := ltac:(update_field eta_obf H3 v o).
Definition set_H4 v o : AWGObfuscation := ltac:(update_field eta_obf H4 v o).
Definition set_I1 v o : AWGObfuscation := ltac:(update_field eta_obf I1 v o).
Definition set_I2 v o : AWGObfuscation := ltac:(update_field eta_obf I2 v o).
Definition set_I3 v o : AWGObfuscation := ltac:(update_field eta_obf I3 v o).
Definition set_I4 v o : AWGObfuscation := ltac:(update_field eta_obf I4 v o).
Definition set_I5 v o : AWGObfuscation := ltac:(update_field eta_obf I5 v o).
Definition set_HeaderProtectionKey v o : AWGObfuscation :=
  ltac:(update_field eta_obf HeaderProtectionKey v o).
Definition set_ContentPaddingAddition v o : AWGObfuscation :=
  ltac:(update_field eta_obf ContentPaddingAddition v o).
Definition set_RekeyAfterTime v o : AWGObfuscation := ltac:(update_field eta_obf RekeyAfterTime v o).
Definition set_RekeyTimeout v o : AWGObfuscation := ltac:(update_field eta_obf RekeyTimeout v o).
Definition set_RejectAfterTime v o : AWGObfuscation := ltac:(update_field eta_obf RejectAfterTime v o).
Definition set_KeepaliveTimeout v o : AWGObfuscation :=
  ltac:(update_field eta_obf KeepaliveTimeout v o).
Definition set_MaxHandshakeAttempts v o : AWGObfuscation :=
  ltac:(update_field eta_obf MaxHandshakeAttempts v o).

Definition set_PrivateKey v i : AWGInterface := ltac:(update_field eta_iface PrivateKey v i).
Definition set_Address v i : AWGInterface := ltac:(update_field eta_iface Address v i).
Definition set_MTU z i : AWGInterface := ltac:(update_field eta_iface MTU z i).
Definition set_DNS v i : AWGInterface := ltac:(update_field eta_iface DNS v i).
Definition set_obf o i : AWGInterface := ltac:(update_field eta_iface obf o i).

Definition set_PublicKey v p : AWGPeer := ltac:(update_field eta_peer PublicKey v p).
Definition set_PresharedKey v p : AWGPeer := ltac:(update_field eta_peer PresharedKey v p).
Definition set_Endpoint v p : AWGPeer := ltac:(update_field eta_peer Endpoint v p).
Definition set_AllowedIPs (l : list string) p : AWGPeer := ltac:(update_field eta_peer AllowedIPs l p).
Definition set_PersistentKeepalive v p : AWGPeer :=
  ltac:(update_field eta_peer PersistentKeepalive v p).
End setters.

(** *** The keepalive type *)

Definition Keepalive_IsZero (k : Keepalive) : bool := String.eqb k "" || String.eqb k "0".
Definition Keepalive_IsRange (k : Keepalive) : bool := contains_byte "-" k.
Definition Keepalive_Single `{GoArch} (k : Keepalive) : option Z := Atoi k.

(** A JSON value as [encoding/json] hands it over: an integer, a string, null (it
    leaves the [int] it is read into at 0) or anything else (an error). *)
Inductive json := JNumber (n : Z) | JString (v : string) | JNull | JOther.

Definition Keepalive_UnmarshalJSON `{GoArch} (data : json) : option Keepalive :=
  match data with
  | JNumber n => if in_int n then Some (Itoa n) else None
  | JString v => Some v
  | JNull => Some "0"
  | JOther => None
  end.

Definition Keepalive_MarshalJSON `{GoArch} (k : Keepalive) : json :=
  if Keepalive_IsZero k then JNumber 0
  else match Keepalive_Single k with Some n => JNumber n | None => JString k end.

(** ** Protocol version ([classify.go]) *)

(** [^\d+-\d+$]: without [(?m)], [$] is the end of the text. *)
Definition digits1 (s : string) : bool := negb (String.eqb s "") && str_forallb is_digit s.
Definition isRange (s : string) : bool :=
  negb (String.eqb s "") &&
  match index_byte "-" s with
  | Some i => digits1 (str_take i s) && digits1 (str_drop (S i) s)
  | None => false
  end.

Definition is_set (s : string) : bool := negb (String.eqb s "").

Definition hasAnySignaturePacket (o : AWGObfuscation) : bool :=
  is_set (I1 o) || is_set (I2 o) || is_set (I3 o) || is_set (I4 o) || is_set (I5 o).

Definition hasAnyAWG3Param (o : AWGObfuscation) : bool :=
  is_set (HeaderProtectionKey o) || is_set (ContentPaddingAddition o) ||
  is_set (RekeyAfterTime o) || is_set (RekeyTimeout o) ||
  is_set (RejectAfterTime o) || is_set (KeepaliveTimeout o) ||
  is_set (MaxHandshakeAttempts o).

Definition ClassifyAWGVersion (o : AWGObfuscation) : string :=
  if hasAnyAWG3Param o then "awg3"
  else if isRange (H1 o) || isRange (H2 o) || isRange (H3 o) || isRange (H4 o) then "awg2.0"
  else if hasAnySignaturePacket o then "awg1.5"
  else if is_set (H1 o) && is_set (H2 o) && is_set (H3 o) && is_set (H4 o) then "awg1.0"
  else "wg".

Definition IsAWGObfuscated (o : AWGObfuscation) : bool :=
  negb (String.eqb (ClassifyAWGVersion o) "wg").

(** ** Validators *)

Definition headerProtectionMinPadding : Z := 12.

(** The error names the parameter and its value. *)
Definition ValidateAWG3 (o : AWGObfuscation) : option (string * Z) :=
  if String.eqb (HeaderProtectionKey o) "" then None
  else
    List.find (λ s, s.2 <? headerProtectionMinPadding)%Z
      [("S1", S1 o); ("S2", S2 o); ("S3", S3 o); ("S4", S4 o)].

Inductive keepalive_error :=
  | NotNumberNorRange (k : string)
  | UpperBelowLower (hi lo : Z)
  | RangeOnNativeWG (k : string).

Section parser.
Context `{U : GoUnicode} `{A : GoArch}.

Definition ValidateKeepalive (k : Keepalive) : option keepalive_error :=
  if String.eqb k "" then None
  else
    let '(loStr, hiStr, isRange) := Cut k "-" in
    match ParseUint (TrimSpace loStr) 16 with
    | None => Some (NotNumberNorRange k)
    | Some lo =>
        if negb isRange then None
        else match ParseUint (TrimSpace hiStr) 16 with
             | None => Some (NotNumberNorRange k)
             | Some hi => if (hi <? lo)%Z then Some (UpperBelowLower hi lo) else None
             end
    end.

Definition ValidateKeepaliveForBackend (k : Keepalive) (backend : string) : option keepalive_error :=
  match ValidateKeepalive k with
  | Some e => Some e
  | None =>
      if String.eqb backend "nativewg" && Keepalive_IsRange k then Some (RangeOnNativeWG k) else None
  end.

(** ** Generating a .conf ([config.go]) *)

Definition DefaultMTU : Z := 1280.
Definition DefaultPersistentKeepalive : Keepalive := "25".
Definition DefaultAllowedIPs : list string := ["0.0.0.0/0"; "::/0"].

(** [b.WriteString(fmt.Sprintf("key = %s\n", val))]; the builder is the text
    that is appended. *)
Definition line (key val : string) : string := key +:+ " = " +:+ val +:+ nl.
Definition writeIfSet (key val : string) : string := if is_set val then line key val else "".

Definition writeAWG3Params (o : AWGObfuscation) : string :=
  writeIfSet "HeaderProtectionKey" (HeaderProtectionKey o) +:+
  writeIfSet "ContentPaddingAddition" (ContentPaddingAddition o) +:+
  writeIfSet "RekeyAfterTime" (RekeyAfterTime o) +:+
  writeIfSet "RekeyTimeout" (RekeyTimeout o) +:+
  writeIfSet "RejectAfterTime" (RejectAfterTime o) +:+
  writeIfSet "KeepaliveTimeout" (KeepaliveTimeout o) +:+
  writeIfSet "MaxHandshakeAttempts" (MaxHandshakeAttempts o).

(** [iface.S3 > 0 || iface.S4 > 0 || hasAnySignaturePacket(iface)] *)
Definition extended (o : AWGObfuscation) : bool :=
  (0 <? S3 o)%Z || (0 <? S4 o)%Z || hasAnySignaturePacket o.

Definition writeAWGParams (o : AWGObfuscation) : string :=
  if negb (IsAWGObfuscated o) then ""
  else
    line "Jc" (Itoa (Jc o)) +:+
    line "Jmin" (Itoa (Jmin o)) +:+
    line "Jmax" (Itoa (Jmax o)) +:+
    line "S1" (Itoa (S1 o)) +:+
    line "S2" (Itoa (S2 o)) +:+
    line "H1" (H1 o) +:+
    line "H2" (H2 o) +:+
    line "H3" (H3 o) +:+
    line "H4" (H4 o) +:+
    (if extended o then
       line "S3" (Itoa (S3 o)) +:+
       line "S4" (Itoa (S4 o)) +:+
       writeIfSet "I1" (I1 o) +:+
       writeIfSet "I2" (I2 o) +:+
       writeIfSet "I3" (I3 o) +:+
       writeIfSet "I4" (I4 o) +:+
       writeIfSet "I5" (I5 o)
     else "") +:+
    writeAWG3Params o.

Definition writePeer (p : AWGPeer) : string :=
  nl +:+ "[Peer]" +:+ nl +:+
  line "PublicKey" (PublicKey p) +:+
  writeIfSet "PresharedKey" (PresharedKey p) +:+
  (let allowedIPs := match AllowedIPs p with [] => DefaultAllowedIPs | l => l end in
   line "AllowedIPs" (Join allowedIPs ", ")) +:+
  line "Endpoint" (Endpoint p) +:+
  (let keepalive :=
     if Keepalive_IsZero (PersistentKeepalive p) then DefaultPersistentKeepalive
     else PersistentKeepalive p in
   line "PersistentKeepalive" keepalive).

Definition Generate (tunnel : AWGTunnel) : string :=
  let i := Interface tunnel in
  "[Interface]" +:+ nl +:+
  line "PrivateKey" (PrivateKey i) +:+
  writeAWGParams (obf i) +:+
  writePeer (Peer tunnel).

Definition GenerateForExport (tunnel : AWGTunnel) : string :=
  let i := Interface tunnel in
  "[Interface]" +:+ nl +:+
  line "PrivateKey" (PrivateKey i) +:+
  writeIfSet "Address" (Address i) +:+
  (let mtu := if (MTU i =? 0)%Z then DefaultMTU else MTU i in line "MTU" (Itoa mtu)) +:+
  writeIfSet "DNS" (DNS i) +:+
  writeAWGParams (obf i) +:+
  writePeer (Peer tunnel).

(** ** The endpoint *)

Inductive endpoint_error := BadPort (port : string) | ExpectedHostPort.

Definition validEndpointPort (p : string) : bool :=
  match Atoi p with Some n => (1 <=? n)%Z && (n <=? 65535)%Z | None => false end.

Definition NormalizeEndpoint (endpoint : string) : endpoint_error + string :=
  let addr := TrimSpace endpoint in
  match SplitHostPort addr with
  | Some (host, port) =>
      if negb (validEndpointPort port) then inl (BadPort port)
      else if contains_byte ":" host then inr (JoinHostPort host port)
      else inr (host +:+ ":" +:+ port)
  | None =>
      match last_index_byte ":" addr with
      | Some (S _ as i) =>
          let host := str_take i addr in
          let port := str_drop (S i) addr in
          if ParseIP_ok host && contains_byte ":" host && validEndpointPort port
          then inr (JoinHostPort host port) else inl ExpectedHostPort
      | _ => inl ExpectedHostPort
      end
  end.

(** ** Parsing a .conf *)

Inductive conf_error :=
  | ErrMultiplePeers
  | ErrMissingPrivateKey
  | ErrMissingAddress
  | ErrMissingPublicKey
  | ErrMissingEndpoint
  | ScanTooLong
  | InvalidEndpoint (ep : string) (e : endpoint_error).

Definition awg3Range (value : string) : string := if String.eqb value "0" then "" else value.

(** [if v, err := strconv.Atoi(value); err == nil { iface.F = v }] *)
Definition set_int {R} (set : Z → R → R) (value : string) (r : R) : R :=
  match Atoi value with Some v => set v r | None => r end.

Definition on_obf (f : AWGObfuscation → AWGObfuscation) (i : AWGInterface) : AWGInterface :=
  set_obf (f (obf i)) i.

Definition parseInterfaceField (key value : string) (i : AWGInterface) : AWGInterface :=
  if String.eqb key "privatekey" then set_PrivateKey value i
  else if String.eqb key "address" then set_Address value i
  else if String.eqb key "dns" then set_DNS value i
  else if String.eqb key "mtu" then set_int set_MTU value i
  else if String.eqb key "jc" then on_obf (set_int set_Jc value) i
  else if String.eqb key "jmin" then on_obf (set_int set_Jmin value) i
  else if String.eqb key "jmax" then on_obf (set_int set_Jmax value) i
  else if String.eqb key "s1" then on_obf (set_int set_S1 value) i
  else if String.eqb key "s2" then on_obf (set_int set_S2 value) i
  else if String.eqb key "s3" then on_obf (set_int set_S3 value) i
  else if String.eqb key "s4" then on_obf (set_int set_S4 value) i
  else if String.eqb key "h1" then on_obf (set_H1 value) i
  else if String.eqb key "h2" then on_obf (set_H2 value) i
  else if String.eqb key "h3" then on_obf (set_H3 value) i
  else if String.eqb key "h4" then on_obf (set_H4 value) i
  else if String.eqb key "i1" then on_obf (set_I1 value) i
  else if String.eqb key "i2" then on_obf (set_I2 value) i
  else if String.eqb key "i3" then on_obf (set_I3 value) i
  else if String.eqb key "i4" then on_obf (set_I4 value) i
  else if String.eqb key "i5" then on_obf (set_I5 value) i
  else if String.eqb key "headerprotectionkey" then on_obf (set_HeaderProtectionKey value) i
  else if String.eqb key "contentpaddingaddition"
    then on_obf (set_ContentPaddingAddition (awg3Range value)) i
  else if String.eqb key "rekeyaftertime" then on_obf (set_RekeyAfterTime (awg3Range value)) i
  else if String.eqb key "rekeytimeout" then on_obf (set_RekeyTimeout (awg3Range value)) i
  else if String.eqb key "rejectaftertime" then on_obf (set_RejectAfterTime (awg3Range value)) i
  else if String.eqb key "keepalivetimeout" then on_obf (set_KeepaliveTimeout (awg3Range value)) i
  else if String.eqb key "maxhandshakeattempts"
    then on_obf (set_MaxHandshakeAttempts (awg3Range value)) i
  else i.

(** [for _, p := range strings.Split(value, ",")]: the trimmed parts, without
    the blank ones. *)
Definition split_ips (value : string) : list string :=
  filter (λ p, p ≠ "") (TrimSpace <$> split_byte "," value).

Definition parsePeerField (key value : string) (p : AWGPeer) : AWGPeer :=
  if String.eqb key "publickey" then set_PublicKey value p
  else if String.eqb key "presharedkey" then set_PresharedKey value p
  else if String.eqb key "endpoint" then set_Endpoint value p
  else if String.eqb key "allowedips" then set_AllowedIPs (AllowedIPs p ++ split_ips value) p
  else if String.eqb key "persistentkeepalive" then
    match ValidateKeepalive value with None => set_PersistentKeepalive value p | Some _ => p end
  else p.

(** The variables of [Parse]'s loop. *)
Record pstate := { currentSection : string; peerCount : Z; tunnel : AWGTunnel }.

(** One pass of the loop body, on [scanner.Text()]. *)
Definition parse_line (text : string) (st : pstate) : conf_error + pstate :=
  let line := TrimSpace text in
  if String.eqb line "" || HasPrefix line "#" then inr st
  else
    let lower := ToLower line in
    if String.eqb lower "[interface]" then
      inr {| currentSection := "interface"; peerCount := peerCount st; tunnel := tunnel st |}
    else if String.eqb lower "[peer]" then
      let n := (peerCount st + 1)%Z in
      if (1 <? n)%Z then inl ErrMultiplePeers
      else inr {| currentSection := "peer"; peerCount := n; tunnel := tunnel st |}
    else
      match index_byte "=" line with
      | None => inr st
      | Some eqIndex =>
          let key := TrimSpace (str_take eqIndex line) in
          let value := TrimSpace (str_drop (S eqIndex) line) in
          let keyLower := ToLower key in
          let t := tunnel st in
          inr {|
            currentSection := currentSection st; peerCount := peerCount st;
            tunnel :=
              if String.eqb (currentSection st) "interface" then
                {| Type_ := Type_ t; Interface := parseInterfaceField keyLower value (Interface t);
                   Peer := Peer t |}
              else if String.eqb (currentSection st) "peer" then
                {| Type_ := Type_ t; Interface := Interface t;
                   Peer := parsePeerField keyLower value (Peer t) |}
              else t |}
      end.

Fixpoint parse_lines (texts : list string) (st : pstate) : conf_error + pstate :=
  match texts with
  | [] => inr st
  | text :: texts' =>
      match parse_line text st with inl e => inl e | inr st' => parse_lines texts' st' end
  end.

(** The checks and defaults after the loop. *)
Definition finish (t : AWGTunnel) : conf_error + AWGTunnel :=
  let i := Interface t in
  let p := Peer t in
  if String.eqb (PrivateKey i) "" then inl ErrMissingPrivateKey
  else if String.eqb (Address i) "" then inl ErrMissingAddress
  else if String.eqb (PublicKey p) "" then inl ErrMissingPublicKey
  else if String.eqb (Endpoint p) "" then inl ErrMissingEndpoint
  else
    match NormalizeEndpoint (Endpoint p) with
    | inl err => inl (InvalidEndpoint (Endpoint p) err)
    | inr normalized =>
        let p := set_Endpoint normalized p in
        let p := match AllowedIPs p with [] => set_AllowedIPs DefaultAllowedIPs p | _ => p end in
        let i := if (MTU i =? 0)%Z then set_MTU DefaultMTU i else i in
        inr {| Type_ := Type_ t; Interface := i; Peer := p |}
    end.

Definition init_tunnel : AWGTunnel := {|
  Type_ := "awg";
  Interface := {| PrivateKey := ""; Address := ""; MTU := 0; DNS := ""; obf := zero_obf |};
  Peer := {| PublicKey := ""; PresharedKey := ""; Endpoint := ""; AllowedIPs := [];
             PersistentKeepalive := DefaultPersistentKeepalive |} |}.

Definition Parse (content : string) : conf_error + AWGTunnel :=
  let '(texts, too_long) := scan_lines content in
  match parse_lines texts {| currentSection := ""; peerCount := 0; tunnel := init_tunnel |} with
  | inl e => inl e
  | inr st => if too_long then inl ScanTooLong else finish (tunnel st)
  end.
End parser.

Section examples.
#[local] Existing Instance plain_unicode.
#[local] Existing Instance arch64.

Definition ex_conf : string :=
  "# exported" +:+ nl +:+ "[Interface]" +:+ nl +:+ "privatekey=abc" +:+ nl +:+ "Address = 10.0.0.2/32" +:+ nl +:+
  "Jc = 4" +:+ nl +:+ "H1 = 5-9" +:+ nl +:+ "RekeyTimeout = 0" +:+ nl +:+ "[peer]" +:+ nl +:+
  "PublicKey = pk= " +:+ nl +:+ "AllowedIPs = 0.0.0.0/0 , ::/0" +:+ nl +:+
  "Endpoint = 2001:db8::1:51820" +:+ nl +:+ "PersistentKeepalive = 15-30".

Definition ex_tunnel : AWGTunnel := {|
  Type_ := "awg";
  Interface := {| PrivateKey := "abc"; Address := "10.0.0.2/32"; MTU := 1280; DNS := "";
                  obf := set_Jc 4 (set_H1 "5-9" zero_obf) |};
  Peer := {| PublicKey := "pk="; PresharedKey := ""; Endpoint := "[2001:db8::1]:51820";
             AllowedIPs := DefaultAllowedIPs; PersistentKeepalive := "15-30" |} |}.

Example Parse_ex : Parse ex_conf = inr ex_tunnel.
Proof. vm_compute. reflexivity. Qed.
Example Parse_export_ex : Parse (GenerateForExport ex_tunnel) = inr ex_tunnel.
Proof. vm_compute. reflexivity. Qed.
Example Parse_two_peers : Parse (ex_conf +:+ nl +:+ "[PEER]") = inl ErrMultiplePeers.
Proof. vm_compute. reflexivity. Qed.
Example Normalize_ex :
  NormalizeEndpoint <$> [" vpn.example:51820 "; "::1:80"; "1:2:3:4:5:6:7:8"; "host:0"; "host"]
  = [inr "vpn.example:51820"; inr "[::1]:80"; inl ExpectedHostPort; inl (BadPort "0"); inl ExpectedHostPort].
Proof. vm_compute. reflexivity. Qed.
End examples.
