(* ===== verification/ConfigProps.v ===== *)
(** * The .conf round trip

    The text [GenerateForExport] writes is read back by [Parse] as the canonical
    form of the tunnel; what [Parse] returns is well-formed, and its export is
    read back as the same tunnel up to the parameters a plain configuration
    does not carry. *)
From S2P Require Import Prelude GoLib GoText Config.

(** ** The text as a list of lines *)

Definition kv (key val : string) : string := key +:+ " = " +:+ val.
Definition opt (key val : string) : list (string * string) := if is_set val then [(key, val)] else [].

Definition awg_fields (o : AWGObfuscation) : list (string * string) :=
  if IsAWGObfuscated o then
    [("Jc", Itoa (Jc o)); ("Jmin", Itoa (Jmin o)); ("Jmax", Itoa (Jmax o));
     ("S1", Itoa (S1 o)); ("S2", Itoa (S2 o));
     ("H1", H1 o); ("H2", H2 o); ("H3", H3 o); ("H4", H4 o)] ++
    (if extended o then
       [("S3", Itoa (S3 o)); ("S4", Itoa (S4 o))] ++
       opt "I1" (I1 o) ++ opt "I2" (I2 o) ++ opt "I3" (I3 o) ++ opt "I4" (I4 o) ++ opt "I5" (I5 o)
     else []) ++
    opt "HeaderProtectionKey" (HeaderProtectionKey o) ++
    opt "ContentPaddingAddition" (ContentPaddingAddition o) ++
    opt "RekeyAfterTime" (RekeyAfterTime o) ++ opt "RekeyTimeout" (RekeyTimeout o) ++
    opt "RejectAfterTime" (RejectAfterTime o) ++ opt "KeepaliveTimeout" (KeepaliveTimeout o) ++
    opt "MaxHandshakeAttempts" (MaxHandshakeAttempts o)
  else [].

Definition iface_fields (i : AWGInterface) : list (string * string) :=
  [("PrivateKey", PrivateKey i)] ++ opt "Address" (Address i) ++
  [("MTU", Itoa (if (MTU i =? 0)%Z then DefaultMTU else MTU i))] ++ opt "DNS" (DNS i) ++
  awg_fields (obf i).

Definition ips_of (p : AWGPeer) : list string :=
  match AllowedIPs p with [] => DefaultAllowedIPs | l => l end.
Definition keepalive_of (p : AWGPeer) : string :=
  if Keepalive_IsZero (PersistentKeepalive p) then DefaultPersistentKeepalive
  else PersistentKeepalive p.

Definition peer_fields (p : AWGPeer) : list (string * string) :=
  [("PublicKey", PublicKey p)] ++ opt "PresharedKey" (PresharedKey p) ++
  [("AllowedIPs", Join (ips_of p) ", "); ("Endpoint", Endpoint p);
   ("PersistentKeepalive", keepalive_of p)].

Definition kvs (l : list (string * string)) : list string := (λ f, kv f.1 f.2) <$> l.

Definition export_lines (t : AWGTunnel) : list string :=
  ["[Interface]"] ++ kvs (iface_fields (Interface t)) ++ [""; "[Peer]"] ++ kvs (peer_fields (Peer t)).

Lemma line_unlines k v : line k v = unlines (kvs [(k, v)]).
Proof. unfold line. simpl. unfold kv. by rewrite !app_empty_r, !(assoc_L String.append). Qed.

Lemma writeIfSet_unlines k v : writeIfSet k v = unlines (kvs (opt k v)).
Proof. unfold writeIfSet, opt. destruct (is_set v); [apply line_unlines|done]. Qed.

Lemma unlines_kvs_app l1 l2 : unlines (kvs l1) +:+ unlines (kvs l2) = unlines (kvs (l1 ++ l2)).
Proof. unfold kvs. by rewrite fmap_app, unlines_app. Qed.

Lemma unlines_kvs_cons f g l : unlines (kvs (f :: g :: l)) = unlines (kvs [f]) +:+ unlines (kvs (g :: l)).
Proof. by rewrite unlines_kvs_app. Qed.

Lemma writeAWGParams_unlines o : writeAWGParams o = unlines (kvs (awg_fields o)).
Proof.
  unfold writeAWGParams, awg_fields, writeAWG3Params. destruct (IsAWGObfuscated o); [|done]. simpl negb.
  destruct (extended o); rewrite !writeIfSet_unlines, !line_unlines; [|rewrite str_app_nil];
    rewrite !unlines_kvs_app; by rewrite <- ?app_assoc.
Qed.

Lemma GenerateForExport_unlines t : GenerateForExport t = unlines (export_lines t).
Proof.
  unfold GenerateForExport, writePeer, export_lines, iface_fields, peer_fields, ips_of, keepalive_of.
  rewrite !writeIfSet_unlines, !line_unlines, writeAWGParams_unlines.
  rewrite !unlines_app. simpl (unlines ["[Interface]"]). simpl (unlines [""; "[Peer]"]).
  rewrite app_empty_r, <- !unlines_kvs_app.
  rewrite (unlines_kvs_cons ("AllowedIPs", _)), (unlines_kvs_cons ("Endpoint", _)).
  by rewrite <- !(assoc_L String.append).
Qed.

(** ** One line of the text *)

Definition text_byte (c : ascii) : bool := is_ascii_byte c && negb (Ascii.eqb c newline).

Definition is_alnum (c : ascii) : bool :=
  let n := byte_code c in
  is_digit c || ((65 <=? n) && (n <=? 90) || (97 <=? n) && (n <=? 122))%nat.

Definition key_ok (k : string) : bool :=
  is_set k && str_forallb is_alnum k && (strlen k <? 100)%nat.

Lemma alnum_byte c :
  is_alnum c = true →
  text_byte c = true ∧ ascii_space c = false ∧ Ascii.eqb c "=" = false ∧
  Ascii.eqb c "#" = false ∧ Ascii.eqb c "[" = false ∧ Ascii.eqb (lower_byte c) "[" = false.
Proof. destruct c as [[] [] [] [] [] [] [] []]; vm_compute; intros [=]; repeat split. Qed.

Lemma text_byte_ascii s : str_forallb text_byte s = true → str_forallb is_ascii_byte s = true.
Proof. apply str_forallb_impl. unfold text_byte. intros c H. by to_prop. Qed.

Lemma text_byte_newline s : str_forallb text_byte s = true → free_of newline s = true.
Proof. apply str_forallb_impl. unfold text_byte. by intros c [_ ?]%andb_true_iff. Qed.

(** Compute the assignments to fields of a record that is written out. *)
Ltac assign :=
  cbv beta delta [
       set_Jc set_Jmin set_Jmax set_S1 set_S2 set_S3 set_S4 set_H1 set_H2 set_H3 set_H4 set_I1
       set_I2 set_I3 set_I4 set_I5 set_HeaderProtectionKey set_ContentPaddingAddition
       set_RekeyAfterTime set_RekeyTimeout set_RejectAfterTime set_KeepaliveTimeout
       set_MaxHandshakeAttempts set_PrivateKey set_Address set_MTU set_DNS set_obf set_PublicKey
       set_PresharedKey set_Endpoint set_AllowedIPs set_PersistentKeepalive zero_obf init_tunnel];
  cbn [
       Qlen Jc Jmin Jmax S1 S2 S3 S4 H1 H2 H3 H4 I1 I2 I3 I4 I5 HeaderProtectionKey
       ContentPaddingAddition RekeyAfterTime RekeyTimeout RejectAfterTime KeepaliveTimeout
       MaxHandshakeAttempts PrivateKey Address MTU DNS obf PublicKey PresharedKey Endpoint
       AllowedIPs PersistentKeepalive Interface Peer].

Section props.
Context `{U : GoUnicode} `{A : GoArch}.

(** A value as it can stand in a .conf: ASCII, without a newline, trimmed, not
    longer than a line allows. *)
Definition field_ok (v : string) : Prop :=
  str_forallb text_byte v = true ∧ TrimSpace v = v ∧ (strlen v ≤ 65 * 1000)%nat.

Lemma key_trim k : str_forallb is_alnum k = true → trim_left ascii_space k = k ∧ trim_right ascii_space k = k.
Proof.
  intros H. assert (str_forallb (λ c, negb (ascii_space c)) k = true) as Hs.
  { revert H. apply str_forallb_impl. intros c (_ & -> & _)%alnum_byte. done. }
  split; [by apply trim_left_none|by apply trim_right_none].
Qed.

(** The line without the blank an empty value leaves at its end. *)
Definition kv_trimmed (k v : string) : string :=
  (k +:+ " ") +:+ String "=" (if is_set v then " " +:+ v else "").

Lemma kv_text k v : key_ok k = true → field_ok v → str_forallb text_byte (kv k v) = true.
Proof.
  unfold key_ok, kv. intros Hk (Hv & _). to_prop. rewrite !str_forallb_app, Hv.
  rewrite (str_forallb_impl is_alnum text_byte); [done| |done]. by intros c (? & _)%alnum_byte.
Qed.

Lemma TrimSpace_kv k v : key_ok k = true → field_ok v → TrimSpace (kv k v) = kv_trimmed k v.
Proof.
  intros Hk Hv. rewrite TrimSpace_ascii by (by apply text_byte_ascii, kv_text).
  unfold key_ok in Hk. to_prop. destruct Hv as (Hv & Ht & _).
  destruct (trimmed_parts v) as [_ Hr]; [by apply text_byte_ascii|done|].
  assert (trim_left ascii_space (kv k v) = kv k v) as ->.
  { destruct k as [|c k]; [done|]. simpl in *. to_prop. unfold kv. rewrite str_app_cons. simpl.
    by destruct (alnum_byte c) as (_ & -> & _). }
  unfold kv, kv_trimmed. rewrite trim_right_app, trim_right_app, Hr. unfold is_set.
  destruct (String.eqb_spec v "") as [->|Hne]; simpl.
  - by rewrite <- (assoc_L String.append).
  - destruct (String.eqb_spec (" = " +:+ v) "") as [E|_]; [by destruct (app_ne_r " = " v)|].
    by rewrite <- (assoc_L String.append).
Qed.

Definition dispatch (k v : string) (st : pstate) : pstate := {|
  currentSection := currentSection st; peerCount := peerCount st;
  tunnel :=
    let t := tunnel st in
    if String.eqb (currentSection st) "interface" then
      {| Type_ := Type_ t; Interface := parseInterfaceField k v (Interface t); Peer := Peer t |}
    else if String.eqb (currentSection st) "peer" then
      {| Type_ := Type_ t; Interface := Interface t; Peer := parsePeerField k v (Peer t) |}
    else t |}.

Lemma alnum_ascii k : str_forallb is_alnum k = true → str_forallb is_ascii_byte k = true.
Proof.
  apply str_forallb_impl. intros c (Hc & _)%alnum_byte. unfold text_byte in Hc. by to_prop.
Qed.

Lemma kv_value v : field_ok v → TrimSpace (if is_set v then " " +:+ v else "") = v.
Proof.
  intros (Hv%text_byte_ascii & Ht & _). unfold is_set.
  destruct (String.eqb_spec v "") as [->|Hne]; [done|]. simpl.
  rewrite TrimSpace_ascii by done.
  destruct (trimmed_parts v) as [Hl Hr]; [done..|].
  change (" " +:+ v) with (String " " v). simpl. by rewrite Hl, Hr.
Qed.

Lemma kv_key k : str_forallb is_alnum k = true → TrimSpace (k +:+ " ") = k.
Proof.
  intros Hk. destruct (key_trim k Hk) as [_ Hr].
  rewrite TrimSpace_ascii by (by rewrite str_forallb_app, alnum_ascii).
  destruct k as [|c k]; [done|]. simpl in Hk. to_prop. rewrite str_app_cons. simpl.
  destruct (alnum_byte c) as (_ & -> & _); [done|].
  change (trim_right ascii_space (String c k +:+ " ") = String c k). by rewrite trim_right_app.
Qed.

Lemma parse_kv k v st :
  key_ok k = true → field_ok v → parse_line (kv k v) st = inr (dispatch (lower_ascii k) v st).
Proof.
  intros Hk Hv. unfold parse_line. rewrite TrimSpace_kv by done.
  assert (str_forallb is_ascii_byte (kv_trimmed k v) = true) as Ha.
  { rewrite <- TrimSpace_kv by done. by apply TrimSpace_forallb; apply text_byte_ascii, kv_text. }
  assert (ToLower (kv_trimmed k v) = lower_ascii (kv_trimmed k v)) as ->.
  { unfold ToLower. by rewrite Ha. }
  unfold key_ok in Hk. apply andb_true_iff in Hk as [[Hne Hal]%andb_true_iff _].
  assert (ToLower k = lower_ascii k) as Hlk.
  { unfold ToLower. by rewrite alnum_ascii. }
  assert (index_byte "=" (kv_trimmed k v) = Some (strlen (k +:+ " "))) as ->.
  { apply index_byte_app. rewrite free_of_app, andb_true_r. revert Hal.
    apply str_forallb_impl. by intros c (_ & _ & -> & _)%alnum_byte. }
  unfold kv_trimmed. rewrite str_take_app.
  assert (∀ w, str_drop (S (strlen (k +:+ " "))) ((k +:+ " ") +:+ String "=" w) = w) as Hdrop.
  { intros w. generalize (k +:+ " "). intros p. induction p as [|c p IH]; [done|].
    rewrite str_app_cons. apply IH. }
  rewrite Hdrop, kv_value, kv_key, Hlk by done.
  destruct k as [|c k]; [done|]. simpl in Hal. to_prop.
  destruct (alnum_byte c) as (_ & _ & _ & Hh & _ & Hlb); [done|].
  rewrite !str_app_cons. unfold HasPrefix. cbn [String.eqb String.prefix lower_ascii].
  destruct (ascii_dec "#" c) as [<-|_]; [done|].
  cbn [orb]. by rewrite Hlb.
Qed.

(** A line the scanner and the loop take as intended. *)
Definition fields_ok (l : list (string * string)) : Prop :=
  Forall (λ f, key_ok f.1 = true ∧ field_ok f.2) l.

Definition apply_fields (l : list (string * string)) (st : pstate) : pstate :=
  foldl (λ st f, dispatch (lower_ascii f.1) f.2 st) st l.

Lemma parse_fields l rest st :
  fields_ok l → parse_lines (kvs l ++ rest) st = parse_lines rest (apply_fields l st).
Proof.
  intros H. revert st. induction H as [|[k v] l [Hk Hv] _ IH]; intros st; [done|].
  cbn [kvs fmap list_fmap app parse_lines fst snd]. rewrite parse_kv by done. apply IH.
Qed.

Lemma apply_iface_fields l st :
  currentSection st = "interface" →
  apply_fields l st = {|
    currentSection := "interface"; peerCount := peerCount st;
    tunnel := {| Type_ := Type_ (tunnel st);
                 Interface := foldl (λ i f, parseInterfaceField (lower_ascii f.1) f.2 i)
                                    (Interface (tunnel st)) l;
                 Peer := Peer (tunnel st) |} |}.
Proof.
  revert st. induction l as [|f l IH]; intros [sec n [ty i p]] Hs; simpl in Hs; subst sec; [done|].
  unfold apply_fields in *. cbn [foldl]. by rewrite IH.
Qed.

Lemma apply_peer_fields l st :
  currentSection st = "peer" →
  apply_fields l st = {|
    currentSection := "peer"; peerCount := peerCount st;
    tunnel := {| Type_ := Type_ (tunnel st); Interface := Interface (tunnel st);
                 Peer := foldl (λ p f, parsePeerField (lower_ascii f.1) f.2 p)
                               (Peer (tunnel st)) l |} |}.
Proof.
  revert st. induction l as [|f l IH]; intros [sec n [ty i p]] Hs; simpl in Hs; subst sec; [done|].
  unfold apply_fields in *. cbn [foldl]. by rewrite IH.
Qed.

(** ** What a tunnel becomes *)

Definition canonical_obf (o : AWGObfuscation) : AWGObfuscation :=
  if negb (IsAWGObfuscated o) then zero_obf
  else {|
    Qlen := 0; Jc := Jc o; Jmin := Jmin o; Jmax := Jmax o; S1 := S1 o; S2 := S2 o;
    S3 := if extended o then S3 o else 0; S4 := if extended o then S4 o else 0;
    H1 := H1 o; H2 := H2 o; H3 := H3 o; H4 := H4 o;
    I1 := I1 o; I2 := I2 o; I3 := I3 o; I4 := I4 o; I5 := I5 o;
    HeaderProtectionKey := HeaderProtectionKey o;
    ContentPaddingAddition := awg3Range (ContentPaddingAddition o);
    RekeyAfterTime := awg3Range (RekeyAfterTime o);
    RekeyTimeout := awg3Range (RekeyTimeout o);
    RejectAfterTime := awg3Range (RejectAfterTime o);
    KeepaliveTimeout := awg3Range (KeepaliveTimeout o);
    MaxHandshakeAttempts := awg3Range (MaxHandshakeAttempts o) |}.

(** The tunnel with the defaults written out and [endpoint] in its canonical form. *)
Definition canonical (endpoint : string) (t : AWGTunnel) : AWGTunnel := {|
  Type_ := "awg";
  Interface := {|
    PrivateKey := PrivateKey (Interface t); Address := Address (Interface t);
    MTU := if (MTU (Interface t) =? 0)%Z then DefaultMTU else MTU (Interface t);
    DNS := DNS (Interface t); obf := canonical_obf (obf (Interface t)) |};
  Peer := {|
    PublicKey := PublicKey (Peer t); PresharedKey := PresharedKey (Peer t); Endpoint := endpoint;
    AllowedIPs := ips_of (Peer t);
    PersistentKeepalive :=
      match ValidateKeepalive (keepalive_of (Peer t)) with
      | None => keepalive_of (Peer t)
      | Some _ => DefaultPersistentKeepalive
      end |} |}.

Definition obf_ok (o : AWGObfuscation) : Prop :=
  Forall (λ z, in_int z = true) [Jc o; Jmin o; Jmax o; S1 o; S2 o; S3 o; S4 o] ∧
  Forall field_ok
    [H1 o; H2 o; H3 o; H4 o; I1 o; I2 o; I3 o; I4 o; I5 o; HeaderProtectionKey o;
     ContentPaddingAddition o; RekeyAfterTime o; RekeyTimeout o; RejectAfterTime o;
     KeepaliveTimeout o; MaxHandshakeAttempts o].

Fixpoint ips_len (l : list string) : nat :=
  match l with [] => 0 | s :: l' => strlen s + 2 + ips_len l' end%nat.

Definition ip_ok (p : string) : Prop := p ≠ "" ∧ free_of "," p = true ∧ field_ok p.

(** A tunnel whose values can stand in a .conf. *)
Definition conf_ok (t : AWGTunnel) : Prop :=
  let i := Interface t in
  let p := Peer t in
  obf_ok (obf i) ∧ in_int (MTU i) = true ∧
  Forall field_ok [PrivateKey i; Address i; DNS i; PublicKey p; PresharedKey p; Endpoint p;
                   PersistentKeepalive p] ∧
  Forall ip_ok (AllowedIPs p) ∧ (ips_len (AllowedIPs p) ≤ 65 * 1000)%nat.

Lemma foldl_field {R} (f : R → string * string → R) x r r' l X :
  f r x = r' → foldl f r' l = X → foldl f r (x :: l) = X.
Proof. by intros <- H. Qed.

Lemma foldl_opt {R} (f : R → string * string → R) k v r r' l X :
  f r (k, v) = r' → (v = "" → r' = r) → foldl f r' l = X → foldl f r (opt k v ++ l) = X.
Proof.
  unfold opt, is_set. destruct (String.eqb_spec v "") as [E|]; simpl; [|by intros <-].
  intros Hr He. by rewrite (He E).
Qed.

Lemma set_int_Itoa {R} (set : Z → R → R) z r : in_int z = true → set_int set (Itoa z) r = set z r.
Proof. intros H. unfold set_int. by rewrite Atoi_Itoa_int. Qed.

(** Apply the next field to such a record. *)
Ltac one_field :=
  cbn [fst snd];
  match goal with |- context [lower_ascii ?s] =>
    let k := eval vm_compute in (lower_ascii s) in change (lower_ascii s) with k
  end;
  cbv beta iota delta [parseInterfaceField parsePeerField String.eqb Ascii.eqb Bool.eqb on_obf];
  rewrite ?set_int_Itoa by done; assign; reflexivity.
Ltac next_field :=
  first
    [ eapply foldl_field; [one_field|]
    | eapply foldl_opt; [one_field|by intros ->|] ].

Lemma iface_fields_canonical i :
  obf_ok (obf i) → in_int (MTU i) = true →
  foldl (λ i f, parseInterfaceField (lower_ascii f.1) f.2 i) (Interface init_tunnel) (iface_fields i) =
  {| PrivateKey := PrivateKey i; Address := Address i;
     MTU := if (MTU i =? 0)%Z then DefaultMTU else MTU i; DNS := DNS i; obf := canonical_obf (obf i) |}.
Proof.
  intros [Hz _] Hm. rewrite !Forall_cons in Hz. destruct Hz as (?&?&?&?&?&?&?&_).
  assert (in_int (if (MTU i =? 0)%Z then DefaultMTU else MTU i) = true) as Hm'.
  { case_match; [|done]. by destruct A as [? [->| ->]]. }
  unfold iface_fields, awg_fields, canonical_obf.
  cbn [app]. next_field. next_field. next_field. next_field.
  destruct (IsAWGObfuscated (obf i)); [|done]. cbn [negb app].
  do 9 next_field. rewrite <- (app_nil_r (opt "MaxHandshakeAttempts" _)).
  destruct (extended (obf i)) eqn:Hext.
  - cbn [app]. rewrite <- !app_assoc. do 14 next_field. done.
  - cbn [app]. do 7 next_field. unfold extended, hasAnySignaturePacket, is_set in Hext. to_prop.
    cbn [foldl]. by repeat match goal with H : _ = "" |- _ => rewrite H; clear H end.
Qed.

Lemma split_ips_Join l : Forall ip_ok l → split_ips (Join l ", ") = l.
Proof.
  intros H. unfold split_ips. destruct l as [|p l]; [done|].
  assert (∀ sp, sp = "" ∨ sp = " " → TrimSpace <$> split_byte "," (sp +:+ Join (p :: l) ", ") = p :: l) as Hs.
  { revert p H. induction l as [|q l IH]; intros p [(Hne & Hf & Hok) Hl]%Forall_cons sp Hsp.
    - rewrite split_byte_free; [|rewrite free_of_app; by destruct Hsp as [->| ->]].
      cbn [fmap list_fmap Join]. f_equal. destruct Hsp as [->| ->]; [by destruct Hok as (_ & ? & _)|].
      pose proof (kv_value p Hok) as E. unfold is_set in E.
      by destruct (String.eqb_spec p "").
    - change (Join (p :: q :: l) ", ") with (p +:+ String "," (" " +:+ Join (q :: l) ", ")).
      rewrite (assoc_L String.append), split_byte_app by (rewrite free_of_app; by destruct Hsp as [->| ->]).
      rewrite fmap_cons, IH by auto. f_equal.
      destruct Hsp as [->| ->]; [by destruct Hok as (_ & ? & _)|].
      pose proof (kv_value p Hok) as E. unfold is_set in E. by destruct (String.eqb_spec p ""). }
  specialize (Hs "" ltac:(by left)). rewrite str_app_nil in Hs. rewrite Hs.
  apply list_filter_all. eapply Forall_impl; [exact H|]. by intros x [? _].
Qed.

Lemma peer_fields_canonical p :
  Forall ip_ok (ips_of p) →
  foldl (λ p f, parsePeerField (lower_ascii f.1) f.2 p) (Peer init_tunnel) (peer_fields p) =
  {| PublicKey := PublicKey p; PresharedKey := PresharedKey p; Endpoint := Endpoint p;
     AllowedIPs := ips_of p;
     PersistentKeepalive :=
       match ValidateKeepalive (keepalive_of p) with
       | None => keepalive_of p
       | Some _ => DefaultPersistentKeepalive
       end |}.
Proof.
  intros Hips. unfold peer_fields. cbn [app]. do 5 next_field. cbn [foldl app].
  rewrite split_ips_Join by done. by case_match.
Qed.
(** ** The lines are read as they are written *)

Lemma dropCR_trimmed s : trim_right ascii_space s = s → dropCR s = s.
Proof.
  induction s as [|c s IH]; [done|]. intros H. cbn in H. destruct s as [|d s].
  - cbn in *. destruct (Ascii.eqb_spec c carriage_return) as [->|]; done.
  - cbn [dropCR]. f_equal. apply IH. remember (String d s) as w.
    destruct (trim_right ascii_space w) as [|x r]; [|by injection H].
    destruct (ascii_space c); [done|]. injection H. by subst.
Qed.

Lemma kv_scan k v : key_ok k = true → field_ok v → scan_ok (kv k v).
Proof.
  intros Hk Hv. pose proof (kv_text k v Hk Hv) as Ht. split; [by apply text_byte_newline|]. split.
  - destruct Hv as (Hv & Htr & _). unfold kv. rewrite (assoc_L String.append).
    destruct (trimmed_parts v) as [_ Hr]; [by apply text_byte_ascii|done|].
    destruct (String.eqb_spec v "") as [->|Hne].
    + rewrite app_empty_r, dropCR_app; done.
    + rewrite dropCR_app by done. by rewrite dropCR_trimmed.
  - destruct Hv as (_ & _ & Hl). unfold key_ok in Hk. apply andb_true_iff in Hk as [_ Hn].
    apply Nat.ltb_lt in Hn. unfold kv. rewrite !str_length_app.
    change (strlen " = ") with 3%nat. change MaxScanTokenSize with (64 * 1024)%nat. lia.
Qed.

Lemma kvs_scan l : fields_ok l → Forall scan_ok (kvs l).
Proof. intros H. apply Forall_fmap. eapply Forall_impl; [exact H|]. intros f [? ?]. by apply kv_scan. Qed.

Lemma opt_ok k v : key_ok k = true → field_ok v → fields_ok (opt k v).
Proof.
  intros Hk Hv. unfold opt. destruct (is_set v); [|constructor].
  apply Forall_cons_2; [exact (conj Hk Hv)|constructor].
Qed.

Lemma field_ok_Itoa z : in_int z = true → field_ok (Itoa z).
Proof.
  intros Hz. assert (str_forallb (λ c, is_digit c || Ascii.eqb c "-") (Itoa z) = true) as Hd.
  { destruct (base.decide (0 ≤ z)%Z) as [H|H].
    - eapply str_forallb_impl; [|by apply Itoa_digits]. by intros c ->.
    - destruct z as [| |n]; [lia..|]. change (Itoa (Z.neg n)) with (String "-" (Itoa (Z.pos n))).
      cbn. eapply str_forallb_impl; [|by apply (Itoa_digits (Z.pos n))]. by intros c ->. }
  assert (str_forallb text_byte (Itoa z) = true ∧ str_forallb (λ c, negb (ascii_space c)) (Itoa z) = true)
    as [Ht Hs].
  { split; revert Hd; apply str_forallb_impl; by intros [[] [] [] [] [] [] [] []]. }
  split; [done|]. split; [|pose proof (Itoa_length z Hz); lia].
  rewrite TrimSpace_ascii by (by apply text_byte_ascii).
  by rewrite trim_left_none, trim_right_none.
Qed.

Lemma fields_ok_app l1 l2 : fields_ok (l1 ++ l2) ↔ fields_ok l1 ∧ fields_ok l2.
Proof. apply Forall_app. Qed.

Lemma iface_fields_ok i :
  obf_ok (obf i) → in_int (MTU i) = true → Forall field_ok [PrivateKey i; Address i; DNS i] →
  fields_ok (iface_fields i).
Proof.
  intros [Hz Hf] Hm Hi. rewrite !Forall_cons in Hz. rewrite !Forall_cons in Hf. rewrite !Forall_cons in Hi. destruct_and!.
  assert (in_int (if (MTU i =? 0)%Z then DefaultMTU else MTU i) = true) as Hm'.
  { case_match; [|done]. by destruct A as [? [->| ->]]. }
  unfold iface_fields, awg_fields. destruct (IsAWGObfuscated (obf i)), (extended (obf i));
    rewrite !fields_ok_app; split_and!;
    repeat first [apply opt_ok | apply Forall_nil_2 | apply Forall_cons_2; [split|]];
    first [assumption | by apply field_ok_Itoa | reflexivity].
Qed.

Lemma field_ok_short s :
  str_forallb text_byte s = true → TrimSpace s = s → (strlen s ≤ 20)%nat → field_ok s.
Proof. intros ? ? ?. split; [done|]. split; [done|lia]. Qed.

Lemma keepalive_of_ok p : field_ok (PersistentKeepalive p) → field_ok (keepalive_of p).
Proof. intros H. unfold keepalive_of. case_match; [|done]. apply field_ok_short; [done..|simpl; lia]. Qed.

Lemma trim_left_app f a b : a ≠ "" → trim_left f a = a → trim_left f (a +:+ b) = a +:+ b.
Proof.
  destruct a as [|c a]; [done|]. intros _. rewrite str_app_cons. simpl. destruct (f c); [|done].
  intros H. apply (f_equal strlen) in H. pose proof (strlen_trim_left f a). simpl in H. lia.
Qed.

Lemma trim_right_keep f a b : b ≠ "" → trim_right f b = b → trim_right f (a +:+ b) = a +:+ b.
Proof. intros Hb H. by rewrite trim_right_app, H, (proj2 (String.eqb_neq _ _)). Qed.

Lemma Join_ok l : Forall ip_ok l → (ips_len l ≤ 65 * 1000)%nat → field_ok (Join l ", ").
Proof.
  intros H Hlen. destruct l as [|p0 l0]; [by apply field_ok_short; simpl; try lia|].
  assert (∀ p l, Forall ip_ok (p :: l) →
    str_forallb text_byte (Join (p :: l) ", ") = true ∧
    (trim_left ascii_space (Join (p :: l) ", ") = Join (p :: l) ", " ∧
     trim_right ascii_space (Join (p :: l) ", ") = Join (p :: l) ", ") ∧
    Join (p :: l) ", " ≠ "" ∧ (strlen (Join (p :: l) ", ") ≤ ips_len (p :: l))%nat) as Hj.
  { clear. intros p l. revert p. induction l as [|q l IH]; intros p [(Hne & _ & Ht & Htr & Hl) Hr]%Forall_cons;
      destruct (trimmed_parts p (text_byte_ascii _ Ht) Htr) as [Htl Htrr].
    - split_and!; [done..|simpl; lia].
    - destruct (IH q Hr) as (Ht' & [_ Hr'] & Hne' & Hl').
      change (Join (p :: q :: l) ", ") with (p +:+ ", " +:+ Join (q :: l) ", ").
      rewrite !str_forallb_app, Ht, Ht', !str_length_app. split_and!; [done| | | |].
      + by apply trim_left_app.
      + apply trim_right_keep; [by apply app_ne_r|by apply trim_right_keep].
      + by destruct p.
      + cbn [ips_len] in *. change (strlen ", ") with 2%nat. lia. }
  destruct (Hj _ _ H) as (Ht & [Htl Htr] & _ & Hl). split; [done|]. split; [|lia].
  rewrite TrimSpace_ascii by (by apply text_byte_ascii). by rewrite Htl.
Qed.

Lemma ips_of_ok p :
  Forall ip_ok (AllowedIPs p) → (ips_len (AllowedIPs p) ≤ 65 * 1000)%nat →
  Forall ip_ok (ips_of p) ∧ field_ok (Join (ips_of p) ", ").
Proof.
  intros H1 H2. unfold ips_of. destruct (AllowedIPs p) as [|q l]; [|split; [done|by apply Join_ok]].
  assert (ip_ok "0.0.0.0/0" ∧ ip_ok "::/0") as [? ?].
  { split; (split; [done|split; [done|]]); apply field_ok_short; done || simpl; lia. }
  assert (Forall ip_ok DefaultAllowedIPs) by (apply Forall_cons_2; [done|apply Forall_cons_2; [done|constructor]]).
  split; [done|]. apply Join_ok; [done|]. change (ips_len DefaultAllowedIPs) with 17%nat. lia.
Qed.

Lemma peer_fields_ok p :
  Forall field_ok [PublicKey p; PresharedKey p; Endpoint p; PersistentKeepalive p] →
  Forall ip_ok (AllowedIPs p) → (ips_len (AllowedIPs p) ≤ 65 * 1000)%nat → fields_ok (peer_fields p).
Proof.
  intros Hf Hips Hj. rewrite !Forall_cons in Hf. destruct_and!.
  destruct (ips_of_ok p) as [_ ?]; [done..|]. pose proof (keepalive_of_ok p).
  unfold peer_fields. rewrite !fields_ok_app. split_and!;
    repeat first [apply opt_ok | apply Forall_nil_2 | apply Forall_cons_2; [split|]];
    first [assumption | reflexivity | auto].
Qed.

(** What the loop of [Parse] has read when it reaches the end of an exported text. *)
Lemma parse_export_lines t :
  conf_ok t →
  parse_lines (export_lines t) {| currentSection := ""; peerCount := 0; tunnel := init_tunnel |} =
  inr {| currentSection := "peer"; peerCount := 1;
         tunnel := let e := Endpoint (Peer t) in
                   let c := canonical e t in
                   {| Type_ := "awg"; Interface := Interface c; Peer := Peer c |} |}.
Proof.
  intros (Ho & Hm & Hf & Hips & Hj). rewrite !Forall_cons in Hf. destruct_and!.
  assert (fields_ok (iface_fields (Interface t))) as Hi by (apply iface_fields_ok; auto).
  assert (fields_ok (peer_fields (Peer t))) as Hp by (apply peer_fields_ok; auto 10).
  destruct (ips_of_ok (Peer t)) as [? _]; [done..|].
  unfold export_lines. cbn [app parse_lines].
  assert (∀ st, parse_line "[Interface]" st = inr {| currentSection := "interface";
    peerCount := peerCount st; tunnel := tunnel st |}) as -> by done.
  rewrite parse_fields, apply_iface_fields by done. cbn [app parse_lines].
  assert (∀ st, parse_line "" st = inr st) as -> by done.
  assert (∀ st, peerCount st = 0%Z → parse_line "[Peer]" st = inr {| currentSection := "peer";
    peerCount := 1; tunnel := tunnel st |}) as Hpeer.
  { intros [sec n tn] Hn. simpl in Hn. by subst. }
  rewrite Hpeer by done.
  rewrite <- (app_nil_r (kvs _)), parse_fields, apply_peer_fields by done.
  cbn [parse_lines peerCount tunnel Type_ Interface Peer].
  change (Peer init_tunnel) with (Peer init_tunnel).
  rewrite iface_fields_canonical, peer_fields_canonical by done. done.
Qed.

Lemma export_scan t : conf_ok t → scan_lines (GenerateForExport t) = (export_lines t, false).
Proof.
  intros (Ho & Hm & Hf & Hips & Hj). rewrite !Forall_cons in Hf. destruct_and!.
  rewrite GenerateForExport_unlines. apply scan_unlines. unfold export_lines.
  assert (∀ s, free_of newline s = true → dropCR s = s → (strlen s ≤ 20)%nat → scan_ok s) as Hs.
  { intros s ? ? ?. split; [done|]. split; [done|]. change MaxScanTokenSize with (64 * 1024)%nat. lia. }
  rewrite !Forall_app. split_and!.
  - apply Forall_cons_2; [|constructor]. apply Hs; simpl; done || lia.
  - apply kvs_scan, iface_fields_ok; auto.
  - apply Forall_cons_2; [|apply Forall_cons_2; [|constructor]]; apply Hs; simpl; done || lia.
  - apply kvs_scan, peer_fields_ok; auto 10.
Qed.

Lemma parse_export t :
  conf_ok t →
  Parse (GenerateForExport t) = finish (canonical (Endpoint (Peer t)) t).
Proof.
  intros Ht. unfold Parse. rewrite export_scan by done. by rewrite parse_export_lines.
Qed.

Lemma finish_canonical t e e' :
  PrivateKey (Interface t) ≠ "" → Address (Interface t) ≠ "" → PublicKey (Peer t) ≠ "" → e ≠ "" →
  NormalizeEndpoint e = inr e' →
  finish (canonical e t) = inr (canonical e' t).
Proof.
  intros Hpk Ha Hpub He Hn. unfold finish. cbn [canonical Interface Peer PrivateKey Address PublicKey Endpoint].
  rewrite !(proj2 (String.eqb_neq _ _)) by done. rewrite Hn.
  unfold canonical, ips_of.
  destruct (AllowedIPs (Peer t)), (MTU (Interface t) =? 0)%Z eqn:E; cbn; by rewrite ?E.
Qed.

(** A configuration exported for a client is read back as the canonical form of
    the tunnel: the parser loses nothing but what the canonical form leaves out
    (the queue length; every obfuscation parameter of a tunnel the classifier
    calls plain; a zero [S3]/[S4] pair; an awg3 "0"), fills in the defaults the
    writer printed, and cannot fail. *)
Theorem export_import t endpoint :
  conf_ok t → PrivateKey (Interface t) ≠ "" → Address (Interface t) ≠ "" →
  PublicKey (Peer t) ≠ "" → NormalizeEndpoint (Endpoint (Peer t)) = inr endpoint →
  Parse (GenerateForExport t) = inr (canonical endpoint t).
Proof.
  intros Ht Hpk Ha Hpub Hn. rewrite parse_export by done. apply finish_canonical; try done.
  intros E. by rewrite E in Hn.
Qed.
End props.
