(* ===== verification/ConfigImport.v ===== *)
(** * What the .conf parser returns

    Every tunnel [Parse] returns from an ASCII text is well-formed, its endpoint
    is canonical, and exporting it gives a text that is read back as the same
    tunnel, but for what a .conf of its protocol version does not carry. *)
From S2P Require Import Prelude GoLib GoText Config ConfigProps.

Section import.
Context `{U : GoUnicode} `{A : GoArch}.

(** ** Endpoints *)

Lemma valid_port_chars p :
  validEndpointPort p = true → str_forallb (λ c, is_digit c || Ascii.eqb c "+" || Ascii.eqb c "-") p = true.
Proof.
  assert (∀ s acc v, digits_val acc s = Some v → str_forallb is_digit s = true) as Hd.
  { induction s as [|c s IH]; intros acc v; [done|]. simpl.
    destruct (digit_of c) as [d|] eqn:E; [|done]. simpl. intros H. rewrite (IH _ _ H), andb_true_r.
    unfold digit_of in E. unfold is_digit. by destruct (_ && _). }
  assert (∀ s v, parse_digits s = Some v → str_forallb (λ c, is_digit c || Ascii.eqb c "+" || Ascii.eqb c "-") s = true)
    as Hp.
  { intros [|c s] v; [done|]. intros H%Hd. revert H. apply str_forallb_impl. by intros x ->. }
  unfold validEndpointPort, Atoi. destruct p as [|c p]; [done|].
  destruct (Ascii.eqb_spec c "-") as [->|]; [|destruct (Ascii.eqb_spec c "+") as [->|]].
  - destruct (parse_digits p) as [v|] eqn:E; [|done]. intros _. cbn. by eapply Hp.
  - destruct (parse_digits p) as [v|] eqn:E; [|done]. intros _. cbn. by eapply Hp.
  - intros H. destruct (parse_digits (String c p)) as [v|] eqn:E; [by eapply Hp|].
    destruct c as [[] [] [] [] [] [] [] []]; done.
Qed.

Lemma valid_port_plain p :
  validEndpointPort p = true → no_brackets p = true ∧ str_forallb (λ c, negb (ascii_space c)) p = true ∧ p ≠ "".
Proof.
  intros H. split_and!; [unfold no_brackets, free_of; apply andb_true_iff; split| |by intros ->];
    revert H; intros H%valid_port_chars; revert H; apply str_forallb_impl;
    by intros [[] [] [] [] [] [] [] []].
Qed.

(** An accepted endpoint is a host and a port put together. *)
Lemma NormalizeEndpoint_form ep e :
  NormalizeEndpoint ep = inr e →
  ∃ h p, e = JoinHostPort h p ∧ no_brackets h = true ∧ no_brackets p = true ∧ free_of ":" p = true ∧
         validEndpointPort p = true ∧
         (∀ q, str_forallb q (TrimSpace ep) = true → str_forallb q h = true ∧ str_forallb q p = true) ∧
         (strlen h + strlen p < strlen (TrimSpace ep))%nat.
Proof.
  unfold NormalizeEndpoint. generalize (TrimSpace ep). intros s.
  destruct (SplitHostPort s) as [[h p]|] eqn:Hs.
  - destruct (validEndpointPort p) eqn:Hv; [|done]. simpl. intros He.
    assert (e = JoinHostPort h p) as ->.
    { unfold JoinHostPort in *. destruct (contains_byte ":" h); by injection He. }
    destruct (SplitHostPort_parts _ _ _ Hs) as (Hh & Hp & Hf & Hform).
    exists h, p. split_and!; try done.
    + intros q Hq. destruct Hform as [[-> _]| ->]; rewrite !str_forallb_app in Hq; cbn in Hq; by to_prop.
    + destruct Hform as [[-> _]| ->]; rewrite !str_length_app; cbn; lia.
  - destruct (last_index_byte ":" s) as [[|i]|] eqn:Hi; [done| |done].
    destruct (take_drop_byte _ _ _ Hi) as [Hform Hf].
    destruct (ParseIP_ok _) eqn:Hip; [|done]. destruct (contains_byte _ _); [|done].
    destruct (validEndpointPort _) eqn:Hv; [|done]. cbn [andb]. intros [= <-].
    exists (str_take (S i) s), (str_drop (S (S i)) s). split; [done|]. split_and!; try done.
    + by apply ParseIP_ok_brackets.
    + by apply valid_port_plain.
    + intros q Hq. split; [by apply str_forallb_take|by apply str_forallb_drop].
    + apply (f_equal strlen) in Hform. rewrite str_length_app in Hform. cbn [strlen] in Hform. lia.
Qed.

(** The canonical form is canonical, unless the host starts with white space
    inside its brackets. *)
Lemma NormalizeEndpoint_idem ep e :
  NormalizeEndpoint ep = inr e → TrimSpace e = e → NormalizeEndpoint e = inr e.
Proof.
  intros (h & p & -> & Hh & Hp & Hc & Hv & _)%NormalizeEndpoint_form Ht.
  unfold NormalizeEndpoint. rewrite Ht, SplitHostPort_Join, Hv by done. simpl.
  unfold JoinHostPort. by destruct (contains_byte ":" h).
Qed.

Lemma NormalizeEndpoint_text ep e :
  field_ok ep → NormalizeEndpoint ep = inr e →
  str_forallb text_byte e = true ∧ (strlen e ≤ strlen ep + 2)%nat ∧ e ≠ "".
Proof.
  intros (Ht & Htr & _) (h & p & -> & _ & _ & _ & _ & Hq & Hl)%NormalizeEndpoint_form.
  rewrite Htr in *. destruct (Hq text_byte Ht) as [Hh Hp]. unfold JoinHostPort.
  destruct (contains_byte ":" h).
  - rewrite !str_forallb_app, !str_length_app, Hh, Hp. cbn. split_and!; [done|lia|done].
  - rewrite !str_forallb_app, !str_length_app, Hh, Hp. cbn. split_and!; [done|lia|].
    by destruct h.
Qed.

(** ** The values the loop stores *)

Definition value_ok (n : nat) (v : string) : Prop :=
  str_forallb text_byte v = true ∧ TrimSpace v = v ∧ (strlen v ≤ n)%nat.

Definition iface_inv (n : nat) (i : AWGInterface) : Prop :=
  let o := obf i in
  Forall (λ z, in_int z = true) [MTU i; Jc o; Jmin o; Jmax o; S1 o; S2 o; S3 o; S4 o] ∧
  Forall (value_ok n)
    [PrivateKey i; Address i; DNS i; H1 o; H2 o; H3 o; H4 o; I1 o; I2 o; I3 o; I4 o; I5 o;
     HeaderProtectionKey o; ContentPaddingAddition o; RekeyAfterTime o; RekeyTimeout o;
     RejectAfterTime o; KeepaliveTimeout o; MaxHandshakeAttempts o].

Definition peer_inv (n m : nat) (p : AWGPeer) : Prop :=
  Forall (value_ok n) [PublicKey p; PresharedKey p; Endpoint p; PersistentKeepalive p] ∧
  ValidateKeepalive (PersistentKeepalive p) = None ∧
  Forall (λ s, s ≠ "" ∧ free_of "," s = true ∧ value_ok n s) (AllowedIPs p) ∧
  (ips_len (AllowedIPs p) ≤ m)%nat.

Lemma in_int_zero : in_int 0 = true.
Proof. by destruct A as [? [->| ->]]. Qed.

Lemma Atoi_in_int s v : Atoi s = Some v → in_int v = true.
Proof.
  unfold Atoi. intros H. apply bind_Some in H as (x & _ & H). by destruct (in_int x) eqn:E; simplify_eq.
Qed.

Lemma parseInterfaceField_inv n k v i :
  value_ok n v → iface_inv n i → iface_inv n (parseInterfaceField k v i).
Proof.
  intros Hv [Hz Hf]. rewrite !Forall_cons in Hz. rewrite !Forall_cons in Hf.
  assert (value_ok n (awg3Range v)) as Hr.
  { unfold awg3Range. case_match; [|done]. split; [done|]. split; [done|apply Nat.le_0_l]. }
  unfold parseInterfaceField, set_int. destruct (Atoi v) as [z|] eqn:E; [apply Atoi_in_int in E|];
    destruct_and!; repeat case_match; unfold on_obf, iface_inv; assign;
    (split; repeat (apply Forall_cons_2; [assumption|]); apply Forall_nil_2).
Qed.

Lemma ips_len_app l1 l2 : ips_len (l1 ++ l2) = (ips_len l1 + ips_len l2)%nat.
Proof. induction l1; simpl; lia. Qed.

Lemma ips_len_split v :
  str_forallb is_ascii_byte v = true → (ips_len (split_ips v) ≤ 3 * strlen v)%nat.
Proof.
  intros Hv. unfold split_ips. etransitivity; [|apply Nat.mul_le_mono_l, (split_byte_total ",")].
  assert (Forall (λ p, str_forallb is_ascii_byte p = true) (split_byte "," v)) as H.
  { apply Forall_forall. intros p Hp. by eapply split_byte_forallb. }
  induction H as [|p l Hp _ IH]; [simpl; lia|]. rewrite fmap_cons, filter_cons.
  pose proof (strlen_TrimSpace p Hp). case_decide as E; cbn [ips_len total_len]; [|lia].
  destruct (TrimSpace p); [done|]. simpl in *. lia.
Qed.

Lemma split_ips_ok n v :
  value_ok n v → Forall (λ s, s ≠ "" ∧ free_of "," s = true ∧ value_ok n s) (split_ips v).
Proof.
  intros (Ht & _ & Hl). apply Forall_forall. intros q [Hne Hq]%list_elem_of_filter.
  apply list_elem_of_fmap in Hq as (r & -> & Hr).
  pose proof (split_byte_forallb _ _ _ _ Ht Hr) as Hrt. pose proof (text_byte_ascii _ Hrt) as Hra.
  split; [done|]. split; [apply TrimSpace_forallb; [done|by eapply split_byte_elem]|].
  split; [by apply TrimSpace_forallb|]. split; [by apply TrimSpace_idem|].
  pose proof (split_byte_length _ _ _ Hr). pose proof (strlen_TrimSpace r Hra). lia.
Qed.

Lemma parsePeerField_inv n m k v p :
  value_ok n v → peer_inv n m p → peer_inv n (m + 3 * strlen v) (parsePeerField k v p).
Proof.
  intros Hv (Hf & Hk & Hips & Hlen). rewrite !Forall_cons in Hf.
  unfold parsePeerField. destruct (ValidateKeepalive v) as [e|] eqn:E; repeat case_match;
    unfold peer_inv; assign; rewrite ?Forall_cons; split_and!; try tauto; try lia.
  all: try (rewrite ips_len_app; pose proof (ips_len_split v (text_byte_ascii _ (proj1 Hv))); lia).
  all: by apply Forall_app; split; [|apply split_ips_ok].
Qed.

Definition state_inv (n m : nat) (st : pstate) : Prop :=
  Type_ (tunnel st) = "awg" ∧ iface_inv n (Interface (tunnel st)) ∧ peer_inv n m (Peer (tunnel st)).

Lemma parse_line_inv n m text st st' :
  str_forallb text_byte text = true → (strlen text ≤ n)%nat → state_inv n m st →
  parse_line text st = inr st' → state_inv n (m + 3 * strlen text) st'.
Proof.
  intros Ht Hl (Hty & Hi & Hp). pose proof (text_byte_ascii _ Ht) as Ha.
  assert (∀ p, peer_inv n m p → peer_inv n (m + 3 * strlen text) p) as Hw.
  { intros p (? & ? & ? & ?). split_and!; try done. lia. }
  unfold parse_line. set (line := TrimSpace text).
  assert (str_forallb text_byte line = true ∧ (strlen line ≤ strlen text)%nat) as [Hlt Hll].
  { split; [by apply TrimSpace_forallb|by apply strlen_TrimSpace]. }
  destruct (_ || _); [intros [= <-]; split_and!; auto|].
  destruct (String.eqb (ToLower line) "[interface]"); [intros [= <-]; split_and!; auto|].
  destruct (String.eqb (ToLower line) "[peer]").
  { destruct (1 <? _)%Z; [done|]. intros [= <-]. split_and!; auto. }
  destruct (index_byte "=" line) as [e|]; [|intros [= <-]; split_and!; auto].
  assert (value_ok (strlen text) (TrimSpace (str_drop (S e) line))) as Hv.
  { assert (str_forallb is_ascii_byte (str_drop (S e) line) = true) as Hd
      by (by apply text_byte_ascii, str_forallb_drop).
    split; [by apply TrimSpace_forallb, str_forallb_drop|]. split; [by apply TrimSpace_idem|].
    pose proof (strlen_TrimSpace _ Hd). pose proof (strlen_drop (S e) line). lia. }
  revert Hv. generalize (TrimSpace (str_drop (S e) line)). intros v (Hv1 & Hv2 & Hv3).
  assert (value_ok n v) as Hv by (split_and!; [done..|lia]).
  intros [= <-]. unfold state_inv. cbn [tunnel].
  destruct (String.eqb (currentSection st) "interface"); [|destruct (String.eqb (currentSection st) "peer")];
    cbn [Type_ Interface Peer]; split_and!; auto.
  - by apply parseInterfaceField_inv.
  - destruct (parsePeerField_inv n m (ToLower (TrimSpace (str_take e line))) v (Peer (tunnel st)))
      as (? & ? & ? & ?); [done..|]. split_and!; try done. lia.
Qed.

Lemma parse_lines_inv n m texts st st' :
  Forall (λ s, str_forallb text_byte s = true ∧ (strlen s ≤ n)%nat) texts → state_inv n m st →
  parse_lines texts st = inr st' → state_inv n (m + 3 * total_len texts) st'.
Proof.
  intros H. revert m st. induction H as [|s l [Hs Hn] _ IH]; intros m st Hst; cbn [parse_lines total_len].
  - intros [= <-]. by rewrite Nat.mul_0_r, Nat.add_0_r.
  - destruct (parse_line s st) as [|st1] eqn:E; [done|]. intros H.
    apply (IH (m + 3 * strlen s)%nat) in H; [|by eapply parse_line_inv].
    by rewrite Nat.mul_add_distr_l, Nat.add_assoc.
Qed.

Lemma value_ok_short n s :
  str_forallb text_byte s = true → TrimSpace s = s → (strlen s ≤ n)%nat → value_ok n s.
Proof. unfold value_ok. auto. Qed.

Lemma init_inv n :
  (2 ≤ n)%nat → state_inv n 0 {| currentSection := ""; peerCount := 0; tunnel := init_tunnel |}.
Proof.
  intros Hn. assert (value_ok n "" ∧ value_ok n "25") as [H0 H25].
  { split; apply value_ok_short; try reflexivity; simpl; lia. }
  split; [done|]. unfold iface_inv, peer_inv. pose proof in_int_zero.
  assign. cbn [Interface Peer init_tunnel]. split_and!;
    repeat (apply Forall_cons_2; [assumption|]); try apply Forall_nil_2; done.
Qed.

(** ** The tunnel [Parse] returns *)

Lemma str_forallb_and (p q : ascii → bool) s :
  str_forallb p s = true → str_forallb q s = true → str_forallb (λ b, p b && q b) s = true.
Proof. induction s as [|b s IH]; [done|]. cbn. intros H1 H2. to_prop. by rewrite H, H1, IH. Qed.

Lemma scan_texts c :
  str_forallb is_ascii_byte c = true →
  Forall (λ s, str_forallb text_byte s = true ∧ (strlen s ≤ strlen c)%nat) (scan_lines c).1.
Proof.
  intros Hc. apply Forall_forall. intros s Hs.
  destruct (scan_lines_elem _ _ _ Hc Hs) as (Ha & Hn & Hl). split; [|done].
  by apply (str_forallb_and is_ascii_byte (λ b, negb (Ascii.eqb b newline))).
Qed.

(** The length of the text bounds every value. *)
Lemma Parse_inv c t :
  str_forallb is_ascii_byte c = true → Parse c = inr t →
  ∃ t0, let n := (strlen c + 2)%nat in
    Type_ t0 = "awg" ∧ iface_inv n (Interface t0) ∧ peer_inv n (3 * strlen c) (Peer t0) ∧ finish t0 = inr t.
Proof.
  intros Hc HP. unfold Parse in HP. pose proof (scan_texts c Hc) as Hs.
  pose proof (scan_lines_total c) as Ht. destruct (scan_lines c) as [texts long]. cbn [fst] in *.
  destruct (parse_lines texts _) as [|st] eqn:E; [done|]. destruct long; [done|].
  apply (parse_lines_inv (strlen c + 2) 0) in E as (Hty & Hi & Hp & Hk & Hips & Hl);
    [|eapply Forall_impl; [exact Hs|]; intros s [? ?]; split; [done|lia]|apply init_inv; lia].
  exists (tunnel st). split; [done|]. split; [done|]. split; [|done].
  unfold peer_inv. split_and!; try done. lia.
Qed.

(** Nothing but the classification and the keepalive default is lost. *)
Definition reimported (t : AWGTunnel) : AWGTunnel := {|
  Type_ := Type_ t;
  Interface := set_obf (canonical_obf (obf (Interface t))) (Interface t);
  Peer := set_PersistentKeepalive (keepalive_of (Peer t)) (Peer t) |}.

Lemma finish_inr t0 t :
  finish t0 = inr t →
  PrivateKey (Interface t0) ≠ "" ∧ Address (Interface t0) ≠ "" ∧ PublicKey (Peer t0) ≠ "" ∧
  ∃ e, NormalizeEndpoint (Endpoint (Peer t0)) = inr e ∧
    t = {| Type_ := Type_ t0;
           Interface := set_MTU (if (MTU (Interface t0) =? 0)%Z then DefaultMTU else MTU (Interface t0)) (Interface t0);
           Peer := set_AllowedIPs (ips_of (Peer t0)) (set_Endpoint e (Peer t0)) |}.
Proof.
  unfold finish. repeat (match goal with |- context [String.eqb ?x ""] => destruct (String.eqb_spec x ""); [done|] end).
  destruct (NormalizeEndpoint _) as [|e]; [done|]. intros [= <-]. split_and!; [done..|].
  exists e. split; [done|]. f_equal.
  - destruct (Interface t0) as [? ? m ? ?]. cbn. by destruct (m =? 0)%Z.
  - unfold ips_of. destruct (Peer t0) as [? ? ? l ?]. cbn. by destruct l.
Qed.

Lemma value_field n v : value_ok n v → (n ≤ 65 * 1000)%nat → field_ok v.
Proof. intros (? & ? & ?) Hn. split; [done|]. split; [done|lia]. Qed.

Lemma Parse_conf_ok c t :
  str_forallb is_ascii_byte c = true → (strlen c ≤ 20 * 1000)%nat → Parse c = inr t →
  TrimSpace (Endpoint (Peer t)) = Endpoint (Peer t) →
  conf_ok t ∧ PrivateKey (Interface t) ≠ "" ∧ Address (Interface t) ≠ "" ∧ PublicKey (Peer t) ≠ "" ∧
  NormalizeEndpoint (Endpoint (Peer t)) = inr (Endpoint (Peer t)).
Proof.
  intros Hc Hlen HP Htr.
  destruct (Parse_inv c t Hc HP) as (t0 & Hty & [Hz Hf] & (Hpf & Hk & Hips & Hl) & Hfin).
  destruct (finish_inr _ _ Hfin) as (Hpk & Ha & Hpub & e & Hn & ->).
  assert (∀ v, value_ok (strlen c + 2) v → field_ok v) as Hv by (intros v H; eapply value_field; [exact H|lia]).
  apply (Forall_impl _ _ _ Hf) in Hv as Hf'. apply (Forall_impl _ _ _ Hpf) in Hv as Hpf'.
  assert (strlen (Endpoint (Peer t0)) ≤ strlen c + 2)%nat as Hep.
  { rewrite !Forall_cons in Hpf. destruct Hpf as (_ & _ & (_ & _ & H) & _). exact H. }
  clear Hf Hpf. rewrite !Forall_cons in Hz. rewrite !Forall_cons in Hf'. rewrite !Forall_cons in Hpf'.
  destruct_and!. cbn [Interface Peer] in *.
  assert (Forall ip_ok (AllowedIPs (Peer t0))) as Hips'.
  { eapply Forall_impl; [exact Hips|]. intros s (? & ? & ?). split; [done|]. split; [done|]. by apply Hv. }
  destruct (ips_of_ok (Peer t0)) as [Hio _]; [done|lia|].
  destruct (NormalizeEndpoint_text (Endpoint (Peer t0)) e) as (Het & Hel & Hene); [done..|].
  assert (in_int (if (MTU (Interface t0) =? 0)%Z then DefaultMTU else MTU (Interface t0)) = true) as Hm.
  { case_match; [|done]. by destruct A as [? [->| ->]]. }
  assert (ips_len (ips_of (Peer t0)) ≤ 65 * 1000)%nat as Hil.
  { unfold ips_of. destruct (AllowedIPs (Peer t0)) as [|q l]; [change (ips_len _) with 17%nat|]; lia. }
  revert Htr. assign. intros Htr. split; [|split_and!; [done..|by eapply NormalizeEndpoint_idem]].
  assert (field_ok e) as He by (split; [done|]; split; [done|lia]).
  unfold conf_ok, obf_ok. assign. split_and!; try done;
    repeat (apply Forall_cons_2; [assumption|]); apply Forall_nil_2.
Qed.

(** C12: A configuration that was imported survives export and import: for every ASCII
    text of at most 20 000 bytes that [Parse] accepts, the exported text of the
    result is accepted and gives the same tunnel, but that the obfuscation is
    reduced to what the protocol version carries and a switched off keepalive
    becomes the default.  (An endpoint whose bracketed host starts with white
    space is left out: its canonical form is not trimmed.) *)
Theorem import_export_import c t :
  str_forallb is_ascii_byte c = true → (strlen c ≤ 20 * 1000)%nat → Parse c = inr t →
  TrimSpace (Endpoint (Peer t)) = Endpoint (Peer t) →
  Parse (GenerateForExport t) = inr (reimported t).
Proof.
  intros Hc Hlen HP Htr. destruct (Parse_conf_ok c t Hc Hlen HP Htr) as (Hok & Hpk & Ha & Hpub & Hn).
  destruct (Parse_inv c t Hc HP) as (t0 & Hty & _ & (_ & Hk & _) & Hfin).
  rewrite parse_export, (finish_canonical _ _ (Endpoint (Peer t))) by (try done; by intros E; rewrite E in Hn).
  destruct (finish_inr _ _ Hfin) as (_ & _ & _ & e & _ & Ht). f_equal.
  unfold canonical, reimported. f_equal; subst t; assign; cbn [Type_ Interface Peer].
  - done.
  - destruct (MTU (Interface t0) =? 0)%Z eqn:E; cbn; by rewrite ?E.
  - unfold ips_of at 1. assign. f_equal; [unfold ips_of; by destruct (AllowedIPs (Peer t0))|].
    unfold keepalive_of. assign.
    destruct (Keepalive_IsZero (PersistentKeepalive (Peer t0))); [by case_match|by rewrite Hk].
Qed.

(** ** The keepalive in the stored JSON *)

(** A value survives the store: a number keeps its value, anything else its text. *)
Lemma Keepalive_json k :
  k ≠ "" →
  ∃ k', Keepalive_UnmarshalJSON (Keepalive_MarshalJSON k) = Some k' ∧
        Keepalive_Single k' = Keepalive_Single k ∧ (Keepalive_Single k = None → k' = k).
Proof.
  intros Hk. unfold Keepalive_MarshalJSON, Keepalive_IsZero.
  destruct (String.eqb_spec k "") as [|_]; [done|]. simpl.
  destruct (String.eqb_spec k "0") as [->|_].
  - cbn. rewrite in_int_zero. by exists "0".
  - unfold Keepalive_Single. destruct (Atoi k) as [n|] eqn:E; [|by exists k].
    pose proof (Atoi_in_int _ _ E) as Hn. cbn. rewrite Hn. exists (Itoa n).
    by rewrite Atoi_Itoa_int.
Qed.
End import.

(** ** Witnesses and examples *)

Section examples.
#[local] Existing Instance plain_unicode.
#[local] Existing Instance arch64.

Lemma ex_field s :
  str_forallb text_byte s && String.eqb (TrimSpace s) s && (strlen s <? 100)%nat = true → field_ok s.
Proof.
  intros [[H1 H2]%andb_true_iff H3]%andb_true_iff. apply String.eqb_eq in H2. apply Nat.ltb_lt in H3.
  split; [done|]. split; [done|lia].
Qed.

Lemma ex_conf_ok : conf_ok ex_tunnel.
Proof.
  split_and!; [split|..]; repeat (apply Forall_cons_2); try apply Forall_nil_2;
    try (by apply ex_field); try reflexivity.
  - split; [done|]. split; [done|by apply ex_field].
  - split; [done|]. split; [done|by apply ex_field].
  - change (ips_len (AllowedIPs (Peer ex_tunnel))) with 17%nat. lia.
Qed.

Lemma export_import_witness :
  conf_ok ex_tunnel ∧ Parse (GenerateForExport ex_tunnel) = inr (canonical "[2001:db8::1]:51820" ex_tunnel).
Proof. split; [apply ex_conf_ok|]. apply export_import; [apply ex_conf_ok|done..|vm_compute; reflexivity]. Defined.

Lemma import_export_import_witness :
  Parse ex_conf = inr ex_tunnel ∧ Parse (GenerateForExport ex_tunnel) = inr (reimported ex_tunnel).
Proof.
  split; [vm_compute; reflexivity|].
  apply (import_export_import ex_conf); [vm_compute; reflexivity| |vm_compute; reflexivity|done].
  change (strlen ex_conf) with 203%nat. lia.
Defined.

(** A configuration that is plain for the classifier loses its junk packets, and
    a keepalive that is switched off comes back switched on. *)
Definition ex_junk : AWGTunnel := {|
  Type_ := "awg";
  Interface := {| PrivateKey := "abc"; Address := "10.0.0.2/32"; MTU := 1280; DNS := "";
                  obf := set_Jc 4 (set_Jmin 40 (set_Jmax 70 zero_obf)) |};
  Peer := {| PublicKey := "pk="; PresharedKey := ""; Endpoint := "vpn.example:51820";
             AllowedIPs := DefaultAllowedIPs; PersistentKeepalive := "0" |} |}.

Example junk_is_lost :
  Parse (GenerateForExport ex_junk) =
  inr {| Type_ := "awg"; Interface := set_obf zero_obf (Interface ex_junk);
         Peer := set_PersistentKeepalive "25" (Peer ex_junk) |}.
Proof. vm_compute. reflexivity. Qed.
End examples.
