(* ===== verification/SaveCoord.v ===== *)
(** * The save coordinator ([internal/ndms/command/save.go], [status.go])

    Every change of the router's configuration is followed by [Request]; a timer
    turns a burst of requests into one POST that writes the running
    configuration to flash, with retries; [Flush] saves at once.

    First the critical sections of the coordinator as functions on its record
    (what a section does outside the record is a list of effects), then the
    program around it: armed timers, the goroutines of [fire] and [Flush]
    between their critical sections, the lock that keeps POSTs apart, a clock. *)
From S2P Require Import Prelude GoLib.

Inductive SaveState :=
  | SaveStateIdle | SaveStatePending | SaveStateSaving | SaveStateError | SaveStateFailed.
#[export] Instance SaveState_eq_dec : EqDecision SaveState.
Proof. solve_decision. Defined.

Definition SaveState_String (s : SaveState) : string :=
  match s with
  | SaveStateIdle => "idle"
  | SaveStatePending => "pending"
  | SaveStateSaving => "saving"
  | SaveStateError => "error"
  | SaveStateFailed => "failed"
  end.

(** The poster, the publisher and the invalidator are abstract: the record says
    whether the latter two are there.  A timer is the identity [AfterFunc] gave it. *)
#[projections(primitive)] Record SaveCoordinator := {
  hasPublisher : bool;
  debounce : Duration;
  maxWait : Duration;
  retryDelay : Duration;
  maxRetries : Z;
  settleDelay : Duration;
  hasInvalidator : bool;
  timer : option nat;
  firstAt : Time;
  pendingCount : Z;
  state : SaveState;
  lastError : string;
  lastSaveAt : Time;
  retryCount : Z;
  flushInProgress : bool;
}.

Definition eta_co (s : SaveCoordinator) : SaveCoordinator := {|
  hasPublisher := hasPublisher s; debounce := debounce s; maxWait := maxWait s;
  retryDelay := retryDelay s; maxRetries := maxRetries s; settleDelay := settleDelay s;
  hasInvalidator := hasInvalidator s; timer := timer s; firstAt := firstAt s;
  pendingCount := pendingCount s; state := state s; lastError := lastError s;
  lastSaveAt := lastSaveAt s; retryCount := retryCount s; flushInProgress := flushInProgress s |}.

Section setters.
Implicit Type s : SaveCoordinator.
Definition set_retryDelay (v : Duration) s : SaveCoordinator := ltac:(update_field eta_co retryDelay v s).
Definition set_maxRetries (v : Z) s : SaveCoordinator := ltac:(update_field eta_co maxRetries v s).
Definition SetSettleDelay (v : Duration) s : SaveCoordinator := ltac:(update_field eta_co settleDelay v s).
Definition set_timer (v : option nat) s : SaveCoordinator := ltac:(update_field eta_co timer v s).
Definition set_firstAt (v : Time) s : SaveCoordinator := ltac:(update_field eta_co firstAt v s).
Definition set_pendingCount (v : Z) s : SaveCoordinator := ltac:(update_field eta_co pendingCount v s).
Definition set_state (v : SaveState) s : SaveCoordinator := ltac:(update_field eta_co state v s).
Definition set_lastError (v : string) s : SaveCoordinator := ltac:(update_field eta_co lastError v s).
Definition set_lastSaveAt (v : Time) s : SaveCoordinator := ltac:(update_field eta_co lastSaveAt v s).
Definition set_retryCount (v : Z) s : SaveCoordinator := ltac:(update_field eta_co retryCount v s).
Definition set_flushInProgress (v : bool) s : SaveCoordinator := ltac:(update_field eta_co flushInProgress v s).
Definition SetRetryPolicy (delay : Duration) (max : Z) s : SaveCoordinator :=
  set_maxRetries max (set_retryDelay delay s).
End setters.

Definition defaultRetryDelay : Duration := (5 * Second)%Z.
Definition defaultMaxRetries : Z := 3.

Definition NewSaveCoordinator (pub : bool) (debounce_ maxWait_ settle : Duration) (invalidator : bool)
  : SaveCoordinator := {|
  hasPublisher := pub; debounce := debounce_; maxWait := maxWait_;
  retryDelay := defaultRetryDelay; maxRetries := defaultMaxRetries; settleDelay := settle;
  hasInvalidator := invalidator; timer := None; firstAt := 0; pendingCount := 0;
  state := SaveStateIdle; lastError := ""; lastSaveAt := 0; retryCount := 0;
  flushInProgress := false |}.

(** The coordinator as the daemon builds it. *)
Definition production : SaveCoordinator :=
  NewSaveCoordinator true (3 * Second) (10 * Second) (2 * Second) true.

(** What a critical section does to the rest of the program. *)
Inductive effect :=
  | Publish (reason : string) (* resource:invalidated, resource saveStatus *)
  | StopTimer (id : nat)
  | AfterFunc (id : nat) (d : Duration). (* runs fire *)

Definition setStateLocked (next : SaveState) (errMsg : string) (s : SaveCoordinator)
  : SaveCoordinator * list effect :=
  (set_lastError errMsg (set_state next s), if hasPublisher s then [Publish "state-change"] else []).

Definition stop_timer (s : SaveCoordinator) : list effect :=
  match timer s with Some t => [StopTimer t] | None => [] end.

(** [id]: the identity of the timer it arms. *)
Definition Request (now : Time) (id : nat) (s : SaveCoordinator) : SaveCoordinator * list effect :=
  let s := if IsZero (firstAt s) then set_firstAt now s else s in
  let s := set_pendingCount (pendingCount s + 1) s in
  let fireAt := (now + debounce s)%Z in
  let maxFireAt := (firstAt s + maxWait s)%Z in
  let fireAt := if (maxFireAt <? fireAt)%Z then maxFireAt else fireAt in
  let stop := stop_timer s in
  let s := set_timer (Some id) s in
  let '(s, pub) := setStateLocked SaveStatePending "" s in
  (s, stop ++ [AfterFunc id (time_Sub fireAt now)] ++ pub).

(** [fire] up to its POST: whether it goes on to save. *)
Definition fire_begin (s : SaveCoordinator) : SaveCoordinator * list effect * bool :=
  let s := set_firstAt 0 (set_timer None s) in
  if flushInProgress s then (s, [], false)
  else let '(s, pub) := setStateLocked SaveStateSaving "" s in (s, pub, true).

(** [fire] after its POST returned [err]: the time it settles before it
    invalidates the running-config cache. *)
Definition fire_end (now : Time) (id : nat) (err : option string) (s : SaveCoordinator)
  : SaveCoordinator * list effect * option Duration :=
  if flushInProgress s then (s, [], None)
  else
    match err with
    | None =>
        let s := set_lastSaveAt now (set_retryCount 0 (set_pendingCount 0 s)) in
        let '(s, pub) := setStateLocked SaveStateIdle "" s in
        (s, pub, if (0 <? settleDelay s)%Z && hasInvalidator s then Some (settleDelay s) else None)
    | Some e =>
        let s := set_retryCount (retryCount s + 1) s in
        if (maxRetries s <? retryCount s)%Z then
          let '(s, pub) := setStateLocked SaveStateFailed e s in (s, pub, None)
        else
          let '(s, pub) := setStateLocked SaveStateError e s in
          (set_timer (Some id) s, pub ++ [AfterFunc id (retryDelay s)], None)
    end.

Definition flush_begin (s : SaveCoordinator) : SaveCoordinator * list effect :=
  let stop := stop_timer s in
  let s := set_flushInProgress true (set_firstAt 0 (set_timer None s)) in
  let '(s, pub) := setStateLocked SaveStateSaving "" s in (s, stop ++ pub).

(** The flag: the cache is invalidated, without settling. *)
Definition flush_end (now : Time) (err : option string) (s : SaveCoordinator)
  : SaveCoordinator * list effect * bool :=
  let s := set_flushInProgress false s in
  match err with
  | None =>
      let s := set_lastSaveAt now (set_retryCount 0 (set_pendingCount 0 s)) in
      let '(s, pub) := setStateLocked SaveStateIdle "" s in (s, pub, hasInvalidator s)
  | Some e =>
      let s := set_retryCount (maxRetries s + 1) s in
      let '(s, pub) := setStateLocked SaveStateFailed e s in (s, pub, false)
  end.

Record SaveStatus := {
  State : SaveState;
  LastError : string;
  LastSaveAt : Time;
  PendingCount : Z;
}.

Definition Status (s : SaveCoordinator) : SaveStatus := {|
  State := state s; LastError := lastError s; LastSaveAt := lastSaveAt s;
  PendingCount := pendingCount s |}.

(** ** The program around the coordinator *)

(** Where a goroutine of [fire] or [Flush] is.  [g]: how many requests had been
    made when its POST began, so what a successful POST has written to flash. *)
Inductive thread :=
  | Fire_start
  | Fire_save
  | Fire_posting (g : nat)
  | Fire_posted (err : option string)
  | Fire_settle (until : Time)
  | Flush_save
  | Flush_posting (g : nat)
  | Flush_posted (err : option string)
  | Flush_invalidate.

#[export] Instance thread_eq_dec : EqDecision thread.
Proof. solve_decision. Defined.

#[projections(primitive)] Record sys := {
  co : SaveCoordinator;
  now : Time;
  timers : gmap nat Time; (* armed, with the time they are due *)
  threads : gmap nat thread;
  next_id : nat;
  saveMu : bool;
  requests : nat; (* calls of Request so far *)
  saved : nat; (* how many of them a successful POST is known to cover *)
  published : list string;
  invalidations : nat;
}.

Definition init (c : SaveCoordinator) (t : Time) : sys := {|
  co := c; now := t; timers := ∅; threads := ∅; next_id := 0; saveMu := false;
  requests := 0; saved := 0; published := []; invalidations := 0 |}.

Definition run_effect (e : effect) (s : sys) : sys :=
  match e with
  | Publish r => {| co := co s; now := now s; timers := timers s; threads := threads s;
      next_id := next_id s; saveMu := saveMu s; requests := requests s; saved := saved s;
      published := published s ++ [r]; invalidations := invalidations s |}
  | StopTimer id => {| co := co s; now := now s; timers := delete id (timers s); threads := threads s;
      next_id := next_id s; saveMu := saveMu s; requests := requests s; saved := saved s;
      published := published s; invalidations := invalidations s |}
  | AfterFunc id d => {| co := co s; now := now s; timers := <[id := (now s + d)%Z]> (timers s);
      threads := threads s; next_id := S (next_id s); saveMu := saveMu s; requests := requests s;
      saved := saved s; published := published s; invalidations := invalidations s |}
  end.

Definition run_effects (l : list effect) (s : sys) : sys := foldl (flip run_effect) s l.

Definition with_co (c : SaveCoordinator) (s : sys) : sys := {|
  co := c; now := now s; timers := timers s; threads := threads s; next_id := next_id s;
  saveMu := saveMu s; requests := requests s; saved := saved s; published := published s;
  invalidations := invalidations s |}.
Definition with_threads (m : gmap nat thread) (s : sys) : sys := {|
  co := co s; now := now s; timers := timers s; threads := m; next_id := next_id s;
  saveMu := saveMu s; requests := requests s; saved := saved s; published := published s;
  invalidations := invalidations s |}.
Definition goto (i : nat) (t : thread) (s : sys) : sys := with_threads (<[i := t]> (threads s)) s.
Definition exit (i : nat) (s : sys) : sys := with_threads (delete i (threads s)) s.
Definition spawn (t : thread) (s : sys) : sys :=
  let s' := goto (next_id s) t s in {|
  co := co s'; now := now s'; timers := timers s'; threads := threads s'; next_id := S (next_id s');
  saveMu := saveMu s'; requests := requests s'; saved := saved s'; published := published s';
  invalidations := invalidations s' |}.

Definition start_post (i : nat) (t : nat → thread) (s : sys) : option sys :=
  if saveMu s then None
  else Some (goto i (t (requests s)) {|
    co := co s; now := now s; timers := timers s; threads := threads s; next_id := next_id s;
    saveMu := true; requests := requests s; saved := saved s; published := published s;
    invalidations := invalidations s |}).
Definition end_post (i : nat) (g : nat) (t : thread) (r : option string) (s : sys) : sys :=
  goto i t {|
    co := co s; now := now s; timers := timers s; threads := threads s; next_id := next_id s;
    saveMu := false; requests := requests s;
    saved := match r with None => max g (saved s) | Some _ => saved s end;
    published := published s; invalidations := invalidations s |}.
Definition invalidate (s : sys) : sys := {|
  co := co s; now := now s; timers := timers s; threads := threads s; next_id := next_id s;
  saveMu := saveMu s; requests := requests s; saved := saved s; published := published s;
  invalidations := S (invalidations s) |}.

(** The goroutine [i] runs to its next pause; [r]: what its POST returns. *)
Definition run_thread (i : nat) (r : option string) (s : sys) : option sys :=
  match threads s !! i with
  | None => None
  | Some Fire_start =>
      let '(c, eff, go) := fire_begin (co s) in
      let s := run_effects eff (with_co c s) in
      Some (if go then goto i Fire_save s else exit i s)
  | Some Fire_save => start_post i Fire_posting s
  | Some (Fire_posting g) => Some (end_post i g (Fire_posted r) r s)
  | Some (Fire_posted err) =>
      let '(c, eff, settle) := fire_end (now s) (next_id s) err (co s) in
      let s := run_effects eff (with_co c s) in
      Some (match settle with Some d => goto i (Fire_settle (now s + d)) s | None => exit i s end)
  | Some (Fire_settle t) =>
      if (now s <? t)%Z then None
      else Some (run_effects (if hasPublisher (co s) then [Publish "save-settled"] else [])
                   (invalidate (exit i s)))
  | Some Flush_save => start_post i Flush_posting s
  | Some (Flush_posting g) => Some (end_post i g (Flush_posted r) r s)
  | Some (Flush_posted err) =>
      let '(c, eff, inv) := flush_end (now s) err (co s) in
      let s := run_effects eff (with_co c s) in
      Some (if inv then goto i Flush_invalidate s else exit i s)
  | Some Flush_invalidate => Some (invalidate (exit i s))
  end.

Inductive event :=
  | Tick (d : Z)
  | CallRequest
  | CallFlush
  | TimerDue (id : nat)
  | Run (i : nat) (r : option string).

Definition exec (e : event) (s : sys) : option sys :=
  match e with
  | Tick d =>
      if (0 <=? d)%Z then Some {|
        co := co s; now := (now s + d)%Z; timers := timers s; threads := threads s;
        next_id := next_id s; saveMu := saveMu s; requests := requests s; saved := saved s;
        published := published s; invalidations := invalidations s |}
      else None
  | CallRequest =>
      let '(c, eff) := Request (now s) (next_id s) (co s) in
      let s := {|
        co := c; now := now s; timers := timers s; threads := threads s; next_id := next_id s;
        saveMu := saveMu s; requests := S (requests s); saved := saved s; published := published s;
        invalidations := invalidations s |} in
      Some (run_effects eff s)
  | CallFlush =>
      let '(c, eff) := flush_begin (co s) in
      Some (spawn Flush_save (run_effects eff (with_co c s)))
  | TimerDue id =>
      match timers s !! id with
      | None => None
      | Some due =>
          if (now s <? due)%Z then None
          else Some (spawn Fire_start (run_effect (StopTimer id) s))
      end
  | Run i r => run_thread i r s
  end.

Fixpoint exec_all (l : list event) (s : sys) : option sys :=
  match l with [] => Some s | e :: l' => s' ← exec e s; exec_all l' s' end.
