(* ===== verification/SaveProps.v ===== *)
(** * The save coordinator loses no request silently

    A request is accounted for as long as a timer or a goroutine will save it or
    the coordinator shows that it failed; every step keeps it so but two races
    with [Flush]; one of them is exhibited.  A burst cannot put its save off
    beyond [maxWait]. *)
From S2P Require Import Prelude GoLib SaveCoord.

(** ** What keeps a request alive *)

(** The goroutine will save everything requested so far ([n] requests), or go on
    to report a failure. *)
Definition will_save (n : nat) (th : thread) : Prop :=
  match th with
  | Fire_start | Fire_save | Flush_save => True
  | Fire_posting g | Flush_posting g => g = n
  | Fire_posted err | Flush_posted err => err ≠ None
  | Fire_settle _ | Flush_invalidate => False
  end.

Definition accounted (s : sys) : Prop :=
  (requests s ≤ saved s)%nat ∨ state (co s) = SaveStateFailed ∨
  (∃ id due, timers s !! id = Some due) ∨
  (∃ i th, threads s !! i = Some th ∧ will_save (requests s) th).

(** A [Flush] whose POST has not begun, or began after the last request. *)
Definition flush_covers (s : sys) : Prop :=
  map_Exists (λ _ th, th = Flush_save ∨ th = Flush_posting (requests s)) (threads s).

(** The two steps that can drop a request: [fire] leaves the work to a [Flush]
    whose POST had begun before the last request, and a late success is reported
    over the failure of a save that had begun after it. *)
Definition yields_late (e : event) (s : sys) : Prop :=
  ∃ i r th, e = Run i r ∧ threads s !! i = Some th ∧
    (th = Fire_start ∨ ∃ err, th = Fire_posted (Some err)) ∧
    flushInProgress (co s) = true ∧ ¬ flush_covers s.
Definition hides_failure (e : event) (s : sys) : Prop :=
  ∃ i r th, e = Run i r ∧ threads s !! i = Some th ∧
    (th = Fire_posted None ∧ flushInProgress (co s) = false ∨ th = Flush_posted None) ∧
    state (co s) = SaveStateFailed.
Definition drops (e : event) (s : sys) : Prop := yields_late e s ∨ hides_failure e s.

(** ** The effects *)

(** Effects touch the timers, the identities and the published hints only. *)
Lemma run_effects_frame l s :
  let s' := run_effects l s in
  co s' = co s ∧ threads s' = threads s ∧ requests s' = requests s ∧ saved s' = saved s ∧
  saveMu s' = saveMu s ∧ now s' = now s.
Proof.
  revert s. induction l as [|e l IH]; intros s; [done|]. unfold run_effects in *. simpl in *.
  destruct (IH (run_effect e s)) as (-> & -> & -> & -> & -> & ->). by destruct e.
Qed.

Lemma run_effects_arms pre id d post s :
  Forall (λ e, ∃ r, e = Publish r) post →
  timers (run_effects (pre ++ AfterFunc id d :: post) s) !! id = Some (now s + d)%Z.
Proof.
  intros Hp. destruct (run_effects_frame pre s) as (_ & _ & _ & _ & _ & <-).
  unfold run_effects. rewrite foldl_app. cbn [foldl flip].
  generalize (foldl (flip run_effect) s pre). intros s1.
  assert (∀ s2, timers (foldl (flip run_effect) s2 post) = timers s2) as ->.
  { induction Hp as [|e post [r ->] _ IH]; intros s2; [done|]. simpl. by rewrite IH. }
  simpl. by rewrite lookup_insert_eq.
Qed.

Lemma published_only (b : bool) r : Forall (λ e, ∃ r, e = Publish r) (if b then [Publish r] else []).
Proof. destruct b; [|constructor]. apply Forall_cons_2; [by exists r|constructor]. Qed.

(** *** One goroutine moves *)

Lemma accounted_thread s i th s' :
  threads s !! i = Some th → ¬ will_save (requests s) th → accounted s →
  (saved s ≤ saved s')%nat → requests s' = requests s → timers s' = timers s →
  (∀ j, i ≠ j → threads s' !! j = threads s !! j) →
  (state (co s) = SaveStateFailed → accounted s') → accounted s'.
Proof.
  intros Hi Hn Hacc Hs Hr Ht Hj Hf. destruct Hacc as [H|[H|[(id & due & H)|(j & th' & H & Hw)]]].
  - left. lia.
  - auto.
  - right; right; left. exists id, due. by rewrite Ht.
  - right; right; right. exists j, th'. rewrite Hr. split; [|done]. rewrite Hj; [done|].
    intros <-. by rewrite Hi in H; simplify_eq.
Qed.

Lemma accounted_goto s i th : will_save (requests s) th → accounted (goto i th s).
Proof. intros H. right; right; right. exists i, th. simpl. by rewrite lookup_insert_eq. Qed.

Lemma accounted_failed s : state (co s) = SaveStateFailed → accounted s.
Proof. unfold accounted. auto. Qed.

Lemma flush_covers_other s i th s' :
  flush_covers s → threads s !! i = Some th → (th ≠ Flush_save ∧ ∀ g, th ≠ Flush_posting g) →
  requests s' = requests s → (∀ j, i ≠ j → threads s' !! j = threads s !! j) → accounted s'.
Proof.
  intros (j & th' & Hj & Hc) Hi [Hth Hth'] Hr Hjs. right; right; right.
  assert (i ≠ j) as Hne by (intros <-; naive_solver).
  exists j, th'. rewrite Hjs, Hr by done. split; [done|]. by destruct Hc as [->| ->].
Qed.

(** *** The sections of [fire] and [Flush] *)

Lemma fire_start_accounted s i r s' :
  threads s !! i = Some Fire_start → run_thread i r s = Some s' → ¬ yields_late (Run i r) s → accounted s'.
Proof.
  intros Hi H Hno. unfold run_thread in H. rewrite Hi in H. unfold fire_begin in H. simpl in H.
  destruct (flushInProgress (co s)) eqn:Hf; simplify_eq/=.
  - destruct (base.decide (flush_covers s)) as [Hc|Hc].
    + eapply (flush_covers_other s i Fire_start); [done..|simpl]. intros j Hj. by rewrite lookup_delete_ne.
    + destruct Hno. exists i, r, Fire_start. auto 10.
  - by apply accounted_goto.
Qed.

Lemma fire_posted_accounted s i r err s' :
  threads s !! i = Some (Fire_posted err) → run_thread i r s = Some s' → accounted s →
  ¬ yields_late (Run i r) s → ¬ hides_failure (Run i r) s → accounted s'.
Proof.
  intros Hi H Hacc Hno Hno'. unfold run_thread in H. rewrite Hi in H. unfold fire_end in H.
  destruct (flushInProgress (co s)) eqn:Hf; [|destruct err as [e|]].
  - simplify_eq/=. destruct err as [e|].
    + destruct (base.decide (flush_covers s)) as [Hc|Hc].
      * eapply (flush_covers_other s i); [done..|simpl]. intros j Hj. by rewrite lookup_delete_ne.
      * destruct Hno. exists i, r, (Fire_posted (Some e)). eauto 10.
    + eapply (accounted_thread s i (Fire_posted None)); try done; simpl; [naive_solver| |].
      * intros j Hj. by rewrite lookup_delete_ne.
      * intros Hst. by apply accounted_failed.
  - simpl in H. destruct (_ <? _)%Z; simplify_eq/=.
    + apply accounted_failed. simpl. by rewrite (proj1 (run_effects_frame _ _)).
    + right; right; left. exists (next_id s). simpl.
      destruct (hasPublisher (co s)); simpl; rewrite lookup_insert_eq; eauto.
  - simpl in H. destruct (hasPublisher (co s)), ((0 <? settleDelay (co s))%Z && hasInvalidator (co s));
      simplify_eq/=; eapply (accounted_thread s i (Fire_posted None)); try done; simpl;
      first [ by intros Hst; destruct Hno'; exists i, r, (Fire_posted None); auto 10
            | by intros j Hj; rewrite ?lookup_insert_ne, ?lookup_delete_ne | naive_solver ].
Qed.

Lemma flush_posted_accounted s i r err s' :
  threads s !! i = Some (Flush_posted err) → run_thread i r s = Some s' → accounted s →
  ¬ hides_failure (Run i r) s → accounted s'.
Proof.
  intros Hi H Hacc Hno. unfold run_thread in H. rewrite Hi in H. unfold flush_end in H. simpl in H.
  destruct err as [e|].
  - simplify_eq/=. apply accounted_failed. simpl. by rewrite (proj1 (run_effects_frame _ _)).
  - destruct (hasPublisher (co s)), (hasInvalidator (co s)); simplify_eq/=;
      eapply (accounted_thread s i (Flush_posted None)); try done; simpl;
      first [ by intros Hst; destruct Hno; exists i, r, (Flush_posted None); auto 10
            | by intros j Hj; rewrite ?lookup_insert_ne, ?lookup_delete_ne | naive_solver ].
Qed.

Lemma posting_accounted s i g r th th' :
  threads s !! i = Some th → (th = Fire_posting g ∧ th' = Fire_posted r ∨ th = Flush_posting g ∧ th' = Flush_posted r) →
  accounted s → accounted (end_post i g th' r s).
Proof.
  intros Hi Hth Hacc. destruct r as [e|].
  - right; right; right. exists i, th'. simpl. rewrite lookup_insert_eq. split; [done|].
    by destruct Hth as [[_ ->]|[_ ->]].
  - destruct (base.decide (g = requests s)) as [->|Hg]; [left; simpl; lia|].
    eapply (accounted_thread s i th); try done; simpl; try lia.
    + by destruct Hth as [[-> _]|[-> _]].
    + intros j Hj. by rewrite lookup_insert_ne.
    + intros Hst. by apply accounted_failed.
Qed.

Lemma settle_accounted s i th s' :
  threads s !! i = Some th → ¬ will_save (requests s) th → accounted s →
  (s' = invalidate (exit i s) ∨ ∃ r, s' = run_effects [Publish r] (invalidate (exit i s))) → accounted s'.
Proof.
  intros Hi Hw Hacc Hs'. eapply (accounted_thread s i th); try done;
    destruct Hs' as [->|[r ->]]; simpl; try done; try (intros j Hj; by rewrite lookup_delete_ne);
    intros Hst; by apply accounted_failed.
Qed.

(** Every step keeps the requests accounted for, but the two that drop them. *)
Lemma accounted_step e s s' : accounted s → exec e s = Some s' → ¬ drops e s → accounted s'.
Proof.
  intros Hacc H Hno. assert (¬ yields_late e s ∧ ¬ hides_failure e s) as [Hy Hh] by (unfold drops in Hno; tauto).
  destruct e as [d| | |id|i r]; simpl in H.
  - destruct (0 <=? d)%Z; simplify_eq/=. exact Hacc.
  - simplify_eq/=. unfold Request, stop_timer. simpl. right; right; left.
    exists (next_id s). eexists. apply run_effects_arms, published_only.
  - unfold flush_begin in H. simpl in H. simplify_eq/=. by apply accounted_goto.
  - destruct (timers s !! id); [|done]. destruct (_ <? _)%Z; simplify_eq/=. by apply accounted_goto.
  - destruct (threads s !! i) as [th|] eqn:Hi; [|unfold run_thread in H; by rewrite Hi in H].
    destruct th.
    + by eapply fire_start_accounted.
    + unfold run_thread, start_post in H. rewrite Hi in H. destruct (saveMu s); simplify_eq/=. by apply accounted_goto.
    + unfold run_thread in H. rewrite Hi in H. simplify_eq/=. eapply posting_accounted; eauto.
    + by eapply fire_posted_accounted.
    + unfold run_thread in H. rewrite Hi in H. destruct (_ <? _)%Z; simplify_eq/=.
      eapply settle_accounted; [done|by intros ?|done|]. destruct (hasPublisher _); eauto.
    + unfold run_thread, start_post in H. rewrite Hi in H. destruct (saveMu s); simplify_eq/=. by apply accounted_goto.
    + unfold run_thread in H. rewrite Hi in H. simplify_eq/=. eapply posting_accounted; eauto.
    + by eapply flush_posted_accounted.
    + unfold run_thread in H. rewrite Hi in H. simplify_eq/=. eapply settle_accounted; [done|by intros ?|done|]. by left.
Qed.

(** ** No silent loss *)

Fixpoint never_drops (l : list event) (s : sys) : Prop :=
  match l with
  | [] => True
  | e :: l' => ¬ drops e s ∧ ∀ s', exec e s = Some s' → never_drops l' s'
  end.

Lemma accounted_all l s s' : accounted s → exec_all l s = Some s' → never_drops l s → accounted s'.
Proof.
  revert s. induction l as [|e l IH]; intros s Hacc H Hn; [by simplify_eq/=|].
  simpl in H. apply bind_Some in H as (s1 & He & H). destruct Hn as [Hd Hn].
  apply (IH s1); [by eapply accounted_step|done|auto].
Qed.

(** C24: Once nothing is armed and nothing runs, every requested save has been written
    to flash or the coordinator shows that it failed: in every interleaving of
    requests, timers, flushes and POSTs, whatever the POSTs return, in which no
    [fire] leaves its work to a [Flush] that began its POST too early and no late
    success hides a later failure. *)
Theorem no_silent_loss c t l s :
  exec_all l (init c t) = Some s → never_drops l (init c t) →
  timers s = ∅ → threads s = ∅ → state (co s) ≠ SaveStateFailed → (requests s ≤ saved s)%nat.
Proof.
  intros H Hn Ht Hth Hst. assert (accounted s) as Hacc.
  { eapply accounted_all; [|done|done]. left. simpl. lia. }
  destruct Hacc as [?|[?|[(id & due & Hid)|(i & th & Hi & _)]]]; [done|done| |].
  - by rewrite Ht in Hid.
  - by rewrite Hth in Hi.
Qed.

(** A run in which no flush is under way and no failure shown drops nothing. *)
Fixpoint quiet (l : list event) (s : sys) : bool :=
  negb (flushInProgress (co s)) && bool_decide (state (co s) ≠ SaveStateFailed) &&
  match l with
  | [] => true
  | e :: l' => match exec e s with Some s' => quiet l' s' | None => true end
  end.

Lemma quiet_never_drops l s : quiet l s = true → never_drops l s.
Proof.
  revert s. induction l as [|e l IH]; intros s H; [done|]. cbn [quiet] in H. to_prop. split.
  - intros [(i & r & th & _ & _ & _ & Hf & _)|(i & r & th & _ & _ & _ & Hf)]; congruence.
  - intros s' He. apply IH. by rewrite He in H0.
Qed.

(** Two requests, one save, which settles before the cache is invalidated. *)
Definition ex_burst : list event :=
  [CallRequest; Tick Second; CallRequest; Tick (3 * Second); TimerDue 1; Run 2 None; Run 2 None;
   Run 2 None; Run 2 None; Tick (2 * Second); Run 2 None].

Lemma no_silent_loss_witness :
  ∃ s, exec_all ex_burst (init production 1) = Some s ∧ requests s = 2%nat ∧ invalidations s = 1%nat ∧
       (requests s ≤ saved s)%nat.
Proof.
  eexists. split; [vm_compute; reflexivity|]. split; [reflexivity|]. split; [reflexivity|].
  apply (no_silent_loss production 1 ex_burst); [vm_compute; reflexivity| |reflexivity..|discriminate].
  apply quiet_never_drops. vm_compute. reflexivity.
Defined.

(** A request can be lost without a trace although every POST succeeds: its timer
    is due while the POST of an earlier [Flush] is under way, [fire] leaves the
    work to that [Flush], which writes what was there when it began; the
    coordinator ends idle, with no timer armed and no request pending. *)
Theorem request_lost_to_flush :
  ∃ l s, exec_all l (init production 1) = Some s ∧
    Forall (λ e, ∀ i r, e = Run i r → r = None) l ∧
    timers s = ∅ ∧ threads s = ∅ ∧ state (co s) = SaveStateIdle ∧ pendingCount (co s) = 0%Z ∧
    (saved s < requests s)%nat.
Proof.
  exists [CallFlush; Run 0 None; CallRequest; Tick (3 * Second); TimerDue 1; Run 2 None;
          Run 0 None; Run 0 None; Run 0 None].
  eexists. split; [vm_compute; reflexivity|]. split; [|vm_compute; repeat split; lia].
  repeat (apply Forall_cons_2; [naive_solver|]). constructor.
Qed.

(** A request made while a save is under way is shown as saved: idle, none pending. *)
Example pending_shown_as_idle :
  ∃ s, exec_all [CallRequest; Tick (3 * Second); TimerDue 0; Run 1 None; Run 1 None; CallRequest;
                 Run 1 None; Run 1 None] (init production 1) = Some s ∧
    Status (co s) = {| State := SaveStateIdle; LastError := ""; LastSaveAt := 3000000001; PendingCount := 0 |} ∧
    timers s ≠ ∅ ∧ (saved s < requests s)%nat.
Proof. eexists. split; [vm_compute; reflexivity|]. vm_compute. repeat split; [done|lia]. Qed.

(** ** A burst is saved within [maxWait] *)

(** Identities in use are below the next one, so a new timer or goroutine never
    replaces another. *)
Definition fresh (s : sys) : Prop :=
  (∀ id due, timers s !! id = Some due → (id < next_id s)%nat) ∧
  (∀ i th, threads s !! i = Some th → (i < next_id s)%nat).

(** An armed timer, due [maxWait] after the first request of the batch at the
    latest (or overdue), or a [fire] that has been dispatched. *)
Definition batch_due (s : sys) : Prop :=
  firstAt (co s) ≠ 0%Z →
  (∃ id due, timers s !! id = Some due ∧ (due ≤ Z.max (firstAt (co s) + maxWait (co s)) (now s))%Z) ∨
  (∃ i, threads s !! i = Some Fire_start).

Lemma fresh_effect e s :
  (∀ id d, e = AfterFunc id d → id = next_id s) → fresh s → fresh (run_effect e s).
Proof.
  intros He [Ht Hth]. destruct e as [r|id|id d]; [done| |].
  - split; [|done]. simpl. intros id' due H. apply lookup_delete_Some in H as [_ H]. eauto.
  - rewrite (He id d eq_refl). split; simpl.
    + intros id' due [[<- _]|[_ H]]%lookup_insert_Some; [lia|]. apply Ht in H. lia.
    + intros i th H. apply Hth in H. lia.
Qed.

(** At most one timer is armed by a section, with the next identity. *)
Definition effects_ok (l : list effect) (n : nat) : Prop :=
  ∃ pre post, (l = pre ++ post ∨ ∃ d, l = pre ++ AfterFunc n d :: post) ∧
    Forall (λ e, ∀ id d, e ≠ AfterFunc id d) (pre ++ post).

Lemma fresh_passive l s : Forall (λ e, ∀ id d, e ≠ AfterFunc id d) l → fresh s →
  fresh (run_effects l s) ∧ next_id (run_effects l s) = next_id s.
Proof.
  intros H. revert s. induction H as [|e l He _ IH]; intros s Hs; [done|].
  destruct (IH (run_effect e s)) as [H1 H2].
  { apply fresh_effect; [|done]. intros id d ->. by destruct (He id d). }
  unfold run_effects in *. simpl. split; [done|]. rewrite H2. destruct e; [done..|]. by destruct (He id d).
Qed.

Lemma fresh_effects l s : effects_ok l (next_id s) → fresh s → fresh (run_effects l s).
Proof.
  intros (pre & post & Hl & [Hpre Hpost]%Forall_app) Hs.
  destruct (fresh_passive pre s Hpre Hs) as [H1 H2].
  destruct Hl as [->|[d ->]]; unfold run_effects in *; rewrite foldl_app.
  - by apply (fresh_passive post).
  - cbn [foldl]. apply (fresh_passive post); [done|]. apply fresh_effect; [|done].
    intros id d' [= <- <-]. by rewrite H2.
Qed.

Lemma fresh_goto i th s : (i < next_id s)%nat → fresh s → fresh (goto i th s).
Proof.
  intros Hi [Ht Hth]. split; [done|]. simpl. intros j th' [[<- _]|[_ H]]%lookup_insert_Some; [done|]. eauto.
Qed.
Lemma fresh_exit i s : fresh s → fresh (exit i s).
Proof. intros [Ht Hth]. split; [done|]. simpl. intros j th' [_ H]%lookup_delete_Some. eauto. Qed.
Lemma fresh_spawn th s : fresh s → fresh (spawn th s).
Proof.
  intros [Ht Hth]. split; simpl.
  - intros id due H%Ht. lia.
  - intros j th' [[<- _]|[_ H]]%lookup_insert_Some; [lia|]. apply Hth in H. lia.
Qed.

Lemma passive_pub (b : bool) r : Forall (λ e, ∀ id d, e ≠ AfterFunc id d) (if b then [Publish r] else []).
Proof. destruct b; [|constructor]. by apply Forall_cons_2. Qed.

Lemma passive_stop c : Forall (λ e, ∀ id d, e ≠ AfterFunc id d) (stop_timer c).
Proof. unfold stop_timer. destruct (timer c); [by apply Forall_cons_2|constructor]. Qed.

Lemma passive_ok l n : Forall (λ e, ∀ id d, e ≠ AfterFunc id d) l → effects_ok l n.
Proof. intros H. exists l, []. rewrite app_nil_r. auto. Qed.

Lemma run_thread_fresh i r s s' : fresh s → run_thread i r s = Some s' → fresh s'.
Proof.
  intros Hs H. unfold run_thread in H. destruct (threads s !! i) as [th|] eqn:Hi; [|done].
  pose proof (proj2 Hs i th Hi) as Hlt.
  assert (∀ l c, effects_ok l (next_id s) → fresh (run_effects l (with_co c s)) ∧
    (i < next_id (run_effects l (with_co c s)))%nat) as Heff.
  { intros l c Hl. assert (fresh (run_effects l (with_co c s))) as Hf by (by apply fresh_effects).
    split; [done|]. apply (proj2 Hf i th). by rewrite (proj1 (proj2 (run_effects_frame l _))). }
  destruct th; simpl in H; try (unfold start_post in H; destruct (saveMu s); simplify_eq; by apply fresh_goto).
  - unfold fire_begin in H. simpl in H. destruct (flushInProgress (co s)); simplify_eq; [by apply fresh_exit|].
    edestruct Heff as [H1 H2]; [apply passive_ok, passive_pub|]. by apply fresh_goto.
  - unfold fire_end in H. destruct (flushInProgress (co s)), err as [e|]; simpl in H; simplify_eq; try by apply fresh_exit.
    + destruct (_ <? _)%Z; simplify_eq; apply fresh_exit, Heff; [apply passive_ok, passive_pub|].
      exists (if hasPublisher (co s) then [Publish "state-change"] else []), []. rewrite app_nil_r.
      split; [eauto|apply passive_pub].
    + edestruct Heff as [H1 H2]; [apply passive_ok, passive_pub|].
      destruct (_ && _); [by apply fresh_goto|by apply fresh_exit].
  - destruct (_ <? _)%Z; simplify_eq. apply fresh_effects; [apply passive_ok, passive_pub|].
    by apply (fresh_exit i) in Hs.
  - unfold flush_end in H. destruct err as [e|]; simpl in H; simplify_eq.
    + apply fresh_exit, Heff, passive_ok, passive_pub.
    + edestruct Heff as [H1 H2]; [apply passive_ok, passive_pub|].
      destruct (hasInvalidator (co s)); [by apply fresh_goto|by apply fresh_exit].
  - simplify_eq. by apply (fresh_exit i) in Hs.
Qed.

Lemma exec_fresh e s s' : fresh s → exec e s = Some s' → fresh s'.
Proof.
  intros Hs H. destruct e as [d| | |id|i r]; simpl in H.
  - destruct (0 <=? d)%Z; by simplify_eq.
  - simplify_eq. apply fresh_effects; [|done]. simpl.
    exists (stop_timer (co s)), (if hasPublisher (co s) then [Publish "state-change"] else []).
    split; [|apply Forall_app; split; [apply passive_stop|apply passive_pub]].
    right. unfold stop_timer. destruct (IsZero _); simpl; eauto.
  - simplify_eq. apply fresh_spawn, fresh_effects; [|done].
    apply passive_ok, Forall_app. split; [apply passive_stop|apply passive_pub].
  - destruct (timers s !! id); [|done]. destruct (_ <? _)%Z; simplify_eq.
    apply fresh_spawn. by apply (fresh_effect (StopTimer id)).
  - by eapply run_thread_fresh.
Qed.

Lemma batch_keep s s' :
  batch_due s → firstAt (co s') = firstAt (co s) → maxWait (co s') = maxWait (co s) → (now s ≤ now s')%Z →
  timers s ⊆ timers s' → (∀ j, threads s !! j = Some Fire_start → threads s' !! j = Some Fire_start) →
  batch_due s'.
Proof.
  intros Hb Hf Hm Hn Ht Hth H. rewrite Hf in H. rewrite Hf, Hm.
  destruct (Hb H) as [(id & due & Hid & Hd)|[j Hj]]; [left|right; eauto].
  exists id, due. split; [by eapply lookup_weaken|lia].
Qed.

Ltac keep s := apply (batch_keep s); simpl; first [done | lia | by auto].

Lemma run_thread_batch i r s s' :
  fresh s → batch_due s → run_thread i r s = Some s' → batch_due s'.
Proof.
  intros [Hfr _] Hb H. unfold run_thread in H. destruct (threads s !! i) as [th|] eqn:Hi; [|done].
  assert (∀ d, timers s ⊆ <[next_id s := d]> (timers s)) as Hins.
  { intros d. apply insert_subseteq. destruct (timers s !! next_id s) eqn:E; [|done]. apply Hfr in E. lia. }
  assert (th = Fire_start ∨ ∀ j, threads s !! j = Some Fire_start → j ≠ i) as [->|Hne].
  { destruct (base.decide (th = Fire_start)); [by left|right]. intros j Hj ->. congruence. }
  { unfold fire_begin in H. simpl in H. destruct (flushInProgress (co s)); simplify_eq/=; intros Hf; destruct Hf; [done|].
    simpl. by rewrite (proj1 (run_effects_frame _ _)). }
  assert (∀ j t, threads s !! j = Some Fire_start → <[i := t]> (threads s) !! j = Some Fire_start) as Hgo.
  { intros j t Hj. rewrite lookup_insert_ne; [done|]. intros <-. by apply (Hne i). }
  assert (∀ j, threads s !! j = Some Fire_start → delete i (threads s) !! j = Some Fire_start) as Hex.
  { intros j Hj. rewrite lookup_delete_ne; [done|]. intros <-. by apply (Hne i). }
  destruct th as [| |g|err|t| |g|err|]; simpl in H.
  - by destruct (Hne i).
  - unfold start_post in H. destruct (saveMu s); simplify_eq/=. keep s.
  - simplify_eq/=. keep s.
  - unfold fire_end in H. destruct (flushInProgress (co s)); [simplify_eq/=; keep s|].
    destruct err as [e|]; simpl in H.
    + destruct (_ <? _)%Z, (hasPublisher (co s)); simplify_eq/=; keep s.
    + destruct (_ && _), (hasPublisher (co s)); simplify_eq/=; keep s.
  - destruct (_ <? _)%Z, (hasPublisher (co s)); simplify_eq/=; keep s.
  - unfold start_post in H. destruct (saveMu s); simplify_eq/=. keep s.
  - simplify_eq/=. keep s.
  - unfold flush_end in H. destruct err as [e|]; simpl in H;
      destruct (hasInvalidator (co s)), (hasPublisher (co s)); simplify_eq/=; keep s.
  - simplify_eq/=. keep s.
Qed.

Lemma exec_batch e s s' : fresh s → batch_due s → exec e s = Some s' → batch_due s'.
Proof.
  intros Hf Hb H. destruct e as [d| | |id|i r]; simpl in H.
  - destruct (Z.leb_spec 0 d); simplify_eq/=. keep s.
  - unfold Request in H. cbv zeta in H. cbn [setStateLocked] in H. simplify_eq. intros _. left.
    exists (next_id s). eexists. split; [apply run_effects_arms, published_only|].
    match goal with |- context [firstAt (co (run_effects ?l ?s1))] =>
      destruct (run_effects_frame l s1) as (-> & _ & _ & _ & _ & ->) end.
    destruct (IsZero (firstAt (co s))); simpl; unfold time_Sub, min_duration, max_duration;
      destruct (Z.ltb_spec (firstAt (co s) + maxWait (co s)) (now s + debounce (co s)));
      destruct (Z.ltb_spec (now s + maxWait (co s)) (now s + debounce (co s))); lia.
  - simplify_eq/=. intros Hne. destruct Hne. simpl. by rewrite (proj1 (run_effects_frame _ _)).
  - destruct (timers s !! id); [|done]. destruct (_ <? _)%Z; simplify_eq/=. intros _. right.
    exists (next_id s). simpl. by rewrite lookup_insert_eq.
  - by eapply run_thread_batch.
Qed.

(** Requests cannot put a save off for ever: while a batch is open a timer is armed
    that is due at most [maxWait] after the first request of the batch, however
    many requests follow (or it is overdue), or a [fire] has been dispatched. *)
Theorem burst_saved_within_maxWait c t l s :
  firstAt c = 0%Z → exec_all l (init c t) = Some s → firstAt (co s) ≠ 0%Z →
  (∃ id due, timers s !! id = Some due ∧ (due ≤ Z.max (firstAt (co s) + maxWait (co s)) (now s))%Z) ∨
  (∃ i, threads s !! i = Some Fire_start).
Proof.
  intros Hc H Hne. revert Hne. change (batch_due s).
  assert (∀ s0, fresh s0 → batch_due s0 → exec_all l s0 = Some s → batch_due s) as Hall.
  { clear. induction l as [|e l IH]; intros s0 Hf Hb H; [by simplify_eq/=|].
    simpl in H. apply bind_Some in H as (s1 & He & H).
    apply (IH s1); [by eapply exec_fresh|by eapply exec_batch|done]. }
  apply (Hall _) in H; [done| |by intros Hf].
  split; simpl; [intros id due Hid|intros i th Hi]; by rewrite lookup_empty in *.
Qed.

(** A request every two seconds: the last one waits for two more only. *)
Definition ex_hold : list event :=
  [CallRequest; Tick (2 * Second); CallRequest; Tick (2 * Second); CallRequest;
   Tick (2 * Second); CallRequest; Tick (2 * Second); CallRequest].

Lemma burst_saved_within_maxWait_witness :
  ∃ s, exec_all ex_hold (init production 1) = Some s ∧
    ((∃ id due, timers s !! id = Some due ∧ (due ≤ Z.max (firstAt (co s) + maxWait (co s)) (now s))%Z) ∨
     (∃ i, threads s !! i = Some Fire_start)).
Proof.
  eexists. split; [vm_compute; reflexivity|].
  apply (burst_saved_within_maxWait production 1 ex_hold); [done|vm_compute; reflexivity|done].
Defined.
