(* ===== verification/Cache.v ===== *)
(** * The NDMS read caches ([internal/ndms/cache])

    [ttl.go]: entries valid for a fixed time; [singleflight.go]: callers of one
    key share one execution; [keyedstore.go], [liststore.go]: a read through the
    cache with stale-on-error.  Every critical section is one function; the
    program around them is a step function over the goroutines that call [Get]
    (a [ListStore] is the store with the one key [tt]). *)
From S2P Require Import Prelude GoLib.

(** ** TTL ([ttl.go]) *)

Section ttl.
Context {K : Type} `{Countable K} {V : Type}.

Record ttlEntry := { value : V; setAt : Time }.
Record TTL := { ttl : Duration; ttl_m : gmap K ttlEntry }.

Definition NewTTL (d : Duration) : TTL := {| ttl := d; ttl_m := ∅ |}.
Definition ttl_Set (now : Time) (k : K) (v : V) (c : TTL) : TTL :=
  {| ttl := ttl c; ttl_m := <[k := {| value := v; setAt := now |}]> (ttl_m c) |}.
Definition ttl_Get (now : Time) (k : K) (c : TTL) : option V :=
  match ttl_m c !! k with
  | None => None
  | Some e => if (ttl c <? time_Sub now (setAt e))%Z then None else Some (value e)
  end.
Definition ttl_Peek (k : K) (c : TTL) : option V := value <$> ttl_m c !! k.
Definition ttl_Invalidate (k : K) (c : TTL) : TTL :=
  {| ttl := ttl c; ttl_m := delete k (ttl_m c) |}.
Definition ttl_InvalidateAll (c : TTL) : TTL := {| ttl := ttl c; ttl_m := ∅ |}.
Definition ttl_Len (c : TTL) : nat := size (ttl_m c).

(** ** SingleFlight ([singleflight.go]) *)

(** What [fn] returned: an error or a value. *)
Abbreviation result := (string + V)%type.

(** A call, by the identity of its [*sfCall]: its key and, once [wg.Done] has run,
    its result. *)
Record SingleFlight := { inFlight : gmap K nat; calls : gmap nat (K * option result) }.

Definition NewSingleFlight : SingleFlight := {| inFlight := ∅; calls := ∅ |}.

Inductive entered := Joins (c : nat) | Leads (c : nat).

(** [Do] up to [s.mu.Unlock()]; [c]: the identity of a new call. *)
Definition Do_enter (k : K) (c : nat) (s : SingleFlight) : entered * SingleFlight :=
  match inFlight s !! k with
  | Some call => (Joins call, s)
  | None => (Leads c, {| inFlight := <[k := c]> (inFlight s); calls := <[c := (k, None)]> (calls s) |})
  end.

(** [call.value, call.err = fn(); call.wg.Done()] *)
Definition Do_done (k : K) (c : nat) (r : result) (s : SingleFlight) : SingleFlight :=
  {| inFlight := inFlight s; calls := <[c := (k, Some r)]> (calls s) |}.

(** [delete(s.inFlight, k)] *)
Definition Do_delete (k : K) (s : SingleFlight) : SingleFlight :=
  {| inFlight := delete k (inFlight s); calls := calls s |}.

(** [call.wg.Wait()]: [None] while the call runs. *)
Definition Do_wait (c : nat) (s : SingleFlight) : option result := '(_, r) ← calls s !! c; r.

(** ** KeyedStore ([keyedstore.go]) *)

(** [s.fetch(ctx, key)] is abstract: [fetched] is what it returned.  The rest of the
    closure [Get] hands to [Do]: stale on error, [Set] on success. *)
Definition after_fetch (now : Time) (k : K) (fetched : result) (c : TTL) : result * TTL :=
  match fetched with
  | inl err =>
      match ttl_Peek k c with
      | Some stale => (inr stale, c)
      | None => (inl err, c)
      end
  | inr v => (inr v, ttl_Set now k v c)
  end.
End ttl.
Arguments TTL : clear implicits.
Arguments TTL K {_ _} V.
Arguments SingleFlight : clear implicits.
Arguments SingleFlight K {_ _} V.

(** ** The program around a store

    The upstream is the router: its state is a version that every change
    increases, and a successful fetch returns the version it saw, so a value
    tells how old the data it stands for is. *)
Section store.
Context {K : Type} `{Countable K}.

Abbreviation version := nat (only parsing).

(** Where a goroutine is in [Get]. *)
Inductive reader :=
  | Get_start (k : K)
  | Get_miss (k : K) (* about to enter Do *)
  | Waiting (k : K) (c : nat)
  | Fetching (k : K) (c : nat)
  | Fetched (k : K) (c : nat) (r : string + version)
  | Finished (k : K) (c : nat) (r : string + version) (* fn has returned *)
  | Deleting (k : K) (c : nat) (r : string + version) (* wg.Done has run *)
  | Returned (k : K) (r : string + version).

Record store := {
  st_ttl : TTL K version;
  st_sf : SingleFlight K version;
  st_now : Time;
  st_upstream : version;
  st_readers : gmap nat reader;
  st_next : nat;
}.

Definition NewKeyedStore (d : Duration) (now : Time) : store := {|
  st_ttl := NewTTL d; st_sf := NewSingleFlight; st_now := now; st_upstream := 0;
  st_readers := ∅; st_next := 0 |}.

Definition set_reader (i : nat) (r : reader) (s : store) : store := {|
  st_ttl := st_ttl s; st_sf := st_sf s; st_now := st_now s; st_upstream := st_upstream s;
  st_readers := <[i := r]> (st_readers s); st_next := st_next s |}.
Definition set_ttl (c : TTL K version) (s : store) : store := {|
  st_ttl := c; st_sf := st_sf s; st_now := st_now s; st_upstream := st_upstream s;
  st_readers := st_readers s; st_next := st_next s |}.
Definition set_sf (f : SingleFlight K version) (s : store) : store := {|
  st_ttl := st_ttl s; st_sf := f; st_now := st_now s; st_upstream := st_upstream s;
  st_readers := st_readers s; st_next := st_next s |}.
Definition take_id (s : store) : store := {|
  st_ttl := st_ttl s; st_sf := st_sf s; st_now := st_now s; st_upstream := st_upstream s;
  st_readers := st_readers s; st_next := S (st_next s) |}.

(** The goroutine [i] runs to its next pause; [fails]: its fetch ends in that error. *)
Definition run_reader (i : nat) (fails : option string) (s : store) : option store :=
  r ← st_readers s !! i;
  match r with
  | Get_start k =>
      Some (match ttl_Get (st_now s) k (st_ttl s) with
            | Some v => set_reader i (Returned k (inr v)) s
            | None => set_reader i (Get_miss k) s
            end)
  | Get_miss k =>
      let '(e, sf) := Do_enter k (st_next s) (st_sf s) in
      Some (take_id (set_sf sf (set_reader i
        (match e with Joins c => Waiting k c | Leads c => Fetching k c end) s)))
  | Waiting k c => r ← Do_wait c (st_sf s); Some (set_reader i (Returned k r) s)
  | Fetching k c =>
      Some (set_reader i (Fetched k c
        (match fails with Some err => inl err | None => inr (st_upstream s) end)) s)
  | Fetched k c f =>
      let '(r, c') := after_fetch (st_now s) k f (st_ttl s) in
      Some (set_ttl c' (set_reader i (Finished k c r) s))
  | Finished k c r => Some (set_sf (Do_done k c r (st_sf s)) (set_reader i (Deleting k c r) s))
  | Deleting k c r => Some (set_sf (Do_delete k (st_sf s)) (set_reader i (Returned k r) s))
  | Returned _ _ => None
  end.

Inductive cache_event :=
  | Pass (d : Z)
  | Change (* of the upstream *)
  | CallGet (k : K)
  | Invalidate (k : K)
  | InvalidateAll
  | RunReader (i : nat) (fails : option string).

Definition cache_step (e : cache_event) (s : store) : option store :=
  match e with
  | Pass d =>
      if (0 <=? d)%Z then Some {|
        st_ttl := st_ttl s; st_sf := st_sf s; st_now := (st_now s + d)%Z; st_upstream := st_upstream s;
        st_readers := st_readers s; st_next := st_next s |}
      else None
  | Change => Some {|
      st_ttl := st_ttl s; st_sf := st_sf s; st_now := st_now s; st_upstream := S (st_upstream s);
      st_readers := st_readers s; st_next := st_next s |}
  | CallGet k => Some (take_id (set_reader (st_next s) (Get_start k) s))
  | Invalidate k => Some (set_ttl (ttl_Invalidate k (st_ttl s)) s)
  | InvalidateAll => Some (set_ttl (ttl_InvalidateAll (st_ttl s)) s)
  | RunReader i fails => run_reader i fails s
  end.

Fixpoint cache_run (l : list cache_event) (s : store) : option store :=
  match l with [] => Some s | e :: l' => s' ← cache_step e s; cache_run l' s' end.
End store.
