(* ===== verification/CacheProps.v ===== *)
(** * The read caches: coalescing and coherence

    At most one fetch per key runs and no waiter is stranded; a read that starts
    after an invalidation sees data from after it, provided no fetch of the key
    was in flight; without the proviso old data is served for a whole TTL. *)
From S2P Require Import Prelude GoLib Cache.

Section props.
Context {K : Type} `{Countable K}.
Implicit Types (s : store (K := K)) (k : K) (c i : nat).

(** The goroutine executes the call [c] of key [k]. *)
Definition leads (r : reader (K := K)) : option (K * nat) :=
  match r with
  | Fetching k c | Fetched k c _ | Finished k c _ | Deleting k c _ => Some (k, c)
  | _ => None
  end.

(** Its result is not out yet. *)
Definition running (r : reader (K := K)) : option (K * nat) :=
  match r with
  | Fetching k c | Fetched k c _ | Finished k c _ => Some (k, c)
  | _ => None
  end.

Record store_inv s : Prop := {
  inv_readers : ∀ i r, st_readers s !! i = Some r → (i < st_next s)%nat;
  inv_calls : ∀ c x, calls (st_sf s) !! c = Some x → (c < st_next s)%nat;
  inv_flight : ∀ k c, inFlight (st_sf s) !! k = Some c → ∃ r, calls (st_sf s) !! c = Some (k, r);
  inv_leads : ∀ i r k c, st_readers s !! i = Some r → leads r = Some (k, c) →
    inFlight (st_sf s) !! k = Some c;
  inv_one : ∀ i j r r' k c c', st_readers s !! i = Some r → st_readers s !! j = Some r' →
    leads r = Some (k, c) → leads r' = Some (k, c') → i = j;
  inv_flies : ∀ k c, inFlight (st_sf s) !! k = Some c →
    (∃ i r, st_readers s !! i = Some r ∧ leads r = Some (k, c)) ;
  inv_done : ∀ i k c r, st_readers s !! i = Some (Deleting k c r) → calls (st_sf s) !! c = Some (k, Some r);
  inv_waits : ∀ i k c, st_readers s !! i = Some (Waiting k c) →
    (∃ r, calls (st_sf s) !! c = Some (k, Some r)) ∨
    (calls (st_sf s) !! c = Some (k, None) ∧ ∃ j r, st_readers s !! j = Some r ∧ running r = Some (k, c));
  inv_pending : ∀ i r k c, st_readers s !! i = Some r → running r = Some (k, c) →
    calls (st_sf s) !! c = Some (k, None);
}.

Lemma cache_init_inv d t : store_inv (NewKeyedStore d t).
Proof. by split. Qed.

Lemma running_leads r k c : running r = Some (k, c) → leads r = Some (k, c).
Proof. by destruct r. Qed.

Ltac look :=
  repeat match goal with
  | H : <[_ := _]> _ !! _ = Some _ |- _ => apply lookup_insert_Some in H as [[? ?]|[? H]]
  | H : delete _ _ !! _ = Some _ |- _ => apply lookup_delete_Some in H as [? H]
  end; simplify_eq/=.

(** A step of [i] that touches neither the calls nor the flights and leads the same. *)
Lemma inv_move s i r r' ttl' :
  store_inv s → st_readers s !! i = Some r → leads r' = leads r → running r' = running r →
  (∀ k c, r' ≠ Waiting k c) → (∀ k c x, r' ≠ Deleting k c x) →
  store_inv (set_ttl ttl' (set_reader i r' s)).
Proof.
  intros [I1 I2 I3 I4 I5 I6 I7 I8 I9] Hi Hl Hr Hw Hd. split; simpl; intros.
  - look; eauto.
  - eauto.
  - eauto.
  - look; [rewrite Hl in *|]; eauto.
  - look; try done; rewrite ?Hl in *; eauto.
  - destruct (I6 k c) as (j & q & Hj & Hq); [done|]. destruct (base.decide (i = j)) as [<-|].
    + simplify_eq. exists i, r'. rewrite lookup_insert_eq, Hl. auto.
    + exists j, q. rewrite lookup_insert_ne; auto.
  - look; [naive_solver|eauto].
  - look; [naive_solver|]. destruct (I8 i0 k c) as [?|(Hc & j & q & Hj & Hq)]; [done|auto|right].
    split; [done|]. destruct (base.decide (i = j)) as [<-|].
    + simplify_eq. exists i, r'. rewrite lookup_insert_eq, Hr. auto.
    + exists j, q. rewrite lookup_insert_ne; auto.
  - look; [rewrite Hr in *|]; eauto.
Qed.

Lemma inv_ext s s' :
  store_inv s → st_readers s' = st_readers s → st_sf s' = st_sf s → (st_next s ≤ st_next s')%nat → store_inv s'.
Proof.
  intros [I1 I2 I3 I4 I5 I6 I7 I8 I9] Hr Hf Hn. split; rewrite ?Hr, ?Hf; try assumption.
  - intros i r Hi%I1. lia.
  - intros c x Hc%I2. lia.
Qed.

(** A goroutine that leads nothing stops waiting. *)
Lemma inv_return s i r k x :
  store_inv s → st_readers s !! i = Some r → leads r = None → store_inv (set_reader i (Returned k x) s).
Proof.
  intros Hs Hi Hl. assert (running r = None) as Hr by (by destruct r).
  by apply (inv_move s i r (Returned k x) (st_ttl s)).
Qed.

Lemma inv_new s k : store_inv s → store_inv (take_id (set_reader (st_next s) (Get_start k) s)).
Proof.
  intros [I1 I2 I3 I4 I5 I6 I7 I8 I9].
  assert (st_readers s !! st_next s = None) as Hn.
  { destruct (st_readers s !! st_next s) eqn:E; [|done]. apply I1 in E. lia. }
  assert (∀ j q, st_readers s !! j = Some q → <[st_next s := Get_start k]> (st_readers s) !! j = Some q) as Hk.
  { intros j q Hj. rewrite lookup_insert_ne; [done|]. intros <-. congruence. }
  split; simpl; intros.
  - look; [lia|]. assert (i < st_next s)%nat by eauto. lia.
  - assert (c < st_next s)%nat by eauto. lia.
  - eauto.
  - look; eauto.
  - look; eauto.
  - destruct (I6 k0 c) as (j & q & Hj & Hq); eauto.
  - look; eauto.
  - look. destruct (I8 i k0 c) as [?|(Hc & j & q & Hj & Hq)]; [done|auto|right; eauto 10].
  - look; eauto.
Qed.

Lemma inv_join s i k c :
  store_inv s → st_readers s !! i = Some (Get_miss k) → inFlight (st_sf s) !! k = Some c →
  store_inv (set_reader i (Waiting k c) s).
Proof.
  intros [I1 I2 I3 I4 I5 I6 I7 I8 I9] Hi Hc.
  assert (∀ j q k' c', st_readers s !! j = Some q → leads q = Some (k', c') →
    <[i := Waiting k c]> (st_readers s) !! j = Some q) as Hk.
  { intros j q k' c' Hj Hq. rewrite lookup_insert_ne; [done|]. intros <-. by simplify_eq. }
  assert ((∃ r, calls (st_sf s) !! c = Some (k, Some r)) ∨
    (calls (st_sf s) !! c = Some (k, None) ∧ ∃ j r, st_readers s !! j = Some r ∧ running r = Some (k, c))) as Hw.
  { destruct (I6 k c Hc) as (j & q & Hj & Hq). destruct q; simpl in Hq; simplify_eq;
      [right; split; [eauto|eexists j, _; eauto]..|left; eauto]. }
  split; simpl; intros.
  - look; eauto.
  - eauto.
  - eauto.
  - look; eauto.
  - look; eauto.
  - destruct (I6 k0 c0) as (j & q & Hj & Hq); eauto.
  - look; eauto.
  - look.
    + destruct Hw as [?|(? & j & q & Hj & Hq)]; [auto|right; eauto 10 using running_leads].
    + destruct (I8 i0 k0 c0) as [?|(? & j & q & Hj & Hq)]; [done|auto|right; eauto 10 using running_leads].
  - look; eauto.
Qed.

Ltac led_by Hk :=
  match goal with
  | H1 : st_readers _ !! _ = Some ?q, H2 : leads ?q = Some _ |- _ => by destruct (Hk _ _ _ _ H1 H2)
  end.

Lemma inv_lead s i k :
  store_inv s → st_readers s !! i = Some (Get_miss k) → inFlight (st_sf s) !! k = None →
  let c := st_next s in
  store_inv (take_id (set_sf {| inFlight := <[k := c]> (inFlight (st_sf s));
    calls := <[c := (k, None)]> (calls (st_sf s)) |} (set_reader i (Fetching k c) s))).
Proof.
  intros [I1 I2 I3 I4 I5 I6 I7 I8 I9] Hi Hc c.
  assert (calls (st_sf s) !! c = None) as Hn.
  { destruct (calls (st_sf s) !! c) eqn:E; [|done]. apply I2 in E. unfold c in E. lia. }
  assert (∀ d x, calls (st_sf s) !! d = Some x → <[c := (k, None)]> (calls (st_sf s)) !! d = Some x) as Hcs.
  { intros d x Hd. rewrite lookup_insert_ne; [done|]. intros <-. congruence. }
  assert (∀ j q k' c', st_readers s !! j = Some q → leads q = Some (k', c') →
    <[i := Fetching k c]> (st_readers s) !! j = Some q ∧ k' ≠ k) as Hk.
  { intros j q k' c' Hj Hq. split; [|intros ->; rewrite (I4 _ _ _ _ Hj Hq) in Hc; done].
    rewrite lookup_insert_ne; [done|]. intros <-. by simplify_eq. }
  split; simpl; intros.
  - look; [|assert (i0 < st_next s)%nat by eauto; lia]. assert (i0 < st_next s)%nat by eauto. lia.
  - look; [lia|]. assert (c0 < st_next s)%nat by eauto. lia.
  - look; [exists None; apply lookup_insert_eq|]. destruct (I3 k0 c0) as [r Hr]; eauto.
  - look; [by rewrite lookup_insert_eq|]. destruct (Hk i0 r k0 c0) as [_ Hne]; [done..|].
    rewrite lookup_insert_ne; eauto.
  - look; [done|led_by Hk..|eauto].
  - look; [eexists i, _; rewrite lookup_insert_eq; done|].
    destruct (I6 k0 c0) as (j & q & Hj & Hq); [done|]. exists j, q. by destruct (Hk j q k0 c0).
  - look; eauto.
  - look. destruct (I8 i0 k0 c0) as [[? ?]|(? & j & q & Hj & Hq)]; [done|eauto|right].
    split; [eauto|]. exists j, q. split; [|done]. by destruct (Hk j q k0 c0 Hj (running_leads _ _ _ Hq)).
  - look; [apply lookup_insert_eq|eauto].
Qed.

Lemma inv_finish s i k c r :
  store_inv s → st_readers s !! i = Some (Finished k c r) →
  store_inv (set_sf (Do_done k c r (st_sf s)) (set_reader i (Deleting k c r) s)).
Proof.
  intros [I1 I2 I3 I4 I5 I6 I7 I8 I9] Hi.
  assert (calls (st_sf s) !! c = Some (k, None)) as Hc by (by eapply I9).
  assert (∀ j q k' c', i ≠ j → st_readers s !! j = Some q → leads q = Some (k', c') → c' ≠ c) as Hoth.
  { intros j q k' c' Hne Hj Hq ->. destruct (I3 k' c) as [x Hx]; [by eapply I4|]. rewrite Hc in Hx.
    injection Hx as <- _. destruct Hne. by eapply (I5 i j). }
  assert (∀ k' d x, calls (st_sf s) !! d = Some (k', x) → ∃ y, <[c := (k, Some r)]> (calls (st_sf s)) !! d = Some (k', y)) as Hcs.
  { intros k' d x Hd. destruct (base.decide (c = d)) as [<-|].
    - exists (Some r). rewrite lookup_insert_eq. by rewrite Hc in Hd; simplify_eq.
    - exists x. by rewrite lookup_insert_ne. }
  split; simpl; intros.
  - look; eauto.
  - look; eauto.
  - destruct (I3 k0 c0) as [x Hx]; eauto.
  - look; eauto.
  - look; eauto.
  - destruct (I6 k0 c0) as (j & q & Hj & Hq); [done|]. destruct (base.decide (i = j)) as [<-|].
    + simplify_eq/=. eexists i, _. by rewrite lookup_insert_eq.
    + exists j, q. by rewrite lookup_insert_ne.
  - look; [by rewrite lookup_insert_eq|]. rewrite lookup_insert_ne; [eauto|].
    intros ->. by eapply (Hoth i0).
  - look. destruct (I8 i0 k0 c0) as [[x Hx]|(Hx & j & q & Hj & Hq)]; [done| |].
    + left. rewrite lookup_insert_ne; [eauto|]. intros <-. congruence.
    + destruct (base.decide (c = c0)) as [<-|]; [left; exists r; rewrite lookup_insert_eq; congruence|right].
      rewrite !lookup_insert_ne by done. split; [done|]. exists j, q.
      rewrite lookup_insert_ne; [done|]. intros <-. by simplify_eq/=.
  - look. rewrite lookup_insert_ne; [eauto|]. intros ->. by eapply (Hoth i0); eauto using running_leads.
Qed.

Lemma inv_delete s i k c r :
  store_inv s → st_readers s !! i = Some (Deleting k c r) →
  store_inv (set_sf (Do_delete k (st_sf s)) (set_reader i (Returned k r) s)).
Proof.
  intros [I1 I2 I3 I4 I5 I6 I7 I8 I9] Hi.
  assert (∀ j q k' c', i ≠ j → st_readers s !! j = Some q → leads q = Some (k', c') → k ≠ k') as Hoth.
  { intros j q k' c' Hne Hj Hq <-. destruct Hne. by eapply (I5 i j). }
  split; simpl; intros.
  - look; eauto.
  - eauto.
  - look; eauto.
  - look. rewrite lookup_delete_ne; eauto.
  - look; eauto.
  - look. destruct (I6 k0 c0) as (j & q & Hj & Hq); [done|]. exists j, q. rewrite lookup_insert_ne; [done|].
    intros <-. by simplify_eq/=.
  - look; eauto.
  - look. destruct (I8 i0 k0 c0) as [?|(Hx & j & q & Hj & Hq)]; [done|auto|right]. split; [done|].
    exists j, q. rewrite lookup_insert_ne; [done|]. intros <-. by simplify_eq/=.
  - look; eauto.
Qed.

Lemma step_inv e s s' : store_inv s → cache_step e s = Some s' → store_inv s'.
Proof.
  intros Hs He. destruct e as [d| |k|k| |i fails]; simpl in He.
  - destruct (0 <=? d)%Z; simplify_eq. by apply (inv_ext s).
  - simplify_eq. by apply (inv_ext s).
  - simplify_eq. by apply inv_new.
  - simplify_eq. by apply (inv_ext s).
  - simplify_eq. by apply (inv_ext s).
  - unfold run_reader in He. destruct (st_readers s !! i) as [r|] eqn:Hi; [|done]. simpl in He.
    destruct r as [k|k|k c|k c|k c f|k c r|k c r|k r].
    + simplify_eq. destruct (ttl_Get _ _ _); [by apply (inv_return s i (Get_start k))|].
      by apply (inv_move s i (Get_start k) (Get_miss k) (st_ttl s)).
    + unfold Do_enter in He. destruct (inFlight (st_sf s) !! k) as [c|] eqn:Hc; simplify_eq.
      * apply (inv_ext (set_reader i (Waiting k c) s)); [by apply inv_join|done|done|simpl; lia].
      * exact (inv_lead s i k Hs Hi Hc).
    + apply bind_Some in He as (x & _ & He). simplify_eq. by apply (inv_return s i (Waiting k c)).
    + simplify_eq. by apply (inv_move s i (Fetching k c) (Fetched k c _) (st_ttl s)).
    + destruct (after_fetch _ _ _ _) as [x c']. simplify_eq.
      by apply (inv_move s i (Fetched k c f) (Finished k c x) c').
    + simplify_eq. by apply inv_finish.
    + simplify_eq. by eapply inv_delete.
    + done.
Qed.

Lemma run_inv l s s' : store_inv s → cache_run l s = Some s' → store_inv s'.
Proof.
  revert s. induction l as [|e l IH]; intros s Hs H1; [by simplify_eq/=|].
  simpl in H1. apply bind_Some in H1 as (s1 & He & H1). eapply IH; [by eapply step_inv|done].
Qed.

(** However the readers of a store interleave with changes, invalidations and failing
    fetches, at most one of them fetches a key at a time, and a reader that waits
    for another's fetch has its result or a running fetch that will bring it: none
    is stranded. *)
Theorem reads_coalesce d t l s :
  cache_run l (NewKeyedStore d t) = Some s →
  (∀ i j k c c', st_readers s !! i = Some (Fetching k c) → st_readers s !! j = Some (Fetching k c') → i = j) ∧
  (∀ i k c, st_readers s !! i = Some (Waiting k c) →
     (∃ r, Do_wait c (st_sf s) = Some r) ∨
     (∃ j r, st_readers s !! j = Some r ∧ running r = Some (k, c))).
Proof.
  intros Hrun. destruct (run_inv _ _ _ (cache_init_inv d t) Hrun) as [I1 I2 I3 I4 I5 I6 I7 I8 I9]. split.
  - intros i j k c c' Hi Hj. by eapply (I5 i j).
  - intros i k c Hi. destruct (I8 i k c Hi) as [[r Hr]|(_ & j & r & Hj & Hr)]; [left|right; eauto].
    exists r. unfold Do_wait. by rewrite Hr.
Qed.

(** ** Coherence with the upstream *)

(** Nothing the cache can still hand out for [k] to a reader with an identity from
    [n] on is older than version [T]. *)
Definition new_enough (k : K) (T n : nat) (i : nat) (r : reader) : Prop :=
  match r with
  | Fetched k' _ (inr v) | Finished k' _ (inr v) | Deleting k' _ (inr v) => k' = k → (T ≤ v)%nat
  | Waiting k' c => k' = k → (n ≤ i)%nat → (n ≤ c)%nat
  | Returned k' (inr v) => k' = k → (n ≤ i)%nat → (T ≤ v)%nat
  | _ => True
  end.

Record coherent k (T n : nat) s : Prop := {
  coh_up : (T ≤ st_upstream s)%nat;
  coh_next : (n ≤ st_next s)%nat;
  coh_entry : ∀ e, ttl_m (st_ttl s) !! k = Some e → (T ≤ value e)%nat;
  coh_flight : ∀ c, inFlight (st_sf s) !! k = Some c → (n ≤ c)%nat;
  coh_calls : ∀ c v, calls (st_sf s) !! c = Some (k, Some (inr v)) → (n ≤ c)%nat → (T ≤ v)%nat;
  coh_readers : ∀ i r, st_readers s !! i = Some r → new_enough k T n i r;
}.

(** A step of one reader that leaves calls and flights as they are. *)
Lemma coherent_move k T n s i r' ttl' :
  coherent k T n s → new_enough k T n i r' → (∀ e, ttl_m ttl' !! k = Some e → (T ≤ value e)%nat) →
  coherent k T n (set_ttl ttl' (set_reader i r' s)).
Proof. intros [C1 C2 C3 C4 C5 C6] Hr Ht. split; simpl; auto. intros. look; auto. Qed.

Lemma coherent_ext k T n s s' :
  coherent k T n s → (st_upstream s ≤ st_upstream s')%nat → (st_next s ≤ st_next s')%nat →
  (∀ e, ttl_m (st_ttl s') !! k = Some e → ttl_m (st_ttl s) !! k = Some e) →
  st_sf s' = st_sf s → st_readers s' = st_readers s → coherent k T n s'.
Proof.
  intros [C1 C2 C3 C4 C5 C6] ? ? Ht Hf Hr. split; rewrite ?Hf, ?Hr; auto; lia.
Qed.

Lemma ttl_Get_entry now k (c : TTL K nat) v : ttl_Get now k c = Some v → ∃ e, ttl_m c !! k = Some e ∧ value e = v.
Proof.
  unfold ttl_Get. destruct (ttl_m c !! k) as [e|]; [|done]. destruct (_ <? _)%Z; [done|].
  intros [= <-]. by exists e.
Qed.

Lemma run_reader_coherent k T n s i fails s' :
  store_inv s → coherent k T n s → run_reader i fails s = Some s' → coherent k T n s'.
Proof.
  intros Hs Hc He. pose proof Hc as [C1 C2 C3 C4 C5 C6].
  unfold run_reader in He. destruct (st_readers s !! i) as [r|] eqn:Hi; [|done]. simpl in He.
  pose proof (C6 i r Hi) as Hn.
  destruct r as [k'|k'|k' c|k' c|k' c f|k' c r|k' c r|k' r].
  - simplify_eq. destruct (ttl_Get _ _ _) as [v|] eqn:Hg.
    + apply (coherent_move k T n s i (Returned k' (inr v)) (st_ttl s)); [done| |done].
      intros -> _. destruct (ttl_Get_entry _ _ _ _ Hg) as (e & Hin & <-). eauto.
    + by apply (coherent_move k T n s i (Get_miss k') (st_ttl s)).
  - unfold Do_enter in He. destruct (inFlight (st_sf s) !! k') as [c|] eqn:Hf; simplify_eq.
    + apply (coherent_ext _ _ _ (set_ttl (st_ttl s) (set_reader i (Waiting k' c) s))); simpl; auto.
      apply coherent_move; [done| |done]. intros -> _. by apply C4.
    + split; simpl; auto.
      * intros c Hcf. look; [lia|auto].
      * intros c v Hcc. look; eauto.
      * intros j r Hj. look; [done|auto].
  - apply bind_Some in He as (x & Hw & He). simplify_eq.
    apply (coherent_move k T n s i (Returned k' x) (st_ttl s)); [done| |done].
    destruct x as [|v]; [done|]. intros -> Hni. unfold Do_wait in Hw.
    apply bind_Some in Hw as ([k2 r2] & Hcc & ->).
    assert (k2 = k) as ->.
    { destruct (inv_waits s Hs i k c Hi) as [[y Hy]|[Hy _]]; rewrite Hcc in Hy; by simplify_eq. }
    eapply C5; [done|]. by apply Hn.
  - simplify_eq. apply (coherent_move k T n s i (Fetched k' c _) (st_ttl s)); [done| |done].
    by destruct fails; simpl.
  - unfold after_fetch, ttl_Peek in He. destruct f as [err|v].
    + destruct (ttl_m (st_ttl s) !! k') as [e|] eqn:Hin; simpl in He; simplify_eq; apply coherent_move; auto.
      intros ->. eauto.
    + simplify_eq. apply coherent_move; [done|exact Hn|]. simpl. intros e Hin. look; [by apply Hn|auto].
  - simplify_eq. split; simpl; auto.
    + intros c' v Hcc Hle. look; [by apply Hn|eauto].
    + intros j q Hj. look; [exact Hn|auto].
  - simplify_eq. split; simpl; auto.
    + intros c' Hcf. look. auto.
    + intros j q Hj. look; [|auto]. destruct r; [done|]. intros -> _. by apply Hn.
  - done.
Qed.

Lemma step_coherent k T n e s s' :
  store_inv s → coherent k T n s → cache_step e s = Some s' → coherent k T n s'.
Proof.
  intros Hs Hc He. destruct e as [d| |k'|k'| |i fails]; simpl in He.
  - destruct (0 <=? d)%Z; simplify_eq. by apply (coherent_ext _ _ _ s).
  - simplify_eq. apply (coherent_ext _ _ _ s); simpl; auto.
  - simplify_eq. apply (coherent_ext _ _ _ (set_ttl (st_ttl s) (set_reader (st_next s) (Get_start k') s))); simpl; auto.
    apply coherent_move; [done|done|]. by apply Hc.
  - simplify_eq. apply (coherent_ext _ _ _ s); simpl; auto. intros e. by intros [_ ?]%lookup_delete_Some.
  - simplify_eq. apply (coherent_ext _ _ _ s); simpl; auto. intros e. by rewrite lookup_empty.
  - by eapply run_reader_coherent.
Qed.

Lemma run_coherent k T n l s s' :
  store_inv s → coherent k T n s → cache_run l s = Some s' → coherent k T n s'.
Proof.
  revert s. induction l as [|e l IH]; intros s Hs Hc H1; [by simplify_eq/=|].
  simpl in H1. apply bind_Some in H1 as (s1 & He & H1).
  eapply IH; [by eapply step_inv|by eapply step_coherent|done].
Qed.

Lemma coherent_invalidated k s :
  store_inv s → inFlight (st_sf s) !! k = None →
  coherent k (st_upstream s) (st_next s) (set_ttl (ttl_Invalidate k (st_ttl s)) s).
Proof.
  intros [I1 I2 I3 I4 I5 I6 I7 I8 I9] Hf. split; simpl; auto.
  - intros e. by rewrite lookup_delete_eq.
  - intros c Hc. congruence.
  - intros c v Hc%I2. lia.
  - intros i r Hi. pose proof (I1 i r Hi). pose proof (I4 i r) as Hl.
    destruct r as [| |k' c|k' c|k' c [|v]|k' c [|v]|k' c [|v]|k' [|v]]; simpl; try done; intros ->; try lia;
      by rewrite (Hl k c Hi eq_refl) in Hf.
Qed.

(** C22: After an invalidation with no fetch of the key in flight, every read that starts
    later returns data at least as new as the upstream was at the invalidation:
    also when it joins another reader's fetch, hits the cache, or is served stale
    data because its own fetch failed. *)
Theorem invalidate_then_read d t l1 l2 k s0 s1 s i v :
  cache_run l1 (NewKeyedStore d t) = Some s0 → inFlight (st_sf s0) !! k = None →
  cache_step (Invalidate k) s0 = Some s1 → cache_run l2 s1 = Some s →
  (st_next s0 ≤ i)%nat → st_readers s !! i = Some (Returned k (inr v)) →
  (st_upstream s0 ≤ v)%nat.
Proof.
  intros H1 Hf H2 H3 Hi Hr. pose proof (run_inv _ _ _ (cache_init_inv d t) H1) as Hs. simpl in H2. simplify_eq.
  pose proof (coherent_invalidated k s0 Hs Hf) as Hc.
  assert (store_inv (set_ttl (ttl_Invalidate k (st_ttl s0)) s0)) as Hs1 by (by apply (inv_ext s0)).
  pose proof (run_coherent _ _ _ _ _ _ Hs1 Hc H3) as [_ _ _ _ _ C6].
  by apply (C6 i _ Hr).
Qed.
End props.

(** ** Runs *)

(** [dnsProxyTTL], [objectGroupTTL], [policyTTL], [runningConfigTTL]: the longest
    lived stores. *)
Definition long_ttl : Duration := (60 * Minute)%Z.

Abbreviation ok i := (RunReader (K := string) i None).

(** Two readers coalesce on one fetch. *)
Definition ex_two_readers : list (cache_event (K := string)) :=
  [CallGet "k"; CallGet "k"; ok 0; ok 1; ok 0; ok 1].

Lemma reads_coalesce_witness :
  ∃ s, cache_run ex_two_readers (NewKeyedStore long_ttl 0) = Some s ∧
    st_readers s !! 0%nat = Some (Fetching "k" 2) ∧ st_readers s !! 1%nat = Some (Waiting "k" 2) ∧
    ∀ i j k c c', st_readers s !! i = Some (Fetching k c) → st_readers s !! j = Some (Fetching k c') → i = j.
Proof.
  eexists. split; [vm_compute; reflexivity|]. split; [reflexivity|]. split; [reflexivity|].
  apply (reads_coalesce long_ttl 0 ex_two_readers). vm_compute. reflexivity.
Defined.

(** A cached value, a change, an invalidation, a read that sees the change. *)
Definition ex_before : list (cache_event (K := string)) :=
  [CallGet "k"; ok 0; ok 0; ok 0; ok 0; ok 0; ok 0; Change].
Definition ex_after : list (cache_event (K := string)) :=
  [CallGet "k"; ok 2; ok 2; ok 2; ok 2; ok 2; ok 2].

Lemma invalidate_then_read_witness :
  ∃ s0 s1 s v, cache_run ex_before (NewKeyedStore long_ttl 0) = Some s0 ∧
    cache_step (Invalidate "k") s0 = Some s1 ∧ cache_run ex_after s1 = Some s ∧
    ttl_Get 0 "k" (st_ttl s0) = Some 0%nat ∧ st_readers s !! 2%nat = Some (Returned "k" (inr v)) ∧
    (st_upstream s0 ≤ v)%nat.
Proof.
  eexists _, _, _, _. split; [vm_compute; reflexivity|]. split; [vm_compute; reflexivity|].
  split; [vm_compute; reflexivity|]. split; [reflexivity|]. split; [vm_compute; reflexivity|].
  eapply (invalidate_then_read long_ttl 0 ex_before ex_after "k" _ _ _ 2);
    [vm_compute; reflexivity|reflexivity|vm_compute; reflexivity|vm_compute; reflexivity|simpl; lia|vm_compute; reflexivity].
Defined.

(** An invalidation during a fetch is lost: the fetch stores what it read before the
    change after the invalidation, and 59 minutes later a read that started after
    the invalidation is still served the old data, although no fetch ever failed. *)
Theorem invalidation_lost :
  ∃ l1 l2 s0 s (v : nat),
    cache_run (K := string) l1 (NewKeyedStore long_ttl 0) = Some s0 ∧
    cache_run (Invalidate "k" :: l2) s0 = Some s ∧
    Forall (λ e, ∀ i fails, e = RunReader i fails → fails = None) (l1 ++ l2) ∧
    (st_now s - st_now s0 = 59 * Minute)%Z ∧
    st_readers s !! st_next s0 = Some (Returned "k" (inr v)) ∧ (v < st_upstream s0)%nat.
Proof.
  exists [CallGet "k"; ok 0; ok 0; ok 0; Change],
    [ok 0; ok 0; ok 0; Pass (59 * Minute); CallGet "k"; ok 2].
  eexists _, _, _. split; [vm_compute; reflexivity|]. split; [vm_compute; reflexivity|]. split.
  { cbn [app]. repeat (apply Forall_cons_2; [naive_solver|]). constructor. }
  split; [reflexivity|]. split; [vm_compute; reflexivity|]. vm_compute. lia.
Qed.
