(* ===== verification/ClientRoute.v ===== *)
(** * Per-client policy routes

    [internal/storage/clientroute.go]: the stored routes and the routing tables
    allocated to tunnels; [internal/tunnel/ops/clientroute.go]: the operations on
    kernel rules and tables by the [ip] tool; [internal/clientroute]: the service.

    The [ip] tool is abstract ([IpTool]).  The service is written against the
    interface [RouteOperator], of which [clientRouteOps] is the implementation. *)
From S2P Require Import Prelude GoLib GoText.

(** ** Data ([clientroute/types.go]) *)

Record ClientRoute := {
  ID : string;
  ClientIP : string;
  ClientHostname : string;
  TunnelID : string;
  Fallback : string; (* "drop" or "bypass" *)
  Enabled : bool;
}.

#[export] Instance ClientRoute_eq_dec : EqDecision ClientRoute.
Proof. solve_decision. Defined.

Definition eta_route (r : ClientRoute) : ClientRoute := {|
  ID := ID r; ClientIP := ClientIP r; ClientHostname := ClientHostname r;
  TunnelID := TunnelID r; Fallback := Fallback r; Enabled := Enabled r |}.
Definition set_ID (v : string) (r : ClientRoute) : ClientRoute := ltac:(update_field eta_route ID v r).
Definition set_ClientIP (v : string) (r : ClientRoute) : ClientRoute :=
  ltac:(update_field eta_route ClientIP v r).
Definition set_ClientHostname (v : string) (r : ClientRoute) : ClientRoute :=
  ltac:(update_field eta_route ClientHostname v r).
Definition set_Enabled (v : bool) (r : ClientRoute) : ClientRoute := ltac:(update_field eta_route Enabled v r).

(** ** The store ([storage/clientroute.go])

    The data in memory, the file (its data, a text that is not valid JSON, or none)
    and the outcome of the coming file-system accesses, [true] for an error. *)
Record clientRouteData := { Routes : list ClientRoute; Tables : gmap string Z }.

Definition defaultClientRouteData : clientRouteData := {| Routes := []; Tables := ∅ |}.

Inductive cr_file := CrData (d : clientRouteData) | CrCorrupt (raw : string).

Record ClientRouteStore := {
  data : clientRouteData;
  cr_disk : option cr_file;
  cr_faults : list bool;
}.

Definition cr_fault (s : ClientRouteStore) : bool * ClientRouteStore :=
  match cr_faults s with
  | [] => (false, s)
  | b :: bs => (b, {| data := data s; cr_disk := cr_disk s; cr_faults := bs |})
  end.

Definition set_data (d : clientRouteData) (s : ClientRouteStore) : ClientRouteStore :=
  {| data := d; cr_disk := cr_disk s; cr_faults := cr_faults s |}.
Definition set_disk (f : option cr_file) (s : ClientRouteStore) : ClientRouteStore :=
  {| data := data s; cr_disk := f; cr_faults := cr_faults s |}.

(** A file that cannot be read is taken for a missing one; a corrupt file is moved
    aside, unless that fails too. *)
Definition loadUnlocked (s : ClientRouteStore) : ClientRouteStore :=
  match cr_disk s with
  | None => set_data defaultClientRouteData s
  | Some f =>
      let '(bad, s) := cr_fault s in
      if bad then set_data defaultClientRouteData s
      else match f with
      | CrCorrupt _ =>
          let '(stuck, s) := cr_fault s in
          set_data defaultClientRouteData (if stuck then s else set_disk None s)
      | CrData d => set_data d s
      end
  end.

Definition saveUnlocked (s : ClientRouteStore) : option string * ClientRouteStore :=
  let '(bad, s) := cr_fault s in
  if bad then (Some "write client routes file", s) else (None, set_disk (Some (CrData (data s))) s).

Definition cr_Get (id : string) (s : ClientRouteStore) : option ClientRoute :=
  List.find (λ r, String.eqb (ID r) id) (Routes (data s)).
Definition FindByClientIP (ip : string) (s : ClientRouteStore) : option ClientRoute :=
  List.find (λ r, String.eqb (ClientIP r) ip) (Routes (data s)).
Definition FindByTunnel (tunnelID : string) (s : ClientRouteStore) : list ClientRoute :=
  filter (λ r, TunnelID r = tunnelID) (Routes (data s)).

Definition set_routes (l : list ClientRoute) (s : ClientRouteStore) : ClientRouteStore :=
  set_data {| Routes := l; Tables := Tables (data s) |} s.
Definition set_tables (m : gmap string Z) (s : ClientRouteStore) : ClientRouteStore :=
  set_data {| Routes := Routes (data s); Tables := m |} s.

Definition cr_Add (r : ClientRoute) (s : ClientRouteStore) : option string * ClientRouteStore :=
  let s := loadUnlocked s in
  saveUnlocked (set_routes (Routes (data s) ++ [r]) s).

(** The first route with the ID is replaced; [None]: there is none. *)
Fixpoint replace_route (r : ClientRoute) (l : list ClientRoute) : option (list ClientRoute) :=
  match l with
  | [] => None
  | r' :: l' => if String.eqb (ID r') (ID r) then Some (r :: l') else cons r' <$> replace_route r l'
  end.
Fixpoint remove_route (id : string) (l : list ClientRoute) : option (list ClientRoute) :=
  match l with
  | [] => None
  | r' :: l' => if String.eqb (ID r') id then Some l' else cons r' <$> remove_route id l'
  end.

Definition cr_Update (r : ClientRoute) (s : ClientRouteStore) : option string * ClientRouteStore :=
  let s := loadUnlocked s in
  match replace_route r (Routes (data s)) with
  | Some l => saveUnlocked (set_routes l s)
  | None => (Some "client route not found", s)
  end.

Definition cr_Remove (id : string) (s : ClientRouteStore) : option string * ClientRouteStore :=
  let s := loadUnlocked s in
  match remove_route id (Routes (data s)) with
  | Some l => saveUnlocked (set_routes l s)
  | None => (Some "client route not found", s)
  end.

Definition RemoveByTunnel (tunnelID : string) (s : ClientRouteStore) : option string * ClientRouteStore :=
  let s := loadUnlocked s in
  saveUnlocked (set_routes (filter (λ r, TunnelID r ≠ tunnelID) (Routes (data s))) s).

Definition GetTableForTunnel (tunnelID : string) (s : ClientRouteStore) : option Z :=
  Tables (data s) !! tunnelID.

Definition table_range : list Z := Z.of_nat <$> seq 400 200.

Definition AllocateTable (tunnelID : string) (usedTables : list Z) (s : ClientRouteStore)
  : (string + Z) * ClientRouteStore :=
  let s := loadUnlocked s in
  match Tables (data s) !! tunnelID with
  | Some n => (inr n, s)
  | None =>
      let reserved := usedTables ++ (map_to_list (Tables (data s))).*2 in
      match List.find (λ n, bool_decide (n ∉ reserved)) table_range with
      | Some n =>
          let '(e, s) := saveUnlocked (set_tables (<[tunnelID := n]> (Tables (data s))) s) in
          (match e with Some e => inl e | None => inr n end, s)
      | None => (inl "no free routing table numbers in range 400-599", s)
      end
  end.

Definition FreeTable (tunnelID : string) (s : ClientRouteStore) : option string * ClientRouteStore :=
  let s := loadUnlocked s in
  saveUnlocked (set_tables (delete tunnelID (Tables (data s))) s).

Definition DeleteFile (s : ClientRouteStore) : option string * ClientRouteStore :=
  match cr_disk s with
  | None => (None, set_data defaultClientRouteData s)
  | Some _ =>
      let '(bad, s) := cr_fault s in
      if bad then (Some "delete client routes file", s)
      else (None, set_data defaultClientRouteData (set_disk None s))
  end.

(** ** Kernel rules and tables ([tunnel/ops/clientroute.go]) *)

(** [c.run(ctx, "/opt/sbin/ip", args...)]: the output and the error. *)
Class IpTool (W : Type) := { ip_run : list string → ST W (string * option string) }.

(** [lookupRe], [lookup\s+(\d+)], at the head of the text: the digits and the rest. *)
Definition lookup_match (s : string) : option (string * string) :=
  if HasPrefix s "lookup" then
    let '(sp, s) := span_byte is_space_re (str_drop 6 s) in
    let '(ds, s) := span_byte is_digit s in
    if String.eqb sp "" || String.eqb ds "" then None else Some (ds, s)
  else None.

(** [FindAllStringSubmatch], leftmost first, without overlap; the fuel is the
    length of the text. *)
Fixpoint find_lookups (fuel : nat) (s : string) : list string :=
  match fuel, s with
  | S fuel, String _ s' =>
      match lookup_match s with
      | Some (ds, rest) => ds :: find_lookups fuel rest
      | None => find_lookups fuel s'
      end
  | _, _ => []
  end.

Definition parseRoutingTables `{GoArch} (output : string) : list Z :=
  merge_sort Z.le (remove_dups (omap Atoi (find_lookups (String.length output) output))).

(** [strings.Fields(line)[0]] of a trimmed ASCII line. *)
Definition first_field `{GoUnicode} (line : string) : string :=
  (span_byte (λ c, negb (ascii_space c)) (TrimSpace line)).1.

Fixpoint first_cidr `{GoUnicode} (lines : list string) : string :=
  match lines with
  | [] => ""
  | l :: lines =>
      let f := first_field l in
      if contains_byte "/" f then f else first_cidr lines
  end.

Definition parseLANSubnet `{GoUnicode} (output : string) : string :=
  first_cidr (split_byte newline output).

Section ops.
Context `{U : GoUnicode} `{A : GoArch} {W : Type} `{T : IpTool W}.

Definition detectLANSubnet : ST W string :=
  r ← ip_run ["route"; "show"; "dev"; "br0"];
  mret (match r.2 with Some _ => "" | None => parseLANSubnet r.1 end).

Definition ops_SetupClientRouteTable (kernelIface : string) (tableNum : Z) : ST W (option string) :=
  let tableStr := Itoa tableNum in
  r ← ip_run ["route"; "replace"; "default"; "dev"; kernelIface; "table"; tableStr];
  match r.2 with
  | Some e => mret (Some e)
  | None =>
      lanSubnet ← detectLANSubnet;
      if String.eqb lanSubnet "" then mret None
      else _ ← ip_run ["route"; "replace"; lanSubnet; "dev"; "br0"; "table"; tableStr]; mret None
  end.

Definition ops_AddClientRule (clientIP : string) (tableNum : Z) : ST W (option string) :=
  let tableStr := Itoa tableNum in
  _ ← ip_run ["rule"; "del"; "from"; clientIP; "lookup"; tableStr];
  r ← ip_run ["rule"; "add"; "from"; clientIP; "lookup"; tableStr; "priority"; tableStr];
  mret r.2.

Definition ops_RemoveClientRule (clientIP : string) (tableNum : Z) : ST W (option string) :=
  r ← ip_run ["rule"; "del"; "from"; clientIP; "lookup"; Itoa tableNum];
  mret r.2.

(** [for i := 0; i < n; i++]: until there are no more rules. *)
Fixpoint del_rules (n : nat) (tableStr : string) : ST W unit :=
  match n with
  | O => mret tt
  | S n =>
      r ← ip_run ["rule"; "del"; "lookup"; tableStr];
      match r.2 with Some _ => mret tt | None => del_rules n tableStr end
  end.

Definition ops_CleanupClientRouteTable (tableNum : Z) : ST W (option string) :=
  let tableStr := Itoa tableNum in
  _ ← ip_run ["route"; "flush"; "table"; tableStr];
  _ ← del_rules 100 tableStr;
  mret None.

Definition ops_ListUsedRoutingTables : ST W (string + list Z) :=
  r ← ip_run ["rule"; "list"];
  mret (match r.2 with Some e => inl e | None => inr (parseRoutingTables r.1) end).
End ops.

(** ** The service ([clientroute/service.go], [clientroute/impl.go]) *)

(** [Operator] *)
Class RouteOperator (W : Type) := {
  SetupClientRouteTable : string → Z → ST W (option string);
  AddClientRule : string → Z → ST W (option string);
  RemoveClientRule : string → Z → ST W (option string);
  CleanupClientRouteTable : Z → ST W (option string);
  ListUsedRoutingTables : ST W (string + list Z);
}.

#[export] Instance clientRouteOps `{GoUnicode} `{GoArch} {W} `{IpTool W} : RouteOperator W := {|
  SetupClientRouteTable := ops_SetupClientRouteTable;
  AddClientRule := ops_AddClientRule;
  RemoveClientRule := ops_RemoveClientRule;
  CleanupClientRouteTable := ops_CleanupClientRouteTable;
  ListUsedRoutingTables := ops_ListUsedRoutingTables;
|}.

(** [TunnelCatalog], as it answers during one call: whether a tunnel exists and, when
    it runs, its kernel interface. *)
Record TunnelCatalog := { Exists : string → bool; GetKernelIface : string → option string }.

Section service.
Context {W : Type} `{O : RouteOperator W}.

(** The store and the kernel. *)
Definition world : Type := ClientRouteStore * W.

Definition on_store {R} (f : ClientRouteStore → R * ClientRouteStore) : ST world R :=
  λ s, let '(r, c) := f s.1 in (r, (c, s.2)).
Definition see {R} (f : ClientRouteStore → R) : ST world R := λ s, (f s.1, s).
Definition on_kernel {R} (f : ST W R) : ST world R := λ s, let '(r, w) := f s.2 in (r, (s.1, w)).

(** Where the source only logs an error, the result is dropped. *)
Definition applyIfRunning (cat : TunnelCatalog) (route : ClientRoute) : ST world unit :=
  match GetKernelIface cat (TunnelID route) with
  | None => mret tt
  | Some kernelIface =>
      used ← on_kernel ListUsedRoutingTables;
      match used with
      | inl _ => mret tt
      | inr usedTables =>
          t ← on_store (AllocateTable (TunnelID route) usedTables);
          match t with
          | inl _ => mret tt
          | inr tableNum =>
              e ← on_kernel (SetupClientRouteTable kernelIface tableNum);
              match e with
              | Some _ => mret tt
              | None => _ ← on_kernel (AddClientRule (ClientIP route) tableNum); mret tt
              end
          end
      end
  end.

Definition removeRule (tunnelID clientIP : string) : ST world unit :=
  t ← see (GetTableForTunnel tunnelID);
  match t with
  | None => mret tt
  | Some tableNum => _ ← on_kernel (RemoveClientRule clientIP tableNum); mret tt
  end.

Definition cleanupTableIfEmpty (tunnelID excludeID : string) : ST world unit :=
  routes ← see (FindByTunnel tunnelID);
  if existsb (λ r, negb (String.eqb (ID r) excludeID) && Enabled r) routes then mret tt
  else
    t ← see (GetTableForTunnel tunnelID);
    match t with
    | None => mret tt
    | Some tableNum =>
        _ ← on_kernel (CleanupClientRouteTable tableNum);
        _ ← on_store (FreeTable tunnelID);
        mret tt
    end.

Definition valid_fallback (f : string) : bool := String.eqb f "drop" || String.eqb f "bypass".

(** [suffix]: what [randomAlphanumeric(10)] returns. *)
Definition Create `{GoArch} (cat : TunnelCatalog) (suffix : string) (route : ClientRoute)
  : ST world (string + ClientRoute) :=
  match ParseIP (ClientIP route) ≫= To4 with
  | None => mret (inl "invalid IPv4 address")
  | Some ip =>
      let route := set_ClientIP (ip4_String ip) route in
      if negb (valid_fallback (Fallback route)) then mret (inl "invalid fallback")
      else if negb (Exists cat (TunnelID route)) then mret (inl "tunnel not found")
      else
        existing ← see (FindByClientIP (ClientIP route));
        match existing with
        | Some _ => mret (inl "client IP already has a route")
        | None =>
            let route := set_ID ("cr-" +:+ suffix) route in
            e ← on_store (cr_Add route);
            match e with
            | Some e => mret (inl e)
            | None =>
                _ ← (if Enabled route then applyIfRunning cat route else mret tt);
                mret (inr route)
            end
        end
  end.

Definition Update (cat : TunnelCatalog) (route : ClientRoute) : ST world (string + ClientRoute) :=
  old ← see (cr_Get (ID route));
  match old with
  | None => mret (inl "client route not found")
  | Some old =>
      if negb (valid_fallback (Fallback route)) then mret (inl "invalid fallback")
      else if negb (Exists cat (TunnelID route)) then mret (inl "tunnel not found")
      else
        let route := set_ClientHostname (ClientHostname old) (set_ClientIP (ClientIP old) route) in
        let tunnelChanged := negb (String.eqb (TunnelID route) (TunnelID old)) in
        _ ← (if tunnelChanged && Enabled old then
               _ ← removeRule (TunnelID old) (ClientIP old);
               cleanupTableIfEmpty (TunnelID old) (ID old)
             else mret tt);
        e ← on_store (cr_Update route);
        match e with
        | Some e => mret (inl e)
        | None =>
            _ ← (if Enabled route && tunnelChanged then applyIfRunning cat route else mret tt);
            mret (inr route)
        end
  end.

Definition Delete (id : string) : ST world (option string) :=
  route ← see (cr_Get id);
  match route with
  | None => mret (Some "client route not found")
  | Some route =>
      _ ← (if Enabled route then removeRule (TunnelID route) (ClientIP route) else mret tt);
      _ ← cleanupTableIfEmpty (TunnelID route) (ID route);
      on_store (cr_Remove id)
  end.

Definition SetEnabled (cat : TunnelCatalog) (id : string) (enabled : bool) : ST world (option string) :=
  route ← see (cr_Get id);
  match route with
  | None => mret (Some "client route not found")
  | Some route =>
      if Bool.eqb (Enabled route) enabled then mret None
      else
        let route := set_Enabled enabled route in
        e ← on_store (cr_Update route);
        match e with
        | Some e => mret (Some e)
        | None =>
            _ ← (if enabled then applyIfRunning cat route
                 else _ ← removeRule (TunnelID route) (ClientIP route);
                      cleanupTableIfEmpty (TunnelID route) (ID route));
            mret None
        end
  end.

(** [for _, r := range l { f(r) }] *)
Fixpoint each {R} (f : R → ST world unit) (l : list R) : ST world unit :=
  match l with [] => mret tt | r :: l => _ ← f r; each f l end.

Definition enabled_routes (tunnelID : string) (s : ClientRouteStore) : list ClientRoute :=
  filter (λ r, Enabled r = true) (FindByTunnel tunnelID s).

Definition add_rules (l : list ClientRoute) (tableNum : Z) : ST world unit :=
  each (λ r, _ ← on_kernel (AddClientRule (ClientIP r) tableNum); mret tt) l.

Definition OnTunnelStart (tunnelID kernelIface : string) : ST world (option string) :=
  enabled ← see (enabled_routes tunnelID);
  match enabled with
  | [] => mret None
  | _ =>
      used ← on_kernel ListUsedRoutingTables;
      match used with
      | inl e => mret (Some e)
      | inr usedTables =>
          t ← on_store (AllocateTable tunnelID usedTables);
          match t with
          | inl e => mret (Some e)
          | inr tableNum =>
              e ← on_kernel (SetupClientRouteTable kernelIface tableNum);
              match e with
              | Some e => mret (Some e)
              | None => _ ← add_rules enabled tableNum; mret None
              end
          end
      end
  end.

Definition is_bypass (r : ClientRoute) : bool := String.eqb (Fallback r) "bypass".

Definition OnTunnelStop (tunnelID : string) : ST world (option string) :=
  t ← see (GetTableForTunnel tunnelID);
  match t with
  | None => mret None
  | Some tableNum =>
      enabled ← see (enabled_routes tunnelID);
      _ ← each (λ r, if is_bypass r
                     then _ ← on_kernel (RemoveClientRule (ClientIP r) tableNum); mret tt
                     else mret tt) enabled;
      let hasDropRules := existsb (λ r, negb (is_bypass r)) enabled in
      if hasDropRules then mret None
      else
        _ ← on_kernel (CleanupClientRouteTable tableNum);
        _ ← on_store (FreeTable tunnelID);
        mret None
  end.

Definition OnTunnelDelete (tunnelID : string) : ST world (option string) :=
  t ← see (GetTableForTunnel tunnelID);
  _ ← match t with
      | None => mret tt
      | Some tableNum =>
          enabled ← see (enabled_routes tunnelID);
          _ ← each (λ r, _ ← on_kernel (RemoveClientRule (ClientIP r) tableNum); mret tt) enabled;
          _ ← on_kernel (CleanupClientRouteTable tableNum);
          mret tt
      end;
  _ ← on_store (RemoveByTunnel tunnelID);
  _ ← match t with
      | None => mret tt
      | Some _ => _ ← on_store (FreeTable tunnelID); mret tt
      end;
  mret None.

(** [running]: the entries of the map of running tunnels in the order they are visited. *)
Definition Reconcile (running : list (string * string)) : ST world (option string) :=
  _ ← each (λ '(tunnelID, kernelIface), _ ← OnTunnelStart tunnelID kernelIface; mret tt) running;
  mret None.

(** [tables]: the entries of [GetAllTables] in the order they are visited. *)
Definition CleanupAll (tables : list (string * Z)) : ST world (option string) :=
  _ ← each (λ t, _ ← on_kernel (CleanupClientRouteTable t.2); mret tt) tables;
  on_store DeleteFile.
End service.
