(* ===== verification/ClientRouteLaws.v ===== *)
(** * Per-client policy routes: what the service relies on

    [IpLaws] states what the [ip] tool does to the policy rules of the kernel
    (a rule is the client it selects and the table it looks up), [RouteLaws] what
    the service expects of its operator; the operator of
    [tunnel/ops/clientroute.go] satisfies the second when the tool satisfies the
    first.  [simIp] is a tool that satisfies it, used by the concrete examples. *)
From S2P Require Import Prelude GoLib GoText ClientRoute.

(** ** The numbers [parseRoutingTables] finds *)

Definition not_l (c : ascii) : bool := negb (Ascii.eqb c "l").

(** A match starts with its only [l]. *)
Lemma lookup_match_inv s ds rest :
  lookup_match s = Some (ds, rest) → ∃ m, s = String "l" (m +:+ rest) ∧ str_forallb not_l m = true.
Proof.
  unfold lookup_match. destruct (HasPrefix s "lookup") eqn:Hpre; [|done].
  apply HasPrefix_inv in Hpre as [t ->].
  change (str_drop 6 ("lookup" +:+ t)) with (str_drop (String.length "lookup") ("lookup" +:+ t)).
  rewrite str_drop_app.
  pose proof (span_byte_spec is_space_re t) as Hsp. destruct (span_byte is_space_re t) as [sp t'].
  pose proof (span_byte_spec is_digit t') as Hd. destruct (span_byte is_digit t') as [d b].
  destruct Hsp as (-> & Hsp & _), Hd as (-> & Hd & _).
  case_match; [done|]. intros [= -> ->].
  exists ("ookup" +:+ sp +:+ ds). split; [by rewrite <- !str_app_assoc|].
  rewrite !str_forallb_app. simpl. apply andb_true_intro; split; revert Hsp Hd; clear.
  - intros Hsp _. revert Hsp. apply str_forallb_impl. intros c.
    by destruct c as [[] [] [] [] [] [] [] []].
  - intros _. apply str_forallb_impl. intros c. by destruct c as [[] [] [] [] [] [] [] []].
Qed.

Lemma after_match m rest a z :
  str_forallb not_l m = true → m +:+ rest = a +:+ String "l" z → ∃ a', rest = a' +:+ String "l" z.
Proof.
  revert a. induction m as [|c m IH]; intros a Hm E; [by exists a|].
  simpl in Hm. to_prop. destruct a as [|c' a]; [injection E as -> _; done|].
  injection E as -> E. by apply (IH a).
Qed.

Lemma lookup_match_here ds b :
  ds ≠ "" → str_forallb is_digit ds = true → (∀ c b', b = String c b' → is_digit c = false) →
  lookup_match ("lookup" +:+ " " +:+ ds +:+ b) = Some (ds, b).
Proof.
  intros Hne Hd Hb. unfold lookup_match. rewrite HasPrefix_app.
  change 6%nat with (String.length "lookup"). rewrite str_drop_app.
  rewrite (span_byte_app is_space_re " ") by
    (done || (intros c b'; destruct ds as [|c1 ds]; [done|]; intros [= -> _]; simpl in Hd; to_prop;
              revert H; clear; by destruct c as [[] [] [] [] [] [] [] []])).
  rewrite span_byte_app by done. by destruct ds.
Qed.

Lemma find_lookups_elem fuel a ds b :
  ds ≠ "" → str_forallb is_digit ds = true → (∀ c b', b = String c b' → is_digit c = false) →
  (String.length (a +:+ "lookup" +:+ " " +:+ ds +:+ b) ≤ fuel)%nat →
  ds ∈ find_lookups fuel (a +:+ "lookup" +:+ " " +:+ ds +:+ b).
Proof.
  intros Hne Hd Hb. pose proof (lookup_match_here ds b Hne Hd Hb) as Hhere.
  change ("lookup" +:+ " " +:+ ds +:+ b) with (String "l" ("ookup" +:+ " " +:+ ds +:+ b)) in *.
  set (z := "ookup" +:+ " " +:+ ds +:+ b) in *. clearbody z.
  revert a. induction fuel as [|fuel IH]; intros a Hlen; rewrite str_length_app in Hlen; simpl in Hlen; [lia|].
  destruct a as [|c a].
  { rewrite str_app_nil. cbn [find_lookups]. rewrite Hhere. by left. }
  rewrite str_app_cons. cbn [find_lookups]. simpl in Hlen.
  destruct (lookup_match (String c _)) as [[ds' rest]|] eqn:Hm.
  - right. apply lookup_match_inv in Hm as (m & Em & Hml). injection Em as -> Em.
    pose proof (f_equal String.length Em) as Hl. rewrite !str_length_app in Hl. simpl in Hl.
    destruct (after_match m rest a z Hml (eq_sym Em)) as [a' ->]. apply IH. lia.
  - apply IH. rewrite str_length_app. simpl. lia.
Qed.

Lemma parseRoutingTables_elem `{GoArch} a n b :
  (0 ≤ n < 2 ^ (int_bits - 1))%Z → (∀ c b', b = String c b' → is_digit c = false) →
  n ∈ parseRoutingTables (a +:+ "lookup" +:+ " " +:+ Itoa n +:+ b).
Proof.
  intros Hn Hb. unfold parseRoutingTables. rewrite merge_sort_Permutation, elem_of_remove_dups.
  apply list_elem_of_omap. exists (Itoa n). destruct (Itoa_digits n); [lia|].
  split; [by apply find_lookups_elem|by apply Atoi_Itoa].
Qed.

(** ** The [ip] tool *)

Class IpLaws (W : Type) `{IpTool W} := {
  ip_rules : W → gset (string * string);
  ip_route : ∀ args w, ip_rules (ip_run ("route" :: args) w).2 = ip_rules w;
  ip_rule_list : ∀ w, let '((out, err), w') := ip_run ["rule"; "list"] w in
    ip_rules w' = ip_rules w ∧
    (err = None → ∀ sel t, (sel, t) ∈ ip_rules w →
     ∃ a b, out = a +:+ "lookup" +:+ " " +:+ t +:+ b ∧ ∀ c b', b = String c b' → is_digit c = false);
  ip_rule_del_from : ∀ sel t w,
    ip_rules (ip_run ["rule"; "del"; "from"; sel; "lookup"; t] w).2 = ip_rules w ∖ {[(sel, t)]};
  ip_rule_add : ∀ sel t prio w,
    let '((_, err), w') := ip_run ["rule"; "add"; "from"; sel; "lookup"; t; "priority"; prio] w in
    ip_rules w' = match err with None => {[(sel, t)]} ∪ ip_rules w | Some _ => ip_rules w end;
  ip_rule_del_lookup : ∀ t w,
    let '((_, err), w') := ip_run ["rule"; "del"; "lookup"; t] w in
    match err with
    | None => ∃ sel, (sel, t) ∈ ip_rules w ∧ ip_rules w' = ip_rules w ∖ {[(sel, t)]}
    | Some _ => ip_rules w' = ip_rules w ∧ ∀ sel, (sel, t) ∉ ip_rules w
    end;
}.

(** ** The operator *)

Definition client_tables (n : Z) : Prop := (400 ≤ n ≤ 599)%Z.

Class RouteLaws (W : Type) `{RouteOperator W} := {
  has_rule : W → string → Z → Prop;
  law_setup : ∀ iface n w ip m, has_rule (SetupClientRouteTable iface n w).2 ip m ↔ has_rule w ip m;
  law_add : ∀ ip n w, let '(e, w') := AddClientRule ip n w in
    ∀ ip' m, has_rule w' ip' m ↔
      (has_rule w ip' m ∧ (ip', m) ≠ (ip, n)) ∨ (e = None ∧ (ip', m) = (ip, n));
  law_remove : ∀ ip n w ip' m,
    has_rule (RemoveClientRule ip n w).2 ip' m ↔ has_rule w ip' m ∧ (ip', m) ≠ (ip, n);
  (** other tables keep their rules, and at most 100 rules are removed *)
  law_cleanup : ∀ n w ip m, let w' := (CleanupClientRouteTable n w).2 in
    (has_rule w' ip m → has_rule w ip m) ∧ (m ≠ n → has_rule w ip m → has_rule w' ip m);
  law_cleanup_all : ∀ n w l, (∀ ip, has_rule w ip n → ip ∈ l) → (length l ≤ 100)%nat →
    ∀ ip, ¬ has_rule (CleanupClientRouteTable n w).2 ip n;
  law_list : ∀ w, let '(r, w') := ListUsedRoutingTables w in
    (∀ ip m, has_rule w' ip m ↔ has_rule w ip m) ∧
    (∀ used ip m, r = inr used → client_tables m → has_rule w ip m → m ∈ used);
}.

Section ops_laws.
Context `{U : GoUnicode} `{A : GoArch} {W : Type} `{T : IpTool W} `{L : !IpLaws W}.

Lemma del_rules_spec k t w :
  (∀ sel t', (sel, t') ∈ ip_rules (del_rules k t w).2 → (sel, t') ∈ ip_rules w) ∧
  (∀ sel t', t' ≠ t → (sel, t') ∈ ip_rules w → (sel, t') ∈ ip_rules (del_rules k t w).2) ∧
  (∀ l, (∀ sel, (sel, t) ∈ ip_rules w → sel ∈ l) → (length l ≤ k)%nat →
   ∀ sel, (sel, t) ∉ ip_rules (del_rules k t w).2).
Proof.
  revert w. induction k as [|k IH]; intros w.
  { split; [done|]. split; [done|]. intros [|] Hl Hlen sel Hsel; [|simpl in Hlen; lia].
    apply Hl in Hsel. set_solver. }
  cbn [del_rules]. unfold mbind, ST_bind.
  pose proof (ip_rule_del_lookup t w) as Hd. destruct (ip_run _ w) as [[out err] w'].
  cbn [snd]. destruct err.
  - destruct Hd as [E Hno]. cbn. rewrite E. split; [done|]. split; [done|]. intros; apply Hno.
  - destruct Hd as (sel0 & Hin & E). destruct (IH w') as (H1 & H2 & H3). rewrite E in *.
    split; [set_solver|]. split; [set_solver|].
    intros l Hl Hlen. apply (H3 (filter (.≠ sel0) l)).
    + intros sel Hsel. apply list_elem_of_filter. set_solver.
    + assert (length (filter (.≠ sel0) l) < length l)%nat; [|lia].
      apply (length_filter_lt _ _ sel0); [by apply Hl|]. intros Hn. by apply Hn.
Qed.

Lemma detectLANSubnet_rules w : ip_rules (detectLANSubnet w).2 = ip_rules w.
Proof.
  unfold detectLANSubnet, mbind, ST_bind. pose proof (ip_route ["show"; "dev"; "br0"] w) as E.
  by destruct (ip_run _ w).
Qed.

Lemma ops_setup_rules iface n w : ip_rules (ops_SetupClientRouteTable iface n w).2 = ip_rules w.
Proof.
  unfold ops_SetupClientRouteTable, mbind, ST_bind.
  pose proof (ip_route ["replace"; "default"; "dev"; iface; "table"; Itoa n] w) as E.
  destruct (ip_run _ w) as [[out [e|]] w1]; [done|]. simpl in *.
  pose proof (detectLANSubnet_rules w1) as E1. destruct (detectLANSubnet w1) as [lan w2]. simpl in *.
  destruct (String.eqb lan ""); [simpl; congruence|].
  pose proof (ip_route ["replace"; lan; "dev"; "br0"; "table"; Itoa n] w2) as E2.
  destruct (ip_run _ w2). simpl in *. congruence.
Qed.

#[export, program] Instance ops_laws : RouteLaws W (H := clientRouteOps) := {|
  has_rule w ip n := (ip, Itoa n) ∈ ip_rules w;
|}.
Next Obligation. intros. cbn -[del_rules]. by rewrite ops_setup_rules. Qed.
Next Obligation.
  intros ip n w. cbn -[del_rules]. unfold ops_AddClientRule, mbind, ST_bind.
  pose proof (ip_rule_del_from ip (Itoa n) w) as E. destruct (ip_run _ w) as [r w1]. cbn in E.
  pose proof (ip_rule_add ip (Itoa n) (Itoa n) w1) as E1.
  destruct (ip_run _ w1) as [[out err] w2]. cbn -[del_rules]. intros ip' m. rewrite E1, E.
  assert ((ip', Itoa m) = (ip, Itoa n) ↔ (ip', m) = (ip, n)) as Hinj by naive_solver.
  destruct err; set_solver.
Qed.
Next Obligation.
  intros ip n w ip' m. cbn -[del_rules]. unfold ops_RemoveClientRule, mbind, ST_bind.
  pose proof (ip_rule_del_from ip (Itoa n) w) as E. destruct (ip_run _ w) as [r w1]. cbn -[del_rules] in *.
  assert ((ip', Itoa m) = (ip, Itoa n) ↔ (ip', m) = (ip, n)) as Hinj by naive_solver.
  rewrite E. set_solver.
Qed.
Next Obligation.
  intros n w ip m. cbn -[del_rules]. unfold ops_CleanupClientRouteTable, mbind, ST_bind.
  pose proof (ip_route ["flush"; "table"; Itoa n] w) as E. destruct (ip_run _ w) as [r w1]. cbn -[del_rules] in *.
  destruct (del_rules_spec 100 (Itoa n) w1) as (H1 & H2 & _). rewrite E in *.
  destruct (del_rules 100 (Itoa n) w1) as [u w2]. cbn -[del_rules] in *. split; [apply H1|].
  intros Hne. apply H2. by intros ->%Itoa_inj.
Qed.
Next Obligation.
  intros n w l Hl Hlen. cbn -[del_rules]. unfold ops_CleanupClientRouteTable, mbind, ST_bind.
  pose proof (ip_route ["flush"; "table"; Itoa n] w) as E. destruct (ip_run _ w) as [r w1]. cbn -[del_rules] in *.
  destruct (del_rules_spec 100 (Itoa n) w1) as (_ & _ & H3). rewrite E in *.
  destruct (del_rules 100 (Itoa n) w1) as [u w2]. cbn -[del_rules] in *. by apply (H3 l).
Qed.
Next Obligation.
  intros w. cbn -[del_rules]. unfold ops_ListUsedRoutingTables, mbind, ST_bind.
  pose proof (ip_rule_list w) as E. destruct (ip_run _ w) as [[out err] w1]. cbn -[del_rules] in *.
  destruct E as [E Hout]. split; [by rewrite E|]. intros used ip m Hr [Hlo Hhi] Hin.
  destruct err; [done|]. simplify_eq. destruct (Hout eq_refl _ _ Hin) as (a & b & -> & Hb).
  apply parseRoutingTables_elem; [|done]. destruct int_bits_ok as [->| ->]; lia.
Qed.
End ops_laws.

(** ** A simulated tool

    It keeps the set of policy rules, and knows no LAN route. *)
Definition sim_line (r : string * string) : string :=
  ("0: from " +:+ r.1 +:+ " ") +:+ "lookup" +:+ " " +:+ r.2 +:+ nl.

Definition sim_run (args : list string) : ST (gset (string * string)) (string * option string) := λ w,
  match args with
  | ["rule"; "list"] => ((foldr (λ r s, sim_line r +:+ s) "" (elements w), None), w)
  | ["rule"; "del"; "from"; sel; "lookup"; t] =>
      if bool_decide ((sel, t) ∈ w) then (("", None), w ∖ {[(sel, t)]})
      else (("", Some "No such file or directory"), w)
  | ["rule"; "add"; "from"; sel; "lookup"; t; "priority"; _] => (("", None), {[(sel, t)]} ∪ w)
  | ["rule"; "del"; "lookup"; t] =>
      match List.find (λ r, String.eqb r.2 t) (elements w) with
      | Some r => (("", None), w ∖ {[r]})
      | None => (("", Some "No such file or directory"), w)
      end
  | _ => (("", None), w)
  end.

#[export] Instance simIp : IpTool (gset (string * string)) := {| ip_run := sim_run |}.

Lemma sim_list_elem l sel t :
  (sel, t) ∈ l → ∃ a b, foldr (λ r s, sim_line r +:+ s) "" l = a +:+ "lookup" +:+ " " +:+ t +:+ b ∧
    ∀ c b', b = String c b' → is_digit c = false.
Proof.
  induction l as [|x l IH]; [by intros ?%elem_of_nil|].
  intros [<-|(a & b & E & Hb)%IH]%elem_of_cons; cbn [foldr].
  - exists ("0: from " +:+ sel +:+ " "), (nl +:+ foldr (λ r s, sim_line r +:+ s) "" l).
    unfold sim_line. cbn [fst snd]. rewrite <- !str_app_assoc. split; [done|].
    unfold nl. by intros c b' [= <- _].
  - exists (sim_line x +:+ a), b. by rewrite E, <- str_app_assoc.
Qed.

#[export, program] Instance simIp_laws : IpLaws (gset (string * string)) := {| ip_rules w := w |}.
Next Obligation. done. Qed.
Next Obligation.
  intros w. split; [done|]. intros _ sel t Hin. eapply sim_list_elem. by apply elem_of_elements.
Qed.
Next Obligation. intros sel t w. cbn. case_bool_decide; cbn; set_solver. Qed.
Next Obligation. done. Qed.
Next Obligation.
  intros t w. cbn. destruct (List.find _ _) as [[sel t']|] eqn:E.
  - apply List.find_some in E as [Hin Ht]. simpl in Ht. to_prop. subst. exists sel.
    split; [|done]. by apply elem_of_elements, list_elem_of_In.
  - split; [done|]. intros sel Hin.
    assert (In (sel, t) (elements w)) as Hin' by (by apply list_elem_of_In, elem_of_elements).
    apply (List.find_none _ _ E) in Hin'. simpl in Hin'. by rewrite String.eqb_refl in Hin'.
Qed.
