(* ===== verification/ClientRouteProps.v ===== *)
(** * Per-client policy routes: the rules in the kernel are the stored ones

    The invariant [Inv]: the kernel holds the foreign rules (those of other
    programs), untouched, and besides them only rules of enabled routes, in the
    table the store has allocated to the tunnel of the route. *)
From S2P Require Import Prelude GoLib GoText ClientRoute ClientRouteLaws.

(** ** The store when no file access fails *)

Definition stored (d : clientRouteData) : ClientRouteStore :=
  {| data := d; cr_disk := Some (CrData d); cr_faults := [] |}.

Definition in_sync (c : ClientRouteStore) : Prop :=
  cr_faults c = [] ∧
  (cr_disk c = Some (CrData (data c)) ∨ (cr_disk c = None ∧ data c = defaultClientRouteData)).

Lemma load_sync c : in_sync c → loadUnlocked c = c.
Proof.
  intros [Hf [Hd|[Hd Hdef]]]; unfold loadUnlocked, cr_fault; rewrite Hd, ?Hf; destruct c as [d k f];
    simpl in *; by subst.
Qed.

Lemma save_sync d c : cr_faults c = [] → saveUnlocked (set_data d c) = (None, stored d).
Proof. intros Hf. unfold saveUnlocked, cr_fault. simpl. rewrite Hf. unfold set_disk. simpl. by rewrite Hf. Qed.

Lemma in_sync_stored d : in_sync (stored d).
Proof. split; [done|by left]. Qed.

(** What each operation of the store does to a state in sync. *)
Section store.
Context (c : ClientRouteStore) (S : in_sync c).
Abbreviation routes := (Routes (data c)).
Abbreviation tables := (Tables (data c)).

Lemma cr_Add_sync r : cr_Add r c = (None, stored {| Routes := routes ++ [r]; Tables := tables |}).
Proof. unfold cr_Add. rewrite load_sync by done. by apply save_sync, S. Qed.

Lemma RemoveByTunnel_sync t :
  RemoveByTunnel t c = (None, stored {| Routes := filter (λ r, TunnelID r ≠ t) routes; Tables := tables |}).
Proof. unfold RemoveByTunnel. rewrite load_sync by done. by apply save_sync, S. Qed.

Lemma FreeTable_sync t :
  FreeTable t c = (None, stored {| Routes := routes; Tables := delete t tables |}).
Proof. unfold FreeTable. rewrite load_sync by done. by apply save_sync, S. Qed.

(** The route found by its ID is the one that is replaced or removed. *)
Lemma cr_Get_split id r : cr_Get id c = Some r →
  ID r = id ∧ ∃ l1 l2, routes = l1 ++ r :: l2 ∧ ∀ r', r' ∈ l1 → ID r' ≠ id.
Proof.
  unfold cr_Get. generalize routes. clear S. induction l as [|x l IH]; [done|]. simpl.
  destruct (String.eqb (ID x) id) eqn:E; to_prop.
  - intros [= ->]. split; [done|]. exists [], l. split; [done|]. set_solver.
  - intros [? (l1 & l2 & -> & Hl)]%IH. split; [done|]. exists (x :: l1), l2. split; [done|]. set_solver.
Qed.

Lemma cr_Update_sync l1 old l2 r : routes = l1 ++ old :: l2 → ID r = ID old → (∀ r', r' ∈ l1 → ID r' ≠ ID old) →
  cr_Update r c = (None, stored {| Routes := l1 ++ r :: l2; Tables := tables |}).
Proof.
  intros E Hid Hl. unfold cr_Update. rewrite load_sync by done.
  assert (replace_route r routes = Some (l1 ++ r :: l2)) as ->; [|by apply save_sync, S].
  rewrite E. clear E. induction l1 as [|x l1 IH]; simpl.
  - by rewrite Hid, String.eqb_refl.
  - rewrite Hid, (proj2 (String.eqb_neq _ _)) by (apply Hl; by left).
    rewrite IH; [done|]. intros; apply Hl; by right.
Qed.

Lemma cr_Remove_sync l1 old l2 : routes = l1 ++ old :: l2 → (∀ r', r' ∈ l1 → ID r' ≠ ID old) →
  cr_Remove (ID old) c = (None, stored {| Routes := l1 ++ l2; Tables := tables |}).
Proof.
  intros E Hl. unfold cr_Remove. rewrite load_sync by done.
  assert (remove_route (ID old) routes = Some (l1 ++ l2)) as ->; [|by apply save_sync, S].
  rewrite E. clear E. induction l1 as [|x l1 IH]; simpl.
  - by rewrite String.eqb_refl.
  - rewrite (proj2 (String.eqb_neq _ _)) by (apply Hl; by left).
    rewrite IH; [done|]. intros; apply Hl; by right.
Qed.

Lemma AllocateTable_sync t used : match AllocateTable t used c with
  | (inr n, c') => (tables !! t = Some n ∧ c' = c) ∨
      (tables !! t = None ∧ client_tables n ∧ n ∉ used ∧ (∀ t', tables !! t' ≠ Some n) ∧
       c' = stored {| Routes := routes; Tables := <[t := n]> tables |})
  | (inl _, c') => c' = c
  end.
Proof.
  unfold AllocateTable. rewrite load_sync by done. destruct (tables !! t) as [n|] eqn:Ht; [by left|].
  destruct (List.find _ _) as [n|] eqn:Hfind; [|done].
  apply List.find_some in Hfind as [Hin Hfree]. to_prop.
  unfold set_tables. rewrite save_sync by apply S. right.
  apply not_elem_of_app in Hfree as [Hused Hown].
  split; [done|]. split; [|split; [done|split; [|done]]].
  - apply list_elem_of_In, list_elem_of_fmap in Hin as (k & -> & Hk%elem_of_seq).
    unfold client_tables. lia.
  - intros t' Ht'. apply Hown, list_elem_of_fmap. exists (t', n). split; [done|].
    by apply elem_of_map_to_list.
Qed.
End store.

(** ** The invariant *)
Section policy.
Context {W : Type} `{O : RouteOperator W} `{L : !RouteLaws W}.

(** The rules of other programs. *)
Context (F : string → Z → Prop).

Definition served (c : ClientRouteStore) (ip : string) (n : Z) : Prop :=
  ∃ r, r ∈ Routes (data c) ∧ Enabled r = true ∧ ClientIP r = ip ∧ Tables (data c) !! TunnelID r = Some n.

(** [ex]: a tunnel and a client whose rule an operation is about to remove. *)
Definition exempt (ex : option (string * string)) (c : ClientRouteStore) (ip : string) (n : Z) : Prop :=
  ∃ t, ex = Some (t, ip) ∧ Tables (data c) !! t = Some n.

Record Inv (ex : option (string * string)) (s : world (W := W)) : Prop := {
  inv_sync : in_sync s.1;
  inv_ids : NoDup (ID <$> Routes (data s.1));
  inv_ips : NoDup (ClientIP <$> Routes (data s.1));
  inv_range : ∀ t n, Tables (data s.1) !! t = Some n → client_tables n;
  inv_inj : ∀ t t' n, Tables (data s.1) !! t = Some n → Tables (data s.1) !! t' = Some n → t = t';
  inv_foreign : ∀ ip n, F ip n → has_rule s.2 ip n;
  inv_own : ∀ t n ip, Tables (data s.1) !! t = Some n → ¬ F ip n;
  inv_rules : ∀ ip n, has_rule s.2 ip n → F ip n ∨ served s.1 ip n ∨ exempt ex s.1 ip n;
}.

(** The client has no rule in the table of the tunnel. *)
Definition quiet (t ip : string) (s : world (W := W)) : Prop :=
  ∀ n, Tables (data s.1) !! t = Some n → ¬ has_rule s.2 ip n.

Lemma inv_weaken ex s : Inv None s → Inv ex s.
Proof.
  intros [? ? ? ? ? ? ? Hr]. split; try done. intros ip n [|[|(t & [=] & _)]]%Hr; auto.
Qed.

Lemma inv_quiet t ip s : Inv (Some (t, ip)) s → quiet t ip s → Inv None s.
Proof.
  intros [? ? ? ? ? ? ? Hr] Hq. split; try done. intros ip' n Hin.
  destruct (Hr _ _ Hin) as [|[|(t' & [= <- <-] & Ht)]]; auto. by destruct (Hq n).
Qed.

Lemma route_by_ip s ex r r' :
  Inv ex s → r ∈ Routes (data s.1) → r' ∈ Routes (data s.1) → ClientIP r = ClientIP r' → r = r'.
Proof. intros I. apply NoDup_key_inj, I. Qed.

Lemma quiet_disabled s r :
  Inv None s → r ∈ Routes (data s.1) → Enabled r = false → quiet (TunnelID r) (ClientIP r) s.
Proof.
  intros I Hr He n Ht Hin. destruct (inv_rules _ _ I _ _ Hin) as [HF|[(r' & Hr' & He' & Hip & _)|(? & [=] & _)]].
  - by apply (inv_own _ _ I _ _ _ Ht) in HF.
  - rewrite (route_by_ip _ _ r' r I) in He' by done. congruence.
Qed.

(** A step of the kernel that keeps the foreign rules and adds at most the rules of
    enabled routes. *)
Lemma inv_kernel ex ex' c w w' :
  Inv ex (c, w) → (∀ ip n, F ip n → has_rule w' ip n) →
  (∀ ip n, has_rule w' ip n → F ip n ∨ served c ip n ∨ exempt ex' c ip n) → Inv ex' (c, w').
Proof. intros [] ? ?. by split. Qed.

Lemma inv_shrink ex c w w' :
  Inv ex (c, w) → (∀ ip n, F ip n → has_rule w' ip n) → (∀ ip n, has_rule w' ip n → has_rule w ip n) →
  Inv ex (c, w').
Proof. intros I HF Hs. apply (inv_kernel ex _ _ w); [done|done|]. intros ip n H%Hs. by apply (inv_rules _ _ I). Qed.

(** A step of the store; the rules stay. *)
Lemma inv_store ex ex' c w d :
  Inv ex (c, w) → NoDup (ID <$> Routes d) → NoDup (ClientIP <$> Routes d) →
  Tables d = Tables (data c) →
  (∀ ip n, served c ip n ∨ exempt ex c ip n → served (stored d) ip n ∨ exempt ex' (stored d) ip n) →
  Inv ex' (stored d, w).
Proof.
  intros [? ? ? ? ? ? ? Hr] ? ? E Hs. split; simpl; rewrite ?E; try done; [apply in_sync_stored|].
  intros ip n [|]%Hr; [by left|]. right. by apply Hs.
Qed.

(** *** Removing a rule *)
Lemma removeRule_spec t ip c w : Inv (Some (t, ip)) (c, w) →
  ∃ w', (removeRule t ip (c, w)).2 = (c, w') ∧ Inv None (c, w') ∧ quiet t ip (c, w') ∧
    (∀ t' ip', quiet t' ip' (c, w) → quiet t' ip' (c, w')).
Proof.
  intros I. unfold removeRule, see, mbind, ST_bind. cbn [fst].
  destruct (GetTableForTunnel t c) as [n|] eqn:Ht; unfold GetTableForTunnel in Ht.
  - unfold on_kernel. cbn [fst snd]. pose proof (law_remove ip n w) as Hl.
    destruct (RemoveClientRule ip n w) as [e w']. cbn [snd] in Hl. exists w'. split; [done|].
    assert (quiet t ip (c, w')) as Hq.
    { intros n' Hn' [_ Hne]%Hl. cbn in Hn'. simplify_eq. }
    split; [|split; [done|]].
    + apply (inv_quiet t ip); [|done]. apply (inv_shrink _ _ w); [done| |naive_solver].
      intros ip' n' HF. apply Hl. split; [by apply (inv_foreign _ _ I)|].
      intros [= -> ->]. by apply (inv_own _ _ I t n ip) in Ht.
    + intros t' ip' H n' Hn' [? _]%Hl. by apply (H n').
  - exists w. split; [done|]. assert (quiet t ip (c, w)) as Hq by (intros n' Hn'; cbn in Hn'; congruence).
    split; [by apply (inv_quiet t ip)|done].
Qed.

(** *** Adding a rule *)
Lemma AddClientRule_inv r n c w :
  Inv None (c, w) → r ∈ Routes (data c) → Enabled r = true → Tables (data c) !! TunnelID r = Some n →
  Inv None (c, (AddClientRule (ClientIP r) n w).2).
Proof.
  intros I Hr He Ht. pose proof (law_add (ClientIP r) n w) as Hl.
  destruct (AddClientRule (ClientIP r) n w) as [e w']. apply (inv_kernel None _ _ w); [done| |].
  - intros ip' n' HF. apply Hl. left. split; [by apply (inv_foreign _ _ I)|].
    intros [= -> ->]. by apply (inv_own _ _ I _ _ (ClientIP r)) in Ht.
  - intros ip' n' [[Hin _]|[_ [= -> ->]]]%Hl; [by apply (inv_rules _ _ I)|].
    right; left. by exists r.
Qed.

Lemma each_cons {R} (f : R → ST (world (W := W)) unit) r l s : each f (r :: l) s = each f l (f r s).2.
Proof. cbn [each]. unfold mbind, ST_bind. by destruct (f r s). Qed.

Lemma add_rules_cons r l n c w :
  add_rules (r :: l) n (c, w) = add_rules l n (c, (AddClientRule (ClientIP r) n w).2).
Proof.
  unfold add_rules. rewrite each_cons. f_equal. unfold mbind, ST_bind, on_kernel. cbn [fst snd].
  by destruct (AddClientRule _ n w).
Qed.

Lemma add_rules_inv l n c w :
  Inv None (c, w) →
  (∀ r, r ∈ l → r ∈ Routes (data c) ∧ Enabled r = true ∧ Tables (data c) !! TunnelID r = Some n) →
  ∃ w', (add_rules l n (c, w)).2 = (c, w') ∧ Inv None (c, w').
Proof.
  revert w. induction l as [|r l IH]; intros w I Hl; [by exists w|].
  destruct (Hl r) as (? & ? & ?); [by left|]. rewrite add_rules_cons.
  apply IH; [by apply AddClientRule_inv|]. intros; apply Hl; by right.
Qed.

(** *** Allocating a table *)
Lemma AllocateTable_inv t used c w :
  Inv None (c, w) → (∀ ip m, client_tables m → has_rule w ip m → m ∈ used) →
  let '(r, c') := AllocateTable t used c in
  Inv None (c', w) ∧ Routes (data c') = Routes (data c) ∧
  match r with inl _ => True | inr n => Tables (data c') !! t = Some n end.
Proof.
  intros I Hused. pose proof (AllocateTable_sync c (inv_sync _ _ I) t used) as Ha.
  destruct (AllocateTable t used c) as [[e|n] c']; [by subst|].
  destruct Ha as [[Ht ->]|(Ht & Hn & Hfree & Hown & ->)]; [done|].
  split; [|split; [done|apply lookup_insert_eq]]. destruct I as [? ? ? Hrange Hinj HF HownF Hr].
  split; cbn [fst snd data stored Routes Tables] in *; try done; [apply in_sync_stored| | | |].
  - intros t' m. rewrite lookup_insert_Some. intros [[_ <-]|[_ ?]]; [done|by eapply Hrange].
  - intros t1 t2 m. rewrite !lookup_insert_Some. intros [[<- <-]|[? ?]] [[<- E]|[? ?]]; subst; try done.
    + by destruct (Hown t2).
    + by destruct (Hown t1).
    + by eapply Hinj.
  - intros t' m ip. rewrite lookup_insert_Some. intros [[_ <-]|[_ ?]]; [|by eapply HownF].
    intros Hin%HF. by apply Hfree, (Hused ip).
  - intros ip m [?|[(r & ? & ? & ? & Hm)|(? & [=] & _)]]%Hr; [by left|]. right; left. exists r.
    split_and!; [done..|]. change (<[t:=n]> (Tables (data c)) !! TunnelID r = Some m).
    rewrite lookup_insert_ne; [done|]. intros Et. congruence.
Qed.

Lemma used_tables_spec w : let '(r, w') := ListUsedRoutingTables w in
  (∀ ip m, has_rule w' ip m ↔ has_rule w ip m) ∧
  ∀ used, r = inr used → ∀ ip m, client_tables m → has_rule w' ip m → m ∈ used.
Proof.
  pose proof (law_list w) as Hl. destruct (ListUsedRoutingTables w) as [r w']. destruct Hl as [H1 H2].
  split; [done|]. intros used -> ip m Hm ?%H1. by eapply H2.
Qed.

Lemma inv_same_rules ex c w w' :
  (∀ ip m, has_rule w' ip m ↔ has_rule w ip m) → Inv ex (c, w) → Inv ex (c, w').
Proof.
  intros E I. apply (inv_shrink _ _ w); [done| |naive_solver].
  intros ip n HF. apply E. by apply (inv_foreign _ _ I).
Qed.

(** [applyIfRunning] and [OnTunnelStart] share these steps. *)
Definition apply_routes (l : list ClientRoute) (t kernelIface : string) : ST (world (W := W)) unit :=
  used ← on_kernel ListUsedRoutingTables;
  match used with
  | inl _ => mret tt
  | inr usedTables =>
      t ← on_store (AllocateTable t usedTables);
      match t with
      | inl _ => mret tt
      | inr n =>
          e ← on_kernel (SetupClientRouteTable kernelIface n);
          match e with Some _ => mret tt | None => add_rules l n end
      end
  end.

Lemma apply_routes_inv l t iface c w :
  Inv None (c, w) → (∀ r, r ∈ l → r ∈ Routes (data c) ∧ Enabled r = true ∧ TunnelID r = t) →
  Inv None (apply_routes l t iface (c, w)).2.
Proof.
  intros I Hl. unfold apply_routes, mbind, ST_bind, on_kernel, on_store. cbn [fst snd].
  pose proof (used_tables_spec w) as Hu. destruct (ListUsedRoutingTables w) as [[e|used] w1];
    destruct Hu as [E1 Hu]; apply (inv_same_rules _ _ _ w1) in I; try done.
  cbn [fst snd]. pose proof (AllocateTable_inv t used c w1 I (Hu _ eq_refl)) as Ha.
  destruct (AllocateTable t used c) as [[e|n] c1]; destruct Ha as (I1 & Er & Ht); [done|].
  cbn [fst snd]. pose proof (law_setup iface n w1) as Es.
  destruct (SetupClientRouteTable iface n w1) as [[e|] w2]; cbn [fst snd] in *;
    apply (inv_same_rules _ _ _ w2) in I1; try done.
  destruct (add_rules_inv l n c1 w2) as (w3 & -> & ?); [done| |done].
  rewrite Er. intros r Hr. destruct (Hl r Hr) as (? & ? & <-). done.
Qed.

Lemma applyIfRunning_inv cat r c w :
  Inv None (c, w) → r ∈ Routes (data c) → Enabled r = true → Inv None (applyIfRunning cat r (c, w)).2.
Proof.
  intros I Hr He. unfold applyIfRunning. destruct (GetKernelIface cat (TunnelID r)) as [iface|]; [|done].
  opose proof (apply_routes_inv [r] (TunnelID r) iface c w I _) as Hap.
  { by intros r' ->%list_elem_of_singleton. }
  revert Hap. unfold apply_routes, add_rules. cbn [each]. unfold mbind, ST_bind. cbn.
  by repeat case_match; simplify_eq/=.
Qed.

Lemma OnTunnelStart_inv t iface c w : Inv None (c, w) → Inv None (OnTunnelStart t iface (c, w)).2.
Proof.
  intros I. unfold OnTunnelStart, see. unfold mbind at 1, ST_bind at 1. cbn [fst snd].
  destruct (enabled_routes t c) as [|r0 l0] eqn:El; [done|]. rewrite <- El. clear r0 l0 El.
  opose proof (apply_routes_inv (enabled_routes t c) t iface c w I _) as Hap.
  { intros r. unfold enabled_routes, FindByTunnel. rewrite !list_elem_of_filter. naive_solver. }
  revert Hap. unfold apply_routes, add_rules, mbind, ST_bind.
  by repeat case_match; simplify_eq/=.
Qed.

(** *** Giving a table back *)
Lemma release_inv n t c w :
  Inv None (c, w) → Tables (data c) !! t = Some n → (∀ ip, ¬ has_rule w ip n) →
  let s' := ((FreeTable t c).2, (CleanupClientRouteTable n w).2) in
  Inv None s' ∧ Routes (data s'.1) = Routes (data c) ∧ Tables (data s'.1) = delete t (Tables (data c)) ∧
  ∀ t' ip, quiet t' ip (c, w) → quiet t' ip s'.
Proof.
  intros I Ht Hno s'. unfold s'. clear s'. rewrite FreeTable_sync by apply I. cbn [fst snd].
  pose proof (λ ip m, proj1 (law_cleanup n w ip m)) as Hsub.
  pose proof (λ ip m, proj2 (law_cleanup n w ip m)) as Hkeep.
  destruct (CleanupClientRouteTable n w) as [e w']. cbn [snd] in *.
  split; [|split; [done|split; [done|]]].
  - destruct I as [? ? ? Hrange Hinj HF HownF Hr].
    split; cbn [fst snd data stored Routes Tables] in *; try done; [apply in_sync_stored| | | | |].
    + intros t' m [_ ?]%lookup_delete_Some. by eapply Hrange.
    + intros t1 t2 m [_ ?]%lookup_delete_Some [_ ?]%lookup_delete_Some. by eapply Hinj.
    + intros ip m Hm. apply Hkeep; [|by apply HF]. intros ->. by eapply HownF.
    + intros t' m ip [_ ?]%lookup_delete_Some. by eapply HownF.
    + intros ip m Hin%Hsub.
      destruct (Hr _ _ Hin) as [?|[(r & ? & ? & ? & Hm)|(? & [=] & _)]]; [by left|].
      right; left. exists r. split_and!; [done..|].
      change (delete t (Tables (data c)) !! TunnelID r = Some m).
      rewrite lookup_delete_ne; [done|]. intros E. rewrite <- E, Ht in Hm. simplify_eq. by eapply Hno.
  - intros t' ip Hq m Hm Hin%Hsub. cbn [fst data stored Tables] in Hm. apply lookup_delete_Some in Hm as [_ Hm].
    by apply (Hq m).
Qed.

Lemma cleanupTableIfEmpty_spec t ex c w :
  Inv None (c, w) →
  (∀ r, r ∈ Routes (data c) → ID r = ex → TunnelID r = t → quiet t (ClientIP r) (c, w)) →
  ∃ c' w', (cleanupTableIfEmpty t ex (c, w)).2 = (c', w') ∧ Inv None (c', w') ∧
    Routes (data c') = Routes (data c) ∧ ∀ t' ip, quiet t' ip (c, w) → quiet t' ip (c', w').
Proof.
  intros I Hex. unfold cleanupTableIfEmpty, see. unfold mbind at 1, ST_bind at 1. cbn [fst].
  destruct (existsb _ _) eqn:Hothers; [by exists c, w|].
  unfold mbind at 1, ST_bind at 1. cbn [fst].
  destruct (GetTableForTunnel t c) as [n|] eqn:Ht; unfold GetTableForTunnel in Ht; [|by exists c, w].
  opose proof (release_inv n t c w I Ht _) as (I' & Er & _ & Hq).
  - intros ip Hin. destruct (inv_rules _ _ I _ _ Hin) as [HF|[(r & Hr & He & <- & Hn)|(? & [=] & _)]].
    + by eapply (inv_own _ _ I).
    + assert (TunnelID r = t) as Et by by eapply (inv_inj _ _ I).
      destruct (base.decide (ID r = ex)) as [Hid|Hid]; [by apply (Hex r Hr Hid Et n)|].
      apply not_true_iff_false in Hothers. apply Hothers, existsb_exists. exists r.
      split; [|by rewrite He, (proj2 (String.eqb_neq _ _) Hid)].
      apply list_elem_of_In, list_elem_of_filter. done.
  - revert I' Er Hq. unfold mbind, ST_bind, on_kernel, on_store. cbn [fst snd].
    destruct (CleanupClientRouteTable n w) as [e w']. cbn [fst snd]. destruct (FreeTable t c) as [e' c'].
    intros I' Er Hq. by exists c', w'.
Qed.

(** Removing the rule of a route, then its table when no other route needs it. *)
Lemma withdraw_spec r c w :
  Inv (Some (TunnelID r, ClientIP r)) (c, w) →
  (∀ r', r' ∈ Routes (data c) → ID r' = ID r → ClientIP r' = ClientIP r) →
  ∃ c' w', ((_ ← removeRule (TunnelID r) (ClientIP r); cleanupTableIfEmpty (TunnelID r) (ID r)) (c, w)).2 = (c', w') ∧
    Inv None (c', w') ∧ Routes (data c') = Routes (data c) ∧ quiet (TunnelID r) (ClientIP r) (c', w').
Proof.
  intros I Hid. destruct (removeRule_spec _ _ c w I) as (w1 & E1 & I1 & Hq1 & _).
  destruct (cleanupTableIfEmpty_spec (TunnelID r) (ID r) c w1 I1) as (c2 & w2 & E2 & I2 & Er & Hq2).
  { intros r' Hr' Hr'id _. by rewrite (Hid r'). }
  exists c2, w2. unfold mbind, ST_bind. destruct (removeRule _ _ _). simpl in E1. subst. auto.
Qed.

(** *** Changing the stored routes *)
Abbreviation with_routes l c := (stored {| Routes := l; Tables := Tables (data c) |}).

Lemma inv_replace old r l1 l2 c w :
  Inv None (c, w) → Routes (data c) = l1 ++ old :: l2 → ID r = ID old → ClientIP r = ClientIP old →
  Inv (Some (TunnelID old, ClientIP old)) (with_routes (l1 ++ r :: l2) c, w) ∧
  ((Enabled old = true → Enabled r = true ∧ TunnelID r = TunnelID old) →
   Inv None (with_routes (l1 ++ r :: l2) c, w)).
Proof.
  intros I E Hid Hip.
  pose proof (inv_ids _ _ I) as Hids. pose proof (inv_ips _ _ I) as Hips. simpl in *. rewrite E in *.
  assert (∀ ex, (∀ ip n, served c ip n → served (with_routes (l1 ++ r :: l2) c) ip n ∨ exempt ex c ip n) →
    Inv ex (with_routes (l1 ++ r :: l2) c, w)) as Hinv.
  { intros ex Hs. apply (inv_store None ex c); simpl; try done.
    - by rewrite !fmap_app, !fmap_cons, Hid in *.
    - by rewrite !fmap_app, !fmap_cons, Hip in *.
    - intros ip n [H|(? & [=] & _)]. by destruct (Hs _ _ H); auto. }
  split.
  - apply Hinv. intros ip n (r0 & Hr0 & He & <- & Ht). rewrite E in Hr0.
    apply elem_of_app in Hr0 as [?|[->|?]%elem_of_cons]; [left; exists r0; set_solver| |left; exists r0; set_solver].
    right. by eexists.
  - intros Hsame. apply Hinv. intros ip n (r0 & Hr0 & He & <- & Ht). rewrite E in Hr0. left.
    apply elem_of_app in Hr0 as [?|[->|?]%elem_of_cons]; [exists r0; set_solver| |exists r0; set_solver].
    destruct (Hsame He) as [? Et]. exists r. rewrite Et. set_solver.
Qed.

Lemma inv_remove old l1 l2 c w :
  Inv None (c, w) → Routes (data c) = l1 ++ old :: l2 →
  Inv (Some (TunnelID old, ClientIP old)) (with_routes (l1 ++ l2) c, w).
Proof.
  intros I E. pose proof (inv_ids _ _ I) as Hids. pose proof (inv_ips _ _ I) as Hips. simpl in *.
  rewrite E, fmap_app, fmap_cons, <- Permutation_middle, <- fmap_app in Hids, Hips.
  apply NoDup_cons in Hids as [_ Hids], Hips as [_ Hips].
  apply (inv_store None _ c); [done..|]. intros ip n [(r0 & Hr0 & He & <- & Ht)|(? & [=] & _)].
  rewrite E in Hr0. simpl.
  apply elem_of_app in Hr0 as [?|[->|?]%elem_of_cons]; [left; exists r0; set_solver| |left; exists r0; set_solver].
  right. by eexists.
Qed.

Lemma inv_add r c w :
  Inv None (c, w) → ID r ∉ ID <$> Routes (data c) → ClientIP r ∉ ClientIP <$> Routes (data c) →
  Inv None (with_routes (Routes (data c) ++ [r]) c, w).
Proof.
  intros I Hid Hip. pose proof (inv_ids _ _ I) as Hids. pose proof (inv_ips _ _ I) as Hips.
  apply (inv_store None _ c); try done.
  - simpl. rewrite fmap_app. apply NoDup_app. split_and!; [done| |apply NoDup_singleton]. set_solver.
  - simpl. rewrite fmap_app. apply NoDup_app. split_and!; [done| |apply NoDup_singleton]. set_solver.
  - intros ip n [(r0 & Hr0 & He & <- & Ht)|(? & [=] & _)]. left. exists r0. simpl. set_solver.
Qed.

(** *** The handlers *)
Lemma FindByClientIP_none ip c : FindByClientIP ip c = None → ip ∉ ClientIP <$> Routes (data c).
Proof.
  intros Hf (r & -> & Hr)%list_elem_of_fmap.
  apply list_elem_of_In in Hr. apply (List.find_none _ _ Hf) in Hr. by rewrite String.eqb_refl in Hr.
Qed.

Lemma Create_inv `{GoArch} cat suffix route c w :
  Inv None (c, w) → "cr-" +:+ suffix ∉ ID <$> Routes (data c) →
  Inv None (Create cat suffix route (c, w)).2.
Proof.
  intros I Hfresh. unfold Create. destruct (ParseIP _ ≫= To4) as [ip|]; [|done].
  set (r1 := set_ClientIP _ _). destruct (negb (valid_fallback _)); [done|].
  destruct (negb (Exists _ _)); [done|]. unfold see. unfold mbind at 1, ST_bind at 1. cbn [fst].
  destruct (FindByClientIP _ c) eqn:Hf; [done|]. apply FindByClientIP_none in Hf.
  set (r2 := set_ID _ _). unfold mbind at 1, ST_bind at 1. unfold on_store. cbn [fst snd].
  rewrite cr_Add_sync by apply I. cbn [fst snd].
  assert (Inv None (with_routes (Routes (data c) ++ [r2]) c, w)) as I' by by apply inv_add.
  destruct (Enabled r2) eqn:He; [|done]. unfold mbind, ST_bind.
  opose proof (applyIfRunning_inv cat r2 _ w I' _ He) as Ha; [simpl; set_solver|].
  by destruct (applyIfRunning _ _ _).
Qed.

Lemma Update_inv cat route c w :
  Inv None (c, w) →
  (∀ old, cr_Get (ID route) c = Some old → Enabled old = true → TunnelID route = TunnelID old →
   Enabled route = true) →
  Inv None (Update cat route (c, w)).2.
Proof.
  intros I Hok. unfold Update, see. unfold mbind at 1, ST_bind at 1. cbn [fst].
  destruct (cr_Get (ID route) c) as [old|] eqn:Hget; [|done]. specialize (Hok old eq_refl).
  destruct (negb (valid_fallback _)); [done|]. destruct (negb (Exists _ _)); [done|].
  set (r := set_ClientHostname _ _). apply cr_Get_split in Hget as [Hid (l1 & l2 & E & Hl1)].
  change (TunnelID r) with (TunnelID route). change (Enabled r) with (Enabled route).
  destruct (String.eqb (TunnelID route) (TunnelID old)) eqn:Et; to_prop; cbn [negb andb].
  - rewrite andb_false_r. unfold mbind, ST_bind, on_store. cbn. 
    rewrite (cr_Update_sync c (inv_sync _ _ I) l1 old l2 r) by (done || by rewrite Hid). cbn.
    destruct (inv_replace old r l1 l2 c w) as [_ HN]; try done. apply HN. intros He.
    split; [|done]. by apply Hok.
  - rewrite andb_true_r. set (m := if Enabled old then _ else _).
    assert (∃ c' w', (m (c, w)).2 = (c', w') ∧ Inv None (c', w') ∧ Routes (data c') = Routes (data c) ∧
      quiet (TunnelID old) (ClientIP old) (c', w')) as (c' & w' & Em & I' & Er & Hq).
    { unfold m. destruct (Enabled old) eqn:He.
      - apply withdraw_spec; [by apply inv_weaken|]. intros r' Hr' Hid'. f_equal.
        apply (NoDup_key_inj ID (Routes (data c))); [apply I|done|simpl; rewrite E; set_solver|done].
      - exists c, w. split; [done|]. split; [done|]. split; [done|]. apply quiet_disabled; [done|simpl; rewrite E; set_solver|done]. }
    unfold mbind at 1, ST_bind at 1. destruct (m (c, w)) as [u s']. simpl in Em. subst s'.
    unfold mbind at 1, ST_bind at 1. unfold on_store. cbn [fst snd]. rewrite <- Er in E.
    rewrite (cr_Update_sync c' (inv_sync _ _ I') l1 old l2 r) by (done || by rewrite Hid). cbn [fst snd].
    destruct (inv_replace old r l1 l2 c' w') as [HS _]; try done.
    assert (Inv None (with_routes (l1 ++ r :: l2) c', w')) as I2 by (eapply inv_quiet; [done|exact Hq]).
    destruct (Enabled route) eqn:He; [|done]. unfold mbind, ST_bind.
    opose proof (applyIfRunning_inv cat r _ w' I2 _ He) as Ha; [simpl; set_solver|].
    by destruct (applyIfRunning _ _ _).
Qed.

Lemma Delete_inv id c w : Inv None (c, w) → Inv None (Delete id (c, w)).2.
Proof.
  intros I. unfold Delete, see. unfold mbind at 1, ST_bind at 1. cbn [fst].
  destruct (cr_Get id c) as [old|] eqn:Hget; [|done].
  apply cr_Get_split in Hget as [<- (l1 & l2 & E & Hl1)].
  assert (old ∈ Routes (data c)) as Hold by (rewrite E; set_solver).
  assert (∀ r', r' ∈ Routes (data c) → ID r' = ID old → ClientIP r' = ClientIP old) as Hid.
  { intros r' Hr' Hid. f_equal. by apply (NoDup_key_inj ID _ _ _ (inv_ids _ _ I)). }
  assert (∃ c' w', ((_ ← (if Enabled old then removeRule (TunnelID old) (ClientIP old) else mret tt);
      cleanupTableIfEmpty (TunnelID old) (ID old)) (c, w)).2 = (c', w') ∧
    Inv None (c', w') ∧ Routes (data c') = Routes (data c) ∧ quiet (TunnelID old) (ClientIP old) (c', w'))
    as (c' & w' & Es & I' & Er & Hq).
  { destruct (Enabled old) eqn:He; [by apply withdraw_spec; [apply inv_weaken|]|].
    pose proof (quiet_disabled _ _ I Hold He) as Hq.
    destruct (cleanupTableIfEmpty_spec (TunnelID old) (ID old) c w I) as (c2 & w2 & E2 & I2 & Er & Hq2).
    { intros r' Hr' Hr'id _. by rewrite (Hid r'). }
    exists c2, w2. auto. }
  revert Es. unfold mbind, ST_bind.
  destruct ((if Enabled old then removeRule (TunnelID old) (ClientIP old) else mret tt) (c, w)) as [[] s1].
  destruct (cleanupTableIfEmpty _ _ s1) as [[] s2]. cbn [snd]. intros ->. unfold on_store. cbn [fst snd].
  rewrite <- Er in E. rewrite (cr_Remove_sync c' (inv_sync _ _ I') l1 old l2) by done.
  eapply inv_quiet; [by eapply inv_remove|exact Hq].
Qed.

Lemma SetEnabled_inv cat id b c w : Inv None (c, w) → Inv None (SetEnabled cat id b (c, w)).2.
Proof.
  intros I. unfold SetEnabled, see. unfold mbind at 1, ST_bind at 1. cbn [fst].
  destruct (cr_Get id c) as [old|] eqn:Hget; [|done].
  apply cr_Get_split in Hget as [<- (l1 & l2 & E & Hl1)].
  destruct (Bool.eqb (Enabled old) b) eqn:Hb; [done|]. apply eqb_false_iff in Hb.
  set (r := set_Enabled b old). unfold mbind at 1, ST_bind at 1. unfold on_store. cbn [fst snd].
  rewrite (cr_Update_sync c (inv_sync _ _ I) l1 old l2 r) by done. cbn [fst snd].
  destruct (inv_replace old r l1 l2 c w) as [HS HN]; try done.
  destruct b.
  - assert (Enabled old = false) as He by (by destruct (Enabled old)).
    opose proof (applyIfRunning_inv cat r _ w (HN _) _ _) as Ha; [congruence|simpl; set_solver|done|].
    unfold mbind, ST_bind. by destruct (applyIfRunning _ _ _).
  - destruct (withdraw_spec r (with_routes (l1 ++ r :: l2) c) w) as (c' & w' & Es & I' & _); [exact HS| |].
    { intros r' Hr' Hid. f_equal. apply (NoDup_key_inj ID (l1 ++ r :: l2)); [|done|set_solver|done].
      apply (inv_ids _ _ HS). }
    revert Es. unfold mbind, ST_bind. destruct (removeRule _ _ _) as [[] s1].
    destruct (cleanupTableIfEmpty _ _ s1) as [[] s2]. cbn [snd]. by intros ->.
Qed.

(** *** Removing the rules of several clients *)
Lemma each_remove (g : ClientRoute → ST (world (W := W)) unit) (p : ClientRoute → bool) n l c w :
  (∀ r w, g r (c, w) = (tt, (c, if p r then (RemoveClientRule (ClientIP r) n w).2 else w))) →
  ∃ w', each g l (c, w) = (tt, (c, w')) ∧
    ∀ ip m, has_rule w' ip m ↔
      has_rule w ip m ∧ ¬ (m = n ∧ ∃ r, r ∈ l ∧ p r = true ∧ ClientIP r = ip).
Proof.
  intros Hg. revert w. induction l as [|r l IH]; intros w.
  { exists w. split; [done|]. intros ip m. split; [|by intros []]. intros; split; [done|]. set_solver. }
  rewrite each_cons, Hg. cbn [snd].
  set (w1 := if p r then (RemoveClientRule (ClientIP r) n w).2 else w).
  destruct (IH w1) as (w' & E & Hw'). exists w'. split; [done|]. intros ip m. rewrite Hw'.
  assert (has_rule w1 ip m ↔ has_rule w ip m ∧ ¬ (m = n ∧ p r = true ∧ ClientIP r = ip)) as ->.
  { unfold w1. destruct (p r); [rewrite law_remove|]; naive_solver. }
  setoid_rewrite elem_of_cons. naive_solver.
Qed.

Lemma enabled_routes_elem t c r :
  r ∈ enabled_routes t c ↔ r ∈ Routes (data c) ∧ Enabled r = true ∧ TunnelID r = t.
Proof. clear F. unfold enabled_routes, FindByTunnel. rewrite !list_elem_of_filter. naive_solver. Qed.

(** The rules of an allocated table are those of the enabled routes of its tunnel. *)
Lemma owned_rule ip n t c w :
  Inv None (c, w) → Tables (data c) !! t = Some n → has_rule w ip n →
  ∃ r, r ∈ enabled_routes t c ∧ ClientIP r = ip.
Proof.
  intros I Ht Hin. destruct (inv_rules _ _ I _ _ Hin) as [HF|[(r & Hr & He & <- & Hn)|(? & [=] & _)]].
  - by apply (inv_own _ _ I _ _ _ Ht) in HF.
  - exists r. rewrite enabled_routes_elem. by rewrite (inv_inj _ _ I _ _ _ Hn Ht).
Qed.

(** *** The kill switch *)
Lemma OnTunnelStop_spec t n c w :
  Inv None (c, w) → Tables (data c) !! t = Some n →
  ∃ c' w', OnTunnelStop t (c, w) = (None, (c', w')) ∧ Inv None (c', w') ∧
    (∀ ip m, has_rule w' ip m ↔ has_rule w ip m ∧
       ¬ (m = n ∧ ∃ r, r ∈ enabled_routes t c ∧ is_bypass r = true ∧ ClientIP r = ip)) ∧
    Routes (data c') = Routes (data c) ∧
    Tables (data c') = if existsb (λ r, negb (is_bypass r)) (enabled_routes t c) then Tables (data c)
                       else delete t (Tables (data c)).
Proof.
  intros I Ht. unfold OnTunnelStop, see. unfold mbind at 1, ST_bind at 1. cbn [fst].
  unfold GetTableForTunnel. rewrite Ht. unfold mbind at 1, ST_bind at 1. cbn [fst].
  set (g := λ r, if is_bypass r then _ else _).
  destruct (each_remove g is_bypass n (enabled_routes t c) c w) as (w1 & E & Hw1).
  { intros r w0. unfold g. destruct (is_bypass r); [|done]. unfold mbind, ST_bind, on_kernel. cbn.
    by destruct (RemoveClientRule _ _ _). }
  unfold mbind at 1, ST_bind at 1. rewrite E.
  assert (Inv None (c, w1)) as I1.
  { apply (inv_shrink _ _ w); [done| |by intros ip m [? _]%Hw1]. intros ip m HF. apply Hw1.
    split; [by apply (inv_foreign _ _ I)|]. intros [-> _]. by eapply (inv_own _ _ I). }
  destruct (existsb _ _) eqn:Hdrop.
  - exists c, w1. done.
  - assert (∀ ip, ¬ has_rule w1 ip n) as Hnone.
    { intros ip [Hin Hnot]%Hw1. apply Hnot. split; [done|].
      destruct (owned_rule ip n t c w I Ht Hin) as (r & Hr & Hip). exists r. split; [done|]. split; [|done].
      apply not_true_iff_false in Hdrop. destruct (is_bypass r) eqn:Hb; [done|]. exfalso.
      apply Hdrop, existsb_exists. exists r. by rewrite <- list_elem_of_In, Hb. }
    destruct (release_inv n t c w1 I1 Ht Hnone) as (I2 & Er & Et & _).
    exists (FreeTable t c).2, (CleanupClientRouteTable n w1).2.
    split; [|split; [done|split; [|done]]].
    + unfold mbind, ST_bind, on_kernel, on_store. cbn.
      destruct (CleanupClientRouteTable n w1). cbn. by destruct (FreeTable t c).
    + intros ip m. rewrite <- Hw1. pose proof (law_cleanup n w1 ip m) as [Hs Hk].
      destruct (base.decide (m = n)) as [->|Hne]; [|by split; [|apply Hk]].
      by split; [|intros Hin; apply Hnone in Hin].
Qed.

Lemma OnTunnelStop_inv t c w : Inv None (c, w) → Inv None (OnTunnelStop t (c, w)).2.
Proof.
  intros I. destruct (Tables (data c) !! t) as [n|] eqn:Ht.
  - by destruct (OnTunnelStop_spec t n c w I Ht) as (c' & w' & -> & ? & _).
  - unfold OnTunnelStop, see, mbind, ST_bind, GetTableForTunnel. cbn [fst]. by rewrite Ht.
Qed.

Lemma release_shrink ex c w n :
  Inv ex (c, w) → (∀ ip, ¬ F ip n) → Inv ex (c, (CleanupClientRouteTable n w).2).
Proof.
  intros I Hn. apply (inv_shrink _ _ w); [done| |intros; by eapply law_cleanup].
  intros ip m HF. apply law_cleanup; [intros ->; by eapply Hn|]. by apply (inv_foreign _ _ I).
Qed.

Lemma drop_tunnel_inv t c w :
  Inv None (c, w) → (∀ ip n, Tables (data c) !! t = Some n → ¬ has_rule w ip n) →
  Inv None (stored {| Routes := filter (λ r, TunnelID r ≠ t) (Routes (data c));
                      Tables := delete t (Tables (data c)) |}, w).
Proof.
  intros [? ? ? Hrange Hinj HF HownF Hr] Hno.
  split; cbn [fst snd data stored Routes Tables] in *; try done; [apply in_sync_stored| | | | | |].
  - by eapply sublist_NoDup; [|by apply fmap_sublist, sublist_filter].
  - by eapply sublist_NoDup; [|by apply fmap_sublist, sublist_filter].
  - intros t' m [_ ?]%lookup_delete_Some. by eapply Hrange.
  - intros t1 t2 m [_ ?]%lookup_delete_Some [_ ?]%lookup_delete_Some. by eapply Hinj.
  - intros t' m ip [_ ?]%lookup_delete_Some. by eapply HownF.
  - intros ip m Hin. destruct (Hr _ _ Hin) as [?|[(r & ? & ? & ? & Hm)|(? & [=] & _)]]; [by left|].
    right; left. assert (TunnelID r ≠ t) as Hne by (intros E; rewrite E in Hm; by eapply Hno).
    exists r. split_and!; [by apply list_elem_of_filter|done..|].
    change (delete t (Tables (data c)) !! TunnelID r = Some m). by rewrite lookup_delete_ne.
Qed.

Lemma OnTunnelDelete_inv t c w : Inv None (c, w) → Inv None (OnTunnelDelete t (c, w)).2.
Proof.
  intros I. unfold OnTunnelDelete, see. unfold mbind at 1, ST_bind at 1. cbn [fst].
  unfold GetTableForTunnel. destruct (Tables (data c) !! t) as [n|] eqn:Ht.
  - set (g := λ r, _ ← on_kernel (RemoveClientRule (ClientIP r) n); _).
    destruct (each_remove g (λ _, true) n (enabled_routes t c) c w) as (w1 & E & Hw1).
    { intros r w0. unfold g, mbind, ST_bind, on_kernel. cbn. by destruct (RemoveClientRule _ _ _). }
    assert (Inv None (c, w1)) as I1.
    { apply (inv_shrink _ _ w); [done| |by intros ip m [? _]%Hw1]. intros ip m HF. apply Hw1.
      split; [by apply (inv_foreign _ _ I)|]. intros [-> _]. by eapply (inv_own _ _ I). }
    apply (release_shrink _ _ _ n) in I1; [|intros ip; by eapply (inv_own _ _ I)].
    apply (drop_tunnel_inv t) in I1.
    + revert I1. unfold mbind, ST_bind, on_kernel, on_store. cbn [fst snd]. rewrite E. cbn [fst snd].
      destruct (CleanupClientRouteTable n w1) as [e w2]. unfold mret, ST_ret. cbn [fst snd].
      rewrite RemoveByTunnel_sync by apply I. cbn [fst snd].
      by rewrite FreeTable_sync by apply in_sync_stored.
    + intros ip n' Hn' Hin. simplify_eq. apply law_cleanup in Hin. apply Hw1 in Hin as [Hin Hnot].
      destruct (owned_rule ip n t c w I Ht Hin) as (r & Hr & Hip). apply Hnot. by eauto.
  - unfold mbind, mret, ST_bind, ST_ret, on_store. cbn [fst snd].
    rewrite RemoveByTunnel_sync by apply I. cbn [fst snd].
    apply (drop_tunnel_inv t) in I; [|intros; congruence]. by rewrite delete_id in I.
Qed.

Lemma Reconcile_inv running c w : Inv None (c, w) → Inv None (Reconcile running (c, w)).2.
Proof.
  unfold Reconcile. unfold mbind at 1, ST_bind at 1.
  assert (∀ s, Inv None s →
    Inv None (each (λ '(t, iface), _ ← OnTunnelStart t iface; mret tt) running s).2) as Hloop.
  { induction running as [|[t iface] running IH]; intros [c0 w0] I; [done|].
    rewrite each_cons. apply IH. pose proof (OnTunnelStart_inv t iface c0 w0 I) as I'.
    unfold mbind, ST_bind. by destruct (OnTunnelStart t iface (c0, w0)). }
  intros I%Hloop. by destruct (each _ running (c, w)).
Qed.

Lemma DeleteFile_sync c : in_sync c → let c' := (DeleteFile c).2 in
  in_sync c' ∧ data c' = defaultClientRouteData.
Proof.
  intros [Hf Hd]. unfold DeleteFile, cr_fault. destruct (cr_disk c) as [f|] eqn:Hk.
  - rewrite Hf. simpl. split; [split; [done|by right]|done].
  - simpl. split; [split; [done|right]|]; done.
Qed.

(** Not more rules than [CleanupClientRouteTable] removes. *)
Definition few_clients (c : ClientRouteStore) : Prop :=
  ∀ t, (length (enabled_routes t c) ≤ 100)%nat.

Lemma CleanupAll_loop l c w :
  Inv None (c, w) → few_clients c → (∀ t n, (t, n) ∈ l → Tables (data c) !! t = Some n) →
  ∃ w', each (λ t, _ ← on_kernel (CleanupClientRouteTable t.2); mret tt) l (c, w) = (tt, (c, w')) ∧
    Inv None (c, w') ∧ (∀ ip n, has_rule w' ip n → has_rule w ip n) ∧
    (∀ t n ip, (t, n) ∈ l → ¬ has_rule w' ip n).
Proof.
  intros I Hfew. revert w I. induction l as [|[t n] l IH]; intros w I Hl.
  { exists w. split_and!; try done. by intros ? ? ? ?%elem_of_nil. }
  assert (Tables (data c) !! t = Some n) as Ht by (apply Hl; by left).
  opose proof (law_cleanup_all n w (ClientIP <$> enabled_routes t c) _ _) as Hnone.
  { intros ip Hin. destruct (owned_rule ip n t c w I Ht Hin) as (r & Hr & <-). by apply list_elem_of_fmap_2. }
  { rewrite length_fmap. apply Hfew. }
  opose proof (release_shrink None c w n I _) as I1; [intros ip; by eapply (inv_own _ _ I)|].
  pose proof (λ ip m, proj1 (law_cleanup n w ip m)) as Hsub.
  destruct (CleanupClientRouteTable n w) as [e w1] eqn:Ec. cbn [snd] in *.
  destruct (IH w1 I1) as (w' & E & I' & Hs & Hn); [intros; apply Hl; by right|].
  exists w'. split; [|split; [done|split; [by intros ip m ?%Hs%Hsub|]]].
  { rewrite each_cons, <- E. f_equal. unfold mbind, ST_bind, on_kernel. cbn [fst snd]. by rewrite Ec. }
  intros t' n' ip [[= -> ->]|Hin]%elem_of_cons; [by intros ?%Hs%Hnone|by eapply Hn].
Qed.

Lemma CleanupAll_inv tables c w :
  Inv None (c, w) → few_clients c → map_range (Tables (data c)) tables →
  Inv None (CleanupAll tables (c, w)).2.
Proof.
  intros I Hfew Hrange. unfold CleanupAll.
  destruct (CleanupAll_loop tables c w I Hfew) as (w' & E & I' & _ & Hn).
  { intros t n. by apply map_range_elem. }
  unfold mbind at 1, ST_bind at 1. rewrite E. unfold on_store. cbn [fst snd].
  destruct (DeleteFile_sync c (inv_sync _ _ I)) as [Hs Hd]. destruct (DeleteFile c) as [e c']. cbn [snd] in *.
  split; cbn [fst snd]; rewrite ?Hd; simpl; try done; try apply NoDup_nil_2; [apply I'|].
  intros ip n Hin. destruct (inv_rules _ _ I' _ _ Hin) as [?|[(r & _ & _ & _ & Ht)|(? & [=] & _)]]; [by left|].
  exfalso. eapply (Hn (TunnelID r)); [|exact Hin]. by apply (map_range_elem _ _ _ _ Hrange).
Qed.

(** ** Sequences of operations *)
Inductive cr_op :=
  | OpCreate (cat : TunnelCatalog) (suffix : string) (route : ClientRoute)
  | OpUpdate (cat : TunnelCatalog) (route : ClientRoute)
  | OpDelete (id : string)
  | OpSetEnabled (cat : TunnelCatalog) (id : string) (enabled : bool)
  | OpOnTunnelStart (tunnelID kernelIface : string)
  | OpOnTunnelStop (tunnelID : string)
  | OpOnTunnelDelete (tunnelID : string)
  | OpReconcile (running : list (string * string))
  | OpCleanupAll (tables : list (string * Z)).

Definition run_op `{GoArch} (o : cr_op) (s : world (W := W)) : world (W := W) :=
  match o with
  | OpCreate cat suffix route => (Create cat suffix route s).2
  | OpUpdate cat route => (Update cat route s).2
  | OpDelete id => (Delete id s).2
  | OpSetEnabled cat id b => (SetEnabled cat id b s).2
  | OpOnTunnelStart t iface => (OnTunnelStart t iface s).2
  | OpOnTunnelStop t => (OnTunnelStop t s).2
  | OpOnTunnelDelete t => (OnTunnelDelete t s).2
  | OpReconcile running => (Reconcile running s).2
  | OpCleanupAll tables => (CleanupAll tables s).2
  end.

(** A new route has a new ID; [Update] is not used to disable a route of the same
    tunnel (see [update_disable_keeps_rule]); [CleanupAll] ranges over the tables,
    with at most 100 clients each. *)
Definition op_ok (o : cr_op) (s : world (W := W)) : Prop :=
  match o with
  | OpCreate _ suffix _ => "cr-" +:+ suffix ∉ ID <$> Routes (data s.1)
  | OpUpdate _ route =>
      ∀ old, cr_Get (ID route) s.1 = Some old → Enabled old = true → TunnelID route = TunnelID old →
      Enabled route = true
  | OpCleanupAll tables => few_clients s.1 ∧ map_range (Tables (data s.1)) tables
  | _ => True
  end.

Lemma run_op_inv `{GoArch} o s : Inv None s → op_ok o s → Inv None (run_op o s).
Proof.
  destruct s as [c w], o; simpl; intros I Hok; [by apply Create_inv|by apply Update_inv|by apply Delete_inv|
    by apply SetEnabled_inv|by apply OnTunnelStart_inv|by apply OnTunnelStop_inv|by apply OnTunnelDelete_inv|
    by apply Reconcile_inv|destruct Hok; by apply CleanupAll_inv].
Qed.
End policy.

(** ** The theorems *)
Section theorems.
Context {W : Type} `{O : RouteOperator W} `{L : !RouteLaws W} `{A : GoArch}.

Definition no_client_routes : ClientRouteStore :=
  {| data := defaultClientRouteData; cr_disk := None; cr_faults := [] |}.

(** The states reached from a new installation on a kernel [w0]. *)
Inductive reachable (w0 : W) : world (W := W) → Prop :=
  | reach_start : reachable w0 (no_client_routes, w0)
  | reach_step o s : reachable w0 s → op_ok o s → reachable w0 (run_op o s).

Lemma reachable_inv w0 s : reachable w0 s → Inv (has_rule w0) None s.
Proof.
  induction 1 as [|o s _ IH Hok]; [|by apply run_op_inv].
  split; simpl; try done; try apply NoDup_nil_2; [by split; [|right]|auto].
Qed.

(** C13: From a new installation, through any sequence of operations of the service of
    client routes on a healthy system (file accesses succeed, and deleting a policy rule
    that is there removes it), in which new routes get new IDs, no enabled route is
    disabled through [Update] without changing its tunnel ([update_disable_keeps_rule]
    shows what that leaves behind) and [CleanupAll] meets at most 100 clients per table:
    the policy rules of other programs are all still in the kernel, every other rule
    belongs to an enabled stored route and looks up the table allocated to the tunnel
    of that route, no two routes have the same ID or client, and the allocated tables
    are in 400..599, one per tunnel, and hold no rule of another program. *)
Theorem client_rules_invariant w0 s : reachable w0 s →
  (∀ ip n, has_rule w0 ip n → has_rule s.2 ip n) ∧
  (∀ ip n, has_rule s.2 ip n → has_rule w0 ip n ∨
     ∃ r, r ∈ Routes (data s.1) ∧ Enabled r = true ∧ ClientIP r = ip ∧ Tables (data s.1) !! TunnelID r = Some n) ∧
  NoDup (ID <$> Routes (data s.1)) ∧ NoDup (ClientIP <$> Routes (data s.1)) ∧
  (∀ t n, Tables (data s.1) !! t = Some n → (400 ≤ n ≤ 599)%Z ∧
     (∀ t', Tables (data s.1) !! t' = Some n → t' = t) ∧ ∀ ip, ¬ has_rule w0 ip n).
Proof.
  intros I%reachable_inv. split; [apply I|]. split.
  { intros ip n [?|[?|(? & [=] & _)]]%(inv_rules _ _ _ I); auto. }
  split; [apply I|]. split; [apply I|]. intros t n Ht. split; [by apply (inv_range _ _ _ I _ _ Ht)|].
  split; [intros t' Ht'; by apply (inv_inj _ _ _ I _ _ _ Ht')|intros ip; by apply (inv_own _ _ _ I _ _ _ Ht)].
Qed.

(** C23: The kill switch. When a tunnel that holds a table stops, the rule of an enabled
    client of the tunnel stays exactly when its policy is not "bypass" (so that its
    packets still look up the table of the tunnel), the rules of every other table stay,
    the stored routes stay, and the table is given back exactly when no client with
    the policy "drop" is left in it. *)
Theorem kill_switch w0 s t n : reachable w0 s → Tables (data s.1) !! t = Some n →
  let '(e, s') := OnTunnelStop t s in
  e = None ∧
  (∀ r, r ∈ Routes (data s.1) → TunnelID r = t → Enabled r = true →
     (has_rule s'.2 (ClientIP r) n ↔ has_rule s.2 (ClientIP r) n ∧ Fallback r ≠ "bypass")) ∧
  (∀ ip m, m ≠ n → has_rule s'.2 ip m ↔ has_rule s.2 ip m) ∧
  Routes (data s'.1) = Routes (data s.1) ∧
  Tables (data s'.1) = if existsb (λ r, negb (is_bypass r)) (enabled_routes t s.1) then Tables (data s.1)
                       else delete t (Tables (data s.1)).
Proof.
  intros I%reachable_inv Ht. destruct s as [c w]. cbn [fst] in Ht.
  destruct (OnTunnelStop_spec _ t n c w I Ht) as (c' & w' & -> & _ & Hrules & Hroutes & Htables).
  cbn [fst snd]. split; [done|]. split; [|split; [|done]].
  - intros r Hr Htun He. rewrite Hrules. apply and_iff_compat_l. split.
    + intros Hnot Hb. apply Hnot. split; [done|]. exists r. rewrite enabled_routes_elem.
      split; [done|]. split; [|done]. unfold is_bypass. by rewrite Hb.
    + intros Hb [_ (r' & [Hr' _]%enabled_routes_elem & Hb' & Hip)].
      rewrite (route_by_ip _ (c, w) None r' r I) in Hb' by done. unfold is_bypass in Hb'. by to_prop.
  - intros ip m Hm. rewrite Hrules. naive_solver.
Qed.

(** [Update] cannot switch a route off: disabling a route of an unchanged tunnel
    succeeds and is stored, but the rule stays in the kernel and keeps the client in
    the tunnel. *)
Theorem update_disable_keeps_rule cat route old s n :
  in_sync s.1 → cr_Get (ID route) s.1 = Some old → Enabled old = true → Enabled route = false →
  TunnelID route = TunnelID old → valid_fallback (Fallback route) = true → Exists cat (TunnelID route) = true →
  has_rule s.2 (ClientIP old) n →
  ∃ r s', Update cat route s = (inr r, s') ∧ cr_Get (ID route) s'.1 = Some r ∧
    ClientIP r = ClientIP old ∧ Enabled r = false ∧ has_rule s'.2 (ClientIP old) n.
Proof.
  intros S Hget Ho He Et Hfb Hex Hrule. destruct s as [c w]. cbn [fst snd] in *.
  exists (set_ClientHostname (ClientHostname old) (set_ClientIP (ClientIP old) route)).
  pose proof (cr_Get_split c _ _ Hget) as [Hid (l1 & l2 & E & Hl1)].
  set (r := set_ClientHostname _ _).
  assert (Update cat route (c, w) = (inr r, (stored {| Routes := l1 ++ r :: l2; Tables := Tables (data c) |}, w))) as ->.
  { unfold Update, see. unfold mbind at 1, ST_bind at 1. cbn [fst]. rewrite Hget, Hfb, Hex. cbn [negb].
    fold r. change (Enabled r) with (Enabled route). change (TunnelID r) with (TunnelID route).
    rewrite Et, String.eqb_refl, He. cbn [negb andb]. unfold mbind, ST_bind, on_store. cbn [andb mret fst snd].
    unfold mret, ST_ret. cbn [fst snd].
    by rewrite (cr_Update_sync c S l1 old l2 r) by (done || by rewrite Hid). }
  eexists. split; [done|]. split; [|done]. cbn. clear - Hl1 Hid. induction l1 as [|x l1 IH]; cbn.
  - by rewrite String.eqb_refl.
  - rewrite (proj2 (String.eqb_neq _ _)) by (apply Hl1; by left). apply IH. intros; apply Hl1; by right.
Qed.
End theorems.

(** ** Concrete runs, with the operator of the source over the simulated tool

    Another program has a rule in table 400.  Two clients are sent through a running
    tunnel, one with each policy. *)
#[local] Existing Instance plain_unicode.
#[local] Existing Instance arch64.

Definition sim_kernel : gset (string * string) := {[("172.16.0.9", "400")]}.
Definition sim_catalog : TunnelCatalog :=
  {| Exists := String.eqb "awg0"; GetKernelIface t := if String.eqb t "awg0" then Some "opkgtun0" else None |}.
Definition sim_route (ip fallback : string) : ClientRoute :=
  {| ID := ""; ClientIP := ip; ClientHostname := ""; TunnelID := "awg0"; Fallback := fallback; Enabled := true |}.
Definition sim_two : world :=
  run_op (OpCreate sim_catalog "b" (sim_route "192.168.1.8" "bypass"))
    (run_op (OpCreate sim_catalog "a" (sim_route "192.168.1.7" "drop")) (no_client_routes, sim_kernel)).

Lemma sim_two_reachable : reachable sim_kernel sim_two.
Proof. repeat apply reach_step; [apply reach_start|..]; by apply (bool_decide_unpack _); vm_compute. Qed.

#[local] Instance sim_has_rule_dec (w : gset (string * string)) ip n : Decision (has_rule w ip n) :=
  gset_elem_of_dec (ip, Itoa n) w.

Example sim_two_rules : elements sim_two.2 ≡ₚ
  [("172.16.0.9", "400"); ("192.168.1.7", "401"); ("192.168.1.8", "401")].
Proof. by apply (bool_decide_unpack _); vm_compute. Qed.

Lemma client_rules_invariant_witness :
  has_rule sim_two.2 "172.16.0.9" 400 ∧ has_rule sim_two.2 "192.168.1.7" 401 ∧
  ∀ ip n, has_rule sim_two.2 ip n → has_rule sim_kernel ip n ∨
    ∃ r, r ∈ Routes (data sim_two.1) ∧ Enabled r = true ∧ ClientIP r = ip ∧
      Tables (data sim_two.1) !! TunnelID r = Some n.
Proof.
  split; [by apply (bool_decide_unpack _); vm_compute|].
  split; [by apply (bool_decide_unpack _); vm_compute|].
  apply (client_rules_invariant sim_kernel sim_two sim_two_reachable).
Defined.

Lemma kill_switch_witness :
  let s := (OnTunnelStop "awg0" sim_two).2 in
  (∀ ip m, m ≠ 401%Z → has_rule s.2 ip m ↔ has_rule sim_two.2 ip m) ∧
  has_rule s.2 "192.168.1.7" 401 ∧ ¬ has_rule s.2 "192.168.1.8" 401 ∧
  Tables (data s.1) !! "awg0" = Some 401%Z.
Proof.
  split.
  - pose proof (kill_switch sim_kernel sim_two "awg0" 401 sim_two_reachable) as H.
    destruct (OnTunnelStop "awg0" sim_two) as [e s']. apply H. vm_compute. reflexivity.
  - split; [by apply (bool_decide_unpack _); vm_compute|].
    split; [by apply (bool_decide_unpack _); vm_compute|]. vm_compute. reflexivity.
Defined.

Definition sim_disable : ClientRoute := {|
  ID := "cr-b"; ClientIP := ""; ClientHostname := ""; TunnelID := "awg0"; Fallback := "bypass"; Enabled := false |}.

Lemma update_disable_keeps_rule_witness :
  ∃ r s', Update sim_catalog sim_disable sim_two = (inr r, s') ∧ cr_Get "cr-b" s'.1 = Some r ∧
    ClientIP r = "192.168.1.8" ∧ Enabled r = false ∧ has_rule s'.2 "192.168.1.8" 401.
Proof.
  apply (update_disable_keeps_rule sim_catalog sim_disable
    {| ID := "cr-b"; ClientIP := "192.168.1.8"; ClientHostname := ""; TunnelID := "awg0";
       Fallback := "bypass"; Enabled := true |} sim_two 401).
  - split; [vm_compute; reflexivity|left; vm_compute; reflexivity].
  - vm_compute; reflexivity.
  - reflexivity.
  - reflexivity.
  - reflexivity.
  - reflexivity.
  - reflexivity.
  - by apply (bool_decide_unpack _); vm_compute.
Defined.
