(* ===== verification/SbJson.v ===== *)
(** * JSON documents of the sing-box configuration

    The files of [config.d] as [encoding/json] reads them, and the part of a slot
    file the orchestrator looks at ([slotConfig] of
    [internal/singbox/orchestrator/validate.go]).

    Objects have distinct keys, spelled as the source spells them (Go would also
    accept another case for the keys of a struct).  A file is a document in some
    layout of white space, or a text [json.Unmarshal] rejects. *)
From S2P Require Import Prelude GoLib.

Inductive json :=
  | JNull
  | JBool (b : bool)
  | JNumber (text : string)
  | JString (s : string)
  | JArray (l : list json)
  | JObject (fields : list (string * json)).

Inductive content :=
  | Doc (layout : string) (j : json)
  | Junk (text : string).

(** [len(data) == 0] *)
Definition is_empty (c : content) : bool := match c with Junk "" => true | _ => false end.

(** [json.Unmarshal] into [any]. *)
Definition unmarshal (c : content) : option json := match c with Doc _ j => Some j | Junk _ => None end.

(** [json.MarshalIndent(v, "", "  ")] and [json.Marshal(v)]: the order of keys is
    not modelled. *)
Definition MarshalIndent (j : json) : content := Doc "indent" j.
Definition Marshal (j : json) : content := Doc "" j.

(** ** Go values of type [map[string]any] *)

Definition obj_get (k : string) (fs : list (string * json)) : option json :=
  snd <$> List.find (λ f, String.eqb f.1 k) fs.
Definition obj_set (k : string) (v : json) (fs : list (string * json)) : list (string * json) :=
  (λ f, if String.eqb f.1 k then (k, v) else f) <$> fs.
Definition obj_delete (k : string) (fs : list (string * json)) : list (string * json) :=
  filter (λ f, f.1 ≠ k) fs.

(** [v, _ := x.(string)] of a field that may be missing. *)
Definition as_string (v : option json) : string := match v with Some (JString s) => s | _ => "" end.

(** ** Decoding into structs: [None] is an error of [json.Unmarshal] *)

Definition dec_string (v : option json) : option string :=
  match v with None | Some JNull => Some "" | Some (JString s) => Some s | Some _ => None end.

Definition dec_list {A} (dec : json → option A) (v : option json) : option (list A) :=
  match v with
  | None | Some JNull => Some []
  | Some (JArray l) => mapM dec l
  | Some _ => None
  end.

(** A struct: [null] leaves it zero. *)
Definition dec_struct {A} (zero : A) (dec : list (string * json) → option A) (v : option json) : option A :=
  match v with
  | None | Some JNull => Some zero
  | Some (JObject fs) => dec fs
  | Some _ => None
  end.

Record inboundJSON := { ib_Tag : string; ib_Type : string }.
Record outboundJSON := { ob_Tag : string; ob_Outbounds : list string; ob_Default : string }.
Record ruleSetJSON := { set_Tag : string; DownloadDetour : string }.
Inductive ruleJSON := Rule (Outbound : string) (RuleSet : list string) (Rules : list ruleJSON).
Record dnsServerJSON := { ds_Tag : string; Detour : string }.
Record routeJSON := {
  route_Final : string;
  Rules : list ruleJSON;
  RuleSets : list ruleSetJSON;
  DefaultDomainResolver : option string; (* its Server *)
}.
Record dnsJSON := { Servers : list dnsServerJSON; dns_Rules : list (list string); dns_Final : string }.
Record slotConfig := {
  Inbounds : list inboundJSON;
  Outbounds : list outboundJSON;
  Endpoints : list outboundJSON;
  Route : routeJSON;
  DNS : dnsJSON;
}.

Definition zero_route : routeJSON :=
  {| route_Final := ""; Rules := []; RuleSets := []; DefaultDomainResolver := None |}.
Definition zero_dns : dnsJSON := {| Servers := []; dns_Rules := []; dns_Final := "" |}.
Definition zero_config : slotConfig :=
  {| Inbounds := []; Outbounds := []; Endpoints := []; Route := zero_route; DNS := zero_dns |}.

Definition dec_str (j : json) : option string := dec_string (Some j).
Definition dec_strings : option json → option (list string) := dec_list dec_str.

Definition dec_inbound (j : json) : option inboundJSON :=
  dec_struct {| ib_Tag := ""; ib_Type := "" |} (λ fs,
    tag ← dec_string (obj_get "tag" fs);
    type ← dec_string (obj_get "type" fs);
    Some {| ib_Tag := tag; ib_Type := type |}) (Some j).

Definition dec_outbound (j : json) : option outboundJSON :=
  dec_struct {| ob_Tag := ""; ob_Outbounds := []; ob_Default := "" |} (λ fs,
    tag ← dec_string (obj_get "tag" fs);
    members ← dec_strings (obj_get "outbounds" fs);
    def ← dec_string (obj_get "default" fs);
    Some {| ob_Tag := tag; ob_Outbounds := members; ob_Default := def |}) (Some j).

Definition dec_rule_set (j : json) : option ruleSetJSON :=
  dec_struct {| set_Tag := ""; DownloadDetour := "" |} (λ fs,
    tag ← dec_string (obj_get "tag" fs);
    detour ← dec_string (obj_get "download_detour" fs);
    Some {| set_Tag := tag; DownloadDetour := detour |}) (Some j).

Definition dec_dns_server (j : json) : option dnsServerJSON :=
  dec_struct {| ds_Tag := ""; Detour := "" |} (λ fs,
    tag ← dec_string (obj_get "tag" fs);
    detour ← dec_string (obj_get "detour" fs);
    Some {| ds_Tag := tag; Detour := detour |}) (Some j).

Definition dec_dns_rule (j : json) : option (list string) :=
  dec_struct [] (λ fs, dec_strings (obj_get "rule_set" fs)) (Some j).

(** The nested rules of a rule; the fuel is the depth of the document. *)
Fixpoint dec_rule (fuel : nat) (j : json) : option ruleJSON :=
  match fuel with
  | O => None
  | S fuel =>
      dec_struct (Rule "" [] []) (λ fs,
        outbound ← dec_string (obj_get "outbound" fs);
        sets ← dec_strings (obj_get "rule_set" fs);
        rules ← dec_list (dec_rule fuel) (obj_get "rules" fs);
        Some (Rule outbound sets rules)) (Some j)
  end.

Fixpoint depth (j : json) : nat :=
  match j with
  | JArray l => S (foldr (λ j n, max (depth j) n) 0%nat l)
  | JObject fs => S (foldr (λ f n, max (depth f.2) n) 0%nat fs)
  | _ => 1
  end.

(** [domainResolverJSON.UnmarshalJSON]: the tag of a server, or an object. *)
Definition dec_resolver (v : option json) : option (option string) :=
  match v with
  | None | Some JNull => Some None
  | Some (JString s) => Some (Some s)
  | Some j => Some <$> dec_struct "" (λ fs, dec_string (obj_get "server" fs)) (Some j)
  end.

Definition dec_route (fuel : nat) : option json → option routeJSON :=
  dec_struct zero_route (λ fs,
    final ← dec_string (obj_get "final" fs);
    rules ← dec_list (dec_rule fuel) (obj_get "rules" fs);
    sets ← dec_list dec_rule_set (obj_get "rule_set" fs);
    resolver ← dec_resolver (obj_get "default_domain_resolver" fs);
    Some {| route_Final := final; Rules := rules; RuleSets := sets; DefaultDomainResolver := resolver |}).

Definition dec_dns : option json → option dnsJSON :=
  dec_struct zero_dns (λ fs,
    servers ← dec_list dec_dns_server (obj_get "servers" fs);
    rules ← dec_list dec_dns_rule (obj_get "rules" fs);
    final ← dec_string (obj_get "final" fs);
    Some {| Servers := servers; dns_Rules := rules; dns_Final := final |}).

Definition dec_config (j : json) : option slotConfig :=
  dec_struct zero_config (λ fs,
    inbounds ← dec_list dec_inbound (obj_get "inbounds" fs);
    outbounds ← dec_list dec_outbound (obj_get "outbounds" fs);
    endpoints ← dec_list dec_outbound (obj_get "endpoints" fs);
    route ← dec_route (depth j) (obj_get "route" fs);
    dns ← dec_dns (obj_get "dns" fs);
    Some {| Inbounds := inbounds; Outbounds := outbounds; Endpoints := endpoints;
            Route := route; DNS := dns |}) (Some j).

(** [json.Unmarshal(data, &c)] *)
Definition unmarshal_config (c : content) : option slotConfig := unmarshal c ≫= dec_config.

(** The tags of the outbounds and endpoints, which share a name space. *)
Definition outbound_tags (c : slotConfig) : list string :=
  filter (.≠ "") (ob_Tag <$> Outbounds c ++ Endpoints c).

(** [countOutbounds]: the array [outbounds] of raw messages. *)
Definition countOutbounds (data : content) : nat :=
  match unmarshal data with
  | Some (JObject fs) => match obj_get "outbounds" fs with Some (JArray l) => length l | _ => 0 end
  | _ => 0
  end.

(** ** Reading a field after a change *)

Lemma obj_get_set_eq k v fs w : obj_get k fs = Some w → obj_get k (obj_set k v fs) = Some v.
Proof.
  unfold obj_get, obj_set. induction fs as [|[k' x] fs IH]; [done|]. simpl.
  destruct (String.eqb k' k) eqn:E; simpl; [by rewrite String.eqb_refl|]. rewrite E. apply IH.
Qed.

Lemma obj_get_set_ne k k' v fs : k ≠ k' → obj_get k' (obj_set k v fs) = obj_get k' fs.
Proof.
  intros Hne. unfold obj_get, obj_set. induction fs as [|[k0 x] fs IH]; [done|]. simpl.
  destruct (String.eqb k0 k) eqn:E; to_prop; subst; simpl; [|by destruct (String.eqb k0 k')].
  rewrite (proj2 (String.eqb_neq _ _)) by done. apply IH.
Qed.

Lemma obj_get_delete_ne k k' fs : k ≠ k' → obj_get k' (obj_delete k fs) = obj_get k' fs.
Proof.
  intros Hne. unfold obj_get, obj_delete. induction fs as [|[k0 x] fs IH]; [done|]. rewrite filter_cons. simpl.
  destruct (base.decide (k0 = k)) as [->|E].
  - rewrite decide_False by auto. by rewrite (proj2 (String.eqb_neq _ _)).
  - rewrite decide_True by auto. simpl. by destruct (String.eqb k0 k').
Qed.

Lemma obj_get_delete_eq k fs : obj_get k (obj_delete k fs) = None.
Proof.
  unfold obj_get, obj_delete. induction fs as [|[k0 x] fs IH]; [done|]. rewrite filter_cons. simpl.
  case_decide as E; simpl; [by rewrite (proj2 (String.eqb_neq _ _))|done].
Qed.
