(* ===== verification/SbValidate.v ===== *)
(** * Cross-slot validation and pruning of the sing-box configuration
    ([internal/singbox/orchestrator]: [types.go], [validate.go], the pruning of
    [reload.go])

    The texts of errors and locations are data: [message] and [location] say what
    the source formats. *)
From S2P Require Import Prelude GoLib SbJson.

(** ** Slots *)

Definition SlotBase : string := "base".
Definition SlotTunnels : string := "tunnels".
Definition SlotAwg : string := "awg".
Definition SlotAwg3 : string := "awg3".
Definition SlotDNSRewrites : string := "dns-rewrites".
Definition SlotQoSRoutes : string := "qos-routes".
Definition SlotSelectiveRoutes : string := "selective-routes".
Definition SlotRouter : string := "router".
Definition SlotFakeIP : string := "fakeip".
Definition SlotDeviceProxy : string := "deviceproxy".
Definition SlotDownloadProxy : string := "downloadproxy".
Definition SlotSubscriptions : string := "subscriptions".
Definition SlotUser : string := "user".

(** [HasContent]: whether the callback is set. *)
Record SlotMeta := { Slot : string; Filename : string; AlwaysOn : bool; HasContent : bool }.

Definition slot_meta (s f : string) (always : bool) : SlotMeta :=
  {| Slot := s; Filename := f; AlwaysOn := always; HasContent := false |}.

Definition KnownSlots : list SlotMeta := [
  slot_meta SlotBase "00-base.json" true;
  slot_meta SlotTunnels "10-tunnels.json" true;
  slot_meta SlotAwg "15-awg.json" true;
  slot_meta SlotAwg3 "16-awg3.json" true;
  slot_meta SlotDNSRewrites "17-dns-rewrites.json" false;
  slot_meta SlotQoSRoutes "18-qos-routes.json" false;
  slot_meta SlotSelectiveRoutes "19-selective-routes.json" false;
  slot_meta SlotRouter "20-router.json" false;
  slot_meta SlotFakeIP "21-fakeip.json" false;
  slot_meta SlotDeviceProxy "30-deviceproxy.json" false;
  slot_meta SlotDownloadProxy "35-download-proxy.json" false;
  slot_meta SlotSubscriptions "40-subscriptions.json" false;
  slot_meta SlotUser "90-user.json" false ].

(** ** Errors *)

Inductive location :=
  | Nowhere
  | AtRule (path : list nat)                       (* route.rules[i].rules[j]... *)
  | AtRuleSetOf (path : list nat)                  (* the same, .rule_set *)
  | AtRouteFinal
  | AtMember (idx : nat) (parent : string) (member : nat)
  | AtDefault (idx : nat) (parent : string)
  | AtDownloadDetour (idx : nat) (parent : string)
  | AtDnsDetour (idx : nat) (parent : string)
  | AtDnsRule (idx : nat)
  | AtDnsFinal
  | AtResolver.

Inductive message :=
  | Text (s : string)
  | AlsoIn (slot : string)
  | NoOutbound | NoRuleSet | NoDnsServer
  | FinalConflict (slots : list string).

Record ValidationError := {
  e_Slot : string;
  Kind : string;
  warning : bool; (* Severity == SeverityWarning *)
  Tag : string;
  InRule : location;
  Message : message;
  Outbound : option (string * nat); (* OutboundSlot, OutboundIndex *)
}.

Definition err (slot kind tag : string) (loc : location) (m : message) : ValidationError :=
  {| e_Slot := slot; Kind := kind; warning := false; Tag := tag; InRule := loc; Message := m; Outbound := None |}.

Record ValidationResult := { Errors : list ValidationError; HasTun : bool }.

Definition Ok (r : ValidationResult) : bool := forallb warning (Errors r).

(** ** What a slot declares and refers to *)

Record validationSectionRefs := {
  refs_slot : string;
  rules : list (string * location);
  finals : list string;
  sels : list (string * location);
  ruleSets : list (string * location);
  dnsTagRefs : list (string * location);
}.

(** [collectRuleRefs]: a rule, then the rules nested in it, with their paths. *)
Fixpoint walk_rules {A} (f : list nat → ruleJSON → list A) (path : list nat) (r : ruleJSON) : list A :=
  let 'Rule _ _ nested := r in
  f path r ++
  (fix go i l := match l with
     | [] => []
     | r :: l => walk_rules f (path ++ [i]) r ++ go (S i) l
     end) 0%nat nested.

Definition collect_outbounds : list nat → ruleJSON → list (string * location) :=
  walk_rules (λ path '(Rule outbound _ _), if String.eqb outbound "" then [] else [(outbound, AtRule path)]).
Definition collect_rule_sets : list nat → ruleJSON → list (string * location) :=
  walk_rules (λ path '(Rule _ sets _), (λ tag, (tag, AtRuleSetOf path)) <$> sets).

Definition nonempty (l : list (string * location)) : list (string * location) := filter (λ r, r.1 ≠ "") l.

Definition member_refs (i : nat) (ob : outboundJSON) : list (string * location) :=
  imap (λ j member, (member, AtMember i (ob_Tag ob) j)) (ob_Outbounds ob) ++
  nonempty [(ob_Default ob, AtDefault i (ob_Tag ob))].

Definition section_refs (slot : string) (c : slotConfig) : validationSectionRefs := {|
  refs_slot := slot;
  rules := concat (imap (λ i, collect_outbounds [i]) (Rules (Route c)));
  finals := filter (.≠ "") [route_Final (Route c)];
  sels :=
    nonempty (imap (λ i s, (DownloadDetour s, AtDownloadDetour i (set_Tag s))) (RuleSets (Route c))) ++
    concat (imap member_refs (Outbounds c)) ++
    nonempty (imap (λ i d, (Detour d, AtDnsDetour i (ds_Tag d))) (Servers (DNS c)));
  ruleSets :=
    concat (imap (λ i, collect_rule_sets [i]) (Rules (Route c))) ++
    concat (imap (λ i sets, (λ tag, (tag, AtDnsRule i)) <$> sets) (dns_Rules (DNS c)));
  dnsTagRefs :=
    nonempty [(dns_Final (DNS c), AtDnsFinal);
              (default "" (DefaultDomainResolver (Route c)), AtResolver)];
|}.

(** ** The scan over the slots *)

Record scan := {
  outbounds : gmap string string;
  inbounds : gmap string string;
  dnsServers : gmap string string;
  ruleSetsBySlot : gmap string (list string);
  errs : list ValidationError;
  hasTun : bool;
  routeFinalSlots : list string;
  dnsFinalSlots : list string;
  pending : list validationSectionRefs;
}.

Definition no_scan : scan := {|
  outbounds := ∅; inbounds := ∅; dnsServers := ∅; ruleSetsBySlot := ∅; errs := []; hasTun := false;
  routeFinalSlots := []; dnsFinalSlots := []; pending := [] |}.

(** The loops that declare tags: the first slot to use a tag owns it. *)
Fixpoint declare (slot kind : string) (tags : list string) (m : gmap string string) (es : list ValidationError)
  : gmap string string * list ValidationError :=
  match tags with
  | [] => (m, es)
  | tag :: tags =>
      if String.eqb tag "" then declare slot kind tags m es
      else match m !! tag with
      | Some existing => declare slot kind tags m (es ++ [err slot kind tag Nowhere (AlsoIn existing)])
      | None => declare slot kind tags (<[tag := slot]> m) es
      end
  end.

Definition add_error (e : ValidationError) (a : scan) : scan := {|
  outbounds := outbounds a; inbounds := inbounds a; dnsServers := dnsServers a;
  ruleSetsBySlot := ruleSetsBySlot a; errs := errs a ++ [e]; hasTun := hasTun a;
  routeFinalSlots := routeFinalSlots a; dnsFinalSlots := dnsFinalSlots a; pending := pending a |}.

Definition scan_config (slot : string) (c : slotConfig) (a : scan) : scan :=
  let '(obs, es) := declare slot "duplicate-outbound" (ob_Tag <$> Outbounds c ++ Endpoints c) (outbounds a) (errs a) in
  let '(ibs, es) := declare slot "duplicate-inbound" (ib_Tag <$> Inbounds c) (inbounds a) es in
  let '(dss, es) := declare slot "duplicate-dns" (ds_Tag <$> Servers (DNS c)) (dnsServers a) es in
  {| outbounds := obs; inbounds := ibs; dnsServers := dss;
     ruleSetsBySlot := <[slot := filter (.≠ "") (set_Tag <$> RuleSets (Route c))]> (ruleSetsBySlot a);
     errs := es;
     hasTun := hasTun a || existsb (λ ib, String.eqb (ib_Type ib) "tun") (Inbounds c);
     routeFinalSlots := routeFinalSlots a ++ (if String.eqb (route_Final (Route c)) "" then [] else [slot]);
     dnsFinalSlots := dnsFinalSlots a ++ (if String.eqb (dns_Final (DNS c)) "" then [] else [slot]);
     pending := pending a ++ [section_refs slot c] |}.

(** One slot of the scan: what reading its file gave. *)
Definition scan_slot (slot : string) (r : string + option content) (a : scan) : scan :=
  match r with
  | inl e => add_error (err slot "read-error" "" Nowhere (Text e)) a
  | inr None => a
  | inr (Some data) =>
      if is_empty data then a
      else match unmarshal_config data with
      | None => add_error (err slot "parse-error" "" Nowhere (Text "json")) a
      | Some c => scan_config slot c a
      end
  end.

(** ** Resolution of the references *)

Definition builtins : list string := ["direct"; "block"; "dns"].

Definition knownOutbound (a : scan) (tag : string) : bool :=
  bool_decide (tag ∈ builtins) || bool_decide (is_Some (outbounds a !! tag)).
Definition knownDNSServer (a : scan) (tag : string) : bool := bool_decide (is_Some (dnsServers a !! tag)).
Definition knownRuleSet (a : scan) (slot tag : string) : bool :=
  bool_decide (tag ∈ default [] (ruleSetsBySlot a !! slot)).

Definition unresolved (known : string → bool) (slot kind : string) (m : message) (l : list (string * location))
  : list ValidationError :=
  (λ r, err slot kind r.1 r.2 m) <$> filter (λ r, known r.1 = false) l.

Definition resolve (a : scan) (rs : validationSectionRefs) : list ValidationError :=
  let slot := refs_slot rs in
  unresolved (knownOutbound a) slot "unknown-outbound" NoOutbound (rules rs) ++
  unresolved (knownOutbound a) slot "unknown-outbound" NoOutbound ((λ tag, (tag, AtRouteFinal)) <$> finals rs) ++
  unresolved (knownOutbound a) slot "unknown-outbound" NoOutbound (sels rs) ++
  unresolved (knownRuleSet a slot) slot "unknown-rule-set" NoRuleSet (ruleSets rs) ++
  unresolved (knownDNSServer a) slot "unknown-dns-server" NoDnsServer (dnsTagRefs rs).

Definition final_conflict (kind : string) (loc : location) (slots : list string) : list ValidationError :=
  match slots with
  | s :: _ :: _ =>
      [{| e_Slot := s; Kind := kind; warning := true; Tag := ""; InRule := loc;
          Message := FinalConflict slots; Outbound := None |}]
  | _ => []
  end.

(** [sort.SliceStable] by slot, kind and tag. *)
Definition err_le (e1 e2 : ValidationError) : bool :=
  match String.compare (e_Slot e1) (e_Slot e2) with
  | Lt => true | Gt => false
  | Eq =>
      match String.compare (Kind e1) (Kind e2) with
      | Lt => true | Gt => false
      | Eq => match String.compare (Tag e1) (Tag e2) with Gt => false | _ => true end
      end
  end.

Definition err_order (e1 e2 : ValidationError) : Prop := err_le e1 e2 = true.
#[export] Instance err_order_dec e1 e2 : Decision (err_order e1 e2) := bool_eq_dec _ _.

Definition finish (a : scan) : ValidationResult := {|
  Errors := merge_sort err_order
    (errs a ++ concat (resolve a <$> pending a) ++
     final_conflict "route-final-conflict" AtRouteFinal (routeFinalSlots a) ++
     final_conflict "dns-final-conflict" AtDnsFinal (dnsFinalSlots a));
  HasTun := hasTun a |}.

(** The validation of slots whose files have been read, in the order of [KnownSlots]. *)
Definition validate_read (l : list (string * (string + option content))) : ValidationResult :=
  finish (foldl (λ a r, scan_slot r.1 r.2 a) no_scan l).

(** ** Pruning dangling selector members ([pruneDanglingSelectorRefsInDoc]) *)

Definition is_known (known : gset string) (tag : string) : bool := bool_decide (tag ∈ known).

(** [tag == "" || known[tag]], where a member that is not a string counts as empty. *)
Definition keep_member (known : gset string) (m : json) : bool :=
  let tag := as_string (Some m) in String.eqb tag "" || is_known known tag.

Definition prune_outbound (known : gset string) (ob : json) : bool * json :=
  match ob with
  | JObject fs =>
      match obj_get "outbounds" fs with
      | Some (JArray ((_ :: _) as members)) =>
          let kept := filter (λ m, keep_member known m = true) members in
          let drop := bool_decide (length kept ≠ length members) && bool_decide (kept ≠ []) in
          let fs' := if drop then obj_set "outbounds" (JArray kept) fs else fs in
          let def := as_string (obj_get "default" fs) in
          let clear := negb (String.eqb def "") && negb (is_known known def) in
          (drop || clear, JObject (if clear then obj_delete "default" fs' else fs'))
      | _ => (false, ob)
      end
  | _ => (false, ob)
  end.

Definition pruneDanglingSelectorRefsInDoc (known : gset string) (root : json) : bool * json :=
  match root with
  | JObject fs =>
      match obj_get "outbounds" fs with
      | Some (JArray obs) =>
          let r := prune_outbound known <$> obs in
          (existsb fst r, JObject (obj_set "outbounds" (JArray (r.*2)) fs))
      | _ => (false, root)
      end
  | _ => (false, root)
  end.

(** [pruneDanglingSelectorRefsBytes]: on the bytes, for the validation of a draft. *)
Definition pruneDanglingSelectorRefsBytes (known : gset string) (data : content) : content :=
  match unmarshal data with
  | Some ((JObject _ | JNull) as root) =>
      let '(changed, root) := pruneDanglingSelectorRefsInDoc known root in
      if changed then Marshal root else data
  | _ => data
  end.
