(* ===== verification/SbValidateProps.v ===== *)
(** * What the cross-slot validation accepts

    [Ok] holds exactly when every file decodes and the merged configuration is
    consistent: unique tags, and every reference resolves. *)
From S2P Require Import Prelude GoLib SbJson SbValidate.

(** ** The declarative reading *)

Definition inbound_tags (c : slotConfig) : list string := filter (.≠ "") (ib_Tag <$> Inbounds c).
Definition dns_tags (c : slotConfig) : list string := filter (.≠ "") (ds_Tag <$> Servers (DNS c)).
Definition rule_set_tags (c : slotConfig) : list string := filter (.≠ "") (set_Tag <$> RuleSets (Route c)).

(** A rule of the list, or a rule nested in one. *)
Inductive rule_in (r : ruleJSON) : list ruleJSON → Prop :=
  | rule_here l : r ∈ l → rule_in r l
  | rule_nested o s rs l : Rule o s rs ∈ l → rule_in r rs → rule_in r l.

Definition outbound_of (r : ruleJSON) : string := let 'Rule o _ _ := r in o.
Definition rule_sets_of (r : ruleJSON) : list string := let 'Rule _ s _ := r in s.

Definition refers_outbound (c : slotConfig) (t : string) : Prop :=
  (t ≠ "" ∧ ∃ r, rule_in r (Rules (Route c)) ∧ outbound_of r = t) ∨
  (t ≠ "" ∧ route_Final (Route c) = t) ∨
  (∃ ob, ob ∈ Outbounds c ∧ (t ∈ ob_Outbounds ob ∨ (t ≠ "" ∧ ob_Default ob = t))) ∨
  (t ≠ "" ∧ ∃ s, s ∈ RuleSets (Route c) ∧ DownloadDetour s = t) ∨
  (t ≠ "" ∧ ∃ d, d ∈ Servers (DNS c) ∧ Detour d = t).

Definition refers_rule_set (c : slotConfig) (t : string) : Prop :=
  (∃ r, rule_in r (Rules (Route c)) ∧ t ∈ rule_sets_of r) ∨ (∃ l, l ∈ dns_Rules (DNS c) ∧ t ∈ l).

Definition refers_dns (c : slotConfig) (t : string) : Prop :=
  t ≠ "" ∧ (dns_Final (DNS c) = t ∨ DefaultDomainResolver (Route c) = Some t).

Definition all_tags (f : slotConfig → list string) (cs : list (string * slotConfig)) : list string :=
  concat ((λ sc, f sc.2) <$> cs).

Record consistent (cs : list (string * slotConfig)) : Prop := {
  unique_outbounds : NoDup (all_tags outbound_tags cs);
  unique_inbounds : NoDup (all_tags inbound_tags cs);
  unique_dns : NoDup (all_tags dns_tags cs);
  outbounds_resolve : ∀ s c t, (s, c) ∈ cs → refers_outbound c t → t ∈ builtins ∨ t ∈ all_tags outbound_tags cs;
  rule_sets_resolve : ∀ s c t, (s, c) ∈ cs → refers_rule_set c t → t ∈ rule_set_tags c;
  dns_resolve : ∀ s c t, (s, c) ∈ cs → refers_dns c t → t ∈ all_tags dns_tags cs;
}.

(** ** References *)

Lemma rule_in_ind_rose (P : ruleJSON → Prop) :
  (∀ o s rs, Forall P rs → P (Rule o s rs)) → ∀ r, P r.
Proof.
  intros H. fix IH 1. intros [o s rs]. apply H. induction rs as [|r rs IHrs]; constructor; [apply IH|done].
Qed.

Lemma imap_go {A B} (f : nat → A → list B) l n :
  (fix go i l := match l with [] => [] | r :: l => f i r ++ go (S i) l end) n l = concat (imap (λ i, f (n + i)%nat) l).
Proof.
  revert n. induction l as [|r l IH]; intros n; [done|]. simpl. rewrite Nat.add_0_r, IH. f_equal. f_equal.
  apply imap_ext. intros i x _. simpl. f_equal. lia.
Qed.

Lemma elem_of_concat {A} (L : list (list A)) x : x ∈ concat L ↔ ∃ l, l ∈ L ∧ x ∈ l.
Proof.
  rewrite list_elem_of_In, in_concat. split; intros (l & Hl & Hx); exists l;
    [by rewrite !list_elem_of_In|by rewrite <- !list_elem_of_In].
Qed.

Lemma elem_of_concat_imap {A B} (f : nat → A → list B) l x :
  x ∈ concat (imap f l) ↔ ∃ i y, l !! i = Some y ∧ x ∈ f i y.
Proof.
  rewrite elem_of_concat. split.
  - intros (l' & Hl' & Hx). apply list_elem_of_lookup in Hl' as [i Hi]. rewrite list_lookup_imap in Hi.
    destruct (l !! i) as [y|] eqn:Hy; simplify_eq/=. by eauto.
  - intros (i & y & Hy & Hx). exists (f i y). split; [|done]. apply list_elem_of_lookup. exists i.
    by rewrite list_lookup_imap, Hy.
Qed.

(** The references of one rule, nested ones included. *)
Lemma walk_rules_spec (f : list nat → ruleJSON → list (string * location)) (Q : string → ruleJSON → Prop) r path t :
  (∀ p r, (∃ loc, (t, loc) ∈ f p r) ↔ Q t r) →
  (∃ loc, (t, loc) ∈ walk_rules f path r) ↔ ∃ r', rule_in r' [r] ∧ Q t r'.
Proof.
  intros HQ. revert path. induction r as [o s rs IH] using rule_in_ind_rose. intros path. cbn [walk_rules].
  rewrite (imap_go (λ i, walk_rules f (path ++ [i]))). setoid_rewrite elem_of_app.
  setoid_rewrite elem_of_concat_imap. rewrite Forall_forall in IH. split.
  - intros (loc & [H|(i & r' & Hr' & H)]).
    + exists (Rule o s rs). split; [by apply rule_here; left|]. apply (HQ path). by eauto.
    + apply list_elem_of_lookup_2 in Hr'. destruct (IH r' Hr' (path ++ [i])) as [Hd _].
      destruct Hd as (r0 & Hin & ?); [by eauto|]. exists r0. split; [|done].
      apply (rule_nested _ o s rs); [by left|].
      inversion Hin as [l Hl|o' s' rs' l Hl Hn]; subst; apply list_elem_of_singleton in Hl; subst;
        [by apply rule_here|by eapply rule_nested].
  - intros (r0 & Hin & Ho).
    inversion Hin as [l Hl|o' s' rs' l Hl Hn]; subst; apply list_elem_of_singleton in Hl; simplify_eq/=.
    + apply (HQ path) in Ho as [loc ?]. by eauto.
    + assert (∃ r', r' ∈ rs ∧ rule_in r0 [r']) as (r' & Hr' & Hin').
      { inversion Hn as [l Hl|o' s' rs' l Hl Hn']; subst; [exists r0|exists (Rule o' s' rs')];
          split; try done; [by apply rule_here; left|by eapply rule_nested; [left|]]. }
      apply list_elem_of_lookup in Hr' as [i Hi]. pose proof (list_elem_of_lookup_2 _ _ _ Hi) as Hr'.
      destruct (IH r' Hr' (path ++ [i])) as [_ Hu].
      destruct Hu as [loc Hloc]; [by eauto|]. exists loc. right. by eauto.
Qed.

Lemma rule_in_one r l : rule_in r l ↔ ∃ r', r' ∈ l ∧ rule_in r [r'].
Proof.
  split.
  - inversion 1 as [l' Hl|o s rs l' Hl Hn]; subst; [exists r|exists (Rule o s rs)]; split; try done;
      [by apply rule_here; left|by eapply rule_nested; [left|]].
  - intros (r' & Hr' & Hin). inversion Hin as [l' Hl|o s rs l' Hl Hn]; subst;
      apply list_elem_of_singleton in Hl; subst; [by apply rule_here|by eapply rule_nested].
Qed.

Lemma walk_all_spec (f : list nat → ruleJSON → list (string * location)) (Q : string → ruleJSON → Prop) l t :
  (∀ p r, (∃ loc, (t, loc) ∈ f p r) ↔ Q t r) →
  (∃ loc, (t, loc) ∈ concat (imap (λ i, walk_rules f [i]) l)) ↔ ∃ r, rule_in r l ∧ Q t r.
Proof.
  intros HQ. setoid_rewrite elem_of_concat_imap. setoid_rewrite rule_in_one. split.
  - intros (loc & i & r & Hr & H). destruct (walk_rules_spec f Q r [i] t HQ) as [Hd _].
    destruct Hd as (r' & ? & ?); [by eauto|]. exists r'. split; [|done]. exists r.
    split; [by eapply list_elem_of_lookup_2|done].
  - intros (r' & (r & Hr & Hin) & H). apply list_elem_of_lookup in Hr as [i Hi].
    destruct (walk_rules_spec f Q r [i] t HQ) as [_ Hu]. destruct Hu as [loc ?]; [by eauto|].
    exists loc, i, r. done.
Qed.

Lemma elem_of_refs (l : list (string * location)) t : t ∈ l.*1 ↔ ∃ loc, (t, loc) ∈ l.
Proof.
  rewrite list_elem_of_fmap. split; [intros ([t' loc] & -> & ?); by exists loc|].
  intros [loc ?]. by exists (t, loc).
Qed.

Lemma nonempty_refs l t : t ∈ (nonempty l).*1 ↔ t ≠ "" ∧ t ∈ l.*1.
Proof. rewrite !elem_of_refs. unfold nonempty. setoid_rewrite list_elem_of_filter. naive_solver. Qed.

Lemma imap_refs {A} (g : A → string) (h : nat → A → location) l t :
  t ∈ (imap (λ i x, (g x, h i x)) l).*1 ↔ ∃ x, x ∈ l ∧ g x = t.
Proof.
  rewrite fmap_imap, list_elem_of_lookup. setoid_rewrite list_lookup_imap. setoid_rewrite list_elem_of_lookup. split.
  - intros [i Hi]. destruct (l !! i) eqn:E; simplify_eq/=. by eauto.
  - intros (x & [i Hi] & <-). exists i. by rewrite Hi.
Qed.

Lemma rules_refs c t :
  t ∈ (concat (imap (λ i, collect_outbounds [i]) (Rules (Route c)))).*1 ↔
  t ≠ "" ∧ ∃ r, rule_in r (Rules (Route c)) ∧ outbound_of r = t.
Proof.
  rewrite elem_of_refs. unfold collect_outbounds. rewrite (walk_all_spec _ (λ t r, t ≠ "" ∧ outbound_of r = t)); [naive_solver|].
  intros p [o s rs]. simpl. split.
  - intros [loc H]. destruct (String.eqb o "") eqn:E; to_prop; [by apply elem_of_nil in H|].
    by apply list_elem_of_singleton in H as [= -> ->].
  - intros [Ht <-]. rewrite (proj2 (String.eqb_neq _ _)) by done. eexists. by left.
Qed.

Lemma concat_imap_refs {A} (f : nat → A → list (string * location)) (P : A → Prop) l t :
  (∀ i x, t ∈ (f i x).*1 ↔ P x) → t ∈ (concat (imap f l)).*1 ↔ ∃ x, x ∈ l ∧ P x.
Proof.
  intros HP. rewrite elem_of_refs. setoid_rewrite elem_of_concat_imap. split.
  - intros (loc & i & x & Hx & Hin). exists x. split; [by eapply list_elem_of_lookup_2|].
    apply (HP i), elem_of_refs. by exists loc.
  - intros (x & [i Hi]%list_elem_of_lookup & Hx). apply (HP i), elem_of_refs in Hx as [loc ?]. by exists loc, i, x.
Qed.

Lemma rule_sets_refs s c t : t ∈ (ruleSets (section_refs s c)).*1 ↔ refers_rule_set c t.
Proof.
  unfold refers_rule_set. cbn [ruleSets section_refs]. rewrite fmap_app, elem_of_app. apply Morphisms_Prop.or_iff_morphism.
  - rewrite elem_of_refs. unfold collect_rule_sets.
    rewrite (walk_all_spec _ (λ t r, t ∈ rule_sets_of r)); [done|].
    intros p [o sets rs]. rewrite <- elem_of_refs. simpl. by rewrite <- list_fmap_compose, list_fmap_id.
  - rewrite (concat_imap_refs _ (λ l, t ∈ l)); [done|]. intros i l.
    by rewrite <- list_fmap_compose, list_fmap_id.
Qed.

Lemma dns_refs s c t : t ∈ (dnsTagRefs (section_refs s c)).*1 ↔ refers_dns c t.
Proof.
  unfold refers_dns. cbn [dnsTagRefs section_refs]. rewrite nonempty_refs. simpl.
  rewrite !elem_of_cons, elem_of_nil. destruct (DefaultDomainResolver (Route c)); naive_solver.
Qed.

Lemma outbound_refs s c t :
  t ∈ (rules (section_refs s c)).*1 ∨ t ∈ finals (section_refs s c) ∨ t ∈ (sels (section_refs s c)).*1 ↔
  refers_outbound c t.
Proof.
  unfold refers_outbound. cbn [rules finals sels section_refs]. rewrite rules_refs.
  rewrite list_elem_of_filter, list_elem_of_singleton, !fmap_app, !elem_of_app, !nonempty_refs, !imap_refs.
  rewrite (concat_imap_refs _ (λ ob, t ∈ ob_Outbounds ob ∨ (t ≠ "" ∧ ob_Default ob = t))); [naive_solver|].
  intros i ob. unfold member_refs. rewrite fmap_app, elem_of_app, nonempty_refs.
  rewrite (imap_refs (λ x, x)). simpl. rewrite list_elem_of_singleton. naive_solver.
Qed.

(** ** The scan *)

Definition blocking (es : list ValidationError) : Prop := Forall (λ e, warning e = false) es.

Lemma declare_spec slot kind tags m es : let '(m', es') := declare slot kind tags m es in
  let new := filter (.≠ "") tags in
  dom m' = dom m ∪ list_to_set new ∧ (blocking es → blocking es') ∧
  (es' = [] ↔ es = [] ∧ NoDup new ∧ ∀ t, t ∈ new → t ∉ dom m).
Proof.
  revert m es. induction tags as [|t tags IH]; intros m es; cbn [declare].
  { simpl. split; [set_solver|]. split; [done|]. split; [|by intros []]. intros ->.
    split; [done|]. split; [constructor|set_solver]. }
  rewrite filter_cons. destruct (String.eqb t "") eqn:E; to_prop.
  { rewrite decide_False by (by intros []). apply IH. }
  rewrite decide_True by done. destruct (m !! t) as [s|] eqn:Ht.
  - pose proof (IH m (es ++ [err slot kind t Nowhere (AlsoIn s)])) as H.
    destruct (declare _ _ _ _ _) as [m' es']. destruct H as (Hd & Hb & Hn). split.
    { rewrite Hd. apply elem_of_dom_2 in Ht. set_solver. }
    split; [intros; apply Hb, Forall_app; split; [done|by constructor]|]. rewrite Hn. split.
    + intros [H _]. by destruct es.
    + intros (_ & _ & H). apply elem_of_dom_2 in Ht. by destruct (H t); [left|].
  - pose proof (IH (<[t := slot]> m) es) as H. destruct (declare _ _ _ _ _) as [m' es'].
    destruct H as (Hd & Hb & Hn). split; [rewrite Hd; set_solver|]. split; [done|]. rewrite Hn.
    apply not_elem_of_dom in Ht. rewrite NoDup_cons. setoid_rewrite elem_of_cons. split.
    + intros (-> & Hnd & Hf). split; [done|]. split; [split; [|done]|].
      * intros Hin. apply (Hf t Hin). set_solver.
      * intros t' [->|Hin]; [done|]. specialize (Hf t' Hin). set_solver.
    + intros (-> & [Hni Hnd] & Hf). split; [done|]. split; [done|]. intros t' Hin.
      specialize (Hf t' (or_intror Hin)). rewrite dom_insert. intros [->%elem_of_singleton|?]%elem_of_union; done.
Qed.

(** A file that is read and decoded: nothing to decode, or a configuration. *)
Definition decodes (r : string + option content) : Prop :=
  match r with
  | inl _ => False
  | inr None => True
  | inr (Some d) => is_empty d = true ∨ is_Some (unmarshal_config d)
  end.

Definition config_of (r : string + option content) : option slotConfig :=
  match r with inr (Some d) => if is_empty d then None else unmarshal_config d | _ => None end.

Definition configs (l : list (string * (string + option content))) : list (string * slotConfig) :=
  omap (λ r, (r.1,.) <$> config_of r.2) l.

Lemma configs_app l1 l2 : configs (l1 ++ l2) = configs l1 ++ configs l2.
Proof. apply omap_app. Qed.

Lemma configs_fst l s c : (s, c) ∈ configs l → s ∈ l.*1.
Proof.
  intros ((s' & r) & Hin & H)%list_elem_of_omap. simpl in H. destruct (config_of r); simplify_eq/=.
  by apply (list_elem_of_fmap_2 fst) in Hin.
Qed.

Lemma all_tags_snoc f cs s c : all_tags f (cs ++ [(s, c)]) = all_tags f cs ++ f c.
Proof. unfold all_tags. rewrite fmap_app, concat_app. simpl. by rewrite app_nil_r. Qed.

Record scanned (l : list (string * (string + option content))) (a : scan) : Prop := {
  sc_outbounds : dom (outbounds a) = list_to_set (all_tags outbound_tags (configs l));
  sc_inbounds : dom (inbounds a) = list_to_set (all_tags inbound_tags (configs l));
  sc_dns : dom (dnsServers a) = list_to_set (all_tags dns_tags (configs l));
  sc_sets : ∀ s c, (s, c) ∈ configs l → ruleSetsBySlot a !! s = Some (rule_set_tags c);
  sc_pending : pending a = (λ sc, section_refs sc.1 sc.2) <$> configs l;
  sc_tun : hasTun a = existsb (λ sc, existsb (λ ib, String.eqb (ib_Type ib) "tun") (Inbounds sc.2)) (configs l);
  sc_blocking : blocking (errs a);
  sc_errs : errs a = [] ↔ Forall (λ r, decodes r.2) l ∧ NoDup (all_tags outbound_tags (configs l)) ∧
    NoDup (all_tags inbound_tags (configs l)) ∧ NoDup (all_tags dns_tags (configs l));
}.

Lemma scanned_error l a s r e :
  scanned l a → config_of r = None → ¬ decodes r → warning e = false → scanned (l ++ [(s, r)]) (add_error e a).
Proof.
  intros [] Hc Hd He.
  assert (configs (l ++ [(s, r)]) = configs l) as E by (rewrite configs_app; cbn; rewrite Hc; apply app_nil_r).
  split; rewrite ?E; try done.
  - apply Forall_app. split; [done|]. by constructor.
  - cbn [errs add_error]. split; [by destruct (errs a)|]. rewrite Forall_app, Forall_singleton. by intros ([_ ?] & _).
Qed.

Lemma NoDup_fresh_app {A} (l k : list A) :
  NoDup (l ++ k) ↔ NoDup l ∧ NoDup k ∧ ∀ x, x ∈ k → x ∉ l.
Proof. rewrite NoDup_app. naive_solver. Qed.

Lemma scanned_config l a s d c :
  scanned l a → is_empty d = false → unmarshal_config d = Some c → s ∉ l.*1 →
  scanned (l ++ [(s, inr (Some d))]) (scan_config s c a).
Proof.
  intros [Ho Hi Hd Hs Hp Ht Hb He] Hne Hu Hfresh.
  assert (configs (l ++ [(s, inr (Some d))]) = configs l ++ [(s, c)]) as E.
  { rewrite configs_app. cbn. by rewrite Hne, Hu. }
  unfold scan_config.
  pose proof (declare_spec s "duplicate-outbound" (ob_Tag <$> Outbounds c ++ Endpoints c) (outbounds a) (errs a)) as H1.
  destruct (declare s "duplicate-outbound" _ _ _) as [obs es1].
  pose proof (declare_spec s "duplicate-inbound" (ib_Tag <$> Inbounds c) (inbounds a) es1) as H2.
  destruct (declare s "duplicate-inbound" _ _ _) as [ibs es2].
  pose proof (declare_spec s "duplicate-dns" (ds_Tag <$> Servers (DNS c)) (dnsServers a) es2) as H3.
  destruct (declare s "duplicate-dns" _ _ _) as [dss es3].
  fold (outbound_tags c) in H1. fold (inbound_tags c) in H2. fold (dns_tags c) in H3. cbv zeta in H1, H2, H3.
  destruct H1 as (D1 & B1 & N1), H2 as (D2 & B2 & N2), H3 as (D3 & B3 & N3).
  split; cbn [outbounds inbounds dnsServers ruleSetsBySlot errs hasTun pending]; rewrite ?E, ?all_tags_snoc.
  - rewrite D1, Ho. by rewrite list_to_set_app_L.
  - rewrite D2, Hi. by rewrite list_to_set_app_L.
  - rewrite D3, Hd. by rewrite list_to_set_app_L.
  - intros s' c' [Hin|[= -> ->]%list_elem_of_singleton]%elem_of_app; [|apply lookup_insert_eq].
    rewrite lookup_insert_ne; [by apply Hs|]. intros ->. by apply configs_fst in Hin.
  - by rewrite Hp, fmap_app.
  - rewrite Ht, existsb_app. simpl. by rewrite orb_false_r.
  - by apply B3, B2, B1.
  - rewrite N3, N2, N1, He, Forall_app, Forall_singleton, !NoDup_fresh_app.
    setoid_rewrite Ho. setoid_rewrite Hi. setoid_rewrite Hd. setoid_rewrite elem_of_list_to_set.
    assert (decodes (inr (Some d))) by (right; by rewrite Hu). naive_solver.
Qed.

Lemma scanned_all l : NoDup l.*1 → scanned l (foldl (λ a r, scan_slot r.1 r.2 a) no_scan l).
Proof.
  induction l as [|[s r] l IH] using rev_ind; intros Hnd.
  { split; simpl; try done; try set_solver; try apply Forall_nil_2. }
  rewrite fmap_app in Hnd. apply NoDup_app in Hnd as (Hnd & Hfresh & _). specialize (IH Hnd).
  rewrite foldl_app. set (a := foldl _ _ _) in *. cbn [foldl fst snd].
  assert (s ∉ l.*1) as Hs by (intros Hin; apply (Hfresh s Hin); by left).
  destruct r as [e|[d|]]; cbn [scan_slot].
  - apply scanned_error; [done|done|by intros []|done].
  - destruct (is_empty d) eqn:Hne.
    + destruct IH. assert (configs (l ++ [(s, inr (Some d))]) = configs l) as E.
      { rewrite configs_app. cbn. rewrite Hne. apply app_nil_r. }
      split; rewrite ?E; try done. rewrite sc_errs0, Forall_app, Forall_singleton. cbn. naive_solver.
    + destruct (unmarshal_config d) as [c|] eqn:Hu; [by apply scanned_config|].
      apply scanned_error; [done|cbn; by rewrite Hne| |done]. intros [H|[? H]]; congruence.
  - destruct IH. assert (configs (l ++ [(s, inr None)]) = configs l) as E.
    { rewrite configs_app. apply app_nil_r. }
    split; rewrite ?E; try done. rewrite sc_errs0, Forall_app, Forall_singleton. cbn. naive_solver.
Qed.

(** ** The result *)

Lemma unresolved_nil known slot kind m l : unresolved known slot kind m l = [] ↔ ∀ t, t ∈ l.*1 → known t = true.
Proof.
  unfold unresolved. split.
  - intros H%fmap_nil_inv t (r & -> & Hr)%list_elem_of_fmap. destruct (known r.1) eqn:E; [done|]. exfalso.
    assert (r ∈ filter (λ r, known r.1 = false) l) as Hin by by apply list_elem_of_filter.
    rewrite H in Hin. by apply elem_of_nil in Hin.
  - intros H. rewrite list_filter_none; [done|]. apply Forall_forall. intros r Hr. rewrite H; [done|].
    by apply list_elem_of_fmap_2.
Qed.

Lemma resolve_blocking a rs : blocking (resolve a rs).
Proof.
  unfold resolve, unresolved, blocking. rewrite !Forall_app. split_and!; by apply Forall_fmap, Forall_true.
Qed.

Lemma blocking_nil es : blocking es → forallb warning es = true ↔ es = [].
Proof. intros H. split; [|by intros ->]. destruct es; [done|]. inversion H. simpl. by rewrite H2. Qed.

Lemma final_conflict_warns kind loc slots : forallb warning (final_conflict kind loc slots) = true.
Proof. by destruct slots as [|? [|? ?]]. Qed.

#[export] Instance forallb_perm {A} (p : A → bool) : Proper ((≡ₚ) ==> eq) (forallb p).
Proof.
  intros l k. induction 1 as [|x l k _ IH|x y l|l k m _ IH1 _ IH2]; simpl; try congruence.
  by rewrite andb_assoc, (andb_comm (p y)), <- andb_assoc.
Qed.

Lemma finish_Ok a :
  blocking (errs a) → Ok (finish a) = true ↔ errs a = [] ∧ ∀ rs, rs ∈ pending a → resolve a rs = [].
Proof.
  intros Hb. unfold Ok, finish. cbn [Errors]. rewrite merge_sort_Permutation, !forallb_app.
  rewrite !final_conflict_warns, !andb_true_r, andb_true_iff, blocking_nil by done.
  apply and_iff_compat_l. rewrite blocking_nil.
  - rewrite concat_nil_Forall, Forall_fmap, Forall_forall. done.
  - apply Forall_concat, Forall_fmap, Forall_true. intros; apply resolve_blocking.
Qed.

Lemma resolve_nil l a s c : scanned l a → (s, c) ∈ configs l →
  resolve a (section_refs s c) = [] ↔
  (∀ t, refers_outbound c t → t ∈ builtins ∨ t ∈ all_tags outbound_tags (configs l)) ∧
  (∀ t, refers_rule_set c t → t ∈ rule_set_tags c) ∧
  (∀ t, refers_dns c t → t ∈ all_tags dns_tags (configs l)).
Proof.
  intros S Hc. unfold resolve. change (refs_slot (section_refs s c)) with s. rewrite !app_nil, !unresolved_nil.
  assert (∀ t, knownOutbound a t = true ↔ t ∈ builtins ∨ t ∈ all_tags outbound_tags (configs l)) as Ko.
  { intros t. unfold knownOutbound. rewrite orb_true_iff, !bool_decide_eq_true, <- elem_of_dom.
    by rewrite (sc_outbounds _ _ S), elem_of_list_to_set. }
  assert (∀ t, knownDNSServer a t = true ↔ t ∈ all_tags dns_tags (configs l)) as Kd.
  { intros t. unfold knownDNSServer. rewrite bool_decide_eq_true, <- elem_of_dom.
    by rewrite (sc_dns _ _ S), elem_of_list_to_set. }
  assert (∀ t, knownRuleSet a s t = true ↔ t ∈ rule_set_tags c) as Kr.
  { intros t. unfold knownRuleSet. rewrite bool_decide_eq_true. by rewrite (sc_sets _ _ S s c Hc). }
  setoid_rewrite Ko. setoid_rewrite Kd. setoid_rewrite Kr.
  setoid_rewrite (rule_sets_refs s c). setoid_rewrite (dns_refs s c).
  setoid_rewrite <- (outbound_refs s c). rewrite <- list_fmap_compose.
  assert (∀ t, t ∈ (fst ∘ (λ tag, (tag, AtRouteFinal))) <$> finals (section_refs s c) ↔
    t ∈ finals (section_refs s c)) as Hf by (intros t; by rewrite list_fmap_id).
  setoid_rewrite Hf. naive_solver.
Qed.

Lemma validate_read_Ok (l : list (string * (string + option content))) :
  NoDup l.*1 →
  Ok (validate_read l) = true ↔ Forall (λ r, decodes r.2) l ∧ consistent (configs l).
Proof.
  intros Hnd. pose proof (scanned_all l Hnd) as S. unfold validate_read.
  set (a := foldl _ _ _) in *. rewrite finish_Ok by apply S. rewrite (sc_errs _ _ S), (sc_pending _ _ S).
  split.
  - intros ((Hd & Ho & Hi & Hn) & Hr). split; [done|].
    assert (∀ s c, (s, c) ∈ configs l → resolve a (section_refs s c) = []) as Hr'.
    { intros s c Hc. apply Hr, list_elem_of_fmap. by exists (s, c). }
    split; try done; intros s c t Hc; destruct (resolve_nil l a s c S Hc) as [H _];
      destruct (H (Hr' s c Hc)) as (? & ? & ?); auto.
  - intros (Hd & [Ho Hi Hn H1 H2 H3]). split; [done|].
    intros rs ([s c] & -> & Hc)%list_elem_of_fmap. apply (resolve_nil l a s c S Hc).
    split_and!; intros t Ht; [by eapply H1|by eapply H2|by eapply H3].
Qed.

(** C6: The cross-slot validation accepts exactly the consistent configurations: every
    file that is not empty decodes, no tag of an outbound or endpoint, of an inbound
    or of a DNS server is declared twice, and every reference (of rules at any depth,
    selectors, detours, route.final, dns.final, rule sets) names something declared. *)
Theorem validate_accepts_consistent (l : list (string * (string + option content))) :
  NoDup l.*1 →
  Ok (validate_read l) = true ↔ Forall (λ r, decodes r.2) l ∧ consistent (configs l).
Proof. apply validate_read_Ok. Qed.
