(* ===== verification/SbOrch.v ===== *)
(** * The sing-box configuration orchestrator ([internal/singbox/orchestrator])

    [orchestrator.go], [files.go], [draft.go], [reload.go], [applied.go]: the single
    writer of [config.d].  A slot's file lives in [config.d] when the slot is enabled
    and in [config.d/disabled] when it is not; drafts are staged in [config.d/pending].
    Every operation holds the lock of the orchestrator; [Reload] drops it between the
    validation and the action on the process.

    Every file access may fail ([faults]); a check directory lives only during its
    operation.  The process is wired ([proc] is not nil). *)
From S2P Require Import Prelude GoLib GoText SbJson SbValidate.

(** ** State *)

Inductive dir := Active | Disabled | Pending.

(** The digests of configurations; [no_digest] is the empty text. *)
Class Digest := { digest : Type; no_digest : digest }.

Section orchestrator.
Context `{G : Digest}.

Record appliedState := { Hash : digest; as_HasTun : bool }.

Record Orchestrator := {
  active : gmap string content;
  disabled : gmap string content;
  drafts : gmap string content;
  faults : list bool;
  slots : gmap string SlotMeta;
  enabled : gmap string bool;
  reloadTimer : bool; (* armed *)
  reloading : bool;
  prevHasTun : bool;
  lastReloadValidation : option ValidationResult;
  applied : option appliedState; (* the file [appliedPath] *)
}.

Definition eta_orch (o : Orchestrator) : Orchestrator := {|
  active := active o; disabled := disabled o; drafts := drafts o; faults := faults o; slots := slots o;
  enabled := enabled o; reloadTimer := reloadTimer o; reloading := reloading o;
  prevHasTun := prevHasTun o; lastReloadValidation := lastReloadValidation o; applied := applied o |}.
Definition set_active v (o : Orchestrator) : Orchestrator := ltac:(update_field eta_orch active v o).
Definition set_disabled v (o : Orchestrator) : Orchestrator := ltac:(update_field eta_orch disabled v o).
Definition set_drafts v (o : Orchestrator) : Orchestrator := ltac:(update_field eta_orch drafts v o).
Definition set_faults v (o : Orchestrator) : Orchestrator := ltac:(update_field eta_orch faults v o).
Definition set_slots v (o : Orchestrator) : Orchestrator := ltac:(update_field eta_orch slots v o).
Definition set_enabled v (o : Orchestrator) : Orchestrator := ltac:(update_field eta_orch enabled v o).
Definition set_reloadTimer v (o : Orchestrator) : Orchestrator := ltac:(update_field eta_orch reloadTimer v o).
Definition set_reloading v (o : Orchestrator) : Orchestrator := ltac:(update_field eta_orch reloading v o).
Definition set_prevHasTun v (o : Orchestrator) : Orchestrator := ltac:(update_field eta_orch prevHasTun v o).
Definition set_lastReloadValidation v (o : Orchestrator) : Orchestrator :=
  ltac:(update_field eta_orch lastReloadValidation v o).
Definition set_applied v (o : Orchestrator) : Orchestrator := ltac:(update_field eta_orch applied v o).

Definition files (d : dir) (o : Orchestrator) : gmap string content :=
  match d with Active => active o | Disabled => disabled o | Pending => drafts o end.
Definition set_files (d : dir) (m : gmap string content) (o : Orchestrator) : Orchestrator :=
  match d with Active => set_active m o | Disabled => set_disabled m o | Pending => set_drafts m o end.

Abbreviation M := (ST Orchestrator).

(** ** File accesses *)

Definition fault : M bool := λ o,
  match faults o with [] => (false, o) | b :: bs => (b, set_faults bs o) end.

Definition readIfExists (d : dir) (f : string) : M (string + option content) :=
  bad ← fault; o ← gets id;
  mret (if (bad : bool) then inl "read" else inr (files d o !! f)).

Definition writeAtomic (d : dir) (f : string) (c : content) : M (option string) :=
  bad ← fault;
  if (bad : bool) then mret (Some "write")
  else _ ← modify (λ o, set_files d (<[f := c]> (files d o)) o); mret None.

(** [os.Rename]: it fails when there is no source. *)
Definition rename (d : dir) (d' : dir) (f : string) : M (option string) :=
  bad ← fault; o ← gets id;
  match files d o !! f with
  | Some c =>
      if (bad : bool) then mret (Some "rename")
      else _ ← modify (λ o, let o := set_files d (delete f (files d o)) o in
                            set_files d' (<[f := c]> (files d' o)) o); mret None
  | None => mret (Some "rename")
  end.

(** [os.Remove] of a file that exists, and [removeIfExists]. *)
Definition remove (d : dir) (f : string) : M (option string) :=
  bad ← fault;
  if (bad : bool) then mret (Some "remove")
  else _ ← modify (λ o, set_files d (delete f (files d o)) o); mret None.
Definition removeIfExists : dir → string → M (option string) := remove.

(** An error of [os.Stat] counts as a missing file. *)
Definition fileExists (d : dir) (f : string) : M bool :=
  bad ← fault; o ← gets id;
  mret (negb bad && bool_decide (is_Some (files d o !! f))).

Definition scanDirForSlot (m : SlotMeta) : M (bool * bool) :=
  a ← fileExists Active (Filename m); d ← fileExists Disabled (Filename m); mret (a, d).

Definition renameForToggle (m : SlotMeta) (enable : bool) : M (option string) :=
  let '(src, dst) := if enable then (Disabled, Active) else (Active, Disabled) in
  let f := Filename m in
  r ← readIfExists src f; (* os.Stat(src) *)
  match r with
  | inl e => mret (Some e)
  | inr None => mret None
  | inr (Some _) =>
      d ← fileExists dst f;
      if (d : bool) then
        if enable then remove src f
        else
          e ← remove dst f;
          match e with Some e => mret (Some e) | None => rename src dst f end
      else rename src dst f
  end.

(** ** Registration and start-up *)

Definition ErrUnknownSlot : string := "orchestrator: unknown slot — register first".
Definition ErrSlotAlwaysOn : string := "orchestrator: slot is always-on".
Definition ErrSlotAlreadyRegistered : string := "orchestrator: slot already registered".
Definition ErrNoDraft : string := "orchestrator: no draft to apply".

Definition Register (m : SlotMeta) : M (option string) :=
  o ← gets id;
  match slots o !! Slot m with
  | Some _ => mret (Some ErrSlotAlreadyRegistered)
  | None =>
      _ ← modify (λ o, set_slots (<[Slot m := m]> (slots o)) o);
      _ ← (if AlwaysOn m then modify (λ o, set_enabled (<[Slot m := true]> (enabled o)) o) else mret tt);
      mret None
  end.

Definition mark (s : string) (b : bool) : M unit := modify (λ o, set_enabled (<[s := b]> (enabled o)) o).

Definition bootstrap_slot (s : string) (m : SlotMeta) : M (option string) :=
  ad ← scanDirForSlot m;
  match ad with
  | (true, true) =>
      e ← removeIfExists Disabled (Filename m);
      match e with Some e => mret (Some e) | None => _ ← mark s true; mret None end
  | (true, false) => _ ← mark s true; mret None
  | (false, true) =>
      if AlwaysOn m then
        e ← rename Disabled Active (Filename m);
        match e with Some e => mret (Some e) | None => _ ← mark s true; mret None end
      else _ ← mark s false; mret None
  | (false, false) => _ ← (if AlwaysOn m then mret tt else mark s false); mret None
  end.

(** [Bootstrap] after the directories exist; [ord]: the order of the map of slots. *)
Fixpoint Bootstrap (ord : list (string * SlotMeta)) : M (option string) :=
  match ord with
  | [] => mret None
  | (s, m) :: ord =>
      e ← bootstrap_slot s m;
      match e with Some e => mret (Some e) | None => Bootstrap ord end
  end.

(** ** Saving and toggling *)

Definition scheduleReload : M unit := modify (set_reloadTimer true).

Definition is_enabled (o : Orchestrator) (s : string) : bool := default false (enabled o !! s).

(** [meta, ok := o.slots[slot]; if !ok { return ErrUnknownSlot }] *)
Definition with_slot {A} (s : string) (unknown : A) (k : SlotMeta → M A) : M A :=
  o ← gets id; match slots o !! s with None => mret unknown | Some m => k m end.

Definition saveLocked (s : string) (c : content) : M (option string) :=
  with_slot s (Some ErrUnknownSlot) (λ m,
    o ← gets id;
    writeAtomic (if is_enabled o s then Active else Disabled) (Filename m) c).

Definition Save (s : string) (c : content) : M (option string) :=
  e ← saveLocked s c;
  match e with Some e => mret (Some e) | None => _ ← scheduleReload; mret None end.
Definition SaveSilent : string → content → M (option string) := saveLocked.

Definition setEnabledLocked (s : string) (b schedule : bool) : M (option string) :=
  with_slot s (Some ErrUnknownSlot) (λ m,
    if negb b && AlwaysOn m then mret (Some ErrSlotAlwaysOn)
    else
      ad ← scanDirForSlot m;
      let '(a, d) := ad in
      let diskMatches := if b then a && negb d else negb a in
      o ← gets id;
      if Bool.eqb (is_enabled o s) b && diskMatches then mret None
      else
        e ← renameForToggle m b;
        match e with
        | Some e => mret (Some e)
        | None => _ ← mark s b; _ ← (if schedule then scheduleReload else mret tt); mret None
        end).

Definition SetEnabled (s : string) (b : bool) : M (option string) := setEnabledLocked s b true.
Definition SetEnabledSilent (s : string) (b : bool) : M (option string) := setEnabledLocked s b false.

(** ** Drafts *)

Definition SaveDraft (s : string) (c : content) : M (option string) :=
  with_slot s (Some ErrUnknownSlot) (λ m, writeAtomic Pending (Filename m) c).

(** The first of the directories that has the file. *)
Fixpoint load_first (f : string) (ds : list dir) : M (string + option content) :=
  match ds with
  | [] => mret (inr None)
  | d :: ds =>
      r ← readIfExists d f;
      match r with inr None => load_first f ds | _ => mret r end
  end.

Definition LoadEffective (s : string) : M (string + option content) :=
  with_slot s (inl ErrUnknownSlot) (λ m, load_first (Filename m) [Pending; Active; Disabled]).
Definition LoadDraft (s : string) : M (string + option content) :=
  with_slot s (inl ErrUnknownSlot) (λ m, load_first (Filename m) [Pending]).
Definition LoadApplied (s : string) : M (string + option content) :=
  with_slot s (inl ErrUnknownSlot) (λ m, load_first (Filename m) [Active; Disabled]).
Definition HasDraft (s : string) : M bool := with_slot s false (λ m, fileExists Pending (Filename m)).
Definition DiscardDraft (s : string) : M (option string) :=
  with_slot s (Some ErrUnknownSlot) (λ m, removeIfExists Pending (Filename m)).

(** ** Validation *)

Definition readActiveBytes (s : string) : M (string + option content) :=
  with_slot s (inr None) (λ m, readIfExists Active (Filename m)).

(** The slots a scan visits: the registered ones of the catalog. *)
Definition scan_order (o : Orchestrator) : list string :=
  filter (λ s, is_Some (slots o !! s)) (Slot <$> KnownSlots).

Fixpoint read_all (bytesFor : string → M (string + option content)) (l : list string)
  : M (list (string * (string + option content))) :=
  match l with
  | [] => mret []
  | s :: l => r ← bytesFor s; rs ← read_all bytesFor l; mret ((s, r) :: rs)
  end.

(** The files are read as the scan goes; nothing else happens in between. *)
Definition validateWithEnabled (bytesFor : string → M (string + option content)) (enabledFor : string → bool)
  : M ValidationResult :=
  o ← gets id;
  l ← read_all bytesFor (filter (λ s, enabledFor s = true) (scan_order o));
  mret (validate_read l).

Definition validateWith (bytesFor : string → M (string + option content)) : M ValidationResult :=
  o ← gets id; validateWithEnabled bytesFor (is_enabled o).
Definition validateLocked : M ValidationResult := validateWith readActiveBytes.

Definition tags_of (r : string + option content) : gset string :=
  match r with
  | inr (Some data) =>
      if is_empty data then ∅
      else match unmarshal_config data with Some c => list_to_set (outbound_tags c) | None => ∅ end
  | _ => ∅
  end.

Definition enabledOutboundTagsLocked (exclude : gset string) : M (gset string) :=
  o ← gets id;
  l ← read_all readActiveBytes
        (filter (λ s, s ∉ exclude ∧ is_enabled o s = true) (scan_order o));
  mret (list_to_set builtins ∪ ⋃ ((λ r, tags_of r.2) <$> l)).

Definition draft_tags (draft : content) : gset string :=
  match unmarshal_config draft with Some c => list_to_set (outbound_tags c) | None => ∅ end.

Definition validateDraftLocked (target : string) (draft : content) : M ValidationResult :=
  known ← enabledOutboundTagsLocked {[target]};
  let known := known ∪ draft_tags draft in
  o ← gets id;
  validateWithEnabled
    (λ s, if String.eqb s target then mret (inr (Some draft))
          else
            r ← readActiveBytes s;
            mret (match r with
                  | inr (Some data) =>
                      if String.eqb s SlotUser then r
                      else inr (Some (pruneDanglingSelectorRefsBytes known data))
                  | _ => r
                  end))
    (λ s, String.eqb s target || is_enabled o s).
Definition ValidateDraft : string → content → M ValidationResult := validateDraftLocked.

(** ** The external check *)

(** [sing-box check] over a directory ([None]: no validator is set), the callbacks
    [HasContent] and [shouldRun] during a call, the hash of the enabled configuration. *)
Class Env := {
  validator : option (gmap string content → option string);
  has_content : string → bool;
  shouldRun : option bool;
  sha256 : list (string * content) → digest;
}.

(** [initializeOutboundIdxRe], [initialize outbound\[(\d+)\]:], at the head of the text. *)
Definition match_initialize (s : string) : option string :=
  let p := "initialize outbound[" in
  if HasPrefix s p then
    let '(ds, rest) := span_byte is_digit (str_drop (String.length p) s) in
    if negb (String.eqb ds "") && HasPrefix rest "]:" then Some ds else None
  else None.

(** [decodeOutboundIdxRe], [decode config at (\S+): outbounds\[(\d+)\][.:]]: the group
    [\S+] is followed by a colon and a space, so it is the run of bytes that are no
    space, less the colon that ends it. *)
Definition match_decode (s : string) : option (string * string) :=
  let p := "decode config at " in
  if HasPrefix s p then
    let '(run, rest) := span_byte (λ c, negb (is_space_re c)) (str_drop (String.length p) s) in
    let path := str_take (String.length run - 1) run in
    let q := " outbounds[" in
    if negb (String.eqb path "") && String.eqb run (path +:+ ":") && HasPrefix rest q then
      let '(ds, rest) := span_byte is_digit (str_drop (String.length q) rest) in
      if negb (String.eqb ds "") && (HasPrefix rest "]." || HasPrefix rest "]:") then Some (path, ds) else None
    else None
  else None.

(** The leftmost match. *)
Fixpoint find_match {A} (f : string → option A) (s : string) : option A :=
  match f s with
  | Some x => Some x
  | None => match s with String _ s' => find_match f s' | EmptyString => None end
  end.

(** [filepath.Base] of a path of a file. *)
Fixpoint path_base (s : string) : string :=
  match s with
  | String c s' => if contains_byte "/" s then path_base s' else s
  | EmptyString => ""
  end.

Definition snap_le (f1 f2 : string * (string * nat)) : Prop :=
  String.leb f1.1 f2.1 = true.
#[export] Instance snap_le_dec f1 f2 : Decision (snap_le f1 f2) := bool_eq_dec _ _.

(** The files of the snapshot in lexical order: name, slot, number of outbounds. *)
Definition snap_files (ord : list (string * SlotMeta)) (snapshot : gmap string content)
  : list (string * (string * nat)) :=
  merge_sort snap_le
    (omap (λ sm, (λ data, (Filename sm.2, (sm.1, countOutbounds data))) <$> snapshot !! Filename sm.2) ord).

(** The position in the merged array, brought down to one file. *)
Fixpoint nth_outbound (n : Z) (fs : list (string * (string * nat))) : option (string * nat) :=
  match fs with
  | [] => None
  | (_, (s, k)) :: fs =>
      if (n <? Z.of_nat k)%Z then Some (s, Z.to_nat n) else nth_outbound (n - Z.of_nat k) fs
  end.

Definition attributeOutboundIndex `{GoArch} (ord : list (string * SlotMeta)) (msg : string)
    (snapshot : gmap string content) : option (string * nat) :=
  let fs := snap_files ord snapshot in
  match find_match match_initialize msg with
  | Some ds => n ← Atoi ds; nth_outbound n fs
  | None =>
      '(path, ds) ← find_match match_decode msg;
      n ← Atoi ds;
      (λ f, (f.2.1, Z.to_nat n)) <$>
        List.find (λ f, String.eqb f.1 (path_base path) && (n <? Z.of_nat f.2.2)%Z) fs
  end.

Definition check_error (s : string) (e : string) (at_ : option (string * nat)) : ValidationError := {|
  e_Slot := s; Kind := "sing-box check"; warning := false; Tag := ""; InRule := Nowhere; Message := Text e;
  Outbound := at_ |}.

Definition no_result : ValidationResult := {| Errors := []; HasTun := false |}.

(** The copies of the enabled slots' files other than [skip], in the order [ord] of
    the map [enabled]; a missing file is passed over. *)
Fixpoint snapshot_files (skip : string) (ord : list (string * bool)) (acc : gmap string content)
  : M (string + gmap string content) :=
  match ord with
  | [] => mret (inr acc)
  | (s, en) :: ord =>
      o ← gets id;
      match slots o !! s with
      | Some m =>
          if en && negb (String.eqb s skip) then
            r ← readIfExists Active (Filename m);
            match r with
            | inl e => mret (inl e)
            | inr None => snapshot_files skip ord acc
            | inr (Some c) => snapshot_files skip ord (<[Filename m := c]> acc)
            end
          else snapshot_files skip ord acc
      | None => snapshot_files skip ord acc
      end
  end.

(** The check directory with the candidate in place of its slot's file. *)
Definition make_snapshot (s : string) (m : SlotMeta) (ord : list (string * bool)) (c : content)
  : M (string + gmap string content) :=
  bad ← fault;
  if (bad : bool) then mret (inl "tmpdir")
  else
    r ← snapshot_files s ord ∅;
    match r with
    | inl e => mret (inl e)
    | inr snap =>
        bad ← fault;
        mret (if (bad : bool) then inl "write target" else inr (<[Filename m := c]> snap))
    end.

Context `{E : Env} `{A : GoArch}.

(** [ord], [slot_ord]: the orders of the maps [enabled] and [slots]. *)
Definition checkMergedLocked (ord : list (string * bool)) (slot_ord : list (string * SlotMeta))
    (s : string) (c : content) : M (string + ValidationResult) :=
  with_slot s (inl ErrUnknownSlot) (λ m,
    res ← validateDraftLocked s c;
    if negb (Ok res) then mret (inr res)
    else match validator with
    | None => mret (inr res)
    | Some check =>
        r ← make_snapshot s m ord c;
        mret (match r with
              | inl e => inl e
              | inr snap =>
                  match check snap with
                  | None => inr res
                  | Some e =>
                      inr {| Errors := Errors res ++ [check_error s e (attributeOutboundIndex slot_ord e snap)];
                             HasTun := HasTun res |}
                  end
              end)
    end).
Definition CheckMerged := checkMergedLocked.

Definition CheckSlotAlone (slot_ord : list (string * SlotMeta)) (s : string) (c : content)
  : M (string + ValidationResult) :=
  with_slot s (inl ErrUnknownSlot) (λ m,
    match validator with
    | None => mret (inr no_result)
    | Some check =>
        r ← make_snapshot s m [] c;
        mret (match r with
              | inl e => inl e
              | inr snap =>
                  match check snap with
                  | None => inr no_result
                  | Some e =>
                      inr {| Errors := [check_error s e (attributeOutboundIndex slot_ord e snap)]; HasTun := false |}
                  end
              end)
    end).

Definition SaveAndValidate (ord : list (string * bool)) (slot_ord : list (string * SlotMeta))
    (s : string) (c : content) : M (string + ValidationResult) :=
  r ← checkMergedLocked ord slot_ord s c;
  match r with
  | inl e => mret (inl e)
  | inr res =>
      if negb (Ok res) then mret (inr res)
      else
        with_slot s (inl ErrUnknownSlot) (λ m,
          e ← writeAtomic Active (Filename m) c;
          match e with Some e => mret (inl e) | None => _ ← scheduleReload; mret (inr res) end)
  end.

Definition ApplyDraft (ord : list (string * bool)) (s : string) : M (string + ValidationResult) :=
  with_slot s (inl ErrUnknownSlot) (λ m,
    draft ← readIfExists Pending (Filename m);
    match draft with
    | inl e => mret (inl e)
    | inr None => mret (inl ErrNoDraft)
    | inr (Some draft) =>
        res ← validateDraftLocked s draft;
        if negb (Ok res) then mret (inr res)
        else
          checked ← match validator with
                    | None => mret None
                    | Some check =>
                        r ← make_snapshot s m ord draft;
                        mret (match r with inl e => Some e | inr snap => check snap end)
                    end;
          match checked with
          | Some e => mret (inl e)
          | None =>
              e ← rename Pending Active (Filename m);
              match e with Some e => mret (inl e) | None => _ ← scheduleReload; mret (inr res) end
          end
    end).
End orchestrator.
