(* ===== verification/SbReload.v ===== *)
(** * Applying the sing-box configuration ([internal/singbox/orchestrator])

    [reload.go], [applied.go]: pruning on disk, the predicate that says whether the
    daemon is needed, and [Reload].  The process is the class [Proc]: it reads
    [config.d] when it starts and when it is told to reload. *)
From S2P Require Import Prelude GoLib GoText SbJson SbValidate SbOrch.

(** [ProcessController]: whether the process runs, and the calls, which see
    [config.d].  [Sighup] is the method [Reload]; the process asks [CurrentHasTun]
    whether to restart instead. *)
Class Proc (P : Type) := {
  IsRunning : P → bool;
  Start : gmap string content → ST P (option string);
  Stop : ST P (option string);
  Sighup : bool → gmap string content → ST P (option string);
}.

Section reload.
Context `{G : Digest}.
Abbreviation M := (ST Orchestrator).

(** ** Pruning on disk *)

(** One slot of [pruneDanglingSelectorRefsLocked]; a failing read or write leaves the
    file as it is. *)
Definition prune_slot (known : gset string) (s : string) : M unit :=
  r ← readActiveBytes s;
  match r with
  | inr (Some data) =>
      if is_empty data then mret tt
      else match unmarshal data with
      | Some ((JObject _ | JNull) as root) =>
          let '(changed, root) := pruneDanglingSelectorRefsInDoc known root in
          if (changed : bool) then
            with_slot s tt (λ m, _ ← writeAtomic Active (Filename m) (MarshalIndent root); mret tt)
          else mret tt
      | _ => mret tt
      end
  | _ => mret tt
  end.

Fixpoint prune_slots (known : gset string) (l : list string) : M unit :=
  match l with
  | [] => mret tt
  | s :: l => _ ← prune_slot known s; prune_slots known l
  end.

(** The enabled slots but the user's. *)
Definition pruned_slots (o : Orchestrator) : list string :=
  filter (λ s, is_enabled o s = true ∧ s ≠ SlotUser) (scan_order o).

Definition pruneDanglingSelectorRefsLocked : M unit :=
  known ← enabledOutboundTagsLocked ∅;
  o ← gets id;
  prune_slots known (pruned_slots o).

(** ** Whether the daemon has work *)

(** A non-empty array among [inbounds], [outbounds], [dns.servers], [dns.rules],
    [route.rules] and [route.rule_set]; [None] when one of them is no array. *)
Definition raw_count (v : option json) : option nat := length <$> dec_list Some v.
Definition meaningful (j : json) : option bool :=
  dec_struct false (λ fs,
    ibs ← raw_count (obj_get "inbounds" fs);
    obs ← raw_count (obj_get "outbounds" fs);
    dns ← dec_struct 0%nat (λ fs, n ← raw_count (obj_get "servers" fs); k ← raw_count (obj_get "rules" fs);
                                  Some (n + k)%nat) (obj_get "dns" fs);
    route ← dec_struct 0%nat (λ fs, n ← raw_count (obj_get "rules" fs); k ← raw_count (obj_get "rule_set" fs);
                                    Some (n + k)%nat) (obj_get "route" fs);
    Some (0 <? ibs + obs + dns + route)%nat) (Some j).

Definition userSlotHasMeaningfulContentLocked : M bool :=
  r ← readActiveBytes SlotUser;
  mret (match r with
        | inr (Some data) => if is_empty data then false else default false (unmarshal data ≫= meaningful)
        | _ => false
        end).

Context `{E : !Env} `{D : !EqDecision digest}.

(** [ord]: the order of the map [enabled]. *)
Fixpoint hasActiveWorkLocked (ord : list (string * bool)) : M bool :=
  match ord with
  | [] => mret false
  | (s, en) :: ord =>
      o ← gets id;
      match slots o !! s with
      | Some m =>
          if negb en then hasActiveWorkLocked ord
          else if AlwaysOn m then
            if HasContent m && has_content s then mret true else hasActiveWorkLocked ord
          else if String.eqb s SlotUser then
            u ← userSlotHasMeaningfulContentLocked;
            if (u : bool) then mret true else hasActiveWorkLocked ord
          else mret true
      | None => hasActiveWorkLocked ord
      end
  end.

(** ** The applied state *)

Fixpoint hash_input (l : list (string * (string + option content))) : list (string * content) :=
  match l with
  | [] => []
  | (s, inl _) :: l => hash_input l
  | (s, inr d) :: l => (s, default (Junk "") d) :: hash_input l
  end.

Definition enabledConfigHashLocked : M digest :=
  o ← gets id;
  l ← read_all readActiveBytes (filter (λ s, is_enabled o s = true) (scan_order o));
  mret (sha256 (hash_input l)).

Definition loadAppliedState : M (option appliedState) :=
  bad ← fault; o ← gets id; mret (if (bad : bool) then None else applied o).

Definition saveAppliedState (st : appliedState) : M unit :=
  bad ← fault; if (bad : bool) then mret tt else modify (set_applied (Some st)).

Definition nothing_applied : appliedState := {| Hash := no_digest; as_HasTun := false |}.

(** ** Reload *)

Inductive reload_error := Invalid (r : ValidationResult) | ProcError (e : string).

(** What the locked part hands to the action. *)
Record plan := {
  newHash : digest;
  needRunning : bool;
  plan_prevHasTun : bool;
  newHasTun : bool;
}.

(** The locked part: prune, validate, decide; [inl]: nothing more to do. *)
Definition reload_check (ord : list (string * bool)) : M (option reload_error + plan) :=
  o ← gets id;
  if reloading o then mret (inl None)
  else
    _ ← modify (set_reloading true);
    _ ← pruneDanglingSelectorRefsLocked;
    res ← validateLocked;
    if negb (Ok res) then
      _ ← modify (λ o, set_reloading false (set_lastReloadValidation (Some res) o));
      mret (inl (Some (Invalid res)))
    else
      _ ← modify (set_lastReloadValidation None);
      h ← enabledConfigHashLocked;
      need ← hasActiveWorkLocked ord;
      o ← gets id;
      mret (inr {| newHash := h; needRunning := need; plan_prevHasTun := prevHasTun o; newHasTun := HasTun res |}).

Context {P : Type} `{PC : Proc P}.

Abbreviation W := (ST (Orchestrator * P)).

Definition on_orch {A} (m : M A) : W A := λ s, let '(a, o) := m s.1 in (a, (o, s.2)).
Definition call_proc {A} (f : gmap string content → ST P A) : W A :=
  λ s, let '(a, p) := f (active s.1) s.2 in (a, (s.1, p)).
(** The callback [ReloadNeedsRestart] is [CurrentHasTun]. *)
Definition CurrentHasTun (o : Orchestrator) : bool := prevHasTun o.
Definition call_sighup : W (option string) :=
  λ s, call_proc (Sighup (CurrentHasTun s.1)) s.
Definition proc_running : W bool := λ s, (IsRunning s.2, s).

(** The branch of the process: the error, and the state to record if any. *)
Definition drive (p : plan) (running : bool) : W (option string * option appliedState) :=
  let new := {| Hash := newHash p; as_HasTun := newHasTun p |} in
  let applied_if_ok (e : option string) := (e, match e with None => Some new | Some _ => None end) in
  if needRunning p then
    if running then
      if negb (Bool.eqb (newHasTun p) (plan_prevHasTun p)) then
        _ ← call_proc (λ _, Stop);
        e ← call_proc Start;
        mret (applied_if_ok e)
      else
        e ← call_sighup;
        mret (applied_if_ok e)
    else if negb (default true shouldRun) then mret (None, Some nothing_applied)
    else
      e ← call_proc Start;
      mret (applied_if_ok e)
  else if running then
    e ← call_proc (λ _, Stop);
    mret (e, Some nothing_applied)
  else mret (None, Some nothing_applied).

(** The skip gate: the recorded state describes the plan and the process runs it. *)
Definition adopted (st : option appliedState) (p : plan) (running : bool) : option appliedState :=
  match st with
  | Some st => if bool_decide (Hash st = newHash p) && (running && needRunning p) then Some st else None
  | None => None
  end.

(** The part after the lock was dropped. *)
Definition reload_act (p : plan) : W (option reload_error) :=
  st ← on_orch loadAppliedState;
  running ← proc_running;
  match adopted st p running with
  | Some st =>
      _ ← on_orch (modify (λ o, set_reloading false (set_prevHasTun (as_HasTun st) o)));
      mret None
  | None =>
      r ← drive p running;
      _ ← match r.2 with Some st => on_orch (saveAppliedState st) | None => mret tt end;
      _ ← on_orch (modify (λ o, set_prevHasTun (newHasTun p) (set_reloading false o)));
      mret (ProcError <$> r.1)
  end.

Definition Reload (ord : list (string * bool)) : W (option reload_error) :=
  r ← on_orch (reload_check ord);
  match r with
  | inl e => mret e
  | inr p => reload_act p
  end.

Definition ReloadNow (ord : list (string * bool)) : W (option reload_error) :=
  _ ← on_orch (modify (set_reloadTimer false));
  Reload ord.

(** The timer of [scheduleReload] fires; it stays set, so that a later call resets it. *)
Definition timer_fires (ord : list (string * bool)) : W (option reload_error) :=
  _ ← on_orch (modify (set_reloadTimer false));
  Reload ord.
End reload.
