(* ===== verification/SbOrchProps.v ===== *)
(** * The sing-box orchestrator: files, drafts and slots

    Which operations only read, what an applied draft changes, and the layout of
    [config.d]: under any file-system faults the directory sing-box reads holds no
    file of a disabled slot, but for a set of exceptions. *)
From S2P Require Import Prelude GoLib GoText SbJson SbValidate SbOrch SbReload.

Section props.
Context `{G : Digest}.
Abbreviation M := (ST Orchestrator).

(** ** Reading *)

(** Only outcomes of file accesses are used up. *)
Definition read_only {A} (m : M A) : Prop := ∀ o, ∃ fs, (m o).2 = set_faults fs o.

Lemma set_faults_self o : set_faults (faults o) o = o.
Proof. by destruct o. Qed.

Lemma ro_ret {A} (a : A) : read_only (mret a).
Proof. intros o. exists (faults o). by rewrite set_faults_self. Qed.

Lemma ro_gets {A} (f : Orchestrator → A) : read_only (gets f).
Proof. intros o. exists (faults o). by rewrite set_faults_self. Qed.

Lemma ro_bind {A B} (m : M A) (f : A → M B) : read_only m → (∀ a, read_only (f a)) → read_only (m ≫= f).
Proof.
  intros Hm Hf o. unfold mbind, ST_bind. destruct (Hm o) as [fs E]. destruct (m o) as [a o1]. simpl in E. subst.
  destruct (Hf a (set_faults fs o)) as [fs' ->]. by exists fs'.
Qed.

Lemma ro_fault : read_only fault.
Proof. intros o. unfold fault. destruct (faults o) as [|b bs] eqn:E; [exists []; by destruct o; simpl in *; subst|by exists bs]. Qed.

#[local] Hint Resolve ro_ret ro_gets ro_bind ro_fault : ro.

Ltac read_only_tac :=
  repeat first [apply ro_bind; [|intro] | apply ro_ret | apply ro_gets | apply ro_fault
               | progress case_match | progress eauto with ro].

Lemma ro_readIfExists d f : read_only (readIfExists d f).
Proof. unfold readIfExists. read_only_tac. Qed.
Lemma ro_fileExists d f : read_only (fileExists d f).
Proof. unfold fileExists. read_only_tac. Qed.
Lemma ro_scanDirForSlot m : read_only (scanDirForSlot m).
Proof. unfold scanDirForSlot. pose proof ro_fileExists. read_only_tac. Qed.
Lemma ro_with_slot {A} s (u : A) k : (∀ m, read_only (k m)) → read_only (with_slot s u k).
Proof. intros H. unfold with_slot. read_only_tac. Qed.
Lemma ro_readActiveBytes s : read_only (readActiveBytes s).
Proof. apply ro_with_slot. intros; apply ro_readIfExists. Qed.
#[local] Hint Resolve ro_readIfExists ro_fileExists ro_scanDirForSlot ro_with_slot ro_readActiveBytes : ro.

Lemma ro_read_all b l : (∀ s, read_only (b s)) → read_only (read_all b l).
Proof. intros Hb. induction l as [|s l IH]; cbn [read_all]; read_only_tac. Qed.
#[local] Hint Resolve ro_read_all : ro.

Lemma ro_validateDraftLocked s c : read_only (validateDraftLocked s c).
Proof.
  unfold validateDraftLocked, enabledOutboundTagsLocked, validateWithEnabled.
  apply ro_bind; [read_only_tac|intros known]. apply ro_bind; [read_only_tac|intros o].
  apply ro_bind; [read_only_tac|intros o']. apply ro_bind; [|intros; apply ro_ret].
  apply ro_read_all. intros s'. destruct (String.eqb s' s); [apply ro_ret|].
  apply ro_bind; [apply ro_readActiveBytes|intros; apply ro_ret].
Qed.

Lemma ro_snapshot_files s ord acc : read_only (snapshot_files s ord acc).
Proof.
  revert acc. induction ord as [|[s' en] ord IH]; intros acc; cbn [snapshot_files]; [apply ro_ret|].
  apply ro_bind; [apply ro_gets|intros o]. destruct (slots o !! s') as [m|]; [|apply IH].
  destruct (en && _); [|apply IH]. apply ro_bind; [apply ro_readIfExists|].
  intros [e|[c|]]; [apply ro_ret|apply IH|apply IH].
Qed.

Lemma ro_make_snapshot s m ord c : read_only (make_snapshot s m ord c).
Proof.
  unfold make_snapshot. apply ro_bind; [apply ro_fault|intros []; [apply ro_ret|]].
  apply ro_bind; [apply ro_snapshot_files|intros [e|snap]; [apply ro_ret|]].
  apply ro_bind; [apply ro_fault|intros; apply ro_ret].
Qed.

Lemma ro_checkMergedLocked `{E : !Env} `{GoArch} ord slot_ord s c :
  read_only (checkMergedLocked ord slot_ord s c).
Proof.
  apply ro_with_slot. intros m. apply ro_bind; [apply ro_validateDraftLocked|intros res].
  destruct (negb (Ok res)); [apply ro_ret|]. destruct validator as [check|]; [|apply ro_ret].
  apply ro_bind; [apply ro_make_snapshot|intros; apply ro_ret].
Qed.

(** ** Applying a draft *)

Definition move_draft (f : string) (draft : content) (o : Orchestrator) : Orchestrator :=
  set_active (<[f := draft]> (active o)) (set_drafts (delete f (drafts o)) o).

Lemma rename_spec d d' f o : d ≠ d' → let '(e, o') := rename d d' f o in
  match e with
  | Some _ => ∃ fs, o' = set_faults fs o
  | None => ∃ fs c, files d o !! f = Some c ∧
      o' = set_faults fs (set_files d' (<[f := c]> (files d' o)) (set_files d (delete f (files d o)) o))
  end.
Proof.
  intros Hd. unfold rename, mbind, ST_bind. destruct (ro_fault o) as [fs E].
  destruct (fault o) as [bad o1]. simpl in E. subst o1. cbn [gets id].
  assert (∀ d, files d (set_faults fs o) = files d o) as Ef by by intros [].
  rewrite Ef. destruct (files d o !! f) as [c|] eqn:Hc; [|by exists fs].
  destruct bad; [by exists fs|]. exists fs, c. split; [done|]. by destruct d, d', o.
Qed.

Lemma apply_draft_spec `{E : !Env} (ord : list (string * bool)) (s : string) (o : Orchestrator) :
  let '(r, o') := ApplyDraft ord s o in
  match r with
  | inr res =>
      if Ok res then
        ∃ m draft fs, slots o !! s = Some m ∧ drafts o !! Filename m = Some draft ∧
          o' = set_faults fs (set_reloadTimer true (move_draft (Filename m) draft o))
      else ∃ fs, o' = set_faults fs o
  | inl _ => ∃ fs, o' = set_faults fs o
  end.
Proof.
  unfold ApplyDraft, with_slot. unfold mbind at 1, ST_bind at 1. cbn [gets id].
  destruct (slots o !! s) as [m|] eqn:Hm; [|exists (faults o); by rewrite set_faults_self].
  unfold mbind at 1, ST_bind at 1. unfold readIfExists at 1. unfold mbind at 1 2, ST_bind at 1 2.
  destruct (ro_fault o) as [fs E1]. destruct (fault o) as [bad o1]. simpl in E1. subst o1. cbn [gets id].
  destruct bad; [by exists fs|]. change (files Pending (set_faults fs o)) with (drafts o). cbn [mret ST_ret].
  unfold mret, ST_ret. destruct (drafts o !! Filename m) as [draft|] eqn:Hdraft; [|by exists fs].
  unfold mbind at 1, ST_bind at 1. destruct (ro_validateDraftLocked s draft (set_faults fs o)) as [fs2 E2].
  destruct (validateDraftLocked s draft (set_faults fs o)) as [res o2]. simpl in E2. subst o2.
  change (set_faults fs2 (set_faults fs o)) with (set_faults fs2 o).
  destruct (Ok res) eqn:Hok; cbn [negb]; [|rewrite Hok; by exists fs2].
  set (checked := match validator with None => _ | Some _ => _ end).
  assert (read_only checked) as [fs3 E3]%(λ H, H (set_faults fs2 o)).
  { unfold checked. destruct validator; [|apply ro_ret].
    apply ro_bind; [apply ro_make_snapshot|intros; apply ro_ret]. }
  unfold mbind at 1, ST_bind at 1. destruct (checked _) as [[e|] o3]; simpl in E3; subst o3; [by exists fs3|].
  change (set_faults fs3 (set_faults fs2 o)) with (set_faults fs3 o).
  unfold mbind at 1, ST_bind at 1.
  pose proof (rename_spec Pending Active (Filename m) (set_faults fs3 o) ltac:(done)) as Hr.
  destruct (rename _ _ _ _) as [[e|] o4]; [destruct Hr as [fs4 ->]; by exists fs4|].
  destruct Hr as (fs4 & c & Hc & ->). change (drafts o !! Filename m = Some c) in Hc. simplify_eq.
  unfold mbind, ST_bind. cbn. rewrite Hok. exists m, draft, fs4. by destruct o.
Qed.

(** ** The layout of [config.d] *)

Lemma readIfExists_spec d f o : let '(r, o') := readIfExists d f o in
  (∃ fs, o' = set_faults fs o) ∧ match r with inl _ => True | inr c => c = files d o !! f end.
Proof.
  pose proof (ro_readIfExists d f o) as [fs E]. unfold readIfExists, mbind, ST_bind in *.
  destruct (ro_fault o) as [fs' E']. destruct (fault o) as [bad o1]. simpl in E'. subst. cbn in *.
  split; [by exists fs'|]. destruct bad; [done|]. by destruct d.
Qed.

Lemma remove_spec d f o : let '(e, o') := remove d f o in
  ∃ fs, o' = match e with Some _ => set_faults fs o | None => set_faults fs (set_files d (delete f (files d o)) o) end.
Proof.
  unfold remove, mbind, ST_bind. destruct (ro_fault o) as [fs E]. destruct (fault o) as [bad o1].
  simpl in E. subst. destruct bad; exists fs; [done|]. by destruct d, o.
Qed.

Lemma writeAtomic_spec d f c o : let '(e, o') := writeAtomic d f c o in
  ∃ fs, o' = match e with Some _ => set_faults fs o | None => set_faults fs (set_files d (<[f := c]> (files d o)) o) end.
Proof.
  unfold writeAtomic, mbind, ST_bind. destruct (ro_fault o) as [fs E]. destruct (fault o) as [bad o1].
  simpl in E. subst. destruct bad; exists fs; [done|]. by destruct d, o.
Qed.

(** The side a toggle empties. *)
Definition source (b : bool) : dir := if b then Disabled else Active.

Record toggled (m : SlotMeta) (b : bool) (e : option string) (o o' : Orchestrator) : Prop := {
  tg_slots : slots o' = slots o;
  tg_enabled : enabled o' = enabled o;
  tg_others : ∀ d f, f ≠ Filename m → files d o' !! f = files d o !! f;
  tg_file : match e with
            | None => files (source b) o' !! Filename m = None
            | Some _ => ∀ d, files d o' !! Filename m = None ∨ files d o' !! Filename m = files d o !! Filename m
            end;
}.

Lemma toggled_faults m b e o o' fs : toggled m b e (set_faults fs o) o' ↔ toggled m b e o o'.
Proof.
  assert (∀ d, files d (set_faults fs o) = files d o) as Ef by by intros [].
  split; intros [H1 H2 H3 H4]; split; try done; try setoid_rewrite Ef; try setoid_rewrite <- Ef; try done;
    destruct e; try done; intros d; rewrite ?Ef; specialize (H4 d); rewrite ?Ef in H4; done.
Qed.

Lemma toggled_refl m b e o : toggled m b (Some e) o o.
Proof. split; try done. auto. Qed.

Lemma toggled_rename m b o : let '(e, o') := rename (source b) (if b then Active else Disabled) (Filename m) o in
  toggled m b e o o'.
Proof.
  assert (source b ≠ if b then Active else Disabled) as Hne by by destruct b.
  pose proof (rename_spec _ _ (Filename m) o Hne) as H. destruct (rename _ _ _ _) as [[e|] o'].
  - destruct H as [fs ->]. split; [done|done|by intros []|]. intros []; by right.
  - destruct H as (fs & c & _ & ->). destruct b; split; try done; cbn [source].
    + intros [] f Hf; cbn; rewrite ?lookup_insert_ne, ?lookup_delete_ne; done.
    + cbn. apply lookup_delete_eq.
    + intros [] f Hf; cbn; rewrite ?lookup_insert_ne, ?lookup_delete_ne; done.
    + cbn. apply lookup_delete_eq.
Qed.

Lemma toggled_remove m d o :
  let '(e, o') := remove d (Filename m) o in
  slots o' = slots o ∧ enabled o' = enabled o ∧
    (∀ d' f, f ≠ Filename m → files d' o' !! f = files d' o !! f) ∧
    (∀ d', files d' o' !! Filename m = None ∨ files d' o' !! Filename m = files d' o !! Filename m) ∧
    (e = None → files d o' !! Filename m = None).
Proof.
  pose proof (remove_spec d (Filename m) o) as H. destruct (remove _ _ _) as [[e|] o']; destruct H as [fs ->].
  - split; [done|]. split; [done|]. split; [by intros []|].
    split; [intros []; by right|done].
  - split; [by destruct d|]. split; [by destruct d|]. split.
    + intros [] f Hf; destruct d; cbn; rewrite ?lookup_delete_ne; done.
    + split; [|intros _; destruct d; cbn; apply lookup_delete_eq].
      intros []; destruct d; cbn; rewrite ?lookup_delete_eq; auto.
Qed.

Lemma renameForToggle_spec m b o : let '(e, o') := renameForToggle m b o in toggled m b e o o'.
Proof.
  unfold renameForToggle.
  assert ((if b then (Disabled, Active) else (Active, Disabled)) = (source b, if b then Active else Disabled)) as ->
    by by destruct b.
  unfold mbind at 1, ST_bind at 1. pose proof (readIfExists_spec (source b) (Filename m) o) as H.
  destruct (readIfExists _ _ _) as [[e|[c|]] o1]; destruct H as [[fs ->] Hr].
  - apply toggled_faults with fs, toggled_refl.
  - unfold mbind at 1, ST_bind at 1.
    destruct (ro_fileExists (if b then Active else Disabled) (Filename m) (set_faults fs o)) as [fs2 E].
    destruct (fileExists _ _ _) as [ex o2]. simpl in E. subst o2.
    change (set_faults fs2 (set_faults fs o)) with (set_faults fs2 o).
    destruct ex; [destruct b|].
    + pose proof (toggled_remove m (source true) (set_faults fs2 o)) as H.
      destruct (remove _ _ _) as [e o3]. destruct H as (H1 & H2 & H3 & H4 & H5).
      apply toggled_faults with fs2. split; try done. destruct e; [done|by apply H5].
    + unfold mbind, ST_bind. pose proof (toggled_remove m Disabled (set_faults fs2 o)) as H.
      destruct (remove _ _ _) as [[e|] o3]; destruct H as (H1 & H2 & H3 & H4 & _).
      * apply toggled_faults with fs2. by split.
      * pose proof (toggled_rename m false o3) as H. destruct (rename _ _ _ _) as [e o4].
        destruct H as [R1 R2 R3 R4]. apply toggled_faults with fs2. split; [congruence|congruence| |].
        -- intros d f Hf. rewrite R3 by done. by apply H3.
        -- destruct e; [|done]. intros d. destruct (R4 d) as [->|E]; [by left|]. rewrite E. apply H4.
    + pose proof (toggled_rename m b (set_faults fs2 o)) as H. destruct (rename _ _ _ _) as [e o3].
      by apply toggled_faults in H.
  - apply toggled_faults with fs. by split.
Qed.

(** Enabled slots have no parked file, disabled slots (but those of [X]) no active one,
    the slots that are always on are enabled, and slots do not share a file name. *)
Section layout.
Context {X : gset string}.

Record laid_out_but (o : Orchestrator) : Prop := {
  lo_names : ∀ s s' m m', slots o !! s = Some m → slots o !! s' = Some m' → Filename m = Filename m' → s = s';
  lo_parked : ∀ s m, slots o !! s = Some m → is_enabled o s = true → disabled o !! Filename m = None;
  lo_active : ∀ s m, slots o !! s = Some m → s ∉ X → is_enabled o s = false → active o !! Filename m = None;
  lo_always : ∀ s m, slots o !! s = Some m → AlwaysOn m = true → is_enabled o s = true;
}.

#[local] Abbreviation laid_out := laid_out_but.

(** A step that leaves slots and the enabled map alone and adds at most active files of
    enabled slots and drafts. *)
Lemma laid_out_frame o o' :
  laid_out o → slots o' = slots o → enabled o' = enabled o →
  (∀ f, disabled o !! f = None → disabled o' !! f = None) →
  (∀ s m, slots o !! s = Some m → is_enabled o s = false → active o !! Filename m = None →
     active o' !! Filename m = None) →
  laid_out o'.
Proof.
  intros [H1 H2 H3 H4] Es Ee Hd Ha.
  assert (∀ s, is_enabled o' s = is_enabled o s) as Ei by (intros s; unfold is_enabled; by rewrite Ee).
  split; rewrite ?Es; [done| | |]; intros s m Hm; rewrite Ei; [|intros Hx Hen|by eapply H4].
  - intros Hen. by eapply Hd, H2.
  - by eapply Ha, H3.
Qed.

Lemma laid_out_faults o fs : laid_out o → laid_out (set_faults fs o).
Proof. intros L. by apply (laid_out_frame o). Qed.

(** Operations that preserve the layout. *)
Definition keeps {A} (m : M A) : Prop := ∀ o, laid_out o →
  laid_out (m o).2 ∧ slots (m o).2 = slots o ∧ enabled (m o).2 = enabled o.

Lemma keeps_read_only {A} (m : M A) : read_only m → keeps m.
Proof. intros Hm o L. destruct (Hm o) as [fs ->]. split; [by apply laid_out_faults|done]. Qed.

Lemma keeps_bind {A B} (m : M A) (f : A → M B) : keeps m → (∀ a, keeps (f a)) → keeps (m ≫= f).
Proof.
  intros Hm Hf o L. unfold mbind, ST_bind. destruct (Hm o L) as (L1 & E1 & E2). destruct (m o) as [a o1].
  destruct (Hf a o1 L1) as (L2 & E3 & E4). simpl in *. split; [done|]. split; congruence.
Qed.

Lemma keeps_modify f : (∀ o, laid_out o → laid_out (f o) ∧ slots (f o) = slots o ∧ enabled (f o) = enabled o) →
  keeps (modify f).
Proof. intros H o L. by apply H. Qed.

Lemma keeps_scheduleReload : keeps scheduleReload.
Proof. apply keeps_modify. intros o L. split; [by apply (laid_out_frame o)|done]. Qed.

(** Writing the file of a slot on the side where it belongs. *)
Lemma write_layout d s m c o :
  laid_out o → slots o !! s = Some m → d = (if is_enabled o s then Active else Disabled) ∨ d = Pending ∨ (d = Active ∧ s ∈ X) →
  let o' := (writeAtomic d (Filename m) c o).2 in laid_out o' ∧ slots o' = slots o ∧ enabled o' = enabled o.
Proof.
  intros L Hm Hd o'. unfold o'. clear o'. pose proof (writeAtomic_spec d (Filename m) c o) as H.
  destruct (writeAtomic _ _ _ _) as [[e|] o']; destruct H as [fs ->]; cbn [snd].
  { split; [by apply laid_out_faults|done]. }
  assert (laid_out (set_files d (<[Filename m := c]> (files d o)) o)) as L'.
  { destruct Hd as [->|[->|[-> Hx]]]; [|by apply (laid_out_frame o)|].
    2: { destruct L as [H1 H2 H3 H4]. split; try done. cbn. intros s' m' Hm' Hx' He'. rewrite lookup_insert_ne;
           [by eapply H3|]. intros Ef. by rewrite (H1 s s' m m') in Hx by done. }
    destruct (is_enabled o s) eqn:He; cbn [files set_files].
    - apply (laid_out_frame o); try done. intros s' m' Hm' He' Ha. cbn. rewrite lookup_insert_ne; [done|].
      intros Ef. rewrite (lo_names _ L s s' m m') in He by done. congruence.
    - destruct L as [H1 H2 H3 H4]. split; try done. cbn. intros s' m' Hm' He'. change (is_enabled o s' = true) in He'.
      rewrite lookup_insert_ne; [by eapply H2|]. intros Ef. rewrite (H1 s s' m m') in He by done. congruence. }
  split; [by apply laid_out_faults|]. by destruct d.
Qed.

Lemma keeps_with_slot {A} s (u : A) k : (∀ m o, laid_out o → slots o !! s = Some m →
    laid_out (k m o).2 ∧ slots (k m o).2 = slots o ∧ enabled (k m o).2 = enabled o) → keeps (with_slot s u k).
Proof.
  intros H o L. unfold with_slot, mbind, ST_bind. cbn [gets id]. destruct (slots o !! s) as [m|] eqn:Hm; [|done].
  by apply H.
Qed.

Lemma keeps_saveLocked s c : keeps (saveLocked s c).
Proof. apply keeps_with_slot. intros m o L Hm. apply (write_layout _ s); auto. Qed.

Lemma keeps_Save s c : keeps (Save s c).
Proof.
  apply keeps_bind; [apply keeps_saveLocked|intros [e|]; [apply keeps_read_only, ro_ret|]].
  apply keeps_bind; [apply keeps_scheduleReload|intros; apply keeps_read_only, ro_ret].
Qed.

Lemma keeps_SaveDraft s c : keeps (SaveDraft s c).
Proof. apply keeps_with_slot. intros m o L Hm. apply (write_layout _ s); auto. Qed.

Lemma keeps_DiscardDraft s : keeps (DiscardDraft s).
Proof.
  apply keeps_with_slot. intros m o L Hm. pose proof (remove_spec Pending (Filename m) o) as H.
  unfold removeIfExists. destruct (remove _ _ _) as [[e|] o']; destruct H as [fs ->].
  - split; [by apply laid_out_faults|done].
  - split; [by apply (laid_out_frame o)|done].
Qed.

(** Toggling. *)
Lemma setEnabledLocked_laid_out s b sched o : laid_out o → laid_out (setEnabledLocked s b sched o).2.
Proof.
  intros L. unfold setEnabledLocked, with_slot. unfold mbind at 1, ST_bind at 1. cbn [gets id].
  destruct (slots o !! s) as [m|] eqn:Hm; [|done]. destruct (negb b && AlwaysOn m) eqn:Ha; [done|].
  unfold mbind at 1, ST_bind at 1. destruct (ro_scanDirForSlot m o) as [fs E].
  destruct (scanDirForSlot m o) as [[a d] o1]. simpl in E. subst o1.
  unfold mbind at 1, ST_bind at 1. cbn [gets id]. destruct (Bool.eqb _ _ && _); [by apply laid_out_faults|].
  unfold mbind at 1, ST_bind at 1. pose proof (renameForToggle_spec m b (set_faults fs o)) as H.
  destruct (renameForToggle m b _) as [e o2]. apply toggled_faults in H as [E1 E2 Hoth Hf].
  assert (is_enabled o2 = is_enabled o) as Ei by (unfold is_enabled; by rewrite E2).
  destruct e as [e|].
  - apply (laid_out_frame o); try done.
    + intros f Hd. destruct (base.decide (f = Filename m)) as [->|Hne]; [|by specialize (Hoth Disabled f Hne); cbn in *; congruence].
      destruct (Hf Disabled) as [?|E]; cbn in *; congruence.
    + intros s' m' Hm' He' Ha'. destruct (base.decide (Filename m' = Filename m)) as [Ef|Hne];
        [|by specialize (Hoth Active _ Hne); cbn in *; congruence]. rewrite Ef in *. destruct (Hf Active) as [?|E]; cbn in *; congruence.
  - assert (laid_out (set_enabled (<[s := b]> (enabled o2)) o2)) as L'.
    { destruct L as [H1 H2 H3 H4].
      assert (∀ s', is_enabled (set_enabled (<[s := b]> (enabled o2)) o2) s' = if base.decide (s = s') then b else is_enabled o s') as Eb.
      { intros s'. unfold is_enabled. cbn. destruct (base.decide (s = s')) as [->|Hne];
          [by rewrite lookup_insert_eq|by rewrite lookup_insert_ne, E2]. }
      split; cbn [slots set_enabled disabled active]; rewrite ?E1; [done| | |]; intros s' m' Hm'; rewrite Eb;
        destruct (base.decide (s = s')) as [<-|Hne]; simplify_eq/=.
      - intros ->. apply Hf.
      - intros He. pose proof (Hoth Disabled (Filename m')) as E. cbn in E. rewrite E; [by eapply H2|].
        intros Ef. by apply Hne, (H1 s s' m m').
      - intros _ ->. apply Hf.
      - intros Hx He. pose proof (Hoth Active (Filename m')) as E. cbn in E. rewrite E; [by eapply H3|].
        intros Ef. by apply Hne, (H1 s s' m m').
      - intros Hao. rewrite Hao in Ha. by destruct b.
      - intros Hao. by eapply H4. }
    unfold mark, mbind, ST_bind, modify. cbn. destruct sched; [|done].
    cbn. by apply keeps_scheduleReload.
Qed.

End layout.
#[global] Arguments laid_out_but X o : clear implicits.
(** ** Attributing a failed check *)

(** The merged array of outbounds: which slot and local index each position has. *)
Definition merged_outbounds (fs : list (string * (string * nat))) : list (string * nat) :=
  concat ((λ f, (λ i, (f.2.1, i)) <$> seq 0 f.2.2) <$> fs).

Lemma nth_outbound_merged n fs : (0 ≤ n)%Z → nth_outbound n fs = merged_outbounds fs !! Z.to_nat n.
Proof.
  revert n. induction fs as [|[f [s k]] fs IH]; intros n Hn; cbn [nth_outbound]; [done|].
  unfold merged_outbounds. rewrite fmap_cons. cbn [concat fst snd].
  destruct (n <? Z.of_nat k)%Z eqn:E; to_prop.
  - rewrite lookup_app_l by (rewrite length_fmap, length_seq; lia).
    rewrite list_lookup_fmap, lookup_seq_lt by lia. done.
  - rewrite lookup_app_r by (rewrite length_fmap, length_seq; lia). rewrite length_fmap, length_seq.
    rewrite IH by lia. unfold merged_outbounds. f_equal. lia.
Qed.

(** A failed check that names an outbound of the merged configuration is attributed to
    the slot and the position in that slot's file: the files are merged in the order
    of their names, each with as many outbounds as its array has. *)
Theorem merged_index_attributed `{A : GoArch} (ord : list (string * SlotMeta)) (msg : string)
    (snapshot : gmap string content) (i : nat) :
  find_match match_initialize msg = Some (Itoa (Z.of_nat i)) → in_int (Z.of_nat i) = true →
  attributeOutboundIndex ord msg snapshot = merged_outbounds (snap_files ord snapshot) !! i.
Proof.
  intros Hm Hi. unfold attributeOutboundIndex. rewrite Hm, Atoi_Itoa_int by done. cbn.
  rewrite nth_outbound_merged by lia. by rewrite Nat2Z.id.
Qed.

(** C38: Applying a draft is all or nothing, whatever file access fails: when it reports
    an error or a rejected validation, every file, slot and timer is as before; when
    it succeeds, the draft has become the active file and is gone from the staging
    area, nothing else changed, and a reload is scheduled. *)
Theorem ApplyDraft_atomic `{E : !Env} (ord : list (string * bool)) (s : string) (o : Orchestrator) :
  let '(r, o') := ApplyDraft ord s o in
  match r with
  | inr res =>
      if Ok res then
        ∃ m draft fs, slots o !! s = Some m ∧ drafts o !! Filename m = Some draft ∧
          o' = set_faults fs (set_reloadTimer true (move_draft (Filename m) draft o))
      else ∃ fs, o' = set_faults fs o
  | inl _ => ∃ fs, o' = set_faults fs o
  end.
Proof. apply apply_draft_spec. Qed.
End props.

(** The layout without exceptions. *)
Abbreviation laid_out := (laid_out_but ∅).
