(* ===== verification/SbLayout.v ===== *)
(** * The sing-box orchestrator: what [config.d] holds

    Every operation keeps the layout of [SbOrchProps], under any file-system faults; the
    two that write the active file of a slot without looking at whether it is enabled
    put the slot among the exceptions. *)
From S2P Require Import Prelude GoLib GoText SbJson SbValidate SbOrch SbReload SbOrchProps.

Section layout.
Context `{G : Digest} `{E : !Env} `{D : !EqDecision digest} `{A : GoArch}.
Abbreviation M := (ST Orchestrator).

Section keep.
Context {X : gset string}.
#[local] Abbreviation laid_out := (laid_out_but X).
#[local] Abbreviation keeps := (keeps (X := X)).

(** ** Drafts and validated writes of an enabled slot *)

Lemma active_write_layout o s m draft :
  laid_out o → slots o !! s = Some m → is_enabled o s = true ∨ s ∈ X → laid_out (set_active (<[Filename m := draft]> (active o)) o).
Proof.
  intros [H1 H2 H3 H4] Hm He. split; try done. cbn. intros s' m' Hm' Hx He'. rewrite lookup_insert_ne; [by eapply H3|].
  intros Ef. destruct (H1 s s' m m' Hm Hm' Ef). change (is_enabled o s = false) in He'. destruct He; congruence.
Qed.

Lemma ApplyDraft_laid_out ord s o :
  laid_out o → is_enabled o s = true ∨ s ∈ X → laid_out (ApplyDraft ord s o).2 ∧
  slots (ApplyDraft ord s o).2 = slots o ∧ enabled (ApplyDraft ord s o).2 = enabled o.
Proof.
  intros L He. pose proof (apply_draft_spec ord s o) as H. destruct (ApplyDraft ord s o) as [r o'].
  assert (∀ fs, laid_out (set_faults fs o) ∧ slots (set_faults fs o) = slots o ∧ enabled (set_faults fs o) = enabled o)
    as Hfs by (intros; split; [by apply laid_out_faults|done]).
  destruct r as [e|res]; [destruct H as [fs ->]; apply Hfs|].
  destruct (Ok res); [|destruct H as [fs ->]; apply Hfs].
  destruct H as (m & draft & fs & Hm & Hd & ->). split; [|done]. apply laid_out_faults.
  pose proof (active_write_layout o s m draft L Hm He) as L'. by apply (laid_out_frame _ _ L').
Qed.

Lemma SaveAndValidate_laid_out ord slot_ord s c o :
  laid_out o → is_enabled o s = true ∨ s ∈ X → laid_out (SaveAndValidate ord slot_ord s c o).2.
Proof.
  intros L He. unfold SaveAndValidate. unfold mbind at 1, ST_bind at 1.
  destruct (ro_checkMergedLocked ord slot_ord s c o) as [fs E1].
  destruct (checkMergedLocked _ _ _ _ _) as [r o1]. simpl in E1. subst o1.
  apply (laid_out_faults _ fs) in L. destruct r as [e|res]; [done|]. destruct (negb (Ok res)); [done|].
  unfold with_slot, mbind, ST_bind. cbn [gets id]. destruct (slots _ !! s) as [m|] eqn:Hm; [|done].
  destruct (write_layout Active s m c (set_faults fs o) L Hm) as (L' & _).
  { destruct He as [He|He]; [left; by rewrite (He : is_enabled (set_faults fs o) s = true)|by auto]. }
  destruct (writeAtomic _ _ _ _) as [[e|] o2]; [done|]. cbn. by apply keeps_scheduleReload.
Qed.

(** ** Reload *)

Definition kept (o o' : Orchestrator) : Prop := laid_out o' ∧ slots o' = slots o ∧ enabled o' = enabled o.

Lemma keeps_prune_slot known s o : laid_out o → is_enabled o s = true → kept o (prune_slot known s o).2.
Proof.
  intros L He. unfold prune_slot. unfold mbind at 1, ST_bind at 1.
  destruct (ro_readActiveBytes s o) as [fs E1]. destruct (readActiveBytes s o) as [r o1]. simpl in E1. subst o1.
  assert (laid_out (set_faults fs o)) as L' by by apply laid_out_faults.
  assert (kept o (set_faults fs o)) as Hsame by done.
  destruct r as [e|[data|]]; [exact Hsame| |exact Hsame]. destruct (is_empty data); [exact Hsame|].
  destruct (unmarshal data) as [j|]; [|exact Hsame].
  assert (∀ root : json, kept o ((let '(changed, root) := pruneDanglingSelectorRefsInDoc known root in
      if (changed : bool) then
        with_slot s tt (λ m, _ ← writeAtomic Active (Filename m) (MarshalIndent root); mret tt)
      else mret tt) (set_faults fs o)).2) as Hw.
  { intros root. destruct (pruneDanglingSelectorRefsInDoc known root) as [changed root']. destruct changed; [|exact Hsame].
    unfold with_slot, mbind, ST_bind. cbn [gets id]. destruct (slots _ !! s) as [m|] eqn:Hm; [|done].
    destruct (write_layout Active s m (MarshalIndent root') (set_faults fs o) L' Hm) as (L2 & ? & ?);
      [left; by rewrite (He : is_enabled (set_faults fs o) s = true)|]. by destruct (writeAtomic _ _ _ _). }
  destruct j; first [exact Hsame|apply Hw].
Qed.

Lemma keeps_prune_slots known l o : laid_out o → Forall (λ s, is_enabled o s = true) l →
  let o' := (prune_slots known l o).2 in laid_out o' ∧ slots o' = slots o ∧ enabled o' = enabled o.
Proof.
  revert o. induction l as [|s l IH]; intros o L Hl; [done|]. inversion Hl as [|? ? He Hl']; subst.
  cbn [prune_slots]. unfold mbind, ST_bind. destruct (keeps_prune_slot known s o L He) as (L1 & E1 & E2).
  destruct (prune_slot known s o) as [u o1]. simpl in *. destruct (IH o1 L1) as (L2 & E3 & E4).
  - eapply Forall_impl; [exact Hl'|]. intros s' H. unfold is_enabled. by rewrite E2.
  - split; [done|]. split; congruence.
Qed.

Lemma keeps_prune : keeps pruneDanglingSelectorRefsLocked.
Proof.
  unfold pruneDanglingSelectorRefsLocked. apply keeps_bind.
  - apply keeps_read_only. unfold enabledOutboundTagsLocked. apply ro_bind; [apply ro_gets|intros o].
    apply ro_bind; [apply ro_read_all, ro_readActiveBytes|intros; apply ro_ret].
  - intros known o L. unfold mbind, ST_bind. cbn [gets id]. apply keeps_prune_slots; [done|].
    apply Forall_forall. intros s [[? _] _]%list_elem_of_filter. done.
Qed.

Lemma ro_hasActiveWork ord : read_only (hasActiveWorkLocked ord).
Proof.
  induction ord as [|[s en] ord IH]; cbn [hasActiveWorkLocked]; [apply ro_ret|].
  apply ro_bind; [apply ro_gets|intros o]. destruct (slots o !! s) as [m|]; [|done].
  destruct (negb en); [done|]. destruct (AlwaysOn m); [destruct (_ && _); [apply ro_ret|done]|].
  destruct (String.eqb s SlotUser); [|apply ro_ret]. apply ro_bind; [|intros []; [apply ro_ret|done]].
  apply ro_bind; [apply ro_readActiveBytes|intros; apply ro_ret].
Qed.

Lemma ro_enabledConfigHash : read_only enabledConfigHashLocked.
Proof.
  unfold enabledConfigHashLocked. apply ro_bind; [apply ro_gets|intros ?].
  apply ro_bind; [apply ro_read_all, ro_readActiveBytes|intros; apply ro_ret].
Qed.

Lemma keeps_reload_check ord : keeps (reload_check ord).
Proof.
  unfold reload_check. apply keeps_bind; [apply keeps_read_only, ro_gets|intros o].
  destruct (reloading o); [apply keeps_read_only, ro_ret|].
  assert (∀ f : Orchestrator → Orchestrator, (∀ o, slots (f o) = slots o ∧ enabled (f o) = enabled o ∧
    active (f o) = active o ∧ disabled (f o) = disabled o) → keeps (modify f)) as Hflag.
  { intros f Hf. apply keeps_modify. intros o' L. destruct (Hf o') as (E1 & E2 & E3 & E4).
    split; [|done]. apply (laid_out_frame o'); try done; intros; congruence. }
  apply keeps_bind; [by apply Hflag|intros _]. apply keeps_bind; [apply keeps_prune|intros _].
  apply keeps_bind; [apply keeps_read_only|intros res].
  { unfold validateLocked, validateWith, validateWithEnabled. do 2 (apply ro_bind; [apply ro_gets|intros ?]).
    apply ro_bind; [apply ro_read_all, ro_readActiveBytes|intros; apply ro_ret]. }
  destruct (negb (Ok res)).
  { apply keeps_bind; [by apply Hflag|intros; apply keeps_read_only, ro_ret]. }
  apply keeps_bind; [by apply Hflag|intros _]. apply keeps_read_only.
  apply ro_bind; [apply ro_enabledConfigHash|intros h; apply ro_bind; [apply ro_hasActiveWork|intros need]].
  apply ro_bind; [apply ro_gets|intros; apply ro_ret].
Qed.

End keep.

(** ** Start-up *)

Record booted (s : string) (m : SlotMeta) (o o' : Orchestrator) : Prop := {
  bo_faults : faults o' = [];
  bo_slots : slots o' = slots o;
  bo_others : ∀ s', s' ≠ s → is_enabled o' s' = is_enabled o s';
  bo_files : ∀ f, f ≠ Filename m → active o' !! f = active o !! f ∧ disabled o' !! f = disabled o !! f;
  bo_parked : is_enabled o' s = true → disabled o' !! Filename m = None;
  bo_active : is_enabled o' s = false → active o' !! Filename m = None;
  bo_always : AlwaysOn m = true → is_enabled o s = true → is_enabled o' s = true;
}.

Lemma is_enabled_mark s s' (b : bool) o :
  is_enabled (set_enabled (<[s := b]> (enabled o)) o) s' = if base.decide (s = s') then b else is_enabled o s'.
Proof.
  unfold is_enabled. cbn. destruct (base.decide (s = s')) as [->|Hne];
    [by rewrite lookup_insert_eq|by rewrite lookup_insert_ne].
Qed.

Lemma booted_mark s m (b : bool) o o1 :
  faults o1 = [] → slots o1 = slots o → enabled o1 = enabled o →
  (∀ f, f ≠ Filename m → active o1 !! f = active o !! f ∧ disabled o1 !! f = disabled o !! f) →
  (if b then disabled o1 !! Filename m = None else active o1 !! Filename m = None ∧ AlwaysOn m = false) →
  booted s m o (set_enabled (<[s := b]> (enabled o1)) o1).
Proof.
  intros Hf Hs He Hfiles Hb.
  split; try done; rewrite ?is_enabled_mark, ?decide_True by done.
  - intros s' Hne. rewrite is_enabled_mark, decide_False by congruence. unfold is_enabled. by rewrite He.
  - by intros ->.
  - by intros ->; destruct Hb.
  - destruct b; [done|]. by destruct Hb as [_ ->].
Qed.

Lemma bootstrap_slot_spec s m o : faults o = [] →
  let '(e, o') := bootstrap_slot s m o in e = None → booted s m o o'.
Proof.
  intros Hf. unfold bootstrap_slot, scanDirForSlot, fileExists, removeIfExists, remove, rename, mark, fault.
  unfold mbind, ST_bind, mret, ST_ret. rewrite Hf. cbn [gets id modify files negb andb]. rewrite Hf.
  destruct (active o !! Filename m) as [ca|] eqn:Ha; destruct (disabled o !! Filename m) as [cd|] eqn:Hd;
    cbn [bool_decide]; repeat (rewrite ?bool_decide_eq_true_2, ?bool_decide_eq_false_2 by
      (first [by eexists | by intros [? ?]])); rewrite ?Hf; cbn [gets id modify files set_files negb andb].
  - rewrite Hf. intros _. apply booted_mark; try done; cbn [set_disabled disabled active].
    + intros f Hne. by rewrite lookup_delete_ne.
    + apply lookup_delete_eq.
  - intros _. by apply booted_mark.
  - destruct (AlwaysOn m) eqn:Hao; [|intros _; by apply booted_mark].
    rewrite Hf. cbn [gets id files]. rewrite Hd. cbn [modify set_files files].
    intros _. apply booted_mark; try done; cbn [set_disabled set_active active disabled].
    + intros f Hne. by rewrite lookup_delete_ne, lookup_insert_ne.
    + apply lookup_delete_eq.
  - destruct (AlwaysOn m) eqn:Hao; intros _; [by split|by apply booted_mark].
Qed.

Lemma Bootstrap_laid_out ord o : faults o = [] →
  (∀ s s' m m', slots o !! s = Some m → slots o !! s' = Some m' → Filename m = Filename m' → s = s') →
  (∀ s m, slots o !! s = Some m → AlwaysOn m = true → is_enabled o s = true) →
  map_range (slots o) ord → (Bootstrap ord o).1 = None → laid_out (Bootstrap ord o).2.
Proof.
  intros Hf Hn Hao Hr He.
  assert (∀ s m, slots o !! s = Some m → (s, m) ∈ ord ∨
    (is_enabled o s = true → disabled o !! Filename m = None) ∧ (is_enabled o s = false → active o !! Filename m = None))
    as Hdone by (intros; left; by apply (map_range_elem _ _ _ _ Hr)).
  assert (∀ s m, (s, m) ∈ ord → slots o !! s = Some m) as Hin by (intros; by apply (map_range_elem _ _ _ _ Hr)).
  clear Hr. revert o Hf Hn Hao Hdone Hin He. induction ord as [|[s m] ord IH]; intros o Hf Hn Hao Hdone Hin He.
  { split; try done; intros s m Hm; destruct (Hdone s m Hm) as [[]%elem_of_nil|[? ?]]; auto. }
  cbn [Bootstrap] in *. unfold mbind, ST_bind in *. pose proof (bootstrap_slot_spec s m o Hf) as Hb.
  destruct (bootstrap_slot s m o) as [[e|] o1]; [done|]. specialize (Hb eq_refl) as [B1 B2 B3 B4 B5 B6 B7].
  assert (slots o !! s = Some m) as Hs by (apply Hin; by left).
  apply IH; rewrite ?B2; try done.
  - intros s' m' Hm' Hal. destruct (base.decide (s' = s)) as [->|Hne]; [|rewrite B3 by done; by eapply Hao].
    simplify_eq. apply B7; [done|by eapply Hao].
  - intros s' m' Hm'. destruct (base.decide (s' = s)) as [->|Hne]; [simplify_eq; by right|].
    destruct (Hdone s' m' Hm') as [[[= -> ->]|?]%elem_of_cons|[H1 H2]]; [done|by left|right].
    assert (Filename m' ≠ Filename m) as Hne' by (intros Ef; by apply Hne, (Hn s' s m' m)).
    destruct (B4 _ Hne') as [-> ->]. by rewrite B3.
  - intros s' m' Hm'. apply Hin. by right.
Qed.

(** ** Sequences of operations *)

Inductive sb_op :=
  | OpFaults (fs : list bool) (* what the coming file accesses do *)
  | OpSave (s : string) (c : content)
  | OpSaveSilent (s : string) (c : content)
  | OpSetEnabled (s : string) (b : bool)
  | OpSetEnabledSilent (s : string) (b : bool)
  | OpSaveDraft (s : string) (c : content)
  | OpDiscardDraft (s : string)
  | OpApplyDraft (ord : list (string * bool)) (s : string)
  | OpSaveAndValidate (ord : list (string * bool)) (slot_ord : list (string * SlotMeta)) (s : string) (c : content)
  | OpCheckMerged (ord : list (string * bool)) (slot_ord : list (string * SlotMeta)) (s : string) (c : content)
  | OpReloadCheck (ord : list (string * bool)). (* the part of Reload that writes files *)

Definition run_sb (op : sb_op) (o : Orchestrator) : Orchestrator :=
  match op with
  | OpFaults fs => set_faults fs o
  | OpSave s c => (Save s c o).2
  | OpSaveSilent s c => (SaveSilent s c o).2
  | OpSetEnabled s b => (SetEnabled s b o).2
  | OpSetEnabledSilent s b => (SetEnabledSilent s b o).2
  | OpSaveDraft s c => (SaveDraft s c o).2
  | OpDiscardDraft s => (DiscardDraft s o).2
  | OpApplyDraft ord s => (ApplyDraft ord s o).2
  | OpSaveAndValidate ord slot_ord s c => (SaveAndValidate ord slot_ord s c o).2
  | OpCheckMerged ord slot_ord s c => (CheckMerged ord slot_ord s c o).2
  | OpReloadCheck ord => (reload_check ord o).2
  end.

(** The slots whose file an operation writes into [config.d] although they are disabled
    (see [apply_draft_of_disabled_slot]). *)
Definition strayed (op : sb_op) (o : Orchestrator) : gset string :=
  match op with
  | OpApplyDraft _ s | OpSaveAndValidate _ _ s _ => if is_enabled o s then ∅ else {[s]}
  | _ => ∅
  end.

Lemma laid_out_mono (X Y : gset string) o : X ⊆ Y → laid_out_but X o → laid_out_but Y o.
Proof. intros Hs [H1 H2 H3 H4]. split; try done. intros s m Hm Hx. apply H3; [done|]. set_solver. Qed.

Lemma run_sb_laid_out X op o : laid_out_but X o → laid_out_but (strayed op o ∪ X) (run_sb op o).
Proof.
  intros L%(laid_out_mono X (strayed op o ∪ X)); [|set_solver].
  destruct op as [| | | | | | |ord s|ord so s c| |]; simpl in *; [by apply laid_out_faults|by apply keeps_Save|by apply keeps_saveLocked|
    by apply setEnabledLocked_laid_out|by apply setEnabledLocked_laid_out|by apply keeps_SaveDraft|
    by apply keeps_DiscardDraft| | |
    by apply (keeps_read_only _ (ro_checkMergedLocked _ _ _ _))|by apply keeps_reload_check].
  - apply ApplyDraft_laid_out; [done|]. destruct (is_enabled o s); [by left|right; set_solver].
  - apply SaveAndValidate_laid_out; [done|]. destruct (is_enabled o s); [by left|right; set_solver].
Qed.

(** The slots registered before start-up: their names and files are distinct, and
    [Register] has enabled those that are always on. *)
Definition registered (o : Orchestrator) : Prop :=
  (∀ s s' m m', slots o !! s = Some m → slots o !! s' = Some m' → Filename m = Filename m' → s = s') ∧
  (∀ s m, slots o !! s = Some m → AlwaysOn m = true → is_enabled o s = true).

(** The states reached from a start-up, with the slots whose draft was applied, or whose
    validated file was written, while they were disabled. *)
Inductive sb_reachable : gset string → Orchestrator → Prop :=
  | sb_start o ord : registered o → faults o = [] → map_range (slots o) ord → (Bootstrap ord o).1 = None →
      sb_reachable ∅ (Bootstrap ord o).2
  | sb_step X o op : sb_reachable X o → sb_reachable (strayed op o ∪ X) (run_sb op o).

(** C8: From any files on disk, after a start-up that succeeded without a failing file
    access, and through any operations under any file-system faults, the directory
    sing-box reads holds the file of no disabled slot, but for the slots whose draft was
    applied or whose validated file was written while they were disabled; the parking
    directory holds the file of no enabled slot, and the slots that are always on stay
    enabled. *)
Theorem config_d_follows_enabled (X : gset string) (o : Orchestrator) (s : string) (m : SlotMeta) :
  sb_reachable X o → slots o !! s = Some m →
  (is_Some (active o !! Filename m) → is_enabled o s = true ∨ s ∈ X) ∧
  (is_Some (disabled o !! Filename m) → is_enabled o s = false) ∧
  (AlwaysOn m = true → is_enabled o s = true).
Proof.
  intros Hr Hm. assert (laid_out_but X o) as L.
  { clear s m Hm. induction Hr as [o ord [Hn Ha] Hf Hord Hb|X o op _ IH];
      [by apply Bootstrap_laid_out|by apply run_sb_laid_out]. }
  split_and!; [intros [c Hc]|intros [c Hc]|by apply (lo_always _ L s m Hm)];
    destruct (is_enabled o s) eqn:He; try by auto.
  - destruct (base.decide (s ∈ X)) as [Hx|Hx]; [by right|]. by rewrite (lo_active _ L s m Hm Hx He) in Hc.
  - by rewrite (lo_parked _ L s m Hm He) in Hc.
Qed.

(** [ApplyDraft] of a disabled slot that succeeds leaves the file of the slot in the
    directory sing-box reads while the slot stays disabled: the daemon will run rules
    the validations and the hash of the orchestrator do not see. *)
Theorem apply_draft_of_disabled_slot (ord : list (string * bool)) (s : string) (o o' : Orchestrator) (res : ValidationResult) :
  is_enabled o s = false → ApplyDraft ord s o = (inr res, o') → Ok res = true →
  ∃ m draft, slots o' !! s = Some m ∧ drafts o !! Filename m = Some draft ∧
    active o' !! Filename m = Some draft ∧ is_enabled o' s = false.
Proof.
  intros He Ha Hok. pose proof (apply_draft_spec ord s o) as H. rewrite Ha, Hok in H.
  destruct H as (m & draft & fs & Hm & Hd & ->). exists m, draft. split; [done|]. split; [done|].
  split; [apply lookup_insert_eq|done].
Qed.
End layout.
