(* ===== verification/SbPredict.v ===== *)
(** * The validation of a draft predicts the reload

    [Reload] prunes dangling selector members on disk and then validates.  The
    validation of a draft prunes a copy of the other slots in the same way, so a draft
    it accepts is accepted by the reload that follows its commit. *)
From S2P Require Import Prelude GoLib GoText SbJson SbValidate SbValidateProps SbOrch SbReload SbOrchProps SbLayout.

(** ** Pruning and decoding *)

Lemma mapM_is_Some {A B} (f : A → option B) l : is_Some (mapM f l) ↔ Forall (λ x, is_Some (f x)) l.
Proof. apply mapM_is_Some. Qed.

(** A selector decodes before pruning when it does after, with the same tag. *)
Lemma dec_outbound_prune known ob c :
  dec_outbound (prune_outbound known ob).2 = Some c → ∃ c', dec_outbound ob = Some c' ∧ ob_Tag c' = ob_Tag c.
Proof.
  destruct ob as [| | | | |fs]; try (intros; by eauto). unfold prune_outbound.
  destruct (obj_get "outbounds" fs) as [[| | | |[|x members]|]|] eqn:Hm; try (intros; by eauto).
  set (kept := filter _ _). set (drop := _ && _). set (def := as_string _). set (clear := _ && _).
  cbn [snd]. set (fs1 := if drop then _ else fs). set (fs2 := if clear then _ else fs1).
  assert (obj_get "tag" fs2 = obj_get "tag" fs) as Etag.
  { unfold fs2, fs1. destruct clear, drop; rewrite ?obj_get_delete_ne, ?obj_get_set_ne by done; done. }
  assert (is_Some (dec_strings (obj_get "outbounds" fs2)) → is_Some (dec_strings (obj_get "outbounds" fs))) as Hmem.
  { assert (obj_get "outbounds" fs2 = obj_get "outbounds" fs1) as ->
      by (unfold fs2; destruct clear; rewrite ?obj_get_delete_ne by done; done).
    unfold fs1. destruct drop; [|done]. erewrite obj_get_set_eq by exact Hm. rewrite Hm.
    unfold dec_strings, dec_list. rewrite !mapM_is_Some, !Forall_forall. intros H y Hy.
    destruct (keep_member known y) eqn:Hk; [apply H; by apply list_elem_of_filter|].
    unfold keep_member in Hk. to_prop. destruct y; first [done|by eexists]. }
  assert (is_Some (dec_string (obj_get "default" fs2)) → is_Some (dec_string (obj_get "default" fs))) as Hdef.
  { destruct clear eqn:Hc; unfold fs2.
    - intros _. unfold clear, def in Hc. to_prop. destruct (obj_get "default" fs) as [[]|]; done.
    - assert (obj_get "default" fs1 = obj_get "default" fs) as ->; [|done].
      unfold fs1. destruct drop; [by rewrite obj_get_set_ne|done]. }
  unfold dec_outbound, dec_struct. rewrite Etag. clearbody fs2. clear -Hmem Hdef.
  destruct (dec_string (obj_get "tag" fs)) as [tag|]; [|done]. cbn.
  destruct (dec_strings (obj_get "outbounds" fs2)) as [ms|]; [|done].
  destruct (dec_string (obj_get "default" fs2)) as [d|]; [|done]. cbn. intros [= <-].
  destruct Hmem as [ms' ->]; [by eexists|]. destruct Hdef as [d' ->]; [by eexists|]. cbn. by eexists.
Qed.

(** *** The fuel of [dec_rule] *)

Lemma depth_elem x l : x ∈ l → (depth x < depth (JArray l))%nat.
Proof.
  induction l as [|y l IH]; [by intros ?%elem_of_nil|]. intros [->|H%IH]%elem_of_cons; cbn in *; lia.
Qed.

Lemma depth_get k fs v : obj_get k fs = Some v → (depth v < depth (JObject fs))%nat.
Proof.
  unfold obj_get. induction fs as [|[k' x] fs IH]; [done|]. simpl.
  destruct (String.eqb k' k); simpl; [intros [= <-]; lia|]. intros H%IH. cbn in H. lia.
Qed.

Lemma dec_list_ext {A} (f g : json → option A) v :
  (∀ x l, v = Some (JArray l) → x ∈ l → f x = g x) → dec_list f v = dec_list g v.
Proof.
  intros H. destruct v as [[| | | |l|]|]; try done. cbn. 
  assert (∀ x, x ∈ l → f x = g x) as H' by (intros; by eapply H). clear H.
  induction l as [|x l IH]; [done|]. cbn. rewrite (H' x) by by left. rewrite IH; [done|]. intros; apply H'; by right.
Qed.

Lemma dec_rule_fuel n m j : (depth j ≤ n)%nat → (depth j ≤ m)%nat → dec_rule n j = dec_rule m j.
Proof.
  revert m j. induction n as [|n IH]; intros m j Hn Hm; [destruct j; cbn in Hn; lia|].
  destruct m as [|m]; [destruct j; cbn in Hm; lia|]. destruct j as [| | | | |fs]; try done. cbn [dec_rule dec_struct].
  assert (dec_list (dec_rule n) (obj_get "rules" fs) = dec_list (dec_rule m) (obj_get "rules" fs)) as ->; [|done].
  apply dec_list_ext. intros x l Hl Hx. apply depth_elem in Hx. apply depth_get in Hl. apply IH; lia.
Qed.

Lemma dec_route_fuel n m v :
  (∀ j, v = Some j → depth j ≤ n ∧ depth j ≤ m)%nat → dec_route n v = dec_route m v.
Proof.
  intros H. destruct v as [[| | | | |fs]|]; try done. cbn [dec_route dec_struct].
  destruct (H _ eq_refl) as [Hn Hm].
  assert (dec_list (dec_rule n) (obj_get "rules" fs) = dec_list (dec_rule m) (obj_get "rules" fs)) as ->; [|done].
  apply dec_list_ext. intros x l Hl Hx. apply depth_elem in Hx. apply depth_get in Hl. apply dec_rule_fuel; lia.
Qed.

(** Pruning a document that decodes afterwards: it decodes before, with the same tags. *)
Lemma dec_config_prune known j c :
  dec_config (pruneDanglingSelectorRefsInDoc known j).2 = Some c →
  ∃ c', dec_config j = Some c' ∧ outbound_tags c' = outbound_tags c.
Proof.
  destruct j as [| | | | |fs]; try (intros; by eauto). unfold pruneDanglingSelectorRefsInDoc.
  destruct (obj_get "outbounds" fs) as [[| | | |obs|]|] eqn:Ho; try (intros; by eauto).
  cbn [snd]. set (obs' := (prune_outbound known <$> obs).*2). set (fs' := obj_set "outbounds" (JArray obs') fs).
  unfold dec_config, dec_struct.
  assert (∀ k, "outbounds" ≠ k → obj_get k fs' = obj_get k fs) as Hk by (intros; by apply obj_get_set_ne).
  rewrite !(Hk "inbounds"), !(Hk "endpoints"), !(Hk "route"), !(Hk "dns") by done.
  assert (obj_get "outbounds" fs' = Some (JArray obs')) as -> by by eapply obj_get_set_eq.
  rewrite Ho. rewrite (dec_route_fuel (depth (JObject fs')) (depth (JObject fs))); last first.
  { intros j Hj. split; [|apply depth_get in Hj; lia]. rewrite <- (Hk "route") in Hj by done.
    apply depth_get in Hj. lia. }
  destruct (dec_list dec_inbound _) as [ibs|]; [|done]. cbn [mbind option_bind].
  destruct (dec_list dec_outbound (Some (JArray obs'))) as [os|] eqn:Hos; [|done]. cbn [mbind option_bind].
  assert (∃ os', dec_list dec_outbound (Some (JArray obs)) = Some os' ∧ ob_Tag <$> os' = ob_Tag <$> os) as (os' & -> & Et).
  { unfold dec_list in *. unfold obs' in Hos. clear -Hos. apply mapM_Some in Hos.
    rewrite !Forall2_fmap_l in Hos. induction Hos as [|ob o obs os E _ (os' & Es & Ets)]; [by exists []|].
    destruct (dec_outbound_prune _ _ _ E) as (o' & Eo & Et). exists (o' :: os').
    split; [|by rewrite !fmap_cons, Et, Ets]. apply mapM_Some. constructor; [done|by apply mapM_Some]. }
  cbn [mbind option_bind].
  destruct (dec_list dec_outbound (obj_get "endpoints" fs)) as [es|]; [|done]. cbn [mbind option_bind].
  destruct (dec_route _ _) as [rt|]; [|done]. cbn [mbind option_bind].
  destruct (dec_dns _) as [dns|]; [|done]. cbn [mbind option_bind]. intros [= <-]. eexists. split; [done|].
  unfold outbound_tags. cbn [Outbounds Endpoints]. by rewrite !fmap_app, Et.
Qed.

Lemma dec_str_as_string j t : dec_str j = Some t → as_string (Some j) = t.
Proof. by destruct j; intros [= <-]. Qed.

Lemma mapM_elem {A B} (f : A → option B) l k x : mapM f l = Some k → x ∈ l → ∃ y, f x = Some y ∧ y ∈ k.
Proof.
  intros H%mapM_Some Hx. induction H as [|x' y l k E _ IH]; [by apply elem_of_nil in Hx|].
  apply elem_of_cons in Hx as [->|Hx]; [exists y; split; [done|by left]|].
  destruct (IH Hx) as (y' & ? & ?). exists y'. split; [done|by right].
Qed.

(** Nothing is pruned from a document all of whose references are known. *)
Lemma prune_unchanged known j c :
  dec_config j = Some c → (∀ t, refers_outbound c t → t ∈ known) →
  (pruneDanglingSelectorRefsInDoc known j).1 = false.
Proof.
  intros Hdec Hrefs. destruct j as [| | | | |fs]; try done. unfold pruneDanglingSelectorRefsInDoc.
  destruct (obj_get "outbounds" fs) as [[| | | |obs|]|] eqn:Ho; try done. cbn [fst].
  unfold dec_config, dec_struct in Hdec. rewrite Ho in Hdec.
  destruct (dec_list dec_inbound _) as [ibs|]; [|done]. cbn [mbind option_bind] in Hdec.
  destruct (dec_list dec_outbound (Some (JArray obs))) as [os|] eqn:Hos; [|done]. cbn [mbind option_bind] in Hdec.
  destruct (dec_list dec_outbound (obj_get "endpoints" fs)) as [es|]; [|done]. cbn [mbind option_bind] in Hdec.
  destruct (dec_route _ _) as [rt|]; [|done]. cbn [mbind option_bind] in Hdec.
  destruct (dec_dns _) as [dns|]; [|done]. cbn [mbind option_bind] in Hdec. simplify_eq.
  apply not_true_iff_false. rewrite existsb_exists. intros ([ch ob'] & Hin & Hch). simpl in Hch. subst ch.
  apply list_elem_of_In, list_elem_of_fmap in Hin as (ob & Hp & Hob).
  unfold dec_list in Hos. destruct (mapM_elem _ _ _ _ Hos Hob) as (o & Hdo & Hoin). clear Hos.
  destruct ob as [| | | | |obf]; try done. unfold prune_outbound in Hp.
  destruct (obj_get "outbounds" obf) as [[| | | |[|x members]|]|] eqn:Hm; try done.
  unfold dec_outbound, dec_struct in Hdo. rewrite Hm in Hdo.
  destruct (dec_string (obj_get "tag" obf)) as [tag|]; [|done]. cbn [mbind option_bind] in Hdo.
  destruct (dec_strings (Some (JArray (x :: members)))) as [ms|] eqn:Hms; [|done]. cbn [mbind option_bind] in Hdo.
  destruct (dec_string (obj_get "default" obf)) as [d|] eqn:Hd; [|done]. cbn [mbind option_bind] in Hdo. injection Hdo as <-.
  assert (filter (λ m, keep_member known m = true) (x :: members) = x :: members) as Ef.
  { apply list_filter_all. apply Forall_forall. intros y Hy. unfold dec_strings, dec_list in Hms.
    destruct (mapM_elem _ _ _ _ Hms Hy) as (t & Ht & Htin). unfold keep_member. rewrite (dec_str_as_string _ _ Ht).
    destruct (String.eqb t "") eqn:E; [done|]. to_prop. cbn [orb]. unfold is_known. apply bool_decide_eq_true.
    apply Hrefs. right; right; left. eexists. split; [exact Hoin|by left]. }
  rewrite Ef in Hp. rewrite (bool_decide_eq_false_2 (length _ ≠ length _)) in Hp by lia. cbn [andb orb] in Hp.
  injection Hp as Hc _. to_prop.
  assert (as_string (obj_get "default" obf) = d) as Ed by (destruct (obj_get "default" obf) as [[]|]; simpl in Hd; by simplify_eq).
  rewrite Ed in *. unfold is_known in *. to_prop. symmetry in Hc. to_prop.
  assert (d ∈ known) as Hk; [|done]. apply Hrefs. right; right; left. eexists. split; [exact Hoin|]. right.
  split; [done|]. done.
Qed.

(** ** The orchestrator when no file access fails *)
Section predict.
Context `{G : Digest} `{E : !Env} `{D : !EqDecision digest} `{A : GoArch}.
Abbreviation M := (ST Orchestrator).

Definition file_of (o : Orchestrator) (s : string) : option content :=
  m ← slots o !! s; active o !! Filename m.

Lemma readActiveBytes_healthy s o : faults o = [] → readActiveBytes s o = (inr (file_of o s), o).
Proof.
  intros Hf. unfold readActiveBytes, with_slot, readIfExists, fault, file_of. unfold mbind at 1, ST_bind. cbn [gets id].
  destruct (slots o !! s) as [m|]; [|done]. unfold mbind, ST_bind, mret, ST_ret. rewrite Hf. done.
Qed.

Lemma read_all_healthy b g l o : (∀ s, b s o = (inr (g s), o)) →
  read_all b l o = ((λ s, (s, inr (g s))) <$> l, o).
Proof.
  intros Hb. induction l as [|s l IH]; [done|]. cbn [read_all]. unfold mbind, ST_bind. rewrite Hb, IH. done.
Qed.

Definition enabled_scan (o : Orchestrator) : list string := filter (λ s, is_enabled o s = true) (scan_order o).

Definition known_of (o : Orchestrator) (exclude : gset string) : gset string :=
  list_to_set builtins ∪
  ⋃ ((λ s, tags_of (inr (file_of o s))) <$> filter (λ s, s ∉ exclude ∧ is_enabled o s = true) (scan_order o)).

Lemma known_healthy ex o : faults o = [] → enabledOutboundTagsLocked ex o = (known_of o ex, o).
Proof.
  intros Hf. unfold enabledOutboundTagsLocked, mbind, ST_bind. cbn [gets id].
  rewrite (read_all_healthy _ (file_of o)) by (intros; by apply readActiveBytes_healthy).
  unfold mret, ST_ret, known_of. by rewrite <- list_fmap_compose.
Qed.

(** What the validation of a draft reads for a slot. *)
Definition draft_view (known : gset string) (target : string) (draft : content) (o : Orchestrator) (s : string)
  : option content :=
  if String.eqb s target then Some draft
  else if String.eqb s SlotUser then file_of o s
  else pruneDanglingSelectorRefsBytes known <$> file_of o s.

Definition draft_known (target : string) (draft : content) (o : Orchestrator) : gset string :=
  known_of o {[target]} ∪ draft_tags draft.

Lemma validateDraft_healthy target draft o : faults o = [] →
  validateDraftLocked target draft o =
    (validate_read ((λ s, (s, inr (draft_view (draft_known target draft o) target draft o s))) <$>
       filter (λ s, String.eqb s target || is_enabled o s = true) (scan_order o)), o).
Proof.
  intros Hf. unfold validateDraftLocked. unfold mbind at 1, ST_bind at 1. rewrite known_healthy by done.
  unfold mbind at 1, ST_bind at 1. cbn [gets id]. unfold validateWithEnabled. unfold mbind at 1, ST_bind at 1. cbn [gets id].
  unfold mbind at 1, ST_bind at 1. fold (draft_known target draft o).
  rewrite (read_all_healthy _ (draft_view (draft_known target draft o) target draft o)); [done|].
  intros s. unfold draft_view. destruct (String.eqb s target); [done|]. unfold mbind, ST_bind.
  rewrite readActiveBytes_healthy by done. destruct (file_of o s); [|by destruct (String.eqb s SlotUser)].
  by destruct (String.eqb s SlotUser).
Qed.

Lemma validateLocked_healthy o : faults o = [] →
  validateLocked o = (validate_read ((λ s, (s, inr (file_of o s))) <$> enabled_scan o), o).
Proof.
  intros Hf. unfold validateLocked, validateWith, validateWithEnabled, mbind, ST_bind. cbn [gets id].
  by rewrite (read_all_healthy _ (file_of o)) by (intros; by apply readActiveBytes_healthy).
Qed.

(** *** Pruning on disk *)

Definition disk_prune (known : gset string) (data : content) : content :=
  if is_empty data then data
  else match unmarshal data with
  | Some j => let '(changed, j) := pruneDanglingSelectorRefsInDoc known j in
              if changed then MarshalIndent j else data
  | None => data
  end.

Definition names_distinct (o : Orchestrator) : Prop :=
  ∀ s s' m m', slots o !! s = Some m → slots o !! s' = Some m' → Filename m = Filename m' → s = s'.

(** The same orchestrator but for the active files. *)
Definition same_but_files (o o' : Orchestrator) : Prop := ∃ a, o' = set_active a o.

Definition pruned_at (known : gset string) (s : string) (o o' : Orchestrator) : Prop :=
  same_but_files o o' ∧
  ∀ s', file_of o' s' = if String.eqb s' s then disk_prune known <$> file_of o s' else file_of o s'.

Lemma prune_slot_healthy known s o : faults o = [] → names_distinct o →
  pruned_at known s o (prune_slot known s o).2.
Proof.
  intros Hf Hn. unfold prune_slot. unfold mbind at 1, ST_bind at 1. rewrite readActiveBytes_healthy by done.
  assert (same_but_files o o) as Hrefl by (exists (active o); by destruct o).
  destruct (file_of o s) as [data|] eqn:Hfile; last first.
  { split; [done|]. intros s'. destruct (String.eqb s' s) eqn:Es; [|done]. to_prop. subst. cbn. by rewrite Hfile. }
  assert (disk_prune known data = data → pruned_at known s o o) as Hskip.
  { intros Ed. split; [done|]. intros s'. destruct (String.eqb s' s) eqn:Es; [|done].
    to_prop. subst. rewrite Hfile. cbn. by rewrite Ed. }
  destruct (is_empty data) eqn:He; [apply Hskip; unfold disk_prune; by rewrite He|].
  destruct (unmarshal data) as [j|] eqn:Hj; [|apply Hskip; unfold disk_prune; by rewrite He, Hj].
  destruct (pruneDanglingSelectorRefsInDoc known j) as [changed j'] eqn:Hp.
  assert (disk_prune known data = if changed then MarshalIndent j' else data) as Ed
    by (unfold disk_prune; by rewrite He, Hj, Hp).
  assert (changed = true → ∃ fs, j = JObject fs) as Hobj by (destruct j; simplify_eq/=; by eauto).
  destruct changed; last first. { destruct j; cbv beta iota; rewrite ?Hp; by apply Hskip. }
  destruct (Hobj eq_refl) as [fs ->]. cbv beta iota. unfold with_slot. unfold mbind at 1, ST_bind at 1. cbn [gets id].
  unfold file_of in Hfile. destruct (slots o !! s) as [m|] eqn:Hm; [|done]. cbn in Hfile.
  unfold mbind, ST_bind, mret, ST_ret, writeAtomic, fault. unfold mbind, ST_bind, mret, ST_ret. rewrite Hf. cbn.
  split; [by exists (<[Filename m := MarshalIndent j']> (active o))|]. intros s'. unfold file_of. cbn.
  destruct (String.eqb s' s) eqn:Es; to_prop.
  - subst. rewrite Hm. cbn. rewrite lookup_insert_eq, Hfile. cbn. by rewrite Ed.
  - destruct (slots o !! s') as [m'|] eqn:Hm'; [|done]. cbn. rewrite lookup_insert_ne; [done|].
    intros Ef. by apply Es, (Hn s' s m' m).
Qed.

Lemma prune_slots_healthy known l o : faults o = [] → names_distinct o → NoDup l →
  let o' := (prune_slots known l o).2 in same_but_files o o' ∧
  ∀ s', file_of o' s' = if base.decide (s' ∈ l) then disk_prune known <$> file_of o s' else file_of o s'.
Proof.
  intros Hf Hn Hnd. revert o Hf Hn. induction Hnd as [|s l Hs Hnd IH]; intros o Hf Hn; cbn [prune_slots].
  { split; [exists (active o); by destruct o|]. intros s'. rewrite decide_False by apply not_elem_of_nil. done. }
  unfold mbind, ST_bind. destruct (prune_slot_healthy known s o Hf Hn) as [[a E1] H1].
  destruct (prune_slot known s o) as [u o1]. cbn [snd] in *. subst o1.
  destruct (IH (set_active a o)) as [[a' E2] H2]; [done|done|]. cbv zeta in H2.
  split; [exists a'; rewrite E2; by destruct o|]. intros s'. rewrite H2, H1.
  destruct (String.eqb s' s) eqn:Es; to_prop.
  - subst. rewrite decide_False by done. by rewrite decide_True by by left.
  - destruct (base.decide (s' ∈ l)); [rewrite decide_True by by right|rewrite decide_False by
      (by intros [?|?]%elem_of_cons)]; done.
Qed.

(** ** The prediction *)

(** Two contents the validation cannot tell apart. *)
Definition same_decode (c c' : content) : Prop := is_empty c = is_empty c' ∧ unmarshal_config c = unmarshal_config c'.

Lemma validate_read_ext (f g : string → option content) l :
  (∀ s, s ∈ l → match f s, g s with Some c, Some c' => same_decode c c' | None, None => True | _, _ => False end) →
  validate_read ((λ s, (s, inr (f s))) <$> l) = validate_read ((λ s, (s, inr (g s))) <$> l).
Proof.
  intros H. unfold validate_read. f_equal. generalize no_scan. induction l as [|s l IH]; intros a; [done|].
  rewrite !fmap_cons. cbn [foldl fst snd].
  assert (scan_slot s (inr (f s)) a = scan_slot s (inr (g s)) a) as ->; [|apply IH; intros; apply H; by right].
  specialize (H s (list_elem_of_here _ _)). cbn [scan_slot].
  destruct (f s), (g s); try done. by destruct H as [-> ->].
Qed.

Lemma disk_prune_same known data : same_decode (disk_prune known data) (pruneDanglingSelectorRefsBytes known data).
Proof.
  unfold disk_prune, pruneDanglingSelectorRefsBytes. destruct data as [lay j|t]; [|by destruct t].
  cbn [is_empty unmarshal]. destruct j; try done. by destruct (pruneDanglingSelectorRefsInDoc _ _) as [[] ?].
Qed.

(** The tags a pruned copy declares are declared by the file. *)
Lemma pruned_tags known data c :
  unmarshal_config (pruneDanglingSelectorRefsBytes known data) = Some c →
  is_empty (pruneDanglingSelectorRefsBytes known data) = false →
  ∀ t, t ∈ outbound_tags c → t ∈ tags_of (inr (Some data)).
Proof.
  intros Hu He t Ht. unfold tags_of.
  assert (is_empty data = false) as ->.
  { destruct data as [lay j|[|]]; [done|by cbn in Hu|done]. }
  assert (∃ c', unmarshal_config data = Some c' ∧ outbound_tags c' = outbound_tags c) as (c' & -> & Et).
  { unfold pruneDanglingSelectorRefsBytes in Hu. destruct data as [lay j|tx]; [|done].
    destruct j as [| | | | |fs]; try (cbn in *; by eauto). cbn [unmarshal] in Hu.
    destruct (pruneDanglingSelectorRefsInDoc known (JObject fs)) as [ch j'] eqn:Hp.
    destruct ch; [|by eauto]. apply (dec_config_prune known). by rewrite Hp. }
  rewrite elem_of_list_to_set. by rewrite Et.
Qed.

Lemma tags_of_configs l t :
  t ∈ all_tags outbound_tags (configs l) ↔ ∃ s r c, (s, r) ∈ l ∧ config_of r = Some c ∧ t ∈ outbound_tags c.
Proof.
  unfold all_tags, configs. rewrite elem_of_concat. setoid_rewrite list_elem_of_fmap.
  setoid_rewrite list_elem_of_omap. split.
  - intros (tags & ([s c] & -> & [s' r] & Hin & Hc) & Ht). simpl in Hc.
    destruct (config_of r) as [c'|] eqn:E1; simplify_eq/=. by exists s, r, c.
  - intros (s & r & c & Hin & Hc & Ht). exists (outbound_tags c). split; [|done]. exists (s, c). split; [done|].
    exists (s, r). split; [done|]. simpl. by rewrite Hc.
Qed.

(** The part of [reload_check] after the validation decides; it only reads. *)
Lemma reload_tail ord tun o : ∃ p fs,
  ((h ← enabledConfigHashLocked; need ← hasActiveWorkLocked ord; o ← gets id;
    mret (inr {| newHash := h; needRunning := need; plan_prevHasTun := prevHasTun o; newHasTun := tun |} :
      option reload_error + plan)) : M (option reload_error + plan)) o = (inr p, set_faults fs o) ∧ newHasTun p = tun.
Proof.
  unfold mbind, ST_bind. destruct (ro_enabledConfigHash o) as [fs E1].
  destruct (enabledConfigHashLocked o) as [h o1]. cbn [snd] in E1. subst o1.
  destruct (ro_hasActiveWork ord (set_faults fs o)) as [fs2 E2].
  destruct (hasActiveWorkLocked ord _) as [need o2]. cbn [snd] in E2. subst o2. cbn [gets id].
  eexists _, fs2. split; [by unfold mret, ST_ret|done].
Qed.

Section commit.
Context (o : Orchestrator) (s : string) (m : SlotMeta) (draft : content).
Context (Hn : names_distinct o) (Hm : slots o !! s = Some m) (He : is_enabled o s = true) (Hk : s ∈ Slot <$> KnownSlots).

(** The state after the commit. *)
Definition committed : Orchestrator := set_active (<[Filename m := draft]> (active o)) o.

Lemma file_of_committed s' : file_of committed s' = if String.eqb s' s then Some draft else file_of o s'.
Proof.
  unfold file_of, committed. cbn. destruct (String.eqb s' s) eqn:E1; to_prop.
  - subst. rewrite Hm. cbn. apply lookup_insert_eq.
  - destruct (slots o !! s') as [m'|] eqn:Hm'; [|done]. cbn. rewrite lookup_insert_ne; [done|].
    intros Ef. by apply E1, (Hn s' s m' m).
Qed.

Lemma in_scan s' : s' ∈ scan_order o ↔ s' ∈ Slot <$> KnownSlots ∧ is_Some (slots o !! s').
Proof. unfold scan_order. rewrite list_elem_of_filter. naive_solver. Qed.

Lemma draft_tags_of : draft_tags draft = tags_of (inr (Some draft)).
Proof. unfold draft_tags, tags_of. destruct draft as [lay j|tx]; [done|]. by destruct tx. Qed.

(** Reload knows the tags the validation of the draft assumed. *)
Lemma known_committed : known_of committed ∅ = draft_known s draft o.
Proof.
  unfold draft_known, known_of. rewrite draft_tags_of. apply set_eq. intros t.
  change (scan_order committed) with (scan_order o). change (is_enabled committed) with (is_enabled o).
  rewrite !elem_of_union, !elem_of_union_list. setoid_rewrite list_elem_of_fmap.
  setoid_rewrite list_elem_of_filter. setoid_rewrite file_of_committed. split.
  - intros [?|(X & (s' & -> & [[_ Hs'] Hin]) & Ht)]; [by left; left|].
    destruct (String.eqb s' s) eqn:E1; to_prop; [by right|]. left; right.
    eexists. split; [|exact Ht]. exists s'. split; [done|]. set_solver.
  - intros [[?|(X & (s' & -> & [[Hne Hs'] Hin]) & Ht)]|Ht]; [by left| |]; right.
    + eexists. split; [|exact Ht]. exists s'. rewrite (proj2 (String.eqb_neq _ _)) by set_solver. set_solver.
    + eexists. split; [|exact Ht]. exists s. rewrite String.eqb_refl. split; [done|]. split; [set_solver|].
      apply in_scan. by rewrite Hm.
Qed.

Lemma enabled_scan_NoDup o' : NoDup (scan_order o').
Proof. apply NoDup_filter. apply (bool_decide_unpack _). by vm_compute. Qed.

Lemma draft_scan : filter (λ s', String.eqb s' s || is_enabled o s' = true) (scan_order o) = enabled_scan o.
Proof.
  unfold enabled_scan. apply list_filter_iff. intros s'. destruct (String.eqb s' s) eqn:E1; to_prop; [|done].
  subst. by rewrite He.
Qed.

(** Every reference of an accepted draft is a tag Reload knows. *)
Lemma accepted_refs c : Ok (validateDraftLocked s draft o).1 = true → faults o = [] →
  config_of (inr (Some draft)) = Some c → ∀ t, refers_outbound c t → t ∈ draft_known s draft o.
Proof.
  intros Hok Hf Hc t Ht. rewrite validateDraft_healthy, draft_scan in Hok by done. cbn [fst] in Hok.
  set (l := _ <$> enabled_scan o) in Hok.
  assert (s ∈ enabled_scan o) as Hs.
  { apply list_elem_of_filter. split; [done|]. apply in_scan. by rewrite Hm. }
  assert (NoDup l.*1) as Hnd.
  { unfold l. rewrite <- list_fmap_compose. rewrite list_fmap_id. apply NoDup_filter, enabled_scan_NoDup. }
  apply validate_read_Ok in Hok as [_ [_ _ _ Hres _ _]]; [|done].
  destruct (Hres s c t) as [Hb|Hall]; [|done| |].
  - unfold configs. apply list_elem_of_omap. exists (s, inr (Some draft)). split; [|cbn [snd]; by rewrite Hc].
    apply list_elem_of_fmap. exists s. split; [|done]. unfold draft_view. by rewrite String.eqb_refl.
  - unfold draft_known, known_of. set_solver.
  - apply tags_of_configs in Hall as (s' & r & c' & Hin & Hc' & Ht').
    unfold l in Hin. apply list_elem_of_fmap in Hin as (s0 & [= <- ->] & Hs0).
    apply list_elem_of_filter in Hs0 as [He0 Hin0]. unfold draft_known.
    rewrite draft_tags_of. unfold draft_view in Hc'. destruct (String.eqb s' s) eqn:E1; to_prop.
    { apply elem_of_union_r. unfold tags_of. cbn in Hc, Hc'. destruct (is_empty draft); [done|].
      rewrite Hc'. by apply elem_of_list_to_set. }
    apply elem_of_union_l. unfold known_of. apply elem_of_union_r, elem_of_union_list.
    exists (tags_of (inr (file_of o s'))). split.
    { apply list_elem_of_fmap. exists s'. split; [done|]. apply list_elem_of_filter. split; [|done].
      split; [set_solver|done]. }
    destruct (file_of o s') as [data|]; [|by destruct (String.eqb s' SlotUser)].
    destruct (String.eqb s' SlotUser); cbn [fmap option_fmap option_map config_of] in Hc'.
    + unfold tags_of. destruct (is_empty data); [done|]. rewrite Hc'. by apply elem_of_list_to_set.
    + destruct (is_empty _) eqn:Hem in Hc'; [done|]. by eapply pruned_tags.
Qed.

(** An accepted draft survives the pruning. *)
Lemma accepted_same : Ok (validateDraftLocked s draft o).1 = true → faults o = [] →
  disk_prune (draft_known s draft o) draft = draft.
Proof.
  intros Hok Hf. unfold disk_prune. destruct (is_empty draft) eqn:Hem; [done|].
  destruct (unmarshal draft) as [j|] eqn:Hu; [|done].
  assert (∃ c, config_of (inr (Some draft)) = Some c) as [c Hc].
  { rewrite validateDraft_healthy, draft_scan in Hok by done. cbn [fst] in Hok.
    apply validate_read_Ok in Hok as [Hd _].
    - rewrite Forall_forall in Hd. specialize (Hd (s, inr (Some draft))). destruct Hd as [H|[c Hc]].
      + apply list_elem_of_fmap. exists s. unfold draft_view. rewrite String.eqb_refl. split; [done|].
        apply list_elem_of_filter. split; [done|]. apply in_scan. by rewrite Hm.
      + congruence.
      + exists c. cbn. by rewrite Hem.
    - rewrite <- list_fmap_compose, list_fmap_id. apply NoDup_filter, enabled_scan_NoDup. }
  pose proof (prune_unchanged (draft_known s draft o) j c) as Hp.
  destruct (pruneDanglingSelectorRefsInDoc _ j) as [ch j']. cbn [fst] in Hp. rewrite Hp; [done| |].
  - cbn in Hc. rewrite Hem in Hc. unfold unmarshal_config in Hc. by rewrite Hu in Hc.
  - by apply accepted_refs.
Qed.
(** What [Reload] reads after the commit and its pruning. *)
Lemma committed_view o2 : Ok (validateDraftLocked s draft o).1 = true → faults o = [] →
  (∀ s', file_of o2 s' = if base.decide (s' ∈ pruned_slots o)
                         then disk_prune (draft_known s draft o) <$> file_of committed s' else file_of committed s') →
  validate_read ((λ s', (s', inr (file_of o2 s'))) <$> enabled_scan o) = (validateDraftLocked s draft o).1 ∧
  file_of o2 s = Some draft.
Proof.
  intros Hok Hf H2.
  assert (file_of o2 s = Some draft) as Hs.
  { rewrite H2, file_of_committed, String.eqb_refl. destruct (base.decide _); [|done]. cbn. by rewrite accepted_same. }
  split; [|done]. rewrite validateDraft_healthy, draft_scan by done. cbn [fst]. apply validate_read_ext.
  intros s' [He' Hs']%list_elem_of_filter. unfold draft_view. destruct (String.eqb s' s) eqn:E1; to_prop.
  { subst. by rewrite Hs. }
  rewrite H2, file_of_committed, (proj2 (String.eqb_neq _ _)) by done.
  destruct (String.eqb s' SlotUser) eqn:E2; to_prop.
  - rewrite decide_False; [by destruct (file_of o s')|]. intros [[_ ?] _]%list_elem_of_filter. done.
  - rewrite decide_True by by apply list_elem_of_filter. destruct (file_of o s'); [|done]. apply disk_prune_same.
Qed.

(** From any state that differs from the committed one in drafts, timer and flags. *)
Lemma commit_reloads ord o1 : Ok (validateDraftLocked s draft o).1 = true → faults o = [] →
  slots o1 = slots o → enabled o1 = enabled o → active o1 = active committed →
  faults o1 = [] → reloading o1 = false →
  ∃ p o4, reload_check ord o1 = (inr p, o4) ∧ newHasTun p = HasTun (validateDraftLocked s draft o).1 ∧
          file_of o4 s = Some draft.
Proof.
  intros Hok Hf Es Ee Ea Hf1 Hr. unfold reload_check. unfold mbind at 1, ST_bind at 1. cbn [gets id]. rewrite Hr.
  unfold mbind at 1, ST_bind at 1. cbn [modify]. unfold mbind at 1, ST_bind at 1.
  unfold pruneDanglingSelectorRefsLocked. unfold mbind at 1, ST_bind at 1. rewrite known_healthy by done.
  unfold mbind at 1, ST_bind at 1. cbn [gets id]. set (o2 := set_reloading true o1).
  assert (known_of o2 ∅ = draft_known s draft o) as ->.
  { rewrite <- known_committed. unfold o2, known_of, scan_order, is_enabled, file_of, committed in *. cbn.
    rewrite Es, Ee, Ea. done. }
  destruct (prune_slots_healthy (draft_known s draft o) (pruned_slots o2) o2) as [[a E3] H3];
    [done| |apply NoDup_filter, enabled_scan_NoDup|].
  { intros s1 s2 m1 m2. cbn. rewrite Es. apply Hn. }
  destruct (prune_slots _ _ _) as [u o3]. cbn [snd] in *. subst o3.
  assert (enabled_scan (set_active a o2) = enabled_scan o) as Een
    by (unfold enabled_scan, scan_order, is_enabled; cbn; by rewrite Es, Ee).
  destruct (committed_view (set_active a o2) Hok Hf) as [Hv Hs].
  { intros s'. rewrite H3. unfold o2, pruned_slots, scan_order, is_enabled, file_of, committed in *. cbn.
    by rewrite Es, Ee, Ea. }
  unfold mbind at 1, ST_bind at 1. rewrite validateLocked_healthy by done. rewrite Een, Hv.
  rewrite Hok. cbn [negb]. destruct (reload_tail ord (HasTun (validateDraftLocked s draft o).1)
    (set_lastReloadValidation None (set_active a o2))) as (p & fs & Ep & Hp).
  eexists p, _. split; [exact Ep|]. by split.
Qed.
End commit.

Lemma snapshot_files_healthy s ord acc o : faults o = [] → (snapshot_files s ord acc o).2 = o.
Proof.
  intros Hf. revert acc. induction ord as [|[s' en] ord IH]; intros acc; cbn [snapshot_files]; [done|].
  unfold mbind, ST_bind. cbn [gets id]. destruct (slots o !! s') as [m|]; [|apply IH].
  destruct (en && _); [|apply IH]. unfold readIfExists, fault, mbind, ST_bind, mret, ST_ret. rewrite Hf.
  cbn [gets id]. destruct (files Active o !! Filename m); apply IH.
Qed.

Lemma make_snapshot_healthy s m ord c o : faults o = [] → (make_snapshot s m ord c o).2 = o.
Proof.
  intros Hf. unfold make_snapshot. unfold mbind at 1, ST_bind at 1. unfold fault at 1. rewrite Hf.
  unfold mbind at 1, ST_bind at 1. pose proof (snapshot_files_healthy s ord ∅ o Hf) as H.
  destruct (snapshot_files s ord ∅ o) as [[e|snap] o1]; cbn [snd] in H; subst o1; [done|].
  unfold mbind, ST_bind, fault. by rewrite Hf.
Qed.

(** What an accepted [ApplyDraft] validated, on a healthy file system. *)
Lemma ApplyDraft_validated ord s o o' res : faults o = [] → ApplyDraft ord s o = (inr res, o') → Ok res = true →
  ∃ m draft, slots o !! s = Some m ∧ drafts o !! Filename m = Some draft ∧
    res = (validateDraftLocked s draft o).1 ∧ o' = set_reloadTimer true (move_draft (Filename m) draft o).
Proof.
  intros Hf Ha Hok. pose proof (apply_draft_spec ord s o) as Hs. rewrite Ha, Hok in Hs.
  destruct Hs as (m & draft & fs & Hm & Hd & Ho'). exists m, draft. split; [done|]. split; [done|].
  revert Ha. unfold ApplyDraft, with_slot. unfold mbind at 1, ST_bind at 1. cbn [gets id]. rewrite Hm.
  unfold mbind at 1, ST_bind at 1. unfold readIfExists, fault. unfold mbind at 1 2, ST_bind at 1 2. rewrite Hf.
  cbn [gets id files]. unfold mret at 1, ST_ret at 1. rewrite Hd.
  unfold mbind at 1, ST_bind at 1. rewrite validateDraft_healthy by done. cbn [fst].
  set (r := validate_read _). destruct (Ok r) eqn:Hr; cbn [negb]; [|intros [= <- _]; congruence].
  unfold mbind at 1, ST_bind at 1.
  match goal with |- context [(match validator with None => _ | Some _ => _ end) o] =>
    set (checked := match validator with None => _ | Some _ => _ end) end.
  assert ((checked o).2 = o) as Hc.
  { unfold checked. destruct validator; [|done]. unfold mbind, ST_bind. pose proof (make_snapshot_healthy s m ord draft o Hf).
    by destruct (make_snapshot _ _ _ _ _). }
  destruct (checked o) as [[e|] o1]; cbn [snd] in Hc; subst o1; [done|].
  unfold rename, fault, mbind, ST_bind, mret, ST_ret. rewrite Hf. cbn [gets id files]. rewrite Hd. cbn.
  intros [= <- <-]. split; [done|]. by destruct o.
Qed.

(** C9: On a healthy file system, once a draft of an enabled slot is accepted and
    applied, the reload that the call schedules does not refuse the configuration: it
    finds the same validation result and hands a plan to the process, and the pruning
    it does first leaves the applied file as it was written. *)
Theorem applied_draft_reloads (ord ord' : list (string * bool)) (s : string) (o o' : Orchestrator) (res : ValidationResult) :
  faults o = [] → names_distinct o → is_enabled o s = true → s ∈ Slot <$> KnownSlots → reloading o = false →
  ApplyDraft ord s o = (inr res, o') → Ok res = true →
  ∃ p, (reload_check ord' o').1 = inr p ∧ newHasTun p = HasTun res ∧
       file_of (reload_check ord' o').2 s = file_of o' s.
Proof.
  intros Hf Hn He Hk Hr Ha Hok. destruct (ApplyDraft_validated _ _ _ _ _ Hf Ha Hok) as (m & draft & Hm & Hd & -> & ->).
  destruct (commit_reloads o s m draft Hn Hm He Hk ord' (set_reloadTimer true (move_draft (Filename m) draft o)))
    as (p & o4 & Hp & Ht & Hfile); try done.
  exists p. rewrite Hp. split; [done|]. split; [done|]. cbn [snd]. rewrite Hfile. unfold file_of. cbn. rewrite Hm. cbn. by rewrite lookup_insert_eq.
Qed.
End predict.
