(* ===== verification/SbProcess.v ===== *)
(** * The sing-box process ([internal/singbox/process.go])

    [Process] drives one daemon through a pid file: [StartSpawned], [Stop], [Reload],
    [AttachIfRunning] and the identity check behind [IsRunning].  The system is a
    table of live processes; what a daemon does with a configuration is the class
    [Daemon].  A pid file may turn out unreadable, a write or removal of it may fail, and
    a process may outlast the signals [Stop] sends it.  Logs, tails and the texts of
    errors are not modelled. *)
From S2P Require Import Prelude GoLib SbJson.

(** The directory [config.d] as the daemon reads it. *)
Abbreviation config_dir := (gmap string content).

(** A live process: whether its command line names our binary, and the configuration
    it runs. *)
Record osproc := { ours : bool; running_config : config_dir }.

(** The pid the file holds ([None]: there is no file, or no number in it). *)
Record Process := {
  pidfile : option nat;
  unreadable : bool;       (* reads of the pid file fail *)
  stuck : gset nat;        (* the processes that outlast the waits of [Stop] *)
  cleanups : nat;          (* the exit monitors between their read and their removal *)
  live : gmap nat osproc;
  p_faults : list bool;    (* what the coming file accesses and spawns do *)
  attached : bool;
  tails : bool;            (* tailCancel is set *)
  signalled : list nat;    (* the pids signals were sent to, latest first *)
}.

Definition eta_proc (p : Process) : Process := {|
  pidfile := pidfile p; unreadable := unreadable p; stuck := stuck p; cleanups := cleanups p; live := live p; p_faults := p_faults p; attached := attached p; tails := tails p;
  signalled := signalled p |}.
Definition set_pidfile v (p : Process) : Process := ltac:(update_field eta_proc pidfile v p).
Definition set_unreadable v (p : Process) : Process := ltac:(update_field eta_proc unreadable v p).
Definition set_stuck v (p : Process) : Process := ltac:(update_field eta_proc stuck v p).
Definition set_cleanups v (p : Process) : Process := ltac:(update_field eta_proc cleanups v p).
Definition set_live v (p : Process) : Process := ltac:(update_field eta_proc live v p).
Definition set_p_faults v (p : Process) : Process := ltac:(update_field eta_proc p_faults v p).
Definition set_attached v (p : Process) : Process := ltac:(update_field eta_proc attached v p).
Definition set_tails v (p : Process) : Process := ltac:(update_field eta_proc tails v p).
Definition set_signalled v (p : Process) : Process := ltac:(update_field eta_proc signalled v p).

(** The pid the system gives out next, whether a daemon survives the grace period with
    a configuration, and what it runs after a SIGHUP ([None]: it dies). *)
Class Daemon := {
  alloc_pid : gmap nat osproc → nat;
  survives : config_dir → bool;
  after_hup : config_dir → config_dir → option config_dir;
}.

Section process.
Context `{Daemon}.
Abbreviation M := (ST Process).

Definition p_fault : M bool := λ p,
  match p_faults p with [] => (false, p) | b :: bs => (b, set_p_faults bs p) end.

(** ** Identity *)

(** [isAlive(pid)] and [pidMatch(pid)]. *)
Definition isAlive (p : Process) (pid : nat) : bool := bool_decide (is_Some (live p !! pid)).
Definition pidMatch (p : Process) (pid : nat) : bool := match live p !! pid with Some q => ours q | None => false end.

(** ** The pid file *)

Definition readPID (p : Process) : option nat := if unreadable p then None else pidfile p.

(** [os.WriteFile] empties the file before it writes; [true]: it failed. *)
Definition writePID (pid : nat) : M bool :=
  no_open ← p_fault;
  if (no_open : bool) then mret true
  else
    bad ← p_fault;
    _ ← modify (set_pidfile (if (bad : bool) then None else Some pid));
    mret bad.

(** [os.Remove(p.pidPath)], its error ignored. *)
Definition remove_pidfile : M unit :=
  bad ← p_fault; if (bad : bool) then mret tt else modify (set_pidfile None).

(** [IsRunning]: the pid of the file, when it is live and ours. *)
Definition running_pid (p : Process) : option nat :=
  pid ← readPID p; if isAlive p pid && pidMatch p pid then Some pid else None.
Definition ps_IsRunning (p : Process) : bool := bool_decide (is_Some (running_pid p)).

(** The read and the removal are two steps: another call may fall between them. *)
Definition cleanup_read (pid : nat) : M bool := gets (λ p, bool_decide (readPID p = Some pid)).
Definition cleanupPidIfOurs (pid : nat) : M unit :=
  ok ← cleanup_read pid; if (ok : bool) then remove_pidfile else mret tt.

(** SIGTERM and, when it is not gone after 3 s, SIGKILL and another half second: a
    process that is not stuck is gone. *)
Definition send_signal (pid : nat) : M unit := modify (λ p, set_signalled (pid :: signalled p) p).
Definition kill_pid (pid : nat) : M unit :=
  _ ← send_signal pid;
  p ← gets id;
  if bool_decide (pid ∈ stuck p) then if isAlive p pid then send_signal pid else mret tt
  else modify (set_live (delete pid (live p))).

(** ** Start *)

(** The spawn and the grace period, over the configuration of [config.d]. When the pid
    cannot be written, [Wait] blocks until the terminated child is gone. *)
Definition spawn (dir : config_dir) : M (bool * option string) :=
  p ← gets id;
  let pid := alloc_pid (live p) in
  _ ← modify (λ p, set_live (<[pid := {| ours := true; running_config := dir |}]> (live p)) p);
  _ ← modify (set_tails true);
  bad ← writePID pid;
  if (bad : bool) then
    _ ← send_signal pid;
    _ ← modify (λ p, set_live (delete pid (live p)) p);
    mret (false, Some "write pid")
  else if survives dir then mret (true, None)
  else
    _ ← modify (λ p, set_live (delete pid (live p)) p);
    _ ← cleanupPidIfOurs pid;
    mret (true, Some "sing-box exited during startup").

Definition startLocked (dir : config_dir) : M (bool * option string) :=
  p ← gets id;
  if ps_IsRunning p then mret (false, None)
  else
    bad ← p_fault; (* MkdirAll *)
    if (bad : bool) then mret (false, Some "mkdir")
    else
      _ ← modify (set_attached false);
      bad ← p_fault; (* the command, its logs, the fork *)
      if (bad : bool) then mret (false, Some "start sing-box")
      else spawn dir.

Definition StartSpawned : config_dir → M (bool * option string) := startLocked.
Definition ps_Start (dir : config_dir) : M (option string) := r ← StartSpawned dir; mret r.2.

(** ** Stop *)

(** The pid file goes even when the wait for the process was given up. *)
Definition stopLocked : M (option string) :=
  p ← gets id;
  match readPID p with
  | None => mret None
  | Some pid =>
      _ ← kill_pid pid;
      _ ← modify (set_attached false);
      _ ← remove_pidfile;
      mret None
  end.
Definition ps_Stop : M (option string) := stopLocked.

(** ** Reload *)

(** SIGHUP: [true] when it could be sent. A foreign process ignores it, a stuck one does
    not get to it. *)
Definition hup_pid (pid : nat) (dir : config_dir) : M bool := λ p,
  match live p !! pid with
  | None => (false, p)
  | Some q =>
      let p := set_signalled (pid :: signalled p) p in
      if ours q && negb (bool_decide (pid ∈ stuck p)) then
        match after_hup (running_config q) dir with
        | Some c => (true, set_live (<[pid := {| ours := true; running_config := c |}]> (live p)) p)
        | None => (true, set_live (delete pid (live p)) p)
        end
      else (true, p)
  end.

Definition restartLocked (dir : config_dir) : M (option string) :=
  _ ← stopLocked; r ← startLocked dir; mret r.2.

(** [needs]: what [ReloadNeedsRestart] answers. *)
Definition ps_Reload (needs : bool) (dir : config_dir) : M (option string) :=
  p ← gets id;
  match readPID p with
  | None => r ← startLocked dir; mret r.2
  | Some pid =>
      if needs then restartLocked dir
      else
        sent ← hup_pid pid dir;
        if negb sent then restartLocked dir
        else
          p ← gets id;
          if negb (isAlive p pid) || negb (pidMatch p pid) then r ← startLocked dir; mret r.2
          else mret None
  end.

(** ** Adoption at start-up *)

(** [respawn]: [logFdNeedsRespawn] of a pid. *)
Definition AttachIfRunning (respawn : nat → bool) : M (option nat) :=
  p ← gets id;
  if attached p || tails p then mret None
  else match running_pid p with
  | None => mret None
  | Some pid =>
      if respawn pid then _ ← stopLocked; mret None
      else _ ← modify (set_tails true); _ ← modify (set_attached true); mret (Some pid)
  end.

(** ** What runs *)

(** The configuration of the daemon the pid file names. *)
Definition ps_loaded (p : Process) : option config_dir :=
  pid ← running_pid p; running_config <$> live p !! pid.
End process.
