(* ===== verification/SbReloadProps.v ===== *)
(** * Reload converges

    What a process promises ([ProcLaws]), the invariant that the recorded state and
    [prevHasTun] describe what the process runs, and [Reload]: when it reports no
    error, the process runs exactly the enabled files of [config.d]. *)
From S2P Require Import Prelude GoLib GoText SbJson SbValidate SbValidateProps SbOrch SbReload SbOrchProps SbLayout SbPredict SbProcess.

(** ** The interface of the process *)

(** Whether a directory has a tun inbound in a file of the catalog. *)
Definition catalog (sl : gmap string SlotMeta) : list string :=
  filter (λ s, is_Some (sl !! s)) (Slot <$> KnownSlots).
Definition has_tun (sl : gmap string SlotMeta) (d : config_dir) : bool :=
  HasTun (validate_read ((λ s, (s, inr (m ← sl !! s; d !! Filename m))) <$> catalog sl)).

(** As long as the process is [steady]: [Start] of a running process does nothing;
    [Stop] does not fail; a SIGHUP makes the daemon take the directory over when tun
    presence does not change and [CurrentHasTun] is right about it. *)
Class ProcLaws (P : Type) `{Proc P} (sl : gmap string SlotMeta) := {
  loaded : P → option config_dir;
  steady : P → Prop;
  IsRunning_loaded p : IsRunning p = bool_decide (is_Some (loaded p));
  Start_loaded d p : steady p → let '(e, p') := Start d p in
    steady p' ∧
    match e with
    | None => loaded p' = Some (default d (loaded p))
    | Some _ => loaded p = None → loaded p' = None
    end;
  Stop_loaded p : steady p → let '(e, p') := Stop p in steady p' ∧ e = None ∧ loaded p' = None;
  Sighup_loaded d0 d p : steady p → loaded p = Some d0 → has_tun sl d0 = has_tun sl d →
    let '(e, p') := Sighup (has_tun sl d0) d p in
    steady p' ∧ match e with None => loaded p' = Some d | Some _ => loaded p' = None end;
}.

Section converge.
Context `{G : Digest} `{E : !Env} `{D : !EqDecision digest} `{A : GoArch}.
Abbreviation M := (ST Orchestrator).

(** ** What the reads give when no access fails *)

(** The files an orchestrator hashes. *)
Definition enabled_input (o : Orchestrator) : list (string * content) :=
  (λ s, (s, default (Junk "") (file_of o s))) <$> enabled_scan o.

Lemma enabledConfigHash_healthy o : faults o = [] → enabledConfigHashLocked o = (sha256 (enabled_input o), o).
Proof.
  intros Hf. unfold enabledConfigHashLocked, mbind, ST_bind. cbn [gets id].
  rewrite (read_all_healthy _ (file_of o)) by (intros; by apply readActiveBytes_healthy).
  unfold mret, ST_ret, enabled_input. f_equal. f_equal. fold (enabled_scan o).
  induction (enabled_scan o) as [|s l IH]; [done|]. rewrite !fmap_cons. cbn [hash_input]. by rewrite IH.
Qed.

Definition user_work (f : option content) : bool :=
  match f with
  | Some data => if is_empty data then false else default false (unmarshal data ≫= meaningful)
  | None => false
  end.

Lemma user_work_healthy o : faults o = [] →
  userSlotHasMeaningfulContentLocked o = (user_work (file_of o SlotUser), o).
Proof.
  intros Hf. unfold userSlotHasMeaningfulContentLocked, mbind, ST_bind. rewrite readActiveBytes_healthy by done.
  by destruct (file_of o SlotUser).
Qed.

(** [hasActiveWorkLocked] as a function of what it reads. *)
Definition active_work (ord : list (string * bool)) (o : Orchestrator) : bool :=
  existsb (λ '(s, en), match slots o !! s with
    | Some m => en && (if AlwaysOn m then HasContent m && has_content s
                       else negb (String.eqb s SlotUser) || user_work (file_of o SlotUser))
    | None => false
    end) ord.

Lemma active_work_ext ord o o' : slots o' = slots o → file_of o' SlotUser = file_of o SlotUser →
  active_work ord o' = active_work ord o.
Proof. intros Es Ef. unfold active_work. by rewrite Es, Ef. Qed.

Lemma hasActiveWork_healthy ord o : faults o = [] → hasActiveWorkLocked ord o = (active_work ord o, o).
Proof.
  intros Hf. induction ord as [|[s en] ord IH]; [done|]. cbn [hasActiveWorkLocked].
  unfold mbind at 1, ST_bind at 1. cbn [gets id]. unfold active_work in *. cbn [existsb].
  destruct (slots o !! s) as [m|]; [|apply IH]. destruct en; cbn [negb andb orb]; [|apply IH].
  destruct (AlwaysOn m); [destruct (_ && _); [done|apply IH]|].
  destruct (String.eqb s SlotUser); cbn [negb orb]; [|done].
  unfold mbind, ST_bind. rewrite user_work_healthy by done. destruct (user_work _); [done|apply IH].
Qed.

(** ** Tun presence *)

Definition tun_in (r : string + option content) : bool :=
  match config_of r with
  | Some c => existsb (λ ib, String.eqb (ib_Type ib) "tun") (Inbounds c)
  | None => false
  end.

Lemma HasTun_validate l : HasTun (validate_read l) = existsb (λ r, tun_in r.2) l.
Proof.
  unfold validate_read, finish. cbn [HasTun].
  enough (∀ a, hasTun (foldl (λ a r, scan_slot r.1 r.2 a) a l) = hasTun a || existsb (λ r, tun_in r.2) l) as -> by done.
  induction l as [|[s r] l IH]; intros a; cbn [foldl existsb fst snd]; [by rewrite orb_false_r|].
  rewrite IH, orb_assoc. f_equal. unfold tun_in, config_of. destruct r as [e|[d|]]; cbn [scan_slot];
    rewrite ?orb_false_r; [done| |done].
  destruct (is_empty d); [by rewrite orb_false_r|]. destruct (unmarshal_config d) as [c|]; [|by rewrite orb_false_r].
  unfold scan_config. by repeat destruct (declare _ _ _ _ _).
Qed.

(** Files of disabled slots are absent, so only the enabled ones count. *)
Lemma has_tun_enabled o : laid_out o →
  has_tun (slots o) (active o) = HasTun (validate_read ((λ s, (s, inr (file_of o s))) <$> enabled_scan o)).
Proof.
  intros L. unfold has_tun. rewrite !HasTun_validate. unfold enabled_scan, catalog, scan_order.
  induction (filter _ (Slot <$> KnownSlots)) as [|s l IH]; [done|]. rewrite fmap_cons, filter_cons. cbn [existsb snd].
  rewrite IH. case_decide as He; [done|].
  assert ((m ← slots o !! s; active o !! Filename m) = None) as Hn.
  { destruct (slots o !! s) as [m|] eqn:Hm; [|done]. cbn. eapply lo_active; [done..|]. by apply not_true_iff_false. }
  by rewrite Hn.
Qed.

(** ** The locked part *)

(** What [reload_check] finds after it pruned. *)
Record checked (ord : list (string * bool)) (o o3 : Orchestrator) (p : plan) : Prop := {
  ck_faults : faults o3 = [];
  ck_slots : slots o3 = slots o;
  ck_laid_out : laid_out o3;
  ck_applied : applied o3 = applied o;
  ck_prev : prevHasTun o3 = prevHasTun o;
  ck_hash : newHash p = sha256 (enabled_input o3);
  ck_need : needRunning p = active_work ord o;
  ck_plan_prev : plan_prevHasTun p = prevHasTun o;
  ck_tun : newHasTun p = has_tun (slots o) (active o3);
}.

Lemma reload_check_healthy ord o : faults o = [] → reloading o = false → laid_out o →
  let '(r, o') := reload_check ord o in
  match r with
  | inr p => checked ord o o' p
  | inl e => (∃ res, e = Some (Invalid res)) ∧ slots o' = slots o ∧ laid_out o' ∧ applied o' = applied o ∧
      prevHasTun o' = prevHasTun o
  end.
Proof.
  intros Hf Hr L. pose proof (keeps_reload_check ord o L) as (L' & Es & Ee).
  destruct (reload_check ord o) as [r o'] eqn:Hc. cbn [snd] in L', Es, Ee. revert Hc.
  unfold reload_check. unfold mbind at 1, ST_bind at 1. cbn [gets id]. rewrite Hr.
  unfold mbind at 1, ST_bind at 1. cbn [modify]. set (o1 := set_reloading true o).
  unfold mbind at 1, ST_bind at 1.
  unfold pruneDanglingSelectorRefsLocked. unfold mbind at 1, ST_bind at 1. rewrite known_healthy by done.
  unfold mbind at 1, ST_bind at 1. cbn [gets id].
  destruct (prune_slots_healthy (known_of o1 ∅) (pruned_slots o1) o1) as [[a E3] H3];
    [done|exact (lo_names _ L)|apply NoDup_filter, enabled_scan_NoDup|].
  destruct (prune_slots _ _ _) as [u o2]. cbn [snd] in *. subst o2. set (o2 := set_active a o1) in *.
  unfold mbind at 1, ST_bind at 1. rewrite validateLocked_healthy by done. set (res := validate_read _).
  destruct (Ok res) eqn:Hok; cbn [negb].
  - unfold mbind at 1, ST_bind at 1. cbn [modify]. unfold mbind at 1, ST_bind at 1.
    rewrite enabledConfigHash_healthy by done. unfold mbind at 1, ST_bind at 1.
    rewrite hasActiveWork_healthy by done. unfold mbind, ST_bind, mret, ST_ret. cbn [gets id].
    intros [= <- <-]. split; try done.
    + cbn [needRunning]. apply active_work_ext; [done|].
      change (file_of o2 SlotUser = file_of o SlotUser). rewrite H3, decide_False; [done|].
      intros [[_ ?] _]%list_elem_of_filter. done.
    + change (HasTun res = has_tun (slots o2) (active o2)). rewrite (has_tun_enabled o2); [done|].
      by apply (laid_out_frame _ _ L').
  - intros [= <- <-]. split; [by eexists|done].
Qed.

(** ** What the record says about the process *)

(** The same files of the catalog, a missing file counting as an empty one. *)
Definition same_files (sl : gmap string SlotMeta) (d d' : config_dir) : Prop :=
  ∀ s m, s ∈ catalog sl → sl !! s = Some m →
    default (Junk "") (d !! Filename m) = default (Junk "") (d' !! Filename m).

(** A record describes a directory: it was made from it by some orchestrator over the
    same slots. *)
Definition records (sl : gmap string SlotMeta) (st : appliedState) (d : config_dir) : Prop :=
  ∃ o0, laid_out o0 ∧ slots o0 = sl ∧ active o0 = d ∧ Hash st = sha256 (enabled_input o0) ∧
        as_HasTun st = has_tun sl d.

Lemma elem_enabled_input o s c :
  (s, c) ∈ enabled_input o ↔ s ∈ catalog (slots o) ∧ is_enabled o s = true ∧ c = default (Junk "") (file_of o s).
Proof.
  unfold enabled_input, enabled_scan. rewrite list_elem_of_fmap. setoid_rewrite list_elem_of_filter at 1.
  split; [intros (y & [= <- ->] & He & Hs)|intros (Hs & He & ->)]; [done|by exists s].
Qed.

Lemma same_input_same_files o o0 : laid_out o → laid_out o0 → slots o0 = slots o →
  enabled_input o0 = enabled_input o → same_files (slots o) (active o0) (active o).
Proof.
  intros L L0 Es Ei s m Hs Hm.
  assert (∀ o', slots o' = slots o → file_of o' s = active o' !! Filename m) as Hfile
    by (intros o' E'; unfold file_of; by rewrite E', Hm).
  assert (∀ c, (s, c) ∈ enabled_input o0 ↔ (s, c) ∈ enabled_input o) as H by by rewrite Ei.
  setoid_rewrite elem_enabled_input in H. rewrite Es, !Hfile in H by done.
  destruct (is_enabled o s) eqn:He.
  - destruct (H (default (Junk "") (active o !! Filename m))) as [_ [_ [_ ->]]]; done.
  - destruct (is_enabled o0 s) eqn:He0.
    { destruct (H (default (Junk "") (active o0 !! Filename m))) as [[_ [? _]] _]; done. }
    rewrite (lo_active _ L s m Hm (not_elem_of_empty s) He), (lo_active _ L0 s m); [done|by rewrite Es|set_solver|done].
Qed.

Context {P : Type} `{PC : Proc P} (sl : gmap string SlotMeta) `{PL : !ProcLaws P sl}.

(** The process runs what [config.d] holds. *)
Definition in_step (o : Orchestrator) (p : P) : Prop := ∃ d, loaded p = Some d ∧ same_files sl d (active o).

(** The process is steady, and [prevHasTun] and the record describe what runs. *)
Record described (o : Orchestrator) (p : P) : Prop := {
  de_slots : slots o = sl;
  de_steady : steady p;
  de_layout : laid_out o;
  de_tun : ∀ d, loaded p = Some d → prevHasTun o = has_tun sl d;
  de_record : ∀ d st, loaded p = Some d → applied o = Some st → Hash st ≠ no_digest → records sl st d;
}.

Lemma described_down o p : slots o = sl → laid_out o → steady p → loaded p = None → described o p.
Proof. intros Es L Hst Hl. split; [done|done|done| |]; intros; congruence. Qed.

(** A collision-free digest. *)
Definition digest_ok : Prop :=
  (∀ l l', sha256 l = sha256 l' → l = l') ∧ (∀ l, sha256 l ≠ no_digest).

(** Whether the process should be up after the reload: there is work for it, and it may
    be started when it is down. *)
Definition should_be_up (ord : list (string * bool)) (o : Orchestrator) (p : P) : bool :=
  active_work ord o && (IsRunning p || default true shouldRun).

Lemma drive_spec ord o o3 pl p : checked ord o o3 pl → described o3 p → plan_prevHasTun pl = prevHasTun o3 →
  let '((e, st), (o', p')) := drive pl (IsRunning p) (o3, p) in
  o' = o3 ∧ steady p' ∧
  match e with
  | Some _ => loaded p' = None
  | None =>
      if should_be_up ord o p
      then loaded p' = Some (active o3) ∧ st = Some {| Hash := newHash pl; as_HasTun := newHasTun pl |}
      else loaded p' = None ∧ st = Some nothing_applied
  end.
Proof.
  intros [Cf Cs Cl Ca Cp Ch Cn Cpp Ct] [Ds Dst Dl Dt Dr] Hprev. unfold drive, should_be_up. rewrite Cn.
  pose proof (IsRunning_loaded p) as Hrun. destruct (IsRunning p) eqn:Hp.
  - symmetry in Hrun. apply bool_decide_eq_true in Hrun as [d Hd]. specialize (Dt d Hd).
    destruct (active_work ord o); cbn [andb orb].
    + destruct (Bool.eqb _ _) eqn:Etun; cbn [negb].
      * apply Bool.eqb_prop in Etun. unfold mbind, ST_bind, call_sighup, CurrentHasTun, call_proc. cbn [fst snd].
        rewrite Dt. pose proof (Sighup_loaded d (active o3) p Dst Hd) as H. destruct (Sighup _ _ _) as [e p'].
        specialize (H ltac:(congruence)) as [? H]. by destruct e.
      * unfold mbind, ST_bind, call_proc. cbn [fst snd]. pose proof (Stop_loaded p Dst) as H.
        destruct (Stop p) as [e0 p1]. destruct H as (S1 & _ & H1). cbn [fst snd].
        pose proof (Start_loaded (active o3) p1 S1) as H2. destruct (Start _ _) as [e p2]. destruct H2 as [S2 H2]. rewrite H1 in H2.
        destruct e; split; auto.
    + unfold mbind, ST_bind, call_proc. cbn [fst snd]. pose proof (Stop_loaded p Dst) as H.
      destruct (Stop p) as [e0 p1]. by destruct H as (? & -> & H1).
  - symmetry in Hrun. apply bool_decide_eq_false in Hrun. rewrite <- eq_None_not_Some in Hrun.
    destruct (active_work ord o); cbn [andb orb]; [|done].
    destruct (default true shouldRun); cbn [negb]; [|done]. unfold mbind, ST_bind, call_proc. cbn [fst snd].
    pose proof (Start_loaded (active o3) p Dst) as H2. destruct (Start _ _) as [e p2]. destruct H2 as [S2 H2]. rewrite Hrun in H2.
    destruct e; split; auto.
Qed.

Lemma reload_converges_aux ord o p :
  digest_ok → faults o = [] → reloading o = false → described o p →
  let '(e, (o', p')) := Reload ord (o, p) in
  described o' p' ∧
  match e with
  | None => if should_be_up ord o p then in_step o' p' else loaded p' = None
  | Some (Invalid _) => p' = p
  | Some (ProcError _) => loaded p' = None
  end.
Proof.
  intros [Hinj Hno] Hf Hr D0. pose proof D0 as [Ds Dst Dl Dt Dr]. unfold Reload. unfold mbind at 1, ST_bind at 1.
  unfold on_orch at 1. cbn [fst snd]. pose proof (reload_check_healthy ord o Hf Hr Dl) as Hc.
  destruct (reload_check ord o) as [[e|pl] o3].
  { destruct Hc as ([res ->] & Es & L' & Ea & Ep). cbn. split; [|done]. split; [congruence|done|done| |].
    - intros d Hd. rewrite Ep. by apply Dt.
    - intros d st Hd. rewrite Ea. by apply Dr. }
  pose proof Hc as [Cf Cs Cl Ca Cp Ch Cn Cpp Ct].
  assert (described o3 p) as D3.
  { split; [congruence|done|done| |]; [intros d Hd; rewrite Cp; by apply Dt|intros d st Hd; rewrite Ca; by apply Dr]. }
  unfold reload_act. unfold mbind at 1, ST_bind at 1.
  assert (on_orch loadAppliedState (o3, p) = (applied o3, (o3, p))) as ->.
  { unfold on_orch, loadAppliedState, fault, mbind, ST_bind. cbn [fst snd]. by rewrite Cf. }
  unfold mbind at 1, ST_bind at 1, proc_running at 1. cbn [fst snd].
  destruct (adopted _ _ _) as [st|] eqn:Had.
  - unfold adopted in Had. destruct (applied o3) as [st'|] eqn:Hst; [|done]. destruct (bool_decide _ && _) eqn:Hcond; [|done].
    injection Had as ->. apply andb_true_iff in Hcond as [Eh [Hrun Hneed]%andb_true_iff]. to_prop.
    rewrite IsRunning_loaded in Hrun. apply bool_decide_eq_true in Hrun as [d Hd].
    destruct (de_record _ _ D3 d st Hd Hst) as (o0 & L0 & Es0 & Ea0 & Eh0 & Et0); [rewrite Eh, Ch; apply Hno|].
    assert (same_files sl d (active o3)) as Hsame.
    { assert (slots o3 = sl) as Es3 by congruence. rewrite <- Es3, <- Ea0.
      apply same_input_same_files; [done|done|congruence|]. apply Hinj. congruence. }
    cbn. split.
    + split; [by apply D3|done|by apply (laid_out_frame _ _ Cl)| |].
      * intros d' Hd'. change (loaded p = Some d') in Hd'. change (as_HasTun st = has_tun sl d'). congruence.
      * intros d' st' Hd' Hst'. cbn in Hst'. by apply (de_record _ _ D3).
    + unfold should_be_up. rewrite <- Cn, Hneed, IsRunning_loaded, Hd. cbn. by exists d.
  - unfold mbind at 1, ST_bind at 1. pose proof (drive_spec ord o o3 pl p Hc D3 ltac:(congruence)) as Hd.
    destruct (drive _ _ _) as [[e st] [o4 p4]]. destruct Hd as (-> & Hst4 & Hd).
    assert (∀ st o', slots o' = sl → laid_out o' → prevHasTun o' = newHasTun pl → active o' = active o3 →
      applied o' = Some st → (st = nothing_applied ∨ st = {| Hash := newHash pl; as_HasTun := newHasTun pl |}) →
      (loaded p4 = None ∨ loaded p4 = Some (active o3) ∧ st ≠ nothing_applied) → described o' p4) as Hdesc.
    { intros st0 o' Es L' Ep Ea Eap Hst0 Hl. split; [done|done|done| |].
      - intros d Hd'. destruct Hl as [|[Hl _]]; [congruence|]. simplify_eq. rewrite Ep, Ct. congruence.
      - intros d st1 Hd' Hst1 Hne. destruct Hl as [|[Hl Hn0]]; [congruence|]. simplify_eq.
        destruct Hst0 as [->| ->]; [done|]. exists o3. split_and!; try done; [congruence|].
        change (newHasTun pl = has_tun sl (active o3)). congruence. }
    destruct e as [e|].
    { destruct st as [st|]; cbn [snd fst]; unfold on_orch, mbind, ST_bind, saveAppliedState, fault; cbn [fst snd];
        unfold mbind, ST_bind; cbn [fst snd]; rewrite ?Cf;
        (split; [|done]); apply described_down; try done; try (change (slots o3 = sl); congruence); by apply (laid_out_frame _ _ Cl). }
    assert (default nothing_applied st = nothing_applied ∨
      default nothing_applied st = {| Hash := newHash pl; as_HasTun := newHasTun pl |}) as Hst
      by (destruct (should_be_up ord o p); destruct Hd as [_ ->]; auto).
    destruct st as [st|]; [|by destruct (should_be_up ord o p); destruct Hd].
    unfold on_orch, mbind, ST_bind, saveAppliedState, fault; cbn [fst snd]; unfold mbind, ST_bind; cbn [fst snd];
      rewrite ?Cf; cbn -[has_tun]. refine (conj _ _).
    + apply (Hdesc st); try done; [by change (slots o3 = sl); congruence|by apply (laid_out_frame _ _ Cl)|].
      destruct (should_be_up ord o p); destruct Hd as [Hl Est]; [right|by left]. split; [done|].
      intros ->. simplify_eq. unfold nothing_applied in Est. injection Est as Eh _. apply (Hno (enabled_input o3)). congruence.
    + destruct (should_be_up ord o p); destruct Hd as [Hl _]; [|done]. by exists (active o3).
Qed.

(** C2: From a state in which the record and [prevHasTun] describe what the process runs
    and the process is steady (its pid file can be read, it obeys the signals sent to
    it), with no failing access to [config.d] or to the record, a digest without
    collisions, and no other reload under way, a [Reload] that reports no error leaves the process
    running exactly the enabled files of [config.d] when there is work for it (and it may
    run), and down otherwise, whichever of the skip, start, restart, SIGHUP and stop
    branches it took; a refused configuration leaves the process alone, a failed call
    leaves it down, and in every case the record keeps describing it. *)
Theorem reload_converges (ord : list (string * bool)) (o : Orchestrator) (p : P) :
  digest_ok → faults o = [] → reloading o = false → described o p →
  let '(e, (o', p')) := Reload ord (o, p) in
  described o' p' ∧
  match e with
  | None => if should_be_up ord o p then in_step o' p' else loaded p' = None
  | Some (Invalid _) => p' = p
  | Some (ProcError _) => loaded p' = None
  end.
Proof. apply reload_converges_aux. Qed.
End converge.
