(* ===== verification/SbProcessProps.v ===== *)
(** * The sing-box process: what it promises, and that there is one of it

    [Process] satisfies [ProcLaws], the interface [Reload] is proved against; and
    through calls and crashes the only daemon of ours that lives is the one the pid
    file names, as long as the file can be read when a daemon is started, no stop gives
    up, and no start falls into the clean-up of an exit monitor. *)
From S2P Require Import Prelude GoLib SbJson SbValidate SbOrch SbReload SbReloadProps SbProcess.

(** New pids are not in use; a daemon that survives a SIGHUP with the same tun presence
    runs the new directory. *)
Class DaemonLaws `{Daemon} (sl : gmap string SlotMeta) := {
  alloc_fresh l : l !! alloc_pid l = None;
  hup_takes_over d0 d c : after_hup d0 d = Some c → has_tun sl d0 = has_tun sl d → c = d;
}.

Section process.
Context `{DM : Daemon}.

#[export] Instance process_proc : Proc Process := {
  IsRunning := ps_IsRunning; Start := ps_Start; Stop := ps_Stop; Sighup := ps_Reload }.

(** The pid file can be read and no process outlasts a [Stop]. *)
Definition ps_steady (p : Process) : Prop := unreadable p = false ∧ stuck p = ∅.

(** What the operations leave to the environment. *)
Definition quirks (p : Process) : bool * gset nat * nat := (unreadable p, stuck p, cleanups p).

Lemma quirks_steady p p' : quirks p' = quirks p → ps_steady p → ps_steady p'.
Proof. unfold ps_steady. by intros [= -> -> _]. Qed.

Lemma running_pid_Some p pid : running_pid p = Some pid ↔
  readPID p = Some pid ∧ ∃ q, live p !! pid = Some q ∧ ours q = true.
Proof.
  unfold running_pid, isAlive, pidMatch. destruct (readPID p) as [pid'|]; cbn;
    [|split; [done|by intros [? _]]].
  destruct (live p !! pid') as [q|] eqn:Hq; cbn.
  - destruct (ours q) eqn:Ho; cbn.
    + split; [intros [= <-]; by eauto|by intros [? _]].
    + split; [done|]. intros ([= ->] & q' & ? & ?). congruence.
  - split; [done|]. intros ([= ->] & q & Hq' & _). congruence.
Qed.

Lemma loaded_Some p d : ps_loaded p = Some d ↔
  ∃ pid q, readPID p = Some pid ∧ live p !! pid = Some q ∧ ours q = true ∧ running_config q = d.
Proof.
  unfold ps_loaded. destruct (running_pid p) as [pid|] eqn:Hr; cbn.
  - apply running_pid_Some in Hr as (Hp & q & Hq & Ho). rewrite Hq. cbn. split; [intros [= <-]; by eauto 10|].
    intros (pid' & q' & ? & ? & ? & <-). by simplify_eq.
  - split; [done|]. intros (pid & q & Hp & Hq & Ho & _).
    assert (running_pid p = Some pid) as Hr' by (apply running_pid_Some; by eauto). congruence.
Qed.

Lemma IsRunning_loaded_iff p : ps_IsRunning p = bool_decide (is_Some (ps_loaded p)).
Proof.
  unfold ps_IsRunning, ps_loaded. destruct (running_pid p) as [pid|] eqn:Hr; [|done]. cbn.
  apply running_pid_Some in Hr as (_ & q & -> & _). done.
Qed.

Lemma loaded_None p : ps_loaded p = None ↔ ∀ pid q, readPID p = Some pid → live p !! pid = Some q → ours q = false.
Proof.
  rewrite eq_None_not_Some. split.
  - intros Hn pid q Hp Hq. apply not_true_iff_false. intros Ho. apply Hn. eexists. apply loaded_Some. by eauto 10.
  - intros H [d (pid & q & Hp & Hq & Ho & _)%loaded_Some]. specialize (H pid q Hp Hq). congruence.
Qed.

Lemma readPID_steady p : ps_steady p → readPID p = pidfile p.
Proof. unfold readPID. by intros [-> _]. Qed.

(** ** The file accesses *)

Lemma p_fault_frame p : let p' := (p_fault p).2 in
  live p' = live p ∧ pidfile p' = pidfile p ∧ quirks p' = quirks p.
Proof. unfold p_fault. by destruct (p_faults p). Qed.

Lemma remove_frame p : let p' := (remove_pidfile p).2 in
  live p' = live p ∧ (pidfile p' = None ∨ pidfile p' = pidfile p) ∧ quirks p' = quirks p.
Proof.
  unfold remove_pidfile, mbind, ST_bind. pose proof (p_fault_frame p) as (El & Ep & Eq).
  destruct (p_fault p) as [[] p1]; cbn in *; auto.
Qed.

Lemma cleanup_frame pid p : let p' := (cleanupPidIfOurs pid p).2 in
  live p' = live p ∧ (pidfile p' = None ∨ pidfile p' = pidfile p) ∧ quirks p' = quirks p.
Proof.
  unfold cleanupPidIfOurs, mbind, ST_bind. cbn [cleanup_read gets]. case_bool_decide; [apply remove_frame|by auto].
Qed.

Lemma writePID_frame pid p : let '(bad, p') := writePID pid p in
  live p' = live p ∧ quirks p' = quirks p ∧
  if (bad : bool) then pidfile p' = None ∨ pidfile p' = pidfile p else pidfile p' = Some pid.
Proof.
  unfold writePID, mbind, ST_bind. pose proof (p_fault_frame p) as (El & Ep & Eq).
  destruct (p_fault p) as [[] p1]; cbn in *; [by auto|].
  pose proof (p_fault_frame p1) as (El1 & Ep1 & Eq1). destruct (p_fault p1) as [[] p2]; cbn in *;
    (split_and!; [congruence|unfold quirks in *; cbn in *; congruence|auto]).
Qed.

(** One run of [startLocked] over a table [l]. *)
Inductive started (d : config_dir) (p p' : Process) : option string → Prop :=
  | st_failed e : ps_IsRunning p = false → pidfile p' = None ∨ pidfile p' = pidfile p → live p' = live p → started d p p' (Some e)
  | st_pid e : ps_IsRunning p = false → pidfile p' = None ∨ pidfile p' = pidfile p ∨ pidfile p' = Some (alloc_pid (live p)) →
      live p' = delete (alloc_pid (live p)) (live p) → started d p p' (Some e)
  | st_up : ps_IsRunning p = false → pidfile p' = Some (alloc_pid (live p)) →
      live p' = <[alloc_pid (live p) := {| ours := true; running_config := d |}]> (live p) → started d p p' None
  | st_already : ps_IsRunning p = true → p' = p → started d p p' None.

Lemma startLocked_started d p : let p' := (startLocked d p).2 in
  started d p p' (startLocked d p).1.2 ∧ quirks p' = quirks p.
Proof.
  unfold startLocked. unfold mbind, ST_bind. cbn [gets id]. destruct (ps_IsRunning p) eqn:Hr; [by split; [apply st_already|]|].
  pose proof (p_fault_frame p) as (E1 & E2 & Q1). destruct (p_fault p) as [bad p1]. cbn [snd] in *.
  destruct bad; [by split; [apply st_failed; auto|]|]. cbn [modify].
  pose proof (p_fault_frame (set_attached false p1)) as (E3 & E4 & Q2).
  destruct (p_fault (set_attached false p1)) as [bad p2]. cbn [snd] in *.
  assert (live p2 = live p) as El by (by rewrite E3). assert (pidfile p2 = pidfile p) as Ep by (by rewrite E4).
  assert (quirks p2 = quirks p) as Q by (by rewrite Q2). clear E1 E2 E3 E4 Q1 Q2.
  destruct bad; [by split; [apply st_failed; auto|]|]. unfold spawn, mbind, ST_bind. cbn [gets id modify].
  set (p3 := set_tails true _). pose proof (writePID_frame (alloc_pid (live p2)) p3) as Hw.
  destruct (writePID _ p3) as [bad p4]. destruct Hw as (E5 & Q5 & Hw).
  assert (live p4 = <[alloc_pid (live p) := {| ours := true; running_config := d |}]> (live p)) as El4 by (by rewrite E5, <- El).
  assert (quirks p4 = quirks p) as Q4 by (by rewrite Q5). destruct bad.
  - split; [|exact Q4]. apply st_pid; [done|cbn|cbn; by rewrite El4, El, delete_insert_eq].
    change (pidfile p3) with (pidfile p2) in Hw. rewrite Ep in Hw. tauto.
  - rewrite El in Hw. destruct (survives d); [split; [|exact Q4]; apply st_up; [done|done|by cbn]|].
    set (p5 := set_live _ p4). pose proof (cleanup_frame (alloc_pid (live p2)) p5) as (E6 & Hp & Q6).
    destruct (cleanupPidIfOurs _ p5) as [u p6]. cbn [snd] in *. split; [|etransitivity; [exact Q6|exact Q4]].
    apply st_pid; [done| |cbn; by rewrite E6; cbn; rewrite El4, El, delete_insert_eq].
    change (pidfile p5) with (pidfile p4) in Hp. rewrite Hw in Hp. tauto.
Qed.

(** ** The laws *)

Section laws.
Context (sl : gmap string SlotMeta) `{DL : !DaemonLaws sl}.

Lemma started_loaded d p p' e : ps_steady p → quirks p' = quirks p → started d p p' e →
  match e with
  | None => ps_loaded p' = Some (default d (ps_loaded p))
  | Some _ => ps_loaded p = None ∧ ps_loaded p' = None
  end.
Proof.
  intros Hst Hq. assert (ps_steady p') as Hst' by by eapply quirks_steady.
  pose proof (alloc_fresh (live p)) as Hfresh.
  assert (ps_IsRunning p = false → ps_loaded p = None) as Hnone.
  { rewrite IsRunning_loaded_iff, bool_decide_eq_false. by rewrite <- eq_None_not_Some. }
  destruct 1 as [e Hr Ep El|e Hr Ep El|Hr Ep El|Hr ->].
  - split; [by apply Hnone|]. apply Hnone in Hr. rewrite loaded_None, readPID_steady in * by done. rewrite El.
    destruct Ep as [->| ->]; [done|exact Hr].
  - split; [by apply Hnone|]. apply Hnone in Hr. rewrite delete_id in El by done.
    rewrite loaded_None, readPID_steady in * by done. rewrite El. destruct Ep as [->|[->| ->]]; [done|exact Hr|].
    intros pid q [= <-]. congruence.
  - rewrite Hnone by done. cbn. apply loaded_Some. rewrite readPID_steady by done.
    eexists _, _. split; [exact Ep|]. by rewrite El, lookup_insert_eq.
  - rewrite IsRunning_loaded_iff, bool_decide_eq_true in Hr. destruct Hr as [d' Hd]. by rewrite Hd.
Qed.

Lemma start_steady d p : ps_steady p → let '(r, p') := startLocked d p in
  ps_steady p' ∧
  match r.2 with
  | None => ps_loaded p' = Some (default d (ps_loaded p))
  | Some _ => ps_loaded p = None ∧ ps_loaded p' = None
  end.
Proof.
  intros Hst. pose proof (startLocked_started d p) as [H Q]. destruct (startLocked d p) as [[b e] p']. cbn in *.
  split; [by eapply quirks_steady|by eapply started_loaded].
Qed.

Lemma start_loaded d p : ps_steady p → ps_loaded p = None → let '(r, p') := startLocked d p in
  ps_steady p' ∧ match r.2 with None => ps_loaded p' = Some d | Some _ => ps_loaded p' = None end.
Proof.
  intros Hst Hn. pose proof (start_steady d p Hst) as H. destruct (startLocked d p) as [[b e] p'].
  cbn in *. rewrite Hn in H. destruct H as [? H]. split; [done|]. destruct e; [by destruct H|done].
Qed.

End laws.

Lemma stopLocked_frame p : let '(e, p') := stopLocked p in
  e = None ∧ quirks p' = quirks p ∧ (pidfile p' = None ∨ pidfile p' = pidfile p) ∧
  match readPID p with
  | Some pid => live p' = if bool_decide (pid ∈ stuck p) then live p else delete pid (live p)
  | None => p' = p
  end.
Proof.
  unfold stopLocked, mbind, ST_bind. cbn [gets id]. destruct (readPID p) as [pid|] eqn:Hp; [|by cbn; auto].
  set (p1 := (kill_pid pid p).2). assert (pidfile p1 = pidfile p ∧ quirks p1 = quirks p ∧
    live p1 = if bool_decide (pid ∈ stuck p) then live p else delete pid (live p)) as (Ep & Eq & El).
  { subst p1. unfold kill_pid, mbind, ST_bind. cbn [send_signal modify gets id].
    change (stuck (set_signalled _ p)) with (stuck p). case_bool_decide; [|done]. by destruct (isAlive _ _). }
  destruct (kill_pid pid p) as [u p1']. cbn [snd] in p1. subst p1. cbn [modify].
  pose proof (remove_frame (set_attached false p1')) as (El2 & Ep2 & Eq2).
  destruct (remove_pidfile _) as [u2 p2]. cbn [snd mret ST_ret] in *.
  change (pidfile (set_attached false p1')) with (pidfile p1') in Ep2. rewrite Ep in Ep2.
  split_and!; [done|by etransitivity|tauto|etransitivity; [exact El2|exact El]].
Qed.

Section laws2.
Context (sl : gmap string SlotMeta) `{DL : !DaemonLaws sl}.

Lemma stopLocked_spec p : ps_steady p → let '(e, p') := stopLocked p in
  ps_steady p' ∧ e = None ∧ ps_loaded p' = None.
Proof.
  intros Hst. pose proof (stopLocked_frame p) as H. destruct (stopLocked p) as [e p'].
  destruct H as (-> & Q & Hp & Hl). assert (ps_steady p') as Hst' by by eapply quirks_steady. split_and!; [done|done|].
  apply loaded_None. rewrite readPID_steady in * by done. intros pid q Hp' Hq. destruct Hp as [Hp|Hp]; [congruence|].
  rewrite <- Hp, Hp' in Hl. destruct Hst as [_ Hk]. rewrite Hk, bool_decide_eq_false_2 in Hl by set_solver.
  rewrite Hl, lookup_delete_eq in Hq. done.
Qed.

Lemma restartLocked_loaded d p : ps_steady p → let '(e, p') := restartLocked d p in
  ps_steady p' ∧ match e with None => ps_loaded p' = Some d | Some _ => ps_loaded p' = None end.
Proof.
  intros Hst. unfold restartLocked, mbind, ST_bind. pose proof (stopLocked_spec p Hst) as Hs. destruct (stopLocked p) as [e p1].
  destruct Hs as (S1 & _ & Hn). pose proof (start_loaded sl d p1 S1 Hn) as H. by destruct (startLocked d p1) as [[b e'] p2].
Qed.

#[export] Program Instance process_laws : ProcLaws Process sl := { loaded := ps_loaded; steady := ps_steady }.
Next Obligation. apply IsRunning_loaded_iff. Qed.
Next Obligation.
  intros d p Hst. cbn. unfold ps_Start, StartSpawned, mbind, ST_bind.
  pose proof (start_steady sl d p Hst) as H. destruct (startLocked d p) as [[b e] p']. cbn in *.
  destruct H as [? H]. split; [done|]. destruct e; [by intros; destruct H|done].
Qed.
Next Obligation. intros p. apply stopLocked_spec. Qed.
Next Obligation.
  intros d0 d p Hst Hd Htun. cbn [Sighup process_proc]. unfold ps_Reload. unfold mbind at 1, ST_bind at 1. cbn [gets id].
  apply loaded_Some in Hd as (pid & q & Hp & Hq & Ho & <-). rewrite Hp.
  destruct (has_tun sl (running_config q)) eqn:Ht; [by apply restartLocked_loaded|].
  unfold mbind at 1, ST_bind at 1. unfold hup_pid. rewrite Hq, Ho.
  assert (pid ∉ stuck p) as Hk by (destruct Hst as [_ ->]; set_solver). rewrite (bool_decide_eq_false_2 _ Hk). cbn [andb negb].
  rewrite readPID_steady in Hp by done.
  destruct (after_hup (running_config q) d) as [c|] eqn:Hc; cbn [negb].
  - apply hup_takes_over in Hc as ->; [|congruence]. set (p1 := set_live _ _).
    assert (live p1 !! pid = Some {| ours := true; running_config := d |}) as Hl by apply lookup_insert_eq.
    assert (ps_steady p1) as S1 by exact Hst.
    unfold mbind, ST_bind. cbn [gets id]. unfold isAlive, pidMatch. rewrite Hl. cbn [negb orb ours].
    split; [done|]. apply loaded_Some. rewrite readPID_steady by done. by eexists pid, _.
  - set (p1 := set_live _ _). assert (live p1 !! pid = None) as Hl by apply lookup_delete_eq.
    assert (ps_steady p1) as S1 by exact Hst.
    unfold mbind, ST_bind. cbn [gets id]. unfold isAlive, pidMatch. rewrite Hl.
    change (negb (bool_decide (is_Some (@None osproc)))) with true. cbn [orb].
    assert (ps_loaded p1 = None) as Hn.
    { apply loaded_None. rewrite readPID_steady by done. intros pid' q' Hp' Hq'.
      change (pidfile p = Some pid') in Hp'. congruence. }
    pose proof (start_loaded sl d p1 S1 Hn) as H. by destruct (startLocked d p1) as [[b e] p2].
Qed.
End laws2.

(** ** One daemon *)

(** The live daemons of ours are the one of the pid file. *)
Definition one_ours (p : Process) : Prop :=
  ∀ pid q, live p !! pid = Some q → ours q = true → pidfile p = Some pid.

Inductive ps_op :=
  | PStart (d : config_dir)
  | PStop
  | PReload (needs : bool) (d : config_dir)
  | PAttach (respawn : nat → bool)
  | PRestart                   (* the manager is restarted, the daemon lives on *)
  | PFaults (fs : list bool)
  | PUnreadable (b : bool)     (* the pid file turns unreadable, or readable again *)
  | PStuck (pid : nat) (b : bool)
  | PExit (pid : nat)          (* a process ends by itself *)
  | PCleanupRead (pid : nat)   (* the exit monitor of a process that ended reads *)
  | PCleanupRemove             (* ... and removes the file *)
  | PForeign (pid : nat) (c : config_dir). (* a process of another program appears *)

Definition run_ps (op : ps_op) (p : Process) : Process :=
  match op with
  | PStart d => (StartSpawned d p).2
  | PStop => (ps_Stop p).2
  | PReload needs d => (ps_Reload needs d p).2
  | PAttach respawn => (AttachIfRunning respawn p).2
  | PRestart => set_attached false (set_tails false (set_cleanups 0 p))
  | PFaults fs => set_p_faults fs p
  | PUnreadable b => set_unreadable b p
  | PStuck pid b => set_stuck (if b then {[pid]} ∪ stuck p else stuck p ∖ {[pid]}) p
  | PExit pid => set_live (delete pid (live p)) p
  | PCleanupRead pid => if (cleanup_read pid p).1 then set_cleanups (S (cleanups p)) p else p
  | PCleanupRemove => match cleanups p with
      | 0%nat => p
      | S n => (remove_pidfile (set_cleanups n p)).2
      end
  | PForeign pid c => set_live (<[pid := {| ours := false; running_config := c |}]> (live p)) p
  end.

(** The process of the pid file does not outlast a [Stop]. *)
Definition killable (p : Process) : Prop := ∀ pid, readPID p = Some pid → pid ∉ stuck p.

(** What the operations need: a start reads the pid file, the process that is stopped
    obeys, and no daemon was started between the two steps of a clean-up. *)
Definition ps_ok (op : ps_op) (p : Process) : Prop :=
  match op with
  | PStart _ => unreadable p = false
  | PStop | PAttach _ => killable p
  | PReload _ _ => unreadable p = false ∧ killable p
  | PCleanupRead pid | PForeign pid _ => live p !! pid = None
  | PCleanupRemove => ∀ pid q, pidfile p = Some pid → live p !! pid = Some q → ours q = false
  | _ => True
  end.

(** The clean-ups of an earlier run of the manager are over when it starts. *)
Inductive ps_reachable : Process → Prop :=
  | ps_boot p : (∀ pid q, live p !! pid = Some q → ours q = false) → cleanups p = 0%nat → ps_reachable p
  | ps_step p op : ps_reachable p → ps_ok op p → ps_reachable (run_ps op p).

Lemma one_ours_mono p p' : one_ours p → pidfile p' = pidfile p → live p' ⊆ live p → one_ours p'.
Proof. intros H Ep El pid q Hq Ho. rewrite Ep. eapply H; [|done]. by eapply lookup_weaken. Qed.

Lemma one_ours_nobody p : (∀ pid q, live p !! pid = Some q → ours q = false) → one_ours p.
Proof. intros H pid q Hq Ho. specialize (H pid q Hq). congruence. Qed.

Lemma one_ours_unnamed p : one_ours p →
  (∀ pid q, pidfile p = Some pid → live p !! pid = Some q → ours q = false) →
  ∀ pid q, live p !! pid = Some q → ours q = false.
Proof.
  intros H Hn pid q Hq. apply not_true_iff_false. intros Ho. specialize (Hn pid q (H pid q Hq Ho) Hq). congruence.
Qed.

Lemma one_ours_down p : one_ours p → unreadable p = false → ps_IsRunning p = false →
  ∀ pid q, live p !! pid = Some q → ours q = false.
Proof.
  intros H Hu Hr. apply one_ours_unnamed; [done|]. intros pid q Hp Hq. apply not_true_iff_false. intros Ho.
  unfold ps_IsRunning in Hr. apply bool_decide_eq_false in Hr. apply Hr. exists pid. apply running_pid_Some.
  unfold readPID. rewrite Hu. by eauto.
Qed.

Lemma one_ours_start d p : unreadable p = false → one_ours p → one_ours (startLocked d p).2.
Proof.
  intros Hu H. destruct (startLocked_started d p) as [[e Hr Ep El|e Hr Ep El|Hr Ep El|Hr ->] _]; [| | |done];
    pose proof (one_ours_down p H Hu Hr) as Hn.
  - apply one_ours_nobody. by rewrite El.
  - apply one_ours_nobody. rewrite El. intros pid q [_ ?]%lookup_delete_Some. by eapply Hn.
  - intros pid q Hq Ho. rewrite Ep. rewrite El in Hq. apply lookup_insert_Some in Hq as [[-> _]|[_ Hq]]; [done|].
    specialize (Hn _ _ Hq). congruence.
Qed.

Lemma one_ours_stop p : killable p → one_ours p →
  one_ours (stopLocked p).2 ∧ unreadable (stopLocked p).2 = unreadable p.
Proof.
  intros Hk H. pose proof (stopLocked_frame p) as Hs. destruct (stopLocked p) as [e p']. destruct Hs as (_ & Q & Hp & Hl).
  unfold quirks in Q. split; [|by simplify_eq]. cbn [snd]. destruct (readPID p) as [pid|] eqn:Hpf; [|by subst].
  rewrite bool_decide_eq_false_2 in Hl by by apply Hk. apply one_ours_nobody. rewrite Hl.
  intros pid' q [Hne Hq]%lookup_delete_Some. apply not_true_iff_false. intros Ho. specialize (H pid' q Hq Ho).
  unfold readPID in Hpf. destruct (unreadable p); congruence.
Qed.

Lemma one_ours_restart d p : unreadable p = false → killable p → one_ours p → one_ours (restartLocked d p).2.
Proof.
  intros Hu Hk H. unfold restartLocked, mbind, ST_bind. pose proof (one_ours_stop p Hk H) as [H2 Hu2].
  destruct (stopLocked p) as [e p2]. cbn in *. pose proof (one_ours_start d p2 ltac:(congruence) H2) as H3.
  by destruct (startLocked d p2).
Qed.

Lemma hup_frame pid d p : let p' := (hup_pid pid d p).2 in quirks p' = quirks p ∧ pidfile p' = pidfile p ∧
  (one_ours p → one_ours p').
Proof.
  unfold hup_pid. destruct (live p !! pid) as [q|] eqn:Hq; [|done]. destruct (ours q) eqn:Ho; cbn [andb]; [|done].
  destruct (negb _); [|done].
  destruct (after_hup _ _); cbn; (split_and!; [done|done|]); intros H pid' q' Hq' Ho'; cbn in Hq'.
  - apply lookup_insert_Some in Hq' as [[<- _]|[_ Hq']]; [by apply (H pid q)|by apply (H pid' q')].
  - apply lookup_delete_Some in Hq' as [_ Hq']. by apply (H pid' q').
Qed.

Lemma one_ours_reload needs d p : unreadable p = false → killable p → one_ours p → one_ours (ps_Reload needs d p).2.
Proof.
  intros Hu Hk H.
  assert (∀ p, unreadable p = false → one_ours p → one_ours ((r ← startLocked d; mret r.2) p : option string * Process).2) as Hst.
  { intros p1 Hu1 H1. unfold mbind, ST_bind. pose proof (one_ours_start d p1 Hu1 H1) as H2. by destruct (startLocked d p1). }
  unfold ps_Reload. unfold mbind at 1, ST_bind at 1. cbn [gets id].
  destruct (readPID p) as [pid|] eqn:Hp; [|by apply Hst].
  destruct needs; [by apply one_ours_restart|]. unfold mbind at 1, ST_bind at 1.
  pose proof (hup_frame pid d p) as (Q & Ep & Hh). specialize (Hh H).
  destruct (hup_pid pid d p) as [sent p1]. cbn [snd] in *. unfold quirks in Q. injection Q as Eu Es _.
  assert (killable p1) as Hk1 by (intros pid'; unfold readPID; rewrite Eu, Es, Ep; apply Hk).
  destruct sent; cbn [negb]; [|apply one_ours_restart; congruence || done].
  unfold mbind at 1, ST_bind at 1. cbn [gets id]. destruct (_ || _); [apply Hst; congruence || done|done].
Qed.

Lemma one_ours_run op p : one_ours p → ps_ok op p → one_ours (run_ps op p).
Proof.
  intros H Hok. destruct op; cbn [run_ps ps_ok] in *; try done.
  - by apply one_ours_start.
  - by apply one_ours_stop.
  - destruct Hok; by apply one_ours_reload.
  - unfold AttachIfRunning, mbind, ST_bind. cbn [gets id]. destruct (_ || _); [done|].
    destruct (running_pid p); [|done]. destruct (respawn _); [|done].
    pose proof (one_ours_stop p Hok H) as [H2 _]. by destruct (stopLocked p).
  - apply (one_ours_mono p); [done|done|apply delete_subseteq].
  - by destruct (cleanup_read _ _).1.
  - destruct (cleanups p) as [|n]; [done|]. apply one_ours_nobody.
    pose proof (remove_frame (set_cleanups n p)) as (El & _). rewrite El. by apply one_ours_unnamed.
  - intros pid' q Hq Ho. cbn in Hq. apply lookup_insert_Some in Hq as [[_ <-]|[_ Hq]]; [done|]. by apply (H pid' q).
Qed.

(** C7: From a start-up with no daemon of ours, through any sequence of starts, stops,
    reloads, adoptions, manager restarts, crashes, clean-ups by exit monitors and failing
    writes and removals of the pid file, and whatever other processes come and go, at
    most one daemon of ours lives, and it is the one the pid file names; provided that
    no start or reload meets a pid file it cannot read, that the daemon does not outlast
    the signals of a stop, and that no daemon is started between the read and the removal
    of an exit monitor's clean-up ([cleanup_race], [unreadable_pid_two_daemons] and
    [stuck_stop_two_daemons] show what happens otherwise). *)
Theorem one_daemon (p : Process) (pid : nat) (q : osproc) :
  ps_reachable p → live p !! pid = Some q → ours q = true →
  pidfile p = Some pid ∧ (unreadable p = false → running_pid p = Some pid).
Proof.
  intros Hr Hq Ho. assert (one_ours p) as H.
  { clear Hq. induction Hr as [p Hp _|p op _ IH Hok]; [by apply one_ours_nobody|by apply one_ours_run]. }
  assert (pidfile p = Some pid) as Hp by by apply (H pid q). split; [done|]. intros Hu.
  apply running_pid_Some. unfold readPID. rewrite Hu. by eauto.
Qed.
End process.
