(* ===== verification/SbSim.v ===== *)
(** * A concrete sing-box and its orchestrator

    Instances of the classes of the [Sb] files, the witnesses of their theorems, and
    scenarios in which the recorded state or the pid file misleads. *)
From S2P Require Import Prelude GoLib GoText SbJson SbValidate SbValidateProps SbOrch SbReload SbOrchProps SbLayout SbPredict SbReloadProps SbProcess SbProcessProps.

(** ** Instances *)

Definition json_eq_dec : ∀ x y : json, {x = y} + {x ≠ y}.
Proof.
  fix IH 1.
  assert (∀ l l' : list json, {l = l'} + {l ≠ l'}) as IHl.
  { fix IHl 1. intros [|x l] [|y l']; [by left|by right|by right|].
    destruct (IH x y) as [->|]; [|right; congruence]. destruct (IHl l l') as [->|]; [by left|right; congruence]. }
  assert (∀ l l' : list (string * json), {l = l'} + {l ≠ l'}) as IHf.
  { fix IHf 1. intros [|[k x] l] [|[k' y] l']; [by left|by right|by right|].
    destruct (String.string_dec k k') as [->|]; [|right; congruence].
    destruct (IH x y) as [->|]; [|right; congruence]. destruct (IHf l l') as [->|]; [by left|right; congruence]. }
  intros [| b | t | s | l | fs] [| b' | t' | s' | l' | fs']; try (by right); [by left|..].
  - destruct (Bool.bool_dec b b') as [->|]; [by left|right; congruence].
  - destruct (String.string_dec t t') as [->|]; [by left|right; congruence].
  - destruct (String.string_dec s s') as [->|]; [by left|right; congruence].
  - destruct (IHl l l') as [->|]; [by left|right; congruence].
  - destruct (IHf fs fs') as [->|]; [by left|right; congruence].
Defined.
#[export] Instance json_eq : EqDecision json := json_eq_dec.
#[export] Instance content_eq : EqDecision content.
Proof. solve_decision. Defined.

#[export] Instance sim_digest : Digest := {| digest := option (list (string * content)); no_digest := None |}.
#[export] Instance sim_digest_eq : EqDecision digest := option_eq_dec (A := list (string * content)).
#[export] Instance sim_env : Env := {
  validator := None; has_content := λ _, false; shouldRun := Some true; sha256 := Some }.

(** The next pid is one more than all; a daemon dies of a SIGHUP. *)
Definition max_pid (l : gmap nat osproc) : nat := map_fold (λ pid _ n, max pid n) 0%nat l.
#[export] Instance sim_daemon : Daemon := {
  alloc_pid := λ l, S (max_pid l); survives := λ _, true; after_hup := λ _ _, None }.

Lemma max_pid_spec l pid q : l !! pid = Some q → (pid ≤ max_pid l)%nat.
Proof.
  unfold max_pid. revert pid q. induction l as [|i x l Hi IH] using map_ind; [done|].
  intros pid q. rewrite map_fold_insert_L by (done || (intros; lia)).
  intros [[<- <-]|[_ H%IH]]%lookup_insert_Some; lia.
Qed.

#[export] Program Instance sim_daemon_laws sl : DaemonLaws sl.
Next Obligation.
  intros sl l. destruct (l !! alloc_pid l) as [q|] eqn:H; [|done]. apply max_pid_spec in H. cbn in H. lia.
Qed.
Next Obligation. done. Qed.

Lemma sim_digest_ok : digest_ok.
Proof. split; [by intros l l' [= ->]|done]. Qed.

(** ** A small catalog *)

Definition arch : GoArch := arch64.
#[export] Existing Instance arch.

Definition base_meta : SlotMeta := slot_meta SlotBase "00-base.json" true.
Definition router_meta : SlotMeta := slot_meta SlotRouter "20-router.json" false.

Definition blank : Orchestrator := {|
  active := ∅; disabled := ∅; drafts := ∅; faults := []; slots := ∅; enabled := ∅; reloadTimer := false;
  reloading := false; prevHasTun := false; lastReloadValidation := None; applied := None |}.

Definition catalog_o : Orchestrator := (Register router_meta (Register base_meta blank).2).2.
Definition boot_order : list (string * SlotMeta) := map_to_list (slots catalog_o).
Definition booted_o : Orchestrator := (Bootstrap boot_order catalog_o).2.

Definition tagged (tags : list string) : content :=
  Doc "" (JObject [("outbounds", JArray ((λ t, JObject [("tag", JString t)]) <$> tags))]).
Definition routed (final : string) : content :=
  Doc "" (JObject [("outbounds", JArray [JObject [("tag", JString "vpn")]]);
                   ("route", JObject [("final", JString final)])]).

(** The router slot holds a configuration and is on. *)
Definition router_on : Orchestrator :=
  (SetEnabled SlotRouter true (SaveSilent SlotRouter (routed "vpn") booted_o).2).2.

Definition enabled_order : list (string * bool) := [(SlotBase, true); (SlotRouter, true)].

Definition no_process : Process :=
  {| pidfile := None; unreadable := false; stuck := ∅; cleanups := 0; live := ∅; p_faults := []; attached := false; tails := false; signalled := [] |}.

Lemma catalog_registered : registered catalog_o.
Proof.
  assert (∀ s m, slots catalog_o !! s = Some m → (s = SlotRouter ∧ m = router_meta) ∨ (s = SlotBase ∧ m = base_meta)) as H.
  { intros s m. change (slots catalog_o) with (<[SlotRouter := router_meta]> (<[SlotBase := base_meta]> (∅ : gmap string SlotMeta))).
    intros [[<- <-]|[_ [[<- <-]|[_ []%lookup_empty_Some]]%lookup_insert_Some]]%lookup_insert_Some; auto. }
  split.
  - intros s s' m m' [[-> ->]|[-> ->]]%H [[-> ->]|[-> ->]]%H; done.
  - intros s m [[-> ->]|[-> ->]]%H; done.
Qed.

Lemma router_on_reachable : sb_reachable ∅ router_on.
Proof.
  cut (sb_reachable (∅ ∪ (∅ ∪ ∅)) router_on); [by rewrite !(left_id_L ∅ (∪))|].
  apply (sb_step _ _ (OpSetEnabled SlotRouter true)), (sb_step _ _ (OpSaveSilent SlotRouter (routed "vpn"))).
  apply sb_start; [exact catalog_registered|done|apply map_range_self|by vm_compute].
Qed.

Lemma router_on_laid_out : laid_out router_on.
Proof.
  apply setEnabledLocked_laid_out, keeps_saveLocked, Bootstrap_laid_out;
    [done|apply catalog_registered|apply catalog_registered|apply map_range_self|by vm_compute].
Qed.

(** ** Witnesses *)

Definition two_slots : list (string * (string + option content)) :=
  [(SlotTunnels, inr (Some (tagged ["a"; "b"]))); (SlotRouter, inr (Some (routed "a")))].

Lemma validate_accepts_consistent_witness :
  NoDup two_slots.*1 ∧ Ok (validate_read two_slots) = true ∧ consistent (configs two_slots).
Proof.
  assert (NoDup two_slots.*1) as Hn by (apply (bool_decide_unpack _); by vm_compute).
  split; [exact Hn|]. assert (Ok (validate_read two_slots) = true) as Hok by by vm_compute.
  split; [exact Hok|]. exact (proj2 (proj1 (validate_accepts_consistent two_slots Hn) Hok)).
Defined.

(** The router is turned off and a draft of it applied. *)
Definition stray_ops : list sb_op :=
  [OpSetEnabled SlotRouter false; OpSaveDraft SlotRouter (routed "direct"); OpApplyDraft [] SlotRouter].
Definition stray_o : Orchestrator := foldl (λ o op, run_sb op o) router_on stray_ops.

Lemma config_d_follows_enabled_witness :
  is_enabled router_on SlotRouter = true ∧
  (is_Some (active router_on !! "20-router.json") ∧ is_enabled router_on SlotRouter = true) ∧
  (is_Some (active stray_o !! "20-router.json") ∧ is_enabled stray_o SlotRouter = false ∧
   (is_enabled stray_o SlotBase = true)).
Proof.
  assert (is_Some (active router_on !! "20-router.json")) as Hon by (vm_compute; by eexists).
  split; [by vm_compute|]. split.
  - split; [exact Hon|].
    destruct (proj1 (config_d_follows_enabled ∅ router_on SlotRouter router_meta router_on_reachable eq_refl) Hon) as [H|H];
      [exact H|exfalso; exact (not_elem_of_empty _ H)].
  - split; [vm_compute; by eexists|]. split; [by vm_compute|].
    refine (proj2 (proj2 (config_d_follows_enabled _ stray_o SlotBase base_meta _ _)) eq_refl).
    + unfold stray_o, stray_ops. cbn [foldl]. do 3 apply sb_step. exact router_on_reachable.
    + by vm_compute.
Defined.

(** A draft of the router slot that renames its tag. *)
Definition drafted (o : Orchestrator) : Orchestrator := (SaveDraft SlotRouter (routed "direct") o).2.

Definition accepted (r : string + ValidationResult) : bool := match r with inr res => Ok res | inl _ => false end.

Lemma drafted_names : names_distinct (drafted router_on).
Proof. exact (lo_names _ (proj1 (keeps_SaveDraft SlotRouter (routed "direct") router_on router_on_laid_out))). Qed.

Lemma applied_draft_reloads_witness :
  let '(r, o') := ApplyDraft enabled_order SlotRouter (drafted router_on) in
  (∃ res, r = inr res ∧ Ok res = true) ∧ ∃ p, (reload_check enabled_order o').1 = inr p.
Proof.
  assert (accepted (ApplyDraft enabled_order SlotRouter (drafted router_on)).1 = true) as Hacc by (vm_compute; reflexivity).
  destruct (ApplyDraft enabled_order SlotRouter (drafted router_on)) as [[e|res] o'] eqn:Ha; [discriminate Hacc|].
  assert (Ok res = true) as Hok by exact Hacc. split; [exists res; split; [reflexivity|exact Hok]|].
  destruct (applied_draft_reloads enabled_order enabled_order SlotRouter (drafted router_on) o' res) as (p & Hp & _);
    [vm_compute; reflexivity|exact drafted_names|vm_compute; reflexivity|apply (bool_decide_unpack _); by vm_compute
    |vm_compute; reflexivity|exact Ha|exact Hok|].
  exists p. exact Hp.
Defined.

Lemma apply_draft_of_disabled_slot_witness :
  let '(r, o') := ApplyDraft [] SlotRouter (drafted booted_o) in
  (∃ res, r = inr res ∧ Ok res = true) ∧ is_enabled o' SlotRouter = false.
Proof.
  assert (accepted (ApplyDraft [] SlotRouter (drafted booted_o)).1 = true) as Hacc by (vm_compute; reflexivity).
  destruct (ApplyDraft [] SlotRouter (drafted booted_o)) as [[e|res] o'] eqn:Ha; [discriminate Hacc|].
  assert (Ok res = true) as Hok by exact Hacc. split; [exists res; split; [reflexivity|exact Hok]|].
  destruct (apply_draft_of_disabled_slot [] SlotRouter (drafted booted_o) o' res) as (m & draft & _ & _ & _ & He);
    [vm_compute; reflexivity|exact Ha|exact Hok|exact He].
Defined.

(** The first reload starts the daemon. *)
Lemma reload_converges_witness :
  let '(e, (o', p')) := Reload enabled_order (router_on, no_process) in
  e = None ∧ in_step (slots router_on) o' p'.
Proof.
  pose proof (reload_converges (slots router_on) enabled_order router_on no_process sim_digest_ok) as H.
  assert (described (slots router_on) router_on no_process) as Hd
    by (apply described_down; [reflexivity|exact router_on_laid_out|split; reflexivity|reflexivity]).
  specialize (H ltac:(vm_compute; reflexivity) ltac:(vm_compute; reflexivity) Hd).
  assert (should_be_up enabled_order router_on no_process = true) as Hup by (vm_compute; reflexivity).
  assert ((Reload enabled_order (router_on, no_process)).1 = None) as He by (vm_compute; reflexivity).
  destruct (Reload enabled_order (router_on, no_process)) as [e [o' p']]. cbn [fst] in He. subst e.
  split; [reflexivity|]. rewrite Hup in H. exact (proj2 H).
Defined.

Definition run_pss (ops : list ps_op) (p : Process) : Process := foldl (λ p op, run_ps op p) p ops.

(** The daemon crashes, its exit monitor cleans up, and a reload starts it again. *)
Definition restarted_process : Process :=
  run_pss [PStart (active router_on); PExit 1; PCleanupRead 1; PCleanupRemove; PReload false (active router_on)] no_process.

Lemma one_daemon_witness :
  is_Some (live restarted_process !! 1%nat) ∧ running_pid restarted_process = Some 1%nat.
Proof.
  split; [vm_compute; by eexists|].
  refine (proj2 (one_daemon restarted_process 1 {| ours := true; running_config := active router_on |} _ _ eq_refl) _).
  - unfold restarted_process, run_pss. cbn [foldl].
    repeat (apply ps_step; [|first [exact I|reflexivity|done|split; [reflexivity|done]]]). apply ps_boot; [by intros|done].
  - vm_compute. reflexivity.
  - vm_compute. reflexivity.
Defined.

(** ** Two daemons *)

Definition daemons (p : Process) : nat := size (filter (λ '(_, q), ours q = true) (live p)).

(** The exit monitor of a daemon that crashed reads its pid, a start that is not kept
    out by the lock names its own daemon in the file, and the monitor removes that file
    ([process.go], [cleanupPidIfOurs]): the next start adds a second daemon. *)
Theorem cleanup_race : let d := active router_on in
  daemons (run_pss [PStart d; PExit 1; PCleanupRead 1; PStart d; PCleanupRemove; PStart d] no_process) = 2%nat.
Proof. vm_compute. reflexivity. Qed.

(** [IsRunning] takes a pid file it cannot read for no process. *)
Theorem unreadable_pid_two_daemons : let d := active router_on in
  daemons (run_pss [PStart d; PUnreadable true; PStart d] no_process) = 2%nat.
Proof. vm_compute. reflexivity. Qed.

(** [Stop] removes the pid file of a daemon it gave up waiting for. *)
Theorem stuck_stop_two_daemons : let d := active router_on in
  daemons (run_pss [PStart d; PStuck 1 true; PStop; PStart d] no_process) = 2%nat.
Proof. vm_compute. reflexivity. Qed.

(** ** A start the record does not know of *)

Abbreviation W := (ST (Orchestrator * Process)).

Definition watchdog_start : W (option string) := λ s, let '(e, p) := ps_Start (active s.1) s.2 in (e, (s.1, p)).
Definition process_faults (fs : list bool) : W unit := λ s, (tt, (s.1, set_p_faults fs s.2)).
Definition save_router (final : string) : W (option string) := on_orch (Save SlotRouter (routed final)).

(** The router's configuration is applied; an edit fails to start; the watchdog starts
    the daemon with it; the edit is undone and reloaded. *)
Definition undone_edit : W (list (option reload_error)) :=
  r1 ← ReloadNow enabled_order;
  _ ← save_router "direct";
  _ ← process_faults [false; true];
  r2 ← timer_fires enabled_order;
  _ ← watchdog_start;
  _ ← save_router "vpn";
  r3 ← timer_fires enabled_order;
  mret [r1; r2; r3].

(** The skip gate adopts a daemon that runs another configuration: after a reload that
    failed to start the daemon and a watchdog start that succeeded, undoing the edit
    makes [Reload] report success and do nothing, with the edit still running. *)
Theorem stale_adoption :
  let '(r, (o, p)) := undone_edit (router_on, no_process) in
  r = [None; Some (ProcError "start sing-box"); None] ∧
  active o !! "20-router.json" = Some (routed "vpn") ∧
  (ps_loaded p ≫= lookup "20-router.json") = Some (routed "direct").
Proof. vm_compute. by repeat split. Qed.

(** ** A stale pid file *)

(** The pid file, kept on flash, names a process of another program. *)
Definition recycled : Process :=
  {| pidfile := Some 7%nat; unreadable := false; stuck := ∅; cleanups := 0;
     live := {[7%nat := {| ours := false; running_config := ∅ |}]}; p_faults := []; attached := false; tails := false; signalled := [] |}.

(** [Stop] does not verify the process: called on a pid file that names a process of
    another program, which [IsRunning] rejects, it kills that process. *)
Theorem blind_stop_kills_stranger :
  ps_IsRunning recycled = false ∧
  let '(e, p) := ps_Stop recycled in e = None ∧ live p !! 7%nat = None ∧ signalled p = [7%nat].
Proof. vm_compute. by repeat split. Qed.

(** The third outbound of the merged file is the second of the router's. *)
Definition check_message : string := "create service: initialize outbound[2]: missing server".
Definition check_snapshot : gmap string content :=
  <["20-router.json" := tagged ["b"; "c"]]> {["00-base.json" := tagged ["a"]]}.

Lemma merged_index_attributed_witness :
  attributeOutboundIndex [(SlotRouter, router_meta); (SlotBase, base_meta)] check_message check_snapshot =
  Some (SlotRouter, 1%nat).
Proof.
  rewrite (merged_index_attributed [(SlotRouter, router_meta); (SlotBase, base_meta)] check_message check_snapshot 2);
    vm_compute; reflexivity.
Defined.
