(* ===== verification/SbRouter.v ===== *)
(** * The sing-box router configuration ([internal/singbox/router])

    [types.go], [config.go], parts of [service_rules.go] and [ruleset_materializer.go]:
    the document [20-router.json] and the operations of the editor on its rules, rule
    sets and outbounds.  An operation answers the new configuration or an error, and
    leaves the configuration alone when it fails.  The text of an error is the
    sentinel it wraps or a short name. *)
From S2P Require Import Prelude GoLib GoText SbJson.

(** ** Library functions *)

(** [strings.EqualFold(s, "direct")]: no rune outside ASCII folds to one of its letters. *)
Definition is_direct (s : string) : bool := String.eqb (lower_ascii s) "direct".

(** [netip.ParseAddr]: whether the address is IPv4, and whether it has a zone. *)
Definition ParseAddr (s : string) : option (bool * bool) :=
  match first_special s with
  | Some "."%char => _ ← parseIPv4 s; Some (true, false)
  | Some ":"%char =>
      match index_byte "%" s with
      | Some i =>
          if String.eqb (str_drop (S i) s) "" then None
          else _ ← parseIPv6 (str_take i s); Some (false, true)
      | None => _ ← parseIPv6 s; Some (false, false)
      end
  | _ => None
  end.

(** [netip.ParsePrefix]: whether its address is IPv4. *)
Definition ParsePrefix (s : string) : option bool :=
  i ← last_index_byte "/" s;
  '(is4, zone) ← ParseAddr (str_take i s);
  let bits := str_drop (S i) s in
  if (zone : bool) then None
  else if (1 <? String.length bits)%nat && negb (match bits with String c _ => is_digit c && negb (Ascii.eqb c "0") | "" => false end)
  then None
  else
    n ← match bits with String c _ => if is_digit c then parse_digits bits else None | "" => None end;
    if (n <=? if (is4 : bool) then 32 else 128)%Z then Some is4 else None.

(** [regexp.Compile] succeeds; the scheme and host of [url.Parse]. *)
Class GoParsers := { regexp_ok : string → bool; url_parts : string → option (string * string) }.

(** ** Data *)

Inductive Rule := mkRule {
  r_Type : string;
  r_Mode : string;
  r_Rules : list Rule;
  DomainSuffix : list string;
  r_Domain : list string;
  IPCIDR : list string;
  SourceIPCIDR : list string;
  r_Port : list Z;
  r_RuleSet : list string;
  Protocol : string;
  r_Inbound : list string;
  IPIsPrivate : option bool;
  r_Network : string;
  r_Action : string;
  r_Outbound : string;
  r_UDPTimeout : string;
  AwgmManaged : string;
}.

Definition eta_rule (r : Rule) : Rule := {|
  r_Type := r_Type r; r_Mode := r_Mode r; r_Rules := r_Rules r; DomainSuffix := DomainSuffix r; r_Domain := r_Domain r;
  IPCIDR := IPCIDR r; SourceIPCIDR := SourceIPCIDR r; r_Port := r_Port r; r_RuleSet := r_RuleSet r;
  Protocol := Protocol r; r_Inbound := r_Inbound r; IPIsPrivate := IPIsPrivate r; r_Network := r_Network r;
  r_Action := r_Action r; r_Outbound := r_Outbound r; r_UDPTimeout := r_UDPTimeout r; AwgmManaged := AwgmManaged r |}.
Definition set_r_Rules v (r : Rule) : Rule := ltac:(update_field eta_rule r_Rules v r).
Definition set_r_RuleSet v (r : Rule) : Rule := ltac:(update_field eta_rule r_RuleSet v r).
Definition set_r_Outbound v (r : Rule) : Rule := ltac:(update_field eta_rule r_Outbound v r).

(** [Rule{}] *)
Definition zero_rule : Rule := {|
  r_Type := ""; r_Mode := ""; r_Rules := []; DomainSuffix := []; r_Domain := []; IPCIDR := []; SourceIPCIDR := [];
  r_Port := []; r_RuleSet := []; Protocol := ""; r_Inbound := []; IPIsPrivate := None; r_Network := "";
  r_Action := ""; r_Outbound := ""; r_UDPTimeout := ""; AwgmManaged := "" |}.

Record RuleSet := {
  rs_Tag : string;
  rs_Type : string;
  rs_Format : string;
  rs_URL : string;
  rs_UpdateInterval : string;
  rs_DownloadDetour : string;
  rs_Path : string;
  rs_Rules : list (list (string * json));
}.
Definition set_rs_DownloadDetour v (s : RuleSet) : RuleSet := {|
  rs_Tag := rs_Tag s; rs_Type := rs_Type s; rs_Format := rs_Format s; rs_URL := rs_URL s;
  rs_UpdateInterval := rs_UpdateInterval s; rs_DownloadDetour := v; rs_Path := rs_Path s; rs_Rules := rs_Rules s |}.
Definition set_rs_Tag v (s : RuleSet) : RuleSet := {|
  rs_Tag := v; rs_Type := rs_Type s; rs_Format := rs_Format s; rs_URL := rs_URL s;
  rs_UpdateInterval := rs_UpdateInterval s; rs_DownloadDetour := rs_DownloadDetour s; rs_Path := rs_Path s;
  rs_Rules := rs_Rules s |}.

Record DomainResolver := { dr_Server : string; dr_Strategy : string }.

Record Outbound := {
  o_Type : string;
  o_Tag : string;
  BindInterface : string;
  o_Outbounds : list string;
  o_URL : string;
  o_Interval : string;
  o_Tolerance : Z;
  o_Default : string;
  o_Strategy : string;
  o_Server : string;
  o_DomainResolver : option DomainResolver;
}.
Definition eta_outbound (o : Outbound) : Outbound := {|
  o_Type := o_Type o; o_Tag := o_Tag o; BindInterface := BindInterface o; o_Outbounds := o_Outbounds o; o_URL := o_URL o;
  o_Interval := o_Interval o; o_Tolerance := o_Tolerance o; o_Default := o_Default o; o_Strategy := o_Strategy o;
  o_Server := o_Server o; o_DomainResolver := o_DomainResolver o |}.
Definition set_o_Outbounds v (o : Outbound) : Outbound := ltac:(update_field eta_outbound o_Outbounds v o).
Definition set_o_Default v (o : Outbound) : Outbound := ltac:(update_field eta_outbound o_Default v o).

Record DNSClientTLSOptions := { tls_MinVersion : string; tls_MaxVersion : string; tls_rest : list (string * json) }.

Record DNSServer := {
  s_Tag : string;
  s_Type : string;
  s_Server : string;
  ServerPort : Z;
  s_Path : string;
  s_Detour : string;
  s_Strategy : string;
  s_DomainResolver : option DomainResolver;
  s_TLS : option DNSClientTLSOptions;
  Inet4Range : string;
  Inet6Range : string;
}.
Definition eta_server (s : DNSServer) : DNSServer := {|
  s_Tag := s_Tag s; s_Type := s_Type s; s_Server := s_Server s; ServerPort := ServerPort s; s_Path := s_Path s;
  s_Detour := s_Detour s; s_Strategy := s_Strategy s; s_DomainResolver := s_DomainResolver s; s_TLS := s_TLS s;
  Inet4Range := Inet4Range s; Inet6Range := Inet6Range s |}.
Definition set_s_Detour v (s : DNSServer) : DNSServer := ltac:(update_field eta_server s_Detour v s).
Definition set_s_DomainResolver v (s : DNSServer) : DNSServer := ltac:(update_field eta_server s_DomainResolver v s).

Record DNSMatchResponse := { mr_Enabled : bool; mr_Tag : string }.

Record DNSRule := {
  d_RuleSet : list string;
  d_SourceIPCIDR : list string;
  d_DomainSuffix : list string;
  d_Domain : list string;
  DomainKeyword : list string;
  DomainRegex : list string;
  QueryType : list string;
  d_Server : string;
  d_Action : string;
  Rcode : string;
  RejectMethod : string;
  d_Tag : string;
  MatchResponse : option DNSMatchResponse;
  d_IPCIDR : list string;
  ResponseRcode : string;
  ResponseAnswer : list string;
  ResponseNS : list string;
  ResponseExtra : list string;
  Race : bool;
  Speculative : bool;
}.
Definition eta_dns_rule (r : DNSRule) : DNSRule := {|
  d_RuleSet := d_RuleSet r; d_SourceIPCIDR := d_SourceIPCIDR r; d_DomainSuffix := d_DomainSuffix r; d_Domain := d_Domain r;
  DomainKeyword := DomainKeyword r; DomainRegex := DomainRegex r; QueryType := QueryType r; d_Server := d_Server r;
  d_Action := d_Action r; Rcode := Rcode r; RejectMethod := RejectMethod r; d_Tag := d_Tag r;
  MatchResponse := MatchResponse r; d_IPCIDR := d_IPCIDR r; ResponseRcode := ResponseRcode r;
  ResponseAnswer := ResponseAnswer r; ResponseNS := ResponseNS r; ResponseExtra := ResponseExtra r; Race := Race r;
  Speculative := Speculative r |}.
Definition set_d_RuleSet v (r : DNSRule) : DNSRule := ltac:(update_field eta_dns_rule d_RuleSet v r).
Definition set_d_Server v (r : DNSRule) : DNSRule := ltac:(update_field eta_dns_rule d_Server v r).

(** [RouterConfig], its [Route] and [DNS] laid out flat; the inbounds and the
    experimental section are not touched by the operations of this file. *)
Record RouterConfig := {
  Outbounds : list Outbound;
  Servers : list DNSServer;
  DNSRules : list DNSRule;
  DNSFinal : string;
  DNSStrategy : string;
  RuleSets : list RuleSet;
  Rules : list Rule;
  Final : string;
  AutoDetectInterface : option bool;
  DefaultInterface : string;
  DefaultDomainResolver : option DomainResolver;
}.
Definition eta_config (c : RouterConfig) : RouterConfig := {|
  Outbounds := Outbounds c; Servers := Servers c; DNSRules := DNSRules c; DNSFinal := DNSFinal c;
  DNSStrategy := DNSStrategy c; RuleSets := RuleSets c; Rules := Rules c; Final := Final c;
  AutoDetectInterface := AutoDetectInterface c; DefaultInterface := DefaultInterface c;
  DefaultDomainResolver := DefaultDomainResolver c |}.
Definition set_Outbounds v (c : RouterConfig) : RouterConfig := ltac:(update_field eta_config Outbounds v c).
Definition set_Servers v (c : RouterConfig) : RouterConfig := ltac:(update_field eta_config Servers v c).
Definition set_DNSRules v (c : RouterConfig) : RouterConfig := ltac:(update_field eta_config DNSRules v c).
Definition set_DNSFinal v (c : RouterConfig) : RouterConfig := ltac:(update_field eta_config DNSFinal v c).
Definition set_DNSStrategy v (c : RouterConfig) : RouterConfig := ltac:(update_field eta_config DNSStrategy v c).
Definition set_RuleSets v (c : RouterConfig) : RouterConfig := ltac:(update_field eta_config RuleSets v c).
Definition set_Rules v (c : RouterConfig) : RouterConfig := ltac:(update_field eta_config Rules v c).
Definition set_Final v (c : RouterConfig) : RouterConfig := ltac:(update_field eta_config Final v c).
Definition set_AutoDetectInterface v (c : RouterConfig) : RouterConfig :=
  ltac:(update_field eta_config AutoDetectInterface v c).
Definition set_DefaultInterface v (c : RouterConfig) : RouterConfig := ltac:(update_field eta_config DefaultInterface v c).

(** A Go [error] or the configuration after the operation. *)
Abbreviation result := (string + RouterConfig)%type.

Definition ErrRuleSetReferenced : string := "rule set is referenced by one or more rules".
Definition ErrOutboundReferenced : string := "outbound is referenced by one or more rules".
Definition ErrInvalidMatchers : string := "rule must have at least one matcher".
Definition ErrRuleIndexOutOfRange : string := "rule index out of range".
Definition ErrBulkEmptyIndices : string := "empty indices".
Definition ErrBulkEmptyTags : string := "empty tags".
Definition ErrBulkInvalidSelection : string := "invalid bulk selection".
Definition ErrRuleSetTagConflict : string := "rule set with this tag already exists".
Definition ErrRuleSetNotFound : string := "rule set not found".
Definition ErrOutboundTagConflict : string := "outbound with this tag already exists".
Definition ErrOutboundNotFound : string := "outbound not found".
Definition ErrReservedInboundTag : string := "теги qos-* зарезервированы для QoS-классов".

(** ** Matchers and system rules *)

Definition hasAnyMatcher (r : Rule) : bool :=
  negb (bool_decide (DomainSuffix r = [])) || negb (bool_decide (IPCIDR r = [])) ||
  negb (bool_decide (SourceIPCIDR r = [])) || negb (bool_decide (r_Port r = [])) ||
  negb (bool_decide (r_RuleSet r = [])) || negb (String.eqb (Protocol r) "") ||
  match r_Rules r with [] => false | _ => true end ||
  bool_decide (is_Some (IPIsPrivate r)) || negb (bool_decide (r_Inbound r = [])) || negb (String.eqb (r_Network r) "").

Definition ActionIsRoute (r : Rule) : bool := String.eqb (r_Action r) "" || String.eqb (r_Action r) "route".
Definition isSystemUDPTimeoutRule (r : Rule) : bool :=
  String.eqb (r_Action r) "route-options" && String.eqb (r_Network r) "udp".
Definition isSystemSniffRule (r : Rule) : bool := String.eqb (r_Action r) "sniff" && negb (hasAnyMatcher r).
Definition isSystemHijackRule (r : Rule) : bool :=
  String.eqb (r_Action r) "hijack-dns" &&
  (String.eqb (Protocol r) "dns" || (String.eqb (r_Type r) "logical" && String.eqb (r_Mode r) "or")).
Definition isSystemPrivateRule (r : Rule) : bool := default false (IPIsPrivate r).
Definition isSystemRule (r : Rule) : bool :=
  isSystemSniffRule r || isSystemHijackRule r || isSystemUDPTimeoutRule r || isSystemPrivateRule r.

(** [r.Action != "sniff" && r.Action != "hijack-dns"] *)
Definition needs_matcher (r : Rule) : bool :=
  negb (String.eqb (r_Action r) "sniff") && negb (String.eqb (r_Action r) "hijack-dns").

(** ** Validation of rules and rule sets *)

Definition qosTProxyTagPrefix : string := "tproxy-qos-".
Definition qosRedirectTagPrefix : string := "redirect-qos-".
Definition isQoSInboundTag (tag : string) : bool :=
  HasPrefix tag qosTProxyTagPrefix || HasPrefix tag qosRedirectTagPrefix.

Definition validateCIDROrAddr (v : string) : option string :=
  match ParsePrefix v with
  | Some _ => None
  | None => match ParseAddr v with Some _ => None | None => Some "invalid address" end
  end.

(** The first error of a list. *)
Fixpoint first_err {A} (f : A → option string) (l : list A) : option string :=
  match l with
  | [] => None
  | x :: l => match f x with Some e => Some e | None => first_err f l end
  end.

(** [if err := e; err != nil { return err }] *)
Definition or_else (e : option string) (k : option string) : option string :=
  match e with Some e => Some e | None => k end.

Definition inlineSRSSuffix : string := "-srs".
Definition inlineSRSTag (tag : string) : string := tag +:+ inlineSRSSuffix.
Definition inlineTagFromSRSTag (tag : string) : option string :=
  if negb (HasSuffix tag inlineSRSSuffix) then None
  else let base := TrimSuffix tag inlineSRSSuffix in if String.eqb base "" then None else Some base.
Definition ruleSetTagsWithCompanion (tag : string) : list string :=
  match inlineTagFromSRSTag tag with Some _ => [tag] | None => [tag; inlineSRSTag tag] end.

Definition known_inline_fields : list string :=
  ["domain"; "domain_suffix"; "domain_keyword"; "domain_regex"; "ip_cidr"; "source_ip_cidr"; "port"; "source_port";
   "process_name"; "process_path"; "package_name"; "protocol"; "network"; "rule_set"].

Section validation.
Context `{U : GoUnicode} `{GP : GoParsers}.

Definition inbound_err (tag : string) : option string :=
  if String.eqb (TrimSpace tag) "" then Some "inbound tag must be a non-empty string"
  else if isQoSInboundTag (TrimSpace tag) then Some ErrReservedInboundTag
  else None.

Fixpoint validateRule (r : Rule) : option string :=
  or_else (first_err validateCIDROrAddr (IPCIDR r))
  (or_else (first_err validateCIDROrAddr (SourceIPCIDR r))
  (or_else (first_err (λ p, if (p <? 1)%Z || (65535 <? p)%Z then Some "port out of range" else None) (r_Port r))
  (or_else (first_err inbound_err (r_Inbound r))
           ((fix go l := match l with
             | [] => None
             | r :: l => match validateRule r with Some e => Some e | None => go l end
             end) (r_Rules r))))).

Definition inlineRuleValueNonEmpty (v : json) : bool :=
  match v with
  | JNull => false
  | JString s => negb (String.eqb (TrimSpace s) "")
  | JArray [] | JObject [] => false
  | _ => true
  end.

Definition inlineRuleHasKnownField (rule : list (string * json)) : bool :=
  existsb (λ k, match obj_get k rule with Some v => inlineRuleValueNonEmpty v | None => false end) known_inline_fields.

Definition validateRuleSet (rs : RuleSet) : option string :=
  if String.eqb (rs_Tag rs) "" then Some "rule_set tag is required"
  else if HasSuffix (rs_Tag rs) inlineSRSSuffix then Some "tag suffix is reserved"
  else if String.eqb (rs_Type rs) "inline" then
    match rs_Rules rs with
    | [] => Some "rules required for type=inline"
    | rules =>
        first_err (λ rule, match rule with
          | [] => Some "inline rule is empty"
          | _ => if inlineRuleHasKnownField rule then None else Some "inline rule has no known fields"
          end) rules
    end
  else if String.eqb (rs_Type rs) "remote" then
    if String.eqb (rs_URL rs) "" then Some "url required for type=remote"
    else match url_parts (rs_URL rs) with
    | None => Some "invalid url"
    | Some (scheme, host) =>
        if String.eqb host "" then Some "invalid url"
        else if negb (String.eqb scheme "http") && negb (String.eqb scheme "https") then Some "url scheme"
        else None
    end
  else if String.eqb (rs_Type rs) "local" then
    if String.eqb (rs_Path rs) "" then Some "path required for type=local"
    else if negb (HasPrefix (rs_Path rs) "/") then Some "path must be absolute"
    else None
  else Some "unknown type".

(** ** Rule sets *)

Definition rewriteTagSlice (tags : list string) (from to : string) : list string :=
  if String.eqb from "" || String.eqb to "" || String.eqb from to then tags
  else (λ tag, if String.eqb tag from then to else tag) <$> tags.

Fixpoint renameRuleSetRefsInRule (oldTag newTag : string) (r : Rule) : Rule :=
  set_r_Rules ((fix go l := match l with [] => [] | r :: l => renameRuleSetRefsInRule oldTag newTag r :: go l end) (r_Rules r))
    (set_r_RuleSet (rewriteTagSlice (r_RuleSet r) oldTag newTag) r).

Definition renameRuleSetReferences (oldTag newTag : string) (c : RouterConfig) : RouterConfig :=
  set_DNSRules ((λ r, set_d_RuleSet (rewriteTagSlice (d_RuleSet r) oldTag newTag) r) <$> DNSRules c)
    (set_Rules (renameRuleSetRefsInRule oldTag newTag <$> Rules c) c).

Definition removeRuleSetRefs (tags : list string) (remove : list string) : list string :=
  filter (λ tag, tag ∉ remove) tags.

Fixpoint removeRuleSetRefsInRule (remove : list string) (r : Rule) : Rule :=
  set_r_Rules ((fix go l := match l with [] => [] | r :: l => removeRuleSetRefsInRule remove r :: go l end) (r_Rules r))
    (set_r_RuleSet (removeRuleSetRefs (r_RuleSet r) remove) r).

(** The indices of the elements that satisfy a predicate. *)
Definition indices_of {A} (p : A → bool) (l : list A) : list nat :=
  omap (λ ix, if p ix.2 then Some ix.1 else None) (imap pair l).

(** The route rules and the DNS rules that name one of the tags. *)
Definition rulesReferencingRuleSets (tags : list string) (c : RouterConfig) : list nat * list nat :=
  let uses (l : list string) := existsb (λ t, bool_decide (t ∈ tags)) l in
  (indices_of (λ r, uses (r_RuleSet r)) (Rules c), indices_of (λ r, uses (d_RuleSet r)) (DNSRules c)).

Definition AddRuleSet (rs : RuleSet) (c : RouterConfig) : result :=
  match validateRuleSet rs with
  | Some e => inl e
  | None =>
      if existsb (λ existing, String.eqb (rs_Tag existing) (rs_Tag rs)) (RuleSets c) then inl ErrRuleSetTagConflict
      else inr (set_RuleSets (RuleSets c ++ [rs]) c)
  end.

(** The loop that looks for the index of [tag] and for another element with the tag
    [next]: [inl tt] is a conflict; the last element with the tag counts. *)
Fixpoint find_tag {A} (tag_of : A → string) (tag next : string) (i : nat) (idx : option nat) (l : list A)
  : (unit + option nat)%type :=
  match l with
  | [] => inr idx
  | x :: l =>
      if String.eqb (tag_of x) tag then find_tag tag_of tag next (S i) (Some i) l
      else if String.eqb (tag_of x) next && negb (String.eqb tag next) then inl tt
      else find_tag tag_of tag next (S i) idx l
  end.

Definition UpdateRuleSet (tag : string) (next : RuleSet) (c : RouterConfig) : result :=
  let next := if String.eqb (rs_Tag next) "" then set_rs_Tag tag next else next in
  match validateRuleSet next with
  | Some e => inl e
  | None =>
      match find_tag rs_Tag tag (rs_Tag next) 0 None (RuleSets c) with
      | inl _ => inl ErrRuleSetTagConflict
      | inr None => inl ErrRuleSetNotFound
      | inr (Some idx) =>
          let c := set_RuleSets (<[idx := next]> (RuleSets c)) c in
          inr (if String.eqb tag (rs_Tag next) then c else renameRuleSetReferences tag (rs_Tag next) c)
      end
  end.

Definition DeleteRuleSet (tag : string) (force : bool) (c : RouterConfig) : result :=
  let tags := ruleSetTagsWithCompanion tag in
  let '(route, dns) := rulesReferencingRuleSets tags c in
  if negb (bool_decide (route = [])) && negb force then inl ErrRuleSetReferenced
  else if negb (bool_decide (dns = [])) && negb force then inl ErrRuleSetReferenced
  else
    let c := if force then
        set_DNSRules ((λ r, set_d_RuleSet (removeRuleSetRefs (d_RuleSet r) tags) r) <$> DNSRules c)
          (set_Rules (removeRuleSetRefsInRule tags <$> Rules c) c)
      else c in
    inr (set_RuleSets (filter (λ rs, rs_Tag rs ∉ tags) (RuleSets c)) c).

(** ** Rules *)

Definition rule_err (r : Rule) : option string :=
  if negb (hasAnyMatcher r) && needs_matcher r then Some ErrInvalidMatchers else validateRule r.

Definition AddRule (r : Rule) (c : RouterConfig) : result :=
  match rule_err r with Some e => inl e | None => inr (set_Rules (Rules c ++ [r]) c) end.

Definition in_range {A} (i : Z) (l : list A) : bool := (0 <=? i)%Z && (i <? Z.of_nat (length l))%Z.

Definition UpdateRule (index : Z) (r : Rule) (c : RouterConfig) : result :=
  if negb (in_range index (Rules c)) then inl ErrRuleIndexOutOfRange
  else match rule_err r with
  | Some e => inl e
  | None => inr (set_Rules (<[Z.to_nat index := r]> (Rules c)) c)
  end.

(** [append(l[:i], l[i+1:]...)] *)
Definition remove_at {A} (i : nat) (l : list A) : list A := take i l ++ drop (S i) l.
Definition insert_at {A} (i : nat) (x : A) (l : list A) : list A := take i l ++ x :: drop i l.

Definition DeleteRule (index : Z) (c : RouterConfig) : result :=
  if negb (in_range index (Rules c)) then inl ErrRuleIndexOutOfRange
  else inr (set_Rules (remove_at (Z.to_nat index) (Rules c)) c).

(** The element at [from], taken out and put in at [to]. *)
Definition move {A} (from to : nat) (l : list A) : list A :=
  match l !! from with Some x => insert_at to x (remove_at from l) | None => l end.

Definition MoveRule (from to : Z) (c : RouterConfig) : result :=
  if negb (in_range from (Rules c)) || negb (in_range to (Rules c)) then inl ErrRuleIndexOutOfRange
  else if (from =? to)%Z then inr c
  else inr (set_Rules (move (Z.to_nat from) (Z.to_nat to) (Rules c)) c).

(** The validation loop of [bulkSetRuleOutbound]. *)
Fixpoint bulk_indices_err (rules : list Rule) (seen : list Z) (l : list Z) : option string :=
  match l with
  | [] => None
  | i :: l =>
      if bool_decide (i ∈ seen) then Some ErrBulkInvalidSelection
      else if negb (in_range i rules) then Some ErrRuleIndexOutOfRange
      else match rules !! Z.to_nat i with
      | Some r =>
          if negb (ActionIsRoute r) || isSystemRule r then Some ErrBulkInvalidSelection
          else bulk_indices_err rules (i :: seen) l
      | None => None
      end
  end.

Definition bulkSetRuleOutbound (indices : list Z) (outbound : string) (known : string → bool) (c : RouterConfig) : result :=
  match indices with
  | [] => inl ErrBulkEmptyIndices
  | _ =>
      if negb (known outbound) then inl ErrBulkInvalidSelection
      else match bulk_indices_err (Rules c) [] indices with
      | Some e => inl e
      | None => inr (set_Rules (foldl (λ rules i, alter (set_r_Outbound outbound) (Z.to_nat i) rules) (Rules c) indices) c)
      end
  end.

(** The map of tags to indices: the last rule set with a tag counts. *)
Definition byTag (sets : list RuleSet) : gmap string nat :=
  foldl (λ m ix, <[rs_Tag ix.2 := ix.1]> m) ∅ (imap pair sets).

Fixpoint bulk_tags_err (sets : list RuleSet) (m : gmap string nat) (seen : list string) (l : list string) : option string :=
  match l with
  | [] => None
  | tag :: l =>
      if bool_decide (tag ∈ seen) then Some ErrBulkInvalidSelection
      else match (i ← m !! tag; sets !! i) with
      | None => Some ErrRuleSetNotFound
      | Some rs =>
          if negb (String.eqb (rs_Type rs) "remote") then Some ErrBulkInvalidSelection
          else bulk_tags_err sets m (tag :: seen) l
      end
  end.

Definition bulkSetRuleSetDetour (tags : list string) (detour : string) (known : string → bool) (c : RouterConfig) : result :=
  match tags with
  | [] => inl ErrBulkEmptyTags
  | _ =>
      if negb (String.eqb detour "") && negb (known detour) then inl ErrBulkInvalidSelection
      else
        let m := byTag (RuleSets c) in
        match bulk_tags_err (RuleSets c) m [] tags with
        | Some e => inl e
        | None =>
            inr (set_RuleSets (foldl (λ sets tag, match m !! tag with
                   | Some i => alter (set_rs_DownloadDetour detour) i sets
                   | None => sets
                   end) (RuleSets c) tags) c)
        end
  end.
End validation.

(** ** System rules *)

(** The position of the first element that satisfies a predicate. *)
Fixpoint find_index {A} (p : A → bool) (l : list A) : option nat :=
  match l with
  | [] => None
  | x :: l => if p x then Some 0%nat else S <$> find_index p l
  end.

Definition sniff_rule : Rule := {|
  r_Type := ""; r_Mode := ""; r_Rules := []; DomainSuffix := []; r_Domain := []; IPCIDR := []; SourceIPCIDR := [];
  r_Port := []; r_RuleSet := []; Protocol := ""; r_Inbound := []; IPIsPrivate := None; r_Network := "";
  r_Action := "sniff"; r_Outbound := ""; r_UDPTimeout := ""; AwgmManaged := "" |}.

Definition dns_matcher : Rule := {|
  r_Type := ""; r_Mode := ""; r_Rules := []; DomainSuffix := []; r_Domain := []; IPCIDR := []; SourceIPCIDR := [];
  r_Port := []; r_RuleSet := []; Protocol := "dns"; r_Inbound := []; IPIsPrivate := None; r_Network := "";
  r_Action := ""; r_Outbound := ""; r_UDPTimeout := ""; AwgmManaged := "" |}.

Definition port53_matcher : Rule := {|
  r_Type := ""; r_Mode := ""; r_Rules := []; DomainSuffix := []; r_Domain := []; IPCIDR := []; SourceIPCIDR := [];
  r_Port := [53%Z]; r_RuleSet := []; Protocol := ""; r_Inbound := []; IPIsPrivate := None; r_Network := "";
  r_Action := ""; r_Outbound := ""; r_UDPTimeout := ""; AwgmManaged := "" |}.

Definition hijack_rule : Rule := {|
  r_Type := "logical"; r_Mode := "or"; r_Rules := [dns_matcher; port53_matcher]; DomainSuffix := []; r_Domain := [];
  IPCIDR := []; SourceIPCIDR := []; r_Port := []; r_RuleSet := []; Protocol := ""; r_Inbound := [];
  IPIsPrivate := None; r_Network := ""; r_Action := "hijack-dns"; r_Outbound := ""; r_UDPTimeout := "";
  AwgmManaged := "" |}.

Definition private_rule : Rule := {|
  r_Type := ""; r_Mode := ""; r_Rules := []; DomainSuffix := []; r_Domain := []; IPCIDR := []; SourceIPCIDR := [];
  r_Port := []; r_RuleSet := []; Protocol := ""; r_Inbound := []; IPIsPrivate := Some true; r_Network := "";
  r_Action := ""; r_Outbound := "direct"; r_UDPTimeout := ""; AwgmManaged := "" |}.

Definition udp_timeout_rule (effective : string) : Rule := {|
  r_Type := ""; r_Mode := ""; r_Rules := []; DomainSuffix := []; r_Domain := []; IPCIDR := []; SourceIPCIDR := [];
  r_Port := []; r_RuleSet := []; Protocol := ""; r_Inbound := []; IPIsPrivate := None; r_Network := "udp";
  r_Action := "route-options"; r_Outbound := ""; r_UDPTimeout := effective; AwgmManaged := "" |}.

(** [EnsureSystemRules] on the rules: the sniff rules follow the setting, the hijack
    rule is there, and the bypass of private addresses is right behind it. *)
Definition ensure_rules (snifferEnabled : bool) (rules : list Rule) : list Rule :=
  let hasSniff := existsb isSystemSniffRule rules in
  let hasPrivate := existsb isSystemPrivateRule rules in
  let rules := if negb snifferEnabled && hasSniff then filter (λ r, isSystemSniffRule r = false) rules else rules in
  let sniff := if snifferEnabled && negb hasSniff then [sniff_rule] else [] in
  let '(prepend, hijackIdx) :=
    match find_index isSystemHijackRule rules with
    | None => (sniff ++ [hijack_rule], length sniff)
    | Some i => (sniff, (i + length sniff)%nat)
    end in
  let rules := prepend ++ rules in
  if hasPrivate then rules else insert_at (S hijackIdx) private_rule rules.

Definition EnsureSystemRules (snifferEnabled : bool) (c : RouterConfig) : RouterConfig :=
  let c := if String.eqb (Final c) "" then set_Final "direct" c else c in
  set_Rules (ensure_rules snifferEnabled (Rules c)) c.

Definition EnsureRouteWAN (autoDetect : bool) (kernelName : string) (c : RouterConfig) : RouterConfig :=
  if autoDetect then set_DefaultInterface "" (set_AutoDetectInterface (Some true) c)
  else set_DefaultInterface kernelName (set_AutoDetectInterface None c).

Definition SetRouteFinal (tag : string) (c : RouterConfig) : result :=
  if String.eqb tag "" then inl "route final cannot be empty" else inr (set_Final tag c).

Fixpoint systemPrefixLen (rules : list Rule) : nat :=
  match rules with
  | [] => 0
  | r :: rules =>
      if isSystemSniffRule r || isSystemHijackRule r || isSystemPrivateRule r then S (systemPrefixLen rules) else 0
  end.

Definition ensure_udp_timeout (effective : string) (rules : list Rule) : list Rule :=
  let rules := filter (λ r, isSystemUDPTimeoutRule r = false) rules in
  if String.eqb effective "" then rules
  else insert_at (systemPrefixLen rules) (udp_timeout_rule effective) rules.
Definition EnsureUDPTimeoutRule (effective : string) (c : RouterConfig) : RouterConfig :=
  set_Rules (ensure_udp_timeout effective (Rules c)) c.

(** ** Direct outbounds *)

Definition auto_prefixes : list string := ["opkgtun"; "awgm"; "awg"; "wg"; "wireguard"; "nwg"; "t2s"; "proxy"].

Section iface.
Context `{U : GoUnicode}.
Definition IsAutoManagedIface (name : string) : bool := existsb (HasPrefix (ToLower name)) auto_prefixes.
Definition isProxyIface (name : string) : bool := HasPrefix (ToLower name) "t2s" || HasPrefix (ToLower name) "proxy".
Definition IsStrippedDirectBind (iface : string) : bool := IsAutoManagedIface iface && negb (isProxyIface iface).
Definition stripAutoManagedDirect (l : list Outbound) : list Outbound :=
  filter (λ o, String.eqb (o_Type o) "direct" && negb (String.eqb (BindInterface o) "") &&
               IsStrippedDirectBind (BindInterface o) = false) l.
End iface.
