(* ===== verification/SbRouterLib.v ===== *)
(** * Lemmas on the router configuration's lists *)
From S2P Require Import Prelude GoLib GoText SbJson SbRouter.

Lemma Rule_rose (P : Rule → Prop) : (∀ r, Forall P (r_Rules r) → P r) → ∀ r, P r.
Proof.
  intros H. fix IH 1. intros r. apply H. destruct r as [? ? rs]. cbn. induction rs as [|r rs IHrs];
    [by constructor|constructor; [apply IH|done]].
Qed.

Lemma elem_concat_fmap {A} (f : A → list string) l t : t ∈ concat (f <$> l) ↔ ∃ x, x ∈ l ∧ t ∈ f x.
Proof.
  rewrite list_elem_of_In, in_concat. split.
  - intros (k & Hk & Ht). apply list_elem_of_In, list_elem_of_fmap in Hk as (x & -> & Hx).
    apply list_elem_of_In in Ht. by exists x.
  - intros (x & Hx & Ht). exists (f x). rewrite <- !list_elem_of_In. split; [apply list_elem_of_fmap; by eauto|done].
Qed.

Lemma omap_nil {A B} (f : A → option B) l : omap f l = [] ↔ ∀ x, x ∈ l → f x = None.
Proof.
  induction l as [|x l IH]; cbn; [split; [by intros _ x []%elem_of_nil|done]|].
  setoid_rewrite elem_of_cons. destruct (f x) as [y|] eqn:E1.
  - split; [done|]. intros H. specialize (H x (or_introl eq_refl)). congruence.
  - rewrite IH. split; [intros H y [->|?]; auto|intros H y ?; auto].
Qed.

Lemma elem_imap_pair {A} (l : list A) i x : (i, x) ∈ imap pair l ↔ l !! i = Some x.
Proof.
  rewrite list_elem_of_lookup. setoid_rewrite list_lookup_imap_Some. naive_solver.
Qed.

Lemma positions_nil {A B} (p : A → bool) (g : nat → A → B) l :
  omap (λ ix, if p ix.2 then Some (g ix.1 ix.2) else None) (imap pair l) = [] ↔ ∀ x, x ∈ l → p x = false.
Proof.
  rewrite omap_nil. split.
  - intros H x [i Hi]%list_elem_of_lookup. specialize (H (i, x) (proj2 (elem_imap_pair _ _ _) Hi)). cbn in H.
    by destruct (p x).
  - intros H [i x] Hi%elem_imap_pair. cbn. by rewrite (H x) by by eapply list_elem_of_lookup_2.
Qed.

Lemma indices_nil {A} (p : A → bool) l : indices_of p l = [] ↔ ∀ x, x ∈ l → p x = false.
Proof. apply (positions_nil p (λ i _, i)). Qed.

Lemma fmap_nil_iff {A B} (f : A → B) l : f <$> l = [] ↔ l = [].
Proof. split; [apply fmap_nil_inv|by intros ->]. Qed.

Lemma rewriteTagSlice_elem tags from to t : t ∈ rewriteTagSlice tags from to →
  t = to ∨ (t ∈ tags ∧ (t ≠ from ∨ from = "" ∨ to = "")).
Proof.
  unfold rewriteTagSlice. destruct (String.eqb from "") eqn:E1; to_prop; [auto|].
  destruct (String.eqb to "") eqn:E2; to_prop; [auto|]. destruct (String.eqb from to) eqn:E3; to_prop; cbn [orb].
  { intros Ht. destruct (base.decide (t = from)) as [->|]; auto. }
  intros (x & -> & Hx)%list_elem_of_fmap. destruct (String.eqb x from) eqn:E4; to_prop; auto.
Qed.

Lemma find_tag_inr {A} (tag_of : A → string) tag next l : ∀ i idx r,
  find_tag tag_of tag next i idx l = inr r →
  (r = idx ∨ ∃ j x, r = Some (i + j)%nat ∧ l !! j = Some x ∧ tag_of x = tag) ∧
  (tag ≠ next → ∀ y, y ∈ l → tag_of y ≠ next).
Proof.
  induction l as [|x l IH]; intros i idx r H; cbn [find_tag] in H.
  { injection H as ->. split; [by left|]. intros _ y []%elem_of_nil. }
  destruct (String.eqb (tag_of x) tag) eqn:E1; to_prop.
  - destruct (IH _ _ _ H) as [H1 H2]. split.
    + right. destruct H1 as [->|(j & y & -> & Hj & Hy)].
      * exists 0%nat, x. split; [f_equal; lia|done].
      * exists (S j), y. split; [f_equal; lia|done].
    + intros Hne y [->|Hy]%elem_of_cons; [congruence|by apply H2].
  - destruct (String.eqb (tag_of x) next && negb (String.eqb tag next)) eqn:E2; [done|].
    destruct (IH _ _ _ H) as [H1 H2]. split.
    + destruct H1 as [->|(j & y & -> & Hj & Hy)]; [by left|right]. exists (S j), y. split; [f_equal; lia|done].
    + intros Hne y [->|Hy]%elem_of_cons; [|by apply H2]. apply andb_false_iff in E2 as [E2|E2]; to_prop; congruence.
Qed.

(** The element a rename finds, and the new tag is free or its own. *)
Lemma find_tag_some {A} (tag_of : A → string) tag next l idx :
  find_tag tag_of tag next 0 None l = inr (Some idx) →
  (∃ x, l !! idx = Some x ∧ tag_of x = tag) ∧ (tag ≠ next → next ∉ tag_of <$> l).
Proof.
  intros H. apply find_tag_inr in H as [[?|(j & x & E1 & Hj & Hx)] H2]; [done|]. injection E1 as ->. split; [by exists x|].
  intros Hne (y & -> & Hy)%list_elem_of_fmap. by apply (H2 Hne y).
Qed.

(** Replacing one element of a list without repetitions. *)
Lemma NoDup_insert `{EqDecision A} (l : list A) i x y : NoDup l → l !! i = Some x → (x ≠ y → y ∉ l) → NoDup (<[i := y]> l).
Proof.
  intros Hnd Hi Hy. destruct (base.decide (x = y)) as [->|Hne]; [by rewrite list_insert_id|]. specialize (Hy Hne).
  apply NoDup_alt. intros j k z Hj Hk.
  apply list_lookup_insert_Some in Hj as [(<- & <- & _)|[? Hj]]; apply list_lookup_insert_Some in Hk as [(<- & E1 & _)|[? Hk]];
    subst; try done; [by apply list_elem_of_lookup_2 in Hk|by apply list_elem_of_lookup_2 in Hj|].
  by eapply NoDup_lookup.
Qed.

Lemma elem_insert {A} (l : list A) i x y z : l !! i = Some x → z ∈ l → z ≠ x → z ∈ <[i := y]> l.
Proof.
  intros Hi [j Hj]%list_elem_of_lookup Hne. apply list_elem_of_lookup. exists j.
  rewrite list_lookup_insert_ne; [done|]. intros ->. congruence.
Qed.

Lemma elem_insert_inv {A} (l : list A) i y z : z ∈ <[i := y]> l → z = y ∨ z ∈ l.
Proof.
  intros [j Hj]%list_elem_of_lookup. apply list_lookup_insert_Some in Hj as [(_ & <- & _)|[_ Hj]]; [by left|right].
  by eapply list_elem_of_lookup_2.
Qed.

(** ** Lists *)

Lemma remove_insert_at {A} i (x : A) l : (i ≤ length l)%nat → remove_at i (insert_at i x l) = l.
Proof.
  intros H. unfold remove_at, insert_at. assert (length (take i l) = i) as Hl by (rewrite length_take; lia).
  rewrite take_app_length' by done. change (x :: drop i l) with ([x] ++ drop i l). rewrite app_assoc.
  rewrite drop_app_length' by (rewrite length_app, Hl; cbn; lia). apply take_drop.
Qed.

Lemma lookup_insert_at {A} i (x : A) l : (i ≤ length l)%nat → insert_at i x l !! i = Some x.
Proof.
  intros H. unfold insert_at. rewrite lookup_app_r by (rewrite length_take; lia).
  rewrite length_take, Nat.min_l by done. by rewrite Nat.sub_diag.
Qed.

Lemma length_remove_at {A} i (l : list A) : (i < length l)%nat → length (remove_at i l) = (length l - 1)%nat.
Proof. intros H. unfold remove_at. rewrite length_app, length_take, length_drop. lia. Qed.

(** The moved element stands at its new place, and the others keep their order. *)
Lemma move_spec {A} from to (l : list A) : (from < length l)%nat → (to < length l)%nat →
  move from to l !! to = l !! from ∧ remove_at to (move from to l) = remove_at from l.
Proof.
  intros Hf Ht. destruct (lookup_lt_is_Some_2 l from Hf) as [x Hx]. unfold move. rewrite Hx.
  pose proof (length_remove_at from l Hf) as Hl. split; [apply lookup_insert_at; lia|apply remove_insert_at; lia].
Qed.

Lemma remove_at_perm {A} i (l : list A) x : l !! i = Some x → l ≡ₚ x :: remove_at i l.
Proof.
  intros H. unfold remove_at. rewrite <- (take_drop_middle l i x H) at 1. by rewrite Permutation_middle.
Qed.

Lemma move_perm {A} from to (l : list A) : (from < length l)%nat → (to < length l)%nat → move from to l ≡ₚ l.
Proof.
  intros Hf Ht. destruct (lookup_lt_is_Some_2 l from Hf) as [x Hx]. destruct (move_spec from to l Hf Ht) as [H1 H2].
  rewrite Hx in H1. rewrite (remove_at_perm _ _ _ H1), H2. symmetry. by apply remove_at_perm.
Qed.

Lemma in_range_spec {A} i (l : list A) : in_range i l = true ↔ (0 ≤ i)%Z ∧ (Z.to_nat i < length l)%nat.
Proof. unfold in_range. rewrite andb_true_iff, Z.leb_le, Z.ltb_lt. lia. Qed.

Lemma find_index_None {A} (p : A → bool) l : find_index p l = None ↔ existsb p l = false.
Proof.
  induction l as [|x l IH]; [done|]. cbn. destruct (p x); [done|]. cbn. rewrite <- IH. by destruct (find_index p l).
Qed.

Lemma find_index_Some {A} (p : A → bool) l i : find_index p l = Some i →
  ∃ x, l !! i = Some x ∧ p x = true ∧ existsb p (take i l) = false.
Proof.
  revert i. induction l as [|x l IH]; [done|]. intros i. cbn. destruct (p x) eqn:Ep.
  - intros [= <-]. by exists x.
  - destruct (find_index p l) as [j|]; [|done]. intros [= <-]. destruct (IH j eq_refl) as (y & Hy & Hp & Ht).
    exists y. split_and!; [done..|]. cbn. by rewrite Ep, Ht.
Qed.

Lemma existsb_filter_neg {A} (p q : A → bool) l : (∀ x, q x = true → p x = false) →
  existsb q (filter (λ x, p x = false) l) = existsb q l.
Proof.
  intros H. induction l as [|x l IH]; [done|]. rewrite filter_cons. destruct (base.decide (p x = false)) as [|Hp]; cbn.
  - by rewrite IH.
  - rewrite IH. destruct (q x) eqn:Eq; [|done]. by apply H in Eq.
Qed.

Lemma existsb_filter_self {A} (p : A → bool) l : existsb p (filter (λ x, p x = false) l) = false.
Proof.
  induction l as [|x l IH]; [done|]. rewrite filter_cons. destruct (base.decide (p x = false)) as [Hp|]; cbn; [by rewrite Hp|done].
Qed.

Lemma filter_none {A} (p : A → bool) l : existsb p l = false → filter (λ x, p x = false) l = l.
Proof.
  induction l as [|x l IH]; [done|]. change (existsb p (x :: l)) with (p x || existsb p l).
  intros [Hp Hl]%orb_false_iff. rewrite filter_cons_True by done. by rewrite IH.
Qed.

Lemma existsb_insert_at {A} (p : A → bool) i x l : existsb p (insert_at i x l) = p x || existsb p l.
Proof.
  unfold insert_at. rewrite existsb_app. cbn. rewrite <- (take_drop i l) at 3. rewrite existsb_app.
  destruct (p x), (existsb p (take i l)); done.
Qed.

Lemma find_index_app_cons {A} (p : A → bool) l1 x l2 : existsb p l1 = false → p x = true →
  find_index p (l1 ++ x :: l2) = Some (length l1).
Proof.
  intros H Hx. induction l1 as [|y l1 IH]; cbn in *; [by rewrite Hx|]. apply orb_false_iff in H as [-> H]. by rewrite IH.
Qed.

Lemma filter_insert_at {A} (p : A → bool) i x l : p x = true → existsb p l = false →
  filter (λ y, p y = false) (insert_at i x l) = l.
Proof.
  intros Hx Hl. unfold insert_at. rewrite filter_app, filter_cons_False by congruence.
  rewrite <- filter_app, take_drop. by apply filter_none.
Qed.

Lemma fmap_filter {A B} (f : A → B) (P : B → Prop) `{∀ x, Decision (P x)} (l : list A) :
  f <$> filter (λ x, P (f x)) l = filter P (f <$> l).
Proof.
  induction l as [|x l IH]; [done|]. rewrite fmap_cons, !filter_cons. destruct (base.decide (P (f x))); cbn; [by f_equal|done].
Qed.

Lemma first_err_None_iff {A} (f : A → option string) l : first_err f l = None ↔ ∀ x, x ∈ l → f x = None.
Proof.
  induction l as [|y l IH]; [split; [by intros _ x []%elem_of_nil|done]|]. cbn. setoid_rewrite elem_of_cons. split.
  - destruct (f y) eqn:Ef; [done|]. intros H x [->|Hx]; [done|]. by apply IH.
  - intros H. rewrite (H y) by by left. apply IH. auto.
Qed.
