(* ===== verification/SbOutbounds.v ===== *)
(** * Composite outbounds of the router configuration ([router/config.go])

    Selectors and URL tests name other outbounds: validation, the search for circular
    dependencies, what refers to an outbound, and the checks of the service around the
    edits. *)
From S2P Require Import Prelude GoLib GoText SbJson SbRouter.

(** ** Circular dependencies ([validateNoCompositeCycles]) *)

Inductive color := Gray | Black. (* absent: white *)

(** [edges]: the members that are outbounds of the list; equal tags share their edges. *)
Definition edges (os : list Outbound) (tag : string) : list string :=
  concat ((λ o, if String.eqb (o_Tag o) tag then filter (.∈ o_Tag <$> os) (o_Outbounds o) else []) <$> os).

Section visit.
Context (edges : string → list string).

(** The members of a gray node, and the node turning black; [true]: a gray node was met. *)
Fixpoint visit_next (visit : string → gmap string color → option (bool * gmap string color))
    (tag : string) (ns : list string) (col : gmap string color) : option (bool * gmap string color) :=
  match ns with
  | [] => Some (false, <[tag := Black]> col)
  | next :: ns =>
      match col !! next with
      | Some Gray => Some (true, col)
      | Some Black => visit_next visit tag ns col
      | None => r ← visit next col; if (r.1 : bool) then Some r else visit_next visit tag ns r.2
      end
  end.

(** The depth-first search; [None]: out of fuel. *)
Fixpoint visit (fuel : nat) (tag : string) (col : gmap string color) : option (bool * gmap string color) :=
  match fuel with
  | O => None
  | S fuel => visit_next (visit fuel) tag (edges tag) (<[tag := Gray]> col)
  end.

Fixpoint visit_all (fuel : nat) (tags : list string) (col : gmap string color) : option (bool * gmap string color) :=
  match tags with
  | [] => Some (false, col)
  | tag :: tags =>
      match col !! tag with
      | Some _ => visit_all fuel tags col
      | None => r ← visit fuel tag col; if (r.1 : bool) then Some r else visit_all fuel tags r.2
      end
  end.
End visit.

Definition ErrCircular : string := "circular outbound dependency".

Definition validateNoCompositeCycles (os : list Outbound) : option string :=
  match visit_all (edges os) (S (length os)) (o_Tag <$> os) ∅ with
  | Some (false, _) => None
  | _ => Some ErrCircular
  end.

(** ** Validation *)

Section outbounds.
Context `{U : GoUnicode}.

Definition validateCompositeOutbound (o : Outbound) : option string :=
  if String.eqb (TrimSpace (o_Tag o)) "" then Some "outbound tag is required"
  else match o_Outbounds o with
  | [] => Some "at least one member is required"
  | members =>
      or_else (first_err (λ m,
          if is_direct (TrimSpace m) then Some "member direct is not allowed"
          else if String.eqb (TrimSpace m) (TrimSpace (o_Tag o)) then Some "member references itself"
          else None) members)
        (if is_direct (TrimSpace (o_Default o)) then Some "default direct is not allowed" else None)
  end.

Definition validateInterfaceOutbound (o : Outbound) : option string :=
  if String.eqb (TrimSpace (o_Tag o)) "" then Some "outbound tag is required"
  else if String.eqb (TrimSpace (BindInterface o)) "" then Some "bind_interface is required"
  else if negb (bool_decide (o_Outbounds o = [])) || negb (String.eqb (o_URL o) "") ||
          negb (String.eqb (o_Interval o) "") || negb (o_Tolerance o =? 0)%Z ||
          negb (String.eqb (o_Default o) "") || negb (String.eqb (o_Strategy o) "")
  then Some "direct outbound must not set composite fields"
  else None.

Definition validateOutbound (o : Outbound) : option string :=
  if is_direct (o_Type o) then validateInterfaceOutbound o else validateCompositeOutbound o.

(** ** References *)

Fixpoint ruleReferencesOutbound (tag : string) (r : Rule) : bool :=
  String.eqb (r_Outbound r) tag ||
  (fix go l := match l with [] => false | r :: l => ruleReferencesOutbound tag r || go l end) (r_Rules r).

Definition rulesReferencingOutbound (tag : string) (c : RouterConfig) : list nat :=
  indices_of (ruleReferencesOutbound tag) (Rules c).

(** Where an outbound is referred to. *)
Inductive reference :=
  | RefRule (i : nat)
  | RefFinal
  | RefMember (i : nat) (parent : string) (j : nat)
  | RefDefault (i : nat) (parent : string)
  | RefDnsDetour (i : nat) (server : string)
  | RefDownload (i : nat) (set : string).

Definition is_rule_ref (r : reference) : bool := match r with RefRule _ => true | _ => false end.

Definition outbound_refs (tag : string) (i : nat) (o : Outbound) : list reference :=
  ((λ j, RefMember i (o_Tag o) j) <$> indices_of (λ m, String.eqb m tag) (o_Outbounds o)) ++
  (if String.eqb (o_Default o) tag then [RefDefault i (o_Tag o)] else []).

Definition outboundReferences (tag : string) (c : RouterConfig) : list reference :=
  (RefRule <$> rulesReferencingOutbound tag c) ++
  (if String.eqb (Final c) tag then [RefFinal] else []) ++
  concat (imap (outbound_refs tag) (Outbounds c)) ++
  omap (λ ix, if String.eqb (s_Detour ix.2) tag then Some (RefDnsDetour ix.1 (s_Tag ix.2)) else None) (imap pair (Servers c)) ++
  omap (λ ix, if String.eqb (rs_DownloadDetour ix.2) tag then Some (RefDownload ix.1 (rs_Tag ix.2)) else None)
    (imap pair (RuleSets c)).

Definition outboundReferencesExcludingRules (tag : string) (c : RouterConfig) : list reference :=
  filter (λ r, is_rule_ref r = false) (outboundReferences tag c).

(** ** Renaming *)

Fixpoint renameOutboundRefsInRule (oldTag newTag : string) (r : Rule) : Rule :=
  set_r_Rules ((fix go l := match l with [] => [] | r :: l => renameOutboundRefsInRule oldTag newTag r :: go l end) (r_Rules r))
    (if String.eqb (r_Outbound r) oldTag then set_r_Outbound newTag r else r).

Definition rename_in_outbound (oldTag newTag : string) (o : Outbound) : Outbound :=
  let o := set_o_Outbounds (rewriteTagSlice (o_Outbounds o) oldTag newTag) o in
  if String.eqb (o_Default o) oldTag then set_o_Default newTag o else o.

Definition renameOutboundReferences (oldTag newTag : string) (c : RouterConfig) : RouterConfig :=
  let c := set_Rules (renameOutboundRefsInRule oldTag newTag <$> Rules c) c in
  let c := if String.eqb (Final c) oldTag then set_Final newTag c else c in
  let c := set_Outbounds (rename_in_outbound oldTag newTag <$> Outbounds c) c in
  let c := set_Servers ((λ s, if String.eqb (s_Detour s) oldTag then set_s_Detour newTag s else s) <$> Servers c) c in
  set_RuleSets ((λ rs, if String.eqb (rs_DownloadDetour rs) oldTag then set_rs_DownloadDetour newTag rs else rs) <$> RuleSets c) c.

(** ** Removing *)

Fixpoint removeOutboundRefsInNestedRules (tag : string) (r : Rule) : Rule :=
  set_r_Rules ((fix go l := match l with
    | [] => []
    | r :: l =>
        let r' := removeOutboundRefsInNestedRules tag r in
        (if String.eqb (r_Outbound r) tag then set_r_Outbound "" r' else r') :: go l
    end) (r_Rules r)) r.

Definition removeTagRefs (tags : list string) (tag : string) : list string := filter (.≠ tag) tags.

Definition remove_in_outbound (tag : string) (o : Outbound) : Outbound :=
  let o := set_o_Outbounds (removeTagRefs (o_Outbounds o) tag) o in
  if String.eqb (o_Default o) tag then set_o_Default "" o else o.

Definition removeOutboundReferences (tag : string) (c : RouterConfig) : RouterConfig :=
  let c := set_Rules (removeOutboundRefsInNestedRules tag <$> filter (λ r, r_Outbound r ≠ tag) (Rules c)) c in
  let c := if String.eqb (Final c) tag then set_Final "direct" c else c in
  let c := set_Outbounds (remove_in_outbound tag <$> Outbounds c) c in
  let c := set_Servers ((λ s, if String.eqb (s_Detour s) tag then set_s_Detour "" s else s) <$> Servers c) c in
  set_RuleSets ((λ rs, if String.eqb (rs_DownloadDetour rs) tag then set_rs_DownloadDetour "" rs else rs) <$> RuleSets c) c.

(** ** The operations *)

Definition AddCompositeOutbound (o : Outbound) (c : RouterConfig) : result :=
  match validateOutbound o with
  | Some e => inl e
  | None =>
      if existsb (λ existing, String.eqb (o_Tag existing) (o_Tag o)) (Outbounds c) then inl ErrOutboundTagConflict
      else
        let next := Outbounds c ++ [o] in
        match validateNoCompositeCycles next with
        | Some e => inl e
        | None => inr (set_Outbounds next c)
        end
  end.

Definition UpdateCompositeOutbound (tag : string) (o : Outbound) (c : RouterConfig) : result :=
  match validateOutbound o with
  | Some e => inl e
  | None =>
      match find_tag o_Tag tag (o_Tag o) 0 None (Outbounds c) with
      | inl _ => inl ErrOutboundTagConflict
      | inr None => inl ErrOutboundNotFound
      | inr (Some idx) =>
          let next := <[idx := o]> (Outbounds c) in
          match validateNoCompositeCycles next with
          | Some e => inl e
          | None =>
              let c := set_Outbounds next c in
              inr (if String.eqb tag (o_Tag o) then c else renameOutboundReferences tag (o_Tag o) c)
          end
      end
  end.

Definition DeleteCompositeOutbound (tag : string) (force : bool) (c : RouterConfig) : result :=
  if negb (match outboundReferences tag c with [] => true | _ => false end) && negb force then inl ErrOutboundReferenced
  else
    let c := set_Outbounds (filter (λ o, o_Tag o ≠ tag) (Outbounds c)) c in
    inr (if force then removeOutboundReferences tag c else c).

(** ** The checks of the service ([service_outbounds.go])

    [catalog]: the tags the other catalogues have at the time, of subscriptions, AWG
    tunnels and sing-box tunnels; [bindable]: what [validateBindInterface] says. *)
Definition isKnownOutboundTag (catalog : string → bool) (tag : string) (c : RouterConfig) : bool :=
  bool_decide (tag ∈ ["direct"; "block"; "dns"]) || existsb (λ o, String.eqb (o_Tag o) tag) (Outbounds c) || catalog tag.

Definition ErrCompositeMemberUnknown : string := "неизвестный член композита".

(** Only the members of these types are looked up, and no default. *)
Definition checks_members (o : Outbound) : bool := bool_decide (ToLower (o_Type o) ∈ ["selector"; "urltest"]).

Definition validateCompositeMembers (catalog : string → bool) (o : Outbound) (c : RouterConfig) : option string :=
  if negb (checks_members o) then None
  else if forallb (λ m, String.eqb m (o_Tag o) || isKnownOutboundTag catalog m c) (o_Outbounds o) then None
  else Some ErrCompositeMemberUnknown.

Definition check_bind (bindable : string → bool) (o : Outbound) : option string :=
  if is_direct (o_Type o) && negb (bindable (BindInterface o)) then Some "bind interface" else None.

Definition serviceAddCompositeOutbound (catalog bindable : string → bool) (o : Outbound) (c : RouterConfig) : result :=
  match or_else (check_bind bindable o) (validateCompositeMembers catalog o c) with
  | Some e => inl e
  | None => AddCompositeOutbound o c
  end.
Definition serviceUpdateCompositeOutbound (catalog bindable : string → bool) (tag : string) (o : Outbound) (c : RouterConfig) : result :=
  match or_else (check_bind bindable o) (validateCompositeMembers catalog o c) with
  | Some e => inl e
  | None => UpdateCompositeOutbound tag o c
  end.
End outbounds.
