(* ===== verification/SbOutboundsProps.v ===== *)
(** * Composite outbounds: no cycles, no dangling references

    The depth-first search terminates and refuses exactly the cyclic sets; renaming an
    outbound carries its references along, deleting it leaves none, and what an edit adds
    exists as far as the program looks it up. *)
From S2P Require Import Prelude GoLib GoText SbJson SbRouter SbRouterLib SbOutbounds.
From stdpp Require Import relations.

(** ** The depth-first search *)
Section search.
Context (edges : string → list string) (N : list string).
Context (Hclosed : ∀ a b, b ∈ edges a → b ∈ N).

Definition E (a b : string) : Prop := b ∈ edges a.

Definition white (col : gmap string color) : gset string := list_to_set N ∖ dom col.

Lemma white_insert tag c col : tag ∈ N → col !! tag = None → (size (white (<[tag := c]> col)) < size (white col))%nat.
Proof.
  intros Ht Hn. unfold white. apply subset_size. rewrite dom_insert_L. apply not_elem_of_dom in Hn. set_solver.
Qed.

Lemma white_mono col col' : dom col ⊆ dom col' → (size (white col') ≤ size (white col))%nat.
Proof. intros H. unfold white. apply subseteq_size. set_solver. Qed.

(** Enough fuel: the white nodes. *)
Lemma visit_total fuel tag col :
  tag ∈ N → (size (white col) ≤ fuel)%nat → col !! tag = None →
  ∃ r, visit edges fuel tag col = Some r ∧ dom col ⊆ dom r.2.
Proof.
  revert tag col. induction fuel as [|fuel IH]; intros tag col Ht Hf Hc.
  { pose proof (white_insert tag Gray col Ht Hc). lia. }
  cbn [visit]. pose proof (white_insert tag Gray col Ht Hc) as Hlt.
  assert (dom col ⊆ dom (<[tag := Gray]> col)) as Hsub by set_solver.
  assert (∀ ns, (∀ x, x ∈ ns → x ∈ N) → ∀ col1, dom (<[tag := Gray]> col) ⊆ dom col1 →
    ∃ r, visit_next (visit edges fuel) tag ns col1 = Some r ∧ dom col1 ⊆ dom r.2) as H.
  { induction ns as [|next ns IHns]; intros Hns col1 Hd; cbn [visit_next].
    { eexists. split; [done|]. set_solver. }
    assert (∀ x, x ∈ ns → x ∈ N) as Hns' by (intros; apply Hns; by right).
    destruct (col1 !! next) as [[]|] eqn:Hnext; [by eexists|by apply IHns|].
    destruct (IH next col1) as (r & -> & Hr); [apply Hns; by left| |done|].
    { pose proof (white_mono _ _ Hd). lia. }
    cbn. destruct r as [[] col2]; cbn in *; [by eexists|].
    destruct (IHns Hns' col2) as (r & Hr2 & Hd2); [set_solver|]. exists r. split; [done|]. set_solver. }
  destruct (H (edges tag)) with (col1 := <[tag := Gray]> col) as (r & Hr & Hd); [intros x; apply Hclosed|done|].
  exists r. split; [done|]. set_solver.
Qed.

(** Black nodes are closed under edges and lie on no cycle. *)
Record settled (col : gmap string color) : Prop := {
  se_closed : ∀ x y, col !! x = Some Black → E x y → col !! y = Some Black;
  se_acyclic : ∀ x, col !! x = Some Black → ¬ tc E x x;
}.

Lemma settled_reach col x y : settled col → col !! x = Some Black → rtc E x y → col !! y = Some Black.
Proof. intros S Hx H. induction H as [|x y z Hxy _ IH]; [done|]. apply IH. by eapply se_closed. Qed.

Lemma settled_black col tag : settled col → col !! tag ≠ Some Black → (∀ y, E tag y → col !! y = Some Black) →
  settled (<[tag := Black]> col).
Proof.
  intros S Ht Hsucc. split.
  - intros x y Hx Hxy. destruct (base.decide (y = tag)) as [->|Hne]; [by rewrite lookup_insert_eq|].
    rewrite lookup_insert_ne by done. apply lookup_insert_Some in Hx as [[<- _]|[_ Hx]]; [by apply Hsucc|].
    by eapply se_closed.
  - intros x Hx Hcyc. apply lookup_insert_Some in Hx as [[<- _]|[_ Hx]]; [|by eapply se_acyclic].
    apply Ht. inversion Hcyc as [y z Hy|y y' z Hy Hrest]; subst; [by apply Hsucc in Hy|].
    eapply settled_reach; [done|by apply Hsucc|]. by apply tc_rtc.
Qed.

Lemma settled_gray col tag : settled col → col !! tag = None → settled (<[tag := Gray]> col).
Proof.
  intros S Ht. assert (∀ x, <[tag := Gray]> col !! x = Some Black ↔ col !! x = Some Black) as H.
  { intros x. rewrite lookup_insert_Some. split; [by intros [[? ?]|[_ ?]]|].
    intros Hx. right. split; [congruence|done]. }
  split.
  - intros x y Hx Hxy. apply H. apply H in Hx. by eapply se_closed.
  - intros x Hx. apply H in Hx. by eapply se_acyclic.
Qed.

(** What one visit leaves behind. *)
Record visited (col col' : gmap string color) : Prop := {
  vi_settled : settled col';
  vi_black : ∀ x, col !! x = Some Black → col' !! x = Some Black;
  vi_gray : ∀ x, col' !! x = Some Gray ↔ col !! x = Some Gray;
}.

Lemma visit_spec fuel tag col r :
  visit edges fuel tag col = Some r → col !! tag = None → settled col →
  (∀ g, col !! g = Some Gray → tc E g tag) →
  if r.1 then ∃ x, tc E x x else visited col r.2 ∧ r.2 !! tag = Some Black.
Proof.
  revert tag col r. induction fuel as [|fuel IH]; intros tag col r Hv Ht Hs Hg; [done|]. cbn [visit] in Hv.
  assert (∀ g, <[tag := Gray]> col !! g = Some Gray → rtc E g tag) as Hg'.
  { intros g. rewrite lookup_insert_Some. intros [[-> _]|[_ H]]; [done|]. by apply tc_rtc, Hg. }
  assert (visited (<[tag := Gray]> col) (<[tag := Gray]> col)) as V0
    by (split; [by apply settled_gray|done|done]).
  assert (∀ ns col1 r, (∀ y, y ∈ ns → E tag y) → visit_next (visit edges fuel) tag ns col1 = Some r →
    (∀ y, E tag y → y ∈ ns ∨ col1 !! y = Some Black) → visited (<[tag := Gray]> col) col1 →
    if r.1 then ∃ x, tc E x x else visited col r.2 ∧ r.2 !! tag = Some Black) as Hloop;
    [|apply (Hloop (edges tag) (<[tag := Gray]> col)); [done|done|by left|split; [by apply settled_gray|done|done]]].
  clear r Hv. induction ns as [|next ns IHns]; intros col1 r Hedge Hv Hrest V; cbn [visit_next] in Hv.
  - injection Hv as <-. cbn. split; [|apply lookup_insert_eq].
    assert (col1 !! tag = Some Gray) as Htag by (apply (vi_gray _ _ V); apply lookup_insert_eq).
    split.
    + apply settled_black; [apply V|congruence|]. intros y Hy. by destruct (Hrest y Hy) as [[]%elem_of_nil|?].
    + intros x Hx. rewrite lookup_insert_ne by congruence. apply (vi_black _ _ V).
      rewrite lookup_insert_ne by congruence. done.
    + intros x. destruct (base.decide (x = tag)) as [->|Hne].
      * rewrite lookup_insert_eq, Ht. done.
      * rewrite lookup_insert_ne by done. rewrite (vi_gray _ _ V). by rewrite lookup_insert_ne.
  - assert (E tag next) as Hnext by (apply Hedge; by left).
    assert (∀ y, y ∈ ns → E tag y) as Hedge' by (intros; apply Hedge; by right).
    destruct (col1 !! next) as [[]|] eqn:Hc.
    + injection Hv as <-. cbn. exists tag. apply (vi_gray _ _ V) in Hc. apply Hg' in Hc.
      apply (tc_rtc_r _ next); [by apply tc_once|done].
    + apply (IHns col1 r Hedge' Hv); [|done]. intros y Hy. destruct (Hrest y Hy) as [[->|?]%elem_of_cons|?]; auto.
    + destruct (visit edges fuel next col1) as [[err col2]|] eqn:Hvis; [|done]. cbn in Hv.
      assert (∀ g, col1 !! g = Some Gray → tc E g next) as Hg1.
      { intros g Hgray. apply (vi_gray _ _ V) in Hgray. apply (tc_rtc_l _ tag); [by apply Hg'|by apply tc_once]. }
      pose proof (IH next col1 _ Hvis Hc (vi_settled _ _ V) Hg1) as Hn. cbn in Hn.
      destruct err; [by injection Hv as <-|]. destruct Hn as [V2 Hb2].
      apply (IHns col2 r Hedge' Hv).
      * intros y Hy. destruct (Hrest y Hy) as [[->|?]%elem_of_cons|H]; auto. right. by apply (vi_black _ _ V2).
      * split; [apply V2| |]; [intros x Hx; by apply (vi_black _ _ V2), (vi_black _ _ V)|].
        intros x. by rewrite (vi_gray _ _ V2), (vi_gray _ _ V).
Qed.

Lemma visit_all_total fuel tags col : (∀ t, t ∈ tags → t ∈ N) → (length N ≤ fuel)%nat →
  ∃ r, visit_all edges fuel tags col = Some r.
Proof.
  intros Ht Hf. assert (∀ col, (size (white col) ≤ fuel)%nat) as Hw.
  { intros c. etrans; [apply subseteq_size, (subseteq_difference_l _ _ (list_to_set N)); done|].
    etrans; [apply size_list_to_set_le|done]. }
  revert col. induction tags as [|tag tags IH]; intros col; cbn [visit_all]; [by eexists|].
  assert (∀ t, t ∈ tags → t ∈ N) as Ht' by (intros; apply Ht; by right).
  destruct (col !! tag) eqn:Hc; [by apply IH|].
  destruct (visit_total fuel tag col) as ([[] c] & -> & _); [apply Ht; by left|done|done| |]; cbn; [by eexists|by apply IH].
Qed.

Lemma visit_all_spec fuel tags col r :
  visit_all edges fuel tags col = Some r → settled col → (∀ x, col !! x ≠ Some Gray) →
  if r.1 then ∃ x, tc E x x
  else settled r.2 ∧ (∀ x, col !! x = Some Black → r.2 !! x = Some Black) ∧ ∀ t, t ∈ tags → r.2 !! t = Some Black.
Proof.
  revert col. induction tags as [|tag tags IH]; intros col Hv Hs Hg; cbn [visit_all] in Hv.
  { injection Hv as <-. cbn. split; [done|]. split; [done|]. intros t []%elem_of_nil. }
  destruct (col !! tag) as [[]|] eqn:Hc; [by apply Hg in Hc| |].
  - specialize (IH col Hv Hs Hg). destruct r.1; [done|]. destruct IH as (S1 & S2 & S3). split; [done|].
    split; [done|]. intros t [->|?]%elem_of_cons; auto.
  - destruct (visit edges fuel tag col) as [[err c]|] eqn:Hvis; [|done]. cbn in Hv.
    pose proof (visit_spec fuel tag col _ Hvis Hc Hs) as H. cbn in H.
    specialize (H ltac:(intros g Hgr; by apply Hg in Hgr)). destruct err; [by injection Hv as <-|]. destruct H as [[V1 V2 V3] Hb].
    specialize (IH c Hv V1). destruct r.1.
    + apply IH. intros x Hx. apply V3 in Hx. by apply Hg in Hx.
    + destruct IH as (S1 & S2 & S3); [intros x Hx; apply V3 in Hx; by apply Hg in Hx|]. split; [done|].
      split; [intros; by apply S2, V2|]. intros t [->|?]%elem_of_cons; [by apply S2|by apply S3].
Qed.
End search.

(** One outbound lists another outbound of the set as a member. *)
Definition composite_edge (os : list Outbound) (a b : string) : Prop :=
  ∃ o, o ∈ os ∧ o_Tag o = a ∧ b ∈ o_Outbounds o ∧ b ∈ o_Tag <$> os.

Lemma elem_edges os a b : b ∈ edges os a ↔ composite_edge os a b.
Proof.
  unfold edges, composite_edge. rewrite list_elem_of_In, in_concat. split.
  - intros (l & Hl & Hb). apply list_elem_of_In, list_elem_of_fmap in Hl as (o & -> & Ho).
    apply list_elem_of_In in Hb. destruct (String.eqb (o_Tag o) a) eqn:E1; to_prop; [|by apply elem_of_nil in Hb].
    apply list_elem_of_filter in Hb as [? ?]. by exists o.
  - intros (o & Ho & Ha & Hb & Hin). eexists. split; [apply list_elem_of_In, list_elem_of_fmap; by exists o|].
    rewrite Ha, String.eqb_refl. apply list_elem_of_In, list_elem_of_filter. done.
Qed.

Lemma no_cycles_iff os : validateNoCompositeCycles os = None ↔ ∀ t, ¬ tc (composite_edge os) t t.
Proof.
  assert (∀ a b, E (edges os) a b ↔ composite_edge os a b) as He by apply elem_edges.
  assert (∀ a b, b ∈ edges os a → b ∈ o_Tag <$> os) as Hcl by (intros a b (o & _ & _ & _ & ?)%elem_edges; done).
  assert (∀ t u, tc (E (edges os)) t u ↔ tc (composite_edge os) t u) as Htc.
  { intros t u. split; induction 1; by econstructor; try apply He. }
  unfold validateNoCompositeCycles.
  destruct (visit_all_total (edges os) (o_Tag <$> os) Hcl (S (length os)) (o_Tag <$> os) ∅) as [r Hr];
    [done|rewrite length_fmap; lia|]. rewrite Hr.
  pose proof (visit_all_spec (edges os) _ _ _ _ Hr) as H. destruct r as [err col]. cbn in H.
  assert (settled (edges os) ∅) as S0 by (by split).
  specialize (H S0 ltac:(done)).
  destruct err.
  - split; [done|]. intros Hno. destruct H as [x Hx]. by apply Htc, Hno in Hx.
  - split; [|done]. intros _ t Ht. destruct H as ([_ Ha] & _ & Hall).
    assert (t ∈ o_Tag <$> os) as Hin.
    { clear -Ht. induction Ht as [x y (o & _ & _ & _ & ?)|]; done. }
    apply (Ha t); [by apply Hall|]. by apply Htc.
Qed.

(** C20: The check for circular dependencies terminates and accepts a set of outbounds
    exactly when no outbound reaches itself through members that are outbounds of the
    set. *)
Theorem no_composite_cycles (os : list Outbound) :
  validateNoCompositeCycles os = None ↔ ∀ t, ¬ tc (composite_edge os) t t.
Proof. apply no_cycles_iff. Qed.

(** ** References *)

(** The outbounds a rule names, nested rules included. *)
Fixpoint rule_refs (r : Rule) : list string :=
  r_Outbound r :: (fix go l := match l with [] => [] | r :: l => rule_refs r ++ go l end) (r_Rules r).

Lemma rule_refs_eq r : rule_refs r = r_Outbound r :: concat (rule_refs <$> r_Rules r).
Proof. destruct r as [? ? rs]. cbn. f_equal. induction rs as [|r rs IH]; [done|]. by rewrite fmap_cons, IH. Qed.

Definition outbound_tags_named (o : Outbound) : list string := o_Outbounds o ++ [o_Default o].

(** Every mention of an outbound in a configuration; an empty text is no mention. *)
Definition all_refs (c : RouterConfig) : list string :=
  concat (rule_refs <$> Rules c) ++ [Final c] ++ concat (outbound_tags_named <$> Outbounds c) ++
  (s_Detour <$> Servers c) ++ (rs_DownloadDetour <$> RuleSets c).

Lemma elem_all_refs c t : t ∈ all_refs c ↔
  (∃ r, r ∈ Rules c ∧ t ∈ rule_refs r) ∨ t = Final c ∨ (∃ o, o ∈ Outbounds c ∧ t ∈ outbound_tags_named o) ∨
  (∃ s, s ∈ Servers c ∧ t = s_Detour s) ∨ (∃ rs, rs ∈ RuleSets c ∧ t = rs_DownloadDetour rs).
Proof.
  unfold all_refs. rewrite !elem_of_app, !elem_concat_fmap, !list_elem_of_fmap, list_elem_of_singleton. naive_solver.
Qed.

Lemma ruleReferences_iff tag r : ruleReferencesOutbound tag r = true ↔ tag ∈ rule_refs r.
Proof.
  induction r as [r IH] using Rule_rose. rewrite rule_refs_eq, elem_of_cons, elem_concat_fmap.
  assert (ruleReferencesOutbound tag r = String.eqb (r_Outbound r) tag || existsb (ruleReferencesOutbound tag) (r_Rules r)) as ->
    by (destruct r; done).
  rewrite orb_true_iff, String.eqb_eq, existsb_exists. rewrite Forall_forall in IH. split.
  - intros [->|(x & Hx & Ht)]; [by left|right]. apply list_elem_of_In in Hx. exists x. split; [done|]. by apply IH.
  - intros [->|(x & Hx & Ht)]; [by left|right]. exists x. rewrite <- list_elem_of_In. split; [done|]. by apply IH.
Qed.

(** The scan for references finds every mention. *)
Lemma no_references tag c : outboundReferences tag c = [] ↔ tag ∉ all_refs c.
Proof.
  unfold outboundReferences, rulesReferencingOutbound. rewrite !app_nil, fmap_nil_iff, indices_nil.
  rewrite (positions_nil (λ s, String.eqb (s_Detour s) tag) (λ i s, RefDnsDetour i (s_Tag s))).
  rewrite (positions_nil (λ rs, String.eqb (rs_DownloadDetour rs) tag) (λ i rs, RefDownload i (rs_Tag rs))).
  rewrite concat_nil_Forall, Forall_forall, elem_all_refs.
  assert (∀ a b : string, String.eqb a b = false ↔ a ≠ b) as Hne by apply String.eqb_neq.
  setoid_rewrite Hne. split.
  - intros (H1 & H2 & H3 & H4 & H5) [(r & Hr & Ht)|[->|[(o & Ho & Ht)|[(s & Hs & ->)|(rs & Hrs & ->)]]]].
    + apply ruleReferences_iff in Ht. by rewrite (H1 r Hr) in Ht.
    + by rewrite String.eqb_refl in H2.
    + apply list_elem_of_lookup in Ho as [i Hi]. assert (outbound_refs tag i o ∈ imap (outbound_refs tag) (Outbounds c)) as Hin.
      { apply list_elem_of_lookup. exists i. by rewrite list_lookup_imap, Hi. }
      apply H3 in Hin. unfold outbound_refs in Hin. rewrite app_nil, fmap_nil_iff, indices_nil in Hin.
      destruct Hin as [Hm Hd]. unfold outbound_tags_named in Ht. apply elem_of_app in Ht as [Ht|Ht%list_elem_of_singleton].
      * specialize (Hm _ Ht). by rewrite String.eqb_refl in Hm.
      * subst. by rewrite String.eqb_refl in Hd.
    + by apply (H4 s).
    + by apply (H5 rs).
  - intros H. split_and!.
    + intros r Hr. apply not_true_iff_false. intros Ht%ruleReferences_iff. apply H. eauto.
    + destruct (String.eqb (Final c) tag) eqn:E1; [|done]. to_prop. exfalso. apply H. right; left. done.
    + intros l Hl. apply list_elem_of_lookup in Hl as [i Hi]. rewrite list_lookup_imap in Hi.
      destruct (Outbounds c !! i) as [o|] eqn:Ho; [|done]. injection Hi as <-. apply list_elem_of_lookup_2 in Ho.
      assert (tag ∉ outbound_tags_named o) as Hn by (intros Ht; apply H; right; right; left; by exists o).
      unfold outbound_tags_named in Hn. unfold outbound_refs. rewrite app_nil, fmap_nil_iff, indices_nil. split.
      * intros m Hm. apply String.eqb_neq. intros ->. set_solver.
      * destruct (String.eqb (o_Default o) tag) eqn:E1; [|done]. to_prop. subst. set_solver.
    + intros s Hs <-. apply H. do 3 right. left. by exists s.
    + intros rs Hrs <-. apply H. do 4 right. by exists rs.
Qed.

(** *** Renaming *)

Lemma rename_in_rule_refs old new r t : t ∈ rule_refs (renameOutboundRefsInRule old new r) →
  t = new ∨ (t ∈ rule_refs r ∧ t ≠ old).
Proof.
  revert t. induction r as [r IH] using Rule_rose. intros t.
  assert (∃ b : bool, renameOutboundRefsInRule old new r =
    set_r_Rules (renameOutboundRefsInRule old new <$> r_Rules r) (if b then set_r_Outbound new r else r) ∧
    (b = false → r_Outbound r ≠ old)) as (b & -> & Hb).
  { exists (String.eqb (r_Outbound r) old). split; [by destruct r|apply String.eqb_neq]. }
  rewrite !rule_refs_eq, !elem_of_cons, !elem_concat_fmap. rewrite Forall_forall in IH. intros [->|(x & Hx & Ht)].
  - destruct b; [by left|right]. split; [by left|by apply Hb].
  - assert (x ∈ renameOutboundRefsInRule old new <$> r_Rules r) as (y & -> & Hy)%list_elem_of_fmap by by destruct b.
    destruct (IH y Hy t Ht) as [?|[? ?]]; [by left|right]. split; [right|done]. by exists y.
Qed.

Lemma rename_in_outbound_fields old new o :
  o_Outbounds (rename_in_outbound old new o) = rewriteTagSlice (o_Outbounds o) old new ∧
  o_Default (rename_in_outbound old new o) = (if String.eqb (o_Default o) old then new else o_Default o).
Proof. unfold rename_in_outbound. cbn [o_Default set_o_Outbounds]. by destruct (String.eqb _ _). Qed.

Lemma rename_in_outbound_refs old new o t : t ∈ outbound_tags_named (rename_in_outbound old new o) →
  t = new ∨ (t ∈ outbound_tags_named o ∧ (t ≠ old ∨ old = "" ∨ new = "")).
Proof.
  destruct (rename_in_outbound_fields old new o) as [E1 E2]. unfold outbound_tags_named. rewrite E1, E2.
  rewrite !elem_of_app, !list_elem_of_singleton. intros [[?|[? ?]]%rewriteTagSlice_elem|Ht]; auto.
  destruct (String.eqb (o_Default o) old) eqn:E; to_prop; subst; auto.
Qed.

Lemma rename_refs old new c t : t ∈ all_refs (renameOutboundReferences old new c) →
  t = new ∨ (t ∈ all_refs c ∧ (t ≠ old ∨ old = "" ∨ new = "")).
Proof.
  assert (∃ f, renameOutboundReferences old new c =
    {| Outbounds := rename_in_outbound old new <$> Outbounds c;
       Servers := (λ s, if String.eqb (s_Detour s) old then set_s_Detour new s else s) <$> Servers c;
       DNSRules := DNSRules c; DNSFinal := DNSFinal c; DNSStrategy := DNSStrategy c;
       RuleSets := (λ rs, if String.eqb (rs_DownloadDetour rs) old then set_rs_DownloadDetour new rs else rs) <$> RuleSets c;
       Rules := renameOutboundRefsInRule old new <$> Rules c; Final := f;
       AutoDetectInterface := AutoDetectInterface c; DefaultInterface := DefaultInterface c;
       DefaultDomainResolver := DefaultDomainResolver c |} ∧ (f = new ∨ f = Final c ∧ f ≠ old)) as (f & -> & Hfin).
  { exists (if String.eqb (Final c) old then new else Final c). unfold renameOutboundReferences.
    cbn [Final set_Rules]. destruct (String.eqb (Final c) old) eqn:Ef; to_prop; auto. }
  rewrite !elem_all_refs. cbn. intros [(r & Hr & Ht)|[->|[(o & Ho & Ht)|[(s & Hs & ->)|(rs & Hrs & ->)]]]].
  - apply list_elem_of_fmap in Hr as (r0 & -> & Hr). apply rename_in_rule_refs in Ht as [?|[? ?]]; [by left|right].
    split; [left; by exists r0|by left].
  - destruct Hfin as [?|[-> ?]]; [by left|right; auto].
  - apply list_elem_of_fmap in Ho as (o0 & -> & Ho). apply rename_in_outbound_refs in Ht as [?|[? ?]]; [by left|right].
    split; [right; right; left; by exists o0|done].
  - apply list_elem_of_fmap in Hs as (s0 & -> & Hs). destruct (String.eqb (s_Detour s0) old) eqn:E1; [by left|]. to_prop.
    right. split; [|by left]. do 3 right. left. by exists s0.
  - apply list_elem_of_fmap in Hrs as (rs0 & -> & Hrs). destruct (String.eqb (rs_DownloadDetour rs0) old) eqn:E1; [by left|]. to_prop.
    right. split; [|by left]. do 4 right. by exists rs0.
Qed.

Lemma rename_tags old new c : o_Tag <$> Outbounds (renameOutboundReferences old new c) = o_Tag <$> Outbounds c.
Proof.
  assert (Outbounds (renameOutboundReferences old new c) = rename_in_outbound old new <$> Outbounds c) as ->
    by (unfold renameOutboundReferences; cbn [Final set_Rules]; by destruct (String.eqb (Final c) old)).
  rewrite <- list_fmap_compose. apply list_fmap_ext. intros i o _. cbn. unfold rename_in_outbound.
  cbn [o_Default set_o_Outbounds]. by destruct (String.eqb _ _).
Qed.

(** *** Removing *)

Lemma remove_in_rule_eq tag r : removeOutboundRefsInNestedRules tag r = set_r_Rules ((λ r0,
    let r' := removeOutboundRefsInNestedRules tag r0 in
    if String.eqb (r_Outbound r0) tag then set_r_Outbound "" r' else r') <$> r_Rules r) r.
Proof. by destruct r. Qed.

(** The nested rules that named the outbound name none. *)
Lemma remove_nested_refs tag r t : t ∈ concat (rule_refs <$> r_Rules (removeOutboundRefsInNestedRules tag r)) →
  t = "" ∨ (t ∈ concat (rule_refs <$> r_Rules r) ∧ t ≠ tag).
Proof.
  revert t. induction r as [r IH] using Rule_rose. intros t. rewrite Forall_forall in IH. rewrite remove_in_rule_eq.
  rewrite !elem_concat_fmap. intros (x & (y & -> & Hy)%list_elem_of_fmap & Ht). cbv zeta in Ht. specialize (IH y Hy t).
  destruct (String.eqb (r_Outbound y) tag) eqn:E1; to_prop; rewrite rule_refs_eq in Ht; apply elem_of_cons in Ht as [->|Ht].
  - by left.
  - destruct IH as [?|[Hin ?]]; [done|by left|right]. split; [|done]. exists y. split; [done|]. rewrite rule_refs_eq. by right.
  - right. assert (r_Outbound (removeOutboundRefsInNestedRules tag y) = r_Outbound y) as -> by by destruct y.
    split; [|done]. exists y. split; [done|]. rewrite rule_refs_eq. by left.
  - destruct IH as [?|[Hin ?]]; [done|by left|right]. split; [|done]. exists y. split; [done|]. rewrite rule_refs_eq. by right.
Qed.

Lemma remove_in_rule_refs tag r t : t ∈ rule_refs (removeOutboundRefsInNestedRules tag r) → r_Outbound r ≠ tag →
  t = "" ∨ (t ∈ rule_refs r ∧ t ≠ tag).
Proof.
  rewrite rule_refs_eq. intros [->|Ht]%elem_of_cons Hr.
  - right. assert (r_Outbound (removeOutboundRefsInNestedRules tag r) = r_Outbound r) as -> by by destruct r.
    split; [|done]. rewrite rule_refs_eq. by left.
  - apply remove_nested_refs in Ht as [?|[? ?]]; [by left|right]. split; [|done]. rewrite rule_refs_eq. by right.
Qed.

Lemma remove_in_outbound_fields tag o :
  o_Outbounds (remove_in_outbound tag o) = removeTagRefs (o_Outbounds o) tag ∧
  o_Default (remove_in_outbound tag o) = (if String.eqb (o_Default o) tag then "" else o_Default o) ∧
  o_Tag (remove_in_outbound tag o) = o_Tag o.
Proof. unfold remove_in_outbound. cbn [o_Default set_o_Outbounds]. by destruct (String.eqb _ _). Qed.

Lemma remove_in_outbound_refs tag o t : t ∈ outbound_tags_named (remove_in_outbound tag o) →
  t = "" ∨ (t ∈ outbound_tags_named o ∧ t ≠ tag).
Proof.
  destruct (remove_in_outbound_fields tag o) as (E1 & E2 & _). unfold outbound_tags_named, removeTagRefs in *. rewrite E1, E2.
  rewrite !elem_of_app, !list_elem_of_singleton, list_elem_of_filter. intros [[? ?]|Ht]; [auto|].
  destruct (String.eqb (o_Default o) tag) eqn:E; to_prop; subst; auto.
Qed.

(** What is left of a configuration an outbound is removed from. *)
Lemma remove_refs_eq tag c : ∃ f, removeOutboundReferences tag c =
    {| Outbounds := remove_in_outbound tag <$> Outbounds c;
       Servers := (λ s, if String.eqb (s_Detour s) tag then set_s_Detour "" s else s) <$> Servers c;
       DNSRules := DNSRules c; DNSFinal := DNSFinal c; DNSStrategy := DNSStrategy c;
       RuleSets := (λ rs, if String.eqb (rs_DownloadDetour rs) tag then set_rs_DownloadDetour "" rs else rs) <$> RuleSets c;
       Rules := removeOutboundRefsInNestedRules tag <$> filter (λ r, r_Outbound r ≠ tag) (Rules c); Final := f;
       AutoDetectInterface := AutoDetectInterface c; DefaultInterface := DefaultInterface c;
       DefaultDomainResolver := DefaultDomainResolver c |} ∧
    f = (if String.eqb (Final c) tag then "direct" else Final c).
Proof.
  eexists. split; [|done]. unfold removeOutboundReferences. cbn [Final set_Rules]. by destruct (String.eqb (Final c) tag).
Qed.

Lemma remove_refs tag c t : t ∈ all_refs (removeOutboundReferences tag c) →
  t = "" ∨ t = "direct" ∨ (t ∈ all_refs c ∧ t ≠ tag).
Proof.
  destruct (remove_refs_eq tag c) as (f & -> & ->). rewrite !elem_all_refs. cbn [Rules Final Outbounds Servers RuleSets].
  intros [(r & Hr & Ht)|[->|[(o & Ho & Ht)|[(s & Hs & ->)|(rs & Hrs & ->)]]]].
  - apply list_elem_of_fmap in Hr as (r0 & -> & [Hne Hr]%list_elem_of_filter).
    apply remove_in_rule_refs in Ht as [?|[? ?]]; [by left| |done].
    right; right. split; [left; by exists r0|done].
  - destruct (String.eqb (Final c) tag) eqn:E1; to_prop; auto 10.
  - apply list_elem_of_fmap in Ho as (o0 & -> & Ho).
    apply remove_in_outbound_refs in Ht as [?|[? ?]]; [by left|right; right].
    split; [right; right; left; by exists o0|done].
  - apply list_elem_of_fmap in Hs as (s0 & -> & Hs). destruct (String.eqb (s_Detour s0) tag) eqn:E1; [by left|]. to_prop.
    right; right. split; [|done]. do 3 right. left. by exists s0.
  - apply list_elem_of_fmap in Hrs as (rs0 & -> & Hrs). destruct (String.eqb (rs_DownloadDetour rs0) tag) eqn:E1; [by left|].
    to_prop. right; right. split; [|done]. do 4 right. by exists rs0.
Qed.

Lemma remove_tags tag c : o_Tag <$> Outbounds (removeOutboundReferences tag c) = o_Tag <$> Outbounds c.
Proof.
  destruct (remove_refs_eq tag c) as (f & -> & _). cbn. rewrite <- list_fmap_compose. apply list_fmap_ext.
  intros i o _. apply remove_in_outbound_fields.
Qed.

(** ** Edits of the outbounds *)

Definition tags (c : RouterConfig) : list string := o_Tag <$> Outbounds c.

(** The outbounds have distinct tags and no cycle, and whatever the configuration
    names is an outbound of it or of [ext], the other catalogues. *)
Record sound (ext : string → Prop) (c : RouterConfig) : Prop := {
  so_nodup : NoDup (tags c);
  so_refs : ∀ t, t ∈ all_refs c → t = "" ∨ ext t ∨ t ∈ tags c;
  so_acyclic : ∀ t, ¬ tc (composite_edge (Outbounds c)) t t;
}.

Inductive outbound_edit :=
  | EAdd (o : Outbound)
  | EUpdate (tag : string) (o : Outbound)
  | EDelete (tag : string) (force : bool).

Section edits.
Context `{U : GoUnicode}.

Definition edit_outbounds (catalog bindable : string → bool) (e : outbound_edit) (c : RouterConfig) : result :=
  match e with
  | EAdd o => serviceAddCompositeOutbound catalog bindable o c
  | EUpdate tag o => serviceUpdateCompositeOutbound catalog bindable tag o c
  | EDelete tag force => DeleteCompositeOutbound tag force c
  end.

(** The edit as [withConfig] runs it: what is written has passed the search for cycles. *)
Definition persist_outbounds (r : result) : result :=
  match r with
  | inl e => inl e
  | inr c => match validateNoCompositeCycles (Outbounds c) with Some e => inl e | None => inr c end
  end.

(** The new outbound names itself, what is known, or nothing. *)
Definition names_known (ext : string → Prop) (c : RouterConfig) (e : outbound_edit) : Prop :=
  match e with
  | EAdd o | EUpdate _ o => ∀ t, t ∈ outbound_tags_named o → t = "" ∨ ext t ∨ t = o_Tag o ∨ t ∈ tags c
  | EDelete _ _ => True
  end.

(** What an edit names without a check that it exists: the default of its outbound, and
    the members when it is neither a selector nor a URL test. *)
Definition unchecked (e : outbound_edit) (t : string) : Prop :=
  match e with
  | EAdd o | EUpdate _ o => t = o_Default o ∨ checks_members o = false ∧ t ∈ o_Outbounds o
  | EDelete _ _ => False
  end.

(** [ext] has the names the program knows outside the configuration. *)
Definition catalogued (catalog : string → bool) (ext : string → Prop) : Prop :=
  (∀ t, t ∈ ["direct"; "block"; "dns"] → ext t) ∧ ∀ t, catalog t = true → ext t.

Lemma members_checked catalog o c ext : catalogued catalog ext → validateCompositeMembers catalog o c = None →
  ∀ t, t ∈ outbound_tags_named o →
  t = "" ∨ (ext t ∨ (t = o_Default o ∨ checks_members o = false ∧ t ∈ o_Outbounds o)) ∨ t = o_Tag o ∨ t ∈ tags c.
Proof.
  intros [Hb Hc] Hv t Ht. unfold outbound_tags_named in Ht. apply elem_of_app in Ht as [Ht|Ht].
  2:{ apply list_elem_of_singleton in Ht. auto. }
  unfold validateCompositeMembers in Hv. destruct (checks_members o) eqn:Ec; [|right; left; right; by right]. cbn [negb] in Hv.
  destruct (forallb _ _) eqn:Ef; [|done]. rewrite forallb_forall in Ef. specialize (Ef t ltac:(by apply list_elem_of_In)).
  apply orb_true_iff in Ef as [E|E]; to_prop; [by auto|]. unfold isKnownOutboundTag in E.
  apply orb_true_iff in E as [E|E]; [|right; left; left; by apply Hc]. apply orb_true_iff in E as [E|E];
    [apply bool_decide_eq_true in E; right; left; left; by apply Hb|].
  right; right; right. apply existsb_exists in E as (x & Hx & Et). apply String.eqb_eq in Et as <-.
  apply list_elem_of_fmap. exists x. split; [done|by apply list_elem_of_In].
Qed.

Lemma edit_checked catalog bindable e c c' ext : catalogued catalog ext → edit_outbounds catalog bindable e c = inr c' →
  names_known (λ t, ext t ∨ unchecked e t) c e ∧
  match e with
  | EAdd o => AddCompositeOutbound o c
  | EUpdate tag o => UpdateCompositeOutbound tag o c
  | EDelete tag force => DeleteCompositeOutbound tag force c
  end = inr c'.
Proof.
  intros Hcat. destruct e as [o|tag o|tag force]; cbn [edit_outbounds]; [unfold serviceAddCompositeOutbound|unfold serviceUpdateCompositeOutbound|done];
    destruct (check_bind bindable o); [done|cbn [or_else]|done|cbn [or_else]];
    (destruct (validateCompositeMembers catalog o c) eqn:Ev; [done|]); (split; [|done]); exact (members_checked _ _ _ _ Hcat Ev).
Qed.

(** An outbound's old tag is named nowhere after the edit, unless it stays its tag. *)
Definition old_tag_gone (e : outbound_edit) (c' : RouterConfig) : Prop :=
  match e with
  | EAdd _ => True
  | EUpdate tag o => tag ≠ "" → tag ≠ o_Tag o → tag ∉ all_refs c' ∧ tag ∉ tags c'
  | EDelete tag _ => tag ≠ "" → tag ≠ "direct" → tag ∉ all_refs c' ∧ tag ∉ tags c'
  end.

Lemma all_refs_set_Outbounds os c t : t ∈ all_refs (set_Outbounds os c) →
  t ∈ all_refs c ∨ ∃ o, o ∈ os ∧ t ∈ outbound_tags_named o.
Proof. rewrite !elem_all_refs. cbn. naive_solver. Qed.

Lemma validateOutbound_tag o : validateOutbound o = None → o_Tag o ≠ "".
Proof.
  unfold validateOutbound, validateInterfaceOutbound, validateCompositeOutbound. intros H E1. rewrite E1 in H.
  rewrite (TrimSpace_ascii "" eq_refl) in H. by destruct (is_direct (o_Type o)).
Qed.

Lemma persist_inr r c : persist_outbounds r = inr c → r = inr c ∧ ∀ t, ¬ tc (composite_edge (Outbounds c)) t t.
Proof.
  unfold persist_outbounds. destruct r as [e|c0]; [done|].
  destruct (validateNoCompositeCycles (Outbounds c0)) eqn:E1; [done|]. intros [= <-]. split; [done|]. by apply no_cycles_iff.
Qed.

Lemma add_parts o c c' : AddCompositeOutbound o c = inr c' →
  o_Tag o ≠ "" ∧ o_Tag o ∉ tags c ∧ c' = set_Outbounds (Outbounds c ++ [o]) c.
Proof.
  unfold AddCompositeOutbound. destruct (validateOutbound o) eqn:Ev; [done|].
  destruct (existsb _ _) eqn:Ex; [done|]. destruct (validateNoCompositeCycles _); [done|]. intros [= <-].
  split; [by apply validateOutbound_tag|]. split; [|done]. intros (x & Hx & Hin)%list_elem_of_fmap.
  apply not_true_iff_false in Ex. apply Ex, existsb_exists. exists x. split; [by apply list_elem_of_In|].
  by apply String.eqb_eq.
Qed.

Lemma update_parts tag o c c' : UpdateCompositeOutbound tag o c = inr c' →
  o_Tag o ≠ "" ∧ ∃ idx x, Outbounds c !! idx = Some x ∧ o_Tag x = tag ∧ (tag ≠ o_Tag o → o_Tag o ∉ tags c) ∧
  c' = (if String.eqb tag (o_Tag o) then set_Outbounds (<[idx := o]> (Outbounds c)) c
        else renameOutboundReferences tag (o_Tag o) (set_Outbounds (<[idx := o]> (Outbounds c)) c)).
Proof.
  unfold UpdateCompositeOutbound. destruct (validateOutbound o) eqn:Ev; [done|].
  destruct (find_tag _ _ _ _ _ _) as [|[idx|]] eqn:Ef; [done| |done].
  destruct (validateNoCompositeCycles _); [done|]. intros [= <-]. split; [by apply validateOutbound_tag|].
  apply find_tag_some in Ef as [(x & Hx & Ht) Hfree]. by exists idx, x.
Qed.

Lemma delete_parts tag force c c' : DeleteCompositeOutbound tag force c = inr c' →
  let c1 := set_Outbounds (filter (λ o, o_Tag o ≠ tag) (Outbounds c)) c in
  if force then c' = removeOutboundReferences tag c1 else tag ∉ all_refs c ∧ c' = c1.
Proof.
  unfold DeleteCompositeOutbound. destruct force; [rewrite andb_false_r; by intros [= <-]|]. rewrite andb_true_r.
  destruct (outboundReferences tag c) as [|x l] eqn:Er; [|done]. intros [= <-]. split; [by apply no_references|done].
Qed.

Lemma tags_filter tag c : tags (set_Outbounds (filter (λ o, o_Tag o ≠ tag) (Outbounds c)) c) = filter (.≠ tag) (tags c).
Proof.
  unfold tags. cbn. exact (fmap_filter o_Tag (.≠ tag) (Outbounds c)).
Qed.

Lemma refs_filter tag c t : t ∈ all_refs (set_Outbounds (filter (λ o, o_Tag o ≠ tag) (Outbounds c)) c) → t ∈ all_refs c.
Proof.
  intros [?|(o & [_ Ho]%list_elem_of_filter & Ht)]%all_refs_set_Outbounds; [done|]. apply elem_all_refs. right; right; left. by exists o.
Qed.

(** The tags of an edited configuration are distinct, and what it names is known. *)
Lemma add_sound ext o c c' : NoDup (tags c) → (∀ t, t ∈ all_refs c → t = "" ∨ ext t ∨ t ∈ tags c) →
  names_known ext c (EAdd o) → AddCompositeOutbound o c = inr c' →
  NoDup (tags c') ∧ ∀ t, t ∈ all_refs c' → t = "" ∨ ext t ∨ t ∈ tags c'.
Proof.
  intros Hnd Hr Hk (Hne & Hfree & ->)%add_parts. unfold tags in *. cbn [Outbounds set_Outbounds]. rewrite fmap_app. split.
  - apply NoDup_app. split; [done|]. split; [|apply NoDup_singleton]. intros t Ht ->%list_elem_of_singleton. done.
  - intros t [Ht|(o' & [Ho| ->%list_elem_of_singleton]%elem_of_app & Ht)]%all_refs_set_Outbounds; rewrite elem_of_app.
    + destruct (Hr t Ht) as [?|[?|?]]; auto.
    + destruct (Hr t) as [?|[?|?]]; auto. apply elem_all_refs. right; right; left. by exists o'.
    + destruct (Hk t Ht) as [?|[?|[->|?]]]; auto. right; right; right. by left.
Qed.

Lemma update_sound ext tag o c c' : NoDup (tags c) → (∀ t, t ∈ all_refs c → t = "" ∨ ext t ∨ t ∈ tags c) →
  names_known ext c (EUpdate tag o) → UpdateCompositeOutbound tag o c = inr c' →
  NoDup (tags c') ∧ (∀ t, t ∈ all_refs c' → t = "" ∨ ext t ∨ t ∈ tags c') ∧ old_tag_gone (EUpdate tag o) c'.
Proof.
  intros Hnd Hr Hk (Hne & idx & x & Hx & Hxt & Hfree & Hc')%update_parts.
  set (c1 := set_Outbounds (<[idx := o]> (Outbounds c)) c) in *.
  assert (tags c !! idx = Some tag) as Htag by (unfold tags; by rewrite list_lookup_fmap, Hx; cbn; rewrite Hxt).
  assert (tags c' = <[idx := o_Tag o]> (tags c)) as Et.
  { transitivity (tags c1); [rewrite Hc'; destruct (String.eqb tag (o_Tag o)); [done|apply rename_tags]|].
    unfold tags. cbn. by rewrite list_fmap_insert. }
  assert (o_Tag o ∈ tags c') as Hnew.
  { rewrite Et. apply list_elem_of_insert. by eapply lookup_lt_Some. }
  assert (∀ t, t ∈ all_refs c1 → t = "" ∨ ext t ∨ t = o_Tag o ∨ t ∈ tags c) as Hr1.
  { intros t [Ht|(o' & [->|Ho]%elem_insert_inv & Ht)]%all_refs_set_Outbounds; [|by apply Hk|].
    - destruct (Hr t Ht) as [?|[?|?]]; auto.
    - destruct (Hr t) as [?|[?|?]]; auto. apply elem_all_refs. right; right; left. by exists o'. }
  split_and!.
  - rewrite Et. apply (NoDup_insert _ _ tag); [done..|]. intros H. by apply Hfree.
  - destruct (String.eqb tag (o_Tag o)) eqn:E1; to_prop; intros t Ht; rewrite Hc' in Ht.
    + destruct (Hr1 t Ht) as [?|[?|[->|?]]]; auto. right; right. rewrite Et, <- E1, list_insert_id; done.
    + apply rename_refs in Ht as [->|[Ht Hor]]; [by auto|]. destruct (Hr1 t Ht) as [?|[?|[->|Hin]]]; auto.
      destruct (base.decide (t = "")) as [->|Hnt]; [by left|]. right; right. rewrite Et.
      apply (elem_insert _ _ tag); [done..|]. destruct Hor as [?|[->|?]]; congruence.
  - cbn. intros H0 H1. apply String.eqb_neq in H1 as E1. rewrite E1 in Hc'. split.
    + rewrite Hc'. intros [?|[_ [?|[?|?]]]]%rename_refs; congruence.
    + rewrite Et. intros [j Hj]%list_elem_of_lookup. apply list_lookup_insert_Some in Hj as [(_ & ? & _)|[Hne' Hj]]; [done|].
      apply Hne'. by eapply NoDup_lookup.
Qed.

Lemma delete_sound ext tag force c c' : ext "direct" →
  NoDup (tags c) → (∀ t, t ∈ all_refs c → t = "" ∨ ext t ∨ t ∈ tags c) → DeleteCompositeOutbound tag force c = inr c' →
  NoDup (tags c') ∧ (∀ t, t ∈ all_refs c' → t = "" ∨ ext t ∨ t ∈ tags c') ∧ old_tag_gone (EDelete tag force) c'.
Proof.
  intros Hd Hnd Hr Hc'%delete_parts. set (c1 := set_Outbounds _ c) in *.
  assert (tags c' = filter (.≠ tag) (tags c)) as Et.
  { destruct force; [rewrite Hc'; etrans; [apply remove_tags|]|destruct Hc' as [_ ->]]; apply tags_filter. }
  assert (∀ t, t ∈ all_refs c' → t = "" ∨ t = "direct" ∨ (t ∈ all_refs c ∧ t ≠ tag)) as Hrefs.
  { intros t Ht. destruct force.
    - rewrite Hc' in Ht. apply remove_refs in Ht as [?|[?|[Ht ?]]]; auto. right; right. split; [by eapply refs_filter|done].
    - destruct Hc' as [Hno ->]. right; right. apply refs_filter in Ht. split; [done|]. by intros ->. }
  split_and!.
  - rewrite Et. by apply NoDup_filter.
  - intros t Ht. destruct (Hrefs t Ht) as [?|[->|[Hin ?]]]; auto. destruct (Hr t Hin) as [?|[?|?]]; auto.
    right; right. rewrite Et. apply list_elem_of_filter. done.
  - cbn. intros H0 H1. split; [intros Ht; by destruct (Hrefs _ Ht) as [?|[?|[_ ?]]]|].
    rewrite Et. intros [? _]%list_elem_of_filter. done.
Qed.

(** C11: An edit of the outbounds (adding, updating or renaming, deleting) that is written
    leaves a sound configuration sound: tags are distinct, no outbound reaches itself, and
    every outbound that a rule, a member list, a default, a detour or the final route names
    exists, here or in another catalogue, except what the edited outbound itself names as
    its default, or as a member when it is neither a selector nor a URL test: these the
    program does not look up ([unknown_default_accepted]). A renamed or deleted outbound is
    named nowhere any more. *)
Theorem outbound_edits_sound (catalog bindable : string → bool) (ext : string → Prop) (e : outbound_edit) (c c' : RouterConfig)
    (Hcat : catalogued catalog ext) (Hsound : sound ext c)
    (Hedit : persist_outbounds (edit_outbounds catalog bindable e c) = inr c') :
  sound (λ t, ext t ∨ unchecked e t) c' ∧ old_tag_gone e c'.
Proof.
  destruct Hsound as [S1 S2 _]. apply persist_inr in Hedit as [Hedit Hac].
  set (ext' := λ t, ext t ∨ unchecked e t). apply (edit_checked _ _ _ _ _ ext Hcat) in Hedit as [Hk Hedit].
  assert (∀ t, t ∈ all_refs c → t = "" ∨ ext' t ∨ t ∈ tags c) as S2' by (intros t Ht; unfold ext'; destruct (S2 t Ht) as [?|[?|?]]; auto).
  destruct e as [o|tag o|tag force].
  - destruct (add_sound ext' o c c') as [? ?]; done.
  - destruct (update_sound ext' tag o c c') as (? & ? & ?); done.
  - destruct (delete_sound ext' tag force c c') as (? & ? & ?); try done. apply or_introl, (proj1 Hcat). by left.
Qed.
End edits.
