(* ===== verification/SbRulesProps.v ===== *)
(** * Route rules and rule sets: order, system rules, references

    Moving a rule, the upkeep of the system rules, and the rule sets the rules name. *)
From S2P Require Import Prelude GoLib GoText SbJson SbRouter SbRouterLib.

(** ** System rules *)

(** A sniff rule has no matcher, so it is no other system rule. *)
Lemma private_not_sniff r : isSystemPrivateRule r = true → isSystemSniffRule r = false.
Proof.
  unfold isSystemPrivateRule, isSystemSniffRule, hasAnyMatcher. destruct (IPIsPrivate r) as [[]|]; [|done|done]. intros _.
  apply andb_false_iff. right. apply negb_false_iff. rewrite !orb_true_iff. left; left; right. done.
Qed.

Lemma hijack_not_sniff r : isSystemHijackRule r = true → isSystemSniffRule r = false.
Proof.
  unfold isSystemHijackRule, isSystemSniffRule. destruct (String.eqb (r_Action r) "sniff") eqn:E1; [|done]. to_prop.
  rewrite E1. done.
Qed.

(** The rules that [EnsureSystemRules] neither adds nor drops. *)
Definition other_rule (r : Rule) : bool :=
  negb (isSystemSniffRule r || isSystemHijackRule r || isSystemPrivateRule r).

Definition has (p : Rule → bool) (rules : list Rule) : Prop := existsb p rules = true.

(** What [EnsureSystemRules] promises of the rules. *)
Record settled_rules (sniffer : bool) (rules : list Rule) : Prop := {
  sr_sniff : existsb isSystemSniffRule rules = sniffer;
  sr_hijack : has isSystemHijackRule rules;
  sr_private : has isSystemPrivateRule rules;
}.

Lemma ensure_id b rules : settled_rules b rules → ensure_rules b rules = rules.
Proof.
  intros [Hs Hh Hp]. unfold ensure_rules. rewrite Hs, Hp. unfold has in Hh.
  destruct (find_index isSystemHijackRule rules) as [i|] eqn:Ef; [|apply find_index_None in Ef; congruence].
  by destruct b; cbn [negb andb]; rewrite Ef.
Qed.

(** The rules after the sniff rules are dropped, and what is put in front. *)
Definition kept_rules (b : bool) (rules : list Rule) : list Rule :=
  if negb b && existsb isSystemSniffRule rules then filter (λ r, isSystemSniffRule r = false) rules else rules.
Definition added_sniff (b : bool) (rules : list Rule) : list Rule :=
  if b && negb (existsb isSystemSniffRule rules) then [sniff_rule] else [].

Lemma kept_sniff b rules : existsb isSystemSniffRule (added_sniff b rules ++ kept_rules b rules) = b.
Proof.
  rewrite existsb_app. unfold added_sniff, kept_rules.
  destruct b; cbn [andb negb]; destruct (existsb isSystemSniffRule rules) eqn:E1; cbn [negb]; rewrite ?E1; try done.
  apply existsb_filter_self.
Qed.

Lemma kept_existsb b q rules : (∀ r, q r = true → isSystemSniffRule r = false) →
  existsb q (added_sniff b rules ++ kept_rules b rules) = existsb q rules.
Proof.
  intros Hq. rewrite existsb_app. unfold added_sniff, kept_rules.
  assert (q sniff_rule = false) as Hs by (destruct (q sniff_rule) eqn:E1; [by apply Hq in E1|done]).
  destruct b; cbn [andb negb]; destruct (existsb isSystemSniffRule rules) eqn:E1; cbn [negb existsb]; rewrite ?Hs; try done.
  cbn [orb]. by apply existsb_filter_neg.
Qed.

Lemma ensure_eq b rules : ensure_rules b rules =
  let base := added_sniff b rules ++ kept_rules b rules in
  let '(l, i) := match find_index isSystemHijackRule base with
    | Some i => (base, i)
    | None => (added_sniff b rules ++ hijack_rule :: kept_rules b rules, length (added_sniff b rules))
    end in
  if existsb isSystemPrivateRule rules then l else insert_at (S i) private_rule l.
Proof.
  unfold ensure_rules. fold (kept_rules b rules) (added_sniff b rules). cbv zeta.
  assert (find_index isSystemHijackRule (added_sniff b rules ++ kept_rules b rules) =
    (λ i, i + length (added_sniff b rules))%nat <$> find_index isSystemHijackRule (kept_rules b rules)) as ->.
  { unfold added_sniff. destruct (b && negb _); cbn [length app find_index].
    - assert (isSystemHijackRule sniff_rule = false) as -> by done.
      destruct (find_index _ _); cbn; [f_equal; lia|done].
    - destruct (find_index _ _); cbn; [f_equal; lia|done]. }
  destruct (find_index isSystemHijackRule (kept_rules b rules)); cbn [fmap option_fmap option_map];
    rewrite ?existsb_app, <- ?app_assoc; done.
Qed.

Definition other_rules (rules : list Rule) : list Rule := filter (λ r, other_rule r = true) rules.

Lemma other_rules_app l1 l2 : other_rules (l1 ++ l2) = other_rules l1 ++ other_rules l2.
Proof. apply filter_app. Qed.

Lemma other_rules_skip x l : other_rule x = false → other_rules (x :: l) = other_rules l.
Proof. intros H. unfold other_rules. apply filter_cons_False. congruence. Qed.

Lemma other_rules_kept b rules : other_rules (added_sniff b rules ++ kept_rules b rules) = other_rules rules.
Proof.
  rewrite other_rules_app. assert (other_rules (added_sniff b rules) = []) as -> by (unfold added_sniff; by destruct (_ && _)).
  unfold kept_rules. destruct (_ && _); [|done]. cbn [app]. induction rules as [|r rules IH]; [done|]. rewrite filter_cons.
  destruct (base.decide (isSystemSniffRule r = false)) as [E1|E1].
  - unfold other_rules in *. rewrite !filter_cons. by rewrite IH.
  - apply not_false_iff_true in E1. rewrite (other_rules_skip r) by (unfold other_rule; by rewrite E1). apply IH.
Qed.

Lemma ensure_first b rules : ∃ L i, find_index isSystemHijackRule L = Some i ∧
  ensure_rules b rules = (if existsb isSystemPrivateRule rules then L else insert_at (S i) private_rule L) ∧
  existsb isSystemSniffRule L = b ∧ existsb isSystemPrivateRule L = existsb isSystemPrivateRule rules ∧
  other_rules L = other_rules rules.
Proof.
  rewrite ensure_eq. cbv zeta. set (A := added_sniff b rules). set (K := kept_rules b rules).
  pose proof (kept_sniff b rules) as Hs. pose proof (kept_existsb b _ rules private_not_sniff) as Hp.
  pose proof (other_rules_kept b rules) as Ho. fold A K in Hs, Hp, Ho.
  destruct (find_index isSystemHijackRule (A ++ K)) as [i|] eqn:Ef; [by exists (A ++ K), i|].
  exists (A ++ hijack_rule :: K), (length A). split; [|split; [done|split; [|split]]].
  - apply find_index_app_cons; [|done]. apply find_index_None in Ef. rewrite existsb_app in Ef. by apply orb_false_iff in Ef as [? _].
  - rewrite <- Hs, !existsb_app. done.
  - rewrite <- Hp, !existsb_app. done.
  - rewrite <- Ho, !other_rules_app. f_equal.
Qed.

Lemma ensure_settled b rules : settled_rules b (ensure_rules b rules) ∧
  other_rules (ensure_rules b rules) = other_rules rules.
Proof.
  destruct (ensure_first b rules) as (L & i & Hi & -> & Hs & Hp & Ho). apply find_index_Some in Hi as (h & Hh & Hhi & _).
  assert (existsb isSystemHijackRule L = true) as Hhl.
  { apply existsb_exists. exists h. split; [|done]. apply list_elem_of_In. by eapply list_elem_of_lookup_2. }
  destruct (existsb isSystemPrivateRule rules).
  - split; [split; done|done].
  - split; [split; unfold has; rewrite existsb_insert_at; [by rewrite Hs|by rewrite Hhl, orb_true_r|done]|].
    rewrite <- Ho. unfold insert_at. rewrite other_rules_app, (other_rules_skip private_rule) by done.
    by rewrite <- other_rules_app, take_drop.
Qed.

(** After the upkeep of the system rules there is a rule that hijacks DNS and a
    rule for private addresses, the sniff rules are there exactly when sniffing is
    enabled, all other rules stay in their order, a second run changes nothing, and a
    rule for private addresses that was put in stands right behind the first hijack
    rule, with none for private addresses ahead of it (such a rule ahead of the hijack
    would let DNS to local addresses bypass it). *)
Theorem system_rules_settled (sniffer : bool) (rules : list Rule) :
  settled_rules sniffer (ensure_rules sniffer rules) ∧
  other_rules (ensure_rules sniffer rules) = other_rules rules ∧
  ensure_rules sniffer (ensure_rules sniffer rules) = ensure_rules sniffer rules ∧
  (existsb isSystemPrivateRule rules = true ∨
   ∃ i, find_index isSystemHijackRule (ensure_rules sniffer rules) = Some i ∧
     ensure_rules sniffer rules !! S i = Some private_rule ∧
     existsb isSystemPrivateRule (take (S i) (ensure_rules sniffer rules)) = false).
Proof.
  destruct (ensure_settled sniffer rules) as [H1 H2]. split; [done|]. split; [done|]. split; [by apply ensure_id|].
  destruct (ensure_first sniffer rules) as (L & i & Hi & -> & _ & Hp & _).
  destruct (existsb isSystemPrivateRule rules); [by left|right]. exists i.
  apply find_index_Some in Hi as (h & Hh & Hhi & Hno). pose proof (lookup_lt_Some _ _ _ Hh) as Hlt.
  assert (take (S i) (insert_at (S i) private_rule L) = take (S i) L) as Ht.
  { unfold insert_at. rewrite take_app_length'; [done|]. rewrite length_take. lia. }
  split_and!.
  - rewrite <- (take_drop (S i) (insert_at _ _ _)), Ht, (take_S_r _ _ _ Hh), <- app_assoc. cbn [app].
    rewrite find_index_app_cons by done. rewrite length_take. f_equal. lia.
  - apply lookup_insert_at. lia.
  - rewrite Ht. rewrite <- (take_drop (S i) L), existsb_app in Hp. by apply orb_false_iff in Hp as [? _].
Qed.

(** The time-out rule is kept in one copy behind the leading system rules. *)
Lemma udp_timeout_idem e rules : ensure_udp_timeout e (ensure_udp_timeout e rules) = ensure_udp_timeout e rules.
Proof.
  unfold ensure_udp_timeout. pose proof (existsb_filter_self isSystemUDPTimeoutRule rules) as HK.
  destruct (String.eqb e ""); [by apply filter_none|]. by rewrite (filter_insert_at isSystemUDPTimeoutRule).
Qed.

Lemma udp_not_other r : isSystemUDPTimeoutRule r = true → isSystemSniffRule r = false ∧ isSystemHijackRule r = false.
Proof.
  unfold isSystemUDPTimeoutRule, isSystemSniffRule, isSystemHijackRule. intros [H _]%andb_true_iff. to_prop. by rewrite H.
Qed.

Lemma settled_udp b e rules : settled_rules b rules → existsb (λ r, isSystemUDPTimeoutRule r && isSystemPrivateRule r) rules = false →
  settled_rules b (ensure_udp_timeout e rules).
Proof.
  intros [Hs Hh Hp] Hno. unfold has in *.
  assert (∀ q, (∀ r, q r = true → isSystemUDPTimeoutRule r = false) → q (udp_timeout_rule e) = false →
    existsb q (ensure_udp_timeout e rules) = existsb q rules) as H.
  { intros q Hq Hu. unfold ensure_udp_timeout. destruct (String.eqb e ""); [by apply existsb_filter_neg|].
    rewrite existsb_insert_at, Hu. by apply existsb_filter_neg. }
  assert (∀ q : Rule → bool, (∀ r, isSystemUDPTimeoutRule r = true → q r = false) →
    ∀ r, q r = true → isSystemUDPTimeoutRule r = false) as Hflip.
  { intros q Hq r Hr. destruct (isSystemUDPTimeoutRule r) eqn:E1; [|done]. apply Hq in E1. congruence. }
  split; unfold has.
  - rewrite H; [done|apply Hflip; intros; by apply udp_not_other|done].
  - rewrite H; [done|apply Hflip; intros; by apply udp_not_other|done].
  - apply existsb_exists in Hp as (r & Hr & Hpr). apply existsb_exists. exists r. split; [|done].
    assert (isSystemUDPTimeoutRule r = false) as Hu.
    { destruct (isSystemUDPTimeoutRule r) eqn:E1; [|done]. apply not_true_iff_false in Hno. destruct Hno.
      apply existsb_exists. exists r. by rewrite E1, Hpr. }
    apply list_elem_of_In in Hr. apply list_elem_of_In. unfold ensure_udp_timeout.
    assert (r ∈ filter (λ r, isSystemUDPTimeoutRule r = false) rules) as Hin by by apply list_elem_of_filter.
    destruct (String.eqb e ""); [done|]. unfold insert_at. rewrite <- (take_drop (systemPrefixLen (filter (λ r, isSystemUDPTimeoutRule r = false) rules)) _) in Hin.
    rewrite elem_of_app, elem_of_cons. apply elem_of_app in Hin as [?|?]; auto.
Qed.

(** ** Rule sets *)

(** The rule sets a rule names, nested rules included. *)
Fixpoint set_refs (r : Rule) : list string :=
  r_RuleSet r ++ (fix go l := match l with [] => [] | r :: l => set_refs r ++ go l end) (r_Rules r).

Lemma set_refs_eq r : set_refs r = r_RuleSet r ++ concat (set_refs <$> r_Rules r).
Proof. destruct r as [? ? rs]. cbn. f_equal. induction rs as [|r rs IH]; [done|]. by rewrite fmap_cons, IH. Qed.

Definition all_set_refs (c : RouterConfig) : list string :=
  concat (set_refs <$> Rules c) ++ concat (d_RuleSet <$> DNSRules c).

Lemma elem_all_set_refs c t : t ∈ all_set_refs c ↔
  (∃ r, r ∈ Rules c ∧ t ∈ set_refs r) ∨ ∃ r, r ∈ DNSRules c ∧ t ∈ d_RuleSet r.
Proof. unfold all_set_refs. by rewrite elem_of_app, !elem_concat_fmap. Qed.

Lemma rename_set_refs old new r t : t ∈ set_refs (renameRuleSetRefsInRule old new r) →
  t = new ∨ (t ∈ set_refs r ∧ (t ≠ old ∨ old = "" ∨ new = "")).
Proof.
  revert t. induction r as [r IH] using Rule_rose. intros t. rewrite Forall_forall in IH.
  assert (renameRuleSetRefsInRule old new r = set_r_Rules (renameRuleSetRefsInRule old new <$> r_Rules r)
    (set_r_RuleSet (rewriteTagSlice (r_RuleSet r) old new) r)) as -> by by destruct r.
  rewrite !set_refs_eq, !elem_of_app, !elem_concat_fmap. cbn [r_RuleSet r_Rules set_r_Rules set_r_RuleSet].
  intros [[?|[? ?]]%rewriteTagSlice_elem|(x & (y & -> & Hy)%list_elem_of_fmap & Ht)]; [by left|right; split; [by left|done]|].
  destruct (IH y Hy t Ht) as [?|[? ?]]; [by left|right]. split; [right; by exists y|done].
Qed.

Lemma remove_set_refs remove r t : t ∈ set_refs (removeRuleSetRefsInRule remove r) → t ∈ set_refs r ∧ t ∉ remove.
Proof.
  revert t. induction r as [r IH] using Rule_rose. intros t. rewrite Forall_forall in IH.
  assert (removeRuleSetRefsInRule remove r = set_r_Rules (removeRuleSetRefsInRule remove <$> r_Rules r)
    (set_r_RuleSet (removeRuleSetRefs (r_RuleSet r) remove) r)) as -> by by destruct r.
  rewrite !set_refs_eq, !elem_of_app, !elem_concat_fmap. cbn [r_RuleSet r_Rules set_r_Rules set_r_RuleSet].
  intros [[? ?]%list_elem_of_filter|(x & (y & -> & Hy)%list_elem_of_fmap & Ht)]; [split; [by left|done]|].
  destruct (IH y Hy t Ht) as [? ?]. split; [right; by exists y|done].
Qed.

Definition set_tags (c : RouterConfig) : list string := rs_Tag <$> RuleSets c.

(** The rule sets have distinct tags, and every rule set a rule names exists, but those of
    [lost]. *)
Record sound_sets (lost : string → Prop) (c : RouterConfig) : Prop := {
  ss_nodup : NoDup (set_tags c);
  ss_nonempty : "" ∉ set_tags c;
  ss_refs : ∀ t, t ∈ all_set_refs c → t ∈ set_tags c ∨ lost t;
}.

Inductive set_edit := SAdd (rs : RuleSet) | SUpdate (tag : string) (rs : RuleSet) | SDelete (tag : string) (force : bool).

Section set_edits.
Context `{U : GoUnicode} `{GP : GoParsers}.

Definition edit_sets (e : set_edit) (c : RouterConfig) : result :=
  match e with
  | SAdd rs => AddRuleSet rs c
  | SUpdate tag rs => UpdateRuleSet tag rs c
  | SDelete tag force => DeleteRuleSet tag force c
  end.

(** A rule nested in a logical rule names the rule set. *)
Definition nested_names (c : RouterConfig) (t : string) : Prop :=
  ∃ r, r ∈ Rules c ∧ t ∈ concat (set_refs <$> r_Rules r).

(** The rule sets an unforced deletion takes although nested rules name them. *)
Definition orphaned (e : set_edit) (c : RouterConfig) (t : string) : Prop :=
  match e with
  | SDelete tag false => t ∈ ruleSetTagsWithCompanion tag ∧ nested_names c t
  | _ => False
  end.

Definition old_set_gone (e : set_edit) (c c' : RouterConfig) : Prop :=
  match e with
  | SDelete tag _ => ∀ t, t ∈ ruleSetTagsWithCompanion tag → t ∉ set_tags c' ∧ (t ∈ all_set_refs c' → orphaned e c t)
  | _ => True
  end.

Lemma existsb_false {A} (p : A → bool) l : existsb p l = false ↔ ∀ x, x ∈ l → p x = false.
Proof.
  rewrite <- not_true_iff_false, existsb_exists. split.
  - intros H x Hx. apply not_true_iff_false. intros Hp. apply H. exists x. by rewrite <- list_elem_of_In.
  - intros H (x & Hx%list_elem_of_In & Hp). rewrite H in Hp; done.
Qed.

Lemma add_set_parts rs c c' : AddRuleSet rs c = inr c' →
  rs_Tag rs ≠ "" ∧ rs_Tag rs ∉ set_tags c ∧ c' = set_RuleSets (RuleSets c ++ [rs]) c.
Proof.
  unfold AddRuleSet. destruct (validateRuleSet rs) eqn:Ev; [done|]. destruct (existsb _ _) eqn:Ex; [done|]. intros [= <-].
  split; [intros E1; unfold validateRuleSet in Ev; by rewrite E1 in Ev|]. split; [|done]. intros (x & Hx & Hin)%list_elem_of_fmap. apply (proj1 (existsb_false _ _)) with (x := x) in Ex; [|done].
  to_prop. done.
Qed.

Lemma update_set_parts tag rs c c' : UpdateRuleSet tag rs c = inr c' →
  ∃ next idx x, rs_Tag next ≠ "" ∧ RuleSets c !! idx = Some x ∧ rs_Tag x = tag ∧ (tag ≠ rs_Tag next → rs_Tag next ∉ set_tags c) ∧
  c' = (if String.eqb tag (rs_Tag next) then set_RuleSets (<[idx := next]> (RuleSets c)) c
        else renameRuleSetReferences tag (rs_Tag next) (set_RuleSets (<[idx := next]> (RuleSets c)) c)).
Proof.
  unfold UpdateRuleSet. set (next := if String.eqb (rs_Tag rs) "" then _ else _).
  destruct (validateRuleSet next) eqn:Ev; [done|]. destruct (find_tag _ _ _ _ _ _) as [|[idx|]] eqn:Ef; [done| |done].
  intros [= <-]. apply find_tag_some in Ef as [(x & Hx & Ht) Hfree]. exists next, idx, x. split; [|done].
  intros E1. unfold validateRuleSet in Ev. by rewrite E1 in Ev.
Qed.

Lemma delete_set_parts tag force c c' : DeleteRuleSet tag force c = inr c' →
  let tags := ruleSetTagsWithCompanion tag in
  RuleSets c' = filter (λ rs, rs_Tag rs ∉ tags) (RuleSets c) ∧
  if force then
    Rules c' = removeRuleSetRefsInRule tags <$> Rules c ∧
    DNSRules c' = (λ r, set_d_RuleSet (removeRuleSetRefs (d_RuleSet r) tags) r) <$> DNSRules c
  else
    Rules c' = Rules c ∧ DNSRules c' = DNSRules c ∧
    (∀ r t, r ∈ Rules c → t ∈ r_RuleSet r → t ∉ tags) ∧ (∀ r t, r ∈ DNSRules c → t ∈ d_RuleSet r → t ∉ tags).
Proof.
  unfold DeleteRuleSet, rulesReferencingRuleSets. set (T := ruleSetTagsWithCompanion tag). cbv zeta.
  destruct force; [rewrite !andb_false_r; by intros [= <-]|]. rewrite !andb_true_r.
  destruct (bool_decide _) eqn:E1; [|done]. cbn [negb]. destruct (bool_decide (indices_of _ (DNSRules c) = [])) eqn:E2; [|done].
  intros [= <-]. to_prop. split; [done|]. split_and!; [done..| |].
  - intros r t Hr Ht Hin. eapply indices_nil in E1; [|exact Hr]. cbv beta in E1.
    apply (proj1 (existsb_false _ _)) with (x := t) in E1; [|done]. by to_prop.
  - intros r t Hr Ht Hin. eapply indices_nil in E2; [|exact Hr]. cbv beta in E2.
    apply (proj1 (existsb_false _ _)) with (x := t) in E2; [|done]. by to_prop.
Qed.

Lemma add_set_sound lost rs c c' : sound_sets lost c → AddRuleSet rs c = inr c' → sound_sets lost c'.
Proof.
  intros [Hnd He Hr] (Hne & Hfree & ->)%add_set_parts. unfold set_tags in *.
  split; unfold set_tags; cbn [RuleSets set_RuleSets]; rewrite fmap_app.
  - apply NoDup_app. split; [done|]. split; [|apply NoDup_singleton]. by intros t Ht ->%list_elem_of_singleton.
  - intros [?|Hin%list_elem_of_singleton]%elem_of_app; congruence.
  - intros t Ht. rewrite elem_of_app. destruct (Hr t Ht); auto.
Qed.

Lemma rename_all_set_refs old new c t : t ∈ all_set_refs (renameRuleSetReferences old new c) →
  t = new ∨ (t ∈ all_set_refs c ∧ (t ≠ old ∨ old = "" ∨ new = "")).
Proof.
  rewrite !elem_all_set_refs. cbn. intros [(r & (r0 & -> & Hr)%list_elem_of_fmap & Ht)|(r & (r0 & -> & Hr)%list_elem_of_fmap & Ht)].
  - apply rename_set_refs in Ht as [?|[? ?]]; [by left|right]. split; [left; by exists r0|done].
  - apply rewriteTagSlice_elem in Ht as [?|[? ?]]; [by left|right]. split; [right; by exists r0|done].
Qed.

Lemma update_set_sound lost tag rs c c' : sound_sets lost c → UpdateRuleSet tag rs c = inr c' → sound_sets lost c'.
Proof.
  intros [Hnd He Hr] (next & idx & x & Hne & Hx & Hxt & Hfree & Hc')%update_set_parts.
  assert (set_tags c !! idx = Some tag) as Htag by (unfold set_tags; by rewrite list_lookup_fmap, Hx; cbn; rewrite Hxt).
  assert (set_tags c' = <[idx := rs_Tag next]> (set_tags c)) as Et.
  { rewrite Hc'. unfold set_tags. destruct (String.eqb tag (rs_Tag next)); cbn; by rewrite list_fmap_insert. }
  split.
  - rewrite Et. apply (NoDup_insert _ _ tag); [done..|]. intros H. by apply Hfree.
  - rewrite Et. by intros [?|?]%elem_insert_inv.
  - intros t Ht. rewrite Et, Hc' in *. destruct (String.eqb tag (rs_Tag next)) eqn:E1; to_prop.
    + rewrite <- E1, list_insert_id by done. by apply Hr.
    + apply rename_all_set_refs in Ht as [->|[Ht Hor]]; [left; apply list_elem_of_insert; by eapply lookup_lt_Some|].
      apply Hr in Ht as [Ht|?]; [left|by right]. destruct Hor as [Hn|[->|?]]; [by apply (elem_insert _ _ tag)| |done].
      exfalso. apply He. by eapply list_elem_of_lookup_2.
Qed.

Lemma delete_set_sound lost tag force c c' : sound_sets lost c → DeleteRuleSet tag force c = inr c' →
  sound_sets (λ t, lost t ∨ orphaned (SDelete tag force) c t) c' ∧ old_set_gone (SDelete tag force) c c'.
Proof.
  intros [Hnd He Hr] [Hs Hc]%delete_set_parts. set (T := ruleSetTagsWithCompanion tag) in *.
  assert (∀ t, t ∈ set_tags c' ↔ t ∈ set_tags c ∧ t ∉ T) as Et.
  { intros t. unfold set_tags. rewrite Hs, !list_elem_of_fmap. setoid_rewrite list_elem_of_filter. naive_solver. }
  assert (∀ t, t ∈ all_set_refs c' → t ∈ all_set_refs c ∧ (t ∈ T → orphaned (SDelete tag force) c t)) as Hrefs.
  { intros t. rewrite !elem_all_set_refs. destruct force.
    - destruct Hc as [-> ->].
      intros [(r & (r0 & -> & Hin)%list_elem_of_fmap & Ht)|(r & (r0 & -> & Hin)%list_elem_of_fmap & Ht)].
      + apply remove_set_refs in Ht as [? ?]. split; [left; by exists r0|done].
      + apply list_elem_of_filter in Ht as [? ?]. split; [right; by exists r0|done].
    - destruct Hc as (-> & -> & Hno & Hnod). intros Ht. split; [done|].
      intros HT. destruct Ht as [(r & Hin & Ht)|(r & Hin & Ht)]; [|by destruct (Hnod r t)]. rewrite set_refs_eq in Ht.
      apply elem_of_app in Ht as [Ht|Ht]; [by destruct (Hno r t)|]. split; [done|by exists r]. }
  split; [split|].
  - assert (set_tags c' = filter (.∉ T) (set_tags c)) as ->; [|by apply NoDup_filter].
    unfold set_tags. rewrite Hs. exact (fmap_filter rs_Tag (.∉ T) (RuleSets c)).
  - rewrite Et. naive_solver.
  - intros t Ht. destruct (Hrefs t Ht) as [H Ho]. rewrite Et. destruct (Hr t H) as [?|?]; [|by auto].
    destruct (base.decide (t ∈ T)); auto.
  - intros t Ht. split; [rewrite Et; by intros [_ []]|]. intros Hin. destruct (Hrefs t Hin) as [_ Ho]. auto.
Qed.

(** C25: An edit of the rule sets (adding, updating or renaming, deleting) keeps their tags
    distinct and not empty, and every rule set that a route rule (nested rules included) or
    a DNS rule names among them, except a rule set deleted without force that rules nested
    in logical rules name: those the deletion does not see ([nested_rule_set_orphaned]). A
    deleted rule set and its compiled companion are gone, and but for that case named
    nowhere any more. *)
Theorem rule_set_edits_sound (lost : string → Prop) (e : set_edit) (c c' : RouterConfig) (Hsound : sound_sets lost c)
    (Hedit : edit_sets e c = inr c') :
  sound_sets (λ t, lost t ∨ orphaned e c t) c' ∧ old_set_gone e c c'.
Proof.
  assert (sound_sets lost c' → sound_sets (λ t, lost t ∨ orphaned e c t) c') as Hweak.
  { intros [H1 H2 H3]. split; [done|done|]. intros t Ht. destruct (H3 t Ht); auto. }
  destruct e as [rs|tag rs|tag force]; cbn [edit_sets] in Hedit.
  - split; [by eapply Hweak, add_set_sound|done].
  - split; [by eapply Hweak, update_set_sound|done].
  - by eapply delete_set_sound.
Qed.
End set_edits.

(** A rule can be moved exactly when both positions exist; then it stands at its
    new position, the other rules keep their order, and nothing else of the
    configuration changes. *)
Theorem MoveRule_spec (from to : Z) (c : RouterConfig) :
  match MoveRule from to c with
  | inl e => e = ErrRuleIndexOutOfRange ∧ (in_range from (Rules c) = false ∨ in_range to (Rules c) = false)
  | inr c' =>
      Rules c' !! Z.to_nat to = Rules c !! Z.to_nat from ∧
      remove_at (Z.to_nat to) (Rules c') = remove_at (Z.to_nat from) (Rules c) ∧ c' = set_Rules (Rules c') c
  end.
Proof.
  unfold MoveRule. destruct (in_range from (Rules c)) eqn:Ef; cbn [negb orb]; [|by auto].
  destruct (in_range to (Rules c)) eqn:Et; cbn [negb]; [|by auto]. destruct (from =? to)%Z eqn:E1; to_prop; [subst; by destruct c|].
  apply in_range_spec in Ef as [_ Ef], Et as [_ Et]. destruct (move_spec _ _ (Rules c) Ef Et) as [H1 H2].
  cbn [Rules set_Rules]. done.
Qed.

(** ** The rules when the router is enabled *)

(** The upkeep of [Enable]: the system rules, then the time-out of UDP. *)
Definition enable_rules (sniffer : bool) (effective : string) (rules : list Rule) : list Rule :=
  ensure_udp_timeout effective (ensure_rules sniffer rules).

Definition udp_private (rules : list Rule) : bool := existsb (λ r, isSystemUDPTimeoutRule r && isSystemPrivateRule r) rules.

Lemma ensure_udp_private b rules : udp_private (ensure_rules b rules) = udp_private rules.
Proof.
  unfold udp_private. rewrite ensure_eq. cbv zeta. set (q := λ r, isSystemUDPTimeoutRule r && isSystemPrivateRule r).
  assert (existsb q (added_sniff b rules ++ kept_rules b rules) = existsb q rules) as Hq.
  { apply kept_existsb. intros r [H _]%andb_true_iff. by apply udp_not_other. }
  destruct (find_index _ _); destruct (existsb isSystemPrivateRule rules);
    rewrite ?existsb_insert_at, <- ?Hq, ?existsb_app; done.
Qed.

Lemma prefix_insert x rules : isSystemSniffRule x || isSystemHijackRule x || isSystemPrivateRule x = false →
  systemPrefixLen (insert_at (systemPrefixLen rules) x rules) = systemPrefixLen rules.
Proof.
  intros Hx. induction rules as [|r rules IH]; cbn [systemPrefixLen insert_at take drop app]; [by cbn; rewrite Hx|].
  destruct (isSystemSniffRule r || isSystemHijackRule r || isSystemPrivateRule r) eqn:Er; cbn; [|by rewrite Hx].
  rewrite Er. f_equal. apply IH.
Qed.

Lemma prefix_le rules : (systemPrefixLen rules ≤ length rules)%nat.
Proof. induction rules as [|r rules IH]; cbn; [done|]. destruct (_ || _); lia. Qed.

Definition not_udp (rules : list Rule) : list Rule := filter (λ r, isSystemUDPTimeoutRule r = false) rules.

Lemma other_not_udp rules : other_rules (not_udp rules) = not_udp (other_rules rules).
Proof.
  unfold other_rules, not_udp. induction rules as [|r rules IH]; [done|]. rewrite !filter_cons.
  destruct (base.decide (isSystemUDPTimeoutRule r = false)) as [Hu|Hu], (base.decide (other_rule r = true)) as [Ho|Ho];
    rewrite ?filter_cons; repeat (destruct (base.decide _); try done); by rewrite IH.
Qed.

(** The upkeep of the rules on enabling settles in one run: a second run changes
    nothing; the system rules are there, there is exactly one time-out rule, right
    behind the leading system rules, and every rule that is neither a system rule nor
    taken for the time-out rule keeps its place in the order — provided that no rule
    for private addresses is also taken for the time-out rule. *)
Theorem enable_rules_settled (sniffer : bool) (effective : string) (rules : list Rule)
    (Heff : effective ≠ "") (Hno : udp_private rules = false) :
  let out := enable_rules sniffer effective rules in
  enable_rules sniffer effective out = out ∧
  settled_rules sniffer out ∧
  filter (λ r, isSystemUDPTimeoutRule r = true) out = [udp_timeout_rule effective] ∧
  find_index isSystemUDPTimeoutRule out = Some (systemPrefixLen out) ∧
  not_udp (other_rules out) = not_udp (other_rules rules).
Proof.
  cbv zeta. unfold enable_rules. destruct (ensure_settled sniffer rules) as [S O].
  set (base := ensure_rules sniffer rules) in *.
  assert (udp_private base = false) as Hb by (unfold base; by rewrite ensure_udp_private).
  pose proof (settled_udp sniffer effective base S Hb) as S'. split; [by rewrite (ensure_id _ _ S'), udp_timeout_idem|].
  split; [done|]. apply String.eqb_neq in Heff. unfold ensure_udp_timeout. rewrite Heff.
  set (K := filter (λ r, isSystemUDPTimeoutRule r = false) base).
  assert (existsb isSystemUDPTimeoutRule K = false) as HK by apply existsb_filter_self.
  assert (∀ l, existsb isSystemUDPTimeoutRule l = false → filter (λ r, isSystemUDPTimeoutRule r = true) l = []) as Hnil.
  { intros l. induction l as [|x l IH]; [done|]. cbn [existsb]. intros [Hx Hl]%orb_false_iff.
    rewrite filter_cons_False by congruence. by apply IH. }
  pose proof HK as HK2. rewrite <- (take_drop (systemPrefixLen K) K), existsb_app in HK2. apply orb_false_iff in HK2 as [HK1 HK2].
  split_and!.
  - unfold insert_at. rewrite filter_app, filter_cons_True by done. by rewrite !Hnil.
  - rewrite prefix_insert by done. unfold insert_at. rewrite find_index_app_cons by done.
    rewrite length_take. f_equal. pose proof (prefix_le K). lia.
  - rewrite <- O, <- !other_not_udp. f_equal. by apply (filter_insert_at isSystemUDPTimeoutRule).
Qed.
