(* ===== verification/SbRouterDns.v ===== *)
(** * DNS of the router configuration ([router/config_dns.go], [dns_chain_preset.go])

    Servers, rules, the order of chained rules, the managed rules of a DNS preset, and
    the edits of the service over accesses to the configuration and the settings that may
    fail. *)
From S2P Require Import Prelude GoLib GoText SbJson SbRouter SbOutbounds.

Definition ErrDNSServerTagConflict : string := "dns server with this tag already exists".
Definition ErrDNSServerReferenced : string :=
  "dns server is referenced by one or more dns rules or used as final/default".
Definition ErrDNSServerNotFound : string := "dns server not found".
Definition ErrDNSRuleIndexOutOfRange : string := "dns rule index out of range".
Definition ErrDNSServerIndexOutOfRange : string := "dns server index out of range".
Definition ErrDNSInvalidServer : string := "dns rule references unknown server tag".
Definition ErrDNSChainTagReserved : string := "dns rule: теги awgm-dns-* зарезервированы для DNS-пресета".
Definition ErrDNSRuleManaged : string := "dns rule: правило управляется DNS-пресетом".

(** ** Tables *)

Definition validDNSTypes : list string := ["udp"; "tls"; "https"; "quic"; "h3"; "local"; "fakeip"].
Definition validDNSStrategies : list string := [""; "prefer_ipv4"; "prefer_ipv6"; "ipv4_only"; "ipv6_only"].
Definition validTLSVersions (v : string) : Z :=
  if String.eqb v "1.0" then 10 else if String.eqb v "1.1" then 11 else if String.eqb v "1.2" then 12
  else if String.eqb v "1.3" then 13 else 0.
Definition dnsTLSServerTypes : list string := ["tls"; "quic"; "https"; "h3"].
Definition validDNSRuleActions : list string := [""; "route"; "reject"; "predefined"; "evaluate"; "respond"].
Definition validDNSRcodes : list string :=
  ["NOERROR"; "FORMERR"; "SERVFAIL"; "NXDOMAIN"; "NOTIMP"; "REFUSED"; "YXDOMAIN"; "YXRRSET"; "NXRRSET"; "NOTAUTH";
   "NOTZONE"; "BADSIG"; "BADKEY"; "BADTIME"; "BADMODE"; "BADNAME"; "BADALG"; "BADTRUNC"; "BADCOOKIE"].
Definition validRejectMethods : list string := [""; "default"; "drop"].
Definition managedDNSDirectTag : string := "dns-direct".

Definition listed (l : list string) (x : string) : bool := bool_decide (x ∈ l).

Definition IsEnabled (m : option DNSMatchResponse) : bool := match m with Some m => mr_Enabled m | None => false end.

Section dns.
Context `{U : GoUnicode} `{GP : GoParsers}.

(** [strings.TrimSpace(s) == ""] *)
Definition blank (s : string) : bool := String.eqb (TrimSpace s) "".

(** ** Servers *)

Definition scrubDNSServerDetourStored (s : DNSServer) : DNSServer :=
  if String.eqb (TrimSpace (s_Detour s)) "direct" then set_s_Detour "" s else s.

Definition scrubDNSServerDetourForSingbox (s : DNSServer) : DNSServer :=
  let d := TrimSpace (s_Detour s) in
  if String.eqb d "" || String.eqb d "direct" || String.eqb (s_Tag s) managedDNSDirectTag then set_s_Detour "" s
  else set_s_DomainResolver None (set_s_Detour d s).

Definition SanitizeDNSConfigForSingbox (c : RouterConfig) : RouterConfig :=
  set_Servers (scrubDNSServerDetourForSingbox <$> Servers c) c.
Definition SanitizeDNSConfig (c : RouterConfig) : RouterConfig :=
  set_Servers (scrubDNSServerDetourStored <$> Servers c) c.

Definition tls_err (type : string) (t : DNSClientTLSOptions) : option string :=
  if negb (listed dnsTLSServerTypes type) then Some "tls is unsupported"
  else if negb (String.eqb (tls_MinVersion t) "") && (validTLSVersions (tls_MinVersion t) =? 0)%Z then Some "unknown tls min_version"
  else if negb (String.eqb (tls_MaxVersion t) "") && (validTLSVersions (tls_MaxVersion t) =? 0)%Z then Some "unknown tls max_version"
  else if negb (String.eqb (tls_MinVersion t) "") && negb (String.eqb (tls_MaxVersion t) "") &&
          (validTLSVersions (tls_MaxVersion t) <? validTLSVersions (tls_MinVersion t))%Z then Some "tls min_version must not exceed max_version"
  else None.

(** A range of a fakeip server: empty, or a prefix of the right family. *)
Definition range_err (is4 : bool) (range : string) : option string :=
  let r := TrimSpace range in
  if String.eqb r "" then None
  else match ParsePrefix r with
  | None => Some "invalid range"
  | Some f => if Bool.eqb f is4 then None else Some "range of the wrong family"
  end.

Definition validateDNSServer (s : DNSServer) : option string :=
  if blank (s_Tag s) then Some "dns server tag is required"
  else if negb (listed validDNSTypes (s_Type s)) then Some "unknown type"
  else if String.eqb (s_Type s) "fakeip" then
    if blank (Inet4Range s) && blank (Inet6Range s) then Some "fakeip requires inet4_range or inet6_range"
    else or_else (range_err true (Inet4Range s)) (range_err false (Inet6Range s))
  else if negb (String.eqb (s_Type s) "local") && blank (s_Server s) then Some "server is required"
  else if (ServerPort s <? 0)%Z || (65535 <? ServerPort s)%Z then Some "server_port out of range"
  else if negb (listed validDNSStrategies (s_Strategy s)) then Some "unknown strategy"
  else
    or_else match s_DomainResolver s with
      | Some dr =>
          if blank (dr_Server dr) then Some "domain_resolver.server is required"
          else if negb (listed validDNSStrategies (dr_Strategy dr)) then Some "domain_resolver.strategy unknown"
          else None
      | None => None
      end
      match s_TLS s with Some t => tls_err (s_Type s) t | None => None end.

Definition dnsServerTypes (c : RouterConfig) : gmap string string :=
  foldl (λ m s, <[s_Tag s := s_Type s]> m) ∅ (Servers c).

Definition AddDNSServer (s : DNSServer) (c : RouterConfig) : result :=
  let s := scrubDNSServerDetourForSingbox s in
  match validateDNSServer s with
  | Some e => inl e
  | None =>
      if existsb (λ existing, String.eqb (s_Tag existing) (s_Tag s)) (Servers c) then inl ErrDNSServerTagConflict
      else if match s_DomainResolver s with
        | Some dr => negb (String.eqb (dr_Server dr) (s_Tag s)) && negb (bool_decide (is_Some (dnsServerTypes c !! dr_Server dr)))
        | None => false
        end then inl ErrDNSServerNotFound
      else inr (set_Servers (Servers c ++ [s]) c)
  end.

Definition rename_resolver (oldTag newTag : string) (s : DNSServer) : DNSServer :=
  match s_DomainResolver s with
  | Some dr =>
      if String.eqb (dr_Server dr) oldTag
      then set_s_DomainResolver (Some {| dr_Server := newTag; dr_Strategy := dr_Strategy dr |}) s
      else s
  | None => s
  end.

Definition renameDNSServerReferences (oldTag newTag : string) (c : RouterConfig) : RouterConfig :=
  let c := set_DNSRules ((λ r, if String.eqb (d_Server r) oldTag then set_d_Server newTag r else r) <$> DNSRules c) c in
  let c := set_Servers (rename_resolver oldTag newTag <$> Servers c) c in
  if String.eqb (DNSFinal c) oldTag then set_DNSFinal newTag c else c.

Definition UpdateDNSServer (tag : string) (s : DNSServer) (c : RouterConfig) : result :=
  let s := scrubDNSServerDetourForSingbox s in
  match validateDNSServer s with
  | Some e => inl e
  | None =>
      match find_tag s_Tag tag (s_Tag s) 0 None (Servers c) with
      | inl _ => inl ErrDNSServerTagConflict
      | inr None => inl ErrDNSServerNotFound
      | inr (Some idx) =>
          if match s_DomainResolver s with
            | Some dr => negb (bool_decide (is_Some (<[s_Tag s := s_Type s]> (delete tag (dnsServerTypes c)) !! dr_Server dr)))
            | None => false
            end then inl ErrDNSServerNotFound
          else if String.eqb (s_Type s) "fakeip" &&
                  existsb (λ r, String.eqb (d_Action r) "evaluate" && String.eqb (d_Server r) tag) (DNSRules c)
          then inl "an evaluate rule uses the server"
          else
            let c := set_Servers (<[idx := s]> (Servers c)) c in
            inr (if String.eqb tag (s_Tag s) then c else renameDNSServerReferences tag (s_Tag s) c)
      end
  end.

(** Where a DNS server is referred to. *)
Inductive dns_reference := DRefRule (i : nat) | DRefResolver (server : string) | DRefFinal.

Definition resolver_is (tag : string) (s : DNSServer) : bool :=
  match s_DomainResolver s with Some dr => String.eqb (dr_Server dr) tag | None => false end.

Definition dnsServerReferences (tag : string) (c : RouterConfig) : list dns_reference :=
  (DRefRule <$> indices_of (λ r, String.eqb (d_Server r) tag) (DNSRules c)) ++
  omap (λ s, if String.eqb (s_Tag s) tag then None else if resolver_is tag s then Some (DRefResolver (s_Tag s)) else None) (Servers c) ++
  (if String.eqb (DNSFinal c) tag then [DRefFinal] else []).

(** ** Chains *)

(** One rule, given the tags of the evaluate rules above it and whether an anonymous
    one is above it. *)
Definition chain_step (r : DNSRule) (st : list string * bool) : (string + list string * bool)%type :=
  let '(seenTags, anonymousAbove) := st in
  match
    match MatchResponse r with
    | Some m =>
        if mr_Enabled m then
          if negb (String.eqb (mr_Tag m) "") then
            if listed seenTags (mr_Tag m) then None else Some "no evaluate with this tag above"
          else if anonymousAbove then None else Some "no anonymous evaluate above"
        else if String.eqb (d_Action r) "respond" && negb anonymousAbove then Some "respond needs an anonymous evaluate above" else None
    | None => if String.eqb (d_Action r) "respond" && negb anonymousAbove then Some "respond needs an anonymous evaluate above" else None
    end
  with
  | Some e => inl e
  | None =>
      if String.eqb (d_Action r) "evaluate" then
        if String.eqb (d_Tag r) "" then inr (seenTags, true)
        else if listed seenTags (d_Tag r) then inl "duplicate evaluate tag"
        else inr (d_Tag r :: seenTags, anonymousAbove)
      else inr st
  end.

Fixpoint first_violation (i : nat) (st : list string * bool) (rules : list DNSRule) : option (nat * string) :=
  match rules with
  | [] => None
  | r :: rules => match chain_step r st with inl e => Some (i, e) | inr st => first_violation (S i) st rules end
  end.
Definition firstDNSChainViolation (rules : list DNSRule) : option (nat * string) := first_violation 0 ([], false) rules.
Definition validateDNSChain (rules : list DNSRule) : option string := snd <$> firstDNSChainViolation rules.

(** The loop of a forced deletion: the first rule that breaks a chain is dropped until
    none does. *)
Fixpoint cascade (fuel : nat) (rules : list DNSRule) : list DNSRule :=
  match fuel with
  | O => rules
  | S fuel => match firstDNSChainViolation rules with None => rules | Some (i, _) => cascade fuel (remove_at i rules) end
  end.

Definition DeleteDNSServer (tag : string) (force : bool) (c : RouterConfig) : result :=
  let refs := dnsServerReferences tag c in
  if match refs with [] => false | _ => true end && negb force then inl ErrDNSServerReferenced
  else
    let c := set_Servers (filter (λ s, s_Tag s ≠ tag) (Servers c)) c in
    inr (if force then
      let rules := filter (λ r, d_Server r ≠ tag) (DNSRules c) in
      let c := set_DNSRules (cascade (S (length rules)) rules) c in
      let c := set_Servers ((λ s, if resolver_is tag s then set_s_DomainResolver None s else s) <$> Servers c) c in
      if String.eqb (DNSFinal c) tag then set_DNSFinal "" c else c
    else c).

Definition MoveDNSServer (from to : Z) (c : RouterConfig) : result :=
  if negb (in_range from (Servers c)) || negb (in_range to (Servers c)) then inl ErrDNSServerIndexOutOfRange
  else if (from =? to)%Z then inr c
  else inr (set_Servers (move (Z.to_nat from) (Z.to_nat to) (Servers c)) c).

Definition SetDNSGlobals (final strategy : string) (c : RouterConfig) : result :=
  if negb (String.eqb final "") && negb (bool_decide (is_Some (dnsServerTypes c !! final))) then inl ErrDNSServerNotFound
  else if negb (listed validDNSStrategies strategy) then inl "dns: unknown strategy"
  else inr (set_DNSStrategy strategy (set_DNSFinal final c)).

(** ** Rules *)

Definition dnsRuleHasMatcher (r : DNSRule) : bool :=
  negb (bool_decide (d_RuleSet r = [])) || negb (bool_decide (d_SourceIPCIDR r = [])) ||
  negb (bool_decide (d_DomainSuffix r = [])) || negb (bool_decide (d_Domain r = [])) ||
  negb (bool_decide (DomainKeyword r = [])) || negb (bool_decide (DomainRegex r = [])) ||
  IsEnabled (MatchResponse r) || negb (bool_decide (d_IPCIDR r = [])) || negb (bool_decide (QueryType r = [])).

(** The checks of the action's own fields; the last case is route, evaluate or none. *)
Definition action_err (r : DNSRule) (servers : gmap string string) : option string :=
  if String.eqb (d_Action r) "reject" then
    if negb (listed validRejectMethods (RejectMethod r)) then Some "unknown reject method" else None
  else if String.eqb (d_Action r) "predefined" then
    if negb (String.eqb (Rcode r) "") && negb (listed validDNSRcodes (Rcode r)) then Some "unknown rcode" else None
  else if String.eqb (d_Action r) "respond" then
    if negb (blank (d_Server r)) then Some "server is not allowed for respond"
    else if negb (blank (Rcode r)) then Some "rcode is not allowed for respond"
    else if negb (blank (RejectMethod r)) then Some "method is not allowed for respond"
    else None
  else if blank (d_Server r) then Some "server is required"
  else match servers !! d_Server r with
  | None => Some ErrDNSInvalidServer
  | Some type =>
      if String.eqb (d_Action r) "evaluate" && String.eqb type "fakeip" then Some "evaluate cannot use a fakeip server" else None
  end.

Definition race_err (r : DNSRule) : option string :=
  if negb (Race r) then None
  else if negb (IsEnabled (MatchResponse r)) then Some "race needs match_response"
  else if String.eqb (d_Action r) "evaluate" then Some "race needs a final action"
  else if Speculative r then Some "race and speculative are incompatible"
  else None.

Definition hasResponseFields (r : DNSRule) : bool :=
  negb (String.eqb (ResponseRcode r) "") || negb (bool_decide (ResponseAnswer r = [])) ||
  negb (bool_decide (ResponseNS r = [])) || negb (bool_decide (ResponseExtra r = [])).

Definition response_err (r : DNSRule) : option string :=
  if (hasResponseFields r || negb (bool_decide (d_IPCIDR r = []))) && negb (IsEnabled (MatchResponse r))
  then Some "ip_cidr and response_* need match_response"
  else if negb (String.eqb (ResponseRcode r) "") && negb (listed validDNSRcodes (ResponseRcode r)) then Some "unknown response_rcode"
  else or_else (first_err (first_err (λ rec, if blank rec then Some "empty record" else None))
                  [ResponseAnswer r; ResponseNS r; ResponseExtra r])
               (first_err validateCIDROrAddr (d_IPCIDR r)).

Definition validateDNSRule (r : DNSRule) (servers : gmap string string) : option string :=
  or_else (if negb (dnsRuleHasMatcher r) && blank (d_Server r) && blank (d_Action r) then Some ErrInvalidMatchers else None)
  (or_else (first_err validateCIDROrAddr (d_SourceIPCIDR r))
  (or_else (first_err (λ rx, if regexp_ok rx then None else Some "invalid domain_regex") (DomainRegex r))
  (or_else (if negb (listed validDNSRuleActions (d_Action r)) then Some "unknown action"
            else if negb (String.eqb (d_Tag r) "") && negb (String.eqb (d_Action r) "evaluate") then Some "tag is only for evaluate"
            else if listed ["respond"; "reject"; "predefined"] (d_Action r) && Speculative r then Some "speculative is not allowed"
            else None)
  (or_else (race_err r) (or_else (response_err r) (action_err r servers)))))).

(** The first rule that matches everything and ends the chain. *)
Definition is_catch_all (r : DNSRule) : bool := negb (String.eqb (d_Action r) "evaluate") && negb (dnsRuleHasMatcher r).
Definition DNSRulesShadowedByCatchAll (c : RouterConfig) : list nat :=
  match find_index is_catch_all (DNSRules c) with
  | None => []
  | Some i => seq (S i) (length (DNSRules c) - S i)
  end.

Definition dnsChainTagPrefix : string := "awgm-dns-".
Definition isManagedDNSChainRule (r : DNSRule) : bool :=
  HasPrefix (d_Tag r) dnsChainTagPrefix ||
  match MatchResponse r with Some m => HasPrefix (mr_Tag m) dnsChainTagPrefix | None => false end.

Definition rule_managed (index : Z) (c : RouterConfig) : bool :=
  match DNSRules c !! Z.to_nat index with Some r => isManagedDNSChainRule r | None => false end.

(** The candidate rules, if no chain is broken. *)
Definition with_chain (candidate : list DNSRule) (c : RouterConfig) : result :=
  match validateDNSChain candidate with Some e => inl e | None => inr (set_DNSRules candidate c) end.

Definition AddDNSRule (r : DNSRule) (c : RouterConfig) : result :=
  if isManagedDNSChainRule r then inl ErrDNSChainTagReserved
  else match validateDNSRule r (dnsServerTypes c) with
  | Some e => inl e
  | None => with_chain (DNSRules c ++ [r]) c
  end.

Definition UpdateDNSRule (index : Z) (r : DNSRule) (c : RouterConfig) : result :=
  if negb (in_range index (DNSRules c)) then inl ErrDNSRuleIndexOutOfRange
  else if rule_managed index c then inl ErrDNSRuleManaged
  else if isManagedDNSChainRule r then inl ErrDNSChainTagReserved
  else match validateDNSRule r (dnsServerTypes c) with
  | Some e => inl e
  | None => with_chain (<[Z.to_nat index := r]> (DNSRules c)) c
  end.

Definition DeleteDNSRule (index : Z) (c : RouterConfig) : result :=
  if negb (in_range index (DNSRules c)) then inl ErrDNSRuleIndexOutOfRange
  else if rule_managed index c then inl ErrDNSRuleManaged
  else with_chain (remove_at (Z.to_nat index) (DNSRules c)) c.

Definition MoveDNSRule (from to : Z) (c : RouterConfig) : result :=
  if negb (in_range from (DNSRules c)) || negb (in_range to (DNSRules c)) then inl ErrDNSRuleIndexOutOfRange
  else if (from =? to)%Z then inr c
  else if rule_managed from c then inl ErrDNSRuleManaged
  else with_chain (move (Z.to_nat from) (Z.to_nat to) (DNSRules c)) c.

(** ** The DNS preset *)

Record DNSChainPresetState := { Mode : string; DirectServer : string; ProxyServer : string; PoisonCIDRs : list string }.

Definition defaultPoisonCIDRs : list string := ["0.0.0.0/32"; "127.0.0.0/8"; "10.10.34.34/32"; "10.10.34.35/32"].

(** [DNSRule] with the fields that the rules of a preset set. *)
Definition chain_rule (action server tag : string) (match_tag : option string) (cidrs : list string) (rcode : string) (race : bool)
  : DNSRule := {|
  d_RuleSet := []; d_SourceIPCIDR := []; d_DomainSuffix := []; d_Domain := []; DomainKeyword := []; DomainRegex := [];
  QueryType := []; d_Server := server; d_Action := action; Rcode := ""; RejectMethod := ""; d_Tag := tag;
  MatchResponse := (λ t, {| mr_Enabled := true; mr_Tag := t |}) <$> match_tag; d_IPCIDR := cidrs; ResponseRcode := rcode;
  ResponseAnswer := []; ResponseNS := []; ResponseExtra := []; Race := race; Speculative := false |}.

Definition buildDNSChain (st : DNSChainPresetState) : (string + list DNSRule)%type :=
  if String.eqb (Mode st) "resilient" then
    inr [chain_rule "evaluate" (DirectServer st) (dnsChainTagPrefix +:+ "rd") None [] "" false;
         chain_rule "evaluate" (ProxyServer st) (dnsChainTagPrefix +:+ "rp") None [] "" false;
         chain_rule "respond" "" "" (Some (dnsChainTagPrefix +:+ "rd")) [] "NOERROR" true;
         chain_rule "respond" "" "" (Some (dnsChainTagPrefix +:+ "rp")) [] "NOERROR" true]
  else if String.eqb (Mode st) "antipoison" then
    let cidrs := match PoisonCIDRs st with [] => defaultPoisonCIDRs | l => l end in
    inr [chain_rule "evaluate" (DirectServer st) (dnsChainTagPrefix +:+ "ap") None [] "" false;
         chain_rule "route" (ProxyServer st) "" (Some (dnsChainTagPrefix +:+ "ap")) cidrs "" false;
         chain_rule "respond" "" "" (Some (dnsChainTagPrefix +:+ "ap")) [] "" false;
         chain_rule "evaluate" (ProxyServer st) (dnsChainTagPrefix +:+ "apf") None [] "" false;
         chain_rule "respond" "" "" (Some (dnsChainTagPrefix +:+ "apf")) [] "" false]
  else inl "unknown mode".

Definition dnsChainRules (c : RouterConfig) (st : DNSChainPresetState) : (string + list DNSRule)%type :=
  match buildDNSChain st with
  | inl e => inl e
  | inr chain => match first_err (λ r, validateDNSRule r (dnsServerTypes c)) chain with Some e => inl e | None => inr chain end
  end.

Definition user_rules (rules : list DNSRule) : list DNSRule := filter (λ r, isManagedDNSChainRule r = false) rules.

Definition ensureDNSChainOverlay (st : option DNSChainPresetState) (c : RouterConfig) : result :=
  let kept := user_rules (DNSRules c) in
  match st with
  | None => inr (set_DNSRules kept c)
  | Some st =>
      if String.eqb (Mode st) "" then inr (set_DNSRules kept c)
      else match dnsChainRules c st with
      | inl e => inl e
      | inr chain => inr (set_DNSRules (kept ++ chain) c)
      end
  end.

(** ** The edits of the service ([service_dns.go])

    An edit loads the configuration, changes it, puts the rules of the preset back and
    writes it; each access to the configuration and to the settings may fail. The
    settings are what [settings.json] holds, since [dnsChainPresetState] reads the file. *)

(** The stored configuration (the draft, or else the applied one), the preset of the
    settings, and what the coming accesses do. *)
Record dns_world := { Cfg : RouterConfig; DNSChainPreset : option DNSChainPresetState; dns_faults : list bool }.

Definition set_Cfg c (w : dns_world) : dns_world := {| Cfg := c; DNSChainPreset := DNSChainPreset w; dns_faults := dns_faults w |}.
Definition set_preset p (w : dns_world) : dns_world := {| Cfg := Cfg w; DNSChainPreset := p; dns_faults := dns_faults w |}.
Definition set_dns_faults fs (w : dns_world) : dns_world := {| Cfg := Cfg w; DNSChainPreset := DNSChainPreset w; dns_faults := fs |}.

Abbreviation W := (ST dns_world).

Definition dns_fault : W bool := λ w,
  match dns_faults w with [] => (false, w) | b :: bs => (b, set_dns_faults bs w) end.

Definition loadRouterConfig : W (string + RouterConfig) :=
  bad ← dns_fault; w ← gets id; mret (if (bad : bool) then inl "load router config" else inr (Cfg w)).

(** [SettingsStore.Load] and the preset in it; a save that fails leaves the file. *)
Definition dnsChainPresetState : W (string + option DNSChainPresetState) :=
  bad ← dns_fault; w ← gets id; mret (if (bad : bool) then inl "load settings" else inr (DNSChainPreset w)).
Definition SetDNSChainPresetState (st : option DNSChainPresetState) : W (option string) :=
  bad ← dns_fault; if (bad : bool) then mret (Some "save settings") else _ ← modify (set_preset st); mret None.

Definition preset_active (st : option DNSChainPresetState) : bool :=
  match st with Some st => negb (String.eqb (Mode st) "") | None => false end.

(** The preset with its rules put at the end, when it is active. *)
Definition ensure_state (st : option DNSChainPresetState) (c : RouterConfig) : result :=
  if preset_active st then ensureDNSChainOverlay st c else inr c.
Definition ensureDNSChainOverlayFromState (c : RouterConfig) : W result :=
  r ← dnsChainPresetState; mret (match r with inl e => inl e | inr st => ensure_state st c end).

(** The preset after a server was renamed, if it names the server. *)
Definition renamed_preset (oldTag newTag : string) (p : DNSChainPresetState) : option DNSChainPresetState :=
  if String.eqb (Mode p) "" then None
  else if negb (String.eqb (DirectServer p) oldTag) && negb (String.eqb (ProxyServer p) oldTag) then None
  else Some {| Mode := Mode p;
               DirectServer := if String.eqb (DirectServer p) oldTag then newTag else DirectServer p;
               ProxyServer := if String.eqb (ProxyServer p) oldTag then newTag else ProxyServer p;
               PoisonCIDRs := PoisonCIDRs p |}.

Definition captureDNSChainServerRename (oldTag newTag : string) : W (option string) :=
  if String.eqb oldTag newTag then mret None
  else
    r ← dnsChainPresetState;
    match r with
    | inl e => mret (Some e)
    | inr None => mret None
    | inr (Some p) =>
        match renamed_preset oldTag newTag p with
        | None => mret None
        | Some p => SetDNSChainPresetState (Some p)
        end
    end.

Inductive dns_edit :=
  | EAddServer (s : DNSServer)
  | EUpdateServer (tag : string) (s : DNSServer)
  | EDeleteServer (tag : string) (force : bool)
  | EMoveServer (from to : Z)
  | EAddRule (r : DNSRule)
  | EUpdateRule (index : Z) (r : DNSRule)
  | EDeleteRule (index : Z)
  | EMoveRule (from to : Z)
  | ESetGlobals (final strategy : string)
  | ESetPreset (st : DNSChainPresetState).

(** [SetDNSChainPreset]'s function: the settings are written before the configuration. *)
Definition SetDNSChainPreset (st : DNSChainPresetState) (c : RouterConfig) : W result :=
  let stored := if String.eqb (Mode st) "" then None else Some st in
  match (if String.eqb (Mode st) "" then inr [] else dnsChainRules c st) with
  | inl e => mret (inl e)
  | inr _ =>
      e ← SetDNSChainPresetState stored;
      mret (match e with Some e => inl e | None => ensureDNSChainOverlay stored c end)
  end.

(** The function of an edit. *)
Definition edit_fn (e : dns_edit) (c : RouterConfig) : W result :=
  match e with
  | EAddServer s => mret (AddDNSServer s c)
  | EUpdateServer tag s =>
      match UpdateDNSServer tag s c with
      | inl e => mret (inl e)
      | inr c => e ← captureDNSChainServerRename tag (s_Tag s); mret (match e with Some e => inl e | None => inr c end)
      end
  | EDeleteServer tag force => mret (DeleteDNSServer tag force c)
  | EMoveServer from to => mret (MoveDNSServer from to c)
  | EAddRule r => mret (AddDNSRule r c)
  | EUpdateRule index r => mret (UpdateDNSRule index r c)
  | EDeleteRule index => mret (DeleteDNSRule index c)
  | EMoveRule from to => mret (MoveDNSRule from to c)
  | ESetGlobals final strategy => mret (SetDNSGlobals final strategy c)
  | ESetPreset st => SetDNSChainPreset st c
  end.

(** [persistConfig]: the files of the rule sets, the refusal of circular outbounds, and
    the draft, or its removal when nothing differs from the active file: either way the
    configuration is the effective one. *)
Definition persistConfig (c : RouterConfig) : W (option string) :=
  bad ← dns_fault;
  if (bad : bool) then mret (Some "materialize")
  else
    match validateNoCompositeCycles (Outbounds c) with
    | Some err => mret (Some err)
    | None =>
        bad ← dns_fault;
        if (bad : bool) then mret (Some "save draft") else _ ← modify (set_Cfg c); mret None
    end.

Definition withConfig (e : dns_edit) : W (option string) :=
  r ← loadRouterConfig;
  match r with
  | inl err => mret (Some err)
  | inr c =>
      r ← edit_fn e c;
      match r with
      | inl err => mret (Some err)
      | inr c =>
          r ← ensureDNSChainOverlayFromState c;
          match r with
          | inl err => mret (Some err)
          | inr c => persistConfig c
          end
      end
  end.
End dns.
