(* ===== verification/SbRouterDnsProps.v ===== *)
(** * DNS of the router configuration: what every edit preserves

    Servers, rules and resolvers refer to servers that exist, chained rules stand in a
    valid order, and the rules of the preset stand at the end. *)
From S2P Require Import Prelude GoLib GoText SbJson SbRouter SbRouterLib SbOutbounds SbRouterDns.

(** ** The types of the servers *)

Definition server_tags (c : RouterConfig) : list string := s_Tag <$> Servers c.

Definition types_of (l : list DNSServer) : gmap string string := foldl (λ m s, <[s_Tag s := s_Type s]> m) ∅ l.

Lemma types_of_snoc l s : types_of (l ++ [s]) = <[s_Tag s := s_Type s]> (types_of l).
Proof. unfold types_of. by rewrite foldl_app. Qed.

Lemma types_is_Some l t : is_Some (types_of l !! t) ↔ t ∈ s_Tag <$> l.
Proof.
  induction l as [|s l IH] using rev_ind; [split; [by intros []|by intros []%elem_of_nil]|].
  rewrite types_of_snoc, lookup_insert_is_Some, IH, fmap_app, elem_of_app. cbn. rewrite list_elem_of_singleton.
  destruct (base.decide (s_Tag s = t)); naive_solver.
Qed.

Lemma types_lookup l t ty : NoDup (s_Tag <$> l) → types_of l !! t = Some ty ↔ ∃ s, s ∈ l ∧ s_Tag s = t ∧ s_Type s = ty.
Proof.
  induction l as [|s l IH] using rev_ind; intros Hnd.
  { split; [done|]. by intros (s & []%elem_of_nil & _). }
  rewrite fmap_app in Hnd. apply NoDup_app in Hnd as (Hnd & Hdis & _). specialize (IH Hnd). rewrite types_of_snoc.
  destruct (base.decide (s_Tag s = t)) as [<-|Hne].
  - rewrite lookup_insert_eq. split.
    + intros [= <-]. exists s. split; [apply elem_of_app; right; by left|done].
    + intros (x & [Hx| ->%list_elem_of_singleton]%elem_of_app & Ht & <-); [|done]. exfalso.
      apply (Hdis (s_Tag s)); [apply list_elem_of_fmap; by exists x|by left].
  - rewrite lookup_insert_ne by done. rewrite IH. setoid_rewrite elem_of_app. setoid_rewrite list_elem_of_singleton. naive_solver.
Qed.

(** ** Validation of a rule, and what of it depends on the servers *)

Lemma or_else_None a b : or_else a b = None ↔ a = None ∧ b = None.
Proof. destruct a; cbn; naive_solver. Qed.

Section props.
Context `{U : GoUnicode} `{GP : GoParsers}.

Lemma rule_types r m m' : validateDNSRule r m = None → (∀ ty, m !! d_Server r = Some ty → m' !! d_Server r = Some ty) →
  validateDNSRule r m' = None.
Proof.
  unfold validateDNSRule. rewrite !or_else_None. intros (? & ? & ? & ? & ? & ? & Ha) Hty. split_and!; try done.
  unfold action_err in *. destruct (String.eqb (d_Action r) "reject"); [done|].
  destruct (String.eqb (d_Action r) "predefined"); [done|]. destruct (String.eqb (d_Action r) "respond"); [done|].
  destruct (blank (d_Server r)); [done|]. destruct (m !! d_Server r) as [ty|]; [|done]. by rewrite (Hty ty eq_refl).
Qed.

(** A rule whose server is renamed stays valid. *)
Lemma rule_renamed r m m' new ty : validateDNSRule r m = None → blank (d_Server r) = false → blank new = false →
  m' !! new = Some ty → (d_Action r = "evaluate" → ty ≠ "fakeip") → validateDNSRule (set_d_Server new r) m' = None.
Proof.
  unfold validateDNSRule. rewrite !or_else_None. intros (? & ? & ? & ? & ? & ? & Ha) Hb Hn Hm Hf. split_and!; try done.
  - cbn [d_Server set_d_Server]. by rewrite Hn, andb_false_r.
  - unfold action_err in *. cbn [d_Action d_Server set_d_Server RejectMethod Rcode] in *. rewrite Hb in Ha. cbn [negb] in Ha.
    rewrite Hn, Hm. destruct (String.eqb (d_Action r) "reject"); [done|]. destruct (String.eqb (d_Action r) "predefined"); [done|].
    destruct (String.eqb (d_Action r) "respond"); [done|]. destruct (String.eqb (d_Action r) "evaluate") eqn:Ee; [|done]. to_prop.
    cbn [andb]. destruct (String.eqb ty "fakeip") eqn:Et; [|done]. to_prop. exfalso. by apply Hf.
Qed.

Lemma blank_empty : blank "" = true.
Proof. unfold blank. by rewrite (TrimSpace_ascii "" eq_refl). Qed.

Lemma valid_server_tag s : validateDNSServer s = None → blank (s_Tag s) = false.
Proof. unfold validateDNSServer. by destruct (blank (s_Tag s)). Qed.

Lemma valid_rename_resolver old new s : validateDNSServer s = None → blank new = false →
  validateDNSServer (rename_resolver old new s) = None.
Proof.
  intros H Hn. unfold rename_resolver. destruct (s_DomainResolver s) as [dr|] eqn:Ed; [|done].
  destruct (String.eqb (dr_Server dr) old); [|done]. unfold validateDNSServer in *.
  cbn [s_Tag s_Type Inet4Range Inet6Range s_Server ServerPort s_Strategy s_DomainResolver s_TLS set_s_DomainResolver dr_Server dr_Strategy].
  rewrite Ed in H. destruct (blank (s_Tag s)); [done|]. destruct (listed validDNSTypes (s_Type s)); [|done]. cbn [negb] in *.
  destruct (String.eqb (s_Type s) "fakeip"); [done|]. destruct (_ && blank (s_Server s)); [done|]. destruct (_ || _); [done|].
  destruct (listed validDNSStrategies (s_Strategy s)); [|done]. cbn [negb] in *. rewrite or_else_None in *.
  destruct H as [H ?]. split; [|done]. rewrite Hn. by destruct (blank (dr_Server dr)).
Qed.

Lemma valid_no_resolver s : validateDNSServer s = None → validateDNSServer (set_s_DomainResolver None s) = None.
Proof.
  intros H. unfold validateDNSServer in *.
  cbn [s_Tag s_Type Inet4Range Inet6Range s_Server ServerPort s_Strategy s_DomainResolver s_TLS set_s_DomainResolver].
  destruct (blank (s_Tag s)); [done|]. destruct (listed validDNSTypes (s_Type s)); [|done]. cbn [negb] in *.
  destruct (String.eqb (s_Type s) "fakeip"); [done|]. destruct (_ && blank (s_Server s)); [done|]. destruct (_ || _); [done|].
  destruct (listed validDNSStrategies (s_Strategy s)); [|done]. cbn [negb] in *. rewrite or_else_None in *. by destruct H.
Qed.

(** ** Chains *)

Definition chain_ok (st : list string * bool) (rules : list DNSRule) : Prop := first_violation 0 st rules = None.

Lemma first_violation_shift i j st rules : first_violation i st rules = None ↔ first_violation j st rules = None.
Proof.
  revert i j st. induction rules as [|r rules IH]; [done|]. intros i j st. cbn. destruct (chain_step r st); [done|]. apply IH.
Qed.

Lemma chain_ok_cons st r rules : chain_ok st (r :: rules) ↔ ∃ st', chain_step r st = inr st' ∧ chain_ok st' rules.
Proof.
  unfold chain_ok. cbn. destruct (chain_step r st) as [e|st'].
  - split; [done|]. by intros (? & ? & _).
  - rewrite (first_violation_shift 1 0). split; [by exists st'|]. by intros (? & [= <-] & ?).
Qed.

Lemma validateDNSChain_ok rules : validateDNSChain rules = None ↔ chain_ok ([], false) rules.
Proof. unfold validateDNSChain, firstDNSChainViolation, chain_ok. by destruct (first_violation 0 _ rules). Qed.

Lemma first_violation_lt i st rules j e : first_violation i st rules = Some (j, e) → (i ≤ j < i + length rules)%nat.
Proof.
  revert i st. induction rules as [|r rules IH]; [done|]. intros i st. cbn. destruct (chain_step r st).
  - intros [= <- _]. lia.
  - intros H%IH. lia.
Qed.

(** The cascade ends, with no chain broken. *)
Lemma cascade_ok fuel rules : (length rules < fuel)%nat → chain_ok ([], false) (cascade fuel rules).
Proof.
  revert rules. induction fuel as [|fuel IH]; intros rules Hf; [lia|]. cbn [cascade].
  destruct (firstDNSChainViolation rules) as [[i e]|] eqn:Ev; [|done]. apply IH.
  apply first_violation_lt in Ev. rewrite length_remove_at; lia.
Qed.

Lemma remove_at_sublist {A} i (l : list A) : remove_at i l `sublist_of` l.
Proof.
  unfold remove_at. rewrite <- (take_drop i l) at 3. apply sublist_app; [done|].
  replace (S i) with (i + 1)%nat by lia. rewrite <- drop_drop. apply sublist_drop.
Qed.

Lemma cascade_sublist fuel rules : cascade fuel rules `sublist_of` rules.
Proof.
  revert rules. induction fuel as [|fuel IH]; intros rules; cbn [cascade]; [done|].
  destruct (firstDNSChainViolation rules) as [[i e]|]; [|done]. etrans; [apply IH|apply remove_at_sublist].
Qed.

Lemma sublist_elem {A} (l k : list A) x : l `sublist_of` k → x ∈ l → x ∈ k.
Proof. intros H Hx. by eapply sublist_subseteq. Qed.

(** The rules of a preset that evaluate carry a tag of the preset. *)
Definition managed_wf (r : DNSRule) : Prop :=
  isManagedDNSChainRule r = true → d_Action r = "evaluate" → HasPrefix (d_Tag r) dnsChainTagPrefix = true.

Definition same_user_tags (seen seen' : list string) : Prop :=
  ∀ t, HasPrefix t dnsChainTagPrefix = false → t ∈ seen ↔ t ∈ seen'.

Lemma listed_iff l l' x : (x ∈ l ↔ x ∈ l') → listed l x = listed l' x.
Proof. intros H. unfold listed. by apply bool_decide_ext. Qed.

Lemma prefix_nonempty t : HasPrefix t dnsChainTagPrefix = true → t ≠ "".
Proof. by intros H ->. Qed.

(** The error of a rule's reads, and the state its evaluation leaves. *)
Definition reads_err (r : DNSRule) (seen : list string) (anon : bool) : bool :=
  if IsEnabled (MatchResponse r) then
    let t := default "" (mr_Tag <$> MatchResponse r) in
    if String.eqb t "" then negb anon else negb (listed seen t)
  else String.eqb (d_Action r) "respond" && negb anon.

Lemma chain_step_eq r seen anon st' : chain_step r (seen, anon) = inr st' ↔
  reads_err r seen anon = false ∧
  (if String.eqb (d_Action r) "evaluate" then
     if String.eqb (d_Tag r) "" then st' = (seen, true) else listed seen (d_Tag r) = false ∧ st' = (d_Tag r :: seen, anon)
   else st' = (seen, anon)).
Proof.
  unfold chain_step, reads_err, IsEnabled. destruct (MatchResponse r) as [[en t]|]; cbn [mr_Enabled mr_Tag fmap option_fmap option_map from_option id];
    [destruct en; [destruct (String.eqb t "") eqn:Et; cbn [negb]; [destruct anon|destruct (listed seen t)]|]|];
    try (destruct (String.eqb (d_Action r) "respond" && negb anon)); cbn [negb];
    destruct (String.eqb (d_Action r) "evaluate"), (String.eqb (d_Tag r) ""), (listed seen (d_Tag r)); naive_solver.
Qed.

(** Dropping the rules of the preset breaks no chain. *)
Lemma user_rules_ok seen seen' anon rules : same_user_tags seen seen' → Forall managed_wf rules →
  chain_ok (seen, anon) rules → chain_ok (seen', anon) (user_rules rules).
Proof.
  revert seen seen' anon. induction rules as [|r rules IH]; intros seen seen' anon Hs Hw; [done|].
  apply Forall_cons in Hw as [Hr Hw]. intros (st' & Hst & Hc)%chain_ok_cons. apply chain_step_eq in Hst as [Hre Hev].
  unfold user_rules. rewrite filter_cons. destruct (base.decide (isManagedDNSChainRule r = false)) as [Hm|Hm].
  - unfold isManagedDNSChainRule in Hm. apply orb_false_iff in Hm as [Hm1 Hm2]. apply chain_ok_cons.
    assert (reads_err r seen' anon = false) as Hre'.
    { rewrite <- Hre. unfold reads_err. destruct (MatchResponse r) as [m|]; [|done]. cbn [IsEnabled fmap option_fmap option_map from_option id].
      cbv zeta.
      by rewrite (listed_iff seen' seen (mr_Tag m) (iff_sym (Hs _ Hm2))). }
    assert (listed seen' (d_Tag r) = listed seen (d_Tag r)) as Hl by (apply listed_iff, iff_sym, Hs; done).
    destruct (String.eqb (d_Action r) "evaluate") eqn:Ee; [destruct (String.eqb (d_Tag r) "") eqn:Et|].
    + subst st'. exists (seen', true). split; [apply chain_step_eq; by rewrite Ee, Et|by apply (IH seen)].
    + destruct Hev as [Hnl ->]. exists (d_Tag r :: seen', anon). split; [apply chain_step_eq; rewrite Ee, Et, Hl; done|].
      apply (IH (d_Tag r :: seen)); [|done|done]. intros t Ht. rewrite !elem_of_cons. by rewrite (Hs t Ht).
    + subst st'. exists (seen', anon). split; [apply chain_step_eq; by rewrite Ee|by apply (IH seen)].
  - apply not_false_iff_true in Hm. destruct (String.eqb (d_Action r) "evaluate") eqn:Ee; [|subst st'; by apply (IH seen)].
    to_prop. specialize (Hr Hm Ee). pose proof (prefix_nonempty _ Hr) as Hne. apply String.eqb_neq in Hne. rewrite Hne in Hev.
    destruct Hev as [_ ->]. apply (IH (d_Tag r :: seen)); [|done|done]. intros t Ht. rewrite elem_of_cons, <- (Hs t Ht).
    split; [intros [->|?]; [congruence|done]|by right].
Qed.

Lemma chain_ok_app seen anon l1 l2 : chain_ok (seen, anon) l1 →
  (∀ seen' anon', (∀ t, t ∈ seen' → t ∈ seen ∨ ∃ r, r ∈ l1 ∧ d_Tag r = t) → chain_ok (seen', anon') l2) →
  chain_ok (seen, anon) (l1 ++ l2).
Proof.
  revert seen anon. induction l1 as [|r l1 IH]; intros seen anon H1 H2; [apply H2; by left|].
  apply chain_ok_cons in H1 as ([seen1 anon1] & Hst & Hc). cbn [app]. apply chain_ok_cons. exists (seen1, anon1). split; [done|].
  apply IH; [done|]. intros seen' anon' Hin. apply H2. intros t Ht. destruct (Hin t Ht) as [H|(x & Hx & <-)].
  - apply chain_step_eq in Hst as [_ Hev]. destruct (String.eqb (d_Action r) "evaluate"); [|simplify_eq; by left].
    destruct (String.eqb (d_Tag r) ""); [simplify_eq; by left|]. destruct Hev as [_ [= -> _]].
    apply elem_of_cons in H as [->|?]; [right; exists r; split; [by left|done]|by left].
  - right. exists x. split; [by right|done].
Qed.

(** ** The invariant *)

Record dns_ok (c : RouterConfig) : Prop := {
  dk_nodup : NoDup (server_tags c);
  dk_valid : ∀ s, s ∈ Servers c → validateDNSServer s = None;
  dk_resolvers : ∀ s dr, s ∈ Servers c → s_DomainResolver s = Some dr → dr_Server dr ∈ server_tags c;
  dk_rules : ∀ r, r ∈ DNSRules c → validateDNSRule r (dnsServerTypes c) = None;
  dk_final : DNSFinal c = "" ∨ DNSFinal c ∈ server_tags c;
  dk_chain : chain_ok ([], false) (DNSRules c);
  dk_managed : Forall managed_wf (DNSRules c);
}.

Lemma types_eq c : dnsServerTypes c = types_of (Servers c).
Proof. done. Qed.

Lemma resolver_known c t : bool_decide (is_Some (dnsServerTypes c !! t)) = true → t ∈ server_tags c.
Proof. intros H. to_prop. by apply types_is_Some. Qed.

(** *** Rules *)

Lemma set_rules_ok c rules : dns_ok c → (∀ r, r ∈ rules → validateDNSRule r (dnsServerTypes c) = None) →
  chain_ok ([], false) rules → Forall managed_wf rules → dns_ok (set_DNSRules rules c).
Proof. intros [H1 H2 H3 H4 H5 H6 H7] Hr Hc Hw. by split. Qed.

Lemma with_chain_ok c rules c' : dns_ok c → (∀ r, r ∈ rules → r ∈ DNSRules c ∨
    (isManagedDNSChainRule r = false ∧ validateDNSRule r (dnsServerTypes c) = None)) →
  with_chain rules c = inr c' → dns_ok c'.
Proof.
  intros Hok Hr. unfold with_chain. destruct (validateDNSChain rules) eqn:Ev; [done|]. intros [= <-].
  apply validateDNSChain_ok in Ev. apply set_rules_ok; [done| |done|].
  - intros r Hin. destruct (Hr r Hin) as [?|[_ ?]]; [by apply dk_rules|done].
  - apply Forall_forall. intros r Hin. destruct (Hr r Hin) as [H|[Hm _]].
    + by apply (proj1 (Forall_forall _ _) (dk_managed c Hok)).
    + intros E1. congruence.
Qed.

Lemma add_rule_ok r c c' : dns_ok c → AddDNSRule r c = inr c' → dns_ok c'.
Proof.
  intros Hok. unfold AddDNSRule. destruct (isManagedDNSChainRule r) eqn:Em; [done|].
  destruct (validateDNSRule r _) eqn:Ev; [done|]. apply with_chain_ok; [done|].
  intros x [Hx| ->%list_elem_of_singleton]%elem_of_app; auto.
Qed.

Lemma update_rule_ok i r c c' : dns_ok c → UpdateDNSRule i r c = inr c' → dns_ok c'.
Proof.
  intros Hok. unfold UpdateDNSRule. destruct (negb _); [done|]. destruct (rule_managed _ _); [done|].
  destruct (isManagedDNSChainRule r) eqn:Em; [done|]. destruct (validateDNSRule r _) eqn:Ev; [done|].
  apply with_chain_ok; [done|]. intros x [->|?]%elem_insert_inv; auto.
Qed.

Lemma delete_rule_ok i c c' : dns_ok c → DeleteDNSRule i c = inr c' → dns_ok c'.
Proof.
  intros Hok. unfold DeleteDNSRule. destruct (negb _); [done|]. destruct (rule_managed _ _); [done|].
  apply with_chain_ok; [done|]. intros x Hx. left. eapply sublist_elem; [apply remove_at_sublist|done].
Qed.

Lemma move_rule_ok i j c c' : dns_ok c → MoveDNSRule i j c = inr c' → dns_ok c'.
Proof.
  intros Hok. unfold MoveDNSRule. destruct (in_range i _) eqn:Ei; [|done]. destruct (in_range j _) eqn:Ej; [|done]. cbn [negb orb].
  destruct (i =? j)%Z; [by intros [= <-]|]. destruct (rule_managed _ _); [done|]. apply with_chain_ok; [done|].
  apply in_range_spec in Ei as [_ Ei], Ej as [_ Ej]. intros x Hx. left. by rewrite (move_perm _ _ _ Ei Ej) in Hx.
Qed.

(** *** Servers *)

Lemma scrub_tag s : s_Tag (scrubDNSServerDetourForSingbox s) = s_Tag s.
Proof. unfold scrubDNSServerDetourForSingbox. by destruct (_ || _). Qed.

Lemma add_server_ok s c c' : dns_ok c → AddDNSServer s c = inr c' → dns_ok c'.
Proof.
  intros [H1 H2 H3 H4 H5 H6 H7]. unfold AddDNSServer. set (x := scrubDNSServerDetourForSingbox s).
  destruct (validateDNSServer x) eqn:Ev; [done|]. destruct (existsb _ _) eqn:Ex; [done|].
  destruct (match s_DomainResolver x with Some _ => _ | None => _ end) eqn:Er; [done|]. intros [= <-].
  assert (s_Tag x ∉ server_tags c) as Hfree.
  { intros (y & Hy & Hin)%list_elem_of_fmap. apply not_true_iff_false in Ex. apply Ex, existsb_exists. exists y.
    split; [by apply list_elem_of_In|by apply String.eqb_eq]. }
  assert (server_tags (set_Servers (Servers c ++ [x]) c) = server_tags c ++ [s_Tag x]) as Et
    by (unfold server_tags; cbn; by rewrite fmap_app).
  split; rewrite ?Et; cbn [Servers set_Servers DNSRules DNSFinal]; try done.
  - apply NoDup_app. split; [done|]. split; [|apply NoDup_singleton]. by intros t Ht ->%list_elem_of_singleton.
  - intros y [?| ->%list_elem_of_singleton]%elem_of_app; auto.
  - intros y dr [Hy| ->%list_elem_of_singleton]%elem_of_app Hdr; rewrite elem_of_app; [left; by eapply H3|].
    rewrite Hdr in Er. apply andb_false_iff in Er as [Er|Er]; to_prop; [right; rewrite Er; by left|left; by apply types_is_Some].
  - intros r Hr. apply (rule_types r (dnsServerTypes c)); [by apply H4|]. intros ty Hty. rewrite types_eq. cbn [Servers set_Servers].
    rewrite types_of_snoc, lookup_insert_ne; [done|]. intros Heq. apply Hfree. rewrite Heq. apply types_is_Some. by exists ty.
  - rewrite elem_of_app. destruct H5; auto.
Qed.

(** *** Renaming *)

Definition ren_rule (old new : string) (r : DNSRule) : DNSRule := if String.eqb (d_Server r) old then set_d_Server new r else r.

Definition renamed (old new : string) (c : RouterConfig) : RouterConfig :=
  set_DNSFinal (if String.eqb (DNSFinal c) old then new else DNSFinal c)
    (set_Servers (rename_resolver old new <$> Servers c) (set_DNSRules (ren_rule old new <$> DNSRules c) c)).

Lemma rename_eq old new c : renameDNSServerReferences old new c = renamed old new c.
Proof.
  unfold renameDNSServerReferences, renamed. cbn [DNSFinal set_Servers set_DNSRules Servers].
  by destruct (String.eqb (DNSFinal c) old).
Qed.

Lemma fmap_self {A} (f : A → A) (l : list A) : (∀ x, f x = x) → f <$> l = l.
Proof. intros H. induction l as [|x l IH]; [done|]. by rewrite fmap_cons, H, IH. Qed.

(** Nothing changes when the tag stays. *)
Lemma renamed_same t c : renamed t t c = c.
Proof.
  unfold renamed. rewrite !fmap_self.
  - destruct c as [? ? ? f]. cbn. destruct (String.eqb f t) eqn:E1; to_prop; [by subst|done].
  - intros r. unfold ren_rule. destruct (String.eqb (d_Server r) t) eqn:E1; to_prop; [|done]. destruct r; cbn in *; by subst.
  - intros s. unfold rename_resolver. destruct (s_DomainResolver s) as [[d st]|] eqn:Ed; [|done]. cbn.
    destruct (String.eqb d t) eqn:E1; to_prop; [|done]. destruct s; cbn in *; by subst.
Qed.

Lemma rename_resolver_fields old new s : s_Tag (rename_resolver old new s) = s_Tag s ∧ s_Type (rename_resolver old new s) = s_Type s.
Proof. unfold rename_resolver. destruct (s_DomainResolver s) as [dr|]; [|done]. by destruct (String.eqb _ _). Qed.

Lemma rename_resolver_ref old new s dr : s_DomainResolver (rename_resolver old new s) = Some dr →
  dr_Server dr = new ∨ ∃ dr0, s_DomainResolver s = Some dr0 ∧ dr_Server dr = dr_Server dr0 ∧ dr_Server dr ≠ old.
Proof.
  unfold rename_resolver. destruct (s_DomainResolver s) as [d|] eqn:Ed; [|by rewrite Ed].
  destruct (String.eqb (dr_Server d) old) eqn:E1; to_prop.
  - intros [= <-]. by left.
  - rewrite Ed. intros [= <-]. right. by exists d.
Qed.

Lemma chain_step_server new r st : chain_step (set_d_Server new r) st = chain_step r st.
Proof. done. Qed.

Lemma ren_rules_chain old new st rules : chain_ok st rules → chain_ok st (ren_rule old new <$> rules).
Proof.
  revert st. induction rules as [|r rules IH]; [done|]. intros st (st' & Hst & Hc)%chain_ok_cons. rewrite fmap_cons.
  apply chain_ok_cons. exists st'. split; [|by apply IH]. unfold ren_rule. by destruct (String.eqb _ _).
Qed.

(** *** Replacing a server *)

Lemma update_server_parts tag s c c' : UpdateDNSServer tag s c = inr c' →
  ∃ x idx y, s_Tag x = s_Tag s ∧ validateDNSServer x = None ∧ Servers c !! idx = Some y ∧ s_Tag y = tag ∧
  (tag ≠ s_Tag x → s_Tag x ∉ server_tags c) ∧
  (∀ dr, s_DomainResolver x = Some dr → dr_Server dr = s_Tag x ∨ (dr_Server dr ∈ server_tags c ∧ dr_Server dr ≠ tag)) ∧
  (s_Type x = "fakeip" → ∀ r, r ∈ DNSRules c → d_Server r = tag → d_Action r ≠ "evaluate") ∧
  c' = renamed tag (s_Tag x) (set_Servers (<[idx := x]> (Servers c)) c).
Proof.
  unfold UpdateDNSServer. set (x := scrubDNSServerDetourForSingbox s). destruct (validateDNSServer x) eqn:Ev; [done|].
  destruct (find_tag _ _ _ _ _ _) as [|[idx|]] eqn:Ef; [done| |done]. apply find_tag_some in Ef as [(y & Hy & Hty) Hfree].
  destruct (match s_DomainResolver x with Some _ => _ | None => _ end) eqn:Er; [done|].
  destruct (String.eqb (s_Type x) "fakeip" && _) eqn:Efk; [done|]. intros [= <-]. exists x, idx, y. split_and!; try done.
  - apply scrub_tag.
  - intros dr Hdr. rewrite Hdr in Er. to_prop. apply lookup_insert_is_Some in Er as [->|[Hne Hin]]; [by left|].
    apply lookup_delete_is_Some in Hin as [? Hin]. right. split; [by apply types_is_Some|done].
  - intros Hfk r Hr Hs He. rewrite Hfk, String.eqb_refl in Efk. cbn [andb] in Efk.
    apply not_true_iff_false in Efk. apply Efk, existsb_exists. exists r. split; [by apply list_elem_of_In|].
    by rewrite He, Hs, !String.eqb_refl.
  - destruct (String.eqb tag (s_Tag x)) eqn:Et; to_prop; [by rewrite <- Et, renamed_same|apply rename_eq].
Qed.

Lemma update_server_ok tag s c c' : dns_ok c → UpdateDNSServer tag s c = inr c' → dns_ok c'.
Proof.
  intros [H1 H2 H3 H4 H5 H6 H7] (x & idx & y & _ & Hv & Hy & Hyt & Hfree & Hres & Hfk & ->)%update_server_parts.
  set (new := s_Tag x) in *. set (S' := <[idx := x]> (Servers c)).
  assert (server_tags c !! idx = Some tag) as Htag by (unfold server_tags; by rewrite list_lookup_fmap, Hy; cbn; rewrite Hyt).
  set (c' := renamed tag new (set_Servers S' c)).
  assert (server_tags c' = <[idx := new]> (server_tags c)) as Et.
  { unfold server_tags, c', renamed. cbn. rewrite <- list_fmap_compose.
    rewrite (list_fmap_ext _ s_Tag) by (intros; apply rename_resolver_fields). unfold S'. by rewrite list_fmap_insert. }
  assert (NoDup (server_tags c')) as Hnd.
  { rewrite Et. apply (NoDup_insert _ _ tag); [done..|]. intros H. by apply Hfree. }
  assert (new ∈ server_tags c') as Hnew by (rewrite Et; apply list_elem_of_insert; by eapply lookup_lt_Some).
  assert (∀ t, t ∈ server_tags c → t ≠ tag → t ∈ server_tags c') as Hkeep by (intros; rewrite Et; by apply (elem_insert _ _ tag)).
  assert (∀ t ty, dnsServerTypes c' !! t = Some ty ↔ ∃ s0, s0 ∈ S' ∧ s_Tag s0 = t ∧ s_Type s0 = ty) as Hty.
  { intros t ty. rewrite types_eq, types_lookup by done. unfold c', renamed. cbn [Servers set_DNSFinal set_Servers]. split.
    - intros (z & (s0 & -> & Hs0)%list_elem_of_fmap & <- & <-). destruct (rename_resolver_fields tag new s0) as [-> ->]. by exists s0.
    - intros (s0 & Hs0 & <- & <-). destruct (rename_resolver_fields tag new s0) as [Ea Eb].
      exists (rename_resolver tag new s0). split; [apply list_elem_of_fmap; by exists s0|done]. }
  assert (x ∈ S') as Hx by (apply list_elem_of_insert; by eapply lookup_lt_Some).
  pose proof (valid_server_tag _ Hv) as Hnb. assert (blank tag = false) as Htb.
  { rewrite <- Hyt. apply valid_server_tag, H2. by eapply list_elem_of_lookup_2. }
  split; [done|..].
  - intros z (s0 & -> & [->|Hs0]%elem_insert_inv)%list_elem_of_fmap; apply valid_rename_resolver; auto.
  - intros z dr (s0 & -> & Hs0)%list_elem_of_fmap [->|(dr0 & Hd0 & E1 & Hne)]%rename_resolver_ref; [done|]. rewrite E1 in *.
    apply elem_insert_inv in Hs0 as [->|Hs0]; [|by apply Hkeep; [by eapply H3|]].
    destruct (Hres _ Hd0) as [->|[? ?]]; [done|by apply Hkeep].
  - intros z (r & -> & Hr)%list_elem_of_fmap. unfold ren_rule. destruct (String.eqb (d_Server r) tag) eqn:E1; to_prop.
    + apply (rule_renamed r (dnsServerTypes c) _ _ (s_Type x)); [by apply H4|by rewrite E1|done|apply Hty; by exists x|].
      intros Hev Hf. by apply (Hfk Hf r).
    + apply (rule_types r (dnsServerTypes c)); [by apply H4|]. intros ty. rewrite types_eq, types_lookup by done.
      intros (s0 & Hs0 & Hst & <-). apply Hty. exists s0. split; [|done]. apply (elem_insert _ _ y); [done..|]. congruence.
  - cbn [DNSFinal c' renamed set_DNSFinal]. destruct (String.eqb (DNSFinal (set_Servers S' c)) tag) eqn:E1; to_prop; [by right|].
    destruct H5 as [?|?]; [by left|right; by apply Hkeep].
  - by apply ren_rules_chain.
  - apply Forall_forall. intros z (r & -> & Hr)%list_elem_of_fmap. unfold ren_rule.
    assert (managed_wf r) by by apply (proj1 (Forall_forall _ _) H7). by destruct (String.eqb (d_Server r) tag).
Qed.

(** *** Deleting a server *)

Lemma resolver_is_iff tag s : resolver_is tag s = true ↔ ∃ dr, s_DomainResolver s = Some dr ∧ dr_Server dr = tag.
Proof.
  unfold resolver_is. destruct (s_DomainResolver s) as [dr|]; [|by split; [|by intros (? & ? & _)]]. rewrite String.eqb_eq. naive_solver.
Qed.

(** The scan for references finds every mention but a server's own. *)
Lemma no_dns_references tag c : dnsServerReferences tag c = [] ↔
  (∀ r, r ∈ DNSRules c → d_Server r ≠ tag) ∧
  (∀ s dr, s ∈ Servers c → s_Tag s ≠ tag → s_DomainResolver s = Some dr → dr_Server dr ≠ tag) ∧ DNSFinal c ≠ tag.
Proof.
  unfold dnsServerReferences. rewrite !app_nil, fmap_nil_iff, indices_nil, omap_nil.
  setoid_rewrite String.eqb_neq. split; intros (H1 & H2 & H3); split_and!; try done.
  - intros s dr Hs Hne Hd Heq. specialize (H2 s Hs). apply String.eqb_neq in Hne. rewrite Hne in H2.
    assert (resolver_is tag s = true) as Hr by (apply resolver_is_iff; by exists dr). by rewrite Hr in H2.
  - intros Heq. rewrite Heq, String.eqb_refl in H3. done.
  - intros s Hs. destruct (String.eqb (s_Tag s) tag) eqn:E1; [done|]. to_prop. destruct (resolver_is tag s) eqn:E2; [|done].
    apply resolver_is_iff in E2 as (dr & Hd & Hdr). by destruct (H2 s dr Hs E1 Hd).
  - apply String.eqb_neq in H3. by rewrite H3.
Qed.

(** A configuration without the server, with rules that are some of the old ones. *)
Lemma drop_server_ok tag c c' : dns_ok c →
  (∀ s', s' ∈ Servers c' → ∃ s, s ∈ Servers c ∧ s_Tag s ≠ tag ∧ s_Tag s' = s_Tag s ∧ s_Type s' = s_Type s ∧
     validateDNSServer s' = None ∧ ∀ dr, s_DomainResolver s' = Some dr → s_DomainResolver s = Some dr ∧ dr_Server dr ≠ tag) →
  server_tags c' = filter (.≠ tag) (server_tags c) →
  (∀ s, s ∈ Servers c → s_Tag s ≠ tag → ∃ s', s' ∈ Servers c' ∧ s_Tag s' = s_Tag s ∧ s_Type s' = s_Type s) →
  DNSRules c' `sublist_of` DNSRules c → (∀ r, r ∈ DNSRules c' → d_Server r ≠ tag) → chain_ok ([], false) (DNSRules c') →
  (DNSFinal c' = "" ∨ DNSFinal c' = DNSFinal c ∧ DNSFinal c ≠ tag) → dns_ok c'.
Proof.
  intros [H1 H2 H3 H4 H5 H6 H7] Hs Et Hs' Hr Hrt Hc Hf.
  assert (∀ t, t ∈ server_tags c' ↔ t ∈ server_tags c ∧ t ≠ tag) as Hin by (intros; rewrite Et, list_elem_of_filter; naive_solver).
  assert (NoDup (server_tags c')) as Hnd by (rewrite Et; by apply NoDup_filter).
  split; [done|..].
  - intros s' Hin'. by destruct (Hs s' Hin') as (s & _ & _ & _ & _ & ? & _).
  - intros s' dr Hin' Hd. destruct (Hs s' Hin') as (s & Hsin & _ & _ & _ & _ & Hdr). destruct (Hdr dr Hd) as [Hd' ?].
    apply Hin. split; [by eapply H3|done].
  - intros r Hin'. apply (rule_types r (dnsServerTypes c)); [apply H4; by eapply sublist_elem|]. intros ty.
    rewrite !types_eq, !types_lookup by done. intros (s & Hsin & Hst & <-). destruct (Hs' s Hsin) as (s' & ? & ? & ?).
    + rewrite Hst. by apply Hrt.
    + exists s'. split; [done|]. split; congruence.
  - destruct Hf as [?|[-> ?]]; [by left|]. destruct H5 as [?|?]; [by left|right; by apply Hin].
  - done.
  - apply Forall_forall. intros r Hin'. apply (proj1 (Forall_forall _ _) H7). by eapply sublist_elem.
Qed.

Lemma tags_filter_servers tag c : s_Tag <$> filter (λ s, s_Tag s ≠ tag) (Servers c) = filter (.≠ tag) (server_tags c).
Proof. exact (fmap_filter s_Tag (.≠ tag) (Servers c)). Qed.

Lemma delete_server_ok tag force c c' : dns_ok c → DeleteDNSServer tag force c = inr c' → dns_ok c'.
Proof.
  intros Hok. unfold DeleteDNSServer. destruct force.
  - rewrite andb_false_r. cbv zeta. set (kept := filter (λ r, d_Server r ≠ tag) (DNSRules c)).
    set (rules := cascade (S (length kept)) kept). assert (rules `sublist_of` kept) as Hsub by apply cascade_sublist.
    intros [= <-]. set (g := λ s, if resolver_is tag s then set_s_DomainResolver None s else s).
    assert (∀ s, s_Tag (g s) = s_Tag s ∧ s_Type (g s) = s_Type s) as Hg by (intros s; unfold g; by destruct (resolver_is tag s)).
    set (c1 := set_Servers _ _). assert (Servers c1 = g <$> filter (λ s, s_Tag s ≠ tag) (Servers c)) as Es by done.
    set (c2 := if String.eqb (DNSFinal _) tag then _ else c1).
    assert (Servers c2 = Servers c1 ∧ DNSRules c2 = rules ∧
      (DNSFinal c2 = "" ∨ DNSFinal c2 = DNSFinal c ∧ DNSFinal c ≠ tag)) as (Es2 & Er2 & Hf2).
    { unfold c2. cbn [DNSFinal c1 set_Servers set_DNSRules]. destruct (String.eqb (DNSFinal c) tag) eqn:E1; to_prop; [by auto|].
      split_and!; [done..|]. by right. }
    apply (drop_server_ok tag c); rewrite ?Es2, ?Er2, ?Es; [done|..|done].
    + intros s' (s & -> & [Hne Hs]%list_elem_of_filter)%list_elem_of_fmap. exists s. destruct (Hg s). split_and!; try done.
      * unfold g. destruct (resolver_is tag s); [apply valid_no_resolver|]; by apply (dk_valid c Hok).
      * unfold g. intros dr. destruct (resolver_is tag s) eqn:E1; [done|]. intros Hd. split; [done|]. intros Heq.
        assert (resolver_is tag s = true) by (apply resolver_is_iff; by exists dr). congruence.
    + unfold server_tags at 1. rewrite Es2, Es, <- list_fmap_compose, <- tags_filter_servers. apply list_fmap_ext. intros. apply Hg.
    + intros s Hs Hne. exists (g s). destruct (Hg s). split; [|done]. apply list_elem_of_fmap. exists s. split; [done|].
      by apply list_elem_of_filter.
    + etrans; [exact Hsub|apply sublist_filter].
    + intros r Hr. eapply sublist_elem in Hr; [|exact Hsub]. by apply list_elem_of_filter in Hr as [? _].
    + apply cascade_ok. lia.
  - rewrite andb_true_r. destruct (dnsServerReferences tag c) eqn:Er; [|done]. apply no_dns_references in Er as (R1 & R2 & R3).
    intros [= <-]. apply (drop_server_ok tag c); cbn [Servers set_Servers DNSRules DNSFinal]; try done; [..|apply dk_chain; done|by right].
    + intros s [Hne Hs]%list_elem_of_filter. exists s. split_and!; try done; [by apply (dk_valid c Hok)|].
      intros dr Hd. split; [done|by apply (R2 s)].
    + apply tags_filter_servers.
    + intros s Hs Hne. exists s. split; [by apply list_elem_of_filter|done].
Qed.

Lemma move_server_ok i j c c' : dns_ok c → MoveDNSServer i j c = inr c' → dns_ok c'.
Proof.
  intros Hok. unfold MoveDNSServer. destruct (in_range i _) eqn:Ei; [|done]. destruct (in_range j _) eqn:Ej; [|done]. cbn [negb orb].
  destruct (i =? j)%Z; [by intros [= <-]|]. intros [= <-]. destruct Hok as [H1 H2 H3 H4 H5 H6 H7].
  apply in_range_spec in Ei as [_ Ei], Ej as [_ Ej]. pose proof (move_perm _ _ _ Ei Ej) as Hp.
  set (c' := set_Servers _ c). assert (server_tags c' ≡ₚ server_tags c) as Ht by (unfold server_tags, c'; cbn; by rewrite Hp).
  assert (NoDup (server_tags c')) as Hnd by by rewrite Ht.
  split; [done|..]; cbn [c' Servers set_Servers DNSRules DNSFinal]; rewrite ?Ht; try done.
  - intros s. rewrite Hp. apply H2.
  - intros s dr. rewrite Hp, Ht. apply H3.
  - intros r Hr. apply (rule_types r (dnsServerTypes c)); [by apply H4|]. intros ty. rewrite !types_eq, !types_lookup by done.
    cbn [c' Servers set_Servers]. intros (s & Hs & ?). exists s. split; [by rewrite Hp|done].
Qed.

Lemma set_globals_ok final strategy c c' : dns_ok c → SetDNSGlobals final strategy c = inr c' → dns_ok c'.
Proof.
  intros [H1 H2 H3 H4 H5 H6 H7]. unfold SetDNSGlobals. destruct (negb (String.eqb final "") && _) eqn:Ef; [done|].
  destruct (negb (listed _ _)); [done|]. intros [= <-]. split; try done. cbn. apply andb_false_iff in Ef as [Ef|Ef]; to_prop; [by left|right].
  by apply types_is_Some.
Qed.

(** ** The rules of the preset *)

Lemma user_rules_app l1 l2 : user_rules (l1 ++ l2) = user_rules l1 ++ user_rules l2.
Proof. apply filter_app. Qed.

Lemma user_rules_idem l : user_rules (user_rules l) = user_rules l.
Proof.
  unfold user_rules. induction l as [|r l IH]; [done|]. rewrite filter_cons.
  destruct (base.decide (isManagedDNSChainRule r = false)); [|done]. by rewrite filter_cons_True, IH by done.
Qed.

(** A preset's rules are all managed, evaluate under tags of the preset, and form a
    valid chain behind rules without such tags. *)
Lemma chain_props st chain : buildDNSChain st = inr chain →
  user_rules chain = [] ∧ Forall managed_wf chain ∧
  ∀ seen anon, (∀ t, t ∈ seen → HasPrefix t dnsChainTagPrefix = false) → chain_ok (seen, anon) chain.
Proof.
  unfold buildDNSChain. intros Hb.
  assert (∀ seen t, (∀ t, t ∈ seen → HasPrefix t dnsChainTagPrefix = false) → HasPrefix t dnsChainTagPrefix = true →
    listed seen t = false) as Hfresh.
  { intros seen t Hs Ht. apply bool_decide_eq_false. intros Hin%Hs. congruence. }
  assert (∀ (seen : list string) t, listed (t :: seen) t = true) as Hhead by (intros; apply bool_decide_eq_true; by left).
  assert (∀ (seen : list string) x t, x ≠ t → listed (x :: seen) t = listed seen t) as Hcons.
  { intros seen x t Hne. apply listed_iff. rewrite elem_of_cons. naive_solver. }
  destruct (String.eqb (Mode st) "resilient"); [|destruct (String.eqb (Mode st) "antipoison"); [|done]];
    injection Hb as <-; (split; [done|split; [repeat (apply Forall_cons; split; [by intros _ ?|]); exact (List.Forall_nil _)|]]);
    intros seen anon Hs; unfold chain_ok; cbv -[listed];
    repeat first [progress cbv -[listed] | rewrite Hhead | rewrite Hcons by done | rewrite (Hfresh seen) by done]; done.
Qed.

Lemma dnsChainRules_parts c st chain : dnsChainRules c st = inr chain →
  buildDNSChain st = inr chain ∧ ∀ r, r ∈ chain → validateDNSRule r (dnsServerTypes c) = None.
Proof.
  unfold dnsChainRules. destruct (buildDNSChain st) as [|l]; [done|]. destruct (first_err _ l) eqn:Ef; [done|].
  intros [= <-]. split; [done|by apply first_err_None_iff].
Qed.

(** The overlay replaces the managed rules by the preset's, at the end. *)
Lemma overlay_parts st c c' : ensureDNSChainOverlay st c = inr c' →
  ∃ chain, c' = set_DNSRules (user_rules (DNSRules c) ++ chain) c ∧
    if preset_active st then ∃ p, st = Some p ∧ dnsChainRules c p = inr chain else chain = [].
Proof.
  unfold ensureDNSChainOverlay, preset_active. destruct st as [p|].
  - destruct (String.eqb (Mode p) ""); cbn [negb].
    + intros [= <-]. exists []. by rewrite app_nil_r.
    + destruct (dnsChainRules c p) as [|chain] eqn:Ec; [done|]. intros [= <-]. exists chain. split; [done|by exists p].
  - intros [= <-]. exists []. by rewrite app_nil_r.
Qed.

Lemma user_rule_tag r : isManagedDNSChainRule r = false → HasPrefix (d_Tag r) dnsChainTagPrefix = false.
Proof. unfold isManagedDNSChainRule. by intros [? _]%orb_false_iff. Qed.

Lemma overlay_ok st c c' : dns_ok c → ensureDNSChainOverlay st c = inr c' → dns_ok c'.
Proof.
  intros Hok (chain & -> & Hch)%overlay_parts.
  assert (user_rules chain = [] ∧ Forall managed_wf chain ∧ (∀ r, r ∈ chain → validateDNSRule r (dnsServerTypes c) = None) ∧
    ∀ seen anon, (∀ t, t ∈ seen → HasPrefix t dnsChainTagPrefix = false) → chain_ok (seen, anon) chain) as (_ & Hw & Hv & Hc).
  { destruct (preset_active st).
    2:{ subst. split; [done|]. split; [exact (List.Forall_nil _)|]. split; [by intros r []%elem_of_nil|done]. }
    destruct Hch as (p & _ & (Hb & Hv)%dnsChainRules_parts). destruct (chain_props p chain Hb) as (? & ? & ?). done. }
  assert (∀ r, r ∈ user_rules (DNSRules c) → r ∈ DNSRules c ∧ isManagedDNSChainRule r = false) as Hu
    by (intros r [? ?]%list_elem_of_filter; done).
  apply set_rules_ok; [done|..].
  - intros r [[Hr _]%Hu|Hr]%elem_of_app; [by apply dk_rules|by apply Hv].
  - apply chain_ok_app; [apply (user_rules_ok []); [done|apply dk_managed; done|apply dk_chain; done]|].
    intros seen anon Hs. apply Hc. intros t Ht. destruct (Hs t Ht) as [[]%elem_of_nil|(r & [_ Hm]%Hu & <-)]. by apply user_rule_tag.
  - apply Forall_app. split; [|done]. apply Forall_forall. intros r [Hr _]%Hu.
    by apply (proj1 (Forall_forall _ _) (dk_managed c Hok)).
Qed.

Lemma overlay_state_ok st c c' : dns_ok c → ensure_state st c = inr c' → dns_ok c'.
Proof.
  intros Hok. unfold ensure_state. destruct (preset_active st); [by apply overlay_ok|by intros [= <-]].
Qed.

(** ** Edits *)

(** The preset an edit is to leave. *)
Definition intended (e : dns_edit) (st : option DNSChainPresetState) : option DNSChainPresetState :=
  match e with
  | ESetPreset p => if String.eqb (Mode p) "" then None else Some p
  | EUpdateServer tag s =>
      if String.eqb tag (s_Tag s) then st
      else match st with Some p => Some (default p (renamed_preset tag (s_Tag s) p)) | None => None end
  | _ => st
  end.

Lemma dns_fault_frame w : let w' := (dns_fault w).2 in Cfg w' = Cfg w ∧ DNSChainPreset w' = DNSChainPreset w.
Proof. unfold dns_fault. by destruct (dns_faults w). Qed.

Lemma preset_state_run w : let '(r, w') := dnsChainPresetState w in
  Cfg w' = Cfg w ∧ DNSChainPreset w' = DNSChainPreset w ∧ match r with inl _ => True | inr st => st = DNSChainPreset w end.
Proof.
  unfold dnsChainPresetState, mbind, ST_bind. pose proof (dns_fault_frame w) as [E1 E2].
  destruct (dns_fault w) as [[] w1]; by cbn in *.
Qed.

Lemma save_preset_run st w : let '(e, w') := SetDNSChainPresetState st w in
  Cfg w' = Cfg w ∧ DNSChainPreset w' = match e with Some _ => DNSChainPreset w | None => st end.
Proof.
  unfold SetDNSChainPresetState, mbind, ST_bind. pose proof (dns_fault_frame w) as [E1 E2].
  destruct (dns_fault w) as [[] w1]; by cbn in *.
Qed.

Lemma capture_run tag s w : let '(e, w') := captureDNSChainServerRename tag (s_Tag s) w in
  Cfg w' = Cfg w ∧
  DNSChainPreset w' = match e with Some _ => DNSChainPreset w | None => intended (EUpdateServer tag s) (DNSChainPreset w) end.
Proof.
  unfold captureDNSChainServerRename, intended. destruct (String.eqb tag _); [done|]. unfold mbind, ST_bind.
  pose proof (preset_state_run w) as H. destruct (dnsChainPresetState w) as [[e|st] w1]; destruct H as (E1 & E2 & E3); [done|].
  subst st. destruct (DNSChainPreset w) as [p|]; [|done]. destruct (renamed_preset _ _ p) as [p'|]; [|done].
  pose proof (save_preset_run (Some p') w1) as H. destruct (SetDNSChainPresetState _ w1) as [[e|] w2]; destruct H; cbn; split; congruence.
Qed.

(** An edit that fails may have saved the preset already; one that succeeds has. *)
Lemma edit_fn_run e c w : dns_ok c → let '(r, w') := edit_fn e c w in
  Cfg w' = Cfg w ∧
  match r with
  | inl _ => DNSChainPreset w' = DNSChainPreset w ∨ DNSChainPreset w' = intended e (DNSChainPreset w)
  | inr c' => dns_ok c' ∧ DNSChainPreset w' = intended e (DNSChainPreset w)
  end.
Proof.
  intros Hok.
  assert (∀ r, (∀ c', r = inr c' → dns_ok c') → intended e (DNSChainPreset w) = DNSChainPreset w → let '(r, w') := (mret r : ST dns_world result) w in
    Cfg w' = Cfg w ∧ match r with
    | inl _ => DNSChainPreset w' = DNSChainPreset w ∨ DNSChainPreset w' = intended e (DNSChainPreset w)
    | inr c' => dns_ok c' ∧ DNSChainPreset w' = intended e (DNSChainPreset w) end) as Hpure.
  { intros [er|c'] Hc Hi; cbn; split; [done|by left|done|]. by auto. }
  destruct e; cbn [edit_fn]; [apply Hpure; [intros c' H|done]| |apply Hpure; [intros c' H|done]..|].
  - by eapply add_server_ok.
  - destruct (UpdateDNSServer tag s c) as [er|c1] eqn:Eu; [by cbn; auto|]. unfold mbind, ST_bind.
    pose proof (capture_run tag s w) as H. destruct (captureDNSChainServerRename _ _ w) as [[er|] w1]; destruct H as [E1 E2]; cbn;
      (split; [done|]); [by left|]. split; [by eapply update_server_ok|done].
  - by eapply delete_server_ok.
  - by eapply move_server_ok.
  - by eapply add_rule_ok.
  - by eapply update_rule_ok.
  - by eapply delete_rule_ok.
  - by eapply move_rule_ok.
  - by eapply set_globals_ok.
  - unfold SetDNSChainPreset. destruct (if String.eqb (Mode st) "" then _ else _) as [er|]; [by cbn; auto|]. unfold mbind, ST_bind.
    set (stored := if String.eqb (Mode st) "" then None else Some st). pose proof (save_preset_run stored w) as H.
    destruct (SetDNSChainPresetState stored w) as [[er|] w1]; destruct H as [E1 E2]; cbn; (split; [done|]); [by left|].
    destruct (ensureDNSChainOverlay stored c) as [er|c1] eqn:Eo; [by right|]. split; [by eapply overlay_ok|done].
Qed.

(** The preset's rules stand at the end, behind rules that are not managed. *)
Definition preset_in_place (w : dns_world) : Prop :=
  ∀ p, DNSChainPreset w = Some p → Mode p ≠ "" →
  ∃ chain, dnsChainRules (Cfg w) p = inr chain ∧ DNSRules (Cfg w) = user_rules (DNSRules (Cfg w)) ++ chain.

Lemma overlay_in_place c w : ensure_state (DNSChainPreset w) c = inr (Cfg w) → preset_in_place w.
Proof.
  destruct w as [c' st fs]. intros H p Hp Hm. cbn in H, Hp. subst st. apply String.eqb_neq in Hm as Hm'. unfold ensure_state, preset_active in H.
  rewrite Hm' in H. cbn [negb] in H. apply overlay_parts in H as (chain & -> & Hch). cbn [preset_active] in Hch.
  rewrite Hm' in Hch. destruct Hch as (p' & [= <-] & Hch). exists chain. split; [done|]. cbn [Cfg DNSRules set_DNSRules].
  apply dnsChainRules_parts in Hch as [Hb _]. destruct (chain_props p chain Hb) as (Hn & _).
  by rewrite user_rules_app, Hn, user_rules_idem, app_nil_r.
Qed.

(** C10: Every edit of the DNS section — of servers, rules, their order, the globals or
    the preset — of a consistent configuration, whichever access to the configuration or
    the settings fails: when it succeeds, the section is consistent again (server tags
    distinct, all servers and rules valid, every resolver, rule and the final server
    naming a server that exists, no chained rule without its evaluate rule), the settings
    hold the preset the edit is to leave, and the rules of an active preset stand at the
    end; when it fails, the configuration is as before and the preset is the old one or,
    saved before the failure, the one the edit was to leave, whose rules need not be in
    place then ([failed_edit_keeps_new_preset]). *)
Theorem dns_edits_keep_config (e : dns_edit) (w : dns_world) (Hok : dns_ok (Cfg w)) :
  let '(err, w') := withConfig e w in
  dns_ok (Cfg w') ∧
  match err with
  | None => preset_in_place w' ∧ DNSChainPreset w' = intended e (DNSChainPreset w)
  | Some _ => Cfg w' = Cfg w ∧ (DNSChainPreset w' = DNSChainPreset w ∨ DNSChainPreset w' = intended e (DNSChainPreset w))
  end.
Proof.
  unfold withConfig, loadRouterConfig. unfold mbind, ST_bind. pose proof (dns_fault_frame w) as [E1 E2].
  destruct (dns_fault w) as [[] w1]; cbn in E1, E2; cbn [gets mret ST_ret id]; unfold id; [rewrite E1, E2; by auto|]. rewrite <- E1 in Hok.
  pose proof (edit_fn_run e (Cfg w1) w1 Hok) as H2. destruct (edit_fn e (Cfg w1) w1) as [[er|c2] w2]; destruct H2 as [E3 H2];
    [cbn [mret ST_ret]; rewrite E3, <- E1, <- E2; by auto|]. destruct H2 as [Hc2 E4].
  unfold ensureDNSChainOverlayFromState, mbind, ST_bind. pose proof (preset_state_run w2) as H3.
  destruct (dnsChainPresetState w2) as [[er|st] w3]; destruct H3 as (E5 & E6 & E7); cbn [mret ST_ret].
  { rewrite E5, E6, E3, E4, <- E1, <- E2. by auto. }
  subst st. destruct (ensure_state (DNSChainPreset w2) c2) as [er|c3] eqn:Eo; [cbn [mret ST_ret]; rewrite E5, E6, E3, E4, <- E1, <- E2; by auto|].
  assert (dns_ok c3) as Hc3 by by eapply overlay_state_ok.
  assert (∀ err w', Cfg w' = Cfg w3 → DNSChainPreset w' = DNSChainPreset w3 → dns_ok (Cfg w') ∧
    match Some err : option string with None => preset_in_place w' ∧ DNSChainPreset w' = intended e (DNSChainPreset w)
    | Some _ => Cfg w' = Cfg w ∧ (DNSChainPreset w' = DNSChainPreset w ∨ DNSChainPreset w' = intended e (DNSChainPreset w)) end) as Hfail.
  { intros err w' F1 F2. rewrite F1, F2, E5, E6, E3, E4, <- E1, <- E2. by auto. }
  unfold persistConfig, mbind, ST_bind. pose proof (dns_fault_frame w3) as [E8 E9]. destruct (dns_fault w3) as [[] w4]; cbn in E8, E9; [by apply (Hfail "")|].
  destruct (validateNoCompositeCycles (Outbounds c3)); [by apply (Hfail "")|].
  pose proof (dns_fault_frame w4) as [F8 F9]. destruct (dns_fault w4) as [[] w5]; cbn in F8, F9; [by apply (Hfail ""); congruence|].
  cbn [modify mret ST_ret]. split; [done|]. split; [|cbn; congruence]. apply (overlay_in_place c2). cbn. congruence.
Qed.

Lemma types_set_rules rules c : dnsServerTypes (set_DNSRules rules c) = dnsServerTypes c.
Proof. done. Qed.

(** Putting the preset's rules in place keeps the user's rules in their order, and
    doing it again changes nothing. *)
Theorem overlay_idempotent (st : option DNSChainPresetState) (c : RouterConfig) :
  match ensureDNSChainOverlay st c with
  | inl _ => True
  | inr c' => ensureDNSChainOverlay st c' = inr c' ∧ user_rules (DNSRules c') = user_rules (DNSRules c) ∧
      c' = set_DNSRules (DNSRules c') c
  end.
Proof.
  destruct (ensureDNSChainOverlay st c) as [|c'] eqn:Eo; [done|]. pose proof Eo as Eo'.
  apply overlay_parts in Eo as (chain & -> & Hch). cbn [DNSRules set_DNSRules].
  assert (user_rules chain = []) as Hn.
  { destruct (preset_active st); [|by subst]. destruct Hch as (p & _ & (Hb & _)%dnsChainRules_parts). by apply chain_props in Hb as (? & _). }
  assert (user_rules (user_rules (DNSRules c) ++ chain) = user_rules (DNSRules c)) as Hu
    by by rewrite user_rules_app, Hn, user_rules_idem, app_nil_r.
  split; [|by split]. unfold ensureDNSChainOverlay in *. cbn [DNSRules set_DNSRules]. rewrite Hu. destruct st as [p|]; [|done].
  destruct (String.eqb (Mode p) ""); [done|]. unfold dnsChainRules in *. rewrite types_set_rules.
  destruct (buildDNSChain p) as [|l]; [done|]. by destruct (first_err _ l).
Qed.

(** ** What a valid chain is *)

Definition evaluates (r : DNSRule) (t : string) : Prop := d_Action r = "evaluate" ∧ d_Tag r = t.

(** The evaluation a rule reads: of a tag, or with the empty tag an anonymous one. *)
Definition reads (r : DNSRule) (t : string) : Prop :=
  match MatchResponse r with
  | Some m => if mr_Enabled m then mr_Tag m = t else d_Action r = "respond" ∧ t = ""
  | None => d_Action r = "respond" ∧ t = ""
  end.

(** A rule behind the rules [above]. *)
Record well_placed (above : list DNSRule) (r : DNSRule) : Prop := {
  wp_reads : ∀ t, reads r t → ∃ q, q ∈ above ∧ evaluates q t;
  wp_unique : ∀ t q, evaluates r t → t ≠ "" → q ∈ above → ¬ evaluates q t;
}.

(** The state of the scan behind the rules [above]. *)
Record scanned (above : list DNSRule) (seen : list string) (anon : bool) : Prop := {
  sc_seen : ∀ t, t ≠ "" → t ∈ seen ↔ ∃ q, q ∈ above ∧ evaluates q t;
  sc_anon : anon = true ↔ ∃ q, q ∈ above ∧ evaluates q "";
}.

Lemma reads_err_iff above seen anon r : scanned above seen anon →
  reads_err r seen anon = false ↔ ∀ t, reads r t → ∃ q, q ∈ above ∧ evaluates q t.
Proof.
  intros [Hs Ha]. unfold reads_err, reads, IsEnabled.
  assert (∀ b : bool, negb b = false ↔ b = true) as Hnegb by by intros [].
  destruct (MatchResponse r) as [[[] t]|]; cbn [mr_Enabled mr_Tag fmap option_fmap option_map from_option id].
  - destruct (String.eqb t "") eqn:Et; to_prop.
    + subst t. rewrite Hnegb, Ha. naive_solver.
    + rewrite Hnegb. unfold listed. rewrite bool_decide_eq_true, Hs by done. naive_solver.
  - rewrite andb_false_iff, Hnegb, Ha, String.eqb_neq. destruct (base.decide (d_Action r = "respond")); naive_solver.
  - rewrite andb_false_iff, Hnegb, Ha, String.eqb_neq. destruct (base.decide (d_Action r = "respond")); naive_solver.
Qed.

Lemma chain_step_iff above seen anon r : scanned above seen anon →
  (∃ st, chain_step r (seen, anon) = inr st) ↔ well_placed above r.
Proof.
  intros Hsc. setoid_rewrite chain_step_eq.
  pose proof (reads_err_iff above seen anon r Hsc) as Hre. destruct Hsc as [Hs Ha]. split.
  - intros (st & Hr & He). split; [by apply Hre|]. intros t q [Hact <-] Hne Hq Hev. rewrite Hact, String.eqb_refl in He.
    apply String.eqb_neq in Hne as Hne'. rewrite Hne' in He. destruct He as [Hl _]. unfold listed in Hl. to_prop.
    apply Hl, Hs; [done|]. by exists q.
  - intros [Hr Hu]. destruct (String.eqb (d_Action r) "evaluate") eqn:Ea; [destruct (String.eqb (d_Tag r) "") eqn:Et|].
    + eexists. split; [by apply Hre|done].
    + to_prop. eexists. split; [by apply Hre|split; [|done]]. apply bool_decide_eq_false. intros (q & Hq & Hev)%Hs; [|done].
      by apply (Hu (d_Tag r) q).
    + eexists. split; [by apply Hre|done].
Qed.

Lemma scanned_step above seen anon r seen' anon' : scanned above seen anon → chain_step r (seen, anon) = inr (seen', anon') →
  scanned (above ++ [r]) seen' anon'.
Proof.
  intros [Hs Ha] [_ He]%chain_step_eq.
  assert (∀ t, (∃ q, q ∈ above ++ [r] ∧ evaluates q t) ↔ (∃ q, q ∈ above ∧ evaluates q t) ∨ evaluates r t) as Happ.
  { intros t. setoid_rewrite elem_of_app. setoid_rewrite list_elem_of_singleton. naive_solver. }
  destruct (String.eqb (d_Action r) "evaluate") eqn:Ea; [destruct (String.eqb (d_Tag r) "") eqn:Et|]; to_prop.
  - injection He as -> ->. split; [intros t Hne; rewrite Happ, Hs by done|rewrite Happ].
    + unfold evaluates. naive_solver.
    + unfold evaluates. naive_solver.
  - destruct He as [_ [= -> ->]]. split; [intros t Hne; rewrite Happ, elem_of_cons, Hs by done|rewrite Happ, Ha].
    + unfold evaluates. naive_solver.
    + unfold evaluates. naive_solver.
  - injection He as -> ->. split; [intros t Hne; rewrite Happ, Hs by done|rewrite Happ, Ha]; unfold evaluates; naive_solver.
Qed.

Lemma chain_ok_iff above seen anon rules : scanned above seen anon →
  chain_ok (seen, anon) rules ↔ ∀ i r, rules !! i = Some r → well_placed (above ++ take i rules) r.
Proof.
  revert above seen anon. induction rules as [|r rules IH]; intros above seen anon Hsc; [by split|]. rewrite chain_ok_cons. split.
  - intros ([seen' anon'] & Hst & Hc) [|i] q Hq; cbn in Hq.
    + injection Hq as <-. cbn. rewrite app_nil_r. apply (chain_step_iff above seen anon); [done|by eexists].
    + cbn. rewrite (cons_middle r above), app_assoc. by apply (proj1 (IH _ _ _ (scanned_step _ _ _ _ _ _ Hsc Hst)) Hc).
  - intros H. pose proof (H 0%nat r eq_refl) as H0. cbn in H0. rewrite app_nil_r in H0.
    apply (chain_step_iff above seen anon) in H0 as [[seen' anon'] Hst]; [|done]. exists (seen', anon'). split; [done|].
    apply (IH (above ++ [r])); [by eapply scanned_step|]. intros i q Hq. specialize (H (S i) q Hq). cbn in H.
    by rewrite (cons_middle r above), app_assoc in H.
Qed.

(** C28: The order of chained DNS rules is accepted exactly when every rule that reads an
    evaluation (a tagged one, or the anonymous one) has a rule above it that evaluates
    it, and no tag is evaluated twice. *)
Theorem validateDNSChain_spec (rules : list DNSRule) :
  validateDNSChain rules = None ↔ ∀ i r, rules !! i = Some r → well_placed (take i rules) r.
Proof.
  rewrite validateDNSChain_ok. apply (chain_ok_iff []). split.
  - intros t _. split; [by intros []%elem_of_nil|by intros (q & []%elem_of_nil & _)].
  - split; [done|by intros (q & []%elem_of_nil & _)].
Qed.

(** C30: The clean-up of a forced deletion ends within one step for each rule: the rules
    that are left form a valid chain, in their old order, and are all the rules when
    these formed a valid chain already. *)
Theorem cascade_ends (rules : list DNSRule) :
  let left := cascade (S (length rules)) rules in
  validateDNSChain left = None ∧ left `sublist_of` rules ∧ (validateDNSChain rules = None → left = rules).
Proof.
  cbv zeta. split; [apply validateDNSChain_ok, cascade_ok; lia|]. split; [apply cascade_sublist|].
  unfold validateDNSChain. cbn [cascade]. by destruct (firstDNSChainViolation rules).
Qed.
End props.
