(* ===== verification/SbQoS.v ===== *)
(** * Traffic classes by DSCP ([router/qos.go], [qos_routes.go])

    Classes of the settings with their port slots, the inbounds and the route rules they
    are turned into, and what is derived from the settings around them. *)
From S2P Require Import Prelude GoLib GoText SbJson SbRouter.

(** [len([]rune(s))]: a byte that starts no valid sequence counts as one rune. *)
Definition byte_in (lo hi : Z) (c : ascii) : bool :=
  let b := Z.of_nat (byte_code c) in (lo <=? b)%Z && (b <=? hi)%Z.

Fixpoint rune_count (s : string) : nat :=
  match s with
  | "" => 0
  | String b0 s1 =>
      let one := S (rune_count s1) in
      if byte_in 0xC2 0xDF b0 then
        match s1 with String b1 s2 => if byte_in 0x80 0xBF b1 then S (rune_count s2) else one | "" => one end
      else if byte_in 0xE0 0xEF b0 then
        match s1 with
        | String b1 (String b2 s3) =>
            let lo := if byte_in 0xE0 0xE0 b0 then 0xA0%Z else 0x80%Z in
            let hi := if byte_in 0xED 0xED b0 then 0x9F%Z else 0xBF%Z in
            if byte_in lo hi b1 && byte_in 0x80 0xBF b2 then S (rune_count s3) else one
        | _ => one
        end
      else if byte_in 0xF0 0xF4 b0 then
        match s1 with
        | String b1 (String b2 (String b3 s4)) =>
            let lo := if byte_in 0xF0 0xF0 b0 then 0x90%Z else 0x80%Z in
            let hi := if byte_in 0xF4 0xF4 b0 then 0x8F%Z else 0xBF%Z in
            if byte_in lo hi b1 && byte_in 0x80 0xBF b2 && byte_in 0x80 0xBF b3 then S (rune_count s4) else one
        | _ => one
        end
      else one
  end.

(** ** Data *)

Definition MaxQoSClasses : Z := 8.
Definition QoSTPROXYPortBase : Z := 51281.
Definition QoSRedirectPortBase : Z := 51301.
Definition TPROXYPort : Z := 51271.
Definition RedirectPort : Z := 51272.
Definition QoSClassPorts (slot : Z) : Z * Z := (QoSTPROXYPortBase + slot, QoSRedirectPortBase + slot)%Z.

Definition qosTProxyTag (dscp : Z) : string := qosTProxyTagPrefix +:+ Itoa dscp.
Definition qosRedirectTag (dscp : Z) : string := qosRedirectTagPrefix +:+ Itoa dscp.

Record SingboxQoSClass := { c_DSCP : Z; c_Name : string; c_Outbound : string; c_Enabled : bool; c_Slot : Z }.
Definition set_c_Slot v (c : SingboxQoSClass) : SingboxQoSClass :=
  {| c_DSCP := c_DSCP c; c_Name := c_Name c; c_Outbound := c_Outbound c; c_Enabled := c_Enabled c; c_Slot := v |}.
Definition set_c_Outbound v (c : SingboxQoSClass) : SingboxQoSClass :=
  {| c_DSCP := c_DSCP c; c_Name := c_Name c; c_Outbound := v; c_Enabled := c_Enabled c; c_Slot := c_Slot c |}.
Definition set_c_Enabled v (c : SingboxQoSClass) : SingboxQoSClass :=
  {| c_DSCP := c_DSCP c; c_Name := c_Name c; c_Outbound := c_Outbound c; c_Enabled := v; c_Slot := c_Slot c |}.

Record qosClass := { q_DSCP : Z; q_Outbound : string; q_TProxyPort : Z; q_RedirectPort : Z }.

(** [Inbound]; the fields of a tun inbound are not touched here. *)
Record Inbound := {
  i_Type : string;
  i_Tag : string;
  i_Listen : string;
  ListenPort : Z;
  i_Network : string;
  i_UDPTimeout : string;
  UDPFragment : bool;
  TCPFastOpen : bool;
  RoutingMark : Z;
}.

Definition inboundListen : string := "0.0.0.0".
Definition DefaultUDPTimeout : string := "5m0s".
Definition resolveUDPTimeout (configured : string) : string :=
  if negb (String.eqb configured "") then configured else DefaultUDPTimeout.

(** The slot is one of the ports'. *)
Definition slot_ok (slot : Z) : bool := (0 <=? slot)%Z && (slot <? MaxQoSClasses)%Z.

Section qos.
Context `{U : GoUnicode}.

(** ** Active classes *)

Fixpoint active_loop (seenDSCP seenSlot : list Z) (classes : list SingboxQoSClass) : list qosClass :=
  match classes with
  | [] => []
  | c :: classes =>
      let outbound := TrimSpace (c_Outbound c) in
      if negb (c_Enabled c) then active_loop seenDSCP seenSlot classes
      else if (c_DSCP c <? 0)%Z || (63 <? c_DSCP c)%Z || String.eqb outbound "" || bool_decide (c_DSCP c ∈ seenDSCP)
      then active_loop seenDSCP seenSlot classes
      else if negb (slot_ok (c_Slot c)) || bool_decide (c_Slot c ∈ seenSlot) then active_loop seenDSCP seenSlot classes
      else
        {| q_DSCP := c_DSCP c; q_Outbound := outbound; q_TProxyPort := fst (QoSClassPorts (c_Slot c));
           q_RedirectPort := snd (QoSClassPorts (c_Slot c)) |}
        :: active_loop (c_DSCP c :: seenDSCP) (c_Slot c :: seenSlot) classes
  end.
Definition activeQoSClasses (classes : list SingboxQoSClass) : list qosClass := active_loop [] [] classes.

(** ** Settings *)

Definition ErrQoSClassesInvalid : string := "invalid qos classes".

Fixpoint validate_loop (seen : list Z) (classes : list SingboxQoSClass) : option string :=
  match classes with
  | [] => None
  | c :: classes =>
      if (c_DSCP c <? 0)%Z || (63 <? c_DSCP c)%Z then Some ErrQoSClassesInvalid
      else if bool_decide (c_DSCP c ∈ seen) then Some ErrQoSClassesInvalid
      else if (32 <? rune_count (c_Name c))%nat then Some ErrQoSClassesInvalid
      else if String.eqb (TrimSpace (c_Outbound c)) "" then Some ErrQoSClassesInvalid
      else validate_loop (c_DSCP c :: seen) classes
  end.
Definition validateQoSClasses (classes : list SingboxQoSClass) : option string :=
  if (MaxQoSClasses <? Z.of_nat (length classes))%Z then Some ErrQoSClassesInvalid else validate_loop [] classes.

(** The lowest slot that is not used, or -1. *)
Definition firstFreeQoSSlot (used : gset Z) : Z :=
  match filter (.∉ used) (seqZ 0 MaxQoSClasses) with s :: _ => s | [] => -1 end.

(** The second loop: classes without a slot take the first free one. *)
Fixpoint fill_slots (used : gset Z) (l : list SingboxQoSClass) : list SingboxQoSClass :=
  match l with
  | [] => []
  | c :: l =>
      if (0 <=? c_Slot c)%Z then c :: fill_slots used l
      else
        let s := firstFreeQoSSlot used in
        set_c_Slot s c :: fill_slots (if (0 <=? s)%Z then {[s]} ∪ used else used) l
  end.

(** The first loop: a class keeps the slot that [claim] finds for it unless it is used. *)
Fixpoint claim_slots (claim : SingboxQoSClass → option Z) (used : gset Z) (l : list SingboxQoSClass)
  : list SingboxQoSClass * gset Z :=
  match l with
  | [] => ([], used)
  | c :: l =>
      match claim c with
      | Some s =>
          if bool_decide (s ∈ used) then let '(l, used) := claim_slots claim used l in (set_c_Slot (-1) c :: l, used)
          else let '(l, used) := claim_slots claim ({[s]} ∪ used) l in (set_c_Slot s c :: l, used)
      | None => let '(l, used) := claim_slots claim used l in (set_c_Slot (-1) c :: l, used)
      end
  end.

Definition own_slot (c : SingboxQoSClass) : option Z := if slot_ok (c_Slot c) then Some (c_Slot c) else None.

Definition trim_class (c : SingboxQoSClass) : SingboxQoSClass := {|
  c_DSCP := c_DSCP c; c_Name := TrimSpace (c_Name c); c_Outbound := TrimSpace (c_Outbound c); c_Enabled := c_Enabled c;
  c_Slot := c_Slot c |}.

Definition normalizeQoSClasses (classes : list SingboxQoSClass) : list SingboxQoSClass :=
  let '(out, used) := claim_slots own_slot ∅ (trim_class <$> classes) in fill_slots used out.

(** The slots of the stored classes by DSCP: the first class with a slot, and with a
    DSCP, counts. *)
Fixpoint slots_by_dscp (m : gmap Z Z) (used : gset Z) (stored : list SingboxQoSClass) : gmap Z Z :=
  match stored with
  | [] => m
  | c :: stored =>
      if negb (slot_ok (c_Slot c)) || bool_decide (c_Slot c ∈ used) then slots_by_dscp m used stored
      else if bool_decide (is_Some (m !! c_DSCP c)) then slots_by_dscp m used stored
      else slots_by_dscp (<[c_DSCP c := c_Slot c]> m) ({[c_Slot c]} ∪ used) stored
  end.

Definition reassociateQoSSlots (incoming stored : list SingboxQoSClass) : list SingboxQoSClass :=
  let slotByDSCP := slots_by_dscp ∅ ∅ stored in
  let '(out, used) := claim_slots (λ c, slotByDSCP !! c_DSCP c) ∅ incoming in fill_slots used out.

(** The classes that an update of the settings stores ([UpdateSettings]). *)
Definition update_classes (incoming stored : list SingboxQoSClass) : (string + list SingboxQoSClass)%type :=
  match validateQoSClasses incoming with
  | Some e => inl e
  | None => inr (reassociateQoSSlots (normalizeQoSClasses incoming) stored)
  end.

(** ** Inbounds and rules *)

Definition qos_inbounds (effective : string) (c : qosClass) : list Inbound :=
  [{| i_Type := "tproxy"; i_Tag := qosTProxyTag (q_DSCP c); i_Listen := inboundListen; ListenPort := q_TProxyPort c;
      i_Network := "udp"; i_UDPTimeout := effective; UDPFragment := true; TCPFastOpen := false; RoutingMark := 0 |};
   {| i_Type := "redirect"; i_Tag := qosRedirectTag (q_DSCP c); i_Listen := inboundListen; ListenPort := q_RedirectPort c;
      i_Network := ""; i_UDPTimeout := ""; UDPFragment := false; TCPFastOpen := true; RoutingMark := 0 |}].

Definition is_qos_inbound (i : Inbound) : bool := isQoSInboundTag (i_Tag i).

(** The inbounds of [ensureQoSInbounds]; it also reports whether they are new ones. *)
Definition ensureQoSInbounds (ins : list Inbound) (classes : list qosClass) (udpTimeout : string) : list Inbound :=
  match ins, classes with
  | [], [] => []
  | _, _ => filter (λ i, is_qos_inbound i = false) ins ++ concat (qos_inbounds (resolveUDPTimeout udpTimeout) <$> classes)
  end.

Definition set_tproxy_in (effective : string) (i : Inbound) : Inbound := {|
  i_Type := i_Type i; i_Tag := i_Tag i; i_Listen := inboundListen; ListenPort := ListenPort i; i_Network := "udp";
  i_UDPTimeout := effective; UDPFragment := true; TCPFastOpen := false; RoutingMark := 0 |}.
Definition set_redirect_in (i : Inbound) : Inbound := {|
  i_Type := i_Type i; i_Tag := i_Tag i; i_Listen := inboundListen; ListenPort := ListenPort i; i_Network := i_Network i;
  i_UDPTimeout := i_UDPTimeout i; UDPFragment := UDPFragment i; TCPFastOpen := true; RoutingMark := RoutingMark i |}.
Definition tproxy_in (effective : string) : Inbound := {|
  i_Type := "tproxy"; i_Tag := "tproxy-in"; i_Listen := inboundListen; ListenPort := TPROXYPort; i_Network := "udp";
  i_UDPTimeout := effective; UDPFragment := true; TCPFastOpen := false; RoutingMark := 0 |}.
Definition redirect_in : Inbound := {|
  i_Type := "redirect"; i_Tag := "redirect-in"; i_Listen := inboundListen; ListenPort := RedirectPort; i_Network := "";
  i_UDPTimeout := ""; UDPFragment := false; TCPFastOpen := true; RoutingMark := 0 |}.

Definition ensureTProxyInbound (ins : list Inbound) (udpTimeout : string) : list Inbound :=
  let effective := resolveUDPTimeout udpTimeout in
  let has tag := existsb (λ i, String.eqb (i_Tag i) tag) ins in
  let out := (λ i, if String.eqb (i_Tag i) "tproxy-in" then set_tproxy_in effective i
                   else if String.eqb (i_Tag i) "redirect-in" then set_redirect_in i else i) <$> ins in
  let out := if has "tproxy-in" then out else tproxy_in effective :: out in
  if has "redirect-in" then out else redirect_in :: out.

(** A [Rule] with the fields that the rules of the classes set. *)
Definition inbound_rule (inbounds : list string) (action network outbound timeout : string) : Rule := {|
  r_Type := ""; r_Mode := ""; r_Rules := []; DomainSuffix := []; r_Domain := []; IPCIDR := []; SourceIPCIDR := [];
  r_Port := []; r_RuleSet := []; Protocol := ""; r_Inbound := inbounds; IPIsPrivate := None; r_Network := network;
  r_Action := action; r_Outbound := outbound; r_UDPTimeout := timeout; AwgmManaged := "" |}.

Definition buildQoSRouteRules (classes : list qosClass) (snifferEnabled : bool) (udpTimeout : string) : list Rule :=
  match classes with
  | [] => []
  | _ =>
      let udpInbounds := (λ q, qosTProxyTag (q_DSCP q)) <$> classes in
      let allInbounds := concat ((λ q, [qosTProxyTag (q_DSCP q); qosRedirectTag (q_DSCP q)]) <$> classes) in
      (if snifferEnabled then [inbound_rule allInbounds "sniff" "" "" ""] else []) ++
      [inbound_rule udpInbounds "route-options" "udp" "" (resolveUDPTimeout udpTimeout)] ++
      ((λ q, inbound_rule [qosTProxyTag (q_DSCP q); qosRedirectTag (q_DSCP q)] "route" "" (q_Outbound q) "") <$> classes)
  end.

(** [known]: the outbound is in one of the catalogues. *)
Definition filterQoSClassesWithKnownOutbounds (known : string → bool) (classes : list qosClass)
  : list qosClass * list qosClass :=
  (filter (λ c, known (q_Outbound c) = true) classes, filter (λ c, known (q_Outbound c) = false) classes).

(** ** Outbounds of the classes *)

Definition names_outbound (tag : string) (c : SingboxQoSClass) : bool := String.eqb (TrimSpace (c_Outbound c)) tag.

Definition qosClassesReferencing (tag : string) (classes : list SingboxQoSClass) : list nat :=
  if String.eqb (TrimSpace tag) "" then [] else indices_of (names_outbound tag) classes.

(** The classes after the rename; a rename that changes none is not saved. *)
Definition renameQoSClassOutbound (oldTag newTag : string) (classes : list SingboxQoSClass) : list SingboxQoSClass :=
  let oldTag := TrimSpace oldTag in
  let newTag := TrimSpace newTag in
  if String.eqb oldTag "" || String.eqb newTag "" || String.eqb oldTag newTag then classes
  else (λ c, if names_outbound oldTag c then set_c_Outbound newTag c else c) <$> classes.

Definition disableQoSClassesForOutbound (tag : string) (classes : list SingboxQoSClass) : list SingboxQoSClass :=
  let tag := TrimSpace tag in
  if String.eqb tag "" then classes
  else (λ c, if names_outbound tag c && c_Enabled c then set_c_Enabled false c else c) <$> classes.
End qos.
