(* ===== verification/SbQoSProps.v ===== *)
(** * Traffic classes: stable port slots, distinct ports, reserved inbounds *)
From S2P Require Import Prelude GoLib GoText SbJson SbRouter SbRouterLib SbQoS.

(** ** Slots *)

Definition slots (l : list SingboxQoSClass) : list Z := c_Slot <$> l.
Definition taken (l : list SingboxQoSClass) : list Z := filter (λ s, 0 ≤ s)%Z (slots l).
Definition open_slots (l : list SingboxQoSClass) : nat := length (filter (λ s, ¬ 0 ≤ s)%Z (slots l)).

(** A class but for its slot. *)
Definition strip (c : SingboxQoSClass) : SingboxQoSClass := set_c_Slot 0 c.

Definition all_slots : gset Z := list_to_set (seqZ 0 MaxQoSClasses).

Lemma slot_ok_iff s : slot_ok s = true ↔ s ∈ all_slots.
Proof.
  unfold slot_ok, all_slots. rewrite elem_of_list_to_set, elem_of_seqZ, andb_true_iff, Z.leb_le, Z.ltb_lt. lia.
Qed.

Lemma first_free used : used ⊆ all_slots → (size used < 8)%nat →
  firstFreeQoSSlot used ∈ all_slots ∧ firstFreeQoSSlot used ∉ used ∧ (0 ≤ firstFreeQoSSlot used)%Z.
Proof.
  intros Hu Hs. unfold firstFreeQoSSlot. destruct (filter (.∉ used) (seqZ 0 MaxQoSClasses)) as [|s l] eqn:Ef.
  - exfalso. assert (all_slots ⊆ used) as Hsub.
    { intros x Hx. apply elem_of_list_to_set in Hx. destruct (base.decide (x ∈ used)) as [|Hn]; [done|].
      assert (x ∈ filter (.∉ used) (seqZ 0 MaxQoSClasses)) as Hin by by apply list_elem_of_filter.
      rewrite Ef in Hin. by apply elem_of_nil in Hin. }
    apply subseteq_size in Hsub. assert (size all_slots = 8%nat) by by vm_compute. lia.
  - assert (s ∈ filter (.∉ used) (seqZ 0 MaxQoSClasses)) as Hin by (rewrite Ef; by left).
    apply list_elem_of_filter in Hin as [Hn Hin]. split; [by apply elem_of_list_to_set|]. split; [done|].
    apply elem_of_seqZ in Hin. lia.
Qed.

(** The second loop keeps the slots that are there and hands out free ones. *)
Lemma fill_spec l : ∀ used, (∀ s, s ∈ taken l → s ∈ used) → NoDup (taken l) → used ⊆ all_slots → (size used + open_slots l ≤ 8)%nat →
  let out := fill_slots used l in
  NoDup (slots out) ∧ (∀ s, s ∈ slots out → s ∈ all_slots) ∧ strip <$> out = strip <$> l ∧
  (∀ s, s ∈ slots out → s ∈ taken l ∨ s ∉ used) ∧
  ∀ i c, l !! i = Some c → (0 ≤ c_Slot c)%Z → out !! i = Some c.
Proof.
  induction l as [|c l IH]; intros used Ht Hnd Hu Hs; cbv zeta.
  { cbn. split_and!; [constructor|by intros s []%elem_of_nil|done|by intros s []%elem_of_nil|done]. }
  unfold taken, open_slots, slots in *. cbn [fill_slots]. rewrite !fmap_cons, !filter_cons in *.
  destruct (Z.leb_spec 0 (c_Slot c)) as [Hle|Hlt].
  - rewrite (decide_True (P := (0 ≤ c_Slot c)%Z)) in * by done. rewrite (decide_False (P := ¬ (0 ≤ c_Slot c)%Z)) in Hs by lia.
    apply NoDup_cons in Hnd as [Hn Hnd]. destruct (IH used) as (I1 & I2 & I3 & I4 & I5); [intros; apply Ht; by right|done..|].
    assert (c_Slot c ∈ used) as Hc by (apply Ht; by left). cbn [fmap list_fmap]. split_and!.
    + apply NoDup_cons. split; [|done]. intros Hin. destruct (I4 _ Hin); done.
    + intros s [->|?]%elem_of_cons; [by apply Hu|by apply I2].
    + by f_equal.
    + intros s [->|Hin]%elem_of_cons; [left; by left|]. destruct (I4 _ Hin); [left; by right|by right].
    + intros [|i] x Hx Hpos; [done|by apply I5].
  - rewrite (decide_False (P := (0 ≤ c_Slot c)%Z)) in * by lia. rewrite (decide_True (P := ¬ (0 ≤ c_Slot c)%Z)) in Hs by lia.
    cbn [length] in Hs. destruct (first_free used Hu) as (F1 & F2 & F3); [lia|]. set (s0 := firstFreeQoSSlot used) in *.
    apply Z.leb_le in F3 as F3'. rewrite F3'.
    destruct (IH ({[s0]} ∪ used)) as (I1 & I2 & I3 & I4 & I5); [intros s Hin; apply Ht in Hin; set_solver|done|set_solver| |].
    { rewrite size_union, size_singleton by set_solver. lia. }
    cbn [fmap list_fmap c_Slot set_c_Slot]. split_and!.
    + apply NoDup_cons. split; [|done]. intros Hin. destruct (I4 _ Hin) as [Hin'|]; [by apply Ht in Hin'|set_solver].
    + intros s [->|?]%elem_of_cons; [done|by apply I2].
    + by f_equal.
    + intros s [->|Hin]%elem_of_cons; [by right|]. destruct (I4 _ Hin); [by left|right; set_solver].
    + intros [|i] x Hx Hpos; [|by apply I5]. injection Hx as <-. lia.
Qed.

(** The first loop: claimed slots are distinct, fit and are not used yet. *)
Lemma claim_spec claim l : (∀ c s, claim c = Some s → s ∈ all_slots) → ∀ used, used ⊆ all_slots →
  let '(out, used') := claim_slots claim used l in
  NoDup (taken out) ∧ (∀ s, s ∈ taken out → s ∈ used' ∧ s ∉ used) ∧ used' ⊆ all_slots ∧ used ⊆ used' ∧
  size used' = (size used + length (taken out))%nat ∧ strip <$> out = strip <$> l.
Proof.
  intros Hcl. assert (∀ s, s ∈ all_slots → (0 ≤ s)%Z) as Hpos.
  { intros s Hs. apply elem_of_list_to_set, elem_of_seqZ in Hs. lia. }
  induction l as [|c l IH]; intros used Hu; cbn [claim_slots].
  { cbn. split_and!; [constructor|by intros s []%elem_of_nil|done|done|lia|done]. }
  assert (∀ out used', claim_slots claim used l = (out, used') →
    let out' := set_c_Slot (-1) c :: out in
    NoDup (taken out') ∧ (∀ s, s ∈ taken out' → s ∈ used' ∧ s ∉ used) ∧ used' ⊆ all_slots ∧ used ⊆ used' ∧
    size used' = (size used + length (taken out'))%nat ∧ strip <$> out' = strip <$> c :: l) as Hskip.
  { intros out used' E1. specialize (IH used Hu). rewrite E1 in IH. destruct IH as (I1 & I2 & I3 & I4 & I5 & I6).
    split_and!; try done. by rewrite !fmap_cons, I6. }
  destruct (claim c) as [s|] eqn:Ec.
  2:{ destruct (claim_slots claim used l) as [out used'] eqn:E1. by apply Hskip. }
  destruct (bool_decide (s ∈ used)) eqn:Es.
  { destruct (claim_slots claim used l) as [out used'] eqn:E1. by apply Hskip. }
  to_prop. pose proof (Hcl c s Ec) as Hs. specialize (IH ({[s]} ∪ used) ltac:(set_solver)).
  destruct (claim_slots claim ({[s]} ∪ used) l) as [out used'] eqn:E1. destruct IH as (I1 & I2 & I3 & I4 & I5 & I6).
  assert (taken (set_c_Slot s c :: out) = s :: taken out) as ->.
  { unfold taken, slots. rewrite fmap_cons, filter_cons_True; [done|]. by apply Hpos. }
  split_and!.
  - apply NoDup_cons. split; [|done]. intros Hin. apply I2 in Hin. set_solver.
  - intros x [->|Hin]%elem_of_cons; [set_solver|]. apply I2 in Hin. set_solver.
  - done.
  - set_solver.
  - cbn. rewrite I5, size_union, size_singleton by set_solver. lia.
  - by rewrite !fmap_cons, I6.
Qed.

(** When the claims do not clash, each is granted. *)
Lemma claim_granted claim l : ∀ used, NoDup (omap claim l) → (∀ s, s ∈ omap claim l → s ∉ used) →
  (claim_slots claim used l).1 = (λ c, set_c_Slot (default (-1)%Z (claim c)) c) <$> l.
Proof.
  induction l as [|c l IH]; intros used Hnd Hu; cbn [claim_slots]; [done|]. cbn in Hnd, Hu. rewrite fmap_cons.
  destruct (claim c) as [s|] eqn:Ec.
  - apply NoDup_cons in Hnd as [Hn Hnd]. rewrite (bool_decide_eq_false_2 (s ∈ used) (Hu s (list_elem_of_here _ _))).
    specialize (IH ({[s]} ∪ used) Hnd). destruct (claim_slots claim ({[s]} ∪ used) l) as [out used']. cbn in *. f_equal.
    apply IH. intros x Hx [->%elem_of_singleton|Hin]%elem_of_union; [done|]. apply (Hu x); [by right|done].
  - specialize (IH used Hnd Hu). destruct (claim_slots claim used l) as [out used']. cbn in *. by f_equal.
Qed.

Lemma length_taken l : (length (taken l) + open_slots l)%nat = length l.
Proof.
  unfold taken, open_slots, slots. induction l as [|c l IH]; [done|]. rewrite !fmap_cons, !filter_cons.
  destruct (base.decide (0 ≤ c_Slot c)%Z), (base.decide (¬ (0 ≤ c_Slot c)%Z)); cbn; lia.
Qed.

(** Both loops: every class has a slot of its own. *)
Lemma assign_spec claim l : (∀ c s, claim c = Some s → s ∈ all_slots) → (length l ≤ 8)%nat →
  let out := let '(out, used) := claim_slots claim ∅ l in fill_slots used out in
  NoDup (slots out) ∧ (∀ s, s ∈ slots out → s ∈ all_slots) ∧ strip <$> out = strip <$> l ∧
  (NoDup (omap claim l) → ∀ i c s, l !! i = Some c → claim c = Some s → out !! i = Some (set_c_Slot s c)).
Proof.
  intros Hcl Hlen. cbv zeta. pose proof (claim_spec claim l Hcl ∅ ltac:(set_solver)) as H.
  pose proof (claim_granted claim l ∅) as Hg. destruct (claim_slots claim ∅ l) as [out used]. cbn in Hg.
  destruct H as (H1 & H2 & H3 & _ & H5 & H6). rewrite size_empty in H5.
  assert (length out = length l) as Hll by (apply (f_equal length) in H6; by rewrite !length_fmap in H6).
  destruct (fill_spec out used) as (F1 & F2 & F3 & _ & F5); [intros s Hs; by apply H2|done..| |].
  { pose proof (length_taken out). lia. }
  split_and!; [done|done|by rewrite F3|]. intros Hnd i c s Hi Hc. apply F5.
  - rewrite Hg; [|done|set_solver]. rewrite list_lookup_fmap, Hi. cbn. by rewrite Hc.
  - cbn. apply Hcl in Hc. apply elem_of_list_to_set, elem_of_seqZ in Hc. lia.
Qed.

(** ** The slots of the stored classes *)

Record wf_classes (l : list SingboxQoSClass) : Prop := {
  wf_dscp : NoDup (c_DSCP <$> l);
  wf_slots : NoDup (slots l);
  wf_fit : ∀ s, s ∈ slots l → s ∈ all_slots;
  wf_range : ∀ d, d ∈ c_DSCP <$> l → (0 ≤ d ≤ 63)%Z;
}.

Record slot_map (m : gmap Z Z) (used : gset Z) : Prop := {
  sm_fit : ∀ d s, m !! d = Some s → s ∈ used ∧ s ∈ all_slots;
  sm_inj : ∀ d d' s, m !! d = Some s → m !! d' = Some s → d = d';
}.

Lemma slots_by_dscp_spec stored : ∀ m used, slot_map m used → ∃ used', slot_map (slots_by_dscp m used stored) used'.
Proof.
  induction stored as [|c l IH]; intros m used H; cbn [slots_by_dscp]; [by exists used|].
  destruct (negb (slot_ok (c_Slot c)) || bool_decide (c_Slot c ∈ used)) eqn:E1; [by apply (IH m used)|].
  destruct (bool_decide (is_Some (m !! c_DSCP c))) eqn:E2; [by apply (IH m used)|]. to_prop.
  apply (IH _ ({[c_Slot c]} ∪ used)). destruct H as [Hf Hi]. split.
  - intros d s [[<- <-]|[_ Hd]]%lookup_insert_Some; [split; [set_solver|by apply slot_ok_iff]|]. apply Hf in Hd. set_solver.
  - intros d d' s [[<- <-]|[Hne Hd]]%lookup_insert_Some [[<- E3]|[Hne' Hd']]%lookup_insert_Some; [done|..].
    + by apply Hf in Hd' as [? _].
    + subst. by apply Hf in Hd as [? _].
    + by eapply Hi.
Qed.

(** A well-formed list of classes is read back as it is. *)
Lemma slots_by_dscp_wf stored : ∀ m used, NoDup (c_DSCP <$> stored) → NoDup (slots stored) →
  (∀ s, s ∈ slots stored → s ∈ all_slots ∧ s ∉ used) → (∀ d, d ∈ c_DSCP <$> stored → m !! d = None) →
  (∀ c, c ∈ stored → slots_by_dscp m used stored !! c_DSCP c = Some (c_Slot c)) ∧
  ∀ d s, m !! d = Some s → slots_by_dscp m used stored !! d = Some s.
Proof.
  unfold slots. induction stored as [|c l IH]; intros m used Hd Hs Hu Hm; [split; [by intros c []%elem_of_nil|done]|].
  cbn [slots_by_dscp]. rewrite fmap_cons in Hd, Hs. apply NoDup_cons in Hd as [Hdn Hd]. apply NoDup_cons in Hs as [Hsn Hs].
  destruct (Hu (c_Slot c)) as [H1 H2]; [by left|]. apply slot_ok_iff in H1 as ->. rewrite bool_decide_eq_false_2 by done. cbn [negb orb].
  assert (m !! c_DSCP c = None) as Hn by (apply Hm; by left). rewrite Hn, bool_decide_eq_false_2 by by intros [].
  destruct (IH (<[c_DSCP c := c_Slot c]> m) ({[c_Slot c]} ∪ used) Hd Hs) as [I1 I2].
  - intros s Hin. destruct (Hu s) as [? ?]; [by right|]. split; [done|]. intros [->%elem_of_singleton|?]%elem_of_union; done.
  - intros d Hin. rewrite lookup_insert_ne by congruence. apply Hm. by right.
  - split.
    + intros x [->|Hx]%elem_of_cons; [apply I2, lookup_insert_eq|by apply I1].
    + intros d s Hds. apply I2. rewrite lookup_insert_ne; [done|]. congruence.
Qed.

Lemma NoDup_omap_inj (m : gmap Z Z) (l : list SingboxQoSClass) : (∀ d d' s, m !! d = Some s → m !! d' = Some s → d = d') →
  NoDup (c_DSCP <$> l) → NoDup (omap (λ c, m !! c_DSCP c) l).
Proof.
  intros Hi. induction l as [|c l IH]; [constructor|]. rewrite fmap_cons. intros [Hn Hnd]%NoDup_cons. specialize (IH Hnd).
  cbn. destruct (m !! c_DSCP c) as [s|] eqn:E1; [|done]. apply NoDup_cons. split; [|done].
  intros (x & Hx & Hs)%list_elem_of_omap. apply Hn, list_elem_of_fmap. exists x. split; [by apply (Hi _ _ s)|done].
Qed.

Section stable.
Context `{U : GoUnicode}.

Lemma validate_loop_spec seen l : validate_loop seen l = None →
  NoDup (c_DSCP <$> l) ∧ (∀ d, d ∈ c_DSCP <$> l → d ∉ seen ∧ (0 ≤ d ≤ 63)%Z).
Proof.
  revert seen. induction l as [|c l IH]; intros seen; cbn [validate_loop]; [split; [constructor|by intros d []%elem_of_nil]|].
  destruct ((c_DSCP c <? 0)%Z || (63 <? c_DSCP c)%Z) eqn:E1; [done|]. destruct (bool_decide (c_DSCP c ∈ seen)) eqn:E2; [done|].
  destruct (32 <? _)%nat; [done|]. destruct (String.eqb _ _); [done|]. intros [H1 H2]%IH. to_prop. rewrite fmap_cons. split.
  - apply NoDup_cons. split; [|done]. intros [Hn _]%H2. apply Hn. by left.
  - intros d [->|Hd]%elem_of_cons; [split; [done|lia]|]. apply H2 in Hd as [Hd ?]. split; [|done]. intros Hin. apply Hd. by right.
Qed.

Lemma own_slot_fits c s : own_slot c = Some s → s ∈ all_slots.
Proof. unfold own_slot. destruct (slot_ok (c_Slot c)) eqn:E1; [|done]. intros [= <-]. by apply slot_ok_iff. Qed.

Lemma strip_dscp (l l' : list SingboxQoSClass) : strip <$> l = strip <$> l' → c_DSCP <$> l = c_DSCP <$> l'.
Proof.
  intros H. apply (f_equal (fmap c_DSCP)) in H. by rewrite <- !list_fmap_compose in H.
Qed.

(** C21: An accepted update of the traffic classes gives every class a port slot of its
    own within the reserved ports, keeps the order and all other fields, and every class
    that was stored before, found by its DSCP, keeps its slot whatever happens to the
    other classes. *)
Theorem qos_slots_stable (incoming stored out : list SingboxQoSClass) (Hwf : wf_classes stored)
    (Hupd : update_classes incoming stored = inr out) :
  wf_classes out ∧ strip <$> out = (strip ∘ trim_class) <$> incoming ∧
  ∀ c c', c ∈ stored → c' ∈ out → c_DSCP c = c_DSCP c' → c_Slot c' = c_Slot c.
Proof.
  unfold update_classes in Hupd. destruct (validateQoSClasses incoming) eqn:Ev; [done|]. injection Hupd as <-.
  unfold validateQoSClasses in Ev. destruct (_ <? _)%Z eqn:El; [done|]. to_prop. apply validate_loop_spec in Ev as [Hd Hr].
  assert (length incoming ≤ 8)%nat as Hlen by (unfold MaxQoSClasses in El; lia).
  destruct (assign_spec own_slot (trim_class <$> incoming) own_slot_fits) as (_ & _ & N3 & _); [by rewrite length_fmap|].
  fold (normalizeQoSClasses incoming) in N3. set (N := normalizeQoSClasses incoming) in *.
  assert (length N = length incoming) as HN by (apply (f_equal length) in N3; by rewrite !length_fmap in N3).
  assert (c_DSCP <$> N = c_DSCP <$> incoming) as Hdn by (rewrite (strip_dscp _ _ N3), <- list_fmap_compose; done).
  unfold reassociateQoSSlots. set (m := slots_by_dscp ∅ ∅ stored).
  destruct (slots_by_dscp_spec stored ∅ ∅ ltac:(by split)) as (used & Hfit & Hinj). fold m in Hfit, Hinj.
  destruct (slots_by_dscp_wf stored ∅ ∅) as [Hrd _]; [by apply wf_dscp|by apply wf_slots| |done|].
  { intros s Hs. split; [by apply (wf_fit stored Hwf)|set_solver]. }
  destruct (assign_spec (λ c, m !! c_DSCP c) N) as (A1 & A2 & A3 & A4); [intros c s Hc; exact (proj2 (Hfit _ _ Hc))|by rewrite HN|].
  set (out := let '(o, u) := claim_slots _ ∅ N in fill_slots u o) in *.
  assert (c_DSCP <$> out = c_DSCP <$> incoming) as Hdo by by rewrite (strip_dscp _ _ A3).
  split; [split|split].
  - by rewrite Hdo.
  - done.
  - done.
  - intros d. rewrite Hdo. intros Hin. exact (proj2 (Hr d Hin)).
  - by rewrite A3, N3, <- list_fmap_compose.
  - intros c c' Hc [i Hi]%list_elem_of_lookup Heq. assert (∃ x, N !! i = Some x ∧ c_DSCP x = c_DSCP c') as (x & Hx & Hxd).
    { assert ((c_DSCP <$> N) !! i = Some (c_DSCP c')) as H by by rewrite Hdn, <- Hdo, list_lookup_fmap, Hi.
      apply list_lookup_fmap_Some in H as (x & -> & ?). by exists x. }
    assert (m !! c_DSCP x = Some (c_Slot c)) as Hm by (rewrite Hxd, <- Heq; by apply Hrd).
    rewrite (A4 (NoDup_omap_inj m N Hinj ltac:(by rewrite Hdn)) i x _ Hx Hm) in Hi. by injection Hi as <-.
Qed.
End stable.

(** ** Ports *)
Section ports.
Context `{U : GoUnicode}.

(** The active classes come from slots and DSCPs that are distinct. *)
Lemma active_spec sd ss classes : ∃ sl,
  q_TProxyPort <$> active_loop sd ss classes = (λ s, QoSTPROXYPortBase + s)%Z <$> sl ∧
  q_RedirectPort <$> active_loop sd ss classes = (λ s, QoSRedirectPortBase + s)%Z <$> sl ∧
  NoDup sl ∧ (∀ s, s ∈ sl → s ∈ all_slots ∧ s ∉ ss) ∧
  NoDup (q_DSCP <$> active_loop sd ss classes) ∧ (∀ d, d ∈ q_DSCP <$> active_loop sd ss classes → d ∉ sd ∧ (0 ≤ d ≤ 63)%Z).
Proof.
  revert sd ss. induction classes as [|c l IH]; intros sd ss; cbn [active_loop].
  { exists []. split_and!; [done|done|constructor|by intros s []%elem_of_nil|constructor|by intros s []%elem_of_nil]. }
  destruct (negb (c_Enabled c)); [apply IH|].
  destruct ((c_DSCP c <? 0)%Z || (63 <? c_DSCP c)%Z || String.eqb (TrimSpace (c_Outbound c)) "" || bool_decide (c_DSCP c ∈ sd)) eqn:E1;
    [apply IH|]. destruct (negb (slot_ok (c_Slot c)) || bool_decide (c_Slot c ∈ ss)) eqn:E2; [apply IH|]. to_prop.
  destruct (IH (c_DSCP c :: sd) (c_Slot c :: ss)) as (sl & P1 & P2 & P3 & P4 & P5 & P6). exists (c_Slot c :: sl).
  rewrite !fmap_cons. cbn [q_TProxyPort q_RedirectPort q_DSCP]. split_and!; [by f_equal|by f_equal|..].
  - apply NoDup_cons. split; [|done]. intros [_ Hn]%P4. apply Hn. by left.
  - intros s [->|Hs]%elem_of_cons; [split; [by apply slot_ok_iff|done]|]. apply P4 in Hs as [? Hn]. split; [done|].
    intros Hin. apply Hn. by right.
  - apply NoDup_cons. split; [|done]. intros [Hn _]%P6. apply Hn. by left.
  - intros d [->|Hd]%elem_of_cons; [split; [done|lia]|]. apply P6 in Hd as [Hn ?]. split; [|done]. intros Hin. apply Hn. by right.
Qed.

(** C32: Whatever the settings hold, the ports of the active traffic classes are pairwise
    distinct, collide with neither of the main inbounds, fit 16 bits, and there are at
    most eight classes, one for each DSCP. *)
Theorem qos_ports_distinct (classes : list SingboxQoSClass) :
  let active := activeQoSClasses classes in
  let ports := [TPROXYPort; RedirectPort] ++ (q_TProxyPort <$> active) ++ (q_RedirectPort <$> active) in
  NoDup ports ∧ (∀ p, p ∈ ports → (0 < p < 65536)%Z) ∧ (length active ≤ 8)%nat ∧ NoDup (q_DSCP <$> active).
Proof.
  cbv zeta. unfold activeQoSClasses. destruct (active_spec [] [] classes) as (sl & P1 & P2 & P3 & P4 & P5 & _).
  set (a := active_loop [] [] classes) in *. rewrite P1, P2.
  assert (∀ s, s ∈ sl → (0 ≤ s < 8)%Z) as Hr.
  { intros s [Hs _]%P4. apply elem_of_list_to_set, elem_of_seqZ in Hs. unfold MaxQoSClasses in Hs. lia. }
  assert (∀ b p, p ∈ (λ s, b + s)%Z <$> sl → (b ≤ p < b + 8)%Z) as Hb by (intros b p (s & -> & Hs%Hr)%list_elem_of_fmap; lia).
  unfold QoSTPROXYPortBase, QoSRedirectPortBase, TPROXYPort, RedirectPort in *. split_and!; [| | |done].
  - apply NoDup_app. split; [apply (bool_decide_unpack (NoDup [51271; 51272]%Z)); by vm_compute|]. split.
    + intros p Hp [Hin%Hb|Hin%Hb]%elem_of_app; rewrite !elem_of_cons, elem_of_nil in Hp; lia.
    + apply NoDup_app. split; [apply NoDup_fmap; [intros ???; lia|done]|]. split; [intros p Hp%Hb Hq%Hb; lia|].
      apply NoDup_fmap; [intros ???; lia|done].
  - intros p [Hp|[Hp%Hb|Hp%Hb]%elem_of_app]%elem_of_app; [rewrite !elem_of_cons, elem_of_nil in Hp|..]; lia.
  - assert (length a = length sl) as -> by (apply (f_equal length) in P1; by rewrite !length_fmap in P1).
    transitivity (size all_slots); [|by vm_compute]. rewrite <- (size_list_to_set (C := gset Z) sl) by done.
    apply subseteq_size. intros s Hs%elem_of_list_to_set. by apply P4.
Qed.

(** ** Inbounds and rules *)

Lemma qos_tag_inj p a b : p +:+ Itoa a = p +:+ Itoa b → a = b.
Proof. intros H. apply (inj Itoa). induction p as [|c p IH]; [done|]. apply IH. by injection H. Qed.

Lemma qos_tags a : isQoSInboundTag (qosTProxyTag a) = true ∧ isQoSInboundTag (qosRedirectTag a) = true.
Proof.
  unfold isQoSInboundTag, qosTProxyTag, qosRedirectTag. rewrite !HasPrefix_app. split; [done|apply orb_true_r].
Qed.

Lemma qos_tags_differ a b : qosTProxyTag a ≠ qosRedirectTag b.
Proof. intros H. discriminate. Qed.

Definition qos_tags_of (classes : list qosClass) : list string :=
  concat ((λ q, [qosTProxyTag (q_DSCP q); qosRedirectTag (q_DSCP q)]) <$> classes).

Lemma qos_tags_of_elem classes t : t ∈ qos_tags_of classes ↔
  ∃ q, q ∈ classes ∧ (t = qosTProxyTag (q_DSCP q) ∨ t = qosRedirectTag (q_DSCP q)).
Proof.
  unfold qos_tags_of. rewrite elem_concat_fmap. setoid_rewrite elem_of_cons. setoid_rewrite list_elem_of_singleton. done.
Qed.

Lemma qos_tags_nodup classes : NoDup (q_DSCP <$> classes) → NoDup (qos_tags_of classes).
Proof.
  induction classes as [|q l IH]; [constructor|]. rewrite fmap_cons. intros [Hn Hnd]%NoDup_cons. specialize (IH Hnd).
  assert (∀ q', q' ∈ l → q_DSCP q ≠ q_DSCP q') as Hne by (intros q' Hq Heq; apply Hn; rewrite Heq; by apply list_elem_of_fmap_2).
  change (qos_tags_of (q :: l)) with (qosTProxyTag (q_DSCP q) :: qosRedirectTag (q_DSCP q) :: qos_tags_of l).
  apply NoDup_cons. split; [|apply NoDup_cons; split; [|done]].
  - intros [H|(q' & Hq & [H|H])%qos_tags_of_elem]%elem_of_cons; [by apply qos_tags_differ in H| |by apply qos_tags_differ in H].
    apply qos_tag_inj in H. by apply (Hne q').
  - intros (q' & Hq & [H|H])%qos_tags_of_elem; [symmetry in H; by apply qos_tags_differ in H|].
    apply qos_tag_inj in H. by apply (Hne q').
Qed.

(** The inbounds of the classes, and those of others. *)
Definition qos_part (ins : list Inbound) : list string := i_Tag <$> filter (λ i, is_qos_inbound i = true) ins.
Definition other_part (ins : list Inbound) : list Inbound := filter (λ i, is_qos_inbound i = false) ins.

Lemma other_part_app l1 l2 : other_part (l1 ++ l2) = other_part l1 ++ other_part l2.
Proof. apply filter_app. Qed.

Lemma new_inbounds eff classes : let l := concat (qos_inbounds eff <$> classes) in
  other_part l = [] ∧ qos_part l = qos_tags_of classes.
Proof.
  cbv zeta. induction classes as [|q l [IH1 IH2]]; [done|]. rewrite fmap_cons. cbn [concat].
  set (rest := concat _) in *. destruct (qos_tags (q_DSCP q)) as [Ht Hr]. split.
  - rewrite other_part_app, IH1, app_nil_r. unfold other_part, qos_inbounds.
    rewrite !filter_cons_False; [done|..]; unfold is_qos_inbound; cbn [i_Tag]; congruence.
  - unfold qos_part in *. rewrite filter_app, fmap_app, IH2. unfold qos_inbounds. by rewrite !filter_cons_True.
Qed.

Lemma part_spec l : (∀ i, i ∈ l → is_qos_inbound i = false) → other_part l = l ∧ qos_part l = [].
Proof.
  intros H. unfold other_part, qos_part. induction l as [|i l IH]; [done|].
  assert (is_qos_inbound i = false) as Hi by (apply H; by left).
  rewrite filter_cons_True by done. rewrite filter_cons_False by congruence.
  destruct IH as [-> IH2]; [intros; apply H; by right|done].
Qed.

Lemma ensure_inbounds_eq ins classes t :
  ensureQoSInbounds ins classes t = other_part ins ++ concat (qos_inbounds (resolveUDPTimeout t) <$> classes).
Proof. unfold ensureQoSInbounds. by destruct ins, classes. Qed.

(** After the upkeep of the inbounds exactly the inbounds of the classes bear
    reserved tags, each once; all other inbounds stay in their order; a second run
    changes nothing; and the rules written for the classes name only these inbounds. *)
Theorem qos_inbounds_match_rules (ins : list Inbound) (settings : list SingboxQoSClass) (sniffer : bool) (timeout : string) :
  let classes := activeQoSClasses settings in
  let out := ensureQoSInbounds ins classes timeout in
  qos_part out = qos_tags_of classes ∧ NoDup (qos_part out) ∧ other_part out = other_part ins ∧
  ensureQoSInbounds out classes timeout = out ∧
  ∀ r t, r ∈ buildQoSRouteRules classes sniffer timeout → t ∈ r_Inbound r → t ∈ qos_part out.
Proof.
  cbv zeta. set (classes := activeQoSClasses settings). rewrite !ensure_inbounds_eq.
  destruct (new_inbounds (resolveUDPTimeout timeout) classes) as [N1 N2].
  set (new := concat (qos_inbounds (resolveUDPTimeout timeout) <$> classes)) in *.
  assert (∀ i, i ∈ other_part ins → is_qos_inbound i = false) as Ho by (intros i [? _]%list_elem_of_filter; done).
  destruct (part_spec _ Ho) as [O1 O2].
  assert (qos_part (other_part ins ++ new) = qos_tags_of classes) as Hq.
  { unfold qos_part in *. rewrite filter_app, fmap_app, O2. exact N2. }
  assert (other_part (other_part ins ++ new) = other_part ins) as Hop by by rewrite other_part_app, O1, N1, app_nil_r.
  rewrite Hq, Hop. split_and!; [done| |done|done|].
  - apply qos_tags_nodup. destruct (active_spec [] [] settings) as (sl & _ & _ & _ & _ & Hnd & _). exact Hnd.
  - intros r t Hr Ht. apply qos_tags_of_elem. unfold buildQoSRouteRules in Hr.
    assert (∀ r, r ∈ (λ q, inbound_rule [qosTProxyTag (q_DSCP q); qosRedirectTag (q_DSCP q)] "route" "" (q_Outbound q) "") <$> classes →
      t ∈ r_Inbound r → ∃ q, q ∈ classes ∧ (t = qosTProxyTag (q_DSCP q) ∨ t = qosRedirectTag (q_DSCP q))) as Hcls.
    { intros r' (q & -> & Hq')%list_elem_of_fmap Hin. exists q. split; [done|]. cbn in Hin. set_solver. }
    clearbody classes. destruct classes as [|q0 l0]; [by apply elem_of_nil in Hr|]. set (classes := q0 :: l0) in *.
    apply elem_of_app in Hr as [Hr|[->|Hr]%elem_of_cons]; [|..|by apply (Hcls r)].
    + destruct sniffer; [|by apply elem_of_nil in Hr]. apply list_elem_of_singleton in Hr as ->. by apply qos_tags_of_elem.
    + cbn [r_Inbound inbound_rule] in Ht. apply list_elem_of_fmap in Ht as (q & -> & ?). exists q. auto.
Qed.

End ports.

(** ** Rules of the user *)

(** The inbounds a rule names, nested rules included. *)
Fixpoint rule_inbounds (r : Rule) : list string :=
  r_Inbound r ++ (fix go l := match l with [] => [] | r :: l => rule_inbounds r ++ go l end) (r_Rules r).

Lemma rule_inbounds_eq r : rule_inbounds r = r_Inbound r ++ concat (rule_inbounds <$> r_Rules r).
Proof. destruct r as [? ? rs]. cbn. f_equal. induction rs as [|r rs IH]; [done|]. by rewrite fmap_cons, IH. Qed.

Section user.
Context `{U : GoUnicode} `{GP : GoParsers}.

Lemma validateRule_parts r : validateRule r = None →
  first_err inbound_err (r_Inbound r) = None ∧ ∀ x, x ∈ r_Rules r → validateRule x = None.
Proof.
  assert (∀ a b, or_else a b = None → a = None ∧ b = None) as Hor by (by intros []).
  destruct r as [? ? rs]. cbn [validateRule]. intros (_ & (_ & (_ & (Hi & Hr)%Hor)%Hor)%Hor)%Hor.
  split; [exact Hi|]. clear Hi. cbn in Hr |- *. induction rs as [|x rs IH]; [by intros y []%elem_of_nil|].
  destruct (validateRule x) eqn:Ex; [done|]. intros y [->|Hy]%elem_of_cons; [done|by apply IH].
Qed.

Lemma validateRule_inbounds r : validateRule r = None → ∀ t, t ∈ rule_inbounds r → isQoSInboundTag (TrimSpace t) = false.
Proof.
  induction r as [r IH] using Rule_rose. intros [Hi Hn]%validateRule_parts t. rewrite rule_inbounds_eq, elem_of_app, elem_concat_fmap.
  rewrite Forall_forall in IH. intros [Ht|(x & Hx & Ht)]; [|by apply (IH x Hx); [apply Hn|]].
  apply (proj1 (first_err_None_iff _ _)) with (x := t) in Hi; [|done]. unfold inbound_err in Hi.
  destruct (String.eqb (TrimSpace t) ""); [done|]. by destruct (isQoSInboundTag (TrimSpace t)).
Qed.

(** No rule of a user that is added or updated refers, at any depth, to an inbound of
    a traffic class. *)
Theorem user_rules_avoid_qos (r : Rule) (index : Z) (c : RouterConfig) :
  (∃ c', AddRule r c = inr c') ∨ (∃ c', UpdateRule index r c = inr c') →
  ∀ t, t ∈ rule_inbounds r → isQoSInboundTag (TrimSpace t) = false.
Proof.
  intros H. apply validateRule_inbounds. unfold AddRule, UpdateRule, rule_err in H.
  destruct H as [[c' H]|[c' H]]; [|destruct (negb (in_range _ _)); [done|]];
    destruct (negb (hasAnyMatcher r) && needs_matcher r); try done; by destruct (validateRule r).
Qed.
End user.
