(* ===== verification/SbRouterSim.v ===== *)
(** * The router configuration on concrete inputs

    Witnesses of the theorems on outbounds, rule sets, rules, DNS and traffic classes, and inputs on
    which an operation does not do what its comment or its counterpart promises. *)
From S2P Require Import Prelude GoLib GoText SbJson SbRouter SbRouterLib SbOutbounds SbOutboundsProps SbRulesProps SbRouterDns SbRouterDnsProps SbQoS SbQoSProps.

#[local] Existing Instance plain_unicode.
(** Every regular expression compiles; a URL is not looked into. *)
#[local] Instance any_parsers : GoParsers := {| regexp_ok := λ _, true; url_parts := λ _, Some ("https", "example.org") |}.

Definition empty_config : RouterConfig := {|
  Outbounds := []; Servers := []; DNSRules := []; DNSFinal := ""; DNSStrategy := ""; RuleSets := []; Rules := [];
  Final := ""; AutoDetectInterface := None; DefaultInterface := ""; DefaultDomainResolver := None |}.

(** ** Outbounds *)

Definition selector (tag : string) (members : list string) (dflt : string) : Outbound := {|
  o_Type := "selector"; o_Tag := tag; BindInterface := ""; o_Outbounds := members; o_URL := ""; o_Interval := "";
  o_Tolerance := 0; o_Default := dflt; o_Strategy := ""; o_Server := ""; o_DomainResolver := None |}.

Definition route_rule (domains sets : list string) (outbound : string) (nested : list Rule) : Rule := {|
  r_Type := ""; r_Mode := ""; r_Rules := nested; DomainSuffix := domains; r_Domain := []; IPCIDR := []; SourceIPCIDR := [];
  r_Port := []; r_RuleSet := sets; Protocol := ""; r_Inbound := []; IPIsPrivate := None; r_Network := "";
  r_Action := "route"; r_Outbound := outbound; r_UDPTimeout := ""; AwgmManaged := "" |}.

Definition two_selectors : RouterConfig :=
  set_Rules [route_rule ["example.org"] [] "inner" []] (set_Outbounds [selector "inner" ["awg-0"] ""; selector "outer" ["inner"] "inner"] empty_config).

Definition catalogue (t : string) : Prop := t ∈ ["direct"; "block"; "dns"; "awg-0"].
Definition awg_catalog (t : string) : bool := String.eqb t "awg-0".

Definition renaming : outbound_edit := EUpdate "inner" (selector "renamed" ["awg-0"] "").

Definition config_of (r : result) : RouterConfig := match r with inr c => c | inl _ => empty_config end.

Lemma two_selectors_sound : sound catalogue two_selectors.
Proof.
  split.
  - apply (bool_decide_unpack (NoDup (tags two_selectors))). by vm_compute.
  - intros t Ht. vm_compute in Ht. unfold catalogue. assert (t ∈ ["inner"; ""; "awg-0"]) as Hin by set_solver.
    apply elem_of_cons in Hin as [->|Hin]; [right; right; by apply (bool_decide_unpack ("inner" ∈ tags two_selectors))|].
    set_solver.
  - apply no_cycles_iff. by vm_compute.
Qed.

Lemma outbound_edits_sound_witness :
  ∃ c', persist_outbounds (edit_outbounds awg_catalog (λ _, true) renaming two_selectors) = inr c' ∧
    sound (λ t, catalogue t ∨ unchecked renaming t) c' ∧ old_tag_gone renaming c'.
Proof.
  exists (config_of (persist_outbounds (edit_outbounds awg_catalog (λ _, true) renaming two_selectors))).
  assert (persist_outbounds (edit_outbounds awg_catalog (λ _, true) renaming two_selectors) =
    inr (config_of (persist_outbounds (edit_outbounds awg_catalog (λ _, true) renaming two_selectors)))) as E by (vm_compute; reflexivity).
  split; [exact E|].
  refine (outbound_edits_sound awg_catalog (λ _, true) catalogue renaming two_selectors _ _ two_selectors_sound E).
  split; [intros t Ht; unfold catalogue; set_solver|]. intros t Ht. apply String.eqb_eq in Ht as ->. unfold catalogue. set_solver.
Defined.

(** A default that exists nowhere is accepted, for a selector whose members are known. *)
Theorem unknown_default_accepted :
  match persist_outbounds (edit_outbounds awg_catalog (λ _, true) (EAdd (selector "s" ["awg-0"] "gone")) two_selectors) with
  | inr c' => o_Default <$> Outbounds c' = [""; "inner"; "gone"]
  | inl _ => False
  end.
Proof. vm_compute. reflexivity. Qed.

(** Deleting by force the only member of a selector succeeds and leaves a selector
    without members, which the check of an outbound refuses. *)
Theorem forced_delete_empties_selector :
  let c := set_Outbounds [selector "inner" ["awg-0"] ""; selector "outer" ["inner"] ""] empty_config in
  ∃ c', DeleteCompositeOutbound "inner" true c = inr c' ∧ Outbounds c' = [selector "outer" [] ""] ∧
    validateOutbound (selector "outer" [] "") ≠ None ∧ validateNoCompositeCycles (Outbounds c') = None.
Proof. eexists. split; [reflexivity|]. split; [reflexivity|]. split; [by vm_compute|by vm_compute]. Qed.

(** ** Rule sets *)

Definition remote (tag : string) : RuleSet := {|
  rs_Tag := tag; rs_Type := "remote"; rs_Format := "binary"; rs_URL := "https://example.org/x.srs"; rs_UpdateInterval := "24h";
  rs_DownloadDetour := ""; rs_Path := ""; rs_Rules := [] |}.

Definition dns_rule (sets : list string) (action server tag : string) (match_tag : option string) : DNSRule := {|
  d_RuleSet := sets; d_SourceIPCIDR := []; d_DomainSuffix := []; d_Domain := []; DomainKeyword := []; DomainRegex := [];
  QueryType := []; d_Server := server; d_Action := action; Rcode := ""; RejectMethod := ""; d_Tag := tag;
  MatchResponse := (λ t, {| mr_Enabled := true; mr_Tag := t |}) <$> match_tag; d_IPCIDR := []; ResponseRcode := "";
  ResponseAnswer := []; ResponseNS := []; ResponseExtra := []; Race := false; Speculative := false |}.

Definition with_sets : RouterConfig :=
  set_DNSRules [dns_rule ["ads"] "reject" "" "" None; dns_rule [] "route" "home" "" None]
    (set_Rules [route_rule [] ["ads"; "work"] "vpn" []] (set_RuleSets [remote "ads"; remote "work"] empty_config)).

Definition nothing_lost (t : string) : Prop := False.

Lemma with_sets_sound : sound_sets nothing_lost with_sets.
Proof.
  split.
  - apply (bool_decide_unpack (NoDup (set_tags with_sets))). by vm_compute.
  - apply (bool_decide_unpack ("" ∉ set_tags with_sets)). by vm_compute.
  - intros t Ht. left. vm_compute in Ht. assert (t = "ads" ∨ t = "work") as [-> | ->] by set_solver.
    + apply (bool_decide_unpack ("ads" ∈ set_tags with_sets)). by vm_compute.
    + apply (bool_decide_unpack ("work" ∈ set_tags with_sets)). by vm_compute.
Qed.

Lemma rule_set_edits_sound_witness :
  ∃ c', edit_sets (SDelete "ads" true) with_sets = inr c' ∧
    sound_sets (λ t, nothing_lost t ∨ orphaned (SDelete "ads" true) with_sets t) c' ∧ old_set_gone (SDelete "ads" true) with_sets c'.
Proof.
  eexists. split; [reflexivity|].
  exact (rule_set_edits_sound nothing_lost (SDelete "ads" true) with_sets _ with_sets_sound eq_refl).
Defined.

Definition nested_sets : RouterConfig :=
  set_Rules [route_rule [] [] "vpn" [route_rule [] ["work"] "" []]] (set_RuleSets [remote "work"] empty_config).

(** A rule set that only a rule nested in a logical rule names is deleted without
    force, and the nested rule keeps naming it. *)
Theorem nested_rule_set_orphaned :
  ∃ c', DeleteRuleSet "work" false nested_sets = inr c' ∧ RuleSets c' = [] ∧ all_set_refs c' = ["work"].
Proof. eexists. split; [reflexivity|]. by split. Qed.

(** Deleting a rule set by force leaves a DNS rule that matched by it alone without
    a matcher: it then answers every query, and the rules behind it are never reached. *)
Theorem forced_delete_widens_dns_rule :
  DNSRulesShadowedByCatchAll with_sets = [] ∧
  ∃ c', DeleteRuleSet "ads" true with_sets = inr c' ∧ DNSRulesShadowedByCatchAll c' = [1%nat].
Proof. split; [reflexivity|]. eexists. split; reflexivity. Qed.

(** ** Rules *)

Definition udp_rule : Rule := {|
  r_Type := ""; r_Mode := ""; r_Rules := []; DomainSuffix := ["voip.example"]; r_Domain := []; IPCIDR := [];
  SourceIPCIDR := []; r_Port := []; r_RuleSet := []; Protocol := ""; r_Inbound := []; IPIsPrivate := None;
  r_Network := "udp"; r_Action := "route-options"; r_Outbound := ""; r_UDPTimeout := "10m"; AwgmManaged := "" |}.

Lemma enable_rules_settled_witness :
  let rules := [route_rule ["example.org"] [] "vpn" []] in
  let out := enable_rules true "5m" rules in
  enable_rules true "5m" out = out ∧ settled_rules true out ∧
  filter (λ r, isSystemUDPTimeoutRule r = true) out = [udp_timeout_rule "5m"] ∧
  find_index isSystemUDPTimeoutRule out = Some (systemPrefixLen out) ∧ not_udp (other_rules out) = not_udp (other_rules rules).
Proof. exact (enable_rules_settled true "5m" [route_rule ["example.org"] [] "vpn" []] ltac:(discriminate) eq_refl). Defined.

(** A rule of the user that sets options for UDP to some domains is accepted, and
    dropped when the router is enabled: it is taken for the managed time-out rule. *)
Theorem user_udp_rule_dropped :
  ∃ c', AddRule udp_rule empty_config = inr c' ∧ Rules c' = [udp_rule] ∧
    udp_rule ∉ Rules (EnsureUDPTimeoutRule "5m" c') ∧ length (Rules (EnsureUDPTimeoutRule "5m" c')) = 1%nat.
Proof.
  eexists. split; [reflexivity|]. split; [reflexivity|]. split; [|reflexivity].
  intros H. apply list_elem_of_singleton in H. discriminate.
Qed.

Definition domain_rule : Rule := {|
  r_Type := ""; r_Mode := ""; r_Rules := []; DomainSuffix := []; r_Domain := ["example.org"]; IPCIDR := [];
  SourceIPCIDR := []; r_Port := []; r_RuleSet := []; Protocol := ""; r_Inbound := []; IPIsPrivate := None;
  r_Network := ""; r_Action := "route"; r_Outbound := "vpn"; r_UDPTimeout := ""; AwgmManaged := "" |}.

(** A route rule that matches by an exact domain alone is refused for having no matcher;
    a DNS rule of this kind has one. *)
Theorem domain_rule_refused (r : DNSRule) (c : RouterConfig) :
  AddRule domain_rule c = inl ErrInvalidMatchers ∧ (d_Domain r = ["example.org"] → dnsRuleHasMatcher r = true).
Proof. split; [reflexivity|]. intros H. unfold dnsRuleHasMatcher. rewrite H, !orb_true_iff. cbn. auto 10. Qed.

(** ** DNS *)

Definition server (tag : string) : DNSServer := {|
  s_Tag := tag; s_Type := "udp"; s_Server := "9.9.9.9"; ServerPort := 53; s_Path := ""; s_Detour := ""; s_Strategy := "";
  s_DomainResolver := None; s_TLS := None; Inet4Range := ""; Inet6Range := "" |}.

Definition with_servers : RouterConfig :=
  set_DNSRules [dns_rule ["ads"] "route" "home" "" None] (set_DNSFinal "home" (set_Servers [server "home"; server "vpn"] empty_config)).

Definition resilient : DNSChainPresetState := {| Mode := "resilient"; DirectServer := "home"; ProxyServer := "vpn"; PoisonCIDRs := [] |}.

Definition dns_w : dns_world := {| Cfg := with_servers; DNSChainPreset := None; dns_faults := [] |}.

Lemma with_servers_ok : dns_ok with_servers.
Proof.
  split.
  - apply (bool_decide_unpack (NoDup (server_tags with_servers))). by vm_compute.
  - intros s Hs. cbn in Hs. assert (s = server "home" ∨ s = server "vpn") as [-> | ->] by set_solver; by vm_compute.
  - intros s dr Hs Hd. cbn in Hs. assert (s = server "home" ∨ s = server "vpn") as [-> | ->] by set_solver; done.
  - intros r Hr. apply list_elem_of_singleton in Hr as ->. by vm_compute.
  - right. apply (bool_decide_unpack ("home" ∈ server_tags with_servers)). by vm_compute.
  - by vm_compute.
  - apply Forall_forall. intros r Hr. apply list_elem_of_singleton in Hr as ->. done.
Qed.

Lemma dns_edits_keep_config_witness :
  dns_ok (Cfg dns_w) ∧
  let '(err, w') := withConfig (ESetPreset resilient) dns_w in
  dns_ok (Cfg w') ∧
  match err with
  | None => preset_in_place w' ∧ DNSChainPreset w' = intended (ESetPreset resilient) (DNSChainPreset dns_w)
  | Some _ => Cfg w' = Cfg dns_w ∧
      (DNSChainPreset w' = DNSChainPreset dns_w ∨ DNSChainPreset w' = intended (ESetPreset resilient) (DNSChainPreset dns_w))
  end.
Proof. split; [exact with_servers_ok|exact (dns_edits_keep_config (ESetPreset resilient) dns_w with_servers_ok)]. Defined.

(** The preset is set, and its rules follow the user's. *)
Example preset_set : fst (withConfig (ESetPreset resilient) dns_w) = None ∧
  length (DNSRules (Cfg (snd (withConfig (ESetPreset resilient) dns_w)))) = 5%nat.
Proof. by vm_compute. Qed.

(** The preset is saved before the configuration: when writing the draft fails, the edit
    reports the error, the settings have the preset, and its rules are not in place. *)
Theorem failed_edit_keeps_new_preset :
  let '(err, w') := withConfig (ESetPreset resilient) (set_dns_faults [false; false; false; false; true] dns_w) in
  err = Some "save draft" ∧ DNSChainPreset w' = Some resilient ∧ length (DNSRules (Cfg w')) = 1%nat.
Proof. vm_compute. by repeat split. Qed.

(** ** Traffic classes *)

Definition traffic (dscp : Z) (outbound : string) (slot : Z) : SingboxQoSClass :=
  {| c_DSCP := dscp; c_Name := ""; c_Outbound := outbound; c_Enabled := true; c_Slot := slot |}.

Definition stored_classes : list SingboxQoSClass := [traffic 46 "vpn" 0; traffic 10 "direct" 1].

Lemma stored_classes_wf : wf_classes stored_classes.
Proof.
  split.
  - apply (bool_decide_unpack (NoDup (c_DSCP <$> stored_classes))). by vm_compute.
  - apply (bool_decide_unpack (NoDup (slots stored_classes))). by vm_compute.
  - intros s Hs. apply slot_ok_iff. cbn in Hs. assert (s = 0%Z ∨ s = 1%Z) as [-> | ->] by set_solver; done.
  - intros d Hd. cbn in Hd. assert (d = 46%Z ∨ d = 10%Z) as [-> | ->] by set_solver; lia.
Qed.

(** The first class goes and a new one comes: the second keeps its slot. *)
Lemma qos_slots_stable_witness :
  update_classes [traffic 10 " direct " 0; traffic 8 "vpn" 0] stored_classes =
    inr [traffic 10 "direct" 1; traffic 8 "vpn" 0] ∧
  wf_classes [traffic 10 "direct" 1; traffic 8 "vpn" 0].
Proof.
  assert (update_classes [traffic 10 " direct " 0; traffic 8 "vpn" 0] stored_classes =
    inr [traffic 10 "direct" 1; traffic 8 "vpn" 0]) as E by (vm_compute; reflexivity).
  split; [exact E|]. exact (proj1 (qos_slots_stable _ _ _ stored_classes_wf E)).
Defined.

Lemma user_rules_avoid_qos_witness :
  ∀ t, t ∈ rule_inbounds (route_rule ["example.org"] [] "vpn" []) → isQoSInboundTag (TrimSpace t) = false.
Proof.
  apply (user_rules_avoid_qos (route_rule ["example.org"] [] "vpn" []) 0 empty_config). left. eexists. reflexivity.
Defined.
