(* ===== verification/SbTunnels.v ===== *)
(** * User tunnels of sing-box ([internal/singbox/config.go], [operator_tunnels.go])

    The slot [10-tunnels.json] as a Go value of type [map[string]any], and the edits of
    the tunnels in it: each tunnel is an outbound, an inbound on a local port and a route
    rule between them.  Writing to a nil map panics: [None] is that outcome.

    A number the program puts into the document ([int]) is the text it is written as; the
    two are read alike up to 2^53.  The text of an error is its sentinel or a short name. *)
From S2P Require Import Prelude GoLib GoText SbJson.

Abbreviation obj := (list (string * json)).

(** ** Go values *)

(** [m[k] = v] *)
Definition obj_put (k : string) (v : json) (m : obj) : obj :=
  match obj_get k m with Some _ => obj_set k v m | None => m ++ [(k, v)] end.

Definition tag_of (m : obj) : string := as_string (obj_get "tag" m).

Definition strOr (v : option json) (def : string) : string :=
  match v with Some (JString s) => s | _ => def end.

(** A JSON number as [float64] and its conversion to [int]: round to 53 bits, ties to
    even, then drop the fraction. *)
Definition round_even (n d : Z) : Z :=
  let q := (n / d)%Z in
  let r := (2 * (n mod d))%Z in
  if (r <? d)%Z then q else if (d <? r)%Z then (q + 1)%Z else if Z.even q then q else (q + 1)%Z.

Definition float_trunc (n d : Z) : Z :=
  if (n =? 0)%Z then 0%Z
  else
    let k := (Z.log2 n - Z.log2 d - 52)%Z in
    let scale k := (n * 2 ^ Z.max (- k) 0, d * 2 ^ Z.max k 0)%Z in
    let k := if ((scale k).1 <? 2 ^ 52 * (scale k).2)%Z then (k - 1)%Z else k in
    let q := round_even (scale k).1 (scale k).2 in
    if (0 <=? k)%Z then (q * 2 ^ k)%Z else (q / 2 ^ (- k))%Z.

(** What [int(x)] is for a number beyond the range of [int] is left to the compiler. *)
Class GoFloat := { int_beyond : Z → Z }.

Definition number_Z (text : string) : Z :=
  let '(neg, s) := match text with String "-" s => (true, s) | _ => (false, text) end in
  let '(whole, s) := span_byte is_digit s in
  let '(frac, s) := match s with String "." s => span_byte is_digit s | _ => ("", s) end in
  let exp := match s with
             | String c s => match s with
                             | String "+" s => default 0%Z (parse_digits s)
                             | String "-" s => (- default 0 (parse_digits s))%Z
                             | _ => default 0%Z (parse_digits s)
                             end
             | "" => 0%Z
             end in
  let m := default 0%Z (digits_val 0 (whole +:+ frac)) in
  let e := (exp - Z.of_nat (String.length frac))%Z in
  let v := float_trunc (m * 10 ^ Z.max e 0) (10 ^ Z.max (- e) 0) in
  if neg then (- v)%Z else v.

Section ints.
Context `{GoArch, GoFloat}.

Definition toInt (v : option json) : option Z :=
  match v with
  | Some (JNumber t) => let z := number_Z t in Some (if in_int z then z else int_beyond z)
  | _ => None
  end.
Definition mustInt (v : option json) : Z := default 0%Z (toInt v).
End ints.

Definition JInt (z : Z) : json := JNumber (Itoa z).

(** ** The document *)

Record Config := { raw : option obj }. (* [None]: the nil map *)

Definition NewConfig : Config := {|
  raw := Some [("inbounds", JArray []); ("outbounds", JArray []); ("route", JObject [("rules", JArray [])])] |}.

(** [json.Unmarshal] into [map[string]any]: [null] gives the nil map. *)
Definition unmarshal_map (c : content) : option (option obj) :=
  match unmarshal c with Some (JObject fs) => Some (Some fs) | Some JNull => Some None | _ => None end.
Definition UnmarshalJSON (c : content) : string + Config :=
  match unmarshal_map c with Some m => inr {| raw := m |} | None => inl "parse" end.
Definition MarshalJSON (c : Config) : json := match raw c with Some fs => JObject fs | None => JNull end.

Definition as_array (v : option json) : list json := match v with Some (JArray l) => l | _ => [] end.
Definition as_object (v : option json) : option obj := match v with Some (JObject fs) => Some fs | _ => None end.

Definition raw_get (k : string) (c : Config) : option json := m ← raw c; obj_get k m.
Definition raw_put (k : string) (v : json) (c : Config) : option Config :=
  m ← raw c; Some {| raw := Some (obj_put k v m) |}.

Definition inbounds (c : Config) : list json := as_array (raw_get "inbounds" c).
Definition outbounds (c : Config) : list json := as_array (raw_get "outbounds" c).
Definition routeRules (c : Config) : list json := as_array (as_object (raw_get "route" c) ≫= obj_get "rules").

Definition setInbounds (v : list json) : Config → option Config := raw_put "inbounds" (JArray v).
Definition setOutbounds (v : list json) : Config → option Config := raw_put "outbounds" (JArray v).
Definition setRouteRules (v : list json) (c : Config) : option Config :=
  raw_put "route" (JObject (obj_put "rules" (JArray v)
    (default [("final", JString "direct")] (as_object (raw_get "route" c))))) c.

(** ** The list of tunnels *)

Definition is_system_type (t : string) : bool :=
  bool_decide (t ∈ ["direct"; "block"; "dns"; "selector"]).

Definition user_outbound (v : json) : option obj :=
  match v with
  | JObject ob => if is_system_type (as_string (obj_get "type" ob)) then None else Some ob
  | _ => None
  end.
Definition userOutbounds (c : Config) : list obj := omap user_outbound (outbounds c).

Definition firstPort : Z := 1080.
Definition proxyIfacePrefix : string := "Proxy".

Record TunnelInfo := {
  ti_Tag : string; ti_Protocol : string; ti_Server : string; ti_Port : Z;
  ti_Security : string; ti_Transport : string; ti_ListenPort : Z; ti_ProxyInterface : string;
  ti_SNI : string; ti_Fingerprint : string; ti_Username : string; ti_KernelInterface : string;
}.

Definition sub_object (k : string) (m : obj) : option obj := as_object (obj_get k m).

Definition detectSecurity (ob : obj) : string :=
  match sub_object "tls" ob with
  | None => "none"
  | Some tls =>
      match sub_object "reality" tls with
      | Some _ => "reality"
      | None => match obj_get "enabled" tls with Some (JBool true) => "tls" | _ => "none" end
      end
  end.

Definition detectTransport `{GoUnicode} (ob : obj) : string :=
  let t := strOr (obj_get "type" ob) "" in
  if String.eqb t "hysteria2" then "quic"
  else if String.eqb t "naive" then "https"
  else if String.eqb t "mieru" then ToLower (strOr (obj_get "transport" ob) "tcp")
  else match sub_object "transport" ob with
       | Some tr => strOr (obj_get "type" tr) "tcp"
       | None => "tcp"
       end.

Definition detectSNI (ob : obj) : string :=
  match sub_object "tls" ob with Some tls => strOr (obj_get "server_name" tls) "" | None => "" end.

Definition detectFingerprint (ob : obj) : string :=
  match sub_object "tls" ob ≫= sub_object "utls" with
  | Some utls => strOr (obj_get "fingerprint" utls) ""
  | None => ""
  end.

Section tunnels.
Context `{GoArch, GoFloat, GoUnicode}.

Definition note_port (m : gmap string Z) (v : json) : gmap string Z :=
  match v with
  | JObject ib =>
      let tag := tag_of ib in
      let port := mustInt (obj_get "listen_port" ib) in
      if (0 <? port)%Z && (3 <? String.length tag)%nat && HasSuffix tag "-in"
      then <[str_take (String.length tag - 3) tag := port]> m else m
  | _ => m
  end.
Definition tagToPort (c : Config) : gmap string Z := foldl note_port ∅ (inbounds c).

Definition tunnel_info (port : Z) (ob : obj) : TunnelInfo := {|
  ti_Tag := tag_of ob;
  ti_Protocol := strOr (obj_get "type" ob) "";
  ti_Server := strOr (obj_get "server" ob) "";
  ti_Port := mustInt (obj_get "server_port" ob);
  ti_Security := detectSecurity ob;
  ti_Transport := detectTransport ob;
  ti_ListenPort := port;
  ti_ProxyInterface := if (firstPort <=? port)%Z then proxyIfacePrefix +:+ Itoa (port - firstPort) else "";
  ti_SNI := detectSNI ob;
  ti_Fingerprint := detectFingerprint ob;
  ti_Username := strOr (obj_get "username" ob) "";
  ti_KernelInterface := if (firstPort <=? port)%Z then "t2s" +:+ Itoa (port - firstPort) else "";
|}.

Definition Tunnels (c : Config) : list TunnelInfo :=
  (λ ob, tunnel_info (default 0%Z (tagToPort c !! tag_of ob)) ob) <$> userOutbounds c.

(** ** Listen ports *)

Definition listen_ports (c : Config) : list Z :=
  omap (λ v, match v with JObject ib => toInt (obj_get "listen_port" ib) | _ => None end) (inbounds c).

Fixpoint lowest_gap (cand : Z) (ports : list Z) : Z :=
  match ports with
  | [] => cand
  | p :: ports => if (cand <? p)%Z then cand else lowest_gap (p + 1) ports
  end.

Definition allocPort (c : Config) : string + Z :=
  let used : gset Z := list_to_set (listen_ports c) in
  let cand := lowest_gap firstPort (merge_sort Z.le (elements used)) in
  if (65535 <? cand)%Z then inl "no free listen_port available" else inr cand.
End tunnels.

(** ** Edits

    An edit answers its error and the configuration after it. *)
Definition ErrTunnelNotFound : string := "tunnel not found".
Definition ErrTunnelTagConflict : string := "tunnel tag already exists".
Definition ErrInvalidTunnelTag : string := "invalid tunnel tag".

Definition edit : Type := option (option string * Config).

Definition ensureNaiveUDPOverTCP (ob : obj) : obj :=
  if negb (String.eqb (strOr (obj_get "type" ob) "") "naive") then ob
  else match obj_get "udp_over_tcp" ob with
       | Some _ => ob
       | None => obj_put "udp_over_tcp" (JObject [("enabled", JBool true); ("version", JInt 2)]) ob
       end.

Definition ensureNaiveUDPOverTCPOutbounds (c : Config) : Config := {|
  raw := (λ m, match obj_get "outbounds" m with
               | Some (JArray l) => obj_put "outbounds"
                   (JArray ((λ v, match v with JObject ob => JObject (ensureNaiveUDPOverTCP ob) | _ => v end) <$> l)) m
               | _ => m
               end) <$> raw c |}.

(** The loop that keeps everything but the objects [p] holds of. *)
Definition drop_objects (p : obj → bool) (l : list json) : list json :=
  List.filter (λ v, match v with JObject fs => negb (p fs) | _ => true end) l.

Definition inbound_tag (tag : string) : string := tag +:+ "-in".
Definition tunnel_inbound (tag : string) (port : Z) : json :=
  JObject [("type", JString "mixed"); ("tag", JString (inbound_tag tag));
           ("listen", JString "127.0.0.1"); ("listen_port", JInt port)].
Definition tunnel_rule (tag : string) : json :=
  JObject [("inbound", JString (inbound_tag tag)); ("outbound", JString tag)].

(** The first outbound object with the tag replaced. *)
Fixpoint replace_tagged (tag : string) (ob : obj) (l : list json) : option (list json) :=
  match l with
  | [] => None
  | v :: l =>
      match v with
      | JObject fs => if String.eqb (tag_of fs) tag then Some (JObject ob :: l)
                      else (v ::.) <$> replace_tagged tag ob l
      | _ => (v ::.) <$> replace_tagged tag ob l
      end
  end.

Definition has_tag (tag : string) (v : json) : bool :=
  match v with JObject fs => String.eqb (tag_of fs) tag | _ => false end.

Section edits.
Context `{GoArch, GoFloat}.

Definition AddTunnelWithListenPort (tag protocol server : string) (port listenPort : Z) (outbound : content)
    (c : Config) : edit :=
  if existsb (λ ob, String.eqb (tag_of ob) tag) (userOutbounds c) then Some (Some "tunnel tag already exists", c)
  else
    match (if (listenPort =? 0)%Z then allocPort c
           else if existsb (Z.eqb listenPort) (listen_ports c) then inl "listen_port already in use"
           else inr listenPort) with
    | inl err => Some (Some err, c)
    | inr listenPort =>
        match unmarshal_map outbound with
        | None => Some (Some "bad outbound json", c)
        | Some obMap =>
            ob ← obMap;
            let ob := ensureNaiveUDPOverTCP (obj_put "tag" (JString tag) ob) in
            c ← setInbounds (inbounds c ++ [tunnel_inbound tag listenPort]) c;
            c ← setOutbounds (outbounds c ++ [JObject ob]) c;
            c ← setRouteRules (tunnel_rule tag :: routeRules c) c;
            Some (None, c)
        end
    end.

Definition AddTunnel (tag protocol server : string) (port : Z) (outbound : content) : Config → edit :=
  AddTunnelWithListenPort tag protocol server port 0 outbound.

Definition RemoveTunnel (tag : string) (c : Config) : edit :=
  if negb (existsb (has_tag tag) (outbounds c)) then Some (Some ErrTunnelNotFound, c)
  else
    c ← setOutbounds (drop_objects (λ ob, String.eqb (tag_of ob) tag) (outbounds c)) c;
    c ← setInbounds (drop_objects (λ ib, String.eqb (tag_of ib) (inbound_tag tag)) (inbounds c)) c;
    c ← setRouteRules (drop_objects (λ r, String.eqb (as_string (obj_get "outbound" r)) tag) (routeRules c)) c;
    Some (None, c).

Definition UpdateTunnel (tag : string) (outbound : content) (c : Config) : edit :=
  match unmarshal_map outbound with
  | None => Some (Some "bad outbound json", c)
  | Some obMap =>
      ob ← obMap;
      let ob := ensureNaiveUDPOverTCP (obj_put "tag" (JString tag) ob) in
      match replace_tagged tag ob (outbounds c) with
      | None => Some (Some ErrTunnelNotFound, c)
      | Some obs => c ← setOutbounds obs c; Some (None, c)
      end
  end.

(** [ob["tag"] = newTag] in the objects that have the old tag. *)
Definition retag (old new : string) (v : json) : json :=
  match v with
  | JObject fs => if String.eqb (tag_of fs) old then JObject (obj_put "tag" (JString new) fs) else v
  | _ => v
  end.

Definition rename_inbound (oldIn newIn : string) (v : json) : json :=
  let one v := match v with JString s => if String.eqb s oldIn then JString newIn else v | _ => v end in
  match v with JArray l => JArray (one <$> l) | _ => one v end.

(** [renameTunnelRouteRefs], for one rule: its fields, one after the other. *)
Fixpoint rename_rule (oldOut newOut oldIn newIn : string) (v : json) : json :=
  match v with
  | JObject fs =>
      JObject (map (λ f, (f.1,
        if String.eqb f.1 "outbound" then
          match f.2 with JString s => if String.eqb s oldOut then JString newOut else f.2 | _ => f.2 end
        else if String.eqb f.1 "inbound" then rename_inbound oldIn newIn f.2
        else if String.eqb f.1 "rules" then
          match f.2 with JArray l => JArray (map (rename_rule oldOut newOut oldIn newIn) l) | _ => f.2 end
        else f.2)) fs)
  | _ => v
  end.
Definition renameTunnelRouteRefs (values : list json) (oldOut newOut oldIn newIn : string) : list json :=
  rename_rule oldOut newOut oldIn newIn <$> values.

(** The renaming writes into the objects of the document and puts nothing in their place. *)
Definition in_place (k : string) (f : json → json) (m : obj) : obj :=
  (λ e, if String.eqb e.1 k then (e.1, f e.2) else e) <$> m.
Definition in_array (f : list json → list json) (v : json) : json :=
  match v with JArray l => JArray (f l) | _ => v end.

Definition RenameTunnel `{GoUnicode} (oldTag newTag : string) (c : Config) : option string * Config :=
  let oldTag := TrimSpace oldTag in
  let newTag := TrimSpace newTag in
  let found := existsb (λ ob, String.eqb (tag_of ob) oldTag) (userOutbounds c) in
  if String.eqb oldTag "" || String.eqb newTag "" then (Some ErrInvalidTunnelTag, c)
  else if String.eqb oldTag newTag then ((if found then None else Some ErrTunnelNotFound), c)
  else if existsb (has_tag newTag) (outbounds c) then (Some ErrTunnelTagConflict, c)
  else if negb found then (Some ErrTunnelNotFound, c)
  else
    let oldIn := inbound_tag oldTag in
    let newIn := inbound_tag newTag in
    let edit m :=
      in_place "route" (λ v, match v with
                             | JObject r => JObject (in_place "rules" (in_array (λ l, renameTunnelRouteRefs l oldTag newTag oldIn newIn)) r)
                             | _ => v
                             end)
        (in_place "inbounds" (in_array (fmap (retag oldIn newIn)))
          (in_place "outbounds" (in_array (fmap (retag oldTag newTag))) m)) in
    (None, {| raw := edit <$> raw c |}).

Definition GetOutbound (tag : string) (c : Config) : string + content :=
  match List.find (has_tag tag) (outbounds c) with
  | Some v => inr (Marshal v)
  | None => inl ErrTunnelNotFound
  end.
End edits.
