(* ===== verification/SbTunnelsProps.v ===== *)
(** * User tunnels of sing-box: the edits refine edits of a list

    A configuration represents a list of tunnels when its three arrays are exactly the
    outbounds, inbounds and rules of the list.  Every edit does to the document what its
    specification does to the list. *)
From S2P Require Import Prelude GoLib GoText SbJson SbTunnels.

(** ** Objects *)

Lemma obj_get_app k m m' : obj_get k (m ++ m') = match obj_get k m with Some v => Some v | None => obj_get k m' end.
Proof.
  unfold obj_get. induction m as [|[k0 v] m IH]; [done|]. cbn. destruct (String.eqb k0 k); [done|]. apply IH.
Qed.

Lemma obj_get_put_eq k v m : obj_get k (obj_put k v m) = Some v.
Proof.
  unfold obj_put. destruct (obj_get k m) eqn:E; [by eapply obj_get_set_eq|].
  rewrite obj_get_app, E. unfold obj_get. cbn. by rewrite String.eqb_refl.
Qed.

Lemma obj_get_put_ne k k' v m : k ≠ k' → obj_get k' (obj_put k v m) = obj_get k' m.
Proof.
  intros Hne. unfold obj_put. destruct (obj_get k m); [by apply obj_get_set_ne|].
  rewrite obj_get_app. destruct (obj_get k' m); [done|]. unfold obj_get. cbn.
  by rewrite (proj2 (String.eqb_neq k k') Hne).
Qed.

Lemma obj_get_in_place k f m k' :
  obj_get k' (in_place k f m) = if String.eqb k k' then f <$> obj_get k' m else obj_get k' m.
Proof.
  unfold obj_get, in_place. induction m as [|[k0 v] m IH]; [by destruct (String.eqb k k')|]. cbn.
  destruct (String.eqb k0 k) eqn:E0; cbn; destruct (String.eqb k0 k') eqn:E1; cbn; to_prop; subst; try done.
  - by rewrite String.eqb_refl.
  - by rewrite (proj2 (String.eqb_neq k k')) by done.
Qed.

Lemma in_place_eq k f m : obj_get k (in_place k f m) = f <$> obj_get k m.
Proof. by rewrite obj_get_in_place, String.eqb_refl. Qed.
Lemma in_place_ne k f m k' : k ≠ k' → obj_get k' (in_place k f m) = obj_get k' m.
Proof. intros. by rewrite obj_get_in_place, (proj2 (String.eqb_neq k k')). Qed.

(** ** Numbers *)

Lemma float_trunc_int n : (0 ≤ n < 2 ^ 53)%Z → float_trunc n 1 = n.
Proof.
  intros Hn. unfold float_trunc. destruct (Z.eqb_spec n 0) as [->|Hne]; [done|]. change (Z.log2 1) with 0%Z.
  pose proof (Z.log2_spec n ltac:(lia)) as [Hlo _].
  assert (Z.log2 n < 53)%Z as Hl by (apply Z.log2_lt_pow2; lia).
  pose proof (Z.log2_nonneg n). set (k := (Z.log2 n - 0 - 52)%Z).
  assert (Z.max k 0 = 0)%Z as Hk by lia. assert (Z.max (- k) 0 = - k)%Z as Hk' by lia.
  assert (2 ^ 52 ≤ n * 2 ^ (- k))%Z as Hs.
  { assert (2 ^ 52 = 2 ^ Z.log2 n * 2 ^ (- k))%Z as -> by (rewrite <- Z.pow_add_r by lia; f_equal; lia).
    apply Z.mul_le_mono_nonneg_r; [apply Z.pow_nonneg; lia|done]. }
  cbn [fst snd]. rewrite Hk, Hk', Z.pow_0_r. change (1 * 1)%Z with 1%Z. rewrite Z.mul_1_r, (proj2 (Z.ltb_ge _ _)) by done.
  rewrite Hk, Hk', Z.pow_0_r. unfold round_even. cbv zeta. change (1 * 1)%Z with 1%Z. rewrite Z.div_1_r, Z.mod_1_r.
  change (2 * 0 <? 1)%Z with true. destruct (Z.leb_spec 0 k).
  - assert (k = 0)%Z as -> by lia. cbn. lia.
  - apply Z.div_mul, Z.pow_nonzero; lia.
Qed.

Lemma str_app_empty a : a +:+ "" = a.
Proof. induction a as [|c a IH]; [done|]. rewrite str_app_cons. by rewrite IH. Qed.

Lemma number_Itoa z : (0 ≤ z < 2 ^ 53)%Z → number_Z (Itoa z) = z.
Proof.
  intros Hz. destruct (Itoa_digits z ltac:(lia)) as [Hne Hd]. unfold number_Z.
  assert ((match Itoa z with String "-" s => (true, s) | _ => (false, Itoa z) end) = (false, Itoa z)) as ->.
  { destruct (Itoa z) as [|c s] eqn:E; [done|]. cbn in Hd. to_prop.
    destruct c as [[] [] [] [] [] [] [] []]; done. }
  assert (span_byte is_digit (Itoa z) = (Itoa z, "")) as ->.
  { rewrite <- (str_app_empty (Itoa z)) at 1. by apply span_byte_app. }
  cbn [String.length]. rewrite str_app_empty. rewrite Itoa_nonneg by lia. rewrite digits_val_pretty_N. cbn [default].
  rewrite Z2N.id by lia. change (0 - Z.of_nat 0)%Z with 0%Z. cbn. rewrite Z.mul_1_r. by apply float_trunc_int.
Qed.

Section props.
Context `{GoArch, GoFloat}.

Lemma toInt_JInt z : (0 ≤ z < 2 ^ 31)%Z → toInt (Some (JInt z)) = Some z.
Proof.
  intros Hz. unfold toInt, JInt. rewrite number_Itoa by lia. unfold in_int.
  destruct int_bits_ok as [->| ->]; rewrite (proj2 (Z.leb_le _ _)), (proj2 (Z.ltb_lt _ _)) by lia; done.
Qed.

(** ** The lowest free port *)

Lemma lowest_gap_spec ports cand : StronglySorted Z.lt ports → Forall (λ p, cand ≤ p)%Z ports →
  (cand ≤ lowest_gap cand ports ∧ (lowest_gap cand ports ∉ ports) ∧
   ∀ p, cand ≤ p < lowest_gap cand ports → p ∈ ports)%Z.
Proof.
  revert cand. induction ports as [|p ports IH]; intros cand Hs Hf; cbn.
  { split; [lia|]. split; [by intros []%elem_of_nil|lia]. }
  apply StronglySorted_inv in Hs as [Hs Hp]. apply Forall_cons in Hf as [Hc Hf].
  rewrite Forall_forall in Hp. destruct (Z.ltb_spec cand p).
  - split; [lia|]. split; [|lia]. intros [->|Hin]%elem_of_cons; [lia|]. apply Hp in Hin. lia.
  - assert (cand = p) as -> by lia.
    destruct (IH (p + 1)%Z Hs) as (G1 & G2 & G3); [apply Forall_forall; intros q Hq; apply Hp in Hq; lia|].
    split; [lia|]. split; [intros [E|Hin]%elem_of_cons; [lia|done]|].
    intros q Hq. apply elem_of_cons. destruct (base.decide (q = p)); [by left|]. right. apply G3. lia.
Qed.

(** [p] is the least port from 1080 that is not taken. *)
Definition lowest_free (taken : list Z) (p : Z) : Prop :=
  (firstPort ≤ p)%Z ∧ (p ∉ taken) ∧ ∀ q, (firstPort ≤ q < p)%Z → q ∈ taken.

Lemma allocPort_spec c : Forall (λ p, firstPort ≤ p)%Z (listen_ports c) →
  ∃ p, lowest_free (listen_ports c) p ∧
    allocPort c = if (65535 <? p)%Z then inl "no free listen_port available" else inr p.
Proof.
  intros Hf. unfold allocPort. set (l := merge_sort Z.le _).
  assert (∀ p, p ∈ l ↔ p ∈ listen_ports c) as Hl.
  { intros p. unfold l. rewrite merge_sort_Permutation, elem_of_elements. apply elem_of_list_to_set. }
  assert (StronglySorted Z.lt l) as Hs.
  { assert (NoDup l) as Hn by (unfold l; rewrite merge_sort_Permutation; apply NoDup_elements).
    assert (StronglySorted Z.le l) as Hs by (apply StronglySorted_merge_sort; [typeclasses eauto|]; intros ? ?; lia).
    clearbody l. clear Hl. induction Hs as [|p l Hs IH Hp]; [constructor|]. apply NoDup_cons in Hn as [Hp' Hn].
    constructor; [by apply IH|]. rewrite Forall_forall in Hp |- *. intros q Hq. specialize (Hp q Hq).
    destruct (base.decide (p = q)) as [->|]; [done|lia]. }
  destruct (lowest_gap_spec l firstPort Hs) as (G1 & G2 & G3).
  { apply Forall_forall. intros p Hp. apply Hl in Hp. rewrite Forall_forall in Hf. auto. }
  exists (lowest_gap firstPort l). split; [|done]. split; [done|]. split; [by rewrite <- Hl|].
  intros q Hq. apply Hl. auto.
Qed.

(** ** Tunnels as a list *)

Record tunnel := mkTunnel { tn_tag : string; tn_port : Z; tn_outbound : obj }.

Definition tags (l : list tunnel) : list string := tn_tag <$> l.
Definition ports (l : list tunnel) : list Z := tn_port <$> l.

Definition user_type (ob : obj) : Prop := is_system_type (as_string (obj_get "type" ob)) = false.

Record tunnel_ok (t : tunnel) : Prop := {
  tok_tag : tag_of (tn_outbound t) = tn_tag t;
  tok_named : tn_tag t ≠ "";
  tok_type : user_type (tn_outbound t);
  tok_port : (firstPort ≤ tn_port t ≤ 65535)%Z;
}.

Record tunnels_ok (l : list tunnel) : Prop := {
  tsok_tags : NoDup (tags l);
  tsok_ports : NoDup (ports l);
  tsok_each : Forall tunnel_ok l;
}.

Definition outbound_json (t : tunnel) : json := JObject (tn_outbound t).
Definition inbound_json (t : tunnel) : json := tunnel_inbound (tn_tag t) (tn_port t).
Definition rule_json (t : tunnel) : json := tunnel_rule (tn_tag t).

(** The arrays of the document. *)
Record arrays (c : Config) (ins outs rules : list json) : Prop := {
  ar_ins : raw_get "inbounds" c = Some (JArray ins);
  ar_outs : raw_get "outbounds" c = Some (JArray outs);
  ar_rules : ∃ r, raw_get "route" c = Some (JObject r) ∧ obj_get "rules" r = Some (JArray rules);
}.

(** Rules are added in front. *)
Definition documents (c : Config) (l : list tunnel) : Prop :=
  arrays c (inbound_json <$> l) (outbound_json <$> l) (reverse (rule_json <$> l)).
Definition represents (c : Config) (l : list tunnel) : Prop := documents c l ∧ tunnels_ok l.

Lemma arrays_read c ins outs rules : arrays c ins outs rules →
  inbounds c = ins ∧ outbounds c = outs ∧ routeRules c = rules.
Proof.
  intros [H1 H2 (r & H3 & H4)]. unfold inbounds, outbounds, routeRules. rewrite H1, H2, H3. cbn. by rewrite H4.
Qed.

Lemma raw_put_get k v c c' : raw_put k v c = Some c' →
  raw_get k c' = Some v ∧ ∀ k', k ≠ k' → raw_get k' c' = raw_get k' c.
Proof.
  unfold raw_put, raw_get. destruct (raw c) as [m|]; [|done]. cbn. intros [= <-]. cbn.
  split; [by apply obj_get_put_eq|]. intros. by apply obj_get_put_ne.
Qed.

Lemma raw_put_some k v c k' w : raw_get k' c = Some w → ∃ c', raw_put k v c = Some c'.
Proof. unfold raw_put, raw_get. destruct (raw c); [|done]. by eexists. Qed.

Lemma set_ins c ins outs rules ins' : arrays c ins outs rules →
  ∃ c', setInbounds ins' c = Some c' ∧ arrays c' ins' outs rules.
Proof.
  intros [H1 H2 H3]. destruct (raw_put_some "inbounds" (JArray ins') c _ _ H1) as [c' E]. exists c'. split; [done|].
  apply raw_put_get in E as [E1 E2]. split; [done|by rewrite E2|]. setoid_rewrite E2; done.
Qed.
Lemma set_outs c ins outs rules outs' : arrays c ins outs rules →
  ∃ c', setOutbounds outs' c = Some c' ∧ arrays c' ins outs' rules.
Proof.
  intros [H1 H2 H3]. destruct (raw_put_some "outbounds" (JArray outs') c _ _ H1) as [c' E]. exists c'. split; [done|].
  apply raw_put_get in E as [E1 E2]. split; [by rewrite E2|done|]. setoid_rewrite E2; done.
Qed.
Lemma set_rules c ins outs rules rules' : arrays c ins outs rules →
  ∃ c', setRouteRules rules' c = Some c' ∧ arrays c' ins outs rules'.
Proof.
  intros [H1 H2 (r & H3 & H4)]. unfold setRouteRules.
  edestruct (raw_put_some "route") as [c' E]; [exact H1|]. exists c'. split; [exact E|].
  apply raw_put_get in E as [E1 E2]. split; [by rewrite E2|by rewrite E2|].
  rewrite H3 in E1. cbn in E1. eexists. split; [done|]. apply obj_get_put_eq.
Qed.

(** ** What the document says about the tunnels it represents *)

Lemma user_outbounds_of l : Forall tunnel_ok l → omap user_outbound (outbound_json <$> l) = tn_outbound <$> l.
Proof.
  induction 1 as [|t l [_ _ Ht _] _ IH]; [done|]. csimpl. unfold user_type in Ht. rewrite Ht. by rewrite IH.
Qed.

Lemma omap_cons_eq {A B} (f : A → option B) x l :
  omap f (x :: l) = match f x with Some y => y :: omap f l | None => omap f l end.
Proof. done. Qed.

Lemma listen_ports_of l : Forall tunnel_ok l →
  omap (λ v, match v with JObject ib => toInt (obj_get "listen_port" ib) | _ => None end) (inbound_json <$> l) = ports l.
Proof.
  induction 1 as [|t l [_ _ _ Hp] _ IH]; [done|]. rewrite fmap_cons, omap_cons_eq.
  cbv beta iota delta [inbound_json tunnel_inbound].
  change (obj_get "listen_port" [_; _; _; _]) with (Some (JInt (tn_port t))).
  rewrite toInt_JInt by (unfold firstPort in Hp; lia). exact (f_equal (cons (tn_port t)) IH).
Qed.

Lemma HasSuffix_app a b : HasSuffix (a +:+ b) b = true.
Proof.
  unfold HasSuffix. rewrite str_length_app, (proj2 (Nat.leb_le _ _)) by lia.
  replace (String.length a + String.length b - String.length b)%nat with (String.length a) by lia.
  by rewrite str_drop_app, String.eqb_refl.
Qed.

Lemma note_port_own m t : tunnel_ok t → note_port m (inbound_json t) = <[tn_tag t := tn_port t]> m.
Proof.
  intros [_ Hn _ Hp]. unfold note_port, inbound_json, tunnel_inbound, mustInt, tag_of.
  change (obj_get "listen_port" [_; _; _; _]) with (Some (JInt (tn_port t))).
  change (obj_get "tag" [_; _; _; _]) with (Some (JString (inbound_tag (tn_tag t)))). cbn [as_string].
  rewrite toInt_JInt by (unfold firstPort in Hp; lia). cbn [default]. unfold inbound_tag.
  assert (0 < String.length (tn_tag t))%nat as Hl by (destruct (tn_tag t); [done|cbn [String.length]; lia]).
  unfold id. rewrite (proj2 (Z.ltb_lt _ _)) by (unfold firstPort in Hp; lia). rewrite HasSuffix_app, str_length_app.
  change (String.length "-in") with 3%nat. rewrite (proj2 (Nat.ltb_lt _ _)) by lia.
  replace (String.length (tn_tag t) + 3 - 3)%nat with (String.length (tn_tag t)) by lia. cbn. by rewrite str_take_app.
Qed.

Lemma ports_noted l m t : Forall tunnel_ok l → NoDup (tags l) → t ∈ l →
  foldl note_port m (inbound_json <$> l) !! tn_tag t = Some (tn_port t).
Proof.
  intros Hl. revert m. induction Hl as [|t0 l Ht0 Hl IH]; [by intros m _ []%elem_of_nil|]. intros m Hnd Hin.
  apply NoDup_cons in Hnd as [Hn Hnd]. rewrite fmap_cons; cbn [foldl]. rewrite note_port_own by done.
  apply elem_of_cons in Hin as [->|Hin]; [|by apply IH].
  assert (∀ m, foldl note_port m (inbound_json <$> l) !! tn_tag t0 = m !! tn_tag t0) as Hk.
  { clear IH. induction Hl as [|t1 l Ht1 Hl IH]; intros m'; [done|]. rewrite fmap_cons; cbn [foldl]. rewrite note_port_own by done.
    apply not_elem_of_cons in Hn as [Hne Hn]. apply NoDup_cons in Hnd as [_ Hnd]. rewrite IH by done.
    by apply lookup_insert_ne. }
  rewrite Hk. apply lookup_insert_eq.
Qed.

Lemma Tunnels_of `{GoUnicode} c l : represents c l → Tunnels c = (λ t, tunnel_info (tn_port t) (tn_outbound t)) <$> l.
Proof.
  intros [(Hi & Ho & _)%arrays_read [Hn _ Hok]]. unfold Tunnels, userOutbounds, tagToPort. rewrite Hi, Ho, user_outbounds_of by done.
  rewrite <- list_fmap_compose. apply list_fmap_ext. intros i t Ht%list_elem_of_lookup_2. cbn.
  assert (tunnel_ok t) as [E _ _ _] by (by eapply Forall_forall in Hok). rewrite E. by rewrite ports_noted.
Qed.

(** ** The specification *)

Inductive tunnel_edit :=
  | Add (tag protocol server : string) (port listenPort : Z) (outbound : content)
  | Remove (tag : string)
  | Update (tag : string) (outbound : content)
  | Rename (oldTag newTag : string).

Definition apply_edit `{GoUnicode} (e : tunnel_edit) (c : Config) : edit :=
  match e with
  | Add tag protocol server port listenPort outbound => AddTunnelWithListenPort tag protocol server port listenPort outbound c
  | Remove tag => RemoveTunnel tag c
  | Update tag outbound => UpdateTunnel tag outbound c
  | Rename oldTag newTag => Some (RenameTunnel oldTag newTag c)
  end.

Definition stored_outbound (tag : string) (ob : obj) : obj := ensureNaiveUDPOverTCP (obj_put "tag" (JString tag) ob).

Definition at_tag (tag : string) (f : tunnel → tunnel) (l : list tunnel) : list tunnel :=
  (λ t, if base.decide (tn_tag t = tag) then f t else t) <$> l.

Definition port_chosen (l : list tunnel) (listenPort p : Z) : Prop :=
  if (listenPort =? 0)%Z then lowest_free (ports l) p ∧ (p ≤ 65535)%Z else p = listenPort ∧ p ∉ ports l.

Inductive tunnel_spec `{GoUnicode} (l : list tunnel) : tunnel_edit → option string → list tunnel → Prop :=
  | spec_add_named tag pr sv po lp ob : tag ∈ tags l →
      tunnel_spec l (Add tag pr sv po lp ob) (Some "tunnel tag already exists") l
  | spec_add_full tag pr sv po ob p : tag ∉ tags l → lowest_free (ports l) p → (65535 < p)%Z →
      tunnel_spec l (Add tag pr sv po 0 ob) (Some "no free listen_port available") l
  | spec_add_taken tag pr sv po lp ob : tag ∉ tags l → lp ≠ 0%Z → lp ∈ ports l →
      tunnel_spec l (Add tag pr sv po lp ob) (Some "listen_port already in use") l
  | spec_add_bad tag pr sv po lp ob p : tag ∉ tags l → port_chosen l lp p → unmarshal_map ob = None →
      tunnel_spec l (Add tag pr sv po lp ob) (Some "bad outbound json") l
  | spec_add tag pr sv po lp ob fs p : tag ∉ tags l → port_chosen l lp p → unmarshal_map ob = Some (Some fs) →
      tunnel_spec l (Add tag pr sv po lp ob) None (l ++ [mkTunnel tag p (stored_outbound tag fs)])
  | spec_remove_unknown tag : tag ∉ tags l → tunnel_spec l (Remove tag) (Some ErrTunnelNotFound) l
  | spec_remove tag : tag ∈ tags l → tunnel_spec l (Remove tag) None (filter (λ t, tn_tag t ≠ tag) l)
  | spec_update_bad tag ob : unmarshal_map ob = None → tunnel_spec l (Update tag ob) (Some "bad outbound json") l
  | spec_update_unknown tag ob : is_Some (unmarshal_map ob) → tag ∉ tags l →
      tunnel_spec l (Update tag ob) (Some ErrTunnelNotFound) l
  | spec_update tag ob fs : unmarshal_map ob = Some (Some fs) → tag ∈ tags l →
      tunnel_spec l (Update tag ob) None (at_tag tag (λ t, mkTunnel tag (tn_port t) (stored_outbound tag fs)) l)
  | spec_rename_empty old new : TrimSpace old = "" ∨ TrimSpace new = "" →
      tunnel_spec l (Rename old new) (Some ErrInvalidTunnelTag) l
  | spec_rename_taken old new : TrimSpace old ≠ "" → TrimSpace new ≠ "" → TrimSpace old ≠ TrimSpace new →
      TrimSpace new ∈ tags l → tunnel_spec l (Rename old new) (Some ErrTunnelTagConflict) l
  | spec_rename_unknown old new : TrimSpace old ≠ "" → TrimSpace new ≠ "" → TrimSpace old ∉ tags l →
      (TrimSpace old ≠ TrimSpace new → TrimSpace new ∉ tags l) →
      tunnel_spec l (Rename old new) (Some ErrTunnelNotFound) l
  | spec_rename_same old new : TrimSpace old ≠ "" → TrimSpace old = TrimSpace new → TrimSpace old ∈ tags l →
      tunnel_spec l (Rename old new) None l
  | spec_rename old new : TrimSpace old ≠ "" → TrimSpace new ≠ "" → TrimSpace old ≠ TrimSpace new →
      TrimSpace old ∈ tags l → TrimSpace new ∉ tags l →
      tunnel_spec l (Rename old new) None
        (at_tag (TrimSpace old) (λ t, mkTunnel (TrimSpace new) (tn_port t)
          (obj_put "tag" (JString (TrimSpace new)) (tn_outbound t))) l).

(** The outbound of an edit is of a user's type, and is not [null]; a pinned port is one
    of a proxy slot. *)
Definition outbound_ok (o : content) : Prop :=
  match unmarshal_map o with None => True | Some None => False | Some (Some fs) => user_type fs end.

Definition edit_ok (e : tunnel_edit) : Prop :=
  match e with
  | Add tag _ _ _ lp o => tag ≠ "" ∧ (lp = 0 ∨ firstPort ≤ lp ≤ 65535)%Z ∧ outbound_ok o
  | Remove _ | Rename _ _ => True
  | Update _ o => outbound_ok o
  end.

(** The outbound of the edit is [null]. *)
Definition null_outbound (e : tunnel_edit) : Prop :=
  match e with
  | Add _ _ _ _ _ o | Update _ o => unmarshal_map o = Some None
  | Remove _ | Rename _ _ => False
  end.

Definition distinct (l : list tunnel) : Prop := NoDup (tags l) ∧ NoDup (ports l).

Lemma tunnels_ok_distinct l : tunnels_ok l → distinct l.
Proof. by intros []. Qed.

(** ** The loops over the arrays *)

Lemma existsb_tag_key {A} (f : A → string) k (l : list A) :
  existsb (λ x, String.eqb (f x) k) l = bool_decide (k ∈ f <$> l).
Proof.
  apply eq_bool_prop_intro. rewrite bool_decide_spec, Is_true_true, existsb_exists, list_elem_of_fmap. split.
  - intros (x & Hx & E). to_prop. exists x. split; [done|by apply list_elem_of_In].
  - intros (x & -> & Hx). exists x. split; [by apply list_elem_of_In|apply String.eqb_refl].
Qed.

Lemma tags_in_outbounds l : Forall tunnel_ok l → tag_of <$> (tn_outbound <$> l) = tags l.
Proof.
  intros Hl. rewrite <- list_fmap_compose. apply list_fmap_ext. intros i t Ht%list_elem_of_lookup_2. cbn.
  by eapply Forall_forall in Hl as [-> _ _ _].
Qed.

Lemma has_tag_in l tag : Forall tunnel_ok l → existsb (has_tag tag) (outbound_json <$> l) = bool_decide (tag ∈ tags l).
Proof.
  intros Hl. rewrite <- tags_in_outbounds by done. rewrite <- existsb_tag_key. clear Hl.
  induction l as [|t l IH]; [done|]. cbn. by rewrite <- IH.
Qed.

Lemma drop_by_tag (f : tunnel → obj) (p : obj → bool) tag l :
  Forall (λ t, p (f t) = bool_decide (tn_tag t = tag)) l →
  drop_objects p ((λ t, JObject (f t)) <$> l) = (λ t, JObject (f t)) <$> filter (λ t, tn_tag t ≠ tag) l.
Proof.
  induction 1 as [|t l Ht _ IH]; [done|]. rewrite filter_cons. unfold drop_objects in *. cbn. rewrite Ht.
  case_bool_decide; cbn; [rewrite decide_False by auto|rewrite decide_True by done; cbn; f_equal]; apply IH.
Qed.

Lemma drop_reverse p l : drop_objects p (reverse l) = reverse (drop_objects p l).
Proof.
  unfold drop_objects. set (q := λ v, _). induction l as [|x l IH]; [done|].
  rewrite reverse_cons, List.filter_app, IH. cbn [List.filter].
  destruct (q x); [by rewrite reverse_cons|by rewrite app_nil_r].
Qed.

Lemma inbound_tag_eqb a b : String.eqb (inbound_tag a) (inbound_tag b) = bool_decide (a = b).
Proof.
  unfold inbound_tag. case_bool_decide as E; [subst; apply String.eqb_refl|]. apply String.eqb_neq. intros Heq. apply E.
  apply (f_equal (λ s, str_take (String.length s - 3) s)) in Heq. rewrite !str_length_app in Heq. cbn [String.length] in Heq.
  rewrite !Nat.add_sub in Heq. by rewrite !str_take_app in Heq.
Qed.

Lemma eqb_decide (a b : string) : String.eqb a b = bool_decide (a = b).
Proof. case_bool_decide; [subst; apply String.eqb_refl|by apply String.eqb_neq]. Qed.

Lemma replace_of l tag ob : Forall tunnel_ok l → NoDup (tags l) →
  replace_tagged tag ob (outbound_json <$> l) =
  if base.decide (tag ∈ tags l) then Some (outbound_json <$> at_tag tag (λ t, mkTunnel tag (tn_port t) ob) l) else None.
Proof.
  induction 1 as [|t l [Ht _ _ _] Hl IH]; intros Hn; [done|]. apply NoDup_cons in Hn as [Hn Hnd].
  rewrite fmap_cons. cbn [replace_tagged outbound_json]. rewrite Ht, eqb_decide. unfold tags, at_tag. rewrite !fmap_cons.
  destruct (base.decide (tn_tag t = tag)) as [<-|Hne].
  - rewrite bool_decide_true, decide_True by (done || by left). cbn. do 2 f_equal. fold (at_tag (tn_tag t)).
    rewrite <- list_fmap_compose. apply list_fmap_ext. intros i t' Ht'%list_elem_of_lookup_2. cbn.
    destruct (base.decide (tn_tag t' = tn_tag t)) as [E|_]; [|done].
    destruct Hn. rewrite <- E. by apply (list_elem_of_fmap_2 tn_tag).
  - rewrite bool_decide_false by done. rewrite IH by done. fold (tags l). unfold at_tag.
    destruct (base.decide (tag ∈ tags l)) as [Hin|Hin].
    + rewrite decide_True by by right. done.
    + rewrite decide_False; [done|]. by intros [->|?]%elem_of_cons.
Qed.

Lemma ensure_idem ob : ensureNaiveUDPOverTCP (ensureNaiveUDPOverTCP ob) = ensureNaiveUDPOverTCP ob.
Proof.
  unfold ensureNaiveUDPOverTCP at 2 3. destruct (negb _) eqn:En; [unfold ensureNaiveUDPOverTCP; by rewrite En|].
  destruct (obj_get "udp_over_tcp" ob) eqn:Eu.
  - unfold ensureNaiveUDPOverTCP. by rewrite En, Eu.
  - unfold ensureNaiveUDPOverTCP. rewrite obj_get_put_ne by done. by rewrite En, obj_get_put_eq.
Qed.

(** The outbound is as the program writes it. *)
Definition as_saved (t : tunnel) : Prop := ensureNaiveUDPOverTCP (tn_outbound t) = tn_outbound t.

(** ** Well-formed lists stay well-formed *)

Lemma stored_tag tag ob : tag_of (stored_outbound tag ob) = tag.
Proof.
  unfold stored_outbound, ensureNaiveUDPOverTCP, tag_of. repeat case_match; rewrite ?(obj_get_put_ne "udp_over_tcp") by done;
    by rewrite obj_get_put_eq.
Qed.

Lemma stored_type tag ob : user_type ob → user_type (stored_outbound tag ob).
Proof.
  unfold user_type, stored_outbound, ensureNaiveUDPOverTCP. intros Hu.
  repeat case_match; rewrite ?(obj_get_put_ne "udp_over_tcp"), (obj_get_put_ne "tag") by done; done.
Qed.

Lemma add_distinct l tag p ob : distinct l → tag ∉ tags l → p ∉ ports l → distinct (l ++ [mkTunnel tag p ob]).
Proof.
  intros [T P] Ht Hp. split; unfold tags, ports; rewrite fmap_app; cbn; apply NoDup_app; (split; [done|]);
    (split; [|apply NoDup_singleton]); by intros x Hx ->%list_elem_of_singleton.
Qed.

Lemma add_list_ok l tag p ob : tunnels_ok l → tag ∉ tags l → p ∉ ports l → tag ≠ "" → user_type ob →
  (firstPort ≤ p ≤ 65535)%Z → tunnels_ok (l ++ [mkTunnel tag p (stored_outbound tag ob)]).
Proof.
  intros Hok Ht Hp Hne Hu Hr. destruct (add_distinct l tag p (stored_outbound tag ob) (tunnels_ok_distinct _ Hok) Ht Hp) as [T P].
  split; [done|done|]. apply Forall_app. split; [apply Hok|]. apply Forall_singleton.
  split; cbn; [apply stored_tag|done|by apply stored_type|done].
Qed.

Lemma filter_list_ok (P : tunnel → Prop) `{∀ t, Decision (P t)} l : tunnels_ok l → tunnels_ok (filter P l).
Proof.
  intros [T Q E]. pose proof (sublist_filter P l) as Hs. split.
  - eapply sublist_NoDup; [exact T|]. by apply fmap_sublist.
  - eapply sublist_NoDup; [exact Q|]. by apply fmap_sublist.
  - apply Forall_forall. intros t [_ Ht]%list_elem_of_filter. by eapply Forall_forall in E.
Qed.

Lemma at_tag_ports tag f l : (∀ t, tn_port (f t) = tn_port t) → ports (at_tag tag f l) = ports l.
Proof.
  intros Hf. unfold ports, at_tag. rewrite <- list_fmap_compose. apply list_fmap_ext. intros i t _. cbn. case_decide; [apply Hf|done].
Qed.

Lemma update_distinct l tag f : (∀ t, tn_port (f t) = tn_port t) → (∀ t, tn_tag (f t) = tag) → distinct l →
  distinct (at_tag tag f l).
Proof.
  intros Hp Ht [T Q]. split; [|by rewrite at_tag_ports].
  replace (tags _) with (tags l); [done|]. unfold tags, at_tag. rewrite <- list_fmap_compose. apply list_fmap_ext.
  intros i t _. cbn. case_decide; [by rewrite Ht|done].
Qed.

Lemma update_list_ok l tag ob : tunnels_ok l → user_type ob →
  tunnels_ok (at_tag tag (λ t, mkTunnel tag (tn_port t) (stored_outbound tag ob)) l).
Proof.
  intros Hok Hu. edestruct (update_distinct l tag) as [T Q]; [| |by apply tunnels_ok_distinct|split; [exact T|exact Q|]]; try done.
  unfold at_tag. apply Forall_fmap. eapply Forall_impl; [apply Hok|]. cbn. intros t Ht. case_decide as Et; [|done].
  destruct Ht as [_ Hn _ Hp]. rewrite <- Et in *. split; cbn; [apply stored_tag|done|by apply stored_type|done].
Qed.

Lemma rename_list_ok l old new : tunnels_ok l → new ≠ "" → new ∉ tags l →
  tunnels_ok (at_tag old (λ t, mkTunnel new (tn_port t) (obj_put "tag" (JString new) (tn_outbound t))) l).
Proof.
  intros [T Q E] Hn Hin. split.
  - clear Q E. unfold tags, at_tag in *. induction l as [|t l IH]; [constructor|]. rewrite !fmap_cons in *.
    apply NoDup_cons in T as [Ht T]. apply not_elem_of_cons in Hin as [Hne Hin]. constructor; [|by apply IH].
    rewrite <- list_fmap_compose. intros (t' & Et & Ht')%list_elem_of_fmap. cbn in Et.
    pose proof (list_elem_of_fmap_2 tn_tag _ _ Ht') as Hin'.
    destruct (base.decide (tn_tag t = old)) as [E1|_], (base.decide (tn_tag t' = old)) as [E2|_]; cbn in Et; congruence.
  - by rewrite at_tag_ports.
  - unfold at_tag. apply Forall_fmap. eapply Forall_impl; [exact E|]. cbn. intros t Ht. case_decide as Et; [|done].
    destruct Ht as [_ _ Hu Hp]. split; cbn; [|done| |done].
    + unfold tag_of. by rewrite obj_get_put_eq.
    + unfold user_type in *. by rewrite obj_get_put_ne.
Qed.

(** ** Each edit refines its specification *)

(** Without a panic the document is that of the edited list; the list stays well-formed
    when the edit is in order. *)
Definition edited `{GoUnicode} (e : tunnel_edit) (c : Config) (l : list tunnel) (r : edit) : Prop :=
  match r with
  | None => null_outbound e
  | Some (err, c') => ∃ l', tunnel_spec l e err l' ∧ documents c' l' ∧ distinct l' ∧ (is_Some err → c' = c) ∧
      (edit_ok e → tunnels_ok l')
  end.

Definition refines `{GoUnicode} (e : tunnel_edit) (c : Config) (l : list tunnel) (r : edit) : Prop :=
  ∃ err c' l', r = Some (err, c') ∧ tunnel_spec l e err l' ∧ represents c' l' ∧ (is_Some err → c' = c).

Lemma edited_refines `{GoUnicode} e c l r : edited e c l r → edit_ok e → refines e c l r.
Proof.
  unfold edited, refines. destruct r as [[err c']|]; [intros (l' & Hs & Hd & _ & He & Hok) Hek; exists err, c', l'; split_and!; [done..|by split; auto|done]|].
  destruct e as [? ? ? ? ? o| |? o|]; try done; cbn; unfold outbound_ok; intros ->; [by intros (_ & _ & [])|done].
Qed.

Lemma refused `{GoUnicode} e c l err : represents c l → tunnel_spec l e (Some err) l → edited e c l (Some (Some err, c)).
Proof. intros [Hd Hok] Hs. exists l. split_and!; [done..|by apply tunnels_ok_distinct|done|done]. Qed.

Lemma done_with `{GoUnicode} e c l c' l' : tunnel_spec l e None l' → documents c' l' → distinct l' →
  (edit_ok e → tunnels_ok l') → edited e c l (Some (None, c')).
Proof. intros. exists l'. split_and!; [done..|by intros []|done]. Qed.

Lemma represents_read c l : represents c l →
  userOutbounds c = tn_outbound <$> l ∧ inbounds c = inbound_json <$> l ∧ outbounds c = outbound_json <$> l ∧
  routeRules c = reverse (rule_json <$> l) ∧ listen_ports c = ports l.
Proof.
  intros [(Hi & Ho & Hr)%arrays_read [_ _ Hok]]. unfold userOutbounds, listen_ports. rewrite Hi, Ho, Hr.
  by rewrite user_outbounds_of, listen_ports_of.
Qed.

Lemma ports_above l : Forall tunnel_ok l → Forall (λ p, firstPort ≤ p)%Z (ports l).
Proof. intros Hl. apply Forall_fmap. eapply Forall_impl; [exact Hl|]. intros t [_ _ _ Hp]. cbn. lia. Qed.

(** The choice of the port. *)
Lemma choose_port c l lp : represents c l →
  match (if (lp =? 0)%Z then allocPort c
         else if existsb (Z.eqb lp) (listen_ports c) then inl "listen_port already in use" else inr lp) with
  | inl err => (lp = 0%Z ∧ err = "no free listen_port available" ∧ ∃ p, lowest_free (ports l) p ∧ (65535 < p)%Z) ∨
               (lp ≠ 0%Z ∧ err = "listen_port already in use" ∧ lp ∈ ports l)
  | inr p => port_chosen l lp p
  end.
Proof.
  intros Hrep. destruct (represents_read c l Hrep) as (_ & _ & _ & _ & Hp). destruct Hrep as [_ [_ _ Hok]].
  unfold port_chosen. destruct (Z.eqb_spec lp 0) as [->|Hne].
  - destruct (allocPort_spec c) as (p & Hf & ->); [rewrite Hp; by apply ports_above|]. rewrite Hp in Hf.
    destruct (Z.ltb_spec 65535 p); [left; eauto|done].
  - rewrite Hp. destruct (existsb _ _) eqn:Ex.
    + right. apply existsb_exists in Ex as (q & Hq & <-%Z.eqb_eq). by rewrite list_elem_of_In.
    + split; [done|]. intros Hin%list_elem_of_In. rewrite <- not_true_iff_false, existsb_exists in Ex. apply Ex.
      exists lp. by rewrite Z.eqb_refl.
Qed.

Lemma add_edited `{GoUnicode} tag pr sv po lp o c l : represents c l →
  edited (Add tag pr sv po lp o) c l (AddTunnelWithListenPort tag pr sv po lp o c).
Proof.
  intros Hrep. pose proof (choose_port c l lp Hrep) as Hch. pose proof Hrep as [Har Hok].
  destruct (represents_read c l Hrep) as (Hu & Hin & Hout & Hru & _).
  unfold AddTunnelWithListenPort. rewrite Hu, existsb_tag_key, tags_in_outbounds by apply Hok.
  case_bool_decide as Ht; [apply refused; [done|by constructor]|].
  destruct (if (lp =? 0)%Z then _ else _) as [err|p].
  { apply refused; [done|]. destruct Hch as [(-> & -> & p & Hf & Hp)|(Hz & -> & Hp)].
    - by eapply spec_add_full.
    - by constructor. }
  destruct (unmarshal_map o) as [[fs|]|] eqn:Eo; [|exact Eo|].
  2:{ apply refused; [done|]. by eapply spec_add_bad. }
  cbn [mbind option_bind]. fold (stored_outbound tag fs).
  destruct (set_ins _ _ _ _ (inbounds c ++ [tunnel_inbound tag p]) Har) as (c1 & E1 & A1). rewrite E1. cbn [mbind option_bind].
  destruct (set_outs _ _ _ _ (outbounds c1 ++ [JObject (stored_outbound tag fs)]) A1) as (c2 & E2 & A2). rewrite E2. cbn [mbind option_bind].
  destruct (set_rules _ _ _ _ (tunnel_rule tag :: routeRules c2) A2) as (c3 & E3 & A3). rewrite E3. cbn [mbind option_bind].
  apply arrays_read in A1 as (_ & Eo1 & _). apply arrays_read in A2 as (_ & _ & Er2). rewrite Hin, Eo1, Er2 in A3.
  assert (p ∉ ports l) as Hp.
  { unfold port_chosen in Hch. destruct (Z.eqb_spec lp 0); [by destruct Hch as [(? & ? & _) ?]|by destruct Hch as [-> ?]]. }
  eapply done_with; [by eapply spec_add| |apply add_distinct; [by apply tunnels_ok_distinct|done|done]|].
  - unfold documents. rewrite !fmap_app. cbn [fmap list_fmap]. by rewrite reverse_app.
  - intros (Hne & Hlp & Ho). unfold outbound_ok in Ho. rewrite Eo in Ho. apply add_list_ok; try done.
    unfold port_chosen in Hch. destruct (Z.eqb_spec lp 0) as [->|Hz]; [by destruct Hch as [(? & ? & _) ?]|].
    destruct Hch as [-> ?]. by destruct Hlp as [->|?].
Qed.

Lemma add_refines `{GoUnicode} tag pr sv po lp o c l : represents c l → edit_ok (Add tag pr sv po lp o) →
  refines (Add tag pr sv po lp o) c l (AddTunnelWithListenPort tag pr sv po lp o c).
Proof. intros. by apply edited_refines; [apply add_edited|]. Qed.

Lemma drop_tunnel tag l : Forall tunnel_ok l →
  drop_objects (λ ob, String.eqb (tag_of ob) tag) (outbound_json <$> l) = outbound_json <$> filter (λ t, tn_tag t ≠ tag) l ∧
  drop_objects (λ ib, String.eqb (tag_of ib) (inbound_tag tag)) (inbound_json <$> l) = inbound_json <$> filter (λ t, tn_tag t ≠ tag) l ∧
  drop_objects (λ r, String.eqb (as_string (obj_get "outbound" r)) tag) (rule_json <$> l) = rule_json <$> filter (λ t, tn_tag t ≠ tag) l.
Proof.
  intros Hok. split_and!; apply drop_by_tag.
  - eapply Forall_impl; [exact Hok|]. intros t [-> _ _ _]. apply eqb_decide.
  - apply Forall_forall. intros t _. apply inbound_tag_eqb.
  - apply Forall_forall. intros t _. apply eqb_decide.
Qed.

Lemma remove_edited `{GoUnicode} tag c l : represents c l → edited (Remove tag) c l (RemoveTunnel tag c).
Proof.
  intros Hrep. pose proof Hrep as [Har Hok]. destruct (represents_read c l Hrep) as (_ & Hin & Hout & Hru & _).
  unfold RemoveTunnel. rewrite Hout, has_tag_in by apply Hok.
  case_bool_decide as Ht; cbn [negb]; [|apply refused; [done|by constructor]].
  destruct (set_outs _ _ _ _ (drop_objects (λ ob, String.eqb (tag_of ob) tag) (outbound_json <$> l)) Har) as (c1 & E1 & A1).
  rewrite E1. cbn [mbind option_bind].
  destruct (set_ins _ _ _ _ (drop_objects (λ ib, String.eqb (tag_of ib) (inbound_tag tag)) (inbounds c1)) A1) as (c2 & E2 & A2).
  rewrite E2. cbn [mbind option_bind].
  destruct (set_rules _ _ _ _ (drop_objects (λ r, String.eqb (as_string (obj_get "outbound" r)) tag) (routeRules c2)) A2) as (c3 & E3 & A3).
  rewrite E3. cbn [mbind option_bind].
  apply arrays_read in A1 as (Ei1 & _ & _). apply arrays_read in A2 as (_ & _ & Er2). rewrite Ei1, Er2 in A3.
  assert (tunnels_ok (filter (λ t, tn_tag t ≠ tag) l)) as Hok' by by apply filter_list_ok.
  eapply done_with; [by constructor| |by apply tunnels_ok_distinct|done]. unfold documents. rewrite drop_reverse in A3.
  by destruct (drop_tunnel tag l (tsok_each _ Hok)) as (<- & <- & <-).
Qed.

Lemma update_edited `{GoUnicode} tag o c l : represents c l → edited (Update tag o) c l (UpdateTunnel tag o c).
Proof.
  intros Hrep. pose proof Hrep as [Har Hok]. destruct (represents_read c l Hrep) as (_ & Hin & Hout & Hru & _).
  unfold UpdateTunnel. destruct (unmarshal_map o) as [[fs|]|] eqn:Eo; [|exact Eo|].
  2:{ apply refused; [done|]. by constructor. }
  cbn [mbind option_bind]. fold (stored_outbound tag fs). rewrite Hout, replace_of by apply Hok.
  destruct (base.decide (tag ∈ tags l)) as [Ht|Ht]; [|apply refused; [done|by constructor; [eexists|]]].
  set (l' := at_tag tag _ l).
  destruct (set_outs _ _ _ _ (outbound_json <$> l') Har) as (c1 & E1 & A1). rewrite E1. cbn [mbind option_bind].
  apply (done_with _ _ _ c1 l'); [by constructor| |by apply update_distinct, tunnels_ok_distinct|].
  2:{ unfold edit_ok, outbound_ok. rewrite Eo. intros. by apply update_list_ok. }
  unfold documents.
  assert (inbound_json <$> l' = inbound_json <$> l ∧ rule_json <$> l' = rule_json <$> l) as [-> ->]; [|done].
  unfold l', at_tag. rewrite <- !list_fmap_compose.
  split; apply list_fmap_ext; intros i t _; cbn; case_decide as E; [by rewrite <- E|done|by rewrite <- E|done].
Qed.

Lemma fmap_at_tag {A} (f : tunnel → A) (g : A → A) (h : tunnel → tunnel) tag l :
  Forall (λ t, g (f t) = if base.decide (tn_tag t = tag) then f (h t) else f t) l → g <$> (f <$> l) = f <$> at_tag tag h l.
Proof.
  intros Hl. unfold at_tag. rewrite <- !list_fmap_compose. apply list_fmap_ext. intros i t Ht%list_elem_of_lookup_2. cbn.
  rewrite Forall_forall in Hl. rewrite (Hl t Ht). by case_decide.
Qed.

Lemma rename_arrays old new l : Forall tunnel_ok l →
  let renamed := at_tag old (λ t, mkTunnel new (tn_port t) (obj_put "tag" (JString new) (tn_outbound t))) l in
  retag old new <$> (outbound_json <$> l) = outbound_json <$> renamed ∧
  retag (inbound_tag old) (inbound_tag new) <$> (inbound_json <$> l) = inbound_json <$> renamed ∧
  renameTunnelRouteRefs (reverse (rule_json <$> l)) old new (inbound_tag old) (inbound_tag new) = reverse (rule_json <$> renamed).
Proof.
  intros Hl. unfold renameTunnelRouteRefs. rewrite fmap_reverse. split_and!; [| |f_equal]; apply fmap_at_tag.
  - eapply Forall_impl; [exact Hl|]. intros t [Ht _ _ _]. unfold retag, outbound_json. cbn. rewrite Ht, eqb_decide.
    case_bool_decide; by case_decide.
  - apply Forall_forall. intros t _. unfold retag, inbound_json. change (tag_of [_; _; _; _]) with (inbound_tag (tn_tag t)).
    cbn [tunnel_inbound]. change (tag_of [_; _; _; _]) with (inbound_tag (tn_tag t)). rewrite inbound_tag_eqb.
    case_bool_decide; by case_decide.
  - apply Forall_forall. intros t _. unfold rule_json, tunnel_rule. cbn. rewrite inbound_tag_eqb, eqb_decide.
    case_bool_decide; case_decide; done.
Qed.

Lemma rename_edited `{GoUnicode} old new c l : represents c l → edited (Rename old new) c l (Some (RenameTunnel old new c)).
Proof.
  intros Hrep. pose proof Hrep as [Har Hok]. destruct (represents_read c l Hrep) as (Hu & Hin & Hout & Hru & _).
  unfold RenameTunnel. rewrite Hu, existsb_tag_key, tags_in_outbounds, Hout, has_tag_in by apply Hok.
  rewrite !eqb_decide. do 2 (case_bool_decide; [apply refused; [done|apply spec_rename_empty; auto]|cbn [orb]]).
  case_bool_decide as Heq.
  { case_bool_decide; [|apply refused; [done|by apply spec_rename_unknown]].
    eapply done_with; [by apply spec_rename_same|done|by apply tunnels_ok_distinct|done]. }
  case_bool_decide; [apply refused; [done|by apply spec_rename_taken]|].
  case_bool_decide; cbn [negb]; [|apply refused; [done|by apply spec_rename_unknown]].
  set (o := TrimSpace old) in *. set (n := TrimSpace new) in *.
  destruct (rename_arrays o n l (tsok_each _ Hok)) as (R1 & R2 & R3). set (l' := at_tag o _ l) in *.
  assert (tunnels_ok l') as Hok' by by apply rename_list_ok.
  refine (done_with _ _ _ _ l' _ _ _ _); [by apply spec_rename| |by apply tunnels_ok_distinct|done]. unfold documents. rewrite <- R1, <- R2, <- R3. clear -Har. destruct Har as [R1 R2 (r & R3 & R4)].
  unfold raw_get in *. destruct (raw c) as [m|]; [|done]. cbn in R1, R2, R3.
  split; unfold raw_get; cbn [raw fmap option_fmap option_map mbind option_bind].
  - rewrite in_place_ne, in_place_eq, in_place_ne by done. by rewrite R1.
  - rewrite !in_place_ne, in_place_eq by done. by rewrite R2.
  - rewrite in_place_eq, !in_place_ne by done. rewrite R3. cbn [fmap option_fmap option_map].
    eexists. split; [done|]. by rewrite in_place_eq, R4.
Qed.

Lemma apply_edited `{GoUnicode} e c l : represents c l → edited e c l (apply_edit e c).
Proof. destruct e; [apply add_edited|apply remove_edited|apply update_edited|apply rename_edited]. Qed.

Lemma remove_refines `{GoUnicode} tag c l : represents c l → refines (Remove tag) c l (RemoveTunnel tag c).
Proof. intros. by apply edited_refines; [apply remove_edited|]. Qed.

Lemma update_refines `{GoUnicode} tag o c l : represents c l → outbound_ok o → refines (Update tag o) c l (UpdateTunnel tag o c).
Proof. intros. by apply edited_refines; [apply update_edited|]. Qed.

#[export] Instance user_type_dec ob : Decision (user_type ob).
Proof. unfold user_type. apply _. Defined.

Lemma documents_user c l : documents c l →
  userOutbounds c = tn_outbound <$> filter (λ t, user_type (tn_outbound t)) l.
Proof.
  intros (_ & Ho & _)%arrays_read. unfold userOutbounds. rewrite Ho. clear Ho. induction l as [|t l IH]; [done|].
  rewrite fmap_cons, omap_cons_eq, filter_cons, IH. cbn [outbound_json user_outbound].
  case_decide as Hu; unfold user_type in Hu; [by rewrite Hu|]. by destruct (is_system_type _).
Qed.

(** C4: On the document of a well-formed list of tunnels (user-type outbounds, ports from
    1080 on, distinct tags and ports) every edit (add, remove, update, rename), whatever
    its input, either panics, and then its outbound was [null]; or it does to the
    document what the specification does to the list, errors included: the result is the
    document of the edited list, with one outbound, inbound and rule per tunnel, distinct
    tags and distinct ports; a refused edit changes nothing; and the tunnels listed are
    those of the list whose outbound is of a user's type. An edit whose outbound is of a
    user's type, and whose tag and pinned port are in order, leaves the list well-formed,
    and then each tunnel is listed with its port. *)
Theorem tunnel_edits_refine `{GoUnicode} (e : tunnel_edit) (c : Config) (l : list tunnel) (Hrep : represents c l) :
  match apply_edit e c with
  | None => null_outbound e
  | Some (err, c') => ∃ l', tunnel_spec l e err l' ∧ documents c' l' ∧ NoDup (tags l') ∧ NoDup (ports l') ∧
      (is_Some err → c' = c) ∧ userOutbounds c' = tn_outbound <$> filter (λ t, user_type (tn_outbound t)) l' ∧
      (edit_ok e → tunnels_ok l' ∧ Tunnels c' = (λ t, tunnel_info (tn_port t) (tn_outbound t)) <$> l')
  end.
Proof.
  pose proof (apply_edited e c l Hrep) as H'. unfold edited in H'. destruct (apply_edit e c) as [[err c']|]; [|done].
  destruct H' as (l' & Hs & Hd & [T P] & He & Hok). exists l'. split_and!; [done..|by apply documents_user|].
  intros Hek. split; [by apply Hok|]. apply Tunnels_of. by split; auto.
Qed.

(** ** Adding and removing *)

Definition route_get (k : string) (c : Config) : option json := as_object (raw_get "route" c) ≫= obj_get k.

(** The same value of type [map[string]any], up to the map [route] being a new one. *)
Definition same_document (c c' : Config) : Prop :=
  (∀ k, k ≠ "route" → raw_get k c' = raw_get k c) ∧ (∀ k, route_get k c' = route_get k c).

Lemma setRouteRules_get v c c' : is_Some (as_object (raw_get "route" c)) → setRouteRules v c = Some c' →
  (∀ k, k ≠ "route" → raw_get k c' = raw_get k c) ∧
  route_get "rules" c' = Some (JArray v) ∧ (∀ k, k ≠ "rules" → route_get k c' = route_get k c).
Proof.
  intros [r Hr] [E1 E2]%raw_put_get. rewrite Hr in E1. unfold route_get. rewrite E1, Hr. cbn.
  split; [auto|]. split; [apply obj_get_put_eq|]. intros. by apply obj_get_put_ne.
Qed.

Lemma drop_none p l : Forall (λ v, match v with JObject fs => p fs = false | _ => True end) l → drop_objects p l = l.
Proof.
  induction 1 as [|v l Hv _ IH]; [done|]. unfold drop_objects in *. cbn [List.filter].
  assert (match v with JObject fs => negb (p fs) | _ => true end = true) as -> by (destruct v; by rewrite ?Hv).
  by f_equal.
Qed.

Lemma drop_snoc p l m : Forall (λ v, match v with JObject fs => p fs = false | _ => True end) l → p m = true →
  drop_objects p (l ++ [JObject m]) = l.
Proof.
  intros Hd%drop_none Hm. unfold drop_objects in *. rewrite List.filter_app. cbn [List.filter]. rewrite Hm. cbn.
  by rewrite Hd, app_nil_r.
Qed.

Lemma drop_cons p l m : Forall (λ v, match v with JObject fs => p fs = false | _ => True end) l → p m = true →
  drop_objects p (JObject m :: l) = l.
Proof.
  intros Hl Hm. rewrite <- (drop_snoc p l m) at 2 by done. unfold drop_objects. rewrite List.filter_app. cbn [List.filter].
  rewrite Hm. cbn. by rewrite app_nil_r.
Qed.

Lemma restored c c1 c2 c3 c4 c5 c6 ins ins' outs outs' rules rules' :
  arrays c ins outs rules → setInbounds ins' c = Some c1 → setOutbounds outs' c1 = Some c2 →
  setRouteRules rules' c2 = Some c3 → setOutbounds outs c3 = Some c4 → setInbounds ins c4 = Some c5 →
  setRouteRules rules c5 = Some c6 → same_document c c6.
Proof.
  intros [Hi Ho (r & Hr & Hu)] [_ G1]%raw_put_get [_ G2]%raw_put_get E3 [F4 G4]%raw_put_get [F5 G5]%raw_put_get E6.
  assert (∀ k, k ≠ "inbounds" → k ≠ "outbounds" → raw_get k c2 = raw_get k c) as H2 by (intros; rewrite G2, G1; auto).
  assert (∀ k, k ≠ "inbounds" → k ≠ "outbounds" → raw_get k c5 = raw_get k c3) as H5 by (intros; rewrite G5, G4; auto).
  assert (∀ k, route_get k c2 = route_get k c) as R2 by (intros; unfold route_get; by rewrite H2).
  assert (∀ k, route_get k c5 = route_get k c3) as R5 by (intros; unfold route_get; by rewrite H5).
  apply setRouteRules_get in E3 as (T3 & U3 & V3); [|rewrite H2, Hr by done; by eexists].
  assert (is_Some (as_object (raw_get "route" c3))) as Hs.
  { unfold route_get in U3. destruct (as_object (raw_get "route" c3)); [by eexists|done]. }
  apply setRouteRules_get in E6 as (T6 & U6 & V6); [|by rewrite H5].
  split; intros k.
  - intros Hk. rewrite T6 by done. destruct (base.decide (k = "inbounds")) as [->|Hki]; [by rewrite F5, Hi|].
    destruct (base.decide (k = "outbounds")) as [->|Hko]; [by rewrite G5, F4, Ho by done|].
    by rewrite H5, T3, H2.
  - destruct (base.decide (k = "rules")) as [->|Hk].
    + rewrite U6. unfold route_get. rewrite Hr. cbn. by rewrite Hu.
    + by rewrite V6, R5, V3, R2.
Qed.

End props.
