(* ===== verification/SbTunnelBatch.v ===== *)
(** * Adding a batch of tunnels ([singbox/operator_tunnels.go], [portprobe.go])

    The loop of [AddTunnels] over the parsed links: a tag, a port slot and a place in the
    configuration for each, or an error for it.  What is outside the loop (parsing the
    links, saving the configuration, the proxies of the router) is not modelled. *)
From S2P Require Import Prelude GoLib GoText SbJson SbTunnels.

(** [vlink.ParsedOutbound] *)
Record ParsedOutbound := {
  p_Tag : string; p_Label : string; p_Protocol : string; p_Server : string; p_Port : Z; p_Outbound : content;
}.

Definition maxProxySlots : nat := 128.

(** ** What the build supports *)

Definition outboundRequiresFeature (obType : string) : string :=
  if String.eqb obType "naive" then "with_naive_outbound" else "".
Definition OutboundSupportedByFeatures (features : list string) (outboundType : string) : bool :=
  let required := outboundRequiresFeature outboundType in
  String.eqb required "" || existsb (λ f, String.eqb f required) features.

(** ** Tags *)

Fixpoint numbered_tag (fuel : nat) (used : gset string) (base : string) (n : Z) : option string :=
  match fuel with
  | O => None
  | S fuel =>
      let candidate := base +:+ "-" +:+ Itoa n in
      if base.decide (candidate ∈ used) then numbered_tag fuel used base (n + 1) else Some candidate
  end.

(** The loop has no bound; one more candidate than there are tags is enough. *)
Definition allocUniqueTunnelTag (used : gset string) (base : string) : option string :=
  let base := if String.eqb base "" then "tunnel" else base in
  if base.decide (base ∈ used) then numbered_tag (S (size used)) used base 2 else Some base.

Section batch.
Context `{GoArch, GoFloat, GoUnicode}.

Definition tunnelTagsInUse (c : Config) : gset string := list_to_set (ti_Tag <$> Tunnels c).

(** ** Duplicates *)

(** A nil map reads as an empty one. *)
Definition outboundFingerprint (ob : obj) : string :=
  let str k := as_string (obj_get k ob) in
  let typ := str "type" in
  let server := str "server" in
  let port := mustInt (obj_get "server_port" ob) in
  if String.eqb server "" || (port =? 0)%Z then ""
  else
    let secret :=
      if bool_decide (typ ∈ ["vless"; "vmess"]) then str "uuid"
      else if bool_decide (typ ∈ ["trojan"; "hysteria2"; "shadowsocks"]) then str "password"
      else if String.eqb typ "naive" then str "username" +:+ ":" +:+ str "password"
      else "" in
    if String.eqb secret "" then ""
    else typ +:+ "|" +:+ server +:+ "|" +:+ Itoa port +:+ "|" +:+ secret.

Definition existingOutboundFingerprints (c : Config) : gmap string string :=
  foldl (λ m ob, let fp := outboundFingerprint ob in if String.eqb fp "" then m else <[fp := tag_of ob]> m)
    ∅ (userOutbounds c).

(** [None]: the assignment to a nil map panics. *)
Definition outboundJSONWithTag (raw : content) (tag : string) : option (string + content) :=
  match unmarshal_map raw with
  | None => Some (inl "outbound json")
  | Some m => m ← m; Some (inr (Marshal (JObject (obj_put "tag" (JString tag) m))))
  end.

(** ** Port slots *)

Definition first_slot (used : gset Z) : option Z :=
  List.find (λ i, bool_decide (i ∉ used)) (seqZ 0 (Z.of_nat maxProxySlots)).

Definition nextFreeListenPortSlot (c : Config) (reserved : gset Z) : Z :=
  let used := reserved ∪ list_to_set (filter (λ s, (0 ≤ s)%Z) ((λ t, ti_ListenPort t - firstPort)%Z <$> Tunnels c)) in
  default 0%Z (first_slot used).

(** What the batch finds outside: which local ports can be bound, and the indices of the
    router's proxies ([None]: the NDMS proxies are off). *)
Class SlotWorld := {
  portBindable : Z → bool;
  proxy_indices : option (string + gset Z);
}.

(** [ProxyManager.NextFreeIndex] on the indices the router has. *)
Definition NextFreeIndex (listed : string + gset Z) (reserved : gset Z) : string + Z :=
  match listed with
  | inl err => inl err
  | inr taken => match first_slot (reserved ∪ taken) with Some i => inr i | None => inl "no free Proxy slot" end
  end.

Definition alloc_slot `{SlotWorld} (c : Config) (reserved : gset Z) : string + Z :=
  match proxy_indices with
  | Some listed => NextFreeIndex listed reserved
  | None => inr (nextFreeListenPortSlot c reserved)
  end.

(** The result and the reserved slots after it. *)
Fixpoint alloc_attempts (attempts : nat) (bindable : Z → bool) (alloc : gset Z → string + Z) (reserved : gset Z)
    : (string + Z * Z) * gset Z :=
  match attempts with
  | O => (inl "no bindable listen port", reserved)
  | S attempts =>
      match alloc reserved with
      | inl err => (inl err, reserved)
      | inr idx =>
          let port := (firstPort + idx)%Z in
          if bindable port then (inr (idx, port), reserved)
          else alloc_attempts attempts bindable alloc ({[idx]} ∪ reserved)
      end
  end.
Definition allocBindableSlot (bindable : Z → bool) (alloc : gset Z → string + Z) (reserved : gset Z)
    : (string + Z * Z) * gset Z :=
  alloc_attempts maxProxySlots bindable alloc reserved.

(** ** The loop *)

Record batch := {
  b_cfg : Config;
  tagOccupied : gset string;
  existingFps : gmap string string;
  reserved : gset Z;
  addedTags : list string;
  parseErrs : list (string * string); (* the input and the error *)
}.

Definition batch_error (input err : string) (b : batch) : batch := {|
  b_cfg := b_cfg b; tagOccupied := tagOccupied b; existingFps := existingFps b; reserved := reserved b;
  addedTags := addedTags b; parseErrs := parseErrs b ++ [(input, err)] |}.
Definition set_fps (f : gmap string string) (b : batch) : batch := {|
  b_cfg := b_cfg b; tagOccupied := tagOccupied b; existingFps := f; reserved := reserved b;
  addedTags := addedTags b; parseErrs := parseErrs b |}.
Definition set_reserved (r : gset Z) (b : batch) : batch := {|
  b_cfg := b_cfg b; tagOccupied := tagOccupied b; existingFps := existingFps b; reserved := r;
  addedTags := addedTags b; parseErrs := parseErrs b |}.

(** The rest of the body, from the allocation of the slot. *)
Definition place `{SlotWorld} (p : ParsedOutbound) (b : batch) : option batch :=
  let '(r, res) := allocBindableSlot portBindable (alloc_slot (b_cfg b)) (reserved b) in
  let b := set_reserved res b in
  match r with
  | inl err => Some (batch_error (p_Tag p) "allocate listen port" b)
  | inr (freeIdx, listenPort) =>
      tag ← allocUniqueTunnelTag (tagOccupied b) (p_Tag p);
      o ← outboundJSONWithTag (p_Outbound p) tag;
      match o with
      | inl err => Some (batch_error (p_Tag p) err b)
      | inr outbound =>
          '(err, c) ← AddTunnelWithListenPort tag (p_Protocol p) (p_Server p) (p_Port p) listenPort outbound (b_cfg b);
          match err : option string with
          | Some err => Some (batch_error (p_Tag p) err b)
          | None => Some {|
              b_cfg := c; tagOccupied := {[tag]} ∪ tagOccupied b; existingFps := existingFps b;
              reserved := {[freeIdx]} ∪ reserved b; addedTags := addedTags b ++ [tag]; parseErrs := parseErrs b |}
          end
      end
  end.

(** One link: [None] is a panic. *)
Definition add_one `{SlotWorld} (features : list string) (p : ParsedOutbound) (b : batch) : option batch :=
  if negb (bool_decide (features = [])) && negb (OutboundSupportedByFeatures features (p_Protocol p))
  then Some (batch_error (p_Label p) "missing sing-box build tag" b)
  else
    match unmarshal_map (p_Outbound p) with
    | None => place p b
    | Some m =>
        let fp := outboundFingerprint (default [] m) in
        if String.eqb fp "" then place p b
        else match existingFps b !! fp with
             | Some _ => Some (batch_error (p_Tag p) "duplicate of existing tunnel" b)
             | None => place p (set_fps (<[fp := p_Tag p]> (existingFps b)) b)
             end
    end.

Fixpoint add_all `{SlotWorld} (features : list string) (ps : list ParsedOutbound) (b : batch) : option batch :=
  match ps with
  | [] => Some b
  | p :: ps => b ← add_one features p b; add_all features ps b
  end.

Definition start_batch (c : Config) : batch := {|
  b_cfg := c; tagOccupied := tunnelTagsInUse c; existingFps := existingOutboundFingerprints c;
  reserved := ∅; addedTags := []; parseErrs := [] |}.

(** [AddTunnels] up to the point where it saves the configuration. *)
Definition AddTunnels_plan `{SlotWorld} (features : list string) (ps : list ParsedOutbound) (c : Config) : option batch :=
  add_all features ps (start_batch c).
End batch.
