(* ===== verification/SbTunnelBatchProps.v ===== *)
(** * Adding a batch of tunnels: fresh tags, distinct ports, no link lost

    The loop ends, every link becomes the tunnel that stores its outbound or has an error
    with its reason, and the configuration stays the document of a well-formed list. *)
From S2P Require Import Prelude GoLib GoText SbJson SbTunnels SbTunnelsProps SbTunnelBatch.

(** ** Tags *)

Lemma numbered_inj base i j : base +:+ "-" +:+ Itoa i = base +:+ "-" +:+ Itoa j → i = j.
Proof. intros E%app_inj_l%app_inj_l. by apply Itoa_inj. Qed.

Definition numbered (base : string) (n : Z) : string := base +:+ "-" +:+ Itoa n.
Definition tag_base (base : string) : string := if String.eqb base "" then "tunnel" else base.

(** The base when it is free, else the base with the least number from 2 on. *)
Definition fresh_tag (used : string → Prop) (base tag : string) : Prop :=
  tag ≠ "" ∧ ¬ used tag ∧
  (tag = tag_base base ∨
   used (tag_base base) ∧ ∃ n, (2 ≤ n)%Z ∧ tag = numbered (tag_base base) n ∧
     ∀ k, (2 ≤ k < n)%Z → used (numbered (tag_base base) k)).

Lemma fresh_tag_ext (P Q : string → Prop) base tag : (∀ t, P t ↔ Q t) → fresh_tag P base tag → fresh_tag Q base tag.
Proof.
  intros E (Hne & Hu & Hc). split; [done|]. split; [by rewrite <- E|]. destruct Hc as [?|(Hb & n & ? & ? & ?)]; [by left|].
  right. split; [by apply E|]. exists n. split_and!; [done..|]. intros. apply E. auto.
Qed.

Lemma numbered_tag_spec fuel used base n :
  match numbered_tag fuel used base n with
  | Some t => t ∉ used ∧ t ≠ "" ∧ ∃ m, (n ≤ m)%Z ∧ t = numbered base m ∧ ∀ k, (n ≤ k < m)%Z → numbered base k ∈ used
  | None => ∀ k, (n ≤ k < n + Z.of_nat fuel)%Z → numbered base k ∈ used
  end.
Proof.
  unfold numbered. revert n. induction fuel as [|fuel IH]; intros n; cbn; [lia|]. case_decide as Hin.
  - specialize (IH (n + 1)%Z). destruct (numbered_tag fuel used base (n + 1)).
    + destruct IH as (? & ? & m & ? & ? & Hm). split_and!; [done..|]. exists m. split_and!; [lia|done|].
      intros k Hk. destruct (base.decide (k = n)) as [->|]; [done|]. apply Hm. lia.
    + intros k Hk. destruct (base.decide (k = n)) as [->|]; [done|]. apply IH. lia.
  - split; [done|]. split; [by destruct base|]. exists n. split_and!; [lia|done|lia].
Qed.

Lemma allocUniqueTunnelTag_fresh used base : ∃ t, allocUniqueTunnelTag used base = Some t ∧ fresh_tag (.∈ used) base t.
Proof.
  unfold allocUniqueTunnelTag. fold (tag_base base). unfold fresh_tag. set (b := tag_base base).
  assert (b ≠ "") as Hb by (unfold b, tag_base; destruct (String.eqb base "") eqn:E; [done|by to_prop]).
  case_decide as Hin; [|by eexists; eauto]. pose proof (numbered_tag_spec (S (size used)) used b 2) as Hs.
  destruct (numbered_tag _ _ _ _) as [t|]; [destruct Hs as (? & ? & ?); exists t; split_and!; by auto|exfalso].
  assert (list_to_set (numbered b <$> seqZ 2 (Z.of_nat (S (size used)))) ⊆ used) as Hsub.
  { intros t. rewrite elem_of_list_to_set. intros (k & -> & Hk%elem_of_seqZ)%list_elem_of_fmap. apply Hs. lia. }
  apply subseteq_size in Hsub. rewrite size_list_to_set in Hsub; [rewrite length_fmap, length_seqZ in Hsub; lia|].
  apply NoDup_fmap_2; [|apply NoDup_seqZ]. intros i j. apply numbered_inj.
Qed.

(** ** Slots *)

Definition slot_range (i : Z) : Prop := (0 ≤ i < Z.of_nat maxProxySlots)%Z.

Lemma first_slot_Some used i : first_slot used = Some i → slot_range i ∧ i ∉ used.
Proof.
  unfold first_slot. intros [Hi Hu]%List.find_some. apply list_elem_of_In, elem_of_seqZ in Hi. apply bool_decide_eq_true in Hu.
  unfold slot_range. split; [lia|done].
Qed.

Lemma first_slot_None used i : first_slot used = None → slot_range i → i ∈ used.
Proof.
  unfold first_slot, slot_range. intros Hn Hi. apply dec_stable. intros Hu.
  assert (List.In i (seqZ 0 (Z.of_nat maxProxySlots))) as Hin by (apply list_elem_of_In, elem_of_seqZ; lia).
  pose proof (List.find_none _ _ Hn i Hin) as Hf. cbn in Hf. by apply bool_decide_eq_false in Hf.
Qed.

Section props.
Context `{GoArch, GoFloat, GoUnicode, SlotWorld}.

(** A slot the router does not have a proxy on (when its proxies are used). *)
Definition listed_free (i : Z) : Prop :=
  match proxy_indices with Some (inr taken) => i ∉ taken | Some (inl _) => False | None => True end.

(** A slot for one more tunnel. *)
Definition slot_free (l : list tunnel) (i : Z) : Prop :=
  slot_range i ∧ (firstPort + i)%Z ∉ ports l ∧ portBindable (firstPort + i)%Z = true ∧ listed_free i.

(** The slots set aside have the port of a tunnel, or one that cannot be bound. *)
Definition set_aside (l : list tunnel) (res : gset Z) : Prop :=
  ∀ i, i ∈ res → (firstPort + i)%Z ∈ ports l ∨ portBindable (firstPort + i)%Z = false.

Lemma aside_not_free l res i : set_aside l res → i ∈ res → ¬ slot_free l i.
Proof. intros Ha Hi (_ & Hp & Hb & _). destruct (Ha i Hi); [done|congruence]. Qed.

Lemma nextFree_used c l res i : represents c l → slot_range i →
  i ∈ res ∪ list_to_set (C := gset Z) (filter (λ s, (0 ≤ s)%Z) ((λ t, ti_ListenPort t - firstPort)%Z <$> Tunnels c)) ↔
  i ∈ res ∨ (firstPort + i)%Z ∈ ports l.
Proof.
  intros Hrep Hi. rewrite (Tunnels_of c l Hrep), elem_of_union, elem_of_list_to_set, list_elem_of_filter.
  rewrite <- list_fmap_compose. unfold ports. rewrite !list_elem_of_fmap. cbn [compose tunnel_info ti_ListenPort].
  unfold slot_range in Hi. split; (intros [?|Hr]; [by left|right]).
  - destruct Hr as [_ (t & -> & Ht)]. exists t. split; [lia|done].
  - destruct Hr as (t & E & Ht). split; [lia|]. exists t. split; [|done]. cbn. lia.
Qed.

Lemma alloc_slot_spec c l res : represents c l → set_aside l res →
  match alloc_slot c res with
  | inr i => slot_range i ∧ listed_free i ∧
      ((i ∉ res) ∧ (proxy_indices = None → (firstPort + i)%Z ∉ ports l) ∨ ∀ j, ¬ slot_free l j)
  | inl _ => ∀ j, ¬ slot_free l j
  end.
Proof.
  intros Hrep Ha. unfold alloc_slot, NextFreeIndex, nextFreeListenPortSlot, slot_free, listed_free.
  destruct proxy_indices as [[|taken]|] eqn:Ep; [by intros j (_ & _ & _ & [])| |].
  - destruct (first_slot _) as [i|] eqn:E.
    + apply first_slot_Some in E as [? Hu]. rewrite not_elem_of_union in Hu. destruct Hu. split_and!; [done..|]. by left.
    + intros j (Hr & Hp & Hb & Ht). apply (first_slot_None _ j) in E; [|done]. apply elem_of_union in E as [E|E]; [|done].
      destruct (Ha j E); [done|congruence].
  - destruct (first_slot _) as [i|] eqn:E; cbn [default].
    + apply first_slot_Some in E as [? Hu]. rewrite (nextFree_used c l) in Hu by done. split_and!; [done..|]. left. tauto.
    + split; [unfold slot_range, maxProxySlots; cbn; lia|]. split; [done|]. right. intros j (Hr & Hp & Hb & _).
      apply (first_slot_None _ j) in E; [|done]. rewrite (nextFree_used c l) in E by done. destruct E as [E|E]; [|done].
      destruct (Ha j E); [done|congruence].
Qed.

Definition open_slots (res : gset Z) : list Z := filter (.∉ res) (seqZ 0 (Z.of_nat maxProxySlots)).

Lemma open_slots_add i res : slot_range i → i ∉ res → (length (open_slots ({[i]} ∪ res)) < length (open_slots res))%nat.
Proof.
  intros Hi Hn. unfold open_slots, slot_range in *.
  assert (i ∈ seqZ 0 (Z.of_nat maxProxySlots)) as Hin by (apply elem_of_seqZ; lia). revert Hin.
  generalize (seqZ 0 (Z.of_nat maxProxySlots)). intros l. induction l as [|x l IH]; [by intros ?%elem_of_nil|].
  assert (∀ l, length (filter (.∉ {[i]} ∪ res) l) ≤ length (filter (.∉ res) l))%nat as Hle.
  { clear. intros l. induction l as [|x l IH]; [done|]. rewrite !filter_cons. repeat case_decide; cbn; [lia| |lia|lia]. set_solver. }
  rewrite !filter_cons. intros [<-|Hin]%elem_of_cons.
  - rewrite decide_False by set_solver. rewrite decide_True by done. cbn. specialize (Hle l). lia.
  - specialize (IH Hin). repeat case_decide; cbn; [lia|set_solver|lia|lia].
Qed.

Lemma alloc_attempts_spec n c l res : represents c l → set_aside l res →
  ((∃ i, slot_free l i) → (length (open_slots res) ≤ n)%nat) →
  let '(r, res') := alloc_attempts n portBindable (alloc_slot c) res in
  set_aside l res' ∧
  match r with
  | inr (i, p) => p = (firstPort + i)%Z ∧ slot_range i ∧ listed_free i ∧ portBindable p = true ∧
      ((firstPort + i)%Z ∈ ports l → proxy_indices = None → ∀ j, ¬ slot_free l j)
  | inl _ => ∀ j, ¬ slot_free l j
  end.
Proof.
  intros Hrep. revert res. induction n as [|n IH]; intros res Ha Hn; cbn [alloc_attempts].
  { split; [done|]. intros j Hj. specialize (Hn (ex_intro _ j Hj)). assert (j ∈ open_slots res) as Hin.
    { apply list_elem_of_filter. split; [intros Hin; by eapply aside_not_free|]. destruct Hj as [Hj _]. unfold slot_range in Hj.
      apply elem_of_seqZ. lia. }
    destruct (open_slots res); [by apply elem_of_nil in Hin|cbn in Hn; lia]. }
  pose proof (alloc_slot_spec c l res Hrep Ha) as Hs. destruct (alloc_slot c res) as [e|i]; [done|]. destruct Hs as (Hr & Hl & Hc).
  destruct (portBindable _) eqn:Eb.
  - split; [done|]. split_and!; [done..|]. intros Hp Hx. destruct Hc as [[_ Hc]|Hc]; [by specialize (Hc Hx)|done].
  - apply IH; [|intros Hex; destruct Hc as [[Hi _]|Hc]; [|by destruct Hex as [j ?]; destruct (Hc j)]].
    + intros j [->%elem_of_singleton|?]%elem_of_union; [by right|by apply Ha].
    + pose proof (open_slots_add i res Hr Hi). specialize (Hn Hex). lia.
Qed.

(** ** Fingerprints *)

Lemma stored_get tag ob k : k ≠ "tag" → k ≠ "udp_over_tcp" → obj_get k (stored_outbound tag ob) = obj_get k ob.
Proof.
  intros Ht Hu. unfold stored_outbound, ensureNaiveUDPOverTCP. repeat case_match; rewrite ?(obj_get_put_ne "udp_over_tcp") by done;
    by apply obj_get_put_ne.
Qed.

Lemma fingerprint_ext ob ob' : (∀ k, k ≠ "tag" → k ≠ "udp_over_tcp" → obj_get k ob' = obj_get k ob) →
  outboundFingerprint ob' = outboundFingerprint ob.
Proof. intros E. unfold outboundFingerprint. by rewrite !E by done. Qed.

Definition fingerprints (l : list tunnel) : list string := filter (.≠ "") (outboundFingerprint ∘ tn_outbound <$> l).

Lemma fingerprints_app l l' : fingerprints (l ++ l') = fingerprints l ++ fingerprints l'.
Proof. unfold fingerprints. by rewrite fmap_app, filter_app. Qed.

Lemma existing_fingerprints c l f : represents c l →
  is_Some (existingOutboundFingerprints c !! f) ↔ f ∈ fingerprints l.
Proof.
  intros (Hu & _)%represents_read. unfold existingOutboundFingerprints, fingerprints. rewrite Hu, list_elem_of_filter.
  rewrite list_fmap_compose. generalize (tn_outbound <$> l). clear Hu l. intros obs.
  induction obs as [|ob obs IH] using rev_ind.
  { cbn. split; [by intros []|by intros [_ []%elem_of_nil]]. }
  rewrite !fmap_app, foldl_app, elem_of_app. cbn [foldl fmap list_fmap]. rewrite list_elem_of_singleton.
  destruct (String.eqb _ "") eqn:Ef; to_prop.
  - rewrite IH. split; [tauto|]. intros [? [?|?]]; [done|congruence].
  - rewrite lookup_insert_is_Some', IH. split; [intros [<-|[? ?]]; auto|]. intros [? [?|?]]; [by right|left; congruence].
Qed.

(** ** What becomes of a link *)

(** The accounts of links. *)
Definition link_fingerprints (ps : list ParsedOutbound) : list string :=
  omap (λ p, match unmarshal_map (p_Outbound p) with Some m => Some (outboundFingerprint (default [] m)) | None => None end) ps.

Definition supported (features : list string) (p : ParsedOutbound) : Prop :=
  features = [] ∨ OutboundSupportedByFeatures features (p_Protocol p) = true.

(** The tunnel a link becomes: under a fresh tag, on the port of a free slot, it stores the
    outbound of the link. *)
Record link_tunnel (l : list tunnel) (p : ParsedOutbound) (t : tunnel) : Prop := {
  lt_tag : fresh_tag (.∈ tags l) (p_Tag p) (tn_tag t);
  lt_port : ∃ i, slot_free l i ∧ tn_port t = (firstPort + i)%Z;
  lt_outbound : ∃ m, unmarshal_map (p_Outbound p) = Some (Some m) ∧ tn_outbound t = stored_outbound (tn_tag t) m;
}.

Definition link_account (p : ParsedOutbound) (f : string) : Prop :=
  f ≠ "" ∧ ∃ m, unmarshal_map (p_Outbound p) = Some m ∧ outboundFingerprint (default [] m) = f.

(** The error of a link that does not become a tunnel, after the links [earlier]. *)
Inductive refusal (features : list string) (l : list tunnel) (earlier : list ParsedOutbound) (p : ParsedOutbound) :
    string * string → Prop :=
  | rf_feature : ¬ supported features p → refusal features l earlier p (p_Label p, "missing sing-box build tag")
  | rf_duplicate f : link_account p f → f ∈ fingerprints l ∨ f ∈ link_fingerprints earlier →
      refusal features l earlier p (p_Tag p, "duplicate of existing tunnel")
  | rf_slot : (∀ i, ¬ slot_free l i) → refusal features l earlier p (p_Tag p, "allocate listen port")
  | rf_json : unmarshal_map (p_Outbound p) = None → refusal features l earlier p (p_Tag p, "outbound json")
  | rf_port i : slot_range i → listed_free i → (firstPort + i)%Z ∈ ports l → (proxy_indices = None → ∀ j, ¬ slot_free l j) →
      refusal features l earlier p (p_Tag p, "listen_port already in use").

(** The links in order: the tunnels added at the end of the list, and the errors. *)
Inductive batch_outcome (features : list string) :
    list tunnel → list ParsedOutbound → list ParsedOutbound → list tunnel → list (string * string) → Prop :=
  | bo_nil l earlier : batch_outcome features l earlier [] [] []
  | bo_added l earlier p ps t new errs : supported features p → link_tunnel l p t →
      (∀ f, link_account p f → f ∉ fingerprints l) → batch_outcome features (l ++ [t]) (earlier ++ [p]) ps new errs →
      batch_outcome features l earlier (p :: ps) (t :: new) errs
  | bo_refused l earlier p ps e new errs : refusal features l earlier p e →
      batch_outcome features l (earlier ++ [p]) ps new errs →
      batch_outcome features l earlier (p :: ps) new (e :: errs).

Lemma outcome_counts features l earlier ps new errs : batch_outcome features l earlier ps new errs →
  (length new + length errs = length ps)%nat.
Proof. induction 1; cbn; lia. Qed.

(** ** One link *)

Definition link_ok (p : ParsedOutbound) : Prop := outbound_ok (p_Outbound p).

Record batch_ok (l : list tunnel) (earlier : list ParsedOutbound) (b : batch) : Prop := {
  bok_rep : represents (b_cfg b) l;
  bok_tags : ∀ t, t ∈ tagOccupied b ↔ t ∈ tags l;
  bok_fps : ∀ f, f ∈ fingerprints l → is_Some (existingFps b !! f);
  bok_known : ∀ f, is_Some (existingFps b !! f) → f ∈ fingerprints l ∨ f ∈ link_fingerprints earlier;
  bok_distinct : NoDup (fingerprints l);
  bok_reserved : set_aside l (reserved b);
}.

Lemma obj_put_put k v m : obj_put k v (obj_put k v m) = obj_put k v m.
Proof.
  unfold obj_put at 1. rewrite obj_get_put_eq. unfold obj_put. destruct (obj_get k m) eqn:E.
  - unfold obj_set. rewrite <- list_fmap_compose. apply list_fmap_ext. intros i [k' w] _. cbn.
    destruct (String.eqb k' k) eqn:Ek; cbn; [by rewrite String.eqb_refl|by rewrite Ek].
  - unfold obj_set. rewrite fmap_app. cbn. rewrite String.eqb_refl. f_equal. unfold obj_get in E.
    induction m as [|[k' w] m IH]; [done|]. cbn in E |- *. destruct (String.eqb k' k) eqn:Ek; [done|]. f_equal. by apply IH.
Qed.

Inductive placed (p : ParsedOutbound) (l : list tunnel) (b b' : batch) : list tunnel → Prop :=
  | placed_error e : (∀ features earlier, refusal features l earlier p e) →
      parseErrs b' = parseErrs b ++ [e] → addedTags b' = addedTags b → b_cfg b' = b_cfg b →
      tagOccupied b' = tagOccupied b → set_aside l (reserved b') → placed p l b b' []
  | placed_added t : link_tunnel l p t → parseErrs b' = parseErrs b → addedTags b' = addedTags b ++ [tn_tag t] →
      represents (b_cfg b') (l ++ [t]) → tagOccupied b' = {[tn_tag t]} ∪ tagOccupied b →
      set_aside (l ++ [t]) (reserved b') → placed p l b b' [t].

Lemma set_aside_app l t res : set_aside l res → set_aside (l ++ [t]) res.
Proof. intros Ha i Hi. unfold ports. rewrite fmap_app, elem_of_app. destruct (Ha i Hi); auto. Qed.

Lemma place_spec p l b : represents (b_cfg b) l → (∀ t, t ∈ tagOccupied b ↔ t ∈ tags l) → set_aside l (reserved b) →
  link_ok p → ∃ b' new, place p b = Some b' ∧ existingFps b' = existingFps b ∧ placed p l b b' new.
Proof.
  intros Hrep Hocc Hres Hok. unfold place, allocBindableSlot.
  pose proof (alloc_attempts_spec maxProxySlots (b_cfg b) l (reserved b) Hrep Hres) as Hslot.
  specialize (Hslot (λ _, length_filter _ _)).
  destruct (alloc_attempts _ _ _ _) as [[err|[i port]] res]; destruct Hslot as [Hres' Hslot].
  { eexists _, []. split; [done|]. split; [done|]. eapply placed_error; try done. by constructor. }
  destruct Hslot as (-> & Hi & Hlist & Hbind & Hfull). cbn [tagOccupied set_reserved].
  destruct (allocUniqueTunnelTag_fresh (tagOccupied b) (p_Tag p)) as (tag & -> & Hfresh). cbn [mbind option_bind].
  apply (fresh_tag_ext _ (.∈ tags l)) in Hfresh; [|done].
  pose proof Hok as Hmap. unfold link_ok, outbound_ok in Hmap. unfold outboundJSONWithTag.
  destruct (unmarshal_map (p_Outbound p)) as [[m|]|] eqn:Eo; [|done|].
  2:{ eexists _, []. split; [done|]. split; [done|]. eapply placed_error; try done. by constructor. }
  cbn [mbind option_bind]. set (o := Marshal (JObject (obj_put "tag" (JString tag) m))). cbn [b_cfg set_reserved].
  destruct (add_refines tag (p_Protocol p) (p_Server p) (p_Port p) (firstPort + i)%Z o (b_cfg b) l Hrep)
    as (err & c' & l' & E & Hs & Hrep' & He).
  { unfold slot_range, maxProxySlots in Hi. split; [by destruct Hfresh|]. split; [right; unfold firstPort; lia|].
    cbn. unfold user_type in *. by rewrite obj_get_put_ne. }
  rewrite E. cbn [mbind option_bind]. destruct Hfresh as (Hne & Hnt & Hbase).
  inversion Hs as [? ? ? ? ? ? Hin|? ? ? ? ? ? ? ? Hbig|? ? ? ? ? ? ? ? Hin|? ? ? ? ? ? ? ? ? Hbad|? ? ? ? ? ? fs q Ht Hp Ef| | | | | | | | | |]; subst.
  - done.
  - exfalso. unfold slot_range, firstPort in *. lia.
  - eexists _, []. split; [done|]. split; [done|]. eapply placed_error; try done. intros. apply (rf_port _ _ _ _ i); auto.
  - done.
  - cbn in Ef. injection Ef as <-. set (t := mkTunnel tag q (stored_outbound tag (obj_put "tag" (JString tag) m))) in *.
    unfold port_chosen in Hp. destruct (Z.eqb_spec (firstPort + i) 0) as [Hz|_]; [unfold slot_range, firstPort in *; lia|].
    destruct Hp as [-> Hp]. eexists _, [t]. split; [done|]. split; [done|]. apply placed_added; try done.
    + split; cbn; [done|by exists i|]. exists m. split; [done|]. unfold stored_outbound. by rewrite obj_put_put.
    + intros j [->%elem_of_singleton|Hj]%elem_of_union; [left|exact (set_aside_app _ _ _ Hres' j Hj)].
      unfold ports. rewrite fmap_app, elem_of_app. right. by apply list_elem_of_singleton.
Qed.

Lemma link_tunnel_fingerprint l p t m : link_tunnel l p t → unmarshal_map (p_Outbound p) = Some (Some m) →
  outboundFingerprint (tn_outbound t) = outboundFingerprint m.
Proof.
  intros [_ _ (m' & E & ->)] E'. rewrite E in E'. injection E' as ->. apply fingerprint_ext. intros. by apply stored_get.
Qed.

Lemma link_tunnel_saved l p t : link_tunnel l p t → as_saved t.
Proof. intros [_ _ (m & _ & E)]. unfold as_saved. rewrite E. apply ensure_idem. Qed.

Lemma link_fingerprints_snoc ps p : link_fingerprints (ps ++ [p]) = link_fingerprints ps ++ link_fingerprints [p].
Proof. unfold link_fingerprints. by rewrite omap_app. Qed.

Inductive stepped (features : list string) (l : list tunnel) (earlier : list ParsedOutbound) (p : ParsedOutbound) (b b' : batch) : Prop :=
  | step_refused e : refusal features l earlier p e → parseErrs b' = parseErrs b ++ [e] → addedTags b' = addedTags b →
      batch_ok l (earlier ++ [p]) b' → stepped features l earlier p b b'
  | step_added t : supported features p → link_tunnel l p t → (∀ f, link_account p f → f ∉ fingerprints l) →
      parseErrs b' = parseErrs b → addedTags b' = addedTags b ++ [tn_tag t] → batch_ok (l ++ [t]) (earlier ++ [p]) b' →
      stepped features l earlier p b b'.

(** The account of the link is recorded before the link is placed. *)
Lemma placed_step features p l earlier b0 b b' new m : batch_ok l earlier b0 → supported features p →
  unmarshal_map (p_Outbound p) = m →
  (∀ fs, m = Some (Some fs) → outboundFingerprint fs ≠ "" →
    outboundFingerprint fs ∉ fingerprints l ∧ is_Some (existingFps b' !! outboundFingerprint fs)) →
  (∀ f, is_Some (existingFps b' !! f) ↔ is_Some (existingFps b0 !! f) ∨ link_account p f) →
  b = set_fps (existingFps b') b0 → link_ok p → placed p l b b' new → stepped features l earlier p b0 b'.
Proof.
  intros [Hrep Htags Hfps Hkn Hnd Hres] Hsup Em Hnew Hmono -> Hok Hp.
  assert (∀ f, is_Some (existingFps b' !! f) → f ∈ fingerprints l ∨ f ∈ link_fingerprints (earlier ++ [p])) as Hkn'.
  { intros f. rewrite Hmono, link_fingerprints_snoc, elem_of_app. intros [Hf|[_ (m0 & E0 & Ef)]]; [destruct (Hkn f Hf); auto|].
    right. right. unfold link_fingerprints. cbn. rewrite E0, Ef. by apply list_elem_of_singleton. }
  assert (∀ f, f ∈ fingerprints l → is_Some (existingFps b' !! f)) as Hfps' by (intros; apply Hmono; auto).
  destruct Hp as [e P0 P1 P2 P3 P4 P5|t Lt P1 P2 P3 P4 P5].
  - eapply step_refused; [apply P0|done|done|]. split; [by rewrite P3|by rewrite P4|done..].
  - pose proof Lt as [_ _ (fs & Eo & _)]. rewrite Eo in Em. subst m. specialize (Hnew fs eq_refl).
    assert (fingerprints [t] = if String.eqb (outboundFingerprint fs) "" then [] else [outboundFingerprint fs]) as Ht.
    { unfold fingerprints. change (_ <$> [t]) with [outboundFingerprint (tn_outbound t)].
      rewrite filter_cons, (link_tunnel_fingerprint _ _ _ _ Lt Eo). destruct (String.eqb _ "") eqn:Ef; to_prop;
        [by rewrite decide_False by auto|by rewrite decide_True]. }
    eapply step_added; [done|exact Lt| |done|done|].
    + intros f [Hf (m0 & E0 & Ef)]. rewrite Eo in E0. injection E0 as <-. cbn in Ef. subst f. by apply Hnew.
    + split; [done| | | | |done]; rewrite ?fingerprints_app, ?Ht.
      * intros x. unfold tags. rewrite fmap_app, elem_of_app, P4, elem_of_union, Htags. cbn [fmap list_fmap].
        rewrite list_elem_of_singleton, elem_of_singleton. tauto.
      * intros f [Hf|Hf]%elem_of_app; [auto|]. destruct (String.eqb _ "") eqn:Ef; [by apply elem_of_nil in Hf|].
        apply list_elem_of_singleton in Hf as ->. to_prop. by apply Hnew.
      * intros f Hf. rewrite elem_of_app. destruct (Hkn' f Hf); auto.
      * destruct (String.eqb _ "") eqn:Ef; [by rewrite app_nil_r|]. to_prop. destruct (Hnew Ef) as [Hn _].
        apply NoDup_app. split; [done|]. split; [|apply NoDup_singleton]. by intros x Hx ->%list_elem_of_singleton.
Qed.

Lemma add_one_spec features p l earlier b : batch_ok l earlier b → link_ok p →
  ∃ b', add_one features p b = Some b' ∧ stepped features l earlier p b b'.
Proof.
  intros Hb Hok. pose proof Hb as [Hrep Htags Hfps Hkn Hnd Hres]. unfold add_one.
  assert (∀ input err, refusal features l earlier p (input, err) →
    ∃ b', Some (batch_error input err b) = Some b' ∧ stepped features l earlier p b b') as Herr.
  { intros input err Hr. eexists. split; [done|]. eapply step_refused; [exact Hr|done..|]. split; try done.
    intros f Hf. rewrite link_fingerprints_snoc, elem_of_app. destruct (Hkn f Hf); auto. }
  destruct (_ && _) eqn:Esup.
  { apply Herr, rf_feature. apply andb_true_iff in Esup as [E1 E2]. to_prop. intros [?|E]; [done|congruence]. }
  assert (supported features p) as Hsup.
  { unfold supported. apply andb_false_iff in Esup as [E|E]; apply negb_false_iff in E; [left; by apply bool_decide_eq_true in E|by right]. }
  clear Esup. pose proof Hok as Hmap. unfold link_ok, outbound_ok in Hmap.
  assert (∀ fps m, unmarshal_map (p_Outbound p) = m →
    (∀ fs, m = Some (Some fs) → outboundFingerprint fs ≠ "" →
      outboundFingerprint fs ∉ fingerprints l ∧ is_Some (fps !! outboundFingerprint fs)) →
    (∀ f, is_Some (fps !! f) ↔ is_Some (existingFps b !! f) ∨ link_account p f) →
    ∃ b', place p (set_fps fps b) = Some b' ∧ stepped features l earlier p b b') as Hplace.
  { intros fps m Em Hnew Hmono. destruct (place_spec p l (set_fps fps b)) as (b' & new & E & Efp & Hp); [done..|].
    cbn in Efp. subst fps. exists b'. split; [done|]. by eapply placed_step. }
  assert (set_fps (existingFps b) b = b) as Eb by by destruct b.
  destruct (unmarshal_map (p_Outbound p)) as [[m|]|] eqn:Eo; [|done|].
  - change (default [] (Some m)) with m. cbv zeta. destruct (String.eqb (outboundFingerprint m) "") eqn:Ef; to_prop.
    + specialize (Hplace (existingFps b) _ eq_refl). rewrite Eb in Hplace. apply Hplace; [by intros ? [= ->]|]. intros f. split; [auto|]. intros [?|[Hf (m0 & E0 & E1)]]; [done|].
      rewrite Eo in E0. injection E0 as <-. by cbn in E1; congruence.
    + destruct (existingFps b !! outboundFingerprint m) eqn:El.
      { apply Herr. apply rf_duplicate with (f := outboundFingerprint m); [|apply Hkn; by rewrite El].
        split; [done|]. by exists (Some m). }
      apply (Hplace _ _ eq_refl).
      * intros fs [= ->] _. split; [intros Hin%Hfps; rewrite El in Hin; by destruct Hin|].
        cbn. apply lookup_insert_is_Some'. by left.
      * intros f. cbn. rewrite lookup_insert_is_Some'. split.
        -- intros [<-|?]; [right|by left]. split; [done|]. by exists (Some m).
        -- intros [?|[_ (m0 & E0 & E1)]]; [by right|left]. rewrite Eo in E0. injection E0 as <-. done.
  - specialize (Hplace (existingFps b) _ eq_refl). rewrite Eb in Hplace. apply Hplace; [done|]. intros f. split; [auto|]. intros [?|[Hf (m0 & E0 & _)]]; [done|congruence].
Qed.

Lemma add_all_spec features ps l earlier b : batch_ok l earlier b → Forall link_ok ps →
  ∃ b' new errs, add_all features ps b = Some b' ∧ batch_ok (l ++ new) (earlier ++ ps) b' ∧ addedTags b' = addedTags b ++ tags new ∧
    parseErrs b' = parseErrs b ++ errs ∧ batch_outcome features l earlier ps new errs ∧ Forall as_saved new.
Proof.
  intros Hb Hps. revert l earlier b Hb. induction Hps as [|p ps Hp _ IH]; intros l earlier b Hb; cbn.
  { exists b, [], []. rewrite !app_nil_r. split_and!; [done..|constructor|constructor]. }
  destruct (add_one_spec features p l earlier b Hb Hp) as (b1 & -> & [e Hr E1 E2 Hb1|t Hs Lt Hf E1 E2 Hb1]); cbn;
    destruct (IH _ _ _ Hb1) as (b2 & new & errs & -> & Hb2 & T2 & P2 & O2 & S2).
  - exists b2, new, (e :: errs). rewrite T2, P2, E1, E2, <- !(assoc_L (++)) in *. split_and!; [done..|by constructor|done].
  - exists b2, (t :: new), errs. unfold tags. rewrite T2, P2, E1, E2, <- !(assoc_L (++)) in *.
    split_and!; [done..|by constructor|]. constructor; [by eapply link_tunnel_saved|done].
Qed.

Lemma start_batch_ok c l : represents c l → NoDup (fingerprints l) → batch_ok l [] (start_batch c).
Proof.
  intros Hrep Hd. split; [done| | | |done|by intros i ?%elem_of_empty].
  - intros t. cbn. unfold tunnelTagsInUse. rewrite (Tunnels_of c l Hrep), <- list_fmap_compose, elem_of_list_to_set.
    destruct Hrep as [_ [_ _ Hok]]. by rewrite <- tags_in_outbounds, <- list_fmap_compose by done.
  - intros f Hf. by apply (existing_fingerprints c l).
  - intros f Hf. left. by apply (existing_fingerprints c l).
Qed.

(** C15: Adding a batch of links, whose outbounds are of a user's type or no JSON objects
    at all but not [null], to the document of a well-formed list of tunnels without two of
    one server account: in the order of the links each becomes a tunnel at the end of the
    list, which stores the link's outbound under a fresh tag made from the link's tag, on
    the port of a free slot, and whose account no tunnel has; or has its error, for the
    reason the error gives: the build does not support it, its account is that of a tunnel
    or of an earlier link, no slot is free, its outbound cannot be read, or (see
    [taken_port_fails_batch]) the slot proposed has the port of a tunnel. The tags
    reported are those of the new tunnels; the list stays well-formed and without two
    tunnels of one account. *)
Theorem batch_adds (features : list string) (ps : list ParsedOutbound) (c : Config) (l : list tunnel)
    (Hrep : represents c l) (Hdistinct : NoDup (fingerprints l)) (Hlinks : Forall link_ok ps) :
  ∃ b new, AddTunnels_plan features ps c = Some b ∧ represents (b_cfg b) (l ++ new) ∧ addedTags b = tags new ∧
    batch_outcome features l [] ps new (parseErrs b) ∧ (length new + length (parseErrs b) = length ps)%nat ∧
    NoDup (fingerprints (l ++ new)).
Proof.
  destruct (add_all_spec features ps l [] (start_batch c)) as (b & new & errs & E & [B1 _ _ _ B4 _] & Et & Ep & Ho & _);
    [by apply start_batch_ok|done|].
  cbn in Et, Ep. exists b, new. rewrite Ep. split_and!; [done..|by eapply outcome_counts|done].
Qed.
End props.
