(* ===== verification/SbDeviceProxy.v ===== *)
(** * The device proxy in the sing-box configuration ([singbox/config.go], [deviceproxy_config.go])

    Each instance of the proxy for the devices of the network is an inbound, a selector
    and a route rule, under tags made from its identifier. *)
From S2P Require Import Prelude GoLib GoText SbJson SbTunnels.

Record DeviceProxyAuth := { au_Enabled : bool; au_Username : string; au_Password : string }.
Record DeviceProxyInstanceSpec := {
  dp_ID : string; dp_Enabled : bool; dp_ListenAddr : string; dp_Port : Z; dp_Auth : DeviceProxyAuth;
  dp_SelectedTag : string; dp_AWGTags : list string; dp_SBTags : list string;
}.

Definition deviceProxyInboundTag : string := "device-proxy-in".
Definition deviceProxySelectorTag : string := "device-proxy-selector".
Definition deviceProxyAWGPrefix : string := "awg-".

Definition deviceProxyInstanceTags (id : string) : string * string :=
  if String.eqb id "" || String.eqb id "default" then (deviceProxyInboundTag, deviceProxySelectorTag)
  else ("device-proxy-" +:+ id +:+ "-in", "device-proxy-" +:+ id +:+ "-selector").

Definition isDeviceProxyInboundTag (tag : string) : bool :=
  String.eqb tag deviceProxyInboundTag || HasPrefix tag "device-proxy-" && HasSuffix tag "-in".
Definition isDeviceProxySelectorTag (tag : string) : bool :=
  String.eqb tag deviceProxySelectorTag || HasPrefix tag "device-proxy-" && HasSuffix tag "-selector".

(** ** Edits by tag: [None] is the panic on a nil map *)

(** [r["inbound"] == inboundTag] *)
Definition inbound_is (tag : string) (r : obj) : bool :=
  match obj_get "inbound" r with Some (JString s) => String.eqb s tag | _ => false end.

Definition upsertInbound (tag : string) (inbound : obj) (c : Config) : option Config :=
  match replace_tagged tag inbound (inbounds c) with
  | Some l => setInbounds l c
  | None => setInbounds (inbounds c ++ [JObject inbound]) c
  end.

Definition removeInbound (tag : string) (c : Config) : option Config :=
  setInbounds (drop_objects (λ ib, String.eqb (tag_of ib) tag) (inbounds c)) c.

(** In front of the first outbound tagged [direct], or at the end. *)
Fixpoint insert_before_direct (ob : obj) (l : list json) : list json :=
  match l with
  | [] => [JObject ob]
  | v :: l => if has_tag "direct" v then JObject ob :: v :: l else v :: insert_before_direct ob l
  end.

Definition upsertOutbound (tag : string) (outbound : obj) (c : Config) : option Config :=
  match replace_tagged tag outbound (outbounds c) with
  | Some l => setOutbounds l c
  | None => setOutbounds (insert_before_direct outbound (outbounds c)) c
  end.

Definition removeOutbound (tag : string) (c : Config) : option Config :=
  setOutbounds (drop_objects (λ ob, String.eqb (tag_of ob) tag) (outbounds c)) c.

(** The source passes [nil] for [keep]: every such outbound goes. *)
Definition pruneAWGOutbounds (c : Config) : option Config :=
  setOutbounds (drop_objects (λ ob, HasPrefix (tag_of ob) deviceProxyAWGPrefix) (outbounds c)) c.

Definition instance_rule (inboundTag selectorTag : string) : obj :=
  [("inbound", JString inboundTag); ("outbound", JString selectorTag)].
Definition ensureDeviceProxyInstanceRouteRule (inboundTag selectorTag : string) (c : Config) : option Config :=
  setRouteRules (JObject (instance_rule inboundTag selectorTag) :: drop_objects (inbound_is inboundTag) (routeRules c)) c.
Definition removeDeviceProxyInstanceRouteRule (inboundTag : string) (c : Config) : option Config :=
  setRouteRules (drop_objects (inbound_is inboundTag) (routeRules c)) c.

(** ** One instance *)

Definition RemoveDeviceProxyInstance (id : string) (c : Config) : option Config :=
  let '(inboundTag, selectorTag) := deviceProxyInstanceTags id in
  c ← removeInbound inboundTag c;
  c ← removeOutbound selectorTag c;
  c ← pruneAWGOutbounds c;
  removeDeviceProxyInstanceRouteRule inboundTag c.
Definition RemoveDeviceProxy : Config → option Config := RemoveDeviceProxyInstance "default".

Definition instance_inbound (spec : DeviceProxyInstanceSpec) : obj :=
  [("type", JString "mixed"); ("tag", JString (deviceProxyInstanceTags (dp_ID spec)).1);
   ("listen", JString (dp_ListenAddr spec)); ("listen_port", JInt (dp_Port spec))] ++
  (if au_Enabled (dp_Auth spec)
   then [("users", JArray [JObject [("username", JString (au_Username (dp_Auth spec)));
                                    ("password", JString (au_Password (dp_Auth spec)))]])]
   else []).

Definition instance_members (spec : DeviceProxyInstanceSpec) : list string :=
  "direct" :: dp_SBTags spec ++ merge_sort String.le (dp_AWGTags spec).

Definition instance_selector (spec : DeviceProxyInstanceSpec) : obj :=
  [("type", JString "selector"); ("tag", JString (deviceProxyInstanceTags (dp_ID spec)).2);
   ("outbounds", JArray (JString <$> instance_members spec))] ++
  (if String.eqb (dp_SelectedTag spec) "" then [] else [("default", JString (dp_SelectedTag spec))]).

(** Its error is always [nil]. *)
Definition EnsureDeviceProxyInstance (spec : DeviceProxyInstanceSpec) (c : Config) : option Config :=
  if negb (dp_Enabled spec) then RemoveDeviceProxyInstance (dp_ID spec) c
  else
    let '(inboundTag, selectorTag) := deviceProxyInstanceTags (dp_ID spec) in
    c ← upsertInbound inboundTag (instance_inbound spec) c;
    c ← pruneAWGOutbounds c;
    c ← upsertOutbound selectorTag (instance_selector spec) c;
    ensureDeviceProxyInstanceRouteRule inboundTag selectorTag c.

(** The one proxy of older releases is the default instance. *)
Record DeviceProxySpec := {
  ds_Enabled : bool; ds_ListenAddr : string; ds_Port : Z; ds_Auth : DeviceProxyAuth;
  ds_SelectedTag : string; ds_AWGTags : list string; ds_SBTags : list string;
}.
Definition default_instance (spec : DeviceProxySpec) : DeviceProxyInstanceSpec := {|
  dp_ID := "default"; dp_Enabled := ds_Enabled spec; dp_ListenAddr := ds_ListenAddr spec; dp_Port := ds_Port spec;
  dp_Auth := ds_Auth spec; dp_SelectedTag := ds_SelectedTag spec; dp_AWGTags := ds_AWGTags spec;
  dp_SBTags := ds_SBTags spec |}.
Definition EnsureDeviceProxy (spec : DeviceProxySpec) : Config → option Config :=
  EnsureDeviceProxyInstance (default_instance spec).

(** ** All instances *)

Definition RemoveAllDeviceProxyInstances (c : Config) : option Config :=
  c ← setInbounds (drop_objects (λ ib, isDeviceProxyInboundTag (tag_of ib)) (inbounds c)) c;
  c ← setOutbounds (drop_objects (λ ob, isDeviceProxySelectorTag (tag_of ob)) (outbounds c)) c;
  c ← setRouteRules (drop_objects (λ r, isDeviceProxyInboundTag (as_string (obj_get "inbound" r))) (routeRules c)) c;
  pruneAWGOutbounds c.

Definition HasDeviceProxy (c : Config) : bool := existsb (has_tag deviceProxyInboundTag) (inbounds c).

Fixpoint for_objects (f : obj → Config → option Config) (l : list json) (c : Config) : option Config :=
  match l with
  | [] => Some c
  | JObject fs :: l => c ← f fs c; for_objects f l c
  | _ :: l => for_objects f l c
  end.

Definition ExtractDeviceProxy (c : Config) : option Config :=
  out ← for_objects (λ ib out, if isDeviceProxyInboundTag (tag_of ib) then upsertInbound (tag_of ib) ib out else Some out)
          (inbounds c) NewConfig;
  out ← for_objects (λ ob out, if isDeviceProxySelectorTag (tag_of ob) then upsertOutbound (tag_of ob) ob out else Some out)
          (outbounds c) out;
  for_objects (λ r out, if isDeviceProxyInboundTag (as_string (obj_get "inbound" r))
                        then setRouteRules (routeRules out ++ [JObject r]) out else Some out)
    (routeRules c) out.

(** ** The slot of the device proxy *)

Fixpoint ensure_all (specs : list DeviceProxyInstanceSpec) (c : Config) : option Config :=
  match specs with
  | [] => Some c
  | spec :: specs => c ← EnsureDeviceProxyInstance spec c; ensure_all specs c
  end.

Definition BuildDeviceProxyInstancesConfig (specs : list DeviceProxyInstanceSpec) : option Config :=
  scratch ← ensure_all specs NewConfig;
  ExtractDeviceProxy scratch.

Definition BuildDeviceProxyConfig (spec : DeviceProxySpec) : option Config :=
  BuildDeviceProxyInstancesConfig [default_instance spec].

(** [SingboxAdapter.ApplyDeviceProxyInstances] without the orchestrator: the instances are
    put into the configuration of the tunnels. *)
Definition embed_instances (specs : list DeviceProxyInstanceSpec) (c : Config) : option Config :=
  c ← RemoveAllDeviceProxyInstances c; ensure_all specs c.
