(* ===== verification/SbDeviceProxyProps.v ===== *)
(** * The device proxy: what is built, and that it can be put in and taken out

    The edits of an instance as functions on the three arrays of the document, and the
    laws they satisfy. *)
From S2P Require Import Prelude GoLib GoText SbJson SbTunnels SbTunnelsProps SbDeviceProxy.

(** ** Tags *)

Definition instance_key (id : string) : string := if String.eqb id "" then "default" else id.
Definition inbound_of (id : string) : string := (deviceProxyInstanceTags id).1.
Definition selector_of (id : string) : string := (deviceProxyInstanceTags id).2.

Lemma app_inj_r (a b s : string) : a +:+ s = b +:+ s → a = b.
Proof.
  intros E. pose proof (f_equal String.length E) as Hl. rewrite !str_length_app in Hl.
  apply (f_equal (str_take (String.length a))) in E. rewrite str_take_app in E.
  assert (String.length a = String.length b) as Hab by lia. rewrite Hab, str_take_app in E. done.
Qed.

Lemma instance_tags_eq id : deviceProxyInstanceTags id =
  if String.eqb (instance_key id) "default" then ("device-proxy-in", "device-proxy-selector")
  else ("device-proxy-" +:+ id +:+ "-in", "device-proxy-" +:+ id +:+ "-selector").
Proof. unfold deviceProxyInstanceTags, instance_key. destruct (String.eqb id "") eqn:E; [by to_prop; subst|]. by destruct (String.eqb id "default"). Qed.

Lemma named_not_default id suf : id ≠ "" → "device-proxy-" +:+ id +:+ "-" +:+ suf ≠ "device-proxy-" +:+ suf.
Proof.
  intros Hn E%(f_equal String.length). rewrite !str_length_app in E. cbn in E. destruct id; [done|]. cbn in E. lia.
Qed.

Lemma instance_tags_inj id id' :
  inbound_of id = inbound_of id' ∨ selector_of id = selector_of id' → instance_key id = instance_key id'.
Proof.
  unfold inbound_of, selector_of. rewrite !instance_tags_eq.
  destruct (String.eqb (instance_key id) "default") eqn:E1, (String.eqb (instance_key id') "default") eqn:E2; to_prop.
  - congruence.
  - assert (id' ≠ "") as Hn by (intros ->; done). intros [E|E]; symmetry in E;
      [by apply (named_not_default id' "in") in E|by apply (named_not_default id' "selector") in E].
  - assert (id ≠ "") as Hn by (intros ->; done). intros [E|E];
      [by apply (named_not_default id "in") in E|by apply (named_not_default id "selector") in E].
  - intros [E|E]; apply (app_inj_l "device-proxy-"), app_inj_r in E; by subst.
Qed.

Lemma HasSuffix_mid a b s : HasSuffix (a +:+ b +:+ s) s = true.
Proof.
  assert (a +:+ b +:+ s = (a +:+ b) +:+ s) as ->; [|apply HasSuffix_app].
  induction a as [|c a IH]; [done|]. rewrite !str_app_cons. by rewrite IH.
Qed.

Lemma inbound_of_ours id : isDeviceProxyInboundTag (inbound_of id) = true.
Proof.
  unfold inbound_of. rewrite instance_tags_eq. destruct (String.eqb _ _); [done|]. unfold isDeviceProxyInboundTag. cbn [fst].
  rewrite HasPrefix_app, HasSuffix_mid. apply orb_true_r.
Qed.
Lemma selector_of_ours id : isDeviceProxySelectorTag (selector_of id) = true.
Proof.
  unfold selector_of. rewrite instance_tags_eq. destruct (String.eqb _ _); [done|]. unfold isDeviceProxySelectorTag. cbn [snd].
  rewrite HasPrefix_app, HasSuffix_mid. apply orb_true_r.
Qed.

Lemma selector_not_awg tag : isDeviceProxySelectorTag tag = true → HasPrefix tag deviceProxyAWGPrefix = false ∧ tag ≠ "direct".
Proof.
  unfold isDeviceProxySelectorTag. intros [E|[E _]%andb_true_iff]%orb_true_iff; [by to_prop; subst|].
  apply HasPrefix_inv in E as [t ->]. done.
Qed.

(** ** The edits on the arrays *)

Definition upsert_in (tag : string) (ob : obj) (l : list json) : list json :=
  default (l ++ [JObject ob]) (replace_tagged tag ob l).
Definition upsert_out (tag : string) (ob : obj) (l : list json) : list json :=
  default (insert_before_direct ob l) (replace_tagged tag ob l).
Definition tagged (tag : string) (ob : obj) : bool := String.eqb (tag_of ob) tag.
Definition is_awg (ob : obj) : bool := HasPrefix (tag_of ob) deviceProxyAWGPrefix.

Definition ensure_ins (s : DeviceProxyInstanceSpec) (ins : list json) : list json :=
  if dp_Enabled s then upsert_in (inbound_of (dp_ID s)) (instance_inbound s) ins
  else drop_objects (tagged (inbound_of (dp_ID s))) ins.
Definition ensure_outs (s : DeviceProxyInstanceSpec) (outs : list json) : list json :=
  if dp_Enabled s then upsert_out (selector_of (dp_ID s)) (instance_selector s) (drop_objects is_awg outs)
  else drop_objects is_awg (drop_objects (tagged (selector_of (dp_ID s))) outs).
Definition rule_of (s : DeviceProxyInstanceSpec) : obj := instance_rule (inbound_of (dp_ID s)) (selector_of (dp_ID s)).
Definition ensure_rules (s : DeviceProxyInstanceSpec) (rules : list json) : list json :=
  let rest := drop_objects (inbound_is (inbound_of (dp_ID s))) rules in
  if dp_Enabled s then JObject (rule_of s) :: rest else rest.

Lemma upsertInbound_arrays tag ob c ins outs rules : arrays c ins outs rules →
  ∃ c', upsertInbound tag ob c = Some c' ∧ arrays c' (upsert_in tag ob ins) outs rules.
Proof.
  intros Har. destruct (arrays_read _ _ _ _ Har) as (Hi & _). unfold upsertInbound, upsert_in. rewrite Hi.
  destruct (replace_tagged tag ob ins); cbn; by apply (set_ins _ ins).
Qed.
Lemma upsertOutbound_arrays tag ob c ins outs rules : arrays c ins outs rules →
  ∃ c', upsertOutbound tag ob c = Some c' ∧ arrays c' ins (upsert_out tag ob outs) rules.
Proof.
  intros Har. destruct (arrays_read _ _ _ _ Har) as (_ & Ho & _). unfold upsertOutbound, upsert_out. rewrite Ho.
  destruct (replace_tagged tag ob outs); cbn; by apply (set_outs _ _ outs).
Qed.

(** Reading and writing the arrays, step by step. *)
Ltac array_put Har lem :=
  let c' := fresh "c" in let E := fresh in let A := fresh "A" in
  destruct (lem _ _ _ Har) as (c' & E & A); rewrite E; clear E; cbn [mbind option_bind].

Ltac array_step :=
  match goal with Har : arrays ?c _ _ _ |- context [?c] =>
    let H1 := fresh in let H2 := fresh in let H3 := fresh in
    pose proof (arrays_read _ _ _ _ Har) as (H1 & H2 & H3); rewrite ?H1, ?H2, ?H3; clear H1 H2 H3;
    match goal with
    | |- context [setInbounds ?v c] => array_put Har (λ i o r, set_ins c i o r v)
    | |- context [setOutbounds ?v c] => array_put Har (λ i o r, set_outs c i o r v)
    | |- context [setRouteRules ?v c] => array_put Har (λ i o r, set_rules c i o r v)
    | |- context [upsertInbound ?t ?ob c] => array_put Har (λ i o r, upsertInbound_arrays t ob c i o r)
    | |- context [upsertOutbound ?t ?ob c] => array_put Har (λ i o r, upsertOutbound_arrays t ob c i o r)
    end; clear Har
  end.

Lemma remove_arrays id c ins outs rules : arrays c ins outs rules →
  ∃ c', RemoveDeviceProxyInstance id c = Some c' ∧
    arrays c' (drop_objects (tagged (inbound_of id)) ins)
      (drop_objects is_awg (drop_objects (tagged (selector_of id)) outs))
      (drop_objects (inbound_is (inbound_of id)) rules).
Proof.
  intros Har. unfold RemoveDeviceProxyInstance, inbound_of, selector_of.
  destruct (deviceProxyInstanceTags id) as [it st]. cbn [fst snd].
  unfold removeInbound, removeOutbound, pruneAWGOutbounds, removeDeviceProxyInstanceRouteRule.
  repeat array_step. by eexists.
Qed.

Lemma ensure_arrays s c ins outs rules : arrays c ins outs rules →
  ∃ c', EnsureDeviceProxyInstance s c = Some c' ∧ arrays c' (ensure_ins s ins) (ensure_outs s outs) (ensure_rules s rules).
Proof.
  intros Har. unfold EnsureDeviceProxyInstance, ensure_ins, ensure_outs, ensure_rules, rule_of.
  destruct (dp_Enabled s); cbn [negb]; [|by apply remove_arrays]. unfold inbound_of, selector_of.
  destruct (deviceProxyInstanceTags (dp_ID s)) as [it st]. cbn [fst snd].
  unfold pruneAWGOutbounds, ensureDeviceProxyInstanceRouteRule.
  repeat array_step. by eexists.
Qed.

(** ** What is built from the specifications *)

Lemma replace_tagged_None tag ob l : Forall (λ v, has_tag tag v = false) l → replace_tagged tag ob l = None.
Proof.
  induction 1 as [|v l Hv _ IH]; [done|]. cbn. rewrite IH. destruct v; cbn in *; try done. by rewrite Hv.
Qed.

Lemma insert_no_direct ob l : Forall (λ v, has_tag "direct" v = false) l → insert_before_direct ob l = l ++ [JObject ob].
Proof. induction 1 as [|v l Hv _ IH]; [done|]. cbn [insert_before_direct]. by rewrite Hv, IH. Qed.

Definition inbounds_of (l : list DeviceProxyInstanceSpec) : list json := (JObject ∘ instance_inbound) <$> l.
Definition selectors_of (l : list DeviceProxyInstanceSpec) : list json := (JObject ∘ instance_selector) <$> l.
Definition rules_of (l : list DeviceProxyInstanceSpec) : list json := reverse ((JObject ∘ rule_of) <$> l).

Lemma instance_inbound_tag s : tag_of (instance_inbound s) = inbound_of (dp_ID s).
Proof. done. Qed.
Lemma instance_selector_tag s : tag_of (instance_selector s) = selector_of (dp_ID s).
Proof. done. Qed.

Definition enabled_specs (specs : list DeviceProxyInstanceSpec) : list DeviceProxyInstanceSpec :=
  filter (λ s, dp_Enabled s = true) specs.
Definition keys (specs : list DeviceProxyInstanceSpec) : list string := (instance_key ∘ dp_ID) <$> specs.

(** No instance of [l] has the key of [s]. *)
Lemma others_tags s l : instance_key (dp_ID s) ∉ keys l →
  Forall (λ s', inbound_of (dp_ID s') ≠ inbound_of (dp_ID s) ∧ selector_of (dp_ID s') ≠ selector_of (dp_ID s)) l.
Proof.
  intros Hn. apply Forall_forall. intros s' Hs'.
  assert (instance_key (dp_ID s') ≠ instance_key (dp_ID s)) as Hk.
  { intros E. apply Hn. rewrite <- E. unfold keys. by apply (list_elem_of_fmap_2 (instance_key ∘ dp_ID)). }
  split; intros E; apply Hk, instance_tags_inj; auto.
Qed.

Lemma ensure_fresh s l : instance_key (dp_ID s) ∉ keys l →
  ensure_ins s (inbounds_of l) = inbounds_of (l ++ enabled_specs [s]) ∧
  ensure_outs s (selectors_of l) = selectors_of (l ++ enabled_specs [s]) ∧
  ensure_rules s (rules_of l) = rules_of (l ++ enabled_specs [s]).
Proof.
  intros Hn%others_tags. unfold ensure_ins, ensure_outs, ensure_rules, enabled_specs, inbounds_of, selectors_of, rules_of.
  rewrite filter_cons, filter_nil.
  assert (drop_objects is_awg ((JObject ∘ instance_selector) <$> l) = (JObject ∘ instance_selector) <$> l) as Ha.
  { apply drop_none, Forall_fmap, Forall_forall. intros s' _. unfold compose, is_awg. rewrite instance_selector_tag.
    apply selector_not_awg, selector_of_ours. }
  assert (drop_objects (inbound_is (inbound_of (dp_ID s))) (reverse ((JObject ∘ rule_of) <$> l)) =
    reverse ((JObject ∘ rule_of) <$> l)) as Hr.
  { apply drop_none, Forall_reverse, Forall_fmap. eapply Forall_impl; [exact Hn|]. intros s' [Hne _].
    apply String.eqb_neq. exact Hne. }
  rewrite Hr. destruct (dp_Enabled s); [rewrite decide_True by done|rewrite decide_False by done; rewrite app_nil_r].
  - rewrite !fmap_app, reverse_app. unfold upsert_in, upsert_out. rewrite Ha, !replace_tagged_None, insert_no_direct; [done|..].
    + apply Forall_fmap, Forall_forall. intros s' _. apply String.eqb_neq. apply selector_not_awg, selector_of_ours.
    + apply Forall_fmap. eapply Forall_impl; [exact Hn|]. intros s' [_ Hne]. apply String.eqb_neq, Hne.
    + apply Forall_fmap. eapply Forall_impl; [exact Hn|]. intros s' [Hne _]. apply String.eqb_neq, Hne.
  - assert (∀ s', inbound_of (dp_ID s') ≠ inbound_of (dp_ID s) ∧ selector_of (dp_ID s') ≠ selector_of (dp_ID s) →
      tagged (inbound_of (dp_ID s)) (instance_inbound s') = false ∧ tagged (selector_of (dp_ID s)) (instance_selector s') = false) as Ht.
    { intros s' [? ?]. by split; apply String.eqb_neq. }
    split; [|split; [|done]].
    + apply drop_none, Forall_fmap. eapply Forall_impl; [exact Hn|]. intros s' H. by apply Ht.
    + rewrite (drop_none (tagged _)); [exact Ha|]. apply Forall_fmap. eapply Forall_impl; [exact Hn|]. intros s' H. by apply Ht.
Qed.

Lemma ensure_all_arrays specs c l : NoDup (keys (l ++ specs)) → arrays c (inbounds_of l) (selectors_of l) (rules_of l) →
  ∃ c', ensure_all specs c = Some c' ∧
    let l' := l ++ enabled_specs specs in arrays c' (inbounds_of l') (selectors_of l') (rules_of l').
Proof.
  revert c l. induction specs as [|s specs IH]; intros c l Hn Har; cbn [ensure_all].
  { exists c. unfold enabled_specs. by rewrite filter_nil, app_nil_r. }
  assert (instance_key (dp_ID s) ∉ keys l) as Hs.
  { unfold keys in *. rewrite fmap_app, fmap_cons in Hn. apply NoDup_app in Hn as (_ & Hn & _). intros Hin. apply (Hn _ Hin). by left. }
  destruct (ensure_fresh s l Hs) as (E1 & E2 & E3).
  destruct (ensure_arrays s c _ _ _ Har) as (c1 & -> & A1). cbn [mbind option_bind]. rewrite E1, E2, E3 in A1.
  destruct (IH c1 (l ++ enabled_specs [s])) as (c2 & E & A2); [|exact A1|].
  - eapply sublist_NoDup; [exact Hn|]. unfold keys. apply fmap_sublist. unfold enabled_specs. rewrite filter_cons, filter_nil.
    rewrite <- (assoc_L (++)). apply sublist_app; [done|]. case_decide; [done|]. by apply sublist_cons.
  - exists c2. split; [done|]. unfold enabled_specs in *. rewrite <- (assoc_L (++)) in A2. cbn zeta in A2.
    rewrite filter_cons in A2 |- *. rewrite filter_nil in A2. by case_decide.
Qed.

(** ** What is extracted *)

Definition json_tag (v : json) : string := match v with JObject fs => tag_of fs | _ => "" end.
Definition keep_objects (p : obj → bool) (l : list json) : list json :=
  List.filter (λ v, match v with JObject fs => p fs | _ => false end) l.
Definition proxy_inbound (ob : obj) : bool := isDeviceProxyInboundTag (tag_of ob).
Definition proxy_selector (ob : obj) : bool := isDeviceProxySelectorTag (tag_of ob).
Definition proxy_rule (r : obj) : bool := isDeviceProxyInboundTag (as_string (obj_get "inbound" r)).

Lemma keep_cons p v l : keep_objects p (v :: l) =
  match v with JObject fs => if p fs then [v] else [] | _ => [] end ++ keep_objects p l.
Proof. unfold keep_objects. cbn [List.filter]. destruct v; try done. by destruct (p fields). Qed.

Lemma fresh_tag l fs : NoDup (json_tag <$> l ++ [JObject fs]) → tag_of fs ≠ "" → Forall (λ v, has_tag (tag_of fs) v = false) l.
Proof.
  rewrite fmap_app. intros (_ & Hd & _)%NoDup_app Hn. apply Forall_forall. intros v Hv.
  assert (json_tag v ≠ tag_of fs) as Hne.
  { intros E. apply (Hd (json_tag v)); [by apply list_elem_of_fmap_2|]. rewrite E. by left. }
  destruct v; try done. by apply String.eqb_neq.
Qed.

Lemma ours_nonempty t : isDeviceProxyInboundTag t = true ∨ isDeviceProxySelectorTag t = true → t ≠ "".
Proof. by intros [H|H] ->. Qed.

Lemma collect_inbounds l c ins outs rules : arrays c ins outs rules → NoDup (json_tag <$> ins ++ keep_objects proxy_inbound l) →
  ∃ c', for_objects (λ ib out, if isDeviceProxyInboundTag (tag_of ib) then upsertInbound (tag_of ib) ib out else Some out) l c = Some c' ∧
    arrays c' (ins ++ keep_objects proxy_inbound l) outs rules.
Proof.
  revert c ins. induction l as [|v l IH]; intros c ins Har Hn; [exists c; by rewrite app_nil_r|].
  rewrite keep_cons in Hn |- *. destruct v as [| | | | |fs]; [by apply IH..|]. cbn [for_objects].
  change (isDeviceProxyInboundTag (tag_of fs)) with (proxy_inbound fs). destruct (proxy_inbound fs) eqn:Ep; [|by apply IH].
  rewrite (assoc_L (++)) in Hn |- *. destruct (upsertInbound_arrays (tag_of fs) fs _ _ _ _ Har) as (c1 & -> & A1). cbn [mbind option_bind].
  unfold upsert_in in A1. rewrite replace_tagged_None in A1; [by apply IH|].
  apply fresh_tag; [rewrite fmap_app in Hn; by apply NoDup_app in Hn as [? _]|apply ours_nonempty; by left].
Qed.

Lemma collect_outbounds l c ins outs rules : arrays c ins outs rules → Forall (λ v, has_tag "direct" v = false) outs →
  NoDup (json_tag <$> outs ++ keep_objects proxy_selector l) →
  ∃ c', for_objects (λ ob out, if isDeviceProxySelectorTag (tag_of ob) then upsertOutbound (tag_of ob) ob out else Some out) l c = Some c' ∧
    arrays c' ins (outs ++ keep_objects proxy_selector l) rules.
Proof.
  revert c outs. induction l as [|v l IH]; intros c outs Har Hd Hn; [exists c; by rewrite app_nil_r|].
  rewrite keep_cons in Hn |- *. destruct v as [| | | | |fs]; [by apply IH..|]. cbn [for_objects].
  change (isDeviceProxySelectorTag (tag_of fs)) with (proxy_selector fs). destruct (proxy_selector fs) eqn:Ep; [|by apply IH].
  rewrite (assoc_L (++)) in Hn |- *. destruct (upsertOutbound_arrays (tag_of fs) fs _ _ _ _ Har) as (c1 & -> & A1). cbn [mbind option_bind].
  unfold upsert_out in A1. rewrite replace_tagged_None, insert_no_direct in A1; [|done|].
  - apply IH; [done| |done]. apply Forall_app. split; [done|]. apply Forall_singleton. apply String.eqb_neq. by apply selector_not_awg.
  - apply fresh_tag; [rewrite fmap_app in Hn; by apply NoDup_app in Hn as [? _]|apply ours_nonempty; by right].
Qed.

Lemma collect_rules l c ins outs rules : arrays c ins outs rules →
  ∃ c', for_objects (λ r out, if isDeviceProxyInboundTag (as_string (obj_get "inbound" r))
                              then setRouteRules (routeRules out ++ [JObject r]) out else Some out) l c = Some c' ∧
    arrays c' ins outs (rules ++ keep_objects proxy_rule l).
Proof.
  revert c rules. induction l as [|v l IH]; intros c rules Har; [exists c; by rewrite app_nil_r|].
  rewrite keep_cons. destruct v as [| | | | |fs]; [by apply IH..|]. cbn [for_objects].
  change (isDeviceProxyInboundTag (as_string (obj_get "inbound" fs))) with (proxy_rule fs). destruct (proxy_rule fs); [|by apply IH].
  rewrite (assoc_L (++)). array_step. by apply IH.
Qed.

Lemma extract_arrays c ins outs rules : arrays c ins outs rules →
  NoDup (json_tag <$> keep_objects proxy_inbound ins) → NoDup (json_tag <$> keep_objects proxy_selector outs) →
  ∃ c', ExtractDeviceProxy c = Some c' ∧
    arrays c' (keep_objects proxy_inbound ins) (keep_objects proxy_selector outs) (keep_objects proxy_rule rules).
Proof.
  intros (Ri & Ro & Rr)%arrays_read Hi Ho. unfold ExtractDeviceProxy. rewrite Ri, Ro, Rr.
  assert (arrays NewConfig [] [] []) as A0 by (split; [done|done|by eexists]).
  destruct (collect_inbounds ins _ _ _ _ A0 Hi) as (c1 & -> & A1). cbn [mbind option_bind].
  destruct (collect_outbounds outs _ _ _ _ A1) as (c2 & -> & A2); [constructor|done|]. cbn [mbind option_bind].
  apply (collect_rules rules _ _ _ _ A2).
Qed.

Lemma keep_all p l : Forall (λ v, ∃ fs, v = JObject fs ∧ p fs = true) l → keep_objects p l = l.
Proof. induction 1 as [|v l (fs & -> & Hp) _ IH]; [done|]. by rewrite keep_cons, Hp, IH. Qed.

Lemma NoDup_finer {A B C} (f : A → B) (g : A → C) l : NoDup (g <$> l) → (∀ x y, f x = f y → g x = g y) → NoDup (f <$> l).
Proof.
  intros Hn Hfg. induction l as [|x l IH]; [constructor|]. rewrite !fmap_cons in *. apply NoDup_cons in Hn as [Hx Hn].
  constructor; [|by apply IH]. intros (y & E & Hy)%list_elem_of_fmap. apply Hx. rewrite (Hfg _ _ E). by apply list_elem_of_fmap_2.
Qed.

(** C27: The slot of the device proxy holds exactly the inbound, the selector and the rule
    of every enabled instance, in order; it is built whatever the instances are, as long
    as their identifiers differ ([""] counting as [default]). *)
Theorem instances_built (specs : list DeviceProxyInstanceSpec) (Hn : NoDup (keys specs)) :
  ∃ c, BuildDeviceProxyInstancesConfig specs = Some c ∧
    arrays c (inbounds_of (enabled_specs specs)) (selectors_of (enabled_specs specs)) (rules_of (enabled_specs specs)).
Proof.
  assert (arrays NewConfig [] [] []) as A0 by (split; [done|done|by eexists]).
  destruct (ensure_all_arrays specs NewConfig [] Hn A0) as (c1 & E1 & A1). cbn [app] in A1.
  unfold BuildDeviceProxyInstancesConfig. rewrite E1. cbn [mbind option_bind].
  set (l := enabled_specs specs) in *.
  assert (NoDup (keys l)) as Hl.
  { eapply sublist_NoDup; [exact Hn|]. unfold keys, l. apply fmap_sublist, sublist_filter. }
  assert (keep_objects proxy_inbound (inbounds_of l) = inbounds_of l ∧ keep_objects proxy_selector (selectors_of l) = selectors_of l ∧
    keep_objects proxy_rule (rules_of l) = rules_of l) as (Ki & Ko & Kr).
  { split_and!; apply keep_all; [apply Forall_fmap|apply Forall_fmap|apply Forall_reverse, Forall_fmap]; apply Forall_forall; intros s _;
      eexists; (split; [done|]); [apply inbound_of_ours|apply selector_of_ours|apply inbound_of_ours]. }
  assert (NoDup (json_tag <$> inbounds_of l) ∧ NoDup (json_tag <$> selectors_of l)) as [Ni No].
  { unfold inbounds_of, selectors_of. rewrite <- !list_fmap_compose. unfold keys in Hl. clear -Hl.
    split; (eapply NoDup_finer; [exact Hl|]); cbn; intros s s' E; apply instance_tags_inj; auto. }
  destruct (extract_arrays c1 _ _ _ A1) as (c2 & E2 & A2); [by rewrite Ki|by rewrite Ko|]. exists c2. split; [done|].
  by rewrite Ki, Ko, Kr in A2.
Qed.

(** ** Putting an instance in and taking it out *)

Lemma drop_cons_eq p v l : drop_objects p (v :: l) =
  match v with JObject fs => if p fs then [] else [v] | _ => [v] end ++ drop_objects p l.
Proof. unfold drop_objects. cbn [List.filter]. destruct v; try done. by destruct (p fields). Qed.

Lemma drop_app p l l' : drop_objects p (l ++ l') = drop_objects p l ++ drop_objects p l'.
Proof. apply List.filter_app. Qed.

Lemma drop_comm p q l : drop_objects p (drop_objects q l) = drop_objects q (drop_objects p l).
Proof.
  induction l as [|v l IH]; [done|]. rewrite !drop_cons_eq, !drop_app, IH. f_equal.
  destruct v; try done. destruct (p fields) eqn:Ep, (q fields) eqn:Eq; rewrite ?drop_cons_eq, ?Ep, ?Eq; done.
Qed.

Definition without (p : obj → bool) (l : list json) : Prop :=
  Forall (λ v, match v with JObject fs => p fs = false | _ => True end) l.

Lemma without_drop p l : without p (drop_objects p l).
Proof.
  apply Forall_forall. intros v Hv. unfold drop_objects in Hv.
  apply list_elem_of_In, filter_In in Hv as [_ Hv]. destruct v; try done. by apply negb_true_iff.
Qed.

Lemma drop_idem p l : drop_objects p (drop_objects p l) = drop_objects p l.
Proof. apply drop_none, without_drop. Qed.

Lemma drop_replaced tag ob l l' : tag_of ob = tag → replace_tagged tag ob l = Some l' →
  drop_objects (tagged tag) l' = drop_objects (tagged tag) l ∧ replace_tagged tag ob l' = Some l'.
Proof.
  intros Ht. assert (tagged tag ob = true) as Hb by (by apply String.eqb_eq).
  revert l'. induction l as [|v l IH]; intros l' E; [done|]. cbn [replace_tagged] in E. rewrite !drop_cons_eq.
  destruct v as [| | | | |fs].
  1-5: destruct (replace_tagged tag ob l) as [l1|]; [|done]; injection E as <-; destruct (IH l1 eq_refl) as [I1 I2];
    rewrite drop_cons_eq, I1; cbn [replace_tagged]; by rewrite I2.
  destruct (String.eqb (tag_of fs) tag) eqn:Ef.
  - injection E as <-. rewrite drop_cons_eq, Hb, (Ef : tagged tag fs = true). split; [done|]. cbn [replace_tagged].
    by rewrite (proj2 (String.eqb_eq (tag_of ob) tag) Ht).
  - destruct (replace_tagged tag ob l) as [l1|]; [|done]; injection E as <-. destruct (IH l1 eq_refl) as [I1 I2].
    rewrite drop_cons_eq, I1. cbn [replace_tagged]. by rewrite Ef, I2.
Qed.

Lemma replace_appended tag ob l l' : tag_of ob = tag → replace_tagged tag ob l = None →
  replace_tagged tag ob (l ++ JObject ob :: l') = Some (l ++ JObject ob :: l').
Proof.
  intros Ht. induction l as [|v l IH]; intros E.
  - cbn. by rewrite (proj2 (String.eqb_eq (tag_of ob) tag) Ht).
  - cbn [replace_tagged app] in *. destruct v as [| | | | |fs]; [by destruct (replace_tagged tag ob l); [|rewrite IH]..|].
    destruct (String.eqb (tag_of fs) tag); [done|]. by destruct (replace_tagged tag ob l); [|rewrite IH].
Qed.

Lemma insert_split ob l : ∃ l1 l2, l = l1 ++ l2 ∧ insert_before_direct ob l = l1 ++ JObject ob :: l2.
Proof.
  induction l as [|v l (l1 & l2 & -> & E)]; [by exists [], []|]. cbn [insert_before_direct].
  destruct (has_tag "direct" v); [by exists [], (v :: l1 ++ l2)|]. exists (v :: l1), l2. by rewrite E.
Qed.

Lemma replace_None_prefix tag ob l1 l2 : replace_tagged tag ob (l1 ++ l2) = None → replace_tagged tag ob l1 = None.
Proof.
  induction l1 as [|v l1 IH]; [done|]. cbn [replace_tagged app]. destruct v as [| | | | |fs].
  1-5: destruct (replace_tagged tag ob (l1 ++ l2)); [done|]; by rewrite IH.
  destruct (String.eqb (tag_of fs) tag); [done|]. destruct (replace_tagged tag ob (l1 ++ l2)); [done|]. by rewrite IH.
Qed.

Lemma upsert_in_laws tag ob l : tag_of ob = tag →
  drop_objects (tagged tag) (upsert_in tag ob l) = drop_objects (tagged tag) l ∧
  upsert_in tag ob (upsert_in tag ob l) = upsert_in tag ob l.
Proof.
  intros Ht. assert (tagged tag ob = true) as Hb by (by apply String.eqb_eq). unfold upsert_in.
  destruct (replace_tagged tag ob l) as [l'|] eqn:E; cbn [from_option id].
  - destruct (drop_replaced tag ob l l' Ht E) as [-> ->]. done.
  - rewrite drop_app, drop_cons_eq, Hb, replace_appended by done. split; [by rewrite !app_nil_r|done].
Qed.

Lemma upsert_out_laws tag ob l : tag_of ob = tag →
  drop_objects (tagged tag) (upsert_out tag ob l) = drop_objects (tagged tag) l ∧
  upsert_out tag ob (upsert_out tag ob l) = upsert_out tag ob l.
Proof.
  intros Ht. assert (tagged tag ob = true) as Hb by (by apply String.eqb_eq). unfold upsert_out.
  destruct (replace_tagged tag ob l) as [l'|] eqn:E; cbn [from_option id].
  - destruct (drop_replaced tag ob l l' Ht E) as [-> ->]. done.
  - destruct (insert_split ob l) as (l1 & l2 & -> & ->). apply replace_None_prefix in E.
    rewrite !drop_app, drop_cons_eq, Hb, replace_appended by done. done.
Qed.

Lemma without_upsert_out p tag ob l : p ob = false → without p l → without p (upsert_out tag ob l).
Proof.
  intros Hp Hl. unfold upsert_out. destruct (replace_tagged tag ob l) as [l'|] eqn:E; cbn [from_option id].
  - revert l' E. induction Hl as [|v l Hv Hl IH]; intros l' E; [done|]. cbn [replace_tagged] in E.
    destruct v as [| | | | |fs]; [by destruct (replace_tagged tag ob l); [injection E as <-; constructor; [|apply IH]|]..|].
    destruct (String.eqb (tag_of fs) tag); [injection E as <-; by constructor|].
    destruct (replace_tagged tag ob l); [injection E as <-; constructor; [done|by apply IH]|done].
  - destruct (insert_split ob l) as (l1 & l2 & -> & ->). apply Forall_app in Hl as [? ?]. apply Forall_app. split; [done|]. by constructor.
Qed.

Lemma ensure_ins_laws s l :
  ensure_ins s (ensure_ins s l) = ensure_ins s l ∧
  drop_objects (tagged (inbound_of (dp_ID s))) (ensure_ins s l) = drop_objects (tagged (inbound_of (dp_ID s))) l.
Proof.
  unfold ensure_ins. destruct (dp_Enabled s); [|by rewrite !drop_idem].
  by destruct (upsert_in_laws _ _ l (instance_inbound_tag s)) as [-> ->].
Qed.

Lemma ensure_outs_laws s l :
  ensure_outs s (ensure_outs s l) = ensure_outs s l ∧
  drop_objects is_awg (drop_objects (tagged (selector_of (dp_ID s))) (ensure_outs s l)) =
    drop_objects is_awg (drop_objects (tagged (selector_of (dp_ID s))) l).
Proof.
  unfold ensure_outs. set (t := selector_of (dp_ID s)). destruct (dp_Enabled s).
  - set (l1 := drop_objects is_awg l). destruct (upsert_out_laws _ _ l1 (instance_selector_tag s)) as [U1 U2]. fold t in U1, U2.
    rewrite (drop_none is_awg (upsert_out t _ l1)), U1, U2.
    + split; [done|]. unfold l1. by rewrite (drop_comm (tagged t) is_awg l), drop_idem.
    + apply without_upsert_out; [|apply without_drop]. apply selector_not_awg, selector_of_ours.
  - rewrite (drop_comm (tagged t) is_awg (drop_objects (tagged t) l)), !drop_idem. done.
Qed.

Lemma ensure_rules_laws s l :
  ensure_rules s (ensure_rules s l) = ensure_rules s l ∧
  drop_objects (inbound_is (inbound_of (dp_ID s))) (ensure_rules s l) = drop_objects (inbound_is (inbound_of (dp_ID s))) l.
Proof.
  unfold ensure_rules. assert (inbound_is (inbound_of (dp_ID s)) (rule_of s) = true) as Hr by apply String.eqb_refl.
  destruct (dp_Enabled s); rewrite ?drop_cons_eq, ?Hr; cbn [app]; by rewrite !drop_idem.
Qed.

(** Two documents with the same arrays. *)
Definition agree (c c' : Config) : Prop := ∃ ins outs rules, arrays c ins outs rules ∧ arrays c' ins outs rules.

(** Writing an instance of the device proxy twice is writing it once, and removing it
    gives what removing it without writing it gives, whatever the document is. *)
Theorem ensure_remove_laws (s : DeviceProxyInstanceSpec) (c : Config) ins outs rules (Har : arrays c ins outs rules) :
  ∃ c1 c2 c3 c4, EnsureDeviceProxyInstance s c = Some c1 ∧ EnsureDeviceProxyInstance s c1 = Some c2 ∧ agree c1 c2 ∧
    RemoveDeviceProxyInstance (dp_ID s) c1 = Some c3 ∧ RemoveDeviceProxyInstance (dp_ID s) c = Some c4 ∧ agree c3 c4.
Proof.
  destruct (ensure_arrays s c _ _ _ Har) as (c1 & E1 & A1). destruct (ensure_arrays s c1 _ _ _ A1) as (c2 & E2 & A2).
  destruct (remove_arrays (dp_ID s) c1 _ _ _ A1) as (c3 & E3 & A3). destruct (remove_arrays (dp_ID s) c _ _ _ Har) as (c4 & E4 & A4).
  destruct (ensure_ins_laws s ins) as [I1 I2], (ensure_outs_laws s outs) as [O1 O2], (ensure_rules_laws s rules) as [R1 R2].
  exists c1, c2, c3, c4. split_and!; [done|done| |done|done|]; eexists _, _, _.
  - split; [exact A1|]. by rewrite I1, O1, R1 in A2.
  - split; [|exact A4]. by rewrite I2, O2, R2 in A3.
Qed.
