(* ===== verification/SbBoot.v ===== *)
(** * The configuration directory at start-up ([singbox/config.go], [operator_baseconfig.go], [deviceproxy_migrate.go])

    The migrations and repairs that [NewOperator] and the wiring run on [config.json] and
    [config.d] before the daemon starts.  Every access to a file may fail ([bfaults]); an
    error of a repair is ignored, as in the source.  A step answers whether it panicked. *)
From S2P Require Import Prelude GoLib GoText SbJson SbTunnels SbDeviceProxy.

(** ** The disk *)

Record Disk := {
  legacy : option content;                  (* [config.json] *)
  confd : option (gmap string content);     (* the files of [config.d], if it exists *)
  bfaults : list bool;                      (* the outcome of the coming accesses, [true] for an error *)
}.

Definition set_legacy v (d : Disk) : Disk := {| legacy := v; confd := confd d; bfaults := bfaults d |}.
Definition set_confd v (d : Disk) : Disk := {| legacy := legacy d; confd := v; bfaults := bfaults d |}.

Abbreviation B := (ST Disk).

Definition bfault : B bool := λ d,
  match bfaults d with
  | [] => (false, d)
  | b :: bs => (b, {| legacy := legacy d; confd := confd d; bfaults := bs |})
  end.

Definition slots_of (d : Disk) : gmap string content := default ∅ (confd d).

(** [os.ReadFile] in [config.d]: an error, no such file, or its bytes. *)
Definition read_slot (name : string) : B (string + option content) :=
  bad ← bfault; d ← gets id; mret (if (bad : bool) then inl "read" else inr (slots_of d !! name)).

(** [storage.AtomicWrite], which makes the directory. *)
Definition write_slot (name : string) (c : content) : B (option string) :=
  bad ← bfault;
  if (bad : bool) then mret (Some "write")
  else _ ← modify (λ d, set_confd (Some (<[name := c]> (slots_of d))) d); mret None.
Definition writeJSONFile (name : string) (m : obj) : B (option string) := write_slot name (MarshalIndent (JObject m)).

Definition mkdir_confd : B (option string) :=
  bad ← bfault;
  if (bad : bool) then mret (Some "mkdir") else _ ← modify (λ d, set_confd (Some (slots_of d)) d); mret None.

Definition remove_legacy : B (option string) :=
  bad ← bfault; if (bad : bool) then mret (Some "remove") else _ ← modify (set_legacy None); mret None.

(** [os.Stat(...)] succeeds. *)
Definition stat_confd : B bool := bad ← bfault; d ← gets id; mret (negb bad && bool_decide (is_Some (confd d))).
Definition stat_slot (name : string) : B bool :=
  bad ← bfault; d ← gets id; mret (negb bad && bool_decide (is_Some (slots_of d !! name))).

Definition base_file : string := "00-base.json".
Definition tunnels_file : string := "10-tunnels.json".
Definition router_file : string := "20-router.json".
Definition deviceproxy_file : string := "30-deviceproxy.json".

(** ** The split of the single file *)

Definition pick (keys : list string) (m : obj) : obj := omap (λ k, pair k <$> obj_get k m) keys.

Definition MigrateLegacyConfigDir : B (option string) :=
  here ← stat_confd;
  if (here : bool) then mret None
  else
    bad ← bfault; d ← gets id;
    if (bad : bool) then mret (Some "read")
    else
      match legacy d with
      | None => mkdir_confd
      | Some raw =>
          match unmarshal_map raw with
          | None => mret (Some "parse legacy config")
          | Some cfg =>
              let cfg := default [] cfg in
              check id mkdir_confd
                (check id (writeJSONFile base_file (pick ["log"; "experimental"; "dns"] cfg))
                  (check id (writeJSONFile tunnels_file (pick ["inbounds"; "outbounds"; "route"] cfg))
                    remove_legacy))
          end
      end.

(** ** Repairs of one file *)

Inductive patch := Skip | Rewrite (m : obj) | Panics.

(** [m[k] = v] before the file is written. *)
Definition store (k : string) (v : json) (m : option obj) : patch :=
  match m with Some m => Rewrite (obj_put k v m) | None => Panics end.

Definition patch_slot (name : string) (f : option obj → patch) : B bool :=
  r ← read_slot name;
  match r with
  | inr (Some data) =>
      match unmarshal_map data with
      | Some m =>
          match f m with
          | Skip => mret false
          | Rewrite m => _ ← writeJSONFile name m; mret false
          | Panics => mret true
          end
      | None => mret false
      end
  | _ => mret false
  end.

Definition field (k : string) (m : option obj) : option json := m ≫= obj_get k.
Definition field_object (k : string) (m : option obj) : option obj := as_object (field k m).

Definition clashAPIAddr : string := "127.0.0.1:9099".
Definition defaultCacheDBPath : string := "/opt/etc/awg-manager/singbox/cache.db".
Definition legacyCacheFilePath : string := "/opt/etc/sing-box/cache.db".

Definition normalizeSingboxLogLevel `{GoUnicode} (v : string) : string :=
  let normalized := ToLower (TrimSpace v) in
  if bool_decide (normalized ∈ ["trace"; "debug"; "info"; "warn"; "error"; "fatal"; "panic"]) then normalized else "info".

Definition patchBaseClashPort (m : option obj) : patch :=
  match field_object "experimental" m with
  | None => Skip
  | Some exp =>
      match sub_object "clash_api" exp with
      | None => Skip
      | Some clash =>
          if String.eqb (as_string (obj_get "external_controller" clash)) clashAPIAddr then Skip
          else store "experimental" (JObject (obj_put "clash_api"
                 (JObject (obj_put "external_controller" (JString clashAPIAddr) clash)) exp)) m
      end
  end.

Definition patchBaseLogLevel `{GoUnicode} (desiredLevel : string) (m : option obj) : patch :=
  let desired := normalizeSingboxLogLevel desiredLevel in
  let block := default [] (field_object "log" m) in
  let same := String.eqb (as_string (obj_get "level" block)) desired in
  let stamped := match obj_get "timestamp" block with Some _ => true | None => false end in
  if same && stamped && match field_object "log" m with Some _ => true | None => false end then Skip
  else
    let block := if same then block else obj_put "level" (JString desired) block in
    let block := if stamped then block else obj_put "timestamp" (JBool true) block in
    store "log" (JObject block) m.

Definition patchBaseDomainResolver (m : option obj) : patch :=
  let route := default [] (field_object "route" m) in
  match obj_get "default_domain_resolver" route with
  | Some _ => Skip
  | None => store "route" (JObject (obj_put "default_domain_resolver" (JString "dns-bootstrap") route)) m
  end.

Definition patchBaseDNSStrategy (m : option obj) : patch :=
  match field_object "dns" m with
  | None => Skip
  | Some dns =>
      if String.eqb (as_string (obj_get "strategy" dns)) "ipv4_only"
      then store "dns" (JObject (obj_put "strategy" (JString "prefer_ipv4") dns)) m
      else Skip
  end.

Definition direct_outbound : json := JObject [("type", JString "direct"); ("tag", JString "direct")].

Fixpoint index_of (p : json → bool) (l : list json) : option nat :=
  match l with
  | [] => None
  | v :: l => if p v then Some 0%nat else S <$> index_of p l
  end.

Definition patchBaseDirectOutbound (m : option obj) : patch :=
  let obs := as_array (field "outbounds" m) in
  match index_of (has_tag "direct") obs with
  | Some O => Skip
  | Some i =>
      match obs !! i with
      | Some direct => store "outbounds" (JArray (direct :: take i obs ++ drop (S i) obs)) m
      | None => Skip (* the index is in range *)
      end
  | None => store "outbounds" (JArray (direct_outbound :: obs)) m
  end.

Definition patchBaseCacheFilePath (m : option obj) : patch :=
  match field_object "experimental" m with
  | None => Skip
  | Some exp =>
      match sub_object "cache_file" exp with
      | None => store "experimental" (JObject (obj_put "cache_file"
                  (JObject [("enabled", JBool true); ("path", JString defaultCacheDBPath)]) exp)) m
      | Some cf =>
          let path := as_string (obj_get "path" cf) in
          if String.eqb path "" || negb (HasPrefix path "/") || String.eqb path legacyCacheFilePath
          then store "experimental" (JObject (obj_put "cache_file"
                 (JObject (obj_put "path" (JString defaultCacheDBPath) cf)) exp)) m
          else Skip
      end
  end.

Definition removeFinalFromBase (m : option obj) : patch :=
  match field_object "route" m with
  | None => Skip
  | Some route =>
      match obj_get "final" route with
      | None => Skip
      | Some _ => store "route" (JObject (obj_delete "final" route)) m
      end
  end.

Definition strategy_set `{GoUnicode} (m : option obj) : bool :=
  match field_object "dns" m with
  | None => false
  | Some dns => negb (String.eqb (TrimSpace (as_string (obj_get "strategy" dns))) "")
  end.
Definition routerOwnsDNSStrategy `{GoUnicode} : B bool :=
  r ← read_slot router_file;
  mret match r with
       | inr (Some data) => match unmarshal_map data with Some m => strategy_set m | None => false end
       | _ => false
       end.

(** [owned] is what [routerOwnsDNSStrategy] answers. *)
Definition dns_final_patch (owned : bool) (m : option obj) : patch :=
  match field_object "dns" m with
  | None => Skip
  | Some dns =>
      let had_final := match obj_get "final" dns with Some _ => true | None => false end in
      let strip := match obj_get "strategy" dns with Some _ => owned | None => false end in
      if had_final || strip
      then store "dns" (JObject ((if strip then obj_delete "strategy" else id) (obj_delete "final" dns))) m
      else Skip
  end.

(** The router's slot is read when the base has a strategy to remove. *)
Definition removeDNSFinalFromBase `{GoUnicode} : B bool :=
  r ← read_slot base_file;
  match r with
  | inr (Some data) =>
      match unmarshal_map data with
      | Some m =>
          owned ← match field_object "dns" m ≫= obj_get "strategy" with
                  | Some _ => routerOwnsDNSStrategy
                  | None => mret false
                  end;
          match dns_final_patch owned m with
          | Rewrite m => _ ← writeJSONFile base_file m; mret false
          | Panics => mret true
          | Skip => mret false
          end
      | None => mret false
      end
  | _ => mret false
  end.

(** ** The base file *)

Definition freshBaseConfigWithLogLevel `{GoUnicode} (logLevel : string) : obj := [
  ("log", JObject [("level", JString (normalizeSingboxLogLevel logLevel)); ("timestamp", JBool true)]);
  ("experimental", JObject [
    ("clash_api", JObject [("external_controller", JString clashAPIAddr)]);
    ("cache_file", JObject [("enabled", JBool true); ("path", JString defaultCacheDBPath)])]);
  ("dns", JObject [
    ("strategy", JString "prefer_ipv4");
    ("servers", JArray [JObject [("type", JString "udp"); ("tag", JString "dns-bootstrap"); ("server", JString "1.1.1.1")]])]);
  ("outbounds", JArray [direct_outbound]);
  ("route", JObject [("default_domain_resolver", JString "dns-bootstrap")])].

(** Steps in order, up to one that panics. *)
Fixpoint run_steps (steps : list (B bool)) : B bool :=
  match steps with
  | [] => mret false
  | s :: steps => p ← s; if (p : bool) then mret true else run_steps steps
  end.

Definition ensureBaseConfigWithLogLevel `{GoUnicode} (desiredLogLevel : string) : B bool :=
  here ← stat_slot base_file;
  if (here : bool) then
    run_steps (patch_slot base_file <$>
      [patchBaseClashPort; patchBaseLogLevel desiredLogLevel; patchBaseDomainResolver; patchBaseDirectOutbound;
       patchBaseCacheFilePath; patchBaseDNSStrategy])
  else
    _ ← mkdir_confd; _ ← writeJSONFile base_file (freshBaseConfigWithLogLevel desiredLogLevel); mret false.

(** ** The slot of the tunnels *)

Definition is_direct_placeholder (ob : obj) : bool :=
  String.eqb (as_string (obj_get "type" ob)) "direct" && String.eqb (tag_of ob) "direct".
Definition filterOutDirectPlaceholder : list json → list json := drop_objects is_direct_placeholder.

Definition filterOutDeviceProxyTags : list json → list json := drop_objects (λ m, HasPrefix (tag_of m) "device-proxy").

Definition mentionsDeviceProxy (v : option json) : bool :=
  let one v := match v with JString s => HasPrefix s "device-proxy" | _ => false end in
  match v with
  | Some (JArray l) => existsb one l
  | Some v => one v
  | None => false
  end.
Definition filterOutDeviceProxyRouteRules : list json → list json :=
  drop_objects (λ r, mentionsDeviceProxy (obj_get "inbound" r) || mentionsDeviceProxy (obj_get "outbound" r)).

Definition filterOutOurDNSServers : list json → list json :=
  drop_objects (λ s, bool_decide (tag_of s ∈ ["dns-bootstrap"; "dns-doh"])).

(** The slot that is made of the single file. *)
Definition legacy_slot (cfg : Config) : Config :=
  let dns_slot :=
    match as_object (raw_get "dns" cfg) with
    | None => []
    | Some dns =>
        let servers := filterOutOurDNSServers (as_array (obj_get "servers" dns)) in
        let rules := as_array (obj_get "rules" dns) in
        (if bool_decide (servers = []) then [] else [("servers", JArray servers)]) ++
        (if bool_decide (rules = []) then [] else [("rules", JArray rules)])
    end in
  {| raw := Some ([
      ("inbounds", JArray (filterOutDeviceProxyTags (inbounds cfg)));
      ("outbounds", JArray (filterOutDeviceProxyTags (filterOutDirectPlaceholder (outbounds cfg))));
      ("route", JObject [("rules", JArray (filterOutDeviceProxyRouteRules (routeRules cfg)))])] ++
      (if bool_decide (dns_slot = []) then [] else [("dns", JObject dns_slot)])) |}.

(** [Config.Save] to a slot. *)
Definition Save (name : string) (c : Config) : B (option string) :=
  write_slot name (MarshalIndent (MarshalJSON (ensureNaiveUDPOverTCPOutbounds c))).

Definition ensureLegacyConfigMigrated : B unit :=
  bad ← bfault; d ← gets id;
  if negb bad && bool_decide (is_Some (legacy d)) then
    there ← stat_slot tunnels_file;
    if (there : bool) then mret tt
    else
      bad ← bfault; d ← gets id;
      match (if (bad : bool) then None else legacy d ≫= unmarshal_map) with
      | None => mret tt
      | Some m =>
          e ← Save tunnels_file (legacy_slot {| raw := m |});
          match e with
          | Some _ => mret tt
          | None => _ ← remove_legacy; mret tt
          end
      end
  else mret tt.

(** The block [dns] of the slot without what the base owns, and whether it was changed;
    [None]: nothing is left. *)
Definition has_key (k : string) (m : obj) : bool := match obj_get k m with Some _ => true | None => false end.

Definition strip_dns (dns : obj) : bool * option obj :=
  let filtered := filterOutOurDNSServers (as_array (obj_get "servers" dns)) in
  let none := bool_decide (filtered = []) in
  if none && bool_decide (as_array (obj_get "rules" dns) = []) then (true, None)
  else
    let c1 := negb none || has_key "servers" dns in
    let dns := if none then obj_delete "servers" dns else obj_put "servers" (JArray filtered) dns in
    let c2 := bool_decide (as_string (obj_get "final" dns) ∈ ["dns-doh"; "dns-bootstrap"]) in
    let dns := if c2 then obj_delete "final" dns else dns in
    let c3 := bool_decide (as_string (obj_get "strategy" dns) ∈ ["prefer_ipv4"; "ipv4_only"]) in
    let dns := if c3 then obj_delete "strategy" dns else dns in
    if bool_decide (dns = []) then (true, None) else (c1 || c2 || c3, Some dns).

Definition patchTunnelsSlotStripBaseOwnedBlocks (m : option obj) : patch :=
  match m with
  | None => Skip
  | Some fs =>
      let has_log := has_key "log" fs in
      let fs1 := if has_log then obj_delete "log" fs else fs in
      match sub_object "dns" fs with
      | None => if has_log then Rewrite fs1 else Skip
      | Some dns =>
          match strip_dns dns with
          | (_, None) => Rewrite (obj_delete "dns" fs1)
          | (changed, Some dns) => if has_log || changed then Rewrite (obj_put "dns" (JObject dns) fs1) else Skip
          end
      end
  end.

Definition needs_naive (v : json) : bool :=
  match v with
  | JObject ob => String.eqb (strOr (obj_get "type" ob) "") "naive" && match obj_get "udp_over_tcp" ob with Some _ => false | None => true end
  | _ => false
  end.
Definition patchTunnelsSlotEnsureNaiveUDPOverTCP (m : option obj) : patch :=
  match m with
  | None => Skip
  | Some fs =>
      if existsb needs_naive (as_array (obj_get "outbounds" fs))
      then Rewrite (default fs (raw (ensureNaiveUDPOverTCPOutbounds {| raw := Some fs |}))) else Skip
  end.

Definition stray_patch (m : option obj) : patch :=
  let before := as_array (field "outbounds" m) in
  let after := filterOutDirectPlaceholder before in
  if (length after =? length before)%nat then Skip else store "outbounds" (JArray after) m.

Fixpoint stray_files (names : list string) : B bool :=
  match names with
  | [] => mret false
  | n :: names => p ← patch_slot n stray_patch; if (p : bool) then mret true else stray_files names
  end.
(** The files of the directory in the order of their names. *)
Definition slot_names (d : Disk) : list string :=
  filter (λ n, n ≠ base_file ∧ HasSuffix n ".json" = true) (merge_sort String.le (map_to_list (slots_of d)).*1).
Definition stripStrayDirectPlaceholder : B bool :=
  bad ← bfault; d ← gets id;
  if (bad : bool) then mret false else stray_files (slot_names d).

(** [NewOperator]: the error of the first step is only logged. *)
Definition boot `{GoUnicode} (settingsLogLevel : string) : B bool :=
  let desiredLogLevel := normalizeSingboxLogLevel settingsLogLevel in
  run_steps [
    (_ ← MigrateLegacyConfigDir; mret false);
    ensureBaseConfigWithLogLevel desiredLogLevel;
    (_ ← ensureLegacyConfigMigrated; mret false);
    patch_slot tunnels_file patchTunnelsSlotStripBaseOwnedBlocks;
    patch_slot tunnels_file patchTunnelsSlotEnsureNaiveUDPOverTCP;
    stripStrayDirectPlaceholder;
    patch_slot base_file removeFinalFromBase;
    removeDNSFinalFromBase].

(** ** The device proxy leaves the slot of the tunnels

    [None] is a panic. *)
Definition MigrateDeviceProxyOutOfTunnels : B (option (option string)) :=
  there ← stat_slot deviceproxy_file;
  if (there : bool) then mret (Some None)
  else
    r ← read_slot tunnels_file;
    match r with
    | inl _ => mret (Some (Some "read tunnels"))
    | inr None => mret (Some None)
    | inr (Some data) =>
        match UnmarshalJSON data with
        | inl _ => mret (Some (Some "parse tunnels"))
        | inr cfg =>
            if negb (HasDeviceProxy cfg) then mret (Some None)
            else
              match ExtractDeviceProxy cfg, RemoveDeviceProxy cfg with
              | Some extracted, Some stripped =>
                  e ← write_slot deviceproxy_file (MarshalIndent (MarshalJSON extracted));
                  match e with
                  | Some _ => mret (Some (Some "write deviceproxy"))
                  | None =>
                      e ← write_slot tunnels_file (MarshalIndent (MarshalJSON stripped));
                      mret (Some (match e with Some _ => Some "write tunnels" | None => None end))
                  end
              | _, _ => mret None
              end
        end
    end.
