(* ===== verification/SbBootProps.v ===== *)
(** * Start-up: what the repairs and the migrations leave behind

    The objects and files the repairs of the base file write, and the migration that
    gives the device proxy its own slot. *)
From S2P Require Import Prelude GoLib GoText SbJson SbTunnels SbTunnelsProps SbDeviceProxy SbDeviceProxyProps SbBoot.

(** ** Objects *)

Lemma obj_put_eq k v m : (∀ e, e ∈ m → e.1 = k → e.2 = v) → is_Some (obj_get k m) → obj_put k v m = m.
Proof.
  intros Hall [w Hw]. unfold obj_put. rewrite Hw. unfold obj_set. clear Hw. induction m as [|[k0 v0] m IH]; [done|]. cbn.
  destruct (String.eqb k0 k) eqn:E; [to_prop; subst k0|]; f_equal.
  - f_equal. symmetry. apply (Hall (k, v0)); [by left|done].
  - apply IH. intros e He. apply Hall. by right.
  - apply IH. intros e He. apply Hall. by right.
Qed.

(** Every entry of the key has the value. *)
Definition only (k : string) (v : json) (m : obj) : Prop := ∀ e, e ∈ m → e.1 = k → e.2 = v.

Lemma obj_get_None k (m : obj) : obj_get k m = None → ∀ e, e ∈ m → e.1 ≠ k.
Proof.
  unfold obj_get. intros Hn e He <-. destruct (List.find _ m) as [f|] eqn:E; [done|].
  apply list_elem_of_In in He. by apply (List.find_none _ _ E), String.eqb_neq in He.
Qed.

Lemma only_put k v m : only k v (obj_put k v m).
Proof.
  unfold only, obj_put. destruct (obj_get k m) eqn:E.
  - intros e (f & -> & Hf)%list_elem_of_fmap. destruct (String.eqb f.1 k) eqn:Ef; [done|]. by to_prop.
  - intros e [He|He%list_elem_of_singleton]%elem_of_app; [by intros ?%(obj_get_None _ _ E e He)|by subst].
Qed.

Lemma only_put_other k v k' v' m : k ≠ k' → only k v m → only k v (obj_put k' v' m).
Proof.
  unfold only, obj_put. intros Hne Ho. destruct (obj_get k' m).
  - intros e (f & -> & Hf)%list_elem_of_fmap. destruct (String.eqb f.1 k') eqn:Ef; [by intros <-|]. by apply Ho.
  - intros e [He|He%list_elem_of_singleton]%elem_of_app; [by apply Ho|subst; by intros <-].
Qed.

Lemma only_delete k v k' m : only k v m → only k v (obj_delete k' m).
Proof. intros Ho e [_ He]%list_elem_of_filter. by apply Ho. Qed.

Lemma obj_delete_none k m : obj_get k m = None → obj_delete k m = m.
Proof. intros Hn. apply list_filter_all, Forall_forall. by apply obj_get_None. Qed.

Lemma put_put k v m : obj_put k v (obj_put k v m) = obj_put k v m.
Proof. apply obj_put_eq; [apply only_put|]. rewrite obj_get_put_eq. by eexists. Qed.

(** ** A patch looks at one field *)

Definition skips (f : option obj → patch) (m : option obj) : Prop := f m = Skip.

(** What a patch does with a field [k] it looks at alone. *)
Definition looks_at (k : string) (f : option obj → patch) : Prop :=
  ∀ m m', field k m = field k m' → skips f m → skips f m'.

Ltac looks := intros m m' E; unfold skips, field_object; rewrite <- ?E; repeat (case_match; try done).

Section boot.
Context `{GoUnicode}.

Lemma clash_looks : looks_at "experimental" patchBaseClashPort.
Proof. unfold patchBaseClashPort, store. looks. Qed.
Lemma log_looks lvl : looks_at "log" (patchBaseLogLevel lvl).
Proof. unfold patchBaseLogLevel, store. looks. Qed.
Lemma resolver_looks : looks_at "route" patchBaseDomainResolver.
Proof. unfold patchBaseDomainResolver, store. looks. Qed.
Lemma strategy_looks : looks_at "dns" patchBaseDNSStrategy.
Proof. unfold patchBaseDNSStrategy, store. looks. Qed.
Lemma direct_looks : looks_at "outbounds" patchBaseDirectOutbound.
Proof. unfold patchBaseDirectOutbound, store. looks. Qed.
Lemma cache_looks : looks_at "experimental" patchBaseCacheFilePath.
Proof. unfold patchBaseCacheFilePath, store. looks. Qed.
Lemma final_looks : looks_at "route" removeFinalFromBase.
Proof. unfold removeFinalFromBase, store. looks. Qed.
Lemma dns_final_looks owned : looks_at "dns" (dns_final_patch owned).
Proof. unfold dns_final_patch, store. looks. Qed.

Definition writes (k : string) (f : option obj → patch) : Prop :=
  ∀ m m', f m = Rewrite m' → ∃ v fs, m = Some fs ∧ m' = obj_put k v fs.
Definition heals (f : option obj → patch) : Prop := ∀ m m', f m = Rewrite m' → skips f (Some m').
(** [p] leaves what [q] wants alone. *)
Definition keeps (p q : option obj → patch) : Prop := ∀ m m', p m = Rewrite m' → skips q m → skips q (Some m').

Lemma store_inv k v m m' : store k v m = Rewrite m' → ∃ fs, m = Some fs ∧ m' = obj_put k v fs.
Proof. destruct m as [fs|]; [|done]. intros [= <-]. by exists fs. Qed.

Ltac write_inv := intros m m' E; repeat (case_match; try done); apply store_inv in E as (fs & -> & ->); eauto.

Lemma clash_writes : writes "experimental" patchBaseClashPort.
Proof. unfold writes, patchBaseClashPort. write_inv. Qed.
Lemma log_writes lvl : writes "log" (patchBaseLogLevel lvl).
Proof. unfold writes, patchBaseLogLevel. write_inv. Qed.
Lemma resolver_writes : writes "route" patchBaseDomainResolver.
Proof. unfold writes, patchBaseDomainResolver. write_inv. Qed.
Lemma strategy_writes : writes "dns" patchBaseDNSStrategy.
Proof. unfold writes, patchBaseDNSStrategy. write_inv. Qed.
Lemma direct_writes : writes "outbounds" patchBaseDirectOutbound.
Proof. unfold writes, patchBaseDirectOutbound. write_inv. Qed.
Lemma cache_writes : writes "experimental" patchBaseCacheFilePath.
Proof. unfold writes, patchBaseCacheFilePath. write_inv. Qed.
Lemma final_writes : writes "route" removeFinalFromBase.
Proof. unfold writes, removeFinalFromBase. write_inv. Qed.
Lemma dns_final_writes owned : writes "dns" (dns_final_patch owned).
Proof. unfold writes, dns_final_patch. write_inv. Qed.

Lemma keeps_other k k' p q : writes k p → looks_at k' q → k ≠ k' → keeps p q.
Proof.
  intros Hp Hq Hne m m' (v & fs & -> & ->)%Hp Hs. eapply Hq; [|exact Hs]. cbn. symmetry. by apply obj_get_put_ne.
Qed.

Lemma field_put k v fs : field k (Some (obj_put k v fs)) = Some v.
Proof. apply obj_get_put_eq. Qed.

Lemma clash_heals : heals patchBaseClashPort.
Proof.
  unfold heals, patchBaseClashPort. intros m m' E. destruct (field_object "experimental" m) as [exp|]; [|done].
  destruct (sub_object "clash_api" exp) as [clash|]; [|done]. destruct (String.eqb _ _); [done|].
  apply store_inv in E as (fs & -> & ->). unfold skips, field_object. rewrite field_put. cbn [as_object].
  unfold sub_object. rewrite obj_get_put_eq. cbn [as_object]. by rewrite obj_get_put_eq.
Qed.

Lemma normalize_ne v : normalizeSingboxLogLevel v ≠ "".
Proof.
  unfold normalizeSingboxLogLevel. case_bool_decide as Hin; [|done]. intros E. rewrite E in Hin.
  by repeat (apply elem_of_cons in Hin as [Hin|Hin]; [done|]); apply elem_of_nil in Hin.
Qed.

Lemma log_heals lvl : heals (patchBaseLogLevel lvl).
Proof.
  unfold heals, patchBaseLogLevel. intros m m' E. set (block := default [] (field_object "log" m)) in *.
  set (lv := normalizeSingboxLogLevel lvl) in *.
  destruct (_ && _ && _); [done|]. apply store_inv in E as (fs & _ & ->).
  set (same := String.eqb (as_string (obj_get "level" block)) lv). set (st := match obj_get "timestamp" block with Some _ => true | _ => false end).
  set (b1 := if same then block else obj_put "level" (JString lv) block).
  set (b2 := if st then b1 else obj_put "timestamp" (JBool true) b1).
  assert (as_string (obj_get "level" b1) = lv) as H1 by (unfold b1, same; destruct (String.eqb _ _) eqn:E; [by to_prop|by rewrite obj_get_put_eq]).
  assert (as_string (obj_get "level" b2) = lv) as H2 by (unfold b2; destruct st; [done|by rewrite obj_get_put_ne]).
  assert (∃ w, obj_get "timestamp" b2 = Some w) as [w Hw].
  { unfold b2, st. destruct (obj_get "timestamp" block) as [w|] eqn:Et; [|rewrite obj_get_put_eq; by eexists].
    exists w. unfold b1. destruct same; [done|by rewrite obj_get_put_ne]. }
  unfold skips, field_object. rewrite field_put. cbn [as_object default from_option id]. unfold id. fold lv.
  by rewrite H2, Hw, String.eqb_refl.
Qed.

Lemma resolver_heals : heals patchBaseDomainResolver.
Proof.
  unfold heals, patchBaseDomainResolver. intros m m' E. destruct (obj_get _ _); [done|]. apply store_inv in E as (fs & _ & ->).
  unfold skips, field_object. rewrite field_put. cbn [as_object from_option id]. unfold id. by rewrite obj_get_put_eq.
Qed.

Lemma strategy_heals : heals patchBaseDNSStrategy.
Proof.
  unfold heals, patchBaseDNSStrategy. intros m m' E. destruct (field_object "dns" m); [|done]. destruct (String.eqb _ _); [|done].
  apply store_inv in E as (fs & _ & ->). unfold skips, field_object. rewrite field_put. cbn [as_object]. by rewrite obj_get_put_eq.
Qed.

Lemma index_of_has p l i v : index_of p l = Some i → l !! i = Some v → p v = true.
Proof.
  revert i. induction l as [|w l IH]; intros i; [done|]. cbn. destruct (p w) eqn:Ep.
  - intros [= <-] [= <-]. done.
  - destruct (index_of p l) as [j|]; [|done]. intros [= <-]. cbn. by apply IH.
Qed.

Lemma direct_heals : heals patchBaseDirectOutbound.
Proof.
  unfold heals, patchBaseDirectOutbound. intros m m' E. set (obs := as_array (field "outbounds" m)) in *.
  destruct (index_of _ obs) as [[|i]|] eqn:Ei; [done| |].
  - destruct (obs !! S i) as [direct|] eqn:Ed; [|done]. apply store_inv in E as (fs & _ & ->).
    unfold skips. rewrite field_put. cbn [as_array index_of]. by rewrite (index_of_has _ _ _ _ Ei Ed).
  - apply store_inv in E as (fs & _ & ->). unfold skips. by rewrite field_put.
Qed.

Lemma cache_heals : heals patchBaseCacheFilePath.
Proof.
  unfold heals, patchBaseCacheFilePath. intros m m' E. destruct (field_object "experimental" m) as [exp|]; [|done].
  destruct (sub_object "cache_file" exp) as [cf|]; [destruct (_ || _); [|done]|]; apply store_inv in E as (fs & _ & ->);
    unfold skips, field_object; rewrite field_put; cbn [as_object]; unfold sub_object; rewrite obj_get_put_eq; cbn [as_object];
    [by rewrite obj_get_put_eq|done].
Qed.

Lemma final_heals : heals removeFinalFromBase.
Proof.
  unfold heals, removeFinalFromBase. intros m m' E. destruct (field_object "route" m); [|done]. destruct (obj_get _ _); [|done].
  apply store_inv in E as (fs & _ & ->). unfold skips, field_object. rewrite field_put. cbn [as_object]. by rewrite obj_get_delete_eq.
Qed.

Lemma dns_final_heals owned : heals (dns_final_patch owned).
Proof.
  unfold heals, dns_final_patch. intros m m' E. destruct (field_object "dns" m) as [dns|]; [|done].
  destruct (_ || _); [|done]. apply store_inv in E as (fs & _ & ->). unfold skips, field_object. rewrite field_put. cbn [as_object].
  set (strip := match obj_get "strategy" dns with Some _ => owned | None => false end).
  assert (obj_get "final" ((if strip then obj_delete "strategy" else id) (obj_delete "final" dns)) = None) as ->.
  { destruct strip; [rewrite obj_get_delete_ne by done|]; apply obj_get_delete_eq. }
  assert (obj_get "strategy" ((if strip then obj_delete "strategy" else id) (obj_delete "final" dns)) =
    if strip then None else obj_get "strategy" dns) as ->.
  { destruct strip; [apply obj_get_delete_eq|by apply obj_get_delete_ne]. }
  unfold strip. destruct (obj_get "strategy" dns); [|done]. by destruct owned.
Qed.

(** *** Two patches of one block *)

Lemma cache_keeps_clash : keeps patchBaseCacheFilePath patchBaseClashPort.
Proof.
  unfold keeps, patchBaseCacheFilePath, skips, patchBaseClashPort. intros m m' E Hs. destruct (field_object "experimental" m) as [exp|]; [|done].
  assert (∀ v, sub_object "clash_api" (obj_put "cache_file" v exp) = sub_object "clash_api" exp) as Hsub
    by (intros; unfold sub_object; by rewrite obj_get_put_ne).
  destruct (sub_object "cache_file" exp) as [cf|]; [destruct (_ || _); [|done]|]; apply store_inv in E as (fs & -> & ->);
    unfold field_object; rewrite field_put; cbn [as_object]; rewrite Hsub; repeat (case_match; try done).
Qed.

Lemma final_keeps_resolver : keeps removeFinalFromBase patchBaseDomainResolver.
Proof.
  unfold keeps, removeFinalFromBase, skips, patchBaseDomainResolver. intros m m' E Hs. destruct (field_object "route" m) as [r|]; [|done].
  destruct (obj_get "final" r); [|done]. apply store_inv in E as (fs & -> & ->). unfold field_object. rewrite field_put.
  cbn [as_object from_option id] in *. unfold id in *. rewrite obj_get_delete_ne by done. by destruct (obj_get _ r).
Qed.

Lemma dns_final_keeps_strategy owned : keeps (dns_final_patch owned) patchBaseDNSStrategy.
Proof.
  unfold keeps, dns_final_patch, skips, patchBaseDNSStrategy. intros m m' E Hs. destruct (field_object "dns" m) as [dns|]; [|done].
  destruct (_ || _); [|done]. apply store_inv in E as (fs & -> & ->). unfold field_object. rewrite field_put. cbn [as_object].
  destruct (match obj_get "strategy" dns with Some _ => owned | None => false end).
  - by rewrite obj_get_delete_eq.
  - unfold id. rewrite obj_get_delete_ne by done. destruct (String.eqb _ _); [done|done].
Qed.
End boot.

(** ** The device proxy gets a slot of its own ([singbox/deviceproxy_migrate.go])

    What the two files hold after [MigrateDeviceProxyOutOfTunnels], whatever accesses fail. *)
Definition slot_of (n : string) (d : Disk) : option content := slots_of d !! n.

(** What the new slot gets: every inbound, selector and rule of the proxy, of the default
    instance and of the named ones. *)
Definition extracted (ins outs rules : list json) (e : Config) : Prop :=
  arrays e (keep_objects proxy_inbound ins) (keep_objects proxy_selector outs) (keep_objects proxy_rule rules).
(** What the slot of the tunnels is left with: all but the inbound, the selector and the
    rules of the default instance and the outbounds whose tag starts with [awg-], a user's
    tunnel among them; so the named instances are in both slots afterwards. *)
Definition left_behind (ins outs rules : list json) (s : Config) : Prop :=
  arrays s (drop_objects (tagged (inbound_of "default")) ins)
    (drop_objects is_awg (drop_objects (tagged (selector_of "default")) outs))
    (drop_objects (inbound_is (inbound_of "default")) rules).

(** An access consumes one outcome and leaves the files. *)
Lemma bfault_files d : ∃ b d', bfault d = (b, d') ∧ legacy d' = legacy d ∧ confd d' = confd d ∧
  (bfaults d = [] → b = false ∧ bfaults d' = []).
Proof. unfold bfault. destruct (bfaults d) as [|b bs] eqn:E; eexists _, _; (split; [done|]); repeat split; done. Qed.

Lemma stat_absent n d : slot_of n d = None → ∃ d', stat_slot n d = (false, d') ∧ confd d' = confd d ∧
  (bfaults d = [] → bfaults d' = []).
Proof.
  intros Hn. destruct (bfault_files d) as (b & d' & E & _ & Hc & Hb). exists d'. unfold stat_slot, mbind, ST_bind. rewrite E.
  split; [|by split; [|intros []%Hb]]. cbn. unfold slot_of, slots_of in *. rewrite Hc, Hn. rewrite bool_decide_false by by intros [].
  by rewrite andb_false_r.
Qed.

Lemma read_present n c d : slot_of n d = Some c → ∃ r d', read_slot n d = (r, d') ∧ confd d' = confd d ∧
  (r = inl "read" ∨ r = inr (Some c)) ∧ (bfaults d = [] → r = inr (Some c) ∧ bfaults d' = []).
Proof.
  intros Hn. destruct (bfault_files d) as (b & d' & E & _ & Hc & Hb). unfold read_slot, mbind, ST_bind. rewrite E. cbn.
  assert (slots_of d' !! n = Some c) as Hs by (unfold slot_of, slots_of in *; by rewrite Hc). rewrite Hs.
  destruct b; eexists _, d'; (split; [done|]); (split; [done|]); (split; [by auto|]); by intros []%Hb.
Qed.

Lemma write_any n c d : ∃ r d', write_slot n c d = (r, d') ∧
  (r = Some "write" ∧ confd d' = confd d ∨ r = None ∧ confd d' = Some (<[n := c]> (slots_of d))) ∧
  (bfaults d = [] → r = None ∧ bfaults d' = []).
Proof.
  destruct (bfault_files d) as (b & d' & E & _ & Hc & Hb). unfold write_slot, mbind, ST_bind. rewrite E.
  assert (slots_of d' = slots_of d) as Hs by (unfold slots_of; by rewrite Hc).
  destruct b; cbn; eexists _, _; (split; [done|]); (split; [|by intros []%Hb]); [by left|right]. cbn. by rewrite Hs.
Qed.

(** C16: The migration that gives the device proxy its own slot, when the slot of the
    tunnels has a proxy (with its arrays there and without two inbounds or selectors of
    one tag) and the new slot does not exist, does not panic and never loses an instance:
    after any failure of a file access the slot of the tunnels is untouched, and without
    an error, or after a failure of the last write, the new slot holds every inbound,
    selector and rule of the proxy, of the default instance and of the named ones. Without
    an error the slot of the tunnels loses exactly the default instance's inbound,
    selector and rules and the outbounds whose tag starts with [awg-] (a user's tunnel
    among them, see [migration_drops_awg_tunnel]); the named instances are then in both
    slots ([migration_duplicates_named_instances]). There is no error when no file access
    fails. *)
Theorem migration_keeps_instances (d : Disk) (data : content) (c : Config) ins outs rules
    (Hnew : slot_of deviceproxy_file d = None) (Hold : slot_of tunnels_file d = Some data)
    (Hparse : UnmarshalJSON data = inr c) (Har : arrays c ins outs rules) (Hhas : HasDeviceProxy c = true)
    (Hi : NoDup (json_tag <$> keep_objects proxy_inbound ins)) (Ho : NoDup (json_tag <$> keep_objects proxy_selector outs)) :
  ∃ r d' e s, MigrateDeviceProxyOutOfTunnels d = (Some r, d') ∧ extracted ins outs rules e ∧ left_behind ins outs rules s ∧
    (r ≠ None ∧ slot_of deviceproxy_file d' = None ∧ slot_of tunnels_file d' = Some data ∨
     r ≠ None ∧ slot_of deviceproxy_file d' = Some (MarshalIndent (MarshalJSON e)) ∧ slot_of tunnels_file d' = Some data ∨
     r = None ∧ slot_of deviceproxy_file d' = Some (MarshalIndent (MarshalJSON e)) ∧
       slot_of tunnels_file d' = Some (MarshalIndent (MarshalJSON s))) ∧
    (bfaults d = [] → r = None).
Proof.
  destruct (extract_arrays c _ _ _ Har Hi Ho) as (e & He & Ae). destruct (remove_arrays "default" c _ _ _ Har) as (s & Hs & As).
  unfold MigrateDeviceProxyOutOfTunnels. destruct (stat_absent _ _ Hnew) as (d1 & E1 & C1 & F1).
  unfold mbind, ST_bind at 1. rewrite E1.
  assert (slot_of tunnels_file d1 = Some data) as Hold1 by (unfold slot_of, slots_of in *; by rewrite C1).
  destruct (read_present _ _ _ Hold1) as (r2 & d2 & E2 & C2 & R2 & F2). unfold ST_bind at 1. rewrite E2.
  assert (∀ n, slots_of d2 !! n = slots_of d !! n) as S2 by (intros; unfold slots_of; by rewrite C2, C1).
  destruct R2 as [->| ->].
  { eexists _, d2, e, s. split; [done|]. split; [done|]. split; [done|]. split; [|by intros [? _]%F1%F2].
    left. split; [done|]. unfold slot_of. rewrite !S2. by split. }
  rewrite Hparse, Hhas. cbn [negb]. unfold RemoveDeviceProxy. rewrite He, Hs.
  destruct (write_any deviceproxy_file (MarshalIndent (MarshalJSON e)) d2) as (r3 & d3 & E3 & R3 & F3).
  unfold ST_bind at 1. rewrite E3. destruct R3 as [[-> C3]|[-> C3]].
  { eexists _, d3, e, s. split; [done|]. split; [done|]. split; [done|]. split; [|by intros [? _]%F1%F2%proj2%F3].
    left. split; [done|]. assert (∀ n, slots_of d3 !! n = slots_of d !! n) as S3 by (intros; unfold slots_of at 1; rewrite C3; apply S2).
    unfold slot_of. rewrite !S3. by split. }
  destruct (write_any tunnels_file (MarshalIndent (MarshalJSON s)) d3) as (r4 & d4 & E4 & R4 & F4).
  unfold ST_bind at 1. rewrite E4.
  assert (slots_of d3 = <[deviceproxy_file := MarshalIndent (MarshalJSON e)]> (slots_of d2)) as S3 by (unfold slots_of at 1; by rewrite C3).
  destruct R4 as [[-> C4]|[-> C4]]; (eexists _, d4, e, s; split; [done|]; split; [done|]; split; [done|]; split).
  - right. left. split; [done|]. assert (slots_of d4 = slots_of d3) as S4 by (unfold slots_of; by rewrite C4).
    unfold slot_of. rewrite S4, S3, lookup_insert_eq, lookup_insert_ne by done. by rewrite S2.
  - by intros [? _]%F1%F2%proj2%F3%proj2%F4.
  - right. right. split; [done|]. unfold slot_of, slots_of. rewrite C4. cbn. fold (slots_of d3). rewrite S3.
    by rewrite lookup_insert_ne, lookup_insert_eq, lookup_insert_eq by done.
  - done.
Qed.
