(* ===== verification/SbBootSettle.v ===== *)
(** * Start-up settles

    A start-up without faults leaves a directory on which the next one changes nothing.
    Each repair is a patch of one file; a later patch keeps what an earlier one repaired. *)
From S2P Require Import Prelude GoLib GoText SbJson SbTunnels SbTunnelsProps SbDeviceProxy SbDeviceProxyProps SbBoot SbBootProps.

(** ** A patch of a file, without faults *)

(** The document of a slot, if the file is there and parses. *)
Definition doc (n : string) (d : Disk) : option (option obj) := slots_of d !! n ≫= unmarshal_map.
Definition wrote (n : string) (m : obj) (d : Disk) : Disk :=
  set_confd (Some (<[n := MarshalIndent (JObject m)]> (slots_of d))) d.

Lemma doc_wrote n m d : doc n (wrote n m d) = Some (Some m).
Proof. unfold doc, wrote, slots_of. cbn. by rewrite lookup_insert_eq. Qed.
Lemma doc_wrote_ne n n' m d : n ≠ n' → doc n' (wrote n m d) = doc n' d.
Proof. intros. unfold doc, wrote, slots_of. cbn. by rewrite lookup_insert_ne. Qed.

Lemma wrote_same n m d : slots_of d !! n = Some (MarshalIndent (JObject m)) → is_Some (confd d) → wrote n m d = d.
Proof.
  destruct d as [l [c|] b]; intros Hs [? Hc]; [|done]. unfold wrote, set_confd, slots_of in *. cbn in *. f_equal. f_equal.
  by apply insert_id.
Qed.

Lemma read_slot_run n d : bfaults d = [] → read_slot n d = (inr (slots_of d !! n), d).
Proof. intros Hf. unfold read_slot, mbind, ST_bind, bfault. by rewrite Hf. Qed.
Lemma write_slot_run n c d : bfaults d = [] → write_slot n c d = (None, set_confd (Some (<[n := c]> (slots_of d))) d).
Proof. intros Hf. unfold write_slot, mbind, ST_bind, bfault. by rewrite Hf. Qed.

Lemma stat_slot_run n d : bfaults d = [] → stat_slot n d = (bool_decide (is_Some (slots_of d !! n)), d).
Proof. intros Hf. unfold stat_slot, mbind, ST_bind, bfault. by rewrite Hf. Qed.
Lemma bind_run {A C} (m : B A) (f : A → B C) d a d' : m d = (a, d') → (m ≫= f) d = f a d'.
Proof. unfold mbind, ST_bind. by intros ->. Qed.

Lemma patch_slot_run n f d : bfaults d = [] → patch_slot n f d =
  match doc n d with
  | Some m => match f m with Skip => (false, d) | Rewrite m' => (false, wrote n m' d) | Panics => (true, d) end
  | None => (false, d)
  end.
Proof.
  intros Hf. unfold patch_slot, mbind, ST_bind at 1. rewrite (read_slot_run _ _ Hf). unfold doc.
  destruct (slots_of d !! n) as [data|]; [|done]. cbn [mbind option_bind]. destruct (unmarshal_map data) as [m|]; [|done].
  destruct (f m) as [|m'|]; try done. unfold ST_bind, writeJSONFile. by rewrite (write_slot_run _ _ _ Hf).
Qed.

(** ** Steps and what they leave alone *)

Definition ready (d : Disk) : Prop := bfaults d = [] ∧ is_Some (confd d).
Definition runs (P : Disk → Prop) (s : B bool) (Q : Disk → Prop) : Prop := triple P s (λ p d, p = false ∧ Q d).
Definition holds (Ps : list (Disk → Prop)) (d : Disk) : Prop := ready d ∧ Forall (λ P, P d) Ps.

Lemma runs_nil P : runs P (run_steps []) P.
Proof. by intros d Hd. Qed.
Lemma runs_cons P R Q s steps : runs P s R → runs R (run_steps steps) Q → runs P (run_steps (s :: steps)) Q.
Proof.
  intros Hs Hr d Hd. cbn [run_steps]. unfold mbind, ST_bind. specialize (Hs d Hd). destruct (s d) as [p d']. cbn in Hs.
  destruct Hs as [-> Hs]. by apply Hr.
Qed.
Lemma runs_weaken P P' Q Q' s : runs P' s Q' → (∀ d, P d → P' d) → (∀ d, Q' d → Q d) → runs P s Q.
Proof. intros Hs HP HQ d Hd. destruct (Hs d (HP d Hd)) as [-> Hq]. split; [done|by apply HQ]. Qed.

(** A property that a patch of the file [n] keeps, and one that only looks at [n]. *)
Definition stable (n : string) (f : option obj → patch) (P : Disk → Prop) : Prop :=
  ∀ d m m', doc n d = Some m → f m = Rewrite m' → P d → P (wrote n m' d).
Definition local (n : string) (P : Disk → Prop) : Prop :=
  ∀ d d', slots_of d !! n = slots_of d' !! n → P d → P d'.

Definition skipped (n : string) (f : option obj → patch) (d : Disk) : Prop := ∀ m, doc n d = Some m → skips f m.
Definition present (n : string) (d : Disk) : Prop := is_Some (slots_of d !! n).
Definition not_null (n : string) (d : Disk) : Prop := doc n d ≠ Some None.

Lemma local_stable n n' f P : local n P → n' ≠ n → stable n' f P.
Proof. intros Hl Hne d m m' _ _. apply Hl. unfold wrote, slots_of. cbn. by rewrite lookup_insert_ne. Qed.
Lemma skipped_local n f : local n (skipped n f).
Proof. unfold local, skipped, doc. by intros d d' ->. Qed.
Lemma present_local n : local n (present n).
Proof. unfold local, present. by intros d d' ->. Qed.
Lemma not_null_local n : local n (not_null n).
Proof. unfold local, not_null, doc. by intros d d' ->. Qed.

Lemma skipped_stable n f q : keeps f q → stable n f (skipped n q).
Proof.
  intros Hk d m m' Hd Hf Hs m0. rewrite doc_wrote. intros [= <-]. apply (Hk m m' Hf). by apply Hs.
Qed.
Lemma present_stable n f n' : stable n f (present n').
Proof.
  intros d m m' _ _ Hp. unfold present, wrote, slots_of in *. cbn. destruct (base.decide (n = n')) as [->|Hne].
  - rewrite lookup_insert_eq. by eexists.
  - by rewrite lookup_insert_ne.
Qed.
Lemma not_null_stable n f n' : stable n f (not_null n').
Proof.
  intros d m m' _ _ Hp. unfold not_null. destruct (base.decide (n = n')) as [->|Hne]; [by rewrite doc_wrote|by rewrite doc_wrote_ne].
Qed.
Lemma ready_wrote n m d : ready d → ready (wrote n m d).
Proof. intros [Hf _]. split; [done|by eexists]. Qed.

(** ** One patch *)

(** What a patch establishes on its file. *)
Definition establishes (n : string) (f : option obj → patch) (Q : Disk → Prop) : Prop := ∀ d,
  (doc n d = None → Q d) ∧
  (∀ m, doc n d = Some m → f m = Skip → Q d) ∧
  (∀ m m', doc n d = Some m → f m = Rewrite m' → Q (wrote n m' d)).

Lemma heals_establishes n f : heals f → establishes n f (skipped n f).
Proof.
  intros Hh d. split_and!.
  - unfold skipped. by intros ->.
  - unfold skipped. by intros m -> Hs ? [= <-].
  - intros m m' _ Hf m0. rewrite doc_wrote. intros [= <-]. by apply (Hh m).
Qed.

Lemma patch_rule n f Q Ps Pc : Forall (stable n f) Ps → establishes n f Q →
  (∀ d, Forall (λ P, P d) Ps → Pc d) → (∀ d m, Pc d → doc n d = Some m → f m ≠ Panics) →
  runs (holds Ps) (patch_slot n f) (holds (Q :: Ps)).
Proof.
  intros Hst He Hc Hcalm d [Hr Hps]. rewrite (patch_slot_run _ _ _ (proj1 Hr)). destruct (He d) as (H0 & H1 & H2).
  destruct (doc n d) as [m|] eqn:Ed; [|split; [done|split; [done|constructor; auto]]].
  destruct (f m) as [|m'|] eqn:Ef.
  - split; [done|split; [done|constructor; eauto]].
  - split; [done|split; [by apply ready_wrote|constructor; [eauto|]]]. clear Hc. induction Hst as [|P Ps HP _ IH]; [constructor|].
    apply Forall_cons in Hps as [? ?]. constructor; [by eapply HP|by apply IH].
  - by destruct (Hcalm d m (Hc d Hps) Ed).
Qed.

(** A patch panics on [null] at most. *)
Definition calm (f : option obj → patch) : Prop := ∀ fs, f (Some fs) ≠ Panics.
Definition calm_null (f : option obj → patch) : Prop := ∀ m, f m ≠ Panics.

Lemma patch_base n f Ps : Forall (stable n f) Ps → heals f → calm f → not_null n ∈ Ps →
  runs (holds Ps) (patch_slot n f) (holds (skipped n f :: Ps)).
Proof.
  intros Hst Hh Hc Hin. apply (patch_rule n f _ Ps (not_null n)); [done|by apply heals_establishes| |].
  - intros d Hps. by apply (proj1 (Forall_forall _ _) Hps).
  - intros d [fs|] Hn Hd; [apply Hc|by destruct Hn].
Qed.
Lemma patch_any n f Q Ps : Forall (stable n f) Ps → establishes n f Q → calm_null f →
  runs (holds Ps) (patch_slot n f) (holds (Q :: Ps)).
Proof. intros Hst He Hc. by apply (patch_rule n f Q Ps (λ _, True)). Qed.

(** Patches of one file, each of which keeps the ones before. *)
Lemma patches_base n fs : ∀ Ps, Forall heals fs → Forall calm fs → ForallOrdPairs (λ p q, keeps q p) fs →
  Forall (λ f, Forall (stable n f) Ps) fs → not_null n ∈ Ps →
  runs (holds Ps) (run_steps (patch_slot n <$> fs)) (holds ((skipped n <$> reverse fs) ++ Ps)).
Proof.
  induction fs as [|f fs IH]; intros Ps Hh Hc Hk Hst Hin; [apply runs_nil|].
  apply Forall_cons in Hh as [Hh Hhs], Hc as [Hc Hcs], Hst as [Hst Hsts]. inversion Hk as [|? ? Hkf Hks]; subst.
  rewrite fmap_cons. apply (runs_cons _ (holds (skipped n f :: Ps))); [by apply patch_base|].
  rewrite reverse_cons, fmap_app, <- app_assoc. apply IH; try done; [|by right].
  apply Forall_forall. intros q Hq. constructor; [|by apply (proj1 (Forall_forall _ _) Hsts)].
  apply skipped_stable. by apply (proj1 (Forall_forall _ _) Hkf).
Qed.

(** ** The slot of the tunnels *)

(** The block [dns] that [strip_dns] returns is one it returns again. *)
Definition stripped_dns (dns : obj) : Prop := ∃ c, strip_dns dns = (c, Some dns).

Ltac goal_if E := match goal with |- context [if ?b then _ else _] => destruct b eqn:E end.
Ltac goal_if_ := let E := fresh "E" in goal_if E.

Lemma strip_dns_stripped dns c dns' : strip_dns dns = (c, Some dns') → stripped_dns dns'.
Proof.
  unfold strip_dns. set (filtered := filterOutOurDNSServers (as_array (obj_get "servers" dns))).
  destruct (bool_decide (filtered = []) && _) eqn:Enone; [done|].
  set (d1 := if bool_decide (filtered = []) then obj_delete "servers" dns else obj_put "servers" (JArray filtered) dns).
  set (d2 := if bool_decide (as_string (obj_get "final" d1) ∈ _) then obj_delete "final" d1 else d1).
  set (d3 := if bool_decide (as_string (obj_get "strategy" d2) ∈ _) then obj_delete "strategy" d2 else d2).
  destruct (bool_decide (d3 = [])) eqn:H3; [done|]. intros [= _ <-].
  assert (∀ k, k ≠ "final" → k ≠ "strategy" → obj_get k d3 = obj_get k d1) as Hk.
  { intros k ??. unfold d3. goal_if_; [rewrite obj_get_delete_ne by done|]; unfold d2; goal_if_;
      rewrite ?obj_get_delete_ne by done; done. }
  assert (obj_get "rules" d3 = obj_get "rules" dns) as Hru.
  { rewrite Hk by done. unfold d1. goal_if_; [by apply obj_get_delete_ne|by apply obj_get_put_ne]. }
  assert (as_array (obj_get "servers" d3) = filtered) as Hfil.
  { rewrite Hk by done. unfold d1. goal_if Ef; [apply bool_decide_eq_true in Ef; by rewrite obj_get_delete_eq|].
    by rewrite obj_get_put_eq. }
  assert (filterOutOurDNSServers filtered = filtered) as Hidem by apply drop_idem.
  assert (bool_decide (as_string (obj_get "strategy" d3) ∈ ["prefer_ipv4"; "ipv4_only"]) = false) as Hst.
  { unfold d3. goal_if Es; [|done]. by rewrite obj_get_delete_eq. }
  assert (bool_decide (as_string (obj_get "final" d3) ∈ ["dns-doh"; "dns-bootstrap"]) = false) as Hfi.
  { assert (bool_decide (as_string (obj_get "final" d2) ∈ ["dns-doh"; "dns-bootstrap"]) = false) as Hd2.
    { unfold d2. goal_if Es; [|done]. by rewrite obj_get_delete_eq. }
    unfold d3. goal_if_; [by rewrite obj_get_delete_ne|done]. }
  assert ((if bool_decide (filtered = []) then obj_delete "servers" d3 else obj_put "servers" (JArray filtered) d3) = d3) as Hsame.
  { pose proof (Hk "servers") as Hsv. goal_if Ef.
    - apply obj_delete_none. rewrite Hsv by done. unfold d1. apply obj_get_delete_eq.
    - apply obj_put_eq; [|rewrite Hsv by done; unfold d1; rewrite obj_get_put_eq; by eexists].
      assert (only "servers" (JArray filtered) d1) as Ho by (unfold d1; apply only_put).
      unfold d3. goal_if_; [apply only_delete|]; unfold d2; goal_if_; by try apply only_delete. }
  unfold stripped_dns, strip_dns. rewrite Hfil, Hidem, Hru, Enone. rewrite Hsame, Hfi, Hst, H3. by eexists.
Qed.

Abbreviation strip := patchTunnelsSlotStripBaseOwnedBlocks.
Abbreviation naive := patchTunnelsSlotEnsureNaiveUDPOverTCP.

Definition stripped (fs : obj) : Prop :=
  has_key "log" fs = false ∧
  (sub_object "dns" fs = None ∨ ∃ dns, sub_object "dns" fs = Some dns ∧ stripped_dns dns ∧ only "dns" (JObject dns) fs).

Lemma has_key_delete k fs : has_key k (obj_delete k fs) = false.
Proof. unfold has_key. by rewrite obj_get_delete_eq. Qed.
Lemma has_key_delete_ne k k' fs : k ≠ k' → has_key k' (obj_delete k fs) = has_key k' fs.
Proof. intros. unfold has_key. by rewrite obj_get_delete_ne. Qed.
Lemma has_key_put_ne k k' v fs : k ≠ k' → has_key k' (obj_put k v fs) = has_key k' fs.
Proof. intros. unfold has_key. by rewrite obj_get_put_ne. Qed.
Lemma sub_put_ne k k' v fs : k ≠ k' → sub_object k' (obj_put k v fs) = sub_object k' fs.
Proof. intros. unfold sub_object. by rewrite obj_get_put_ne. Qed.

Lemma strip_result m m' : strip m = Rewrite m' → stripped m'.
Proof.
  unfold patchTunnelsSlotStripBaseOwnedBlocks. destruct m as [fs|]; [|done].
  set (fs1 := if has_key "log" fs then obj_delete "log" fs else fs).
  assert (has_key "log" fs1 = false) as Hlog by (unfold fs1; destruct (has_key "log" fs) eqn:E; [apply has_key_delete|done]).
  destruct (sub_object "dns" fs) as [dns|] eqn:Ed.
  - destruct (strip_dns dns) as [c [dns'|]] eqn:Es.
    + destruct (_ || _); [|done]. intros [= <-]. split; [by rewrite has_key_put_ne|]. right. exists dns'. split_and!.
      * unfold sub_object. by rewrite obj_get_put_eq.
      * by eapply strip_dns_stripped.
      * apply only_put.
    + intros [= <-]. split; [by rewrite has_key_delete_ne|]. left. unfold sub_object. by rewrite obj_get_delete_eq.
  - intros E. unfold fs1 in *. destruct (has_key "log" fs); [|done]. injection E as <-. split; [done|left].
    unfold sub_object in *. by rewrite obj_get_delete_ne.
Qed.

Lemma stripped_again fs : stripped fs → strip (Some fs) = Skip ∨ strip (Some fs) = Rewrite fs.
Proof.
  unfold patchTunnelsSlotStripBaseOwnedBlocks. intros [-> [->|(dns & Hs & [c Hc] & Ho)]]; [by left|]. rewrite Hs, Hc. cbn [orb].
  destruct c; [right|by left]. f_equal. apply obj_put_eq; [done|]. unfold sub_object in Hs.
  destruct (obj_get "dns" fs); [by eexists|done].
Qed.

Lemma stripped_put v fs : stripped fs → stripped (obj_put "outbounds" v fs).
Proof.
  intros [Hl Hd]. split; [by rewrite has_key_put_ne|]. rewrite sub_put_ne by done.
  destruct Hd as [?|(dns & ? & ? & ?)]; [by left|right]. exists dns. split_and!; [done..|]. by apply only_put_other.
Qed.

Lemma strip_looks v fs : skips strip (Some fs) → skips strip (Some (obj_put "outbounds" v fs)).
Proof.
  unfold skips, patchTunnelsSlotStripBaseOwnedBlocks. rewrite has_key_put_ne, sub_put_ne by done.
  destruct (has_key "log" fs), (sub_object "dns" fs) as [dns|]; try done; destruct (strip_dns dns) as [[] [?|]]; done.
Qed.

(** The slot is not changed by the next start-up, though it may be written. *)
Definition settled (d : Disk) : Prop := ∀ m, doc tunnels_file d = Some m →
  skips strip m ∨ ∃ fs, m = Some fs ∧ stripped fs ∧ slots_of d !! tunnels_file = Some (MarshalIndent (JObject fs)).

Lemma slot_wrote n m d : slots_of (wrote n m d) !! n = Some (MarshalIndent (JObject m)).
Proof. unfold wrote, slots_of. cbn. by rewrite lookup_insert_eq. Qed.

Lemma strip_establishes : establishes tunnels_file strip settled.
Proof.
  intros d. split_and!.
  - unfold settled. by intros ->.
  - unfold settled. intros m -> Hs ? [= <-]. by left.
  - intros m m' _ Hf m0. rewrite doc_wrote. intros [= <-]. right. exists m'. split_and!; [done|by eapply strip_result|apply slot_wrote].
Qed.

Lemma settled_stable f : writes "outbounds" f → stable tunnels_file f settled.
Proof.
  intros Hw d m m' Hd Hf Hs m0. rewrite doc_wrote. intros [= <-]. destruct (Hw _ _ Hf) as (v & fs & -> & ->).
  destruct (Hs _ Hd) as [Hsk|(? & [= <-] & Hst & _)]; [left; by apply strip_looks|right].
  eexists. split_and!; [done|by apply stripped_put|apply slot_wrote].
Qed.
Lemma settled_local : local tunnels_file settled.
Proof. unfold local, settled, doc. by intros d d' ->. Qed.

Lemma naive_ensured ob : needs_naive (JObject (ensureNaiveUDPOverTCP ob)) = false.
Proof.
  unfold needs_naive, ensureNaiveUDPOverTCP. destruct (String.eqb (strOr (obj_get "type" ob) "") "naive") eqn:Et; cbn [negb]; [|by rewrite Et].
  destruct (obj_get "udp_over_tcp" ob) eqn:E; [by rewrite Et, E|]. by rewrite obj_get_put_eq, andb_false_r.
Qed.

Lemma naive_rewrite m m' : naive m = Rewrite m' → ∃ l fs, m = Some fs ∧ obj_get "outbounds" fs = Some (JArray l) ∧
  m' = obj_put "outbounds" (JArray ((λ v, match v with JObject ob => JObject (ensureNaiveUDPOverTCP ob) | _ => v end) <$> l)) fs.
Proof.
  unfold patchTunnelsSlotEnsureNaiveUDPOverTCP. destruct m as [fs|]; [|done].
  destruct (existsb _ _) eqn:E; [|done]. intros [= <-]. cbn. destruct (obj_get "outbounds" fs) as [[]|] eqn:Eo; try done. eauto.
Qed.
Lemma naive_writes : writes "outbounds" naive.
Proof. intros m m' (l & fs & -> & _ & ->)%naive_rewrite. eauto. Qed.
Lemma naive_calm : calm_null naive.
Proof. intros [fs|]; [|done]. cbn. by destruct (existsb _ _). Qed.
Lemma strip_calm : calm_null strip.
Proof. intros [fs|]; [|done]. cbn. repeat case_match; done. Qed.

Lemma naive_heals : heals naive.
Proof.
  intros m m' (l & fs & -> & _ & ->)%naive_rewrite. unfold skips, patchTunnelsSlotEnsureNaiveUDPOverTCP.
  rewrite obj_get_put_eq. cbn [as_array]. destruct (existsb _ _) eqn:E; [|done]. apply existsb_exists in E as (v & Hin & Hv).
  apply list_elem_of_In, list_elem_of_fmap in Hin as (w & -> & _). destruct w; try done. by rewrite naive_ensured in Hv.
Qed.

(** ** Stray direct outbounds *)

Lemma stray_rewrite m m' : stray_patch m = Rewrite m' → ∃ fs, m = Some fs ∧
  m' = obj_put "outbounds" (JArray (filterOutDirectPlaceholder (as_array (obj_get "outbounds" fs)))) fs.
Proof. unfold stray_patch. destruct (_ =? _)%nat; [done|]. intros (fs & -> & ->)%store_inv. eauto. Qed.
Lemma stray_writes : writes "outbounds" stray_patch.
Proof. intros m m' (fs & -> & ->)%stray_rewrite. eauto. Qed.
Lemma stray_calm : calm_null stray_patch.
Proof. intros [fs|]; unfold stray_patch; cbn; [by destruct (_ =? _)%nat|done]. Qed.
Lemma stray_heals : heals stray_patch.
Proof.
  intros m m' (fs & -> & ->)%stray_rewrite. unfold skips, stray_patch. rewrite field_put. cbn [as_array].
  unfold filterOutDirectPlaceholder at 1. by rewrite drop_idem, Nat.eqb_refl.
Qed.
Lemma stray_keeps_naive : keeps stray_patch naive.
Proof.
  intros m m' (fs & -> & ->)%stray_rewrite. unfold skips, patchTunnelsSlotEnsureNaiveUDPOverTCP. rewrite obj_get_put_eq. cbn [as_array].
  destruct (existsb needs_naive (as_array _)) eqn:E; [done|intros _]. destruct (existsb _ (filterOutDirectPlaceholder _)) eqn:E2; [|done].
  apply existsb_exists in E2 as (v & Hin & Hv). unfold filterOutDirectPlaceholder, drop_objects in Hin. apply filter_In in Hin as [Hin _].
  assert (existsb needs_naive (as_array (obj_get "outbounds" fs)) = true) as E3 by (apply existsb_exists; eauto). congruence.
Qed.
Lemma heals_keeps f : heals f → keeps f f.
Proof. intros Hh m m' Hf _. by apply (Hh m). Qed.

(** ** The steps of a start-up *)

Ltac run_io Hf := unfold mbind, ST_bind, bfault, gets, modify, mret, ST_ret, id; rewrite ?Hf; cbn [fst snd].

Section steps.
Context `{GoUnicode}.

Definition fresh_start (d : Disk) : Prop := bfaults d = [] ∧ not_null base_file d.

Lemma migrate_runs : runs fresh_start (_ ← MigrateLegacyConfigDir; mret false) fresh_start.
Proof.
  intros d [Hf Hn]. unfold MigrateLegacyConfigDir, stat_confd. run_io Hf. cbn [negb andb].
  destruct (bool_decide (is_Some (confd d))) eqn:Ec; cbn; [by split; [|split]|]. rewrite Hf. cbn.
  apply bool_decide_eq_false in Ec. assert (confd d = None) as Hc by (destruct (confd d); [destruct Ec; by eexists|done]).
  assert (∀ c, not_null base_file (set_confd c d) → fresh_start (set_confd c d)) as Hset by (intros; by split).
  destruct (legacy d) as [raw|]; cbn.
  - destruct (unmarshal_map raw) as [cfg|]; cbn; [|by split].
    unfold check, mkdir_confd, writeJSONFile, write_slot, remove_legacy. run_io Hf. cbn. run_io Hf. cbn. run_io Hf. cbn. rewrite Hf. cbn.
    split; [done|]. split; [done|]. unfold not_null, doc, slots_of. cbn.
    rewrite lookup_insert_ne by done. by rewrite lookup_insert_eq.
  - unfold mkdir_confd. run_io Hf. split; [done|]. apply Hset. unfold not_null, doc, slots_of. cbn. rewrite Hc. cbn.
    by rewrite lookup_empty.
Qed.

(** *** The base file *)

Definition base_patches (lvl : string) : list (option obj → patch) :=
  [patchBaseClashPort; patchBaseLogLevel lvl; patchBaseDomainResolver; patchBaseDirectOutbound;
   patchBaseCacheFilePath; patchBaseDNSStrategy].

Lemma clash_calm : calm patchBaseClashPort.
Proof. intros fs. unfold patchBaseClashPort, store. by repeat case_match. Qed.
Lemma log_calm lvl : calm (patchBaseLogLevel lvl).
Proof. intros fs. unfold patchBaseLogLevel, store. by destruct (_ && _ && _). Qed.
Lemma resolver_calm : calm patchBaseDomainResolver.
Proof. intros fs. unfold patchBaseDomainResolver, store. by repeat case_match. Qed.
Lemma direct_calm : calm patchBaseDirectOutbound.
Proof. intros fs. unfold patchBaseDirectOutbound, store. by repeat case_match. Qed.
Lemma cache_calm : calm patchBaseCacheFilePath.
Proof. intros fs. unfold patchBaseCacheFilePath, store. by repeat case_match. Qed.
Lemma strategy_calm : calm patchBaseDNSStrategy.
Proof. intros fs. unfold patchBaseDNSStrategy, store. by repeat case_match. Qed.
Lemma final_calm : calm removeFinalFromBase.
Proof. intros fs. unfold removeFinalFromBase, store. by repeat case_match. Qed.
Lemma dns_final_calm owned : calm (dns_final_patch owned).
Proof. intros fs. unfold dns_final_patch, store. by repeat case_match. Qed.

Lemma base_heals lvl : Forall heals (base_patches lvl).
Proof.
  repeat constructor; first [apply clash_heals|apply log_heals|apply resolver_heals|apply direct_heals|apply cache_heals|apply strategy_heals].
Qed.
Lemma base_calm lvl : Forall calm (base_patches lvl).
Proof.
  repeat constructor; first [apply clash_calm|apply log_calm|apply resolver_calm|apply direct_calm|apply cache_calm|apply strategy_calm].
Qed.

Ltac other :=
  eapply keeps_other;
  [first [apply clash_writes|apply log_writes|apply resolver_writes|apply direct_writes|apply cache_writes|apply strategy_writes
         |apply final_writes|apply dns_final_writes]
  |first [apply clash_looks|apply log_looks|apply resolver_looks|apply direct_looks|apply cache_looks|apply strategy_looks
         |apply final_looks|apply dns_final_looks]
  |done].

Lemma base_keeps lvl : ForallOrdPairs (λ p q, keeps q p) (base_patches lvl).
Proof. repeat constructor; first [other|apply cache_keeps_clash]. Qed.

Lemma final_keeps lvl : Forall (keeps removeFinalFromBase) (base_patches lvl).
Proof. repeat constructor; first [other|apply final_keeps_resolver]. Qed.
Lemma dns_final_keeps owned lvl : Forall (keeps (dns_final_patch owned)) (removeFinalFromBase :: base_patches lvl).
Proof. repeat constructor; first [other|apply dns_final_keeps_strategy]. Qed.

Definition base_facts : list (Disk → Prop) := [present base_file; not_null base_file].
Definition base_inv (lvl : string) : list (Disk → Prop) := (skipped base_file <$> reverse (base_patches lvl)) ++ base_facts.

Lemma base_facts_stable n f : Forall (stable n f) base_facts.
Proof. repeat constructor; [apply present_stable|apply not_null_stable]. Qed.
Lemma base_facts_local : Forall (local base_file) base_facts.
Proof. repeat constructor; [apply present_local|apply not_null_local]. Qed.

Lemma base_inv_local lvl : Forall (local base_file) (base_inv lvl).
Proof.
  apply Forall_app. split; [|apply base_facts_local]. apply Forall_fmap, Forall_forall. intros q _. apply skipped_local.
Qed.
Lemma base_inv_stable_ne lvl n f : n ≠ base_file → Forall (stable n f) (base_inv lvl).
Proof. intros Hne. eapply Forall_impl; [apply base_inv_local|]. intros P Hl. by eapply local_stable. Qed.
Lemma base_inv_stable lvl f : Forall (keeps f) (base_patches lvl) → Forall (stable base_file f) (base_inv lvl).
Proof.
  intros Hk. apply Forall_app. split; [|apply base_facts_stable]. apply Forall_fmap. rewrite Forall_reverse.
  eapply Forall_impl; [exact Hk|]. intros q. apply skipped_stable.
Qed.

Lemma fresh_skips lvl : Forall (λ q, skips q (Some (freshBaseConfigWithLogLevel lvl))) (base_patches lvl).
Proof. repeat constructor; try done. unfold skips, patchBaseLogLevel, freshBaseConfigWithLogLevel. cbn. by rewrite String.eqb_refl. Qed.

Lemma base_runs lvl : runs fresh_start (ensureBaseConfigWithLogLevel lvl) (holds (base_inv lvl)).
Proof.
  intros d [Hf Hn]. unfold ensureBaseConfigWithLogLevel. rewrite (bind_run _ _ _ _ _ (stat_slot_run _ _ Hf)).
  destruct (bool_decide (is_Some (slots_of d !! base_file))) eqn:Ep.
  - apply bool_decide_eq_true in Ep.
    assert (runs (holds base_facts) (run_steps (patch_slot base_file <$> base_patches lvl)) (holds (base_inv lvl))) as Hr.
    { apply patches_base; [apply base_heals|apply base_calm|apply base_keeps| |by right; left].
      apply Forall_forall. intros q _. apply base_facts_stable. }
    apply (Hr d). split; [|by repeat constructor]. split; [done|]. unfold slots_of in Ep. destruct (confd d); [by eexists|].
    cbn in Ep. rewrite lookup_empty in Ep. by destruct Ep.
  - unfold mkdir_confd, writeJSONFile, write_slot. run_io Hf. cbn. run_io Hf. cbn.
    set (d2 := set_confd _ _). assert (slots_of d2 !! base_file = Some (MarshalIndent (JObject (freshBaseConfigWithLogLevel lvl)))) as Hs.
    { unfold d2, slots_of. cbn. by rewrite lookup_insert_eq. }
    assert (doc base_file d2 = Some (Some (freshBaseConfigWithLogLevel lvl))) as Hd by (unfold doc; by rewrite Hs).
    assert (Forall (λ P, P d2) (base_inv lvl)) as Hinv; [|split; [done|by split; [split; [done|by eexists]|]]].
    unfold base_inv. rewrite Forall_app. split.
    + apply Forall_fmap. rewrite Forall_reverse. eapply Forall_impl; [apply fresh_skips|]. intros q Hq m. rewrite Hd. by intros [= <-].
    + repeat constructor; [by eexists|]. unfold not_null. by rewrite Hd.
Qed.

(** *** The single file and the slot of the tunnels *)

Definition legacy_done (d : Disk) : Prop :=
  legacy d ≫= unmarshal_map = None ∨ present tunnels_file d.

Lemma legacy_done_stable n f : stable n f legacy_done.
Proof. intros d m m' Hd Hf [?|Hp]; [by left|right]. by apply (present_stable n f tunnels_file d m m'). Qed.

Lemma legacy_runs Ps : Forall (local base_file) Ps →
  runs (holds Ps) (_ ← ensureLegacyConfigMigrated; mret false) (holds (legacy_done :: Ps)).
Proof.
  intros Hl d [[Hf Hc] Hps].
  assert (∀ d', bfaults d' = [] → is_Some (confd d') → slots_of d' !! base_file = slots_of d !! base_file → legacy_done d' →
    holds (legacy_done :: Ps) d') as Hend.
  { intros d' ? ? Hb ?. split; [by split|constructor; [done|]]. apply Forall_forall. intros P Hin.
    apply (proj1 (Forall_forall _ _) Hl P Hin d d'); [done|]. by apply (proj1 (Forall_forall _ _) Hps). }
  unfold ensureLegacyConfigMigrated. run_io Hf. cbn [negb andb].
  destruct (bool_decide (is_Some (legacy d))) eqn:El.
  - rewrite (stat_slot_run _ _ Hf). destruct (bool_decide (is_Some (slots_of d !! tunnels_file))) eqn:Et.
    + split; [done|]. apply Hend; try done. right. by apply bool_decide_eq_true in Et.
    + rewrite Hf. cbn [fst snd]. change (option_bind _ _ unmarshal_map (legacy d)) with (legacy d ≫= unmarshal_map).
      destruct (legacy d ≫= unmarshal_map) as [m|] eqn:Em.
      * unfold Save. generalize (MarshalIndent (MarshalJSON (ensureNaiveUDPOverTCPOutbounds (legacy_slot {| raw := m |})))). intros c.
        rewrite (write_slot_run _ _ _ Hf). unfold remove_legacy. run_io Hf. cbn. rewrite Hf. cbn. split; [done|].
        apply Hend; [done|by eexists| |by left]. unfold slots_of at 1. cbn. by rewrite lookup_insert_ne.
      * split; [done|]. apply Hend; try done. by left.
  - split; [done|]. apply Hend; try done. left. cbn [snd]. apply bool_decide_eq_false in El. destruct (legacy d); [by destruct El; eexists|done].
Qed.

Definition tunnel_facts : list (Disk → Prop) := [skipped tunnels_file naive; settled].

Lemma tunnel_facts_stable : Forall (stable tunnels_file stray_patch) tunnel_facts.
Proof. constructor; [apply skipped_stable, stray_keeps_naive|constructor; [apply settled_stable, stray_writes|constructor]]. Qed.
Lemma tunnel_facts_local : Forall (local tunnels_file) tunnel_facts.
Proof. constructor; [apply skipped_local|constructor; [apply settled_local|constructor]]. Qed.

Definition start_inv (lvl : string) : list (Disk → Prop) := tunnel_facts ++ legacy_done :: base_inv lvl.

Lemma tunnels_stable lvl f : Forall (stable tunnels_file f) (legacy_done :: base_inv lvl).
Proof. constructor; [apply legacy_done_stable|by apply base_inv_stable_ne]. Qed.

Lemma strip_runs lvl : runs (holds (legacy_done :: base_inv lvl)) (patch_slot tunnels_file strip)
  (holds (settled :: legacy_done :: base_inv lvl)).
Proof. apply patch_any; [apply tunnels_stable|apply strip_establishes|apply strip_calm]. Qed.
Lemma naive_runs lvl : runs (holds (settled :: legacy_done :: base_inv lvl)) (patch_slot tunnels_file naive)
  (holds (start_inv lvl)).
Proof.
  apply patch_any; [constructor; [apply settled_stable, naive_writes|apply tunnels_stable]|apply heals_establishes, naive_heals|apply naive_calm].
Qed.

(** *** Every file *)

Definition stray_done (d : Disk) : Prop := ∀ n, n ≠ base_file → HasSuffix n ".json" = true → skipped n stray_patch d.

Lemma start_inv_stable lvl n : n ≠ base_file → Forall (stable n stray_patch) (start_inv lvl).
Proof.
  intros Hne. unfold start_inv. rewrite Forall_app. split.
  - destruct (base.decide (n = tunnels_file)) as [->|Hnt]; [apply tunnel_facts_stable|].
    eapply Forall_impl; [apply tunnel_facts_local|]. intros P Hl. by apply (local_stable tunnels_file).
  - constructor; [apply legacy_done_stable|by apply base_inv_stable_ne].
Qed.

Lemma stray_files_runs names : ∀ Ps, Forall (λ n, Forall (stable n stray_patch) Ps) names →
  runs (holds Ps) (stray_files names) (holds (((λ n, skipped n stray_patch) <$> reverse names) ++ Ps)).
Proof.
  induction names as [|n names IH]; intros Ps Hst; [by intros d Hd|]. apply Forall_cons in Hst as [Hn Hst].
  assert (runs (holds Ps) (patch_slot n stray_patch) (holds (skipped n stray_patch :: Ps))) as Hp.
  { apply patch_any; [done|apply heals_establishes, stray_heals|apply stray_calm]. }
  intros d Hd. cbn [stray_files]. unfold mbind, ST_bind. specialize (Hp d Hd). destruct (patch_slot n stray_patch d) as [p d1].
  destruct Hp as [Hp0 Hp]. cbn in Hp0, Hp. subst p. rewrite reverse_cons, fmap_app, <- app_assoc. apply IH; [|done].
  apply Forall_forall. intros n' Hin. constructor; [|by apply (proj1 (Forall_forall _ _) Hst)].
  destruct (base.decide (n = n')) as [->|Hne]; [apply skipped_stable, heals_keeps, stray_heals|].
  apply (local_stable n); [apply skipped_local|done].
Qed.

Definition same_names (d0 d : Disk) : Prop := dom (slots_of d) = dom (slots_of d0).
Lemma same_names_stable d0 n f : stable n f (same_names d0).
Proof.
  intros d m m' Hd _ Hs. unfold same_names, wrote, slots_of in *. cbn. rewrite dom_insert_L, Hs. unfold doc, slots_of in Hd.
  destruct (default ∅ (confd d) !! n) as [c|] eqn:E; [|done]. apply elem_of_dom_2 in E. unfold slots_of in Hs. set_solver.
Qed.

Lemma stray_runs lvl : runs (holds (start_inv lvl)) stripStrayDirectPlaceholder (holds (stray_done :: start_inv lvl)).
Proof.
  intros d Hd. pose proof Hd as [[Hf Hc] Hps]. unfold stripStrayDirectPlaceholder. run_io Hf. cbn.
  destruct (stray_files_runs (slot_names d) (same_names d :: start_inv lvl)) with (s := d) as [Hp [Hr Hq]].
  - apply Forall_forall. intros n [[Hne _] _]%list_elem_of_filter. constructor; [apply same_names_stable|by apply start_inv_stable].
  - split; [done|]. by constructor.
  - split; [done|]. split; [done|]. rewrite Forall_app in Hq. destruct Hq as [Hs Hq]. apply Forall_cons in Hq as [Hn Hq].
    constructor; [|done]. intros n Hne Hsuf m Hm. rewrite Forall_fmap, Forall_reverse in Hs.
    apply (proj1 (Forall_forall _ _) Hs n); [|done]. apply list_elem_of_filter. split; [done|].
    rewrite merge_sort_Permutation. apply list_elem_of_fmap. unfold doc in Hm.
    destruct (slots_of _ !! n) as [c|] eqn:E; [|done]. apply elem_of_dom_2 in E. rewrite Hn in E. apply elem_of_dom in E as [c' E].
    exists (n, c'). split; [done|]. by apply elem_of_map_to_list.
Qed.

(** *** What the base file must not set *)

Definition router_owns (d : Disk) : bool :=
  match doc router_file d with Some m => strategy_set m | None => false end.

Lemma dns_final_run d : bfaults d = [] →
  removeDNSFinalFromBase d = patch_slot base_file (dns_final_patch (router_owns d)) d.
Proof.
  intros Hf. unfold removeDNSFinalFromBase, patch_slot. rewrite !(bind_run _ _ _ _ _ (read_slot_run _ _ Hf)).
  destruct (slots_of d !! base_file) as [data|]; [|done]. destruct (unmarshal_map data) as [m|]; [|done].
  assert (routerOwnsDNSStrategy d = (router_owns d, d)) as Ho.
  { unfold routerOwnsDNSStrategy. rewrite (bind_run _ _ _ _ _ (read_slot_run _ _ Hf)). unfold router_owns, doc.
    by destruct (slots_of d !! router_file). }
  destruct (field_object "dns" m ≫= obj_get "strategy") as [v|] eqn:Es.
  - by rewrite (bind_run _ _ _ _ _ Ho).
  - unfold mbind at 1, ST_bind. cbn [mret ST_ret].
    assert (dns_final_patch false m = dns_final_patch (router_owns d) m) as ->; [|done].
    unfold dns_final_patch. destruct (field_object "dns" m) as [dns|]; [|done]. cbn in Es. by rewrite Es.
Qed.

Definition dns_done (d : Disk) : Prop := skipped base_file (dns_final_patch (router_owns d)) d.

Definition boot_inv (lvl : string) : list (Disk → Prop) :=
  stray_done :: tunnel_facts ++ legacy_done :: skipped base_file removeFinalFromBase :: base_inv lvl.

Lemma stray_done_stable f : stable base_file f stray_done.
Proof.
  intros d m m' Hd Hf Hs n Hne Hsuf. eapply (local_stable n base_file); [apply skipped_local|done|exact Hd|exact Hf|by apply Hs].
Qed.

Lemma above_base_stable f : Forall (stable base_file f) (stray_done :: tunnel_facts ++ [legacy_done]).
Proof.
  constructor; [apply stray_done_stable|]. apply Forall_app. split.
  - eapply Forall_impl; [apply tunnel_facts_local|]. intros P Hl. by apply (local_stable tunnels_file).
  - constructor; [apply legacy_done_stable|constructor].
Qed.

Lemma holds_perm Ps Qs d : Qs ⊆ Ps → holds Ps d → holds Qs d.
Proof. intros Hsub [Hr Hps]. split; [done|]. apply Forall_forall. intros P Hin. apply (proj1 (Forall_forall _ _) Hps), Hsub, Hin. Qed.

Lemma final_runs lvl : runs (holds (stray_done :: start_inv lvl)) (patch_slot base_file removeFinalFromBase) (holds (boot_inv lvl)).
Proof.
  eapply (runs_weaken _ _ (holds (_ :: _))); [apply patch_base; [|apply final_heals|apply final_calm|]|done|].
  - change (stray_done :: start_inv lvl) with ((stray_done :: tunnel_facts ++ [legacy_done]) ++ base_inv lvl).
    apply Forall_app. split; [apply above_base_stable|apply base_inv_stable, final_keeps].
  - unfold start_inv, base_inv, base_facts. repeat (rewrite elem_of_app || rewrite elem_of_cons). tauto.
  - intros d. apply holds_perm. unfold boot_inv, start_inv. intros P. repeat (rewrite elem_of_app || rewrite elem_of_cons). tauto.
Qed.

Lemma router_owns_wrote m d : router_owns (wrote base_file m d) = router_owns d.
Proof. unfold router_owns. by rewrite doc_wrote_ne. Qed.

Lemma dns_done_establishes o : establishes base_file (dns_final_patch o) (λ d, router_owns d = o → dns_done d).
Proof.
  intros d. split_and!; unfold dns_done, skipped.
  - by intros ->.
  - by intros m -> Hs -> ? [= <-].
  - intros m m' _ Hf. rewrite router_owns_wrote. intros -> m0. rewrite doc_wrote. intros [= <-]. by apply (dns_final_heals o m).
Qed.

Lemma dns_final_runs lvl : runs (holds (boot_inv lvl)) removeDNSFinalFromBase (holds (dns_done :: boot_inv lvl)).
Proof.
  intros d Hd. rewrite (dns_final_run d (proj1 (proj1 Hd))). set (o := router_owns d).
  assert (runs (holds ((λ d, router_owns d = o) :: boot_inv lvl)) (patch_slot base_file (dns_final_patch o))
    (holds ((λ d, router_owns d = o → dns_done d) :: (λ d, router_owns d = o) :: boot_inv lvl))) as Hr.
  { eapply (patch_rule _ _ _ _ (not_null base_file)); [|apply dns_done_establishes| |].
    - constructor; [intros d' m m' _ _; by rewrite router_owns_wrote|].
      assert (Forall (stable base_file (dns_final_patch o)) ((stray_done :: tunnel_facts ++ [legacy_done]) ++
        skipped base_file removeFinalFromBase :: base_inv lvl)) as Hst; [|exact Hst].
      pose proof (dns_final_keeps o lvl) as Hk. apply Forall_cons in Hk as [Hk Hks].
      apply Forall_app. split; [apply above_base_stable|]. constructor; [by apply skipped_stable|by apply base_inv_stable].
    - intros d' Hps. apply (proj1 (Forall_forall _ _) Hps (not_null base_file)). unfold boot_inv, base_inv, base_facts.
      repeat (rewrite elem_of_app || rewrite elem_of_cons). tauto.
    - intros d' [fs|] Hn Hd'; [apply dns_final_calm|by destruct Hn]. }
  destruct (Hr d) as [Hp [Hrd Hq]]; [split; [apply Hd|constructor; [done|apply Hd]]|]. split; [done|]. split; [done|].
  apply Forall_cons in Hq as [Hq1 Hq]. apply Forall_cons in Hq as [Hq2 Hq]. constructor; [by apply Hq1|done].
Qed.

(** ** The whole start-up *)

Lemma boot_runs lvl : runs fresh_start (boot lvl) (holds (dns_done :: boot_inv (normalizeSingboxLogLevel lvl))).
Proof.
  unfold boot. eapply runs_cons; [apply migrate_runs|]. eapply runs_cons; [apply base_runs|].
  eapply runs_cons; [apply legacy_runs, base_inv_local|]. eapply runs_cons; [apply strip_runs|].
  eapply runs_cons; [apply naive_runs|]. eapply runs_cons; [apply stray_runs|].
  eapply runs_cons; [apply final_runs|]. eapply runs_cons; [apply dns_final_runs|]. apply runs_nil.
Qed.

Lemma skipped_run n f d : bfaults d = [] → skipped n f d → patch_slot n f d = (false, d).
Proof.
  intros Hf Hs. rewrite (patch_slot_run _ _ _ Hf). unfold skipped in Hs. destruct (doc n d) as [m|]; [|done].
  by rewrite (Hs m eq_refl).
Qed.
Lemma quiet_steps steps d : Forall (λ s, s d = (false, d)) steps → run_steps steps d = (false, d).
Proof. induction 1 as [|s steps Hs _ IH]; [done|]. cbn [run_steps]. by rewrite (bind_run _ _ _ _ _ Hs). Qed.

Lemma settled_run d : bfaults d = [] → is_Some (confd d) → settled d → patch_slot tunnels_file strip d = (false, d).
Proof.
  intros Hf Hc Hs. rewrite (patch_slot_run _ _ _ Hf). unfold settled in Hs. destruct (doc tunnels_file d) as [m|]; [|done].
  destruct (Hs m eq_refl) as [Hskip|(fs & -> & Hst & Hslot)]; [by rewrite Hskip|]. destruct (stripped_again _ Hst) as [->| ->]; [done|].
  by rewrite wrote_same.
Qed.

Lemma stray_quiet d names : bfaults d = [] → Forall (λ n, skipped n stray_patch d) names → stray_files names d = (false, d).
Proof.
  intros Hf. induction 1 as [|n names Hn _ IH]; [done|]. cbn [stray_files]. by rewrite (bind_run _ _ _ _ _ (skipped_run _ _ _ Hf Hn)).
Qed.

Lemma boot_quiet lvl d : holds (dns_done :: boot_inv (normalizeSingboxLogLevel lvl)) d → boot lvl d = (false, d).
Proof.
  intros [[Hf Hc] Hps]. apply Forall_cons in Hps as [Hdns Hps]. apply Forall_cons in Hps as [Hstray Hps].
  apply Forall_app in Hps as [Htun Hps]. apply Forall_cons in Htun as [Hnaive Htun]. apply Forall_cons in Htun as [Hset _].
  apply Forall_cons in Hps as [Hleg Hps]. apply Forall_cons in Hps as [Hfinal Hps].
  unfold base_inv in Hps. rewrite Forall_app, Forall_fmap, Forall_reverse in Hps. destruct Hps as [Hbase Hfacts].
  apply Forall_cons in Hfacts as [Hpres _].
  apply quiet_steps. repeat apply Forall_cons_2; [..|apply Forall_nil_2].
  - unfold MigrateLegacyConfigDir, stat_confd. run_io Hf. by rewrite bool_decide_true.
  - unfold ensureBaseConfigWithLogLevel. rewrite (bind_run _ _ _ _ _ (stat_slot_run _ _ Hf)), bool_decide_true by done.
    apply quiet_steps, Forall_fmap. eapply Forall_impl; [exact Hbase|]. intros f. by apply skipped_run.
  - unfold ensureLegacyConfigMigrated. run_io Hf. cbn [negb andb]. case_bool_decide as El; [|done].
    rewrite (stat_slot_run _ _ Hf). case_bool_decide as Et; [done|]. rewrite Hf.
    destruct Hleg as [Hleg|]; [|done]. unfold mbind in Hleg. by rewrite Hleg.
  - by apply settled_run.
  - by apply skipped_run.
  - unfold stripStrayDirectPlaceholder. run_io Hf. apply stray_quiet; [done|]. apply Forall_forall.
    intros n [[Hne Hsuf] _]%list_elem_of_filter. by apply Hstray.
  - by apply skipped_run.
  - rewrite dns_final_run by done. by apply skipped_run.
Qed.

(** A base file the daemon starts from. *)
Definition healthy (lvl : string) (m : option obj) : Prop :=
  (∃ log, field_object "log" m = Some log ∧ as_string (obj_get "level" log) = normalizeSingboxLogLevel lvl ∧
     has_key "timestamp" log = true) ∧
  (∃ v obs, field "outbounds" m = Some (JArray (v :: obs)) ∧ has_tag "direct" v = true) ∧
  (∃ route, field_object "route" m = Some route ∧ has_key "default_domain_resolver" route = true ∧ has_key "final" route = false) ∧
  (∀ dns, field_object "dns" m = Some dns → has_key "final" dns = false ∧ as_string (obj_get "strategy" dns) ≠ "ipv4_only") ∧
  (∀ exp, field_object "experimental" m = Some exp →
     (∀ clash, sub_object "clash_api" exp = Some clash → as_string (obj_get "external_controller" clash) = clashAPIAddr) ∧
     ∃ cf, sub_object "cache_file" exp = Some cf ∧ HasPrefix (as_string (obj_get "path" cf)) "/" = true ∧
       as_string (obj_get "path" cf) ≠ legacyCacheFilePath).

Lemma store_skip k v m : store k v m ≠ Skip.
Proof. by destruct m. Qed.

Lemma log_healthy lvl m : skips (patchBaseLogLevel lvl) m →
  ∃ log, field_object "log" m = Some log ∧ as_string (obj_get "level" log) = normalizeSingboxLogLevel lvl ∧ has_key "timestamp" log = true.
Proof.
  unfold skips, patchBaseLogLevel. destruct (_ && _ && _) eqn:E; [intros _|by intros ?%store_skip]. to_prop.
  destruct (field_object "log" m) as [log|]; [|done]. exists log. split_and!; [done..|]. by unfold has_key.
Qed.

Lemma direct_healthy m : skips patchBaseDirectOutbound m →
  ∃ v obs, field "outbounds" m = Some (JArray (v :: obs)) ∧ has_tag "direct" v = true.
Proof.
  unfold skips, patchBaseDirectOutbound. destruct (field "outbounds" m) as [[]|]; cbn; try by intros ?%store_skip.
  destruct l as [|v l]; cbn; [by intros ?%store_skip|]. destruct (has_tag "direct" v) eqn:Ev; [intros _; eauto|].
  destruct (index_of (has_tag "direct") l) as [i|] eqn:Ei; cbn; [|by intros ?%store_skip].
  destruct (l !! i) eqn:El; [by intros ?%store_skip|]. exfalso. clear Ev. revert i Ei El.
  induction l as [|w l IH]; [done|]. intros i. cbn. destruct (has_tag "direct" w); [by intros [= <-]|].
  destruct (index_of _ l) as [j|] eqn:Ej; [|done]. intros [= <-]. cbn. by apply IH.
Qed.

Lemma route_healthy m : skips patchBaseDomainResolver m → skips removeFinalFromBase m →
  ∃ route, field_object "route" m = Some route ∧ has_key "default_domain_resolver" route = true ∧ has_key "final" route = false.
Proof.
  unfold skips, patchBaseDomainResolver, removeFinalFromBase, has_key. destruct (field_object "route" m) as [r|]; [change (default [] (Some r)) with r|by intros ?%store_skip].
  destruct (obj_get "default_domain_resolver" r) eqn:Er; [intros _|by intros ?%store_skip].
  destruct (obj_get "final" r) eqn:Ef; [by intros ?%store_skip|intros _]. exists r. by rewrite Er, Ef.
Qed.

Lemma dns_healthy o m : skips patchBaseDNSStrategy m → skips (dns_final_patch o) m →
  ∀ dns, field_object "dns" m = Some dns → has_key "final" dns = false ∧ as_string (obj_get "strategy" dns) ≠ "ipv4_only".
Proof.
  unfold skips, patchBaseDNSStrategy, dns_final_patch, has_key. intros Hs Hd dns E. rewrite E in Hs, Hd.
  destruct (String.eqb _ _) eqn:Es; [by apply store_skip in Hs|]. to_prop. split; [|done].
  destruct (obj_get "final" dns); [by apply store_skip in Hd|done].
Qed.

Lemma experimental_healthy m : skips patchBaseClashPort m → skips patchBaseCacheFilePath m →
  ∀ exp, field_object "experimental" m = Some exp →
     (∀ clash, sub_object "clash_api" exp = Some clash → as_string (obj_get "external_controller" clash) = clashAPIAddr) ∧
     ∃ cf, sub_object "cache_file" exp = Some cf ∧ HasPrefix (as_string (obj_get "path" cf)) "/" = true ∧
       as_string (obj_get "path" cf) ≠ legacyCacheFilePath.
Proof.
  unfold skips, patchBaseClashPort, patchBaseCacheFilePath. intros Hc Hp exp E. rewrite E in Hc, Hp. split.
  - intros clash Ec. rewrite Ec in Hc. destruct (String.eqb _ _) eqn:Ea; [by to_prop|by apply store_skip in Hc].
  - destruct (sub_object "cache_file" exp) as [cf|]; [|by apply store_skip in Hp]. exists cf. split; [done|].
    destruct (_ || _) eqn:Eb; [by apply store_skip in Hp|]. apply orb_false_iff in Eb as [[_ Hpre]%orb_false_iff Hne].
    split; [by apply negb_false_iff|by apply String.eqb_neq].
Qed.

Lemma boot_healthy lvl d : holds (dns_done :: boot_inv lvl) d → ∀ m, doc base_file d = Some m → healthy lvl m.
Proof.
  intros [_ Hps] m Hm. rewrite Forall_forall in Hps.
  assert (∀ q, skipped base_file q ∈ boot_inv lvl → skips q m) as Hq.
  { intros q Hin. apply (Hps (skipped base_file q)); [by right|done]. }
  assert (∀ q, q ∈ removeFinalFromBase :: base_patches lvl → skips q m) as Hb.
  { intros q Hin. apply Hq. unfold boot_inv, base_inv. right. apply elem_of_app. right. right.
    apply elem_of_cons in Hin as [->|Hin]; [by left|right]. apply elem_of_app. left. apply list_elem_of_fmap_2. by apply elem_of_reverse. }
  assert (∃ o, skips (dns_final_patch o) m) as [o Ho].
  { exists (router_owns d). apply (Hps dns_done); [by left|done]. }
  assert (∀ i q, (removeFinalFromBase :: base_patches lvl) !! i = Some q → skips q m) as Hi by (intros i q ?%list_elem_of_lookup_2; auto).
  split_and!.
  - apply log_healthy. by apply (Hi 2).
  - apply direct_healthy. by apply (Hi 4).
  - apply route_healthy; [by apply (Hi 3)|by apply (Hi 0)].
  - apply (dns_healthy o); [by apply (Hi 6)|done].
  - apply experimental_healthy; [by apply (Hi 1)|by apply (Hi 5)].
Qed.

Lemma boot_null lvl d : bfaults d = [] → doc base_file d = Some None → (boot lvl d).1 = true.
Proof.
  intros Hf Hn. assert (is_Some (confd d)) as Hc.
  { unfold doc, slots_of in Hn. destruct (confd d); [by eexists|]. cbn in Hn. by rewrite lookup_empty in Hn. }
  assert (present base_file d) as Hp.
  { unfold doc in Hn. unfold present. destruct (slots_of d !! base_file); [by eexists|done]. }
  unfold boot. cbn [run_steps]. unfold mbind at 1, ST_bind at 1.
  assert ((_ ← MigrateLegacyConfigDir; mret false) d = (false, d)) as ->.
  { unfold MigrateLegacyConfigDir, stat_confd. run_io Hf. by rewrite bool_decide_true. }
  assert (∀ lvl, ensureBaseConfigWithLogLevel lvl d = (true, d)) as He; [|by rewrite (bind_run _ _ _ _ _ (He _))].
  clear lvl. intros lvl. unfold ensureBaseConfigWithLogLevel. rewrite (bind_run _ _ _ _ _ (stat_slot_run _ _ Hf)), bool_decide_true by done.
  rewrite !fmap_cons. cbn [run_steps]. rewrite (bind_run _ _ d false d) by (rewrite (patch_slot_run _ _ _ Hf), Hn; done).
  assert (patchBaseLogLevel lvl None = Panics) as Hlog by (unfold patchBaseLogLevel; by rewrite andb_false_r).
  by rewrite (bind_run _ _ d true d) by (rewrite (patch_slot_run _ _ _ Hf), Hn, Hlog; done).
Qed.

(** C3: A start-up whose file accesses succeed migrates and repairs the configuration
    directory once: it ends with a base file that, if it parses, has the wanted log level,
    the direct outbound first, a domain resolver, no [final] and a usable clash address and
    cache path; a second start-up changes nothing at all.  Only a base file that is [null]
    stops it, with a panic. *)
Theorem boot_settles (lvl : string) (d : Disk) (Hf : bfaults d = []) :
  (doc base_file d = Some None → (boot lvl d).1 = true) ∧
  (doc base_file d ≠ Some None → ∃ d', boot lvl d = (false, d') ∧ boot lvl d' = (false, d') ∧
    present base_file d' ∧ ∀ m, doc base_file d' = Some m → healthy (normalizeSingboxLogLevel lvl) m).
Proof.
  split; [by apply boot_null|]. intros Hn. destruct (boot_runs lvl d) as [Hp Hq]; [by split|].
  destruct (boot lvl d) as [p d']. cbn in Hp, Hq. subst p. exists d'. split_and!; [done|by apply boot_quiet| |by apply boot_healthy].
  destruct Hq as [_ Hps]. apply (proj1 (Forall_forall _ _) Hps (present base_file)). unfold boot_inv, base_inv, base_facts.
  repeat (rewrite elem_of_app || rewrite elem_of_cons). tauto.
Qed.
End steps.
