(* ===== verification/SbMerge.v ===== *)
(** * What the daemon reads: the merge of the slots ([singbox/configmerge/merge.go])

    [MergeDir] mirrors how sing-box reads [config.d]: the files in the order of their
    names, the known arrays concatenated, [dns] and [route] merged with the first file
    winning, [log] and [experimental] with the last one winning. *)
From S2P Require Import Prelude GoLib GoText SbJson SbTunnels SbDeviceProxy SbBoot.

(** One source: its base name and its document, [None] for [null]. *)
Definition source : Type := string * option obj.

Record CollisionError := { Tag : string; Kind : string; FirstFile : string; SecondFile : string }.
Inductive merge_error := Collision (e : CollisionError) | Other (what : string).

(** The arrays that are concatenated, in the order they are looked at. *)
Definition mergedArrayPaths : list (string * string) :=
  [("", "inbounds"); ("", "outbounds"); ("dns", "servers"); ("dns", "rules"); ("route", "rules"); ("route", "rule_set")].

Definition taggedArrays (key : string) : bool := bool_decide (key ∈ ["inbounds"; "outbounds"; "servers"; "rule_set"]).

(** ** Pass 1: keys

    A source's object is ranged over in the order of its fields; the keys are distinct,
    so the order does not matter to the values. *)
Definition first_wins (src dst : obj) : obj :=
  foldl (λ d e, match obj_get e.1 d with Some _ => d | None => obj_put e.1 e.2 d end) dst src.
Definition last_wins (src dst : obj) : obj := foldl (λ d e, obj_put e.1 e.2 d) dst src.

Definition merge_object (k : string) (f : obj → obj → obj) (v : json) (merged : obj) : obj :=
  let dst := default [] (sub_object k merged) in
  obj_put k (JObject match v with JObject src => f src dst | _ => dst end) merged.

Definition merge_key (merged : obj) (e : string * json) : obj :=
  if bool_decide (e.1 ∈ ["dns"; "route"]) then merge_object e.1 first_wins e.2 merged
  else if bool_decide (e.1 ∈ ["experimental"; "log"]) then merge_object e.1 last_wins e.2 merged
  else obj_put e.1 e.2 merged.

Definition merge_keys (sources : list source) : obj :=
  foldl (λ merged s, foldl merge_key merged (default [] s.2)) [] sources.

(** ** Pass 2: arrays *)

Definition getArrayAt (m : option obj) (parent key : string) : list json :=
  if String.eqb parent "" then as_array (m ≫= obj_get key)
  else as_array ((m ≫= sub_object parent) ≫= obj_get key).

(** [nil], the empty concatenation, is not set. *)
Definition setArrayAt (parent key : string) (val : list json) (m : obj) : obj :=
  match val with
  | [] => m
  | _ =>
      if String.eqb parent "" then obj_put key (JArray val) m
      else obj_put parent (JObject (obj_put key (JArray val) (default [] (sub_object parent m)))) m
  end.

Definition Seen : Type := gmap string string. (* "kind:tag" and the first file *)

Definition item_tag (v : json) : string := match v with JObject ob => tag_of ob | _ => "" end.

Fixpoint check_tags (key name : string) (arr : list json) (seen : Seen) : CollisionError + Seen :=
  match arr with
  | [] => inr seen
  | item :: arr =>
      let tag := item_tag item in
      if String.eqb tag "" then check_tags key name arr seen
      else
        let seenKey := key +:+ ":" +:+ tag in
        match seen !! seenKey with
        | Some first => inl {| Tag := tag; Kind := key; FirstFile := first; SecondFile := name |}
        | None => check_tags key name arr (<[seenKey := name]> seen)
        end
  end.

Fixpoint concat_arrays (parent key : string) (sources : list source) (seen : Seen) (acc : list json)
    : CollisionError + list json * Seen :=
  match sources with
  | [] => inr (acc, seen)
  | s :: sources =>
      let arr := getArrayAt s.2 parent key in
      match (if taggedArrays key then check_tags key s.1 arr seen else inr seen) with
      | inl e => inl e
      | inr seen => concat_arrays parent key sources seen (acc ++ arr)
      end
  end.

Fixpoint merge_arrays (paths : list (string * string)) (sources : list source) (seen : Seen) (merged : obj)
    : CollisionError + obj :=
  match paths with
  | [] => inr merged
  | (parent, key) :: paths =>
      match concat_arrays parent key sources seen [] with
      | inl e => inl e
      | inr (concat, seen) => merge_arrays paths sources seen (setArrayAt parent key concat merged)
      end
  end.

Definition merge_parsed (sources : list source) : CollisionError + obj :=
  merge_arrays mergedArrayPaths sources ∅ (merge_keys sources).

(** ** The directory *)

Definition collectActiveSlots : B (string + list string) :=
  bad ← bfault; d ← gets id;
  match confd d with
  | Some files =>
      mret (if (bad : bool) then inl "read config dir"
            else inr (filter (λ n, HasSuffix n ".json" = true) (merge_sort String.le (map_to_list files).*1)))
  | None => mret (inl "read config dir")
  end.

Fixpoint read_sources (names : list string) : B (string + list source) :=
  match names with
  | [] => mret (inr [])
  | n :: names =>
      r ← read_slot n;
      match r with
      | inr (Some data) =>
          match unmarshal_map data with
          | None => mret (inl ("parse " +:+ n))
          | Some m => rest ← read_sources names; mret (match rest with inl e => inl e | inr l => inr ((n, m) :: l) end)
          end
      | _ => mret (inl ("read " +:+ n))
      end
  end.

Definition mergeSources (names : list string) : B (merge_error + obj) :=
  r ← read_sources names;
  mret match r with
       | inl e => inl (Other e)
       | inr sources => match merge_parsed sources with inl e => inl (Collision e) | inr m => inr m end
       end.

Definition MergeDir : B (merge_error + content) :=
  r ← collectActiveSlots;
  match r with
  | inl e => mret (inl (Other e))
  | inr names => m ← mergeSources names; mret (match m with inl e => inl e | inr m => inr (MarshalIndent (JObject m)) end)
  end.
