(* ===== verification/SbMergeProps.v ===== *)
(** * The merge of the slots, as a reading of its sources

    What a key of the merged configuration is in terms of the files, and when the merge
    refuses. *)
From S2P Require Import Prelude GoLib GoText SbJson SbTunnels SbTunnelsProps SbDeviceProxy SbBoot SbBootProps SbMerge.

(** The value at a key, or at a key of a block. *)
Definition val_at (parent key : string) (m : obj) : option json :=
  if String.eqb parent "" then obj_get key m else sub_object parent m ≫= obj_get key.
Definition in_source (parent key : string) (s : source) : option json := s.2 ≫= val_at parent key.
Definition values (parent key : string) (sources : list source) : list json := omap (in_source parent key) sources.

Definition all_items (parent key : string) (sources : list source) : list json :=
  s ← sources; as_array (in_source parent key s).

(** The tags of a known array, each with the file it is in. *)
Definition tag_pairs (name : string) (arr : list json) : list (string * string) :=
  pair name <$> filter (.≠ "") (item_tag <$> arr).
Definition all_tags (parent key : string) (sources : list source) : list (string * string) :=
  s ← sources; tag_pairs s.1 (as_array (in_source parent key s)).

Lemma getArrayAt_eq s p k : getArrayAt s.2 p k = as_array (in_source p k s).
Proof. unfold getArrayAt, in_source, val_at. destruct s as [n [m|]]; cbn; by destruct (String.eqb p ""). Qed.

(** ** Keys *)

Lemma put_get k v k' (m : obj) : obj_get k' (obj_put k v m) = if base.decide (k' = k) then Some v else obj_get k' m.
Proof. destruct (base.decide (k' = k)) as [->|]; [apply obj_get_put_eq|by apply obj_get_put_ne]. Qed.

Lemma get_cons k k' v (m : obj) : obj_get k ((k', v) :: m) = if base.decide (k' = k) then Some v else obj_get k m.
Proof. unfold obj_get. cbn. destruct (base.decide (k' = k)) as [->|Hne]; [by rewrite String.eqb_refl|by apply String.eqb_neq in Hne as ->]. Qed.

Lemma get_not_in k (m : obj) : k ∉ m.*1 → obj_get k m = None.
Proof.
  induction m as [|[k' v] m IH]; [done|]. rewrite fmap_cons, not_elem_of_cons. intros [Hne Hn]. rewrite get_cons, decide_False by auto. by apply IH.
Qed.

Lemma first_wins_get src dst k :
  obj_get k (first_wins src dst) = match obj_get k dst with Some v => Some v | None => obj_get k src end.
Proof.
  unfold first_wins. revert dst. induction src as [|[k' v] src IH]; intros dst; cbn [foldl]; [by destruct (obj_get k dst)|].
  rewrite IH, get_cons. cbn [fst snd]. destruct (obj_get k' dst) eqn:E; [|rewrite put_get; destruct (base.decide (k = k')) as [->|Hne]].
  - destruct (base.decide (k' = k)) as [<-|]; [by rewrite E|done].
  - by rewrite E, decide_True.
  - by rewrite (decide_False (P := k' = k)) by auto.
Qed.

Lemma last_wins_get src dst k : NoDup src.*1 →
  obj_get k (last_wins src dst) = match obj_get k src with Some v => Some v | None => obj_get k dst end.
Proof.
  unfold last_wins. revert dst. induction src as [|[k' v] src IH]; intros dst; [done|]. rewrite fmap_cons. intros [Hn Hnd]%NoDup_cons.
  cbn [foldl]. rewrite IH, get_cons, put_get by done. cbn [fst snd] in *. destruct (base.decide (k' = k)) as [->|Hne].
  - by rewrite get_not_in, decide_True.
  - by rewrite (decide_False (P := k = k')) by auto.
Qed.

Definition block_first (k : string) : bool := bool_decide (k ∈ ["dns"; "route"]).
Definition block_last (k : string) : bool := bool_decide (k ∈ ["experimental"; "log"]).

(** What a source's value makes of the value so far. *)
Definition merged_value (k : string) (v : json) (old : option json) : json :=
  let dst := default [] (as_object old) in
  let into f := JObject match v with JObject src => f src dst | _ => dst end in
  if block_first k then into first_wins else if block_last k then into last_wins else v.

Lemma merge_key_get merged e k :
  obj_get k (merge_key merged e) = if base.decide (k = e.1) then Some (merged_value e.1 e.2 (obj_get k merged)) else obj_get k merged.
Proof.
  destruct e as [k' v]. unfold merge_key, merge_object, merged_value, block_first, block_last, sub_object. cbn [fst snd].
  destruct (bool_decide (k' ∈ ["dns"; "route"])); [|destruct (bool_decide (k' ∈ ["experimental"; "log"]))];
    rewrite put_get; by destruct (base.decide (k = k')) as [->|].
Qed.

Lemma merge_source_get m merged k : NoDup m.*1 →
  obj_get k (foldl merge_key merged m) =
  match obj_get k m with Some v => Some (merged_value k v (obj_get k merged)) | None => obj_get k merged end.
Proof.
  revert merged. induction m as [|[k' v] m IH]; intros merged; [done|]. rewrite fmap_cons. intros [Hn Hnd]%NoDup_cons.
  cbn [foldl]. rewrite IH, get_cons, merge_key_get by done. cbn [fst snd] in *. destruct (base.decide (k' = k)) as [->|Hne].
  - by rewrite get_not_in, decide_True by done.
  - by rewrite (decide_False (P := k = k')) by auto.
Qed.

Lemma last_option {A} (l : list A) v : last (l ++ option_list v) = match v with Some x => Some x | None => last l end.
Proof. destruct v as [x|]; cbn; [apply last_snoc|by rewrite app_nil_r]. Qed.
Lemma head_option {A} (l : list A) v : head (l ++ option_list v) = match head l with Some x => Some x | None => v end.
Proof. destruct l; [by destruct v|done]. Qed.

(** Documents have distinct keys: here, and in the blocks that are merged. *)
Definition well_keyed (s : source) : Prop := ∀ m, s.2 = Some m →
  NoDup m.*1 ∧ ∀ k b, sub_object k m = Some b → NoDup b.*1.

Definition special (k : string) : bool := block_first k || block_last k.

Lemma merge_keys_snoc sources s :
  merge_keys (sources ++ [s]) = foldl merge_key (merge_keys sources) (default [] s.2).
Proof. unfold merge_keys. by rewrite foldl_app. Qed.

Lemma values_snoc p k sources s : values p k (sources ++ [s]) = values p k sources ++ option_list (in_source p k s).
Proof. unfold values. rewrite omap_app. cbn. by destruct (in_source p k s). Qed.

Lemma merge_keys_plain sources k : Forall well_keyed sources → special k = false →
  obj_get k (merge_keys sources) = last (values "" k sources).
Proof.
  intros Hw Hk. induction sources as [|s sources IH] using rev_ind; [done|]. apply Forall_app in Hw as [Hw Hs]; apply Forall_cons in Hs as [Hs _].
  rewrite merge_keys_snoc, values_snoc. destruct s as [n [m|]]; cbn [snd default from_option id in_source mbind option_bind option_list]; cycle 1.
  { rewrite app_nil_r. by apply IH. }
  unfold id. rewrite merge_source_get by by apply Hs. change (val_at "" k m) with (obj_get k m).
  rewrite last_option, <- IH by done. unfold merged_value. apply orb_false_iff in Hk as [-> ->]. by destruct (obj_get k m).
Qed.

Lemma merge_keys_block sources p k : Forall well_keyed sources → special p = true → p ≠ "" →
  val_at p k (merge_keys sources) = if block_first p then head (values p k sources) else last (values p k sources).
Proof.
  intros Hw Hp Hne. apply String.eqb_neq in Hne. induction sources as [|s sources IH] using rev_ind.
  { unfold val_at. rewrite Hne. by destruct (block_first p). }
  apply Forall_app in Hw as [Hw Hs]; apply Forall_cons in Hs as [Hs _]. specialize (IH Hw). rewrite merge_keys_snoc, values_snoc.
  destruct s as [n [m|]]; cbn [snd default from_option]; cycle 1.
  { unfold id. cbn [foldl in_source snd mbind option_bind option_list]. by rewrite app_nil_r. }
  unfold id. unfold in_source. cbn [snd mbind option_bind]. unfold val_at in *. rewrite Hne in *. unfold sub_object at 1.
  rewrite merge_source_get by by apply Hs. change (sub_object p m) with (as_object (obj_get p m)).
  destruct (obj_get p m) as [v|] eqn:Em; cycle 1.
  { cbn [as_object mbind option_bind]. change (option_list (@None json)) with (@nil json). rewrite app_nil_r. exact IH. }
  unfold merged_value. set (old := obj_get p (merge_keys sources)) in *.
  change (sub_object p (merge_keys sources)) with (as_object old) in IH.
  assert (∀ d, default [] (as_object old) = d → obj_get k d = (as_object old ≫= obj_get k)) as Hold by (intros d <-; by destruct (as_object old)).
  destruct (block_first p) eqn:Ef.
  - cbn [as_object mbind option_bind]. rewrite head_option, <- IH. destruct v as [| | | | |src];
      try (rewrite (Hold _ eq_refl); by destruct (as_object old ≫= obj_get k)).
    by rewrite first_wins_get, (Hold _ eq_refl).
  - assert (block_last p = true) as -> by (unfold special in Hp; by rewrite Ef in Hp). cbn [as_object mbind option_bind].
    rewrite last_option, <- IH. destruct v as [| | | | |src]; try (by apply Hold).
    rewrite last_wins_get, (Hold _ eq_refl); [done|eapply (proj2 (Hs m eq_refl) p); unfold sub_object; by rewrite Em].
Qed.

(** ** Tags *)

Definition seen_key (key tag : string) : string := key +:+ ":" +:+ tag.

(** Two known arrays never share a key of [seen]. *)
Lemma seen_key_inj key tag key' tag' : taggedArrays key = true → taggedArrays key' = true →
  seen_key key tag = seen_key key' tag' → key = key' ∧ tag = tag'.
Proof.
  unfold taggedArrays. intros Hk%bool_decide_eq_true Hk'%bool_decide_eq_true E.
  repeat (apply elem_of_cons in Hk as [->|Hk]); try (by apply elem_of_nil in Hk);
    repeat (apply elem_of_cons in Hk' as [->|Hk']); try (by apply elem_of_nil in Hk'); cbn in E; by simplify_eq.
Qed.

(** [seen] holds of the array [key] exactly the tags of [done], each with a file it is in. *)
Definition seen_ok (key : string) (done : list (string * string)) (seen : Seen) : Prop :=
  (∀ tag f, seen !! seen_key key tag = Some f → (f, tag) ∈ done) ∧
  (∀ tag, tag ∈ done.*2 → is_Some (seen !! seen_key key tag)).

(** The rest of the table, and the array's part of it. *)
Definition others_same (key : string) (seen seen' : Seen) : Prop :=
  ∀ key' tag, taggedArrays key' = true → key' ≠ key → seen' !! seen_key key' tag = seen !! seen_key key' tag.

Definition collided (key name : string) (pairs : list (string * string)) (e : CollisionError) : Prop :=
  Kind e = key ∧ SecondFile e = name ∧ (FirstFile e, Tag e) ∈ pairs ∧ (name, Tag e) ∈ pairs ∧ ¬ NoDup pairs.*2.

Lemma pairs_grow {A} (l l' : list (A * string)) : ¬ NoDup l.*2 → ¬ NoDup (l ++ l').*2.
Proof. rewrite fmap_app. by intros Hn (Hl & _)%NoDup_app. Qed.

Lemma tag_pairs_cons name item arr :
  tag_pairs name (item :: arr) = (if String.eqb (item_tag item) "" then [] else [(name, item_tag item)]) ++ tag_pairs name arr.
Proof.
  unfold tag_pairs. rewrite fmap_cons, filter_cons. destruct (String.eqb (item_tag item) "") eqn:E; to_prop.
  - by rewrite decide_False by auto.
  - by rewrite decide_True.
Qed.

Lemma check_tags_spec key name arr : taggedArrays key = true → ∀ seen done, seen_ok key done seen → NoDup done.*2 →
  match check_tags key name arr seen with
  | inr seen' => seen_ok key (done ++ tag_pairs name arr) seen' ∧ NoDup (done ++ tag_pairs name arr).*2 ∧ others_same key seen seen'
  | inl e => collided key name (done ++ tag_pairs name arr) e
  end.
Proof.
  intros Ht. induction arr as [|item arr IH]; intros seen done Hok Hnd; cbn [check_tags].
  { unfold tag_pairs. cbn. rewrite app_nil_r. by split_and!. }
  rewrite tag_pairs_cons. destruct (String.eqb (item_tag item) "") eqn:Ei; [cbn [app]; by apply IH|].
  fold (seen_key key (item_tag item)). destruct (seen !! seen_key key (item_tag item)) as [f|] eqn:Es.
  - apply Hok in Es. repeat split; cbn; [by apply elem_of_app; left|set_solver|].
    rewrite fmap_app. intros (_ & Hd & _)%NoDup_app. apply (Hd (item_tag item)); [by apply (list_elem_of_fmap_2 snd) in Es|by left].
  - rewrite (assoc_L (++)). set (done' := done ++ [(name, item_tag item)]).
    assert (seen_ok key done' (<[seen_key key (item_tag item) := name]> seen)) as Hok'.
    { destruct Hok as [H1 H2]. unfold done'. split.
      - intros tag f [[Ek <-]|[_ Hl]]%lookup_insert_Some.
        + apply seen_key_inj in Ek as [_ <-]; [|done..]. set_solver.
        + apply elem_of_app. left. by apply H1.
      - intros tag. rewrite fmap_app, elem_of_app. intros [Hin|Hin%list_elem_of_singleton]; apply lookup_insert_is_Some'.
        + right. by apply H2.
        + left. by rewrite Hin. }
    assert (NoDup done'.*2) as Hnd'.
    { unfold done'. rewrite fmap_app. apply NoDup_app. split; [done|]. split; [|apply NoDup_singleton].
      intros t Hin ->%list_elem_of_singleton. destruct Hok as [_ H2]. apply H2 in Hin as [? Hin]. cbn in Hin. congruence. }
    specialize (IH _ _ Hok' Hnd'). destruct (check_tags _ _ _ _) as [e|seen']; [done|]. destruct IH as (? & ? & Ho).
    split_and!; [done..|]. intros key' tag Hk' Hne. rewrite Ho by done. apply lookup_insert_ne. by intros [-> _]%seen_key_inj.
Qed.

Lemma all_items_cons p k s sources : all_items p k (s :: sources) = as_array (in_source p k s) ++ all_items p k sources.
Proof. done. Qed.
Lemma all_tags_cons p k s sources : all_tags p k (s :: sources) = tag_pairs s.1 (as_array (in_source p k s)) ++ all_tags p k sources.
Proof. done. Qed.

(** A tag of the array [key] is in two places. *)
Definition collision (key : string) (pairs : list (string * string)) (e : CollisionError) : Prop :=
  Kind e = key ∧ (FirstFile e, Tag e) ∈ pairs ∧ (SecondFile e, Tag e) ∈ pairs ∧ ¬ NoDup pairs.*2.

Lemma concat_arrays_spec p key sources : ∀ seen acc done, (taggedArrays key = true → seen_ok key done seen ∧ NoDup done.*2) →
  match concat_arrays p key sources seen acc with
  | inr (items, seen') => items = acc ++ all_items p key sources ∧
      (taggedArrays key = true → NoDup (done ++ all_tags p key sources).*2) ∧
      if taggedArrays key then others_same key seen seen' else seen' = seen
  | inl e => taggedArrays key = true ∧ collision key (done ++ all_tags p key sources) e
  end.
Proof.
  induction sources as [|s sources IH]; intros seen acc done Hok; cbn [concat_arrays].
  { unfold all_items, all_tags. cbn. rewrite !app_nil_r. split; [done|]. split; [by intros []%Hok|]. destruct (taggedArrays key); [by intros ????|done]. }
  rewrite getArrayAt_eq, all_items_cons, all_tags_cons, !(assoc_L (++)). destruct (taggedArrays key) eqn:Et; rewrite ?Et in IH.
  - destruct (Hok eq_refl) as [Hs Hnd]. pose proof (check_tags_spec key s.1 (as_array (in_source p key s)) Et seen done Hs Hnd) as Hc.
    destruct (check_tags _ _ _ _) as [e|seen1].
    + destruct Hc as (Hk & Hs2 & ? & ? & ?). split; [done|]. unfold collision. rewrite Hs2.
      split_and!; [done|apply elem_of_app; by left|apply elem_of_app; by left|by apply pairs_grow].
    + destruct Hc as (H1 & H2 & H3). specialize (IH seen1 (acc ++ as_array (in_source p key s)) _ (λ _, conj H1 H2)).
      destruct (concat_arrays _ _ _ _ _) as [e|[items seen']]; [done|]. destruct IH as (-> & ? & Ho). split_and!; [done..|].
      intros key' tag Hk' Hne. by rewrite Ho, H3.
  - specialize (IH seen (acc ++ as_array (in_source p key s)) (done ++ tag_pairs s.1 (as_array (in_source p key s)))).
    specialize (IH ltac:(done)). by destruct (concat_arrays _ _ _ _ _) as [e|[items seen']].
Qed.

(** ** The arrays *)

Definition set_all (sources : list source) (paths : list (string * string)) (m : obj) : obj :=
  foldl (λ m pk, setArrayAt pk.1 pk.2 (all_items pk.1 pk.2 sources) m) m paths.

Definition unseen (paths : list (string * string)) (seen : Seen) : Prop :=
  ∀ p key tag, (p, key) ∈ paths → taggedArrays key = true → seen !! seen_key key tag = None.

Lemma merge_arrays_spec paths sources : NoDup (filter (λ k, taggedArrays k = true) paths.*2) → ∀ seen merged, unseen paths seen →
  match merge_arrays paths sources seen merged with
  | inr m => m = set_all sources paths merged ∧
      Forall (λ pk, taggedArrays pk.2 = true → NoDup (all_tags pk.1 pk.2 sources).*2) paths
  | inl e => ∃ p, (p, Kind e) ∈ paths ∧ taggedArrays (Kind e) = true ∧ collision (Kind e) (all_tags p (Kind e) sources) e
  end.
Proof.
  induction paths as [|[p key] paths IH]; intros Hnd seen merged Hun; cbn [merge_arrays]; [by split|].
  assert (taggedArrays key = true → seen_ok key [] seen ∧ NoDup ([] : list (string * string)).*2) as Hok.
  { intros Ht. assert (∀ tag, seen !! seen_key key tag = None) as Hn by (intros; by apply (Hun p); [left|]).
    split; [split|constructor]; [intros tag f; by rewrite Hn|by intros ? ?%elem_of_nil]. }
  pose proof (concat_arrays_spec p key sources seen [] [] Hok) as Hc. cbn [app] in Hc.
  destruct (concat_arrays _ _ _ _ _) as [e|[items seen1]].
  { destruct Hc as [Ht Hcol]. pose proof Hcol as [-> _]. exists p. split; [by left|done]. }
  destruct Hc as (-> & Hd & Ho).
  assert (NoDup (filter (λ k, taggedArrays k = true) paths.*2)) as Hnd'.
  { rewrite fmap_cons, filter_cons in Hnd. destruct (base.decide _); [by apply NoDup_cons in Hnd as [_ ?]|done]. }
  assert (unseen paths seen1) as Hun1.
  { intros p' key' tag Hin Ht. rewrite <- (Hun p' key' tag) by (done || by right). destruct (taggedArrays key) eqn:Et; [|by subst].
    apply Ho; [done|]. rewrite fmap_cons, filter_cons, decide_True in Hnd by done. apply NoDup_cons in Hnd as [Hn _].
    intros ->. apply Hn, list_elem_of_filter. split; [done|]. by apply (list_elem_of_fmap_2 snd) in Hin. }
  specialize (IH Hnd' seen1 (setArrayAt p key (all_items p key sources) merged) Hun1).
  destruct (merge_arrays _ _ _ _) as [e|m].
  - destruct IH as (p' & ? & ? & ?). exists p'. split_and!; [by right|done|done].
  - destruct IH as [-> Hall]. split; [done|]. by constructor.
Qed.

Lemma val_at_set_same p k v l m : val_at p k (setArrayAt p k (v :: l) m) = Some (JArray (v :: l)).
Proof.
  unfold val_at, setArrayAt. destruct (String.eqb p ""); [apply obj_get_put_eq|].
  unfold sub_object. rewrite obj_get_put_eq. cbn. apply obj_get_put_eq.
Qed.

(** Setting one array does not touch the value at a place apart from it. *)
Definition apart (p k p' k' : string) : bool :=
  if String.eqb p "" then negb (String.eqb k (if String.eqb p' "" then k' else p'))
  else negb (String.eqb p (if String.eqb p' "" then k' else p')) || negb (String.eqb p' "") && negb (String.eqb k k').

Lemma val_at_set_apart p k val p' k' m : apart p k p' k' = true → val_at p' k' (setArrayAt p k val m) = val_at p' k' m.
Proof.
  unfold apart, val_at, setArrayAt, sub_object. destruct val as [|v l]; [done|]. destruct (String.eqb p "").
  - intros Hne%negb_true_iff%String.eqb_neq. destruct (String.eqb p' ""); by rewrite obj_get_put_ne.
  - destruct (String.eqb p' ""); cbn [negb andb].
    + rewrite orb_false_r. intros Hne%negb_true_iff%String.eqb_neq. by apply obj_get_put_ne.
    + intros Ha. destruct (String.eqb p p') eqn:Epp; to_prop; [subst p'|by rewrite obj_get_put_ne].
      cbn in Ha. rewrite obj_get_put_eq. cbn. rewrite obj_get_put_ne by by apply String.eqb_neq, negb_true_iff.
      by destruct (obj_get p m) as [[]|].
Qed.

Lemma set_all_apart sources paths p k m : forallb (λ pk, apart pk.1 pk.2 p k) paths = true → val_at p k (set_all sources paths m) = val_at p k m.
Proof.
  revert m. induction paths as [|[p' k'] paths IH]; intros m; [done|]. cbn. intros [Ha Hs]%andb_true_iff. unfold set_all in *. cbn [foldl fst snd].
  by rewrite IH, val_at_set_apart.
Qed.

(** ** The reading of a merged configuration *)

(** Which place is apart from every array. *)
Definition free_place (p k : string) : bool := forallb (λ pk, apart pk.1 pk.2 p k) mergedArrayPaths.

Record merged_reading (sources : list source) (m : obj) : Prop := {
  (* the arrays are concatenated *)
  mr_array : ∀ p k, (p, k) ∈ mergedArrayPaths → as_array (val_at p k m) = all_items p k sources;
  (* the first file sets the other keys of [dns] and [route] *)
  mr_first : ∀ p k, block_first p = true → free_place p k = true → val_at p k m = head (values p k sources);
  (* the last file sets those of [log] and [experimental] *)
  mr_last : ∀ p k, block_last p = true → val_at p k m = last (values p k sources);
  (* and every other top-level key *)
  mr_plain : ∀ k, special k = false → free_place "" k = true → val_at "" k m = last (values "" k sources);
}.

Lemma no_items p k sources : all_items p k sources = [] → ∀ v, v ∈ values p k sources → as_array (Some v) = [].
Proof.
  induction sources as [|s sources IH]; [by intros _ ? ?%elem_of_nil|]. rewrite all_items_cons. intros [Hs Hr]%app_eq_nil v.
  unfold values. cbn [omap list_omap]. destruct (in_source p k s) as [w|] eqn:E; [|by apply IH]. rewrite elem_of_cons. intros [->|Hin]; [done|by apply IH].
Qed.

Lemma head_last_in {A} (l : list A) v : head l = Some v ∨ last l = Some v → v ∈ l.
Proof. intros [H|H]; [destruct l; [done|]; injection H as <-; by left|by apply last_Some_elem_of]. Qed.

Lemma set_all_array sources paths p k m : (p, k) ∈ paths →
  NoDup paths → Forall (λ pk, Forall (λ pk', pk = pk' ∨ apart pk.1 pk.2 pk'.1 pk'.2 = true) paths) paths →
  val_at p k (set_all sources paths m) = match all_items p k sources with [] => val_at p k m | l => Some (JArray l) end.
Proof.
  intros Hin Hnd Hap. apply list_elem_of_split in Hin as (l1 & l2 & ->).
  assert (∀ pk, pk ∈ l1 ++ l2 → apart pk.1 pk.2 p k = true) as Ha.
  { intros pk Hpk. rewrite Forall_forall in Hap. destruct (proj1 (Forall_forall _ _) (Hap pk ltac:(set_solver)) (p, k)) as [->|]; [set_solver| |done].
    exfalso. apply NoDup_app in Hnd as (_ & Hd & Hn). apply NoDup_cons in Hn as [Hn _]. apply elem_of_app in Hpk as [Hpk|]; [|done].
    apply (Hd _ Hpk). by left. }
  unfold set_all. rewrite foldl_app. cbn [foldl fst snd]. fold (set_all sources l1 m).
  set (m1 := set_all sources l1 m). change (foldl _ ?x l2) with (set_all sources l2 x). rewrite set_all_apart; cycle 1.
  { apply forallb_forall. intros pk Hpk%list_elem_of_In. apply Ha. set_solver. }
  destruct (all_items p k sources) as [|v l]; [|apply val_at_set_same]. cbn [setArrayAt]. apply set_all_apart.
  apply forallb_forall. intros pk Hpk%list_elem_of_In. apply Ha. set_solver.
Qed.

Lemma paths_apart : Forall (λ pk, Forall (λ pk', pk = pk' ∨ apart pk.1 pk.2 pk'.1 pk'.2 = true) mergedArrayPaths) mergedArrayPaths.
Proof. repeat (apply Forall_cons; split; [repeat (apply Forall_cons; split; [vm_compute; auto|]); apply Forall_nil_2|]). apply Forall_nil_2. Qed.

Lemma block_last_free p k : block_last p = true → free_place p k = true.
Proof.
  unfold block_last. intros Hp%bool_decide_eq_true. apply elem_of_cons in Hp as [->|Hp]; [done|].
  apply list_elem_of_singleton in Hp as ->. done.
Qed.

Lemma merged_is_reading sources : Forall well_keyed sources →
  merged_reading sources (set_all sources mergedArrayPaths (merge_keys sources)).
Proof.
  intros Hw. assert (∀ p k, free_place p k = true → val_at p k (set_all sources mergedArrayPaths (merge_keys sources)) = val_at p k (merge_keys sources))
    as Hfree by (intros; by apply set_all_apart).
  assert (∀ p, block_first p = true ∨ block_last p = true → p ≠ "") as Hne by (intros p Hp ->; by destruct Hp).
  split.
  - intros p k Hin. rewrite set_all_array; [|done|apply (bool_decide_unpack (NoDup mergedArrayPaths)); by vm_compute|apply paths_apart].
    destruct (all_items p k sources) as [|v l] eqn:E; [|done]. pose proof (no_items _ _ _ E) as Hno.
    assert (∀ o, head (values p k sources) = o ∨ last (values p k sources) = o → as_array o = []) as Ho.
    { intros [v|] Hv; [|done]. apply Hno, head_last_in. by destruct Hv; [left|right]. }
    repeat (apply elem_of_cons in Hin as [Heq|Hin]; [injection Heq as -> ->|]); try by apply elem_of_nil in Hin.
    all: first [rewrite merge_keys_block by done|change (val_at "" ?k ?m) with (obj_get k m); rewrite merge_keys_plain by done].
    all: apply Ho; by auto.
  - intros p k Hp Hfr. rewrite Hfree, merge_keys_block by (done || unfold special; rewrite ?Hp; auto). by rewrite Hp.
  - intros p k Hp. rewrite Hfree, merge_keys_block by (by apply block_last_free || by (unfold special; rewrite Hp, orb_true_r) || auto).
    destruct (block_first p) eqn:Ef; [|done]. unfold block_first, block_last in *.
    apply bool_decide_eq_true in Ef, Hp. set_solver.
  - intros k Hk Hfr. rewrite Hfree by done. by apply merge_keys_plain.
Qed.

(** C17: The merge of the slots accepts exactly the directories in which no tag occurs
    twice in a known array; it then has the concatenation of each known array, for the other
    keys of [dns] and [route] the value of the first file that sets them, and for every
    other key that of the last one.  A collision it reports is one: both files have the
    tag. *)
Theorem merge_spec (sources : list source) (Hw : Forall well_keyed sources) :
  match merge_parsed sources with
  | inr m => merged_reading sources m ∧
      ∀ p k, (p, k) ∈ mergedArrayPaths → taggedArrays k = true → NoDup (all_tags p k sources).*2
  | inl e => ∃ p, (p, Kind e) ∈ mergedArrayPaths ∧ taggedArrays (Kind e) = true ∧ collision (Kind e) (all_tags p (Kind e) sources) e
  end.
Proof.
  unfold merge_parsed. assert (NoDup (filter (λ k, taggedArrays k = true) mergedArrayPaths.*2)) as Hnd.
  { apply (bool_decide_unpack (NoDup _)). by vm_compute. }
  pose proof (merge_arrays_spec mergedArrayPaths sources Hnd ∅ (merge_keys sources)) as Hm.
  specialize (Hm ltac:(by intros ????)). destruct (merge_arrays _ _ _ _) as [e|m]; [done|]. destruct Hm as [-> Hall].
  split; [by apply merged_is_reading|]. intros p k Hin. by apply (proj1 (Forall_forall _ _) Hall (p, k)).
Qed.
