(* ===== verification/SbApply.v ===== *)
(** * Saving the tunnels and handing them to the daemon ([operator_tunnels.go], [operator_baseconfig.go])

    [applyConfig] writes the slot of the tunnels over a backup, checks the directory as
    the daemon will read it, starts or reloads the daemon and rolls back when the check
    fails; the operations on tunnels load, edit and apply.  File accesses may fail.

    Journal lines, events for the frontend and the proxies of the router (whose errors
    are logged only) are not modelled. *)
From S2P Require Import Prelude GoLib GoText SbJson SbTunnels SbTunnelBatch SbDeviceProxy SbBoot SbMerge.

(** ** More accesses to the directory *)

Definition rename_slot (a b : string) : B (option string) :=
  bad ← bfault; d ← gets id;
  match (if (bad : bool) then None else slots_of d !! a) with
  | Some c => _ ← modify (set_confd (Some (<[b := c]> (delete a (slots_of d))))); mret None
  | None => mret (Some "rename")
  end.

Definition remove_slot (name : string) : B (option string) :=
  bad ← bfault; d ← gets id;
  match (if (bad : bool) then None else slots_of d !! name) with
  | Some _ => _ ← modify (set_confd (Some (delete name (slots_of d)))); mret None
  | None => mret (Some "remove")
  end.

(** What the operator finds outside: the build tags of sing-box (none if the probe
    failed), what [sing-box check] says of a directory, whether the daemon is alive, and
    what starting, reloading and stopping it answer. *)
Class Runtime := {
  build_features : list string;
  sing_box_check : gmap string content → option string;
  daemon_running : bool;
  startAndWait : gmap string content → option string;
  proc_Reload : gmap string content → option string;
}.

Section apply.
Context `{GoArch, GoFloat, GoUnicode, Runtime}.

(** ** The check of the directory *)

Definition OutboundTypeRequiresFeature : string → string := outboundRequiresFeature.

Definition unsupported_outbound (features : list string) (v : json) : bool :=
  match v with
  | JObject ob =>
      let typ := as_string (obj_get "type" ob) in
      negb (String.eqb (OutboundTypeRequiresFeature typ) "") && negb (OutboundSupportedByFeatures features typ)
  | _ => false
  end.

(** Whether a file that can be read has such an outbound. *)
Fixpoint check_files (features names : list string) : B bool :=
  match names with
  | [] => mret false
  | n :: names =>
      r ← read_slot n;
      let here := match r with
                  | inr (Some data) =>
                      match unmarshal_map data with
                      | Some m => existsb (unsupported_outbound features) (as_array (field "outbounds" m))
                      | None => false
                      end
                  | _ => false
                  end in
      rest ← check_files features names; mret (here || rest)
  end.

Definition checkOutboundFeatures : B (option string) :=
  if bool_decide (build_features = []) then mret None
  else
    bad ← bfault; d ← gets id;
    match confd d with
    | Some files =>
        if (bad : bool) then mret None
        else
          some ← check_files build_features (filter (λ n, HasSuffix n ".json" = true) (merge_sort String.le (map_to_list files).*1));
          mret (if (some : bool) then Some "unsupported outbound type in config.d" else None)
    | None => mret None
    end.

Definition Validate : B (option string) := d ← gets id; mret (sing_box_check (slots_of d)).

Definition preflightConfigDir : B (option string) :=
  m ← MergeDir;
  match m with
  | inl (Collision e) => mret (Some "tag collision")
  | inl (Other e) => mret (Some e)
  | inr _ => check id checkOutboundFeatures Validate
  end.

(** ** Applying *)

Definition backup_file : string := "10-tunnels.json.bak".

Definition restore (hadExisting : bool) : B unit :=
  _ ← remove_slot tunnels_file;
  if hadExisting then _ ← rename_slot backup_file tunnels_file; mret tt else mret tt.

Definition run_daemon : B (option string) :=
  d ← gets id; mret ((if daemon_running then proc_Reload else startAndWait) (slots_of d)).

(** From the point where the old slot is out of the way. *)
Definition apply_over (hadExisting : bool) (cfg : Config) : B (option string) :=
  e ← Save tunnels_file cfg;
  match e with
  | Some e => _ ← restore hadExisting; mret (Some e)
  | None =>
      e ← preflightConfigDir;
      match e with
      | Some e => _ ← restore hadExisting; mret (Some ("validate: " +:+ e))
      | None =>
          runErr ← run_daemon;
          _ ← (if hadExisting then remove_slot backup_file else mret None);
          mret runErr
      end
  end.

Definition applyConfig (cfg : Config) : B (option string) :=
  hadExisting ← stat_slot tunnels_file;
  check (λ e, "backup tunnels: " +:+ e) (if (hadExisting : bool) then rename_slot tunnels_file backup_file else mret None)
    (apply_over hadExisting cfg).

(** With the orchestrator wired in, its [Save] of the slot is used instead. *)
Definition ApplyConfig (orch : option (content → B (option string))) (cfg : Config) : B (option string) :=
  match orch with
  | None => applyConfig cfg
  | Some save => save (MarshalIndent (MarshalJSON cfg))
  end.

(** ** The operations *)

Inductive load_error := NotExist | LoadError (what : string).

Definition loadConfig : B (load_error + Config) :=
  r ← read_slot tunnels_file;
  mret match r with
       | inl e => inl (LoadError e)
       | inr None => inl NotExist
       | inr (Some data) => match UnmarshalJSON data with inl e => inl (LoadError e) | inr c => inr c end
       end.
Definition loadOrInitConfig : B (string + Config) :=
  r ← loadConfig;
  mret match r with inl NotExist => inr NewConfig | inl (LoadError e) => inl e | inr c => inr c end.
Definition LoadCurrentConfig : B (string + Config) := loadOrInitConfig.

Definition load_err (e : load_error) : string := match e with NotExist => "no such file" | LoadError e => e end.

Definition HasUserTunnels : B bool :=
  r ← loadConfig; mret match r with inr c => negb (bool_decide (Tunnels c = [])) | inl _ => false end.

Definition GetTunnel (tag : string) : B (string + content) :=
  r ← loadConfig;
  mret match r with
       | inl NotExist => inl ErrTunnelNotFound
       | inl (LoadError e) => inl e
       | inr c => GetOutbound tag c
       end.

(** The tags added, the errors of single links, and the error of the whole; [None]: a panic. *)
Definition add_result : Type := list string * list (string * string) * option string.

Definition AddTunnels `{SlotWorld} (links : list ParsedOutbound) : B (option add_result) :=
  if bool_decide (links = []) then mret (Some ([], [], None))
  else
    r ← loadOrInitConfig;
    match r with
    | inl e => mret (Some ([], [], Some e))
    | inr cfg =>
        match AddTunnels_plan build_features links cfg with
        | None => mret None
        | Some b =>
            if bool_decide (addedTags b = []) then mret (Some ([], parseErrs b, None))
            else
              e ← applyConfig (b_cfg b);
              mret (Some match e with
                         | Some e => ([], parseErrs b, Some ("apply: " +:+ e))
                         | None => (addedTags b, parseErrs b, None)
                         end)
        end
    end.

(** The daemon is stopped and the file removed with the last tunnel; both errors are
    logged only. *)
Definition operatorRemoveTunnel (tag : string) : B (option (option string)) :=
  r ← loadConfig;
  match r with
  | inl e => mret (Some (Some (load_err e)))
  | inr cfg =>
      match RemoveTunnel tag cfg with
      | None => mret None
      | Some (Some e, _) => mret (Some (Some e))
      | Some (None, cfg) =>
          if bool_decide (Tunnels cfg = []) then _ ← remove_slot tunnels_file; mret (Some None)
          else e ← applyConfig cfg; mret (Some e)
      end
  end.

(** Update, from the loaded configuration on. *)
Definition update_loaded (tag : string) (outbound : content) (cfg : Config) : B (option (option string)) :=
  match UpdateTunnel tag outbound cfg with
  | None => mret None
  | Some (Some e, _) => mret (Some (Some e))
  | Some (None, cfg) => e ← applyConfig cfg; mret (Some e)
  end.
Definition operatorUpdateTunnel (tag : string) (outbound : content) : B (option (option string)) :=
  r ← loadConfig;
  match r with
  | inl e => mret (Some (Some (load_err e)))
  | inr cfg => update_loaded tag outbound cfg
  end.

(** Without a reload: the file is checked and promoted beside the directory. *)
Definition ErrSingboxNotRunning : string := "sing-box is not running".

(** [os.Rename] of a file onto [config.d] fails when that is a directory. *)
Definition rename_onto_confd : B (option string) :=
  bad ← bfault; d ← gets id;
  mret (if (bad : bool) || bool_decide (is_Some (confd d)) then Some "promote config" else None).

Definition ApplyConfigNoReload (check_file : content → option string) (cfg : Config) : B (option string) :=
  if negb daemon_running then mret (Some ErrSingboxNotRunning)
  else
    bad ← bfault;
    if (bad : bool) then mret (Some "write")
    else
      match check_file (MarshalIndent (MarshalJSON (ensureNaiveUDPOverTCPOutbounds cfg))) with
      | Some e => mret (Some ("validate: " +:+ e))
      | None => rename_onto_confd
      end.

(** ** The log level *)

Definition set_log_level (desired : string) (m : option obj) : obj :=
  let block := obj_put "level" (JString desired) (default [] (field_object "log" m)) in
  let block := match obj_get "timestamp" block with Some _ => block | None => obj_put "timestamp" (JBool true) block end in
  obj_put "log" (JObject block) (default [] m).

Definition ApplyLogLevel (orch : option (content → B (option string))) (level : string) : B (option string) :=
  let desired := normalizeSingboxLogLevel level in
  r ← read_slot base_file;
  match (match r with
         | inl e => inl "read 00-base.json"
         | inr None => inr (freshBaseConfigWithLogLevel desired)
         | inr (Some data) => match unmarshal_map data with
                              | None => inl "parse 00-base.json"
                              | Some m => inr (set_log_level desired m)
                              end
         end) with
  | inl e => mret (Some e)
  | inr base =>
      match orch with
      | Some save => check (λ e, "save base slot: " +:+ e) (save (MarshalIndent (JObject base))) (mret None)
      | None =>
          check (λ e, "write base file: " +:+ e) (writeJSONFile base_file base)
            (if daemon_running then d ← gets id; mret (proc_Reload (slots_of d)) else mret None)
      end
  end.
End apply.
