(* ===== verification/SbApplyProps.v ===== *)
(** * Applying the tunnels

    What the directory holds after [applyConfig], whatever fails, and what an operation on
    a tunnel leaves there. *)
From S2P Require Import Prelude GoLib GoText SbJson SbTunnels SbTunnelsProps SbTunnelBatch SbTunnelBatchProps SbDeviceProxy SbBoot SbBootProps SbBootSettle SbMerge SbApply.

(** ** Computations that only read *)

(** The directory is the same, and no fault appears. *)
Definition same_files (d d' : Disk) : Prop :=
  legacy d' = legacy d ∧ confd d' = confd d ∧ (bfaults d = [] → bfaults d' = []).
Definition reads {A} (m : B A) : Prop := ∀ d, same_files d (m d).2.

Lemma same_files_refl d : same_files d d.
Proof. by split_and!. Qed.
Lemma same_files_trans d d1 d2 : same_files d d1 → same_files d1 d2 → same_files d d2.
Proof. intros (? & ? & ?) (? & ? & ?). split_and!; [congruence..|auto]. Qed.
Lemma same_files_slots d d' : same_files d d' → slots_of d' = slots_of d.
Proof. intros (_ & E & _). unfold slots_of. by rewrite E. Qed.

Lemma reads_ret {A} (a : A) : reads (mret a).
Proof. intros d. apply same_files_refl. Qed.
Lemma reads_gets {A} (f : Disk → A) : reads (gets f).
Proof. intros d. apply same_files_refl. Qed.
Lemma reads_fault : reads bfault.
Proof. intros d. unfold bfault. destruct (bfaults d) as [|b bs] eqn:E; [apply same_files_refl|]. split_and!; cbn; congruence. Qed.
Lemma reads_bind {A C} (m : B A) (f : A → B C) : reads m → (∀ a, reads (f a)) → reads (m ≫= f).
Proof.
  intros Hm Hf d. unfold mbind, ST_bind. specialize (Hm d). destruct (m d) as [a d1]. eapply same_files_trans; [exact Hm|apply Hf].
Qed.

Ltac reads := repeat first [apply reads_ret|apply reads_gets|apply reads_fault|apply reads_bind; [|intros ?]|case_match].

Lemma reads_slot n : reads (read_slot n).
Proof. unfold read_slot. reads. Qed.
Lemma reads_stat n : reads (stat_slot n).
Proof. unfold stat_slot. reads. Qed.
Lemma reads_sources names : reads (read_sources names).
Proof. induction names as [|n names IH]; cbn [read_sources]; [reads|]. apply reads_bind; [apply reads_slot|]. intros r. reads. apply IH. Qed.
Lemma reads_merge : reads MergeDir.
Proof.
  unfold MergeDir, collectActiveSlots, mergeSources. apply reads_bind; [reads|]. intros [e|names]; [reads|].
  apply reads_bind; [apply reads_bind; [apply reads_sources|]|]; reads.
Qed.

Section apply.
Context `{GoArch, GoFloat, GoUnicode, Runtime}.

Lemma reads_check_files fs names : reads (check_files fs names).
Proof. induction names as [|n names IH]; cbn [check_files]; [reads|]. apply reads_bind; [apply reads_slot|]. intros r. apply reads_bind; [apply IH|]. reads. Qed.
Lemma reads_preflight : reads preflightConfigDir.
Proof.
  unfold preflightConfigDir. apply reads_bind; [apply reads_merge|]. intros [[e|e]|m]; [reads..|]. unfold check.
  apply reads_bind; [|intros [e|]; [reads|unfold Validate; reads]]. unfold checkOutboundFeatures. reads. apply reads_check_files.
Qed.
Lemma reads_load : reads loadConfig.
Proof. unfold loadConfig. apply reads_bind; [apply reads_slot|]. reads. Qed.
Lemma reads_run : reads run_daemon.
Proof. unfold run_daemon. reads. Qed.

(** ** Computations that touch the two files *)

Definition elsewhere (files : gmap string content) (d : Disk) : Prop :=
  ∀ n, n ≠ tunnels_file → n ≠ backup_file → slots_of d !! n = files !! n.

Lemma elsewhere_same files d d' : same_files d d' → elsewhere files d → elsewhere files d'.
Proof. intros E He n ??. rewrite (same_files_slots _ _ E). by apply He. Qed.

Lemma rename_cases a b d : ∃ r d', rename_slot a b d = (r, d') ∧
  (r = Some "rename" ∧ same_files d d' ∨
   r = None ∧ ∃ c, slots_of d !! a = Some c ∧ slots_of d' = <[b := c]> (delete a (slots_of d)) ∧ (bfaults d = [] → bfaults d' = [])) ∧
  (bfaults d = [] → is_Some (slots_of d !! a) → r = None).
Proof.
  pose proof (bfault_files d) as (bad & d1 & E & Hl & Hc & Hb). unfold rename_slot, mbind, ST_bind. rewrite E.
  assert (same_files d d1) as Hs by (split_and!; [done..|by intros []%Hb]).
  rewrite <- (same_files_slots _ _ Hs). cbn [gets id]. unfold id.
  destruct bad; [eexists _, _; split; [done|]; split; [by left|]; by intros []%Hb|].
  destruct (slots_of d1 !! a) as [c|] eqn:Ea; (eexists _, _; split; [done|]; split); [right|done|by left|by intros _ []].
  split; [done|]. exists c. split_and!; [done|done|]. by intros []%Hb.
Qed.

Lemma remove_cases n d : ∃ r d', remove_slot n d = (r, d') ∧
  (slots_of d' = slots_of d ∨ slots_of d' = delete n (slots_of d)) ∧ (bfaults d = [] → bfaults d' = [] ∧ slots_of d' = delete n (slots_of d)).
Proof.
  pose proof (bfault_files d) as (bad & d1 & E & Hl & Hc & Hb). unfold remove_slot, mbind, ST_bind. rewrite E.
  assert (slots_of d1 = slots_of d) as Hs by (unfold slots_of; by rewrite Hc). cbn [gets id]. unfold id. rewrite <- Hs.
  destruct bad; [eexists _, _; split; [done|]; split; [by left|]; by intros []%Hb|].
  destruct (slots_of d1 !! n) as [c|] eqn:Ea; (eexists _, _; split; [done|]; split); [by right|by intros []%Hb|by left|].
  intros []%Hb. split; [done|]. cbn. by rewrite delete_id.
Qed.

(** ** The rollback *)

(** After the rollback the old slot is back, or still in the backup. *)
Lemma restore_spec files old d : elsewhere files d → slots_of d !! backup_file = Some old →
  ∃ d', restore true d = (tt, d') ∧ elsewhere files d' ∧
    (slots_of d' !! tunnels_file = Some old ∨
     slots_of d' !! backup_file = Some old ∧ bfaults d ≠ [] ∧
       (slots_of d' !! tunnels_file = slots_of d !! tunnels_file ∨ slots_of d' !! tunnels_file = None)) ∧
    (bfaults d = [] → bfaults d' = [] ∧ slots_of d' !! tunnels_file = Some old ∧ slots_of d' !! backup_file = None).
Proof.
  intros He Hb. unfold restore, mbind, ST_bind. destruct (remove_cases tunnels_file d) as (r1 & d1 & -> & R1 & F1).
  assert (elsewhere files d1) as He1.
  { intros n ??. rewrite <- He by done. destruct R1 as [->| ->]; [done|by rewrite lookup_delete_ne]. }
  assert (slots_of d1 !! backup_file = Some old) as Hb1 by (destruct R1 as [->| ->]; [done|by rewrite lookup_delete_ne]).
  destruct (rename_cases backup_file tunnels_file d1) as (r2 & d2 & -> & R2 & F2). exists d2. split; [done|].
  destruct R2 as [[-> Hs]|[-> (c & Hc & Hs & F3)]].
  - assert (bfaults d ≠ []) as Hnf.
    { intros [Hf _]%F1. specialize (F2 Hf). rewrite Hb1 in F2. by specialize (F2 ltac:(by eexists)). }
    split; [by eapply elsewhere_same|]. rewrite (same_files_slots _ _ Hs). split; [right|done]. split_and!; [done..|].
    destruct R1 as [->| ->]; [by left|right; apply lookup_delete_eq].
  - rewrite Hb1 in Hc. injection Hc as <-. split; [intros n ??; rewrite Hs, lookup_insert_ne, lookup_delete_ne by done; by apply He1|].
    rewrite Hs, lookup_insert_eq, lookup_insert_ne, lookup_delete_eq by done. split; [by left|]. intros [Hf _]%F1. auto.
Qed.

(** ** The transaction *)

Definition saved_file (cfg : Config) : content := MarshalIndent (MarshalJSON (ensureNaiveUDPOverTCPOutbounds cfg)).

(** [old]: the slot before, if there was one. *)
Record transaction (files : gmap string content) (old : option content) (cfg : Config) (r : option string) (d d' : Disk) : Prop := {
  (* no other file is touched *)
  tr_elsewhere : elsewhere files d';
  (* success means that the new slot is there *)
  tr_done : r = None → slots_of d' !! tunnels_file = Some (saved_file cfg);
  (* no third content *)
  tr_slot : slots_of d' !! tunnels_file = Some (saved_file cfg) ∨
    r ≠ None ∧ (slots_of d' !! tunnels_file = old ∨ slots_of d' !! tunnels_file = None);
  (* a slot that there was is missing only with an error and after a failed access: then
     it is in the backup, unless the failed access was the first, which looks for it *)
  tr_missing : is_Some old → slots_of d' !! tunnels_file = None →
    r ≠ None ∧ bfaults d ≠ [] ∧ (slots_of d' !! backup_file = old ∨ head (bfaults d) = Some true);
  (* without faults it is all or nothing, and no backup is left *)
  tr_clean : bfaults d = [] → bfaults d' = [] ∧
    (slots_of d' !! tunnels_file = Some (saved_file cfg) ∨ r ≠ None ∧ slots_of d' !! tunnels_file = old) ∧
    (is_Some old → slots_of d' !! backup_file = None);
}.

Lemma rolled_back files old cfg e d0 d d' : elsewhere files d → slots_of d !! backup_file = Some old → (bfaults d0 = [] → bfaults d = []) →
  restore true d = (tt, d') → slots_of d !! tunnels_file = None ∨ slots_of d !! tunnels_file = Some (saved_file cfg) →
  transaction files (Some old) cfg (Some e) d0 d'.
Proof.
  intros He Hb Hf E Hd. destruct (restore_spec files old d He Hb) as (d2 & E2 & He2 & Hk & Hc). rewrite E in E2. injection E2 as <-.
  split; [done|done| | |].
  - destruct Hk as [?|(_ & _ & [Hs|Hs])]; [by right; split; [|left]| |by right; split; [|right]].
    rewrite Hs. destruct Hd as [->| ->]; [by right; split; [|right]|by left].
  - intros _ Hn. destruct Hk as [?|(Hb' & Hnf & _)]; [congruence|]. split; [done|]. split; [auto|by left].
  - intros ?%Hf. destruct (Hc ltac:(done)) as (? & ? & ?). split_and!; [done|by right|done].
Qed.

(** From the point where the old slot is in the backup. *)
Lemma apply_over_spec files old cfg d0 d : elsewhere files d → slots_of d !! backup_file = Some old → slots_of d !! tunnels_file = None →
  (bfaults d0 = [] → bfaults d = []) →
  ∃ r d', apply_over true cfg d = (r, d') ∧ transaction files (Some old) cfg r d0 d'.
Proof.
  intros He Hb Hn Hf. unfold apply_over, Save. fold (saved_file cfg). unfold mbind, ST_bind.
  destruct (write_any tunnels_file (saved_file cfg) d) as (r1 & d1 & -> & [[-> C1]|[-> C1]] & F1).
  { assert (slots_of d1 = slots_of d) as S1 by (unfold slots_of; by rewrite C1).
    destruct (restore true d1) as [[] d2] eqn:E. eexists _, d2. split; [done|]. eapply (rolled_back files old cfg "write" d0 d1); [| | |exact E|left; by rewrite S1].
    - intros n ??. rewrite S1. by apply He.
    - by rewrite S1.
    - by intros []%Hf%F1. }
  assert (slots_of d1 = <[tunnels_file := saved_file cfg]> (slots_of d)) as S1 by (unfold slots_of at 1; by rewrite C1).
  assert (elsewhere files d1) as He1 by (intros n ??; rewrite S1, lookup_insert_ne by done; by apply He).
  assert (slots_of d1 !! backup_file = Some old) as Hb1 by (by rewrite S1, lookup_insert_ne).
  assert (bfaults d0 = [] → bfaults d1 = []) as Hf1 by by intros []%Hf%F1.
  pose proof (reads_preflight d1) as Hr. destruct (preflightConfigDir d1) as [e d2]. cbn in Hr.
  pose proof (same_files_slots _ _ Hr) as S2. destruct Hr as (_ & Hc2 & F2).
  destruct e as [e|].
  { destruct (restore true d2) as [[] d3] eqn:E. eexists _, d3. split; [done|]. eapply (rolled_back files old cfg _ d0 d2); [| | |exact E|right; by rewrite S2, S1, lookup_insert_eq].
    - intros n ??. rewrite S2. by apply He1.
    - by rewrite S2.
    - auto. }
  unfold run_daemon, gets, mbind, ST_bind, mret, ST_ret, id.
  destruct (remove_cases backup_file d2) as (r3 & d3 & -> & R3 & F3). eexists _, d3. split; [done|].
  assert (slots_of d3 !! tunnels_file = Some (saved_file cfg)) as Ht.
  { destruct R3 as [->| ->]; [|rewrite lookup_delete_ne by done]; by rewrite S2, S1, lookup_insert_eq. }
  split; [|done|by left|intros _ Hmiss; congruence|].
  - intros n ??. destruct R3 as [->| ->]; [|rewrite lookup_delete_ne by done]; rewrite S2; by apply He1.
  - intros Hd0. destruct F3 as [? Hs3]; [by apply F2, Hf1|]. split_and!; [done|by left|by intros _; rewrite Hs3, lookup_delete_eq].
Qed.

(** With no slot that is seen, there is no backup. *)
Lemma apply_over_none cfg d : ∃ r d', apply_over false cfg d = (r, d') ∧ elsewhere (slots_of d) d' ∧
  (r = None → slots_of d' !! tunnels_file = Some (saved_file cfg)) ∧
  (slots_of d' !! tunnels_file = Some (saved_file cfg) ∨
   r ≠ None ∧ (slots_of d' !! tunnels_file = slots_of d !! tunnels_file ∨ slots_of d' !! tunnels_file = None)) ∧
  (bfaults d = [] → bfaults d' = [] ∧
    (slots_of d' !! tunnels_file = Some (saved_file cfg) ∨ r ≠ None ∧ slots_of d' !! tunnels_file = None)).
Proof.
  unfold apply_over, Save, restore. fold (saved_file cfg). unfold mbind, ST_bind.
  destruct (write_any tunnels_file (saved_file cfg) d) as (r1 & d1 & -> & [[-> C1]|[-> C1]] & F1).
  { assert (slots_of d1 = slots_of d) as S1 by (unfold slots_of; by rewrite C1).
    destruct (remove_cases tunnels_file d1) as (r2 & d2 & -> & R2 & F2). rewrite S1 in *. eexists _, d2. split; [done|].
    split; [|split; [done|split; [right; split; [done|]|by intros []%F1]]].
    - intros n ??. destruct R2 as [->| ->]; [done|by rewrite lookup_delete_ne].
    - destruct R2 as [->| ->]; [by left|right; apply lookup_delete_eq]. }
  assert (slots_of d1 = <[tunnels_file := saved_file cfg]> (slots_of d)) as S1 by (unfold slots_of at 1; by rewrite C1).
  pose proof (reads_preflight d1) as Hr. destruct (preflightConfigDir d1) as [e d2]. cbn in Hr.
  pose proof (same_files_slots _ _ Hr) as S2. destruct Hr as (_ & _ & Fr). rewrite S1 in S2.
  destruct e as [e|].
  - destruct (remove_cases tunnels_file d2) as (r3 & d3 & -> & R3 & F3). rewrite S2 in *. eexists _, d3. split; [done|].
    split; [|split; [done|split]].
    + intros n ??. destruct R3 as [->| ->]; rewrite ?lookup_delete_ne, lookup_insert_ne by done; done.
    + destruct R3 as [->| ->]; [left; apply lookup_insert_eq|right]. split; [done|]. right. apply lookup_delete_eq.
    + intros [_ Hf]%F1. destruct (F3 (Fr Hf)) as [? ->]. split; [done|]. right. split; [done|apply lookup_delete_eq].
  - unfold run_daemon, gets, mbind, ST_bind, mret, ST_ret, id. eexists _, d2. split; [done|]. rewrite S2, lookup_insert_eq.
    split; [intros n ??; by rewrite S2, lookup_insert_ne|]. split; [done|]. split; [by left|]. intros [_ Hf]%F1. split; [auto|by left].
Qed.

Lemma stat_cases n d : ∃ d1, stat_slot n d = (bool_decide (head (bfaults d) ≠ Some true ∧ is_Some (slots_of d !! n)), d1) ∧ same_files d d1.
Proof.
  pose proof (reads_stat n d) as Hr. exists (stat_slot n d).2. split; [|done].
  unfold stat_slot, mbind, ST_bind, bfault in *. destruct (bfaults d) as [|[] bs]; cbn in *; f_equal.
  - apply bool_decide_ext. split; [done|by intros []].
  - apply bool_decide_ext. split; [done|by intros []].
Qed.

Lemma apply_transaction_aux cfg d :
  ∃ r d', applyConfig cfg d = (r, d') ∧ transaction (slots_of d) (slots_of d !! tunnels_file) cfg r d d'.
Proof.
  unfold applyConfig, mbind, ST_bind. destruct (stat_cases tunnels_file d) as (d1 & -> & Hs).
  pose proof (same_files_slots _ _ Hs) as S1. unfold check, mbind, ST_bind. case_bool_decide as Hst.
  - destruct Hst as [_ [old Hold]]. rewrite Hold.
    destruct (rename_cases tunnels_file backup_file d1) as (r2 & d2 & -> & R2 & F2).
    destruct R2 as [[-> Hs2]|[-> (c & Hc & S2 & F3)]].
    + eexists _, d2. split; [done|]. pose proof (same_files_slots _ _ (same_files_trans _ _ _ Hs Hs2)) as S2.
      split; [by intros n ??; rewrite S2|done|right; split; [done|left; by rewrite S2]|intros _; rewrite S2; congruence|].
      intros Hf. exfalso. destruct Hs as (_ & _ & Hs). specialize (F2 (Hs Hf)). rewrite S1, Hold in F2.
      by specialize (F2 ltac:(by eexists)).
    + rewrite S1, Hold in Hc. injection Hc as <-. rewrite S1 in S2. destruct Hs as (_ & _ & Hf).
      apply (apply_over_spec (slots_of d) old cfg d d2).
      * intros n ??. by rewrite S2, lookup_insert_ne, lookup_delete_ne.
      * by rewrite S2, lookup_insert_eq.
      * by rewrite S2, lookup_insert_ne, lookup_delete_eq.
      * auto.
  - cbn [mret ST_ret]. destruct (apply_over_none cfg d1) as (r & d' & E & He & Hd & Hc & Hf). rewrite S1 in *.
    destruct Hs as (_ & _ & Hf1). exists r, d'. split; [exact E|]. split; [done|done| | |].
    + destruct Hc as [?|[? [?|?]]]; [by left|right; auto..].
    + intros Hold Hn. assert (head (bfaults d) = Some true) as Hh.
      { destruct (head (bfaults d)) as [[]|] eqn:Eh; [done|exfalso; by apply Hst..]. }
      destruct Hc as [Hc|[? _]]; [congruence|]. split; [done|]. split; [by intros E0; rewrite E0 in Hh|by right].
    + intros Hnf. assert (slots_of d !! tunnels_file = None) as Hnone.
      { apply eq_None_not_Some. intros Hold. apply Hst. by rewrite Hnf. }
      rewrite Hnone. destruct (Hf (Hf1 Hnf)) as [? ?]. split_and!; [done..|]. by intros [].
Qed.

(** C18: Applying a configuration to the slot of the tunnels, with or without a slot there
    and whichever file accesses fail: only the slot and its backup are touched; success
    means the new slot is in place; with an error the slot is the new one, the old one, or
    missing; an old slot is missing only with an error and after a failed access, and then
    it is in the backup [10-tunnels.json.bak], which nothing reads again, or (when the
    failed access was the look for the slot) nowhere ([failed_rollback_loses_slot],
    [failed_stat_loses_slot]); without failed accesses the slot is the new one or, with an
    error, the old one, and an old slot leaves no backup. *)
Theorem apply_transaction (cfg : Config) (d : Disk) :
  ∃ r d', applyConfig cfg d = (r, d') ∧ transaction (slots_of d) (slot_of tunnels_file d) cfg r d d'.
Proof. apply apply_transaction_aux. Qed.

(** ** Without faults *)

Lemma apply_clean cfg d : bfaults d = [] → ∃ r d', applyConfig cfg d = (r, d') ∧ bfaults d' = [] ∧ elsewhere (slots_of d) d' ∧
  (slots_of d' !! tunnels_file = Some (saved_file cfg) ∨ r ≠ None ∧ slots_of d' !! tunnels_file = slots_of d !! tunnels_file) ∧
  (r = None → slots_of d' !! tunnels_file = Some (saved_file cfg)).
Proof.
  intros Hf. destruct (apply_transaction_aux cfg d) as (r & d' & E & [T1 T2 _ _ T5]). destruct (T5 Hf) as (? & ? & _).
  exists r, d'. by split_and!.
Qed.

(** ** Tunnels in the file *)

Definition saved (l : list tunnel) : list tunnel :=
  (λ t, mkTunnel (tn_tag t) (tn_port t) (ensureNaiveUDPOverTCP (tn_outbound t))) <$> l.

Lemma ensure_get k ob : k ≠ "udp_over_tcp" → obj_get k (ensureNaiveUDPOverTCP ob) = obj_get k ob.
Proof. intros Hne. unfold ensureNaiveUDPOverTCP. repeat case_match; try done. by apply obj_get_put_ne. Qed.

Lemma ensure_represents c l : represents c l → represents (ensureNaiveUDPOverTCPOutbounds c) (saved l).
Proof.
  intros [[Hi Ho Hr] [T P E]]. split.
  - unfold raw_get, ensureNaiveUDPOverTCPOutbounds in *. destruct (raw c) as [m|]; [|done]. cbn [raw fmap option_fmap option_map mbind option_bind] in *.
    rewrite Ho. unfold saved. split; cbn.
    + rewrite obj_get_put_ne, Hi by done. by rewrite <- list_fmap_compose.
    + rewrite obj_get_put_eq. f_equal. f_equal. by rewrite <- !list_fmap_compose.
    + destruct Hr as (r & Hr & Hu). exists r. rewrite obj_get_put_ne by done. split; [done|]. by rewrite <- list_fmap_compose.
  - split.
    + unfold tags, saved in *. by rewrite <- list_fmap_compose.
    + unfold ports, saved in *. by rewrite <- list_fmap_compose.
    + apply Forall_fmap. eapply Forall_impl; [exact E|]. intros t [E1 E2 E3 E4]. split; cbn; [|done| |done].
      * unfold tag_of in *. by rewrite ensure_get.
      * unfold user_type in *. by rewrite ensure_get.
Qed.

(** The slot holds the tunnels of the list, as the program writes them. *)
Definition on_disk (d : Disk) (l : list tunnel) : Prop :=
  saved l = l ∧
  (slots_of d !! tunnels_file = None ∧ l = [] ∨
   ∃ data c, slots_of d !! tunnels_file = Some data ∧ UnmarshalJSON data = inr c ∧ represents c l).

Lemma written_on_disk d c l : slots_of d !! tunnels_file = Some (saved_file c) → represents c l → saved l = l → on_disk d l.
Proof.
  intros Hs Hr Hl. split; [done|]. right. eexists _, (ensureNaiveUDPOverTCPOutbounds c). split; [exact Hs|].
  apply ensure_represents in Hr. rewrite Hl in Hr. split; [|done]. destruct c as [[m|]]; [done|]. by destruct Hr as [[] _].
Qed.

Lemma on_disk_same d d' l : slots_of d' !! tunnels_file = slots_of d !! tunnels_file → on_disk d l → on_disk d' l.
Proof. unfold on_disk. by intros ->. Qed.

Lemma stored_saved t fs p : saved [mkTunnel t p (stored_outbound t fs)] = [mkTunnel t p (stored_outbound t fs)].
Proof. unfold saved, stored_outbound. cbn. by rewrite ensure_idem. Qed.

(** ** The operations *)

Inductive operation := OpAdd (links : list ParsedOutbound) | OpRemove (tag : string) | OpUpdate (tag : string) (outbound : content).

(** The report: the tags added, the errors of single links, and the error of the whole. *)
Definition run_operation `{SlotWorld} (op : operation) : B (option add_result) :=
  let report r := (λ e, ([], [], e)) <$> r in
  match op with
  | OpAdd links => AddTunnels links
  | OpRemove tag => r ← operatorRemoveTunnel tag; mret (report r)
  | OpUpdate tag o => r ← operatorUpdateTunnel tag o; mret (report r)
  end.

(** The list after an operation that was carried out, with the tags and the errors of
    single links it reports. *)
Definition operation_spec `{SlotWorld} (l : list tunnel) (op : operation) (added : list string) (errs : list (string * string))
    (l' : list tunnel) : Prop :=
  match op with
  | OpAdd links => ∃ new, l' = l ++ new ∧ added = tags new ∧ batch_outcome build_features l [] links new errs
  | OpRemove tag => tunnel_spec l (Remove tag) None l' ∧ added = [] ∧ errs = []
  | OpUpdate tag o => tunnel_spec l (Update tag o) None l' ∧ added = [] ∧ errs = []
  end.

Definition operation_ok (l : list tunnel) (op : operation) : Prop :=
  match op with
  | OpAdd links => Forall link_ok links ∧ NoDup (fingerprints l)
  | OpRemove _ => True
  | OpUpdate _ o => outbound_ok o
  end.

(** What an operation may do to the file: all of it, or nothing with an error; without an
    error, all that it reports. *)
Definition persisted `{SlotWorld} (op : operation) (l : list tunnel) (d : Disk) (r : add_result) (d' : Disk) : Prop :=
  bfaults d' = [] ∧ elsewhere (slots_of d) d' ∧
  ((∃ added l', operation_spec l op added r.1.2 l' ∧ on_disk d' l') ∨ is_Some r.2 ∧ on_disk d' l) ∧
  (r.2 = None → ∃ l', operation_spec l op r.1.1 r.1.2 l' ∧ on_disk d' l').

Lemma load_run d : bfaults d = [] → loadConfig d =
  (match slots_of d !! tunnels_file with
   | None => inl NotExist
   | Some data => match UnmarshalJSON data with inl e => inl (LoadError e) | inr c => inr c end
   end, d).
Proof. intros Hf. unfold loadConfig. by rewrite (bind_run _ _ _ _ _ (read_slot_run _ _ Hf)). Qed.

Lemma persisted_error `{SlotWorld} op l d added errs e : bfaults d = [] → on_disk d l → persisted op l d (added, errs, Some e) d.
Proof. intros Hf Hd. split; [done|]. split; [by intros n|]. split; [right; by split; [eexists|]|done]. Qed.

Lemma persisted_apply `{SlotWorld} op l l' c d added errs r d' : applyConfig c d = (r, d') → bfaults d = [] → on_disk d l →
  operation_spec l op added errs l' → represents c l' → saved l' = l' →
  persisted op l d (match r with Some _ => [] | None => added end, errs, r) d'.
Proof.
  intros E Hf Hd Hs Hr Hl. destruct (apply_clean c d Hf) as (r2 & d2 & E2 & F2 & He & Hc & Hn). rewrite E in E2. injection E2 as <- <-.
  assert (slots_of d' !! tunnels_file = Some (saved_file c) → ∃ l', operation_spec l op added errs l' ∧ on_disk d' l') as Hnew.
  { intros Ht. exists l'. split; [done|]. by eapply written_on_disk. }
  split; [done|]. split; [done|]. cbn [fst snd]. split; [|intros ->; auto]. destruct Hc as [Ht|[? Ht]]; [left; exists added; auto|right].
  split; [by destruct r; [eexists|]|]. by eapply on_disk_same.
Qed.

Lemma saved_filter (P : tunnel → Prop) `{∀ t, Decision (P t)} l : saved l = l → saved (filter P l) = filter P l.
Proof.
  unfold saved. induction l as [|t l IH]; [done|]. rewrite fmap_cons. intros [= Et El]. rewrite filter_cons.
  destruct (base.decide (P t)); [|by apply IH]. rewrite fmap_cons, Et. f_equal. by apply IH.
Qed.

Lemma saved_at_tag tag f l : saved l = l → (∀ t, saved [f t] = [f t]) → saved (at_tag tag f l) = at_tag tag f l.
Proof.
  intros Hl Hf. unfold at_tag, saved in *. rewrite <- list_fmap_compose. induction l as [|t l IH]; [done|].
  rewrite !fmap_cons in *. injection Hl as Et El. f_equal; [|by apply IH]. cbn. destruct (base.decide _); [|done].
  specialize (Hf t). cbn in Hf. by injection Hf.
Qed.

Lemma spec_saved e l l' : tunnel_spec l e None l' → saved l = l →
  match e with Remove _ | Update _ _ => saved l' = l' | _ => True end.
Proof.
  intros Hs Hl. inversion Hs; subst; try done; [by apply saved_filter|]. apply saved_at_tag; [done|]. intros t. apply stored_saved.
Qed.

Lemma on_disk_cases d l : on_disk d l → saved l = l ∧
  (slots_of d !! tunnels_file = None ∧ l = [] ∧ represents NewConfig l ∨
   ∃ data c, slots_of d !! tunnels_file = Some data ∧ UnmarshalJSON data = inr c ∧ represents c l).
Proof.
  intros [Hl [[Hs ->]|Hr]]; (split; [done|]); [left|by right]. split_and!; [done..|]. split; [split; [done|done|by eexists]|].
  split; [constructor..|by apply Forall_nil].
Qed.

Lemma remove_persists `{SlotWorld} tag d l : bfaults d = [] → on_disk d l →
  ∃ r d', operatorRemoveTunnel tag d = (Some r, d') ∧ persisted (OpRemove tag) l d ([], [], r) d'.
Proof.
  intros Hf Hd. destruct (on_disk_cases _ _ Hd) as [Hl [(Hs & _ & _)|(data & c & Hs & Hp & Hr)]]; unfold operatorRemoveTunnel;
    rewrite (bind_run _ _ _ _ _ (load_run _ Hf)), Hs; [eexists _, d; split; [done|by apply persisted_error]|].
  rewrite Hp. destruct (remove_refines tag c l Hr) as (err & c' & l' & -> & Hspec & Hr' & _).
  destruct err as [e|]; [eexists _, d; split; [done|by apply persisted_error]|]. pose proof (spec_saved _ _ _ Hspec Hl) as Hl'. cbn in Hl'.
  destruct (bool_decide (Tunnels c' = [])) eqn:Et.
  - apply bool_decide_eq_true in Et. rewrite (Tunnels_of _ _ Hr') in Et. apply fmap_nil_inv in Et. subst l'.
    destruct (remove_cases tunnels_file d) as (r1 & d1 & E1 & _ & F1). destruct (F1 Hf) as [Hf1 S1].
    unfold mbind, ST_bind. rewrite E1. eexists None, d1. split; [done|].
    assert (∃ l', operation_spec l (OpRemove tag) [] [] l' ∧ on_disk d1 l') as Hnew.
    { exists []. split; [done|]. split; [done|]. left. split; [|done]. by rewrite S1, lookup_delete_eq. }
    split; [done|]. split; [intros n ??; by rewrite S1, lookup_delete_ne|]. split; [left; by exists []|done].
  - unfold mbind, ST_bind. destruct (applyConfig c' d) as [r d'] eqn:E. eexists r, d'. split; [done|].
    replace (@nil string) with (match r with Some _ => [] | None => @nil string end) by by destruct r.
    by eapply persisted_apply.
Qed.

Lemma update_persists `{SlotWorld} tag o d l : bfaults d = [] → on_disk d l → outbound_ok o →
  ∃ r d', operatorUpdateTunnel tag o d = (Some r, d') ∧ persisted (OpUpdate tag o) l d ([], [], r) d'.
Proof.
  intros Hf Hd Ho. destruct (on_disk_cases _ _ Hd) as [Hl [(Hs & _ & _)|(data & c & Hs & Hp & Hr)]]; unfold operatorUpdateTunnel;
    rewrite (bind_run _ _ _ _ _ (load_run _ Hf)), Hs; [eexists _, d; split; [done|by apply persisted_error]|].
  rewrite Hp. unfold update_loaded. destruct (update_refines tag o c l Hr Ho) as (err & c' & l' & -> & Hspec & Hr' & _).
  destruct err as [e|]; [eexists _, d; split; [done|by apply persisted_error]|]. pose proof (spec_saved _ _ _ Hspec Hl) as Hl'. cbn in Hl'.
  unfold mbind, ST_bind. destruct (applyConfig c' d) as [r d'] eqn:E. eexists r, d'. split; [done|].
  replace (@nil string) with (match r with Some _ => [] | None => @nil string end) by by destruct r.
  by eapply persisted_apply.
Qed.

Lemma add_persists `{SlotWorld} links d l : bfaults d = [] → on_disk d l → Forall link_ok links → NoDup (fingerprints l) →
  ∃ r d', AddTunnels links d = (Some r, d') ∧ persisted (OpAdd links) l d r d'.
Proof.
  intros Hf Hd Hlinks Hnd. assert (∀ errs, batch_outcome build_features l [] links [] errs →
    persisted (OpAdd links) l d ([], errs, None) d) as Hsame.
  { intros errs Ho. assert (operation_spec l (OpAdd links) [] errs l) as Hs by (exists []; by rewrite app_nil_r).
    split; [done|]. split; [by intros n|]. cbn [fst snd]. split; [left; by exists [], l|intros _; by exists l]. }
  unfold AddTunnels. case_bool_decide as En.
  { subst. eexists _, d. split; [done|]. apply Hsame. constructor. }
  destruct (on_disk_cases _ _ Hd) as [Hl Hc].
  assert (∃ c, represents c l ∧ loadOrInitConfig d = (inr c, d)) as (c & Hr & Ec).
  { unfold loadOrInitConfig. rewrite (bind_run _ _ _ _ _ (load_run _ Hf)).
    destruct Hc as [(-> & _ & ?)|(data & c & -> & -> & ?)]; eauto. }
  rewrite (bind_run _ _ _ _ _ Ec). unfold AddTunnels_plan.
  destruct (add_all_spec build_features links l [] (start_batch c)) as (b & new & errs & -> & [B1 _ _ _ _ _] & Et & Ep & Ho & Hnew);
    [by apply start_batch_ok|done|]. cbn in Et, Ep. rewrite Et, Ep.
  destruct new as [|t new'] eqn:Enew; [eexists _, d; split; [done|by apply Hsame]|]. rewrite <- Enew in *.
  rewrite (bool_decide_false (tags new = [])) by by subst.
  destruct (applyConfig (b_cfg b) d) as [e d'] eqn:E. rewrite (bind_run _ _ _ _ _ E).
  assert (saved (l ++ new) = l ++ new) as Hs.
  { unfold saved in *. rewrite fmap_app, Hl. f_equal. clear -Hnew. induction Hnew as [|t new Ht _ IH]; [done|].
    rewrite fmap_cons, IH. f_equal. unfold as_saved in Ht. destruct t; cbn in *. by rewrite Ht. }
  assert (operation_spec l (OpAdd links) (tags new) errs (l ++ new)) as Hspec by by exists new.
  pose proof (persisted_apply _ _ _ _ _ _ _ _ _ E Hf Hd Hspec B1 Hs) as (P1 & P2 & P3 & P4).
  destruct e as [e|]; (eexists _, d'; split; [done|]); (split; [done|]); (split; [done|]); [|done].
  split; [|done]. destruct P3 as [?|[_ ?]]; [by left|right; by split; [eexists|]].
Qed.

End apply.
