(* ===== verification/SbTunnelsSim.v ===== *)
(** * Tunnels, device proxy and start-up on concrete inputs

    Witnesses of the theorems on the slot of the tunnels and on the configuration
    directory, and inputs on which the code does not do what its comments promise. *)
From S2P Require Import Prelude GoLib GoText SbJson SbSim SbTunnels SbTunnelsProps SbTunnelBatch SbTunnelBatchProps SbDeviceProxy SbDeviceProxyProps SbBoot SbBootProps SbBootSettle SbMerge SbMergeProps SbApply SbApplyProps.

#[local] Existing Instance plain_unicode.
#[local] Instance wrap_float : GoFloat := {| int_beyond := λ z, z |}.

(** ** Edits of the tunnels *)

Definition vless (server : string) : content :=
  Doc "" (JObject [("type", JString "vless"); ("server", JString server); ("server_port", JNumber "443"); ("uuid", JString "u-1")]).

Definition config_after (r : edit) : Config := match r with Some (_, c) => c | None => NewConfig end.
Definition added (tag server : string) (port : Z) (c : Config) : Config :=
  config_after (AddTunnelWithListenPort tag "vless" server 443 port (vless server) c).

Definition tunnel_of (tag server : string) (port : Z) : tunnel :=
  mkTunnel tag port [("type", JString "vless"); ("server", JString server); ("server_port", JNumber "443"); ("uuid", JString "u-1"); ("tag", JString tag)].

Definition one_tunnel : Config := added "home" "example.org" 0 NewConfig.
Definition one_list : list tunnel := [tunnel_of "home" "example.org" 1080].

Lemma one_represents : represents one_tunnel one_list.
Proof.
  split; [split; [vm_compute; reflexivity..|eexists; split; vm_compute; reflexivity]|].
  split; [apply NoDup_singleton..|]. apply Forall_singleton. split; [reflexivity|done|reflexivity|]. unfold firstPort. cbn. lia.
Qed.

Definition second : tunnel_edit := Add "work" "vless" "example.net" 443 0 (vless "example.net").

Lemma tunnel_edits_refine_witness :
  ∃ err c' l', apply_edit second one_tunnel = Some (err, c') ∧ tunnel_spec one_list second err l' ∧ documents c' l' ∧
    (is_Some err → c' = one_tunnel) ∧ Tunnels c' = (λ t, tunnel_info (tn_port t) (tn_outbound t)) <$> l'.
Proof.
  pose proof (tunnel_edits_refine second one_tunnel one_list one_represents) as H.
  assert (bool_decide (is_Some (apply_edit second one_tunnel)) = true) as Hs by (vm_compute; reflexivity).
  destruct (apply_edit second one_tunnel) as [[err c']|]; [|discriminate Hs].
  destruct H as (l' & Hspec & Hd & _ & _ & He & _ & Hok). exists err, c', l'.
  assert (edit_ok second) as Hek by (split; [done|split; [by left|reflexivity]]). destruct (Hok Hek) as [_ Ht].
  split; [reflexivity|]. split; [exact Hspec|]. split; [exact Hd|]. split; [exact He|exact Ht].
Defined.

Definition two_tunnels : Config := added "work" "example.net" 0 one_tunnel.


(** ** A batch *)

#[local] Instance small_world : SlotWorld := {| portBindable := λ p, negb (p =? 1081)%Z; proxy_indices := None |}.

Definition link (tag server : string) : ParsedOutbound := {|
  p_Tag := tag; p_Label := tag; p_Protocol := "vless"; p_Server := server; p_Port := 443; p_Outbound := vless server |}.

Definition some_links : list ParsedOutbound := [link "home" "example.net"; link "copy" "example.org"; link "work" "example.com"].

Lemma batch_adds_witness :
  ∃ b new, AddTunnels_plan [] some_links one_tunnel = Some b ∧ represents (b_cfg b) (one_list ++ new) ∧ addedTags b = tags new ∧
    batch_outcome [] one_list [] some_links new (parseErrs b) ∧
    (length new + length (parseErrs b) = length some_links)%nat ∧ NoDup (fingerprints (one_list ++ new)).
Proof.
  refine (batch_adds [] some_links one_tunnel one_list one_represents _ _).
  - apply (bool_decide_unpack (NoDup (fingerprints one_list))). by vm_compute.
  - repeat constructor.
Defined.

(** The second link is the server of the tunnel that is there; a port that cannot be bound
    is passed over. *)
Lemma batch_result :
  (λ b, (addedTags b, parseErrs b, listen_ports (b_cfg b))) <$> AddTunnels_plan [] some_links one_tunnel =
  Some (["home-2"; "work"], [("copy", "duplicate of existing tunnel")], [1080; 1082; 1083]%Z).
Proof. vm_compute. reflexivity. Qed.

(** ** The device proxy *)

Definition spec_of (id selected : string) : DeviceProxyInstanceSpec := {|
  dp_ID := id; dp_Enabled := true; dp_ListenAddr := "0.0.0.0"; dp_Port := 1099;
  dp_Auth := {| au_Enabled := false; au_Username := ""; au_Password := "" |};
  dp_SelectedTag := selected; dp_AWGTags := ["awg-1"]; dp_SBTags := ["home"] |}.

Definition two_specs : list DeviceProxyInstanceSpec := [spec_of "" "home"; spec_of "kids" ""].

Lemma instances_built_witness :
  ∃ c, BuildDeviceProxyInstancesConfig two_specs = Some c ∧
    arrays c (inbounds_of (enabled_specs two_specs)) (selectors_of (enabled_specs two_specs)) (rules_of (enabled_specs two_specs)).
Proof. refine (instances_built two_specs _). apply (bool_decide_unpack (NoDup (keys two_specs))). by vm_compute. Defined.

Lemma ensure_remove_laws_witness :
  ∃ c1 c2 c3 c4, EnsureDeviceProxyInstance (spec_of "kids" "") one_tunnel = Some c1 ∧
    EnsureDeviceProxyInstance (spec_of "kids" "") c1 = Some c2 ∧ agree c1 c2 ∧
    RemoveDeviceProxyInstance "kids" c1 = Some c3 ∧ RemoveDeviceProxyInstance "kids" one_tunnel = Some c4 ∧ agree c3 c4.
Proof. exact (ensure_remove_laws (spec_of "kids" "") one_tunnel _ _ _ (proj1 one_represents)). Defined.

(** Both instances in the slot of the tunnels, as an older release left them. *)
Definition embedded (c : Config) : Config := default NewConfig (embed_instances two_specs c).

Definition file_of (c : Config) : content := MarshalIndent (MarshalJSON c).
Definition disk_with (files : list (string * content)) (faults : list bool) : Disk :=
  {| legacy := None; confd := Some (list_to_map files); bfaults := faults |}.

Lemma migration_keeps_instances_witness :
  let d := disk_with [(tunnels_file, file_of (embedded one_tunnel))] [false; false; false; true] in
  let ins := inbounds (embedded one_tunnel) in
  let outs := outbounds (embedded one_tunnel) in
  let rules := routeRules (embedded one_tunnel) in
  ∃ r d' e s, MigrateDeviceProxyOutOfTunnels d = (Some r, d') ∧ extracted ins outs rules e ∧ left_behind ins outs rules s ∧
    (r ≠ None ∧ slot_of deviceproxy_file d' = None ∧ slot_of tunnels_file d' = Some (file_of (embedded one_tunnel)) ∨
     r ≠ None ∧ slot_of deviceproxy_file d' = Some (MarshalIndent (MarshalJSON e)) ∧
       slot_of tunnels_file d' = Some (file_of (embedded one_tunnel)) ∨
     r = None ∧ slot_of deviceproxy_file d' = Some (MarshalIndent (MarshalJSON e)) ∧
       slot_of tunnels_file d' = Some (MarshalIndent (MarshalJSON s))) ∧
    (bfaults d = [] → r = None).
Proof.
  refine (migration_keeps_instances (disk_with [(tunnels_file, file_of (embedded one_tunnel))] [false; false; false; true])
    (file_of (embedded one_tunnel)) (embedded one_tunnel) _ _ _ _ _ _ _ _ _ _); try (vm_compute; reflexivity).
  - split; [vm_compute; reflexivity..|eexists; split; vm_compute; reflexivity].
  - apply (bool_decide_unpack (NoDup (json_tag <$> keep_objects proxy_inbound (inbounds (embedded one_tunnel))))). by vm_compute.
  - apply (bool_decide_unpack (NoDup (json_tag <$> keep_objects proxy_selector (outbounds (embedded one_tunnel))))). by vm_compute.
Defined.

(** ** Start-up *)

Definition old_config : obj := [
  ("log", JObject [("level", JString "debug")]);
  ("dns", JObject [("strategy", JString "ipv4_only"); ("final", JString "corp");
     ("servers", JArray [JObject [("tag", JString "corp"); ("server", JString "10.0.0.53")]])]);
  ("inbounds", JArray []);
  ("outbounds", JArray [direct_outbound; JObject [("type", JString "vless"); ("tag", JString "home"); ("server", JString "example.org")]]);
  ("endpoints", JArray [JObject [("type", JString "wireguard"); ("tag", JString "wg")]]);
  ("route", JObject [("rules", JArray []); ("final", JString "home")])].
Definition upgraded (faults : list bool) : Disk := {| legacy := Some (Marshal (JObject old_config)); confd := None; bfaults := faults |}.

Lemma boot_settles_witness :
  (doc base_file (upgraded []) = Some None → (boot "warn" (upgraded [])).1 = true) ∧
  (doc base_file (upgraded []) ≠ Some None → ∃ d', boot "warn" (upgraded []) = (false, d') ∧ boot "warn" d' = (false, d') ∧
    present base_file d' ∧ ∀ m, doc base_file d' = Some m → healthy (normalizeSingboxLogLevel "warn") m).
Proof. exact (boot_settles "warn" (upgraded []) eq_refl). Defined.

(** ** Inputs on which the code does not do what it says *)

Definition config_with (ins outs : list json) : Config :=
  {| raw := Some [("inbounds", JArray ins); ("outbounds", JArray outs); ("route", JObject [("rules", JArray [])])] |}.

(** An inbound on a port below 1080 moves the search below 1080, and the new tunnel gets no
    proxy interface. *)
Theorem allocPort_below_firstPort :
  let c := config_with [JObject [("tag", JString "dns-in"); ("listen_port", JNumber "53")]] [] in
  allocPort c = inr 54%Z ∧ ti_ProxyInterface <$> Tunnels (added "home" "example.org" 0 c) = [""].
Proof. split; vm_compute; reflexivity. Qed.

(** An outbound [null] makes the edits panic; the direct outbound's tag is free for a tunnel,
    though renaming to it is refused. *)
Theorem edits_of_system_tags :
  let c := config_with [] [direct_outbound] in
  AddTunnel "home" "vless" "" 0 (Doc "" JNull) c = None ∧ UpdateTunnel "home" (Doc "" JNull) c = None ∧
  (λ c', json_tag <$> outbounds c') (added "direct" "example.org" 0 c) = ["direct"; "direct"] ∧
  (RenameTunnel "home" "direct" (added "home" "example.org" 0 c)).1 = Some ErrTunnelTagConflict.
Proof. split_and!; vm_compute; reflexivity. Qed.

(** An update may give a tunnel an outbound of a system type: the tunnel is not listed any
    more, but its inbound still takes connections. *)
Theorem update_to_system_type_hides_tunnel :
  let c := config_after (UpdateTunnel "home" (Doc "" (JObject [("type", JString "direct")])) one_tunnel) in
  Tunnels c = [] ∧ json_tag <$> inbounds c = ["home-in"] ∧ json_tag <$> outbounds c = ["home"].
Proof. split_and!; vm_compute; reflexivity. Qed.

(** Taking the proxy out of the configuration takes a user's tunnel with it whose tag starts
    with [awg-]: its inbound and its rule stay and point nowhere. *)
Theorem migration_drops_awg_tunnel :
  let c := match UnmarshalJSON (default (Junk "") (slot_of tunnels_file (MigrateDeviceProxyOutOfTunnels
             (disk_with [(tunnels_file, file_of (added "awg-office" "example.org" 0 (embedded NewConfig)))] [])).2)) with
           | inr c => c | inl _ => NewConfig end in
  existsb (has_tag "awg-office") (outbounds c) = false ∧ existsb (has_tag "awg-office-in") (inbounds c) = true ∧
  existsb (λ r, match r with JObject r => String.eqb (as_string (obj_get "outbound" r)) "awg-office" | _ => false end) (routeRules c) = true.
Proof. split_and!; vm_compute; reflexivity. Qed.

(** The instances with a name are copied to the new slot but stay in the slot of the tunnels
    too: both files have their tags. *)
Theorem migration_duplicates_named_instances :
  let d := (MigrateDeviceProxyOutOfTunnels (disk_with [(tunnels_file, file_of (embedded one_tunnel))] [])).2 in
  let ins n := match UnmarshalJSON (default (Junk "") (slot_of n d)) with inr c => json_tag <$> inbounds c | inl _ => [] end in
  ins deviceproxy_file = ["device-proxy-in"; "device-proxy-kids-in"] ∧ ins tunnels_file = ["home-in"; "device-proxy-kids-in"].
Proof. split; vm_compute; reflexivity. Qed.

(** When the second write fails both files have the proxy, and no later run mends that. *)
Theorem interrupted_migration_stays :
  let d := (MigrateDeviceProxyOutOfTunnels (disk_with [(tunnels_file, file_of (embedded one_tunnel))] [false; false; false; true])).2 in
  bfaults d = [] ∧ slot_of tunnels_file d = Some (file_of (embedded one_tunnel)) ∧ is_Some (slot_of deviceproxy_file d) ∧
  MigrateDeviceProxyOutOfTunnels d = (Some None, d).
Proof.
  split; [vm_compute; reflexivity|]. split; [vm_compute; reflexivity|]. split; [eexists; vm_compute; reflexivity|]. vm_compute. reflexivity.
Qed.

Definition dns_tags (n : string) (d : Disk) : list string :=
  match doc n d ≫= field_object "dns" with Some dns => json_tag <$> as_array (obj_get "servers" dns) | None => [] end.
Definition keys_of (n : string) (d : Disk) : list string := match doc n d with Some (Some m) => m.*1 | _ => [] end.

(** The split of the single file without failures: the endpoints are gone. *)
Theorem split_drops_endpoints :
  let d := (boot "info" (upgraded [])).2 in
  legacy d = None ∧ dns_tags base_file d = ["corp"] ∧ dns_tags tunnels_file d = [] ∧
  ("endpoints" ∈ keys_of base_file d ++ keys_of tunnels_file d → False).
Proof.
  split_and!; try (vm_compute; reflexivity). apply (bool_decide_unpack ("endpoints" ∉ _)). vm_compute. reflexivity.
Qed.

(** A failure between the two files lets the second migration run as well: the server
    [corp] is in both, which the merge of the directory refuses, and [route.final] is lost.
    Without the failure the merge accepts the directory. *)
Theorem interrupted_split_duplicates_dns :
  let d := (boot "info" (upgraded [false; false; false; false; true])).2 in
  legacy d = None ∧ dns_tags base_file d = ["corp"] ∧ dns_tags tunnels_file d = ["corp"] ∧
  match doc tunnels_file d with Some m => field_object "route" m ≫= obj_get "final" | None => None end = None ∧
  (MergeDir d).1 = inl (Collision {| Tag := "corp"; Kind := "servers"; FirstFile := base_file; SecondFile := tunnels_file |}) ∧
  (λ r, match r with inr _ => true | inl _ => false end) (MergeDir (boot "info" (upgraded [])).2).1 = true.
Proof. split_and!; vm_compute; reflexivity. Qed.

(** With the router's proxies on, a slot free at the router whose port the configuration
    holds is proposed to every link, since an error does not reserve it; and a link that
    was not added counts as an existing tunnel. *)
Theorem taken_port_fails_batch :
  let world := {| portBindable := λ _, true; proxy_indices := Some (inr ∅) |} in
  (λ b, (addedTags b, parseErrs b)) <$>
    AddTunnels_plan (H2 := world) [] [link "a" "a.example"; link "b" "b.example"; link "c" "a.example"] one_tunnel =
  Some ([], [("a", "listen_port already in use"); ("b", "listen_port already in use"); ("c", "duplicate of existing tunnel")]).
Proof. vm_compute. reflexivity. Qed.

(** ** Merging and applying *)

Definition two_sources : list source := [
  ("00-base.json", Some [("log", JObject [("level", JString "info"); ("timestamp", JBool true)]);
     ("dns", JObject [("strategy", JString "prefer_ipv4"); ("servers", JArray [JObject [("tag", JString "boot")]])])]);
  ("20-router.json", Some [("log", JObject [("level", JString "debug")]);
     ("dns", JObject [("strategy", JString "ipv4_only"); ("final", JString "home"); ("servers", JArray [JObject [("tag", JString "home")]])])])].

Lemma merge_spec_witness :
  match merge_parsed two_sources with
  | inr m => merged_reading two_sources m ∧
      ∀ p k, (p, k) ∈ mergedArrayPaths → taggedArrays k = true → NoDup (all_tags p k two_sources).*2
  | inl e => ∃ p, (p, Kind e) ∈ mergedArrayPaths ∧ taggedArrays (Kind e) = true ∧ collision (Kind e) (all_tags p (Kind e) two_sources) e
  end.
Proof.
  refine (merge_spec two_sources _).
  assert (∀ s : source, match s.2 with
    | Some m => bool_decide (NoDup m.*1) && forallb (λ f, match f.2 with JObject b => bool_decide (NoDup b.*1) | _ => true end) m
    | None => true end = true → well_keyed s) as Hwk.
  { intros [n m0] Hs m Hm. cbn in Hs, Hm. subst m0. apply andb_true_iff in Hs as [Hn Hb]. apply bool_decide_eq_true in Hn. split; [exact Hn|].
    intros k b Hk. rewrite forallb_forall in Hb. unfold sub_object, obj_get in Hk. destruct (List.find _ m) as [f|] eqn:Ef; [|discriminate Hk].
    apply List.find_some in Ef as [Hin _]. specialize (Hb f Hin). cbn in Hk. destruct (f.2) as [| | | | |fs]; try discriminate Hk. injection Hk as ->.
    by apply bool_decide_eq_true in Hb. }
  constructor; [apply Hwk; by vm_compute|]. constructor; [apply Hwk; by vm_compute|constructor].
Defined.

(** The merged strategy is the base's, the log level and [final] the router's. *)
Lemma merge_result :
  match merge_parsed two_sources with
  | inr m => (as_string (val_at "dns" "strategy" m), as_string (val_at "dns" "final" m), as_string (val_at "log" "level" m),
              json_tag <$> as_array (val_at "dns" "servers" m))
  | inl _ => ("", "", "", [])
  end = ("prefer_ipv4", "home", "debug", ["boot"; "home"]).
Proof. vm_compute. reflexivity. Qed.

(** A daemon that runs whatever the merge accepts. *)
#[local] Instance calm_runtime : Runtime := {|
  build_features := []; sing_box_check := λ _, None; daemon_running := true; startAndWait := λ _, None; proc_Reload := λ _, None |}.

Definition tunnels_disk (c : Config) (faults : list bool) : Disk := disk_with [(tunnels_file, file_of c)] faults.


Definition tags_on_disk (d : Disk) : list string := match (loadConfig d).1 with inr c => ti_Tag <$> Tunnels c | inl _ => [] end.

(** [UpdateTunnel] does not take the lock of the other operations: a tunnel added between
    its load and its write is lost. *)
Theorem update_loses_added_tunnel :
  let d := tunnels_disk one_tunnel [] in
  match (loadConfig d).1 with
  | inr loaded =>
      let d1 := (AddTunnels [link "work" "example.com"] d).2 in
      let d2 := (update_loaded "home" (vless "example.edu") loaded d1).2 in
      tags_on_disk d1 = ["home"; "work"] ∧ (update_loaded "home" (vless "example.edu") loaded d1).1 = Some None ∧ tags_on_disk d2 = ["home"]
  | inl _ => False
  end.
Proof. vm_compute. split_and!; reflexivity. Qed.

(** Removing the last tunnel removes the file, and with it the custom DNS servers that the
    migration put there. *)
Theorem last_removal_drops_dns :
  let d := (boot "info" (upgraded [false; false; false; false; true])).2 in
  dns_tags tunnels_file d = ["corp"] ∧ (operatorRemoveTunnel "home" d).1 = Some None ∧
  slot_of tunnels_file (operatorRemoveTunnel "home" d).2 = None.
Proof. split_and!; vm_compute; reflexivity. Qed.

(** When the check refuses the new slot and the rename of the rollback fails, the slot is
    gone: the old one is in a file that nothing reads again. *)
Theorem failed_rollback_loses_slot :
  let runtime := {| build_features := []; sing_box_check := λ _, Some "bad"; daemon_running := true; startAndWait := λ _, None; proc_Reload := λ _, None |} in
  let r := applyConfig (H2 := runtime) two_tunnels (tunnels_disk one_tunnel [false; false; false; false; false; false; true]) in
  r.1 = Some "validate: bad" ∧ slot_of tunnels_file r.2 = None ∧ slot_of backup_file r.2 = Some (file_of one_tunnel).
Proof. split_and!; vm_compute; reflexivity. Qed.

(** When the look for the slot fails and then the write of the new one, the rollback
    removes the old slot, of which there is no backup. *)
Theorem failed_stat_loses_slot :
  let r := applyConfig two_tunnels (tunnels_disk one_tunnel [true; true]) in
  r.1 = Some "write" ∧ slot_of tunnels_file r.2 = None ∧ slot_of backup_file r.2 = None.
Proof. split_and!; vm_compute; reflexivity. Qed.

(** The promotion without a reload renames a file onto the directory [config.d]. *)
Theorem no_reload_never_applies check_file c d : is_Some (confd d) →
  (ApplyConfigNoReload check_file c d).1 ≠ None ∧ confd (ApplyConfigNoReload check_file c d).2 = confd d.
Proof.
  intros Hc. unfold ApplyConfigNoReload. cbn [negb daemon_running calm_runtime]. unfold mbind, ST_bind.
  destruct (bfault_files d) as (b & d1 & -> & _ & C1 & _). destruct b; [by split|]. destruct (check_file _); [by split|].
  unfold rename_onto_confd, mbind, ST_bind. destruct (bfault_files d1) as (b2 & d2 & -> & _ & C2 & _). cbn.
  rewrite C2, C1, bool_decide_true by done. by destruct b2.
Qed.
