(* ===== verification/Catalog.v ===== *)
(** * The routing catalogue

    [internal/routing/catalog.go]: the one list of tunnels and interfaces that the
    routing subsystems offer, and the resolution of its identifiers.  What its
    sources (the tunnel service, the WAN model, the NDMS queries, the tunnel
    store) answer during one call is a [Catalog]. *)
From S2P Require Import Prelude GoLib Names Wan.

Record TunnelEntry := {
  te_ID : string; te_Name : string; te_Iface : string; te_Type : string; te_Status : string;
  te_Available : bool;
}.

Record TunnelWithStatus := {
  tw_ID : string; tw_Name : string; tw_Backend : string; tw_State : TunnelState; tw_NWGIndex : Z;
}.

Record StoreEntry := { se_Backend : string; se_NWGIndex : Z }.

(** The fields of [ndms.Interface] that the catalogue reads. *)
Record NdmsInterface := { ni_ID : string; ni_Type : string; ni_Description : string }.

Record Catalog := {
  cat_tunnels : option (list TunnelWithStatus); (* [provider.ListTunnels], [None] for an error *)
  cat_state : string → TunnelState; (* [provider.GetState] *)
  (* [provider.WANModel], with the entries of its map in the order they are visited *)
  cat_wan : option (Model * list (string * Interface));
  cat_ifaces : option (list NdmsInterface); (* [ifaces.List], [None] for an error or no source *)
  cat_system_name : string → string; (* [ifaces.ResolveSystemName] *)
  cat_entry : string → option StoreEntry; (* [store.Get] *)
  cat_exists : string → bool; (* [store.Exists] *)
}.

Section catalog.
Context `{U : GoUnicode}.
Variable c : Catalog.

Definition wan_prefix : string := "wan:".

(** [provider.WANModel().IDFor(name)], the empty text without a model. *)
Definition wan_id (name : string) : string :=
  match cat_wan c with Some (m, _) => IDFor name m | None => "" end.

Definition resolveNDMSName (t : TunnelWithStatus) : string :=
  if String.eqb (tw_Backend t) "nativewg" then nwg_NDMSName (NewNWGNames (tw_NWGIndex t))
  else
    let names := NewNames (tw_ID t) in
    if String.eqb (NDMSName names) "" then IfaceName names else NDMSName names.

Definition stored_nwg (tunnelID : string) : option NWGNames :=
  e ← cat_entry c tunnelID;
  if String.eqb (se_Backend e) "nativewg" then Some (NewNWGNames (se_NWGIndex e)) else None.

Definition ResolveInterface (tunnelID : string) : string + string :=
  if HasPrefix tunnelID wan_prefix then
    let ndmsID := wan_id (TrimPrefix tunnelID wan_prefix) in
    match cat_wan c with
    | None => inl "WAN model not available"
    | Some _ => if String.eqb ndmsID "" then inl "WAN interface not found" else inr ndmsID
    end
  else if IsSystemTunnel tunnelID then inr (SystemTunnelName tunnelID)
  else match stored_nwg tunnelID with
  | Some n => inr (nwg_NDMSName n)
  | None =>
      let names := NewNames tunnelID in
      inr (if String.eqb (NDMSName names) "" then IfaceName names else NDMSName names)
  end.

Definition Exists (tunnelID : string) : bool :=
  if HasPrefix tunnelID wan_prefix then negb (String.eqb (wan_id (TrimPrefix tunnelID wan_prefix)) "")
  else if IsSystemTunnel tunnelID then
    let ndmsName := SystemTunnelName tunnelID in
    let kernelName := cat_system_name c ndmsName in
    negb (String.eqb kernelName "") && negb (String.eqb kernelName ndmsName)
  else cat_exists c tunnelID.

Definition GetKernelIface (tunnelID : string) : option string :=
  if IsSystemTunnel tunnelID then
    let ndmsName := SystemTunnelName tunnelID in
    let kernelName := cat_system_name c ndmsName in
    if String.eqb kernelName "" || String.eqb kernelName ndmsName then None else Some kernelName
  else if negb (bool_decide (cat_state c tunnelID = StateRunning)) then None
  else match stored_nwg tunnelID with
  | Some n => Some (nwg_IfaceName n)
  | None => Some (IfaceName (NewNames tunnelID))
  end.

Definition GetKernelIfaceName (tunnelID : string) : string + string :=
  if HasPrefix tunnelID wan_prefix then inr (TrimPrefix tunnelID wan_prefix)
  else if IsSystemTunnel tunnelID then inr (SystemTunnelName tunnelID)
  else match cat_entry c tunnelID with
  | None => inl "unknown tunnel"
  | Some e =>
      inr (if String.eqb (se_Backend e) "nativewg" then nwg_IfaceName (NewNWGNames (se_NWGIndex e))
           else IfaceName (NewNames tunnelID))
  end.

(** *** [ListAll] *)

Definition managed_entry (t : TunnelWithStatus) : TunnelEntry :=
  let ndmsName := resolveNDMSName t in
  {| te_ID := tw_ID t;
     te_Name := if String.eqb (tw_Name t) "" then ndmsName else tw_Name t;
     te_Iface := match GetKernelIfaceName (tw_ID t) with inr i => i | inl _ => "" end;
     te_Type := "managed"; te_Status := state_String (tw_State t); te_Available := true |}.

Definition listed_tunnels : list TunnelWithStatus :=
  filter (λ t, resolveNDMSName t ≠ "") (default [] (cat_tunnels c)).

Definition system_type (t : string) : bool :=
  String.eqb t "wireguard" || String.eqb t "proxy" || String.eqb t "opkgtun".

Definition system_entry (i : NdmsInterface) : TunnelEntry :=
  {| te_ID := SystemTunnelPrefix +:+ ni_ID i;
     te_Name := if String.eqb (ni_Description i) "" then ni_ID i else ni_Description i;
     te_Iface := ni_ID i; te_Type := "system"; te_Status := "up"; te_Available := true |}.

Definition listed_ifaces : list NdmsInterface :=
  filter (λ i, system_type (ToLower (ni_Type i)) = true ∧ ni_ID i ∉ (resolveNDMSName <$> listed_tunnels))
    (default [] (cat_ifaces c)).

Definition wan_entry (i : Interface) : TunnelEntry :=
  {| te_ID := wan_prefix +:+ Name i; te_Name := if String.eqb (Label i) "" then Name i else Label i;
     te_Iface := Name i; te_Type := "wan"; te_Status := if Up i then "up" else "down";
     te_Available := Up i |}.

Definition ListAll : list TunnelEntry :=
  (managed_entry <$> listed_tunnels) ++ (system_entry <$> listed_ifaces) ++
  (wan_entry <$> match cat_wan c with Some (_, ord) => ForUI ord | None => [] end).
End catalog.
