(* ===== verification/StaticParse.v ===== *)
(** * The text of static routes

    [internal/staticroute/parser.go] and [subnet.go]: the import of a Windows
    [.bat] file, subnet masks, and the comment after a subnet; with what they use
    of [net] ([ParseCIDR], the texts of addresses and networks) and [strings]
    ([Fields]). *)
From S2P Require Import Prelude GoLib GoText.

(** ** strings.Fields

    The runes of [unicode.IsSpace] in UTF-8: the number of bytes of the one at the
    head of the text, 0 when there is none.  Their first byte is never a
    continuation byte, so looking at every byte is looking at every rune. *)
Definition codes (s : string) : list nat :=
  match s with
  | String a (String b (String c _)) => [byte_code a; byte_code b; byte_code c]
  | String a (String b EmptyString) => [byte_code a; byte_code b]
  | String a EmptyString => [byte_code a]
  | EmptyString => []
  end.

Definition space_width (s : string) : nat :=
  match s with
  | String a _ =>
      if ascii_space a then 1
      else match codes s with
      | 194 :: b :: _ => if ((b =? 133) || (b =? 160))%nat then 2 else 0 (* U+0085, U+00A0 *)
      | [225; 154; 128] => 3 (* U+1680 *)
      | [226; 128; c] =>
          if ((128 <=? c) && (c <=? 138) || (c =? 168) || (c =? 169) || (c =? 175))%nat then 3 else 0
      | [226; 129; 159] => 3 (* U+205F *)
      | [227; 128; 128] => 3 (* U+3000 *)
      | _ => 0
      end
  | EmptyString => 0
  end%nat.

Definition flush (word : string) (l : list string) : list string :=
  if String.eqb word "" then l else word :: l.

(** [skip]: bytes of a space rune still to pass over; [word]: the field so far. *)
Fixpoint fields_from (skip : nat) (word s : string) : list string :=
  match s with
  | EmptyString => flush word []
  | String c s' =>
      match skip with
      | S skip => fields_from skip word s'
      | O =>
          match space_width s with
          | O => fields_from 0 (word +:+ String c "") s'
          | S w => flush word (fields_from w "" s')
          end
      end
  end.

Definition Fields (s : string) : list string := fields_from 0 "" s.

(** [strings.EqualFold(s, "mask")]: besides the ASCII letters, U+017F folds to s
    and U+212A to k. *)
Definition fold_s (s : string) : option string :=
  match s with
  | String c s' =>
      if Ascii.eqb (lower_byte c) "s" then Some s'
      else match s' with
           | String d s'' => if (byte_code c =? 197)%nat && (byte_code d =? 191)%nat then Some s'' else None
           | EmptyString => None
           end
  | EmptyString => None
  end.
Definition folds_to_k (s : string) : bool :=
  String.eqb (lower_ascii s) "k" ||
  ((String.length s =? 3)%nat && bool_decide (codes s = [226; 132; 170]%nat)).
Definition EqualFold_mask (s : string) : bool :=
  match s with
  | String m (String a s') =>
      Ascii.eqb (lower_byte m) "m" && Ascii.eqb (lower_byte a) "a" &&
      match fold_s s' with Some k => folds_to_k k | None => false end
  | _ => false
  end.

(** ** net: texts of addresses *)

Definition hex_char (n : Z) : ascii :=
  ascii_of_nat (Z.to_nat (if (n <? 10)%Z then n + 48 else n + 87)%Z).

(** A 16-bit group without leading zeros. *)
Definition hex16 (g : Z) : string :=
  let d k := String (hex_char (Z.land (Z.shiftr g k) 15)) "" in
  (if (4096 <=? g)%Z then d 12%Z else "") +:+ (if (256 <=? g)%Z then d 8%Z else "") +:+
  (if (16 <=? g)%Z then d 4%Z else "") +:+ d 0%Z.

Fixpoint zero_run (l : list Z) : nat :=
  match l with g :: l' => if (g =? 0)%Z then S (zero_run l') else O | [] => O end.

(** The first longest run of at least two zero groups, as its start and its end;
    [i]: the index of the head of [l]. *)
Fixpoint best_run (i : nat) (best : nat * nat) (l : list Z) : nat * nat :=
  match l with
  | [] => best
  | _ :: l' =>
      let n := zero_run l in
      best_run (S i) (if ((2 <=? n) && (best.2 - best.1 <? n))%nat then (i, i + n)%nat else best) l'
  end.

Definition ip6_String (l : list Z) : string :=
  let '(a, b) := best_run 0 (255, 255)%nat l in
  if (a =? 255)%nat then Join (hex16 <$> l) ":"
  else Join (hex16 <$> take a l) ":" +:+ "::" +:+ Join (hex16 <$> drop b l) ":".

(** [ip.String()] of a 16-byte address. *)
Definition ip_String (ip : list Z) : string :=
  match To4 ip with Some p => ip4_String p | None => ip6_String ip end.

(** ** net.ParseCIDR *)

(** A network: its 16-bit groups, two for IPv4 and eight for IPv6, and the length
    of its prefix. *)
Record IPNet := { net_groups : list Z; net_ones : Z }.

Definition net_bits (n : IPNet) : Z := (16 * Z.of_nat (length (net_groups n)))%Z.

(** [netip.ParseAddr], without the addresses with a zone. *)
Definition ParseAddr (s : string) : option (list Z) :=
  match first_special s with
  | Some "."%char => v4_groups <$> parseIPv4 s
  | Some ":"%char => if contains_byte "%" s then None else parseIPv6 s
  | _ => None
  end.

(** The group at index [i] of the mask of [ones] bits. *)
Definition mask_group (ones : Z) (i : nat) : Z :=
  (65536 - 2 ^ (16 - Z.max 0 (Z.min 16 (ones - 16 * Z.of_nat i))))%Z.
Definition masked (ones : Z) (l : list Z) : list Z := imap (λ i g, Z.land g (mask_group ones i)) l.

(** The network; the address, which no caller uses, is left out. *)
Definition ParseCIDR (s : string) : option IPNet :=
  match Cut s "/" with
  | (addr, mask, true) =>
      l ← ParseAddr addr;
      ones ← parse_digits mask;
      if (16 * Z.of_nat (length l) <? ones)%Z then None
      else Some {| net_groups := masked ones l; net_ones := ones |}
  | _ => None
  end.

(** [net.IP.String] of the groups of a network. *)
Definition groups_String (l : list Z) : string :=
  match l with [g; h] => ip4_String (g, h) | _ => ip_String l end.

(** [ipNet.String()]: a network of mapped addresses is written as an IPv4 one. *)
Definition IPNet_String (n : IPNet) : string :=
  let ones := match net_groups n with
              | [_; _] => net_ones n
              | l => if To4 l then (net_ones n - 96)%Z else net_ones n
              end in
  groups_String (net_groups n) +:+ "/" +:+ Itoa ones.

(** [net.IP(ipNet.Mask).String()] *)
Definition mask_String (n : IPNet) : string :=
  groups_String (imap (λ i _, mask_group (net_ones n) i) (net_groups n)).

(** ** subnet.go *)

Section text.
Context `{U : GoUnicode}.

Definition ParseSubnetComment (s : string) : string * string :=
  let s := TrimSpace s in
  match Cut s "!" with
  | (_, _, false) => (s, "")
  | (before, after, true) =>
      let cidr := TrimSpace before in
      let comment := TrimSpace after in
      if String.eqb cidr "" && String.eqb comment "" then (s, "") else (cidr, comment)
  end.

Definition FormatSubnetComment (cidr comment : string) : string :=
  let comment := TrimSpace comment in
  if String.eqb comment "" then cidr else cidr +:+ " !" +:+ comment.

(** ** parser.go *)

Definition uint32 (z : Z) : Z := (z mod 2 ^ 32)%Z.

(** [for i := 31; i >= 0; i--]: the ones from bit [n - 1] down. *)
Fixpoint leading_ones (bits : Z) (n : nat) : Z :=
  match n with
  | O => 0
  | S i => if negb (Z.land bits (Z.shiftl 1 (Z.of_nat i)) =? 0) then 1 + leading_ones bits i else 0
  end%Z.

Definition maskToCIDR (mask : string) : option Z :=
  ip ← ParseIP mask;
  '(g, h) ← To4 ip;
  let bits := Z.lor (Z.shiftl g 16) h in
  let inverted := Z.lxor bits (2 ^ 32 - 1) in
  if negb (inverted =? 0)%Z && negb (Z.land inverted (uint32 (inverted + 1)) =? 0)%Z then None
  else Some (leading_ones bits 32).

Fixpoint extractBatComment (fields : list string) : string :=
  match fields with
  | [] => ""
  | f :: l => if HasPrefix f "!" then TrimSpace (str_drop 1 (Join fields " ")) else extractBatComment l
  end.

Inductive BatError :=
  | TooFewFields (line : string)
  | NoMaskKeyword (line : string)
  | InvalidIP (ip line : string)
  | InvalidMask (mask line : string)
  | BadCIDR (cidr line : string).

(** What a line says: nothing, an error, or a subnet and its comment. *)
Inductive BatLine := BatSkip | BatBad (e : BatError) | BatRoute (subnet comment : string).

Definition parse_line (raw : string) : BatLine :=
  let line := TrimSpace raw in
  if String.eqb line "" then BatSkip
  else if negb (HasPrefix (ToLower line) "route add") then BatSkip
  else match Fields line with
  | _ :: _ :: ipStr :: keyword :: maskStr :: _ :: rest =>
      if negb (EqualFold_mask keyword) then BatBad (NoMaskKeyword line)
      else match ParseIP ipStr with
      | None => BatBad (InvalidIP ipStr line)
      | Some ip =>
          match maskToCIDR maskStr with
          | None => BatBad (InvalidMask maskStr line)
          | Some prefix =>
              let cidr := ip_String ip +:+ "/" +:+ Itoa prefix in
              match ParseCIDR cidr with
              | None => BatBad (BadCIDR cidr line)
              | Some n => BatRoute (IPNet_String n) (extractBatComment rest)
              end
          end
      end
  | _ => BatBad (TooFewFields line)
  end.

(** [seen], the subnets and the errors so far. *)
Definition bat_step (acc : gset string * list string * list BatError) (raw : string)
    : gset string * list string * list BatError :=
  let '(seen, subnets, errs) := acc in
  match parse_line raw with
  | BatSkip => acc
  | BatBad e => (seen, subnets, errs ++ [e])
  | BatRoute net comment =>
      if bool_decide (net ∈ seen) then acc
      else ({[net]} ∪ seen, subnets ++ [FormatSubnetComment net comment], errs)
  end.

Definition ParseBat (content : string) : list string * list BatError :=
  let '(_, subnets, errs) := foldl bat_step (∅, [], []) (split_byte newline content) in
  (merge_sort String.le subnets, errs).
End text.
