(* ===== verification/StaticParseProps.v ===== *)
(** * The text of static routes: properties

    The bit test of [maskToCIDR] accepts exactly the masks of the prefixes; the
    import of a [.bat] file; what the import stores is what the service reads. *)
From S2P Require Import Prelude GoLib GoText StaticParse.

(** ** Octets and groups *)

Lemma digit_of_range c d : digit_of c = Some d → (0 ≤ d ≤ 9)%Z.
Proof.
  unfold digit_of. intros H. case_match eqn:E; [|done]. injection H as <-.
  apply andb_true_iff in E as [?%Nat.leb_le ?%Nat.leb_le]. lia.
Qed.

Definition octet (z : Z) : Prop := (0 ≤ z ≤ 255)%Z.

Lemma v4_fields_octets pos val fresh zero s l :
  octet val → v4_fields pos val fresh zero s = Some l → Forall octet l ∧ length l = (4 - pos)%nat ∧ (pos ≤ 3)%nat.
Proof.
  revert pos val fresh zero l. induction s as [|c s IH]; intros pos val fresh zero l Hv; cbn [v4_fields].
  - destruct (negb fresh && (pos =? 3)%nat) eqn:E; [|done].
    apply andb_true_iff in E as [_ ->%Nat.eqb_eq]. intros [= <-]. auto.
  - destruct (digit_of c) as [d|] eqn:Ed.
    + destruct zero; [done|]. destruct (255 <? _)%Z eqn:El; [done|]. to_prop.
      apply digit_of_range in Ed. apply IH. unfold octet in *. lia.
    + destruct (Ascii.eqb c "."); [|done]. destruct fresh; [done|].
      destruct (pos =? 3)%nat eqn:E3; [done|]. intros (l' & Hl & ->)%fmap_Some.
      apply IH in Hl as (? & Hlen & ?); [|done]. split; [by constructor|]. simpl. apply Nat.eqb_neq in E3. lia.
Qed.

Lemma parseIPv4_octets s l : parseIPv4 s = Some l →
  ∃ a b c d, l = [a; b; c; d] ∧ octet a ∧ octet b ∧ octet c ∧ octet d.
Proof.
  intros H. apply v4_fields_octets in H as (Hf & Hl & _); [|done].
  destruct l as [|a [|b [|c [|d [|]]]]]; try done. exists a, b, c, d.
  by repeat match goal with H : Forall _ (_ :: _) |- _ => apply Forall_cons in H as [? ?] end.
Qed.

Definition group16 (z : Z) : Prop := (0 ≤ z < 65536)%Z.

Lemma hex_digit_range c : is_hex c = true → (0 ≤ hex_digit c < 16)%Z.
Proof. destruct c as [[] [] [] [] [] [] [] []]; vm_compute; intros; done || (split; done). Qed.

Lemma hex_val_range n acc s : (0 ≤ acc)%Z → (n ≤ hex_span s)%nat →
  (0 ≤ hex_val acc (str_take n s) < (acc + 1) * 16 ^ Z.of_nat n)%Z.
Proof.
  revert acc s. induction n as [|n IH]; intros acc s Ha Hn; [simpl; lia|].
  destruct s as [|c s]; [simpl in Hn; lia|]. cbn [hex_span] in Hn. destruct (is_hex c) eqn:Hc; [|lia].
  apply hex_digit_range in Hc. cbn [str_take hex_val]. rewrite Z.shiftl_mul_pow2 by lia.
  rewrite Nat2Z.inj_succ, Z.pow_succ_r by lia. specialize (IH (acc * 2 ^ 4 + hex_digit c)%Z s). nia.
Qed.

Lemma hex_group s : (0 < hex_span s ≤ 4)%nat → group16 (hex_val 0 (str_take (hex_span s) s)).
Proof.
  intros H. pose proof (hex_val_range (hex_span s) 0 s ltac:(lia) ltac:(lia)).
  assert (16 ^ Z.of_nat (hex_span s) ≤ 16 ^ 4)%Z by (apply Z.pow_le_mono_r; lia). unfold group16. lia.
Qed.

Lemma v4_groups_range s l : parseIPv4 s = Some l → ∃ g h, v4_groups l = [g; h] ∧ group16 g ∧ group16 h.
Proof.
  intros (a & b & c & d & -> & Ha & Hb & Hc & Hd)%parseIPv4_octets. eexists _, _. split; [done|].
  unfold octet, group16 in *. lia.
Qed.

(** The groups that the loop of the parser gives, and how many there are. *)
Lemma v6_loop_range n ell s pre post : v6_loop n ell s = Some (pre, post) →
  Forall group16 (pre ++ default [] post) ∧
  (if ell then post = None ∧ (length pre < n)%nat
   else match post with None => length pre = n | Some l => (length pre + length l < n)%nat end).
Proof.
  revert ell s pre post. induction n as [|n IH]; intros ell s pre post; cbn [v6_loop].
  { destruct (String.eqb s "" && negb ell) eqn:E; [|done]. to_prop. intros [= <- <-]. by destruct ell. }
  destruct ((hex_span s =? 0)%nat || (4 <? hex_span s)%nat) eqn:Eo; [done|].
  apply orb_false_iff in Eo as [E0%Nat.eqb_neq E4%Nat.ltb_ge].
  pose proof (hex_group s ltac:(lia)) as Hg. set (g := hex_val _ _) in *. clearbody g.
  destruct (str_drop (hex_span s) s) as [|c rest].
  { destruct ((n =? 0)%nat && negb ell || negb (n =? 0)%nat && ell) eqn:E; [|done]. intros [= <- <-].
    split; [simpl; auto using List.Forall_cons, List.Forall_nil|]. destruct ell, n; simpl in *; try done; try lia. split; [done|lia]. }
  destruct (Ascii.eqb c ".").
  { destruct (negb ell && negb (S n =? 2)%nat) eqn:E1; [done|]. destruct (S n <? 2)%nat eqn:E2; [done|].
    apply Nat.ltb_ge in E2. intros (l & Hl & H)%bind_Some.
    destruct (v4_groups_range _ _ Hl) as (x & y & Exy & Hx & Hy). rewrite Exy in H.
    destruct ((S n =? 2)%nat && negb ell || (2 <? S n)%nat && ell) eqn:E; [|done]. injection H as <- <-.
    split; [simpl; auto using List.Forall_cons, List.Forall_nil|]. destruct ell.
    - split; [done|]. rewrite andb_false_r in E. simpl in E. rewrite andb_true_r in E. apply Nat.ltb_lt in E.
      simpl. lia.
    - simpl in E1. apply negb_false_iff in E1. simpl in *. destruct n as [|[|]]; simpl in *; done. }
  destruct (negb (Ascii.eqb c ":")); [done|]. destruct rest as [|c' rest]; [done|].
  destruct (Ascii.eqb c' ":").
  - destruct ell; [done|]. destruct (String.eqb rest "").
    + destruct (negb (n =? 0)%nat) eqn:E; [|done]. intros [= <- <-]. split; [simpl; auto using List.Forall_cons, List.Forall_nil|].
      apply negb_true_iff, Nat.eqb_neq in E. simpl. lia.
    + intros ([l q] & H & [= <- <-])%bind_Some. apply IH in H as (Hf & -> & Hl).
      rewrite app_nil_r in Hf. split; [by constructor|]. simpl. lia.
  - intros ([l q] & H & [= <- <-])%bind_Some. apply IH in H as (Hf & Hl). split; [by constructor|].
    destruct ell; [destruct Hl; split; [done|simpl; lia]|]. destruct q; simpl; lia.
Qed.

Definition address_groups (l : list Z) : Prop := length l = 8%nat ∧ Forall group16 l.

Lemma group16_0 : group16 0.
Proof. unfold group16. lia. Qed.

Lemma v6_expand_range n ell s r : v6_loop n ell s = Some r → n = 8%nat → ell = false →
  address_groups (v6_expand r).
Proof.
  intros H -> ->. destruct r as [pre post]. apply v6_loop_range in H as [Hf Hl]. unfold v6_expand.
  destruct post as [post|]; simpl in *.
  - split; [rewrite !length_app, repeat_length; lia|]. apply Forall_app in Hf as [? ?].
    apply Forall_app. split; [done|]. apply Forall_app. split; [|done].
    apply Forall_forall. intros x Hx%list_elem_of_In%repeat_spec. subst. apply group16_0.
  - rewrite app_nil_r in Hf. by split.
Qed.

Lemma parseIPv6_range s l : parseIPv6 s = Some l → address_groups l.
Proof.
  assert (∀ t, v6_expand <$> v6_loop 8 false t = Some l → address_groups l) as Hl.
  { intros t (r & Hr & ->)%fmap_Some. by eapply v6_expand_range. }
  assert (∀ t, (if String.eqb t "" then Some (repeat 0%Z 8)
                else '(post, _) ← v6_loop 8 true t; Some (v6_expand ([], Some post))) = Some l →
    address_groups l) as Hc.
  { intros t. destruct (String.eqb t "").
    - intros [= <-]. split; [done|]. repeat constructor; done.
    - intros ([post q] & H & [= <-])%bind_Some. apply v6_loop_range in H as (Hf & -> & Hn).
      rewrite app_nil_r in Hf. unfold v6_expand. split.
      + rewrite !length_app, repeat_length. cbn [length]. lia.
      + apply Forall_app. split; [|done].
        apply Forall_forall. intros x Hx%list_elem_of_In%repeat_spec. subst. apply group16_0. }
  unfold parseIPv6. repeat (case_match; try by apply Hl).
  all: match goal with E : String.eqb ?t "" = _ |- _ => specialize (Hc t); by rewrite E in Hc end.
Qed.

Lemma ParseIP_range s l : ParseIP s = Some l → address_groups l.
Proof.
  unfold ParseIP. repeat (case_match; try done).
  - intros (o & Ho & [= <-])%bind_Some. destruct (v4_groups_range _ _ Ho) as (g & h & -> & ? & ?).
    split; [done|]. repeat (apply List.Forall_cons; [done || (unfold group16; lia)|]). constructor.
  - apply parseIPv6_range.
Qed.

Lemma To4_range s g h : ParseIP s ≫= To4 = Some (g, h) → group16 g ∧ group16 h.
Proof.
  intros (l & [_ Hl]%ParseIP_range & H)%bind_Some. unfold To4 in H. repeat (case_match; try done).
  injection H as -> ->. repeat (apply Forall_cons in Hl as [? Hl]). done.
Qed.

(** ** Masks *)

(** [x & (x + 1) = 0]: all the ones of [x] are its lowest bits. *)
Lemma land_succ_ones n x : (0 ≤ x < 2 ^ Z.of_nat n)%Z → Z.land x (x + 1) = 0%Z →
  ∃ k, (k ≤ n)%nat ∧ x = (2 ^ Z.of_nat k - 1)%Z.
Proof.
  revert x. induction n as [|n IH]; intros x Hx Hl; [exists 0%nat; simpl in *; lia|].
  rewrite Nat2Z.inj_succ, Z.pow_succ_r in Hx by lia.
  destruct (Z.Even_or_Odd x) as [[y ->]|[y ->]].
  - destruct (base.decide (y = 0%Z)) as [->|Hy]; [exists 0%nat; split; [lia|done]|]. exfalso. apply Hy.
    apply Z.bits_inj'. intros i Hi. rewrite Z.bits_0.
    apply (f_equal (λ z, Z.testbit z (Z.succ i))) in Hl. rewrite Z.land_spec, Z.bits_0 in Hl.
    rewrite Z.testbit_even_succ, Z.testbit_odd_succ, andb_diag in Hl by lia. done.
  - assert (Z.land y (y + 1) = 0%Z) as Hy.
    { apply Z.bits_inj'. intros i Hi. apply (f_equal (λ z, Z.testbit z (Z.succ i))) in Hl.
      rewrite Z.land_spec, Z.bits_0 in Hl. replace (2 * y + 1 + 1)%Z with (2 * (y + 1))%Z in Hl by lia.
      rewrite Z.testbit_even_succ, Z.testbit_odd_succ in Hl by lia. by rewrite Z.land_spec, Z.bits_0. }
    apply IH in Hy as (k & Hk & ->); [|lia]. exists (S k). split; [lia|].
    rewrite Nat2Z.inj_succ, Z.pow_succ_r by lia. lia.
Qed.

(** The mask of a prefix of [p] bits. *)
Definition prefix_mask (p : Z) : Z := (2 ^ 32 - 2 ^ (32 - p))%Z.

Definition contiguous (bits : Z) : bool :=
  let inverted := Z.lxor bits (2 ^ 32 - 1) in
  (inverted =? 0)%Z || (Z.land inverted (uint32 (inverted + 1)) =? 0)%Z.

Lemma all_prefixes (P : Z → Prop) p : (0 ≤ p ≤ 32)%Z → Forall P (Z.of_nat <$> seq 0 33) → P p.
Proof.
  intros Hp Hf. apply (proj1 (Forall_forall _ _) Hf). apply list_elem_of_fmap.
  exists (Z.to_nat p). rewrite elem_of_seq. lia.
Qed.

Lemma prefix_mask_facts p : (0 ≤ p ≤ 32)%Z →
  contiguous (prefix_mask p) = true ∧ leading_ones (prefix_mask p) 32 = p.
Proof.
  intros Hp. apply (all_prefixes (λ p, contiguous (prefix_mask p) = true ∧ leading_ones (prefix_mask p) 32 = p) p Hp).
  apply (bool_decide_unpack _). by vm_compute.
Qed.

Lemma lxor_all bits : (0 ≤ bits < 2 ^ 32)%Z → Z.lxor bits (2 ^ 32 - 1) = (2 ^ 32 - 1 - bits)%Z.
Proof.
  intros Hb. change (2 ^ 32 - 1)%Z with (Z.ones 32).
  assert (Z.log2 bits < 32)%Z as Hl.
  { destruct (base.decide (bits = 0%Z)) as [->|]; [done|]. apply Z.log2_lt_pow2; lia. }
  rewrite <- Z.ldiff_ones_l_low by lia. symmetry. apply Z.sub_nocarry_ldiff.
  apply Z.ldiff_ones_r_low; lia.
Qed.

Lemma contiguous_mask bits : (0 ≤ bits < 2 ^ 32)%Z → contiguous bits = true →
  ∃ p, (0 ≤ p ≤ 32)%Z ∧ bits = prefix_mask p.
Proof.
  intros Hb. unfold contiguous. rewrite lxor_all by done. set (x := (2 ^ 32 - 1 - bits)%Z).
  assert (0 ≤ x < 2 ^ 32)%Z as Hx by lia. intros H.
  assert (∃ k, (k ≤ 32)%nat ∧ x = (2 ^ Z.of_nat k - 1)%Z) as (k & Hk & Ek).
  { apply orb_true_iff in H as [H|H]; to_prop; [exists 0%nat; split; [lia|done]|].
    destruct (base.decide (x = 2 ^ 32 - 1)%Z) as [->|Hne]; [exists 32%nat; split; [lia|done]|].
    unfold uint32 in H. rewrite Z.mod_small in H by lia. by apply (land_succ_ones 32) in H. }
  exists (32 - Z.of_nat k)%Z. split; [lia|]. unfold prefix_mask. replace (32 - (32 - Z.of_nat k))%Z with (Z.of_nat k) by lia.
  lia.
Qed.

Lemma lor_groups g h : group16 g → group16 h → Z.lor (Z.shiftl g 16) h = (65536 * g + h)%Z.
Proof.
  unfold group16. intros Hg Hh. rewrite Z.shiftl_mul_pow2 by lia.
  replace (65536 * g + h)%Z with (g * 2 ^ 16 + h)%Z by lia.
  assert (Z.land (g * 2 ^ 16) h = 0%Z) as E.
  { apply Z.bits_inj'. intros i Hi. rewrite Z.land_spec, Z.bits_0.
    destruct (base.decide (i < 16)%Z); [by rewrite Z.mul_pow2_bits_low|].
    apply andb_false_intro2. destruct (base.decide (h = 0%Z)) as [->|]; [apply Z.bits_0|].
    apply Z.bits_above_log2; [lia|]. assert (Z.log2 h < 16)%Z by (apply Z.log2_lt_pow2; lia). lia. }
  pose proof (Z.add_lor_land (g * 2 ^ 16) h). lia.
Qed.

(** C31: [maskToCIDR] recognises by its bit test exactly the masks of the prefixes: it
    returns [p] just when the text is an IPv4 address whose 32 bits are [p] ones and
    then zeros; every other text, one with a hole among the ones included, is refused. *)
Theorem maskToCIDR_spec mask p :
  maskToCIDR mask = Some p ↔
  (0 ≤ p ≤ 32)%Z ∧ ∃ g h, ParseIP mask ≫= To4 = Some (g, h) ∧ (65536 * g + h)%Z = prefix_mask p.
Proof.
  unfold maskToCIDR. destruct (ParseIP mask ≫= To4) as [[g h]|] eqn:E.
  2: { split; [|by intros (_ & ? & ? & ? & _)]. destruct (ParseIP mask); [|done]. simpl in *. by rewrite E. }
  destruct (ParseIP mask) as [ip|] eqn:Eip; [|done]. cbn [mbind option_bind] in *. rewrite E. cbn [mbind option_bind]. assert (ParseIP mask ≫= To4 = Some (g, h)) as E' by (by rewrite Eip).
  apply To4_range in E' as [Hg Hh]. rewrite lor_groups by done. set (bits := (65536 * g + h)%Z).
  assert (0 ≤ bits < 2 ^ 32)%Z as Hb by (unfold group16, bits in *; lia).
  rewrite <- negb_orb. fold (contiguous bits). split.
  - destruct (contiguous bits) eqn:Ec; [|done]. apply contiguous_mask in Ec as (q & Hq & Ep); [|done].
    rewrite Ep at 1. rewrite (proj2 (prefix_mask_facts q Hq)). intros [= <-]. eauto.
  - intros (Hp & g' & h' & E2 & Ebits). injection E2 as <- <-. fold bits in Ebits. rewrite Ebits.
    destruct (prefix_mask_facts p Hp) as [-> ->]. done.
Qed.

(** ** IPv4 networks and their texts *)

Lemma all_octets (P : Z → Prop) a : octet a → Forall P (Z.of_nat <$> seq 0 256) → P a.
Proof.
  unfold octet. intros Ha Hf. apply (proj1 (Forall_forall _ _) Hf). apply list_elem_of_fmap.
  exists (Z.to_nat a). rewrite elem_of_seq. lia.
Qed.

Lemma octet_text a pos rest : octet a →
  v4_fields pos 0 true false (Itoa a +:+ rest) = v4_fields pos a false (a =? 0)%Z rest.
Proof.
  intros Ha. apply (all_octets (λ a, v4_fields pos 0 true false (Itoa a +:+ rest) =
    v4_fields pos a false (a =? 0)%Z rest) a Ha).
  repeat (apply List.Forall_cons; [reflexivity|]). apply List.Forall_nil.
Qed.

Lemma octet_special a rest : octet a → first_special (Itoa a +:+ rest) = first_special rest.
Proof.
  intros Ha. apply (all_octets (λ a, first_special (Itoa a +:+ rest) = first_special rest) a Ha).
  repeat (apply List.Forall_cons; [reflexivity|]). apply List.Forall_nil.
Qed.

Lemma octets_of_group g : group16 g →
  octet (Z.shiftr g 8) ∧ octet (Z.land g 255) ∧ (Z.shiftr g 8 * 256 + Z.land g 255)%Z = g.
Proof.
  unfold group16, octet. intros Hg. rewrite Z.shiftr_div_pow2 by lia. change 255%Z with (Z.ones 8).
  rewrite Z.land_ones by lia. change (Z.ones 8) with 255%Z. change (2 ^ 8)%Z with 256%Z.
  pose proof (Z.div_mod g 256 ltac:(done)). pose proof (Z.mod_pos_bound g 256 ltac:(done)). lia.
Qed.

Lemma v4_dot pos val zero s : (pos < 3)%nat →
  v4_fields pos val false zero ("." +:+ s) = cons val <$> v4_fields (S pos) 0 true false s.
Proof. intros Hp. destruct pos as [|[|[|]]]; [done..|lia]. Qed.

Section v4.
Context (g h : Z) (Hg : group16 g) (Hh : group16 h).

Lemma parseIPv4_String : v4_groups <$> parseIPv4 (ip4_String (g, h)) = Some [g; h].
Proof.
  destruct (octets_of_group g Hg) as (Ha & Hb & Eg), (octets_of_group h Hh) as (Hc & Hd & Eh).
  unfold parseIPv4, ip4_String. cbn [fmap list_fmap Join]. rewrite octet_text by done.
  rewrite v4_dot, octet_text, v4_dot, octet_text, v4_dot by (done || lia).
  rewrite <- (app_empty_r (Itoa (Z.land h 255))), octet_text by done. cbn.
  by rewrite Eg, Eh.
Qed.

Lemma ParseAddr_String : ParseAddr (ip4_String (g, h)) = Some [g; h].
Proof.
  unfold ParseAddr. assert (first_special (ip4_String (g, h)) = Some "."%char) as ->; [|by apply parseIPv4_String].
  unfold ip4_String. cbn [fmap list_fmap Join]. rewrite octet_special; [done|]. by apply octets_of_group.
Qed.

Lemma Itoa_octet_forallb q a : octet a → (∀ c, is_digit c = true → q c = true) → str_forallb q (Itoa a) = true.
Proof.
  intros Ha Hq. destruct (Itoa_digits a) as [_ H]; [unfold octet in Ha; lia|]. by apply (str_forallb_impl is_digit).
Qed.

Lemma ip4_String_chars q : (∀ c, is_digit c = true → q c = true) → q "."%char = true →
  str_forallb q (ip4_String (g, h)) = true.
Proof.
  intros Hq Hdot. destruct (octets_of_group g Hg) as (? & ? & _), (octets_of_group h Hh) as (? & ? & _).
  unfold ip4_String. cbn [fmap list_fmap Join]. rewrite !str_forallb_app. simpl.
  by rewrite !Hdot, !Itoa_octet_forallb.
Qed.
End v4.

(** A network of IPv4, its host bits zero. *)
Definition network4 (n : IPNet) : Prop :=
  ∃ g h, net_groups n = [g; h] ∧ group16 g ∧ group16 h ∧ (0 ≤ net_ones n ≤ 32)%Z ∧
  masked (net_ones n) [g; h] = [g; h].

Lemma prefix_text p : (0 ≤ p ≤ 32)%Z → parse_digits (Itoa p) = Some p ∧ str_forallb is_digit (Itoa p) = true.
Proof.
  intros Hp. apply (all_prefixes (λ p, parse_digits (Itoa p) = Some p ∧ str_forallb is_digit (Itoa p) = true) p Hp).
  apply (bool_decide_unpack _). by vm_compute.
Qed.

Lemma IPNet_String_4 n g h : net_groups n = [g; h] → IPNet_String n = ip4_String (g, h) +:+ "/" +:+ Itoa (net_ones n).
Proof. unfold IPNet_String. by intros ->. Qed.

(** The text of an address with a prefix is read as the network around it. *)
Lemma ParseCIDR_text g h p : group16 g → group16 h → (0 ≤ p ≤ 32)%Z →
  ParseCIDR (ip4_String (g, h) +:+ "/" +:+ Itoa p) = Some {| net_groups := masked p [g; h]; net_ones := p |}.
Proof.
  intros Hg Hh Hp. unfold ParseCIDR, Cut. change ("/" +:+ Itoa p) with (String "/" (Itoa p)).
  rewrite index_byte_app by (apply ip4_String_chars; [done..|by intros [[] [] [] [] [] [] [] []]|done]).
  rewrite str_take_app. replace (str_drop (S (String.length (ip4_String (g, h)))) _) with (Itoa p).
  2: { generalize (ip4_String (g, h)). intros s. induction s as [|c s IH]; [done|]. simpl. done. }
  rewrite ParseAddr_String by done. cbn [mbind option_bind].
  destruct (prefix_text p Hp) as [-> _]. cbn [mbind option_bind].
  rewrite (proj2 (Z.ltb_ge _ _)); [done|]. simpl. lia.
Qed.

Lemma mask_group_range p i : group16 (mask_group p i) .
Proof.
  unfold group16, mask_group. set (k := (16 - _)%Z). assert (0 ≤ k ≤ 16)%Z by lia.
  assert (1 ≤ 2 ^ k)%Z by (apply (Z.pow_le_mono_r 2 0 k); lia).
  assert (2 ^ k ≤ 2 ^ 16)%Z by (apply Z.pow_le_mono_r; lia). lia.
Qed.

Lemma land_group a b : group16 a → group16 b → group16 (Z.land a b).
Proof.
  unfold group16. intros Ha Hb. split; [apply Z.land_nonneg; lia|].
  replace (Z.land a b) with (Z.land (Z.land a b) (Z.ones 16)).
  - rewrite Z.land_ones by lia. apply Z.mod_pos_bound. lia.
  - rewrite <- Z.land_assoc. f_equal. rewrite Z.land_ones by lia. by rewrite Z.mod_small by lia.
Qed.

Lemma masked_network4 g h p : group16 g → group16 h → (0 ≤ p ≤ 32)%Z →
  network4 {| net_groups := masked p [g; h]; net_ones := p |}.
Proof.
  intros Hg Hh Hp. eexists _, _. split; [done|]. split; [apply land_group; [done|apply mask_group_range]|].
  split; [apply land_group; [done|apply mask_group_range]|]. split; [done|]. unfold masked. simpl.
  by rewrite <- !Z.land_assoc, !Z.land_diag.
Qed.

Lemma ParseCIDR_String n : network4 n → ParseCIDR (IPNet_String n) = Some n.
Proof.
  intros (g & h & E & Hg & Hh & Hp & Hm). rewrite (IPNet_String_4 n g h), ParseCIDR_text by done.
  rewrite Hm, <- E. by destruct n.
Qed.

Lemma IPNet_String_chars q n : network4 n → (∀ c, is_digit c = true → q c = true) → q "."%char = true →
  q "/"%char = true → str_forallb q (IPNet_String n) = true.
Proof.
  intros (g & h & E & Hg & Hh & Hp & Hm) Hq Hd Hs. rewrite (IPNet_String_4 n g h) by done.
  rewrite str_forallb_app, ip4_String_chars by done. change (true && (q "/"%char && str_forallb q (Itoa (net_ones n))) = true). rewrite Hs.
  by rewrite (str_forallb_impl is_digit q) by (done || by apply prefix_text).
Qed.

(** ** Comments *)

Section text.
Context `{U : GoUnicode}.

Abbreviation ascii_str s := (str_forallb is_ascii_byte s = true).

Lemma Cut_free s b : free_of b s = true → Cut s b = (s, "", false).
Proof.
  intros H. unfold Cut. assert (index_byte b s = None) as ->; [|done].
  unfold free_of in H. induction s as [|c s IH]; [done|]. simpl in *. to_prop. by rewrite H, IH.
Qed.

Lemma Cut_app s s' b : free_of b s = true → Cut (s +:+ String b s') b = (s, s', true).
Proof.
  intros H. unfold Cut. rewrite index_byte_app by done. rewrite str_take_app. f_equal. f_equal.
  clear H. induction s as [|c s IH]; [done|]. exact IH.
Qed.

Lemma trimLeft_app_head s s' : trim_left ascii_space s = s → s ≠ "" → trim_left ascii_space (s +:+ s') = s +:+ s'.
Proof.
  destruct s as [|c s]; [done|]. intros H _. rewrite str_app_cons. simpl in *.
  destruct (ascii_space c); [|done]. apply (f_equal strlen) in H. pose proof (strlen_trim_left ascii_space s).
  simpl in H. lia.
Qed.

(** A subnet is stored with its comment as the service reads it back. *)
Lemma ParseSubnetComment_Format cidr comment :
  ascii_str cidr → ascii_str comment → TrimSpace cidr = cidr → cidr ≠ "" → free_of "!" cidr = true →
  ParseSubnetComment (FormatSubnetComment cidr comment) = (cidr, TrimSpace comment).
Proof.
  intros Ha Hc Ht Hne Hfree. unfold FormatSubnetComment. destruct (trimmed_parts _ Ha Ht) as [Hl Hr].
  destruct (String.eqb_spec (TrimSpace comment) "") as [E|E].
  - unfold ParseSubnetComment. by rewrite Ht, Cut_free, E.
  - set (c := TrimSpace comment) in *.
    assert (ascii_str c) as Hac by (by apply TrimSpace_forallb).
    assert (TrimSpace c = c) as Htc by (by apply TrimSpace_idem).
    destruct (trimmed_parts _ Hac Htc) as [Hlc Hrc]. unfold ParseSubnetComment.
    assert (trim_right ascii_space (" !" +:+ c) = " !" +:+ c) as Etr.
    { rewrite trim_right_app, Hrc. by destruct (String.eqb_spec c ""). }
    assert (TrimSpace (cidr +:+ " !" +:+ c) = cidr +:+ " !" +:+ c) as ->.
    { rewrite TrimSpace_ascii by (by rewrite !str_forallb_app, Ha, Hac).
      by rewrite trimLeft_app_head, trim_right_app, Etr by done. }
    replace (cidr +:+ " !" +:+ c) with ((cidr +:+ " ") +:+ String "!" c) by (by rewrite <- (assoc_L String.append)).
    rewrite Cut_app by (unfold free_of in *; by rewrite str_forallb_app, Hfree). rewrite Htc.
    rewrite (TrimSpace_ascii (cidr +:+ " ")) by (by rewrite str_forallb_app, Ha).
    rewrite trimLeft_app_head, trim_right_app by done. simpl. rewrite Hr.
    by destruct (String.eqb_spec cidr "").
Qed.

(** ** The lines of a [.bat] file *)

Lemma fields_from_ascii q skip word s : str_forallb q word = true → str_forallb q s = true →
  Forall (λ f, str_forallb q f = true) (fields_from skip word s).
Proof.
  assert (∀ w l, str_forallb q w = true → Forall (λ f, str_forallb q f = true) l →
    Forall (λ f, str_forallb q f = true) (flush w l)) as Hfl.
  { intros w l Hw Hl. unfold flush. destruct (String.eqb w ""); [done|]. by constructor. }
  revert skip word. induction s as [|c s IH]; intros skip word Hw Hs.
  - cbn [fields_from]. apply Hfl; [done|]. constructor.
  - cbn [str_forallb] in Hs. to_prop. cbn [fields_from]. destruct skip as [|skip]; [|by apply IH].
    destruct (space_width _) as [|w].
    + apply IH; [|done]. rewrite str_forallb_app, Hw. simpl. by rewrite H.
    + apply Hfl; [done|]. by apply IH.
Qed.

Lemma Join_forallb q l sep : str_forallb q sep = true → Forall (λ f, str_forallb q f = true) l →
  str_forallb q (Join l sep) = true.
Proof.
  intros Hs. induction 1 as [|f l Hf Hl IH]; [done|]. destruct l as [|f' l]; [done|].
  change (Join (f :: f' :: l) sep) with (f +:+ sep +:+ Join (f' :: l) sep).
  by rewrite !str_forallb_app, Hf, Hs, IH.
Qed.

Lemma comment_trimmed fields : Forall (λ f, ascii_str f) fields →
  ascii_str (extractBatComment fields) ∧ TrimSpace (extractBatComment fields) = extractBatComment fields.
Proof.
  induction 1 as [|f l Hf Hl IH]; [done|]. cbn [extractBatComment].
  destruct (HasPrefix f "!"); [|done].
  assert (ascii_str (str_drop 1 (Join (f :: l) " "))) as Ha
    by (apply str_forallb_drop, Join_forallb; [done|by constructor]).
  split; [by apply TrimSpace_forallb|by apply TrimSpace_idem].
Qed.

(** Which lines are about an IPv4 address. *)
Definition ipv4_line (raw : string) : Prop :=
  ∀ a b ip l, Fields (TrimSpace raw) = a :: b :: ip :: l → ParseIP_ok ip = true → (ParseIP ip ≫= To4) ≠ None.

Lemma ip_String_4 ip g h : To4 ip = Some (g, h) → ip_String ip = ip4_String (g, h).
Proof. unfold ip_String. by intros ->. Qed.

(** The route of a line: a network, and a comment without space around it. *)
Lemma parse_line_route raw net comment : ascii_str raw → parse_line raw = BatRoute net comment →
  ascii_str comment ∧ TrimSpace comment = comment ∧ (ipv4_line raw → ∃ n, network4 n ∧ net = IPNet_String n).
Proof.
  intros Ha. unfold parse_line, ipv4_line. set (line := TrimSpace raw).
  assert (ascii_str line) as Hal by (by apply TrimSpace_forallb).
  pose proof (fields_from_ascii is_ascii_byte 0 "" line eq_refl Hal) as Hf. fold (Fields line) in Hf.
  destruct (String.eqb line ""); [done|]. destruct (negb (HasPrefix _ _)); [done|].
  destruct (Fields line) as [|a [|b [|ip [|kw [|mask [|gw rest]]]]]]; try done.
  destruct (negb (EqualFold_mask kw)); [done|]. destruct (ParseIP ip) as [addr|] eqn:Eip; [|done].
  destruct (maskToCIDR mask) as [p|] eqn:Em; [|done]. destruct (ParseCIDR _) as [n|] eqn:En; [|done].
  intros [= <- <-]. destruct (comment_trimmed rest) as [? ?].
  { by repeat apply Forall_cons in Hf as [_ Hf]. }
  split; [done|]. split; [done|]. intros H4. specialize (H4 _ _ _ _ eq_refl). unfold ParseIP_ok in H4.
  rewrite Eip in H4. specialize (H4 eq_refl). simpl in H4. destruct (To4 addr) as [[g h]|] eqn:E4; [|done].
  destruct (To4_range ip g h) as [Hg Hh]; [by rewrite Eip|].
  apply maskToCIDR_spec in Em as [Hp _]. rewrite (ip_String_4 _ _ _ E4), ParseCIDR_text in En by done.
  apply (inj Some) in En as <-. exists {| net_groups := masked p [g; h]; net_ones := p |}.
  split; [by apply masked_network4|done].
Qed.
(** *** The whole file *)

Definition bad_of (l : BatLine) : option BatError := match l with BatBad e => Some e | _ => None end.
Definition route_of (l : BatLine) : option (string * string) :=
  match l with BatRoute net comment => Some (net, comment) | _ => None end.

(** The first route of every network. *)
Fixpoint first_routes (seen : gset string) (l : list (string * string)) : list (string * string) :=
  match l with
  | [] => []
  | r :: l => if bool_decide (r.1 ∈ seen) then first_routes seen l else r :: first_routes ({[r.1]} ∪ seen) l
  end.

Definition format_route (r : string * string) : string := FormatSubnetComment r.1 r.2.

Lemma bat_fold lines seen subnets errs :
  (foldl bat_step (seen, subnets, errs) lines).1.2 =
    subnets ++ (format_route <$> first_routes seen (omap route_of (parse_line <$> lines))) ∧
  (foldl bat_step (seen, subnets, errs) lines).2 = errs ++ omap bad_of (parse_line <$> lines).
Proof.
  revert seen subnets errs. induction lines as [|line lines IH]; intros seen subnets errs.
  { simpl. by rewrite !app_nil_r. }
  cbn [foldl]. unfold bat_step at 2 4. csimpl. destruct (parse_line line) as [|e|net comment]; csimpl.
  - apply IH.
  - destruct (IH seen subnets (errs ++ [e])) as [-> ->]. by rewrite <- (assoc_L (++)).
  - destruct (bool_decide (net ∈ seen)); [apply IH|].
    destruct (IH ({[net]} ∪ seen) (subnets ++ [FormatSubnetComment net comment]) errs) as [-> ->].
    csimpl. by rewrite <- (assoc_L (++)).
Qed.

Lemma first_routes_spec seen l :
  NoDup (first_routes seen l).*1 ∧
  (∀ net, net ∈ (first_routes seen l).*1 ↔ net ∈ l.*1 ∧ net ∉ seen) ∧
  (∀ r, r ∈ first_routes seen l → r ∈ l).
Proof.
  revert seen. induction l as [|r l IH]; intros seen; [cbn; split; [constructor|set_solver]|].
  cbn [first_routes]. destruct (bool_decide (r.1 ∈ seen)) eqn:E.
  - apply bool_decide_eq_true in E. destruct (IH seen) as (? & Hn & ?). split; [done|].
    split; [|set_solver]. intros net. rewrite Hn. csimpl. set_solver.
  - apply bool_decide_eq_false in E. destruct (IH ({[r.1]} ∪ seen)) as (Hd & Hn & ?). csimpl.
    split; [constructor; [|done]; rewrite Hn; set_solver|]. split; [|set_solver].
    intros net. rewrite !elem_of_cons, Hn. destruct (base.decide (net = r.1)); set_solver.
Qed.

(** The import of a file: the networks of its route lines, each once with the comment
    of its first line, sorted; and the errors of the other lines, in their order. *)
Theorem ParseBat_spec content :
  let lines := parse_line <$> split_byte newline content in
  ∃ routes, (∀ net, net ∈ routes.*1 ↔ ∃ comment, BatRoute net comment ∈ lines) ∧ NoDup routes.*1 ∧
  (∀ net comment, (net, comment) ∈ routes → BatRoute net comment ∈ lines) ∧
  (ParseBat content).1 ≡ₚ (format_route <$> routes) ∧ StronglySorted String.le (ParseBat content).1 ∧
  (ParseBat content).2 = omap bad_of lines.
Proof.
  intros lines. set (l := omap route_of lines). exists (first_routes ∅ l).
  assert (∀ net c, (net, c) ∈ l ↔ BatRoute net c ∈ lines) as Hl.
  { intros net c. unfold l. rewrite list_elem_of_omap. split; [|intros H; by exists (BatRoute net c)].
    intros (x & Hx & E). destruct x; simplify_eq/=. done. }
  destruct (first_routes_spec ∅ l) as (Hd & Hn & Hi).
  destruct (bat_fold (split_byte newline content) ∅ [] []) as [Hs He]. fold lines in Hs, He. fold l in Hs.
  split; [|split; [done|split; [intros net c Hr; by apply Hl, Hi|]]].
  - intros net. rewrite Hn, list_elem_of_fmap. split.
    + intros [([n c] & -> & Hin) _]. exists c. by apply Hl.
    + intros [c Hin%Hl]. split; [by exists (net, c)|set_solver].
  - unfold ParseBat. destruct (foldl bat_step _ _) as [[seen subnets] errs]. simpl in *. rewrite Hs, He.
    split; [apply merge_sort_Permutation|]. split; [apply (StronglySorted_merge_sort _)|done].
Qed.
End text.
