(* ===== verification/StaticRoute.v ===== *)
(** * Static routes

    [internal/storage/staticroute.go]: the stored route lists;
    [internal/ndms/command/routes.go]: the router's commands for routes;
    [internal/staticroute/impl.go]: the service.

    The store hands out pointers into its cached list: what the service writes
    through such a pointer changes the cache ([write_through]).  Journal lines and
    cache invalidations are left out; where the source only logs an error, the
    result is dropped. *)
From S2P Require Import Prelude GoLib GoText Names Catalog StaticParse.

(** ** Data *)

(** [Subnets] is [None] for the nil slice, which JSON [null] or a missing field is. *)
Record StaticRouteList := {
  ID : string; Name : string; TunnelID : string; Subnets : option (list string);
  Fallback : string; IconURL : string; Enabled : bool; CreatedAt : string; UpdatedAt : string;
}.

#[export] Instance StaticRouteList_eq_dec : EqDecision StaticRouteList.
Proof. solve_decision. Defined.

Definition eta_list (r : StaticRouteList) : StaticRouteList := {|
  ID := ID r; Name := Name r; TunnelID := TunnelID r; Subnets := Subnets r; Fallback := Fallback r;
  IconURL := IconURL r; Enabled := Enabled r; CreatedAt := CreatedAt r; UpdatedAt := UpdatedAt r |}.
Definition set_ID (v : string) (r : StaticRouteList) : StaticRouteList := ltac:(update_field eta_list ID v r).
Definition set_Name (v : string) (r : StaticRouteList) : StaticRouteList := ltac:(update_field eta_list Name v r).
Definition set_TunnelID (v : string) (r : StaticRouteList) : StaticRouteList :=
  ltac:(update_field eta_list TunnelID v r).
Definition set_Subnets (v : option (list string)) (r : StaticRouteList) : StaticRouteList :=
  ltac:(update_field eta_list Subnets v r).
Definition set_Enabled (v : bool) (r : StaticRouteList) : StaticRouteList :=
  ltac:(update_field eta_list Enabled v r).
Definition set_CreatedAt (v : string) (r : StaticRouteList) : StaticRouteList :=
  ltac:(update_field eta_list CreatedAt v r).
Definition set_UpdatedAt (v : string) (r : StaticRouteList) : StaticRouteList :=
  ltac:(update_field eta_list UpdatedAt v r).

Definition subnets_of (r : StaticRouteList) : list string := default [] (Subnets r).

(** ** The store

    [sr_data]: the cached lists, [None] before the first read; [sr_disk]: the file, its
    lists or a text that is not valid JSON; [sr_faults]: the outcome of the coming file
    accesses, [true] for an error. *)
Inductive sr_file := SrData (l : list StaticRouteList) | SrCorrupt (raw : string).

Record StaticRouteStore := {
  sr_data : option (list StaticRouteList);
  sr_disk : option sr_file;
  sr_faults : list bool;
}.

Definition sr_fault (s : StaticRouteStore) : bool * StaticRouteStore :=
  match sr_faults s with
  | [] => (false, s)
  | b :: bs => (b, {| sr_data := sr_data s; sr_disk := sr_disk s; sr_faults := bs |})
  end.
Definition set_cache (l : list StaticRouteList) (s : StaticRouteStore) : StaticRouteStore :=
  {| sr_data := Some l; sr_disk := sr_disk s; sr_faults := sr_faults s |}.
Definition set_file (l : list StaticRouteList) (s : StaticRouteStore) : StaticRouteStore :=
  {| sr_data := sr_data s; sr_disk := Some (SrData l); sr_faults := sr_faults s |}.

Definition loadUnlocked : ST StaticRouteStore (string + list StaticRouteList) := λ s,
  match sr_disk s with
  | None => (inr [], set_cache [] s)
  | Some f =>
      let '(bad, s) := sr_fault s in
      if bad then (inl "read static routes file", s)
      else match f with
      | SrCorrupt _ => (inl "parse static routes JSON", s)
      | SrData l => (inr l, set_cache l s)
      end
  end.

Definition data_Get : ST StaticRouteStore (string + list StaticRouteList) := λ s,
  match sr_data s with Some l => (inr l, s) | None => loadUnlocked s end.

(** [data] is the cached object itself, already changed when it is written. *)
Definition saveUnlocked (l : list StaticRouteList) : ST StaticRouteStore (option string) := λ s,
  let s := set_cache l s in
  let '(bad, s) := sr_fault s in
  if bad then (Some "write static routes file", s) else (None, set_file l s).

Definition ListRouteLists : ST StaticRouteStore (string + list StaticRouteList) := data_Get.

Definition has_id (id : string) (r : StaticRouteList) : bool := String.eqb (ID r) id.

Definition GetRouteList (id : string) : ST StaticRouteStore (string + StaticRouteList) :=
  d ← data_Get;
  mret (match d with
        | inl e => inl e
        | inr l => match List.find (has_id id) l with
                   | Some r => inr r
                   | None => inl "route list not found"
                   end
        end).

(** The first list with the ID is replaced or removed; [None]: there is none. *)
Fixpoint at_id (id : string) (f : StaticRouteList → list StaticRouteList) (l : list StaticRouteList)
    : option (list StaticRouteList) :=
  match l with
  | [] => None
  | r :: l' => if has_id id r then Some (f r ++ l') else cons r <$> at_id id f l'
  end.

(** A write through the pointer that [GetRouteList] returned. *)
Definition write_through (id : string) (f : StaticRouteList → StaticRouteList) (s : StaticRouteStore)
    : StaticRouteStore :=
  match sr_data s with
  | Some l => match at_id id (λ r, [f r]) l with Some l' => set_cache l' s | None => s end
  | None => s
  end.

Definition AddRouteList (rl : StaticRouteList) : ST StaticRouteStore (option string) :=
  d ← loadUnlocked;
  match d with inl e => mret (Some e) | inr l => saveUnlocked (l ++ [rl]) end.

Definition store_edit (id : string) (f : StaticRouteList → list StaticRouteList)
    : ST StaticRouteStore (option string) :=
  d ← loadUnlocked;
  match d with
  | inl e => mret (Some e)
  | inr l => match at_id id f l with
             | Some l' => saveUnlocked l'
             | None => mret (Some "route list not found")
             end
  end.
Definition UpdateRouteList (rl : StaticRouteList) : ST StaticRouteStore (option string) :=
  store_edit (ID rl) (λ _, [rl]).
Definition DeleteRouteList (id : string) : ST StaticRouteStore (option string) := store_edit id (λ _, []).

(** ** The router's commands ([ndms/command/routes.go]) *)

(** The object under ["route"]; a text or a flag that is not sent is empty or [false]. *)
Record route_body := {
  rb_default : bool; rb_interface : string; rb_host : string; rb_network : string; rb_mask : string;
  rb_auto : bool; rb_no : bool; rb_reject : bool; rb_comment : string;
}.
Definition no_body : route_body := {|
  rb_default := false; rb_interface := ""; rb_host := ""; rb_network := ""; rb_mask := "";
  rb_auto := false; rb_no := false; rb_reject := false; rb_comment := "" |}.
(** The object ["ip"] or ["ipv6"]. *)
Inductive route_payload := IpRoute (r : route_body) | Ipv6Route (r : route_body).

Record StaticRouteSpec := {
  sp_Interface : string; sp_Host : string; sp_Network : string; sp_Mask : string;
  sp_Reject : bool; sp_Comment : string; sp_V6 : bool;
}.

(** The router, the save coordinator, the [ip] tool and the interfaces of the kernel. *)
Class RouteDevice (W : Type) := {
  route_Post : route_payload → ST W (option string);
  save_Request : W → W;
  ip_run : list string → ST W (option string); (* [exec.Run] of [/opt/sbin/ip] *)
  ifaceExists : string → W → bool;
}.

Section commands.
Context {W : Type} `{D : RouteDevice W}.

Definition mutate (p : route_payload) (op : string) : ST W (option string) :=
  check (λ e, op +:+ ": " +:+ e) (route_Post p) (_ ← modify save_Request; mret None).

Definition default_route (name : string) (no : bool) : route_body := {|
  rb_default := true; rb_interface := name; rb_host := ""; rb_network := ""; rb_mask := "";
  rb_auto := false; rb_no := no; rb_reject := false; rb_comment := "" |}.

Definition SetDefaultRoute (name : string) : ST W (option string) :=
  mutate (IpRoute (default_route name false)) ("set default route " +:+ name).
Definition RemoveDefaultRoute (name : string) : ST W (option string) :=
  mutate (IpRoute (default_route name true)) ("remove default route " +:+ name).
Definition SetIPv6DefaultRoute (name : string) : ST W (option string) :=
  mutate (Ipv6Route (default_route name false)) ("set ipv6 default route " +:+ name).
Definition RemoveIPv6DefaultRoute (name : string) : ST W (option string) :=
  mutate (Ipv6Route (default_route name true)) ("remove ipv6 default route " +:+ name).

Definition RemoveHostRoute (host : string) : ST W (option string) :=
  mutate (IpRoute {| rb_default := false; rb_interface := ""; rb_host := host; rb_network := "";
                     rb_mask := ""; rb_auto := false; rb_no := true; rb_reject := false;
                     rb_comment := "" |}) ("remove host route " +:+ host).

(** The part of a payload that says which route it is about. *)
Definition about (route : StaticRouteSpec) (auto no reject : bool) (comment : string) : route_body :=
  let is_host := negb (String.eqb (sp_Host route) "") in
  {| rb_default := false; rb_interface := sp_Interface route; rb_host := sp_Host route;
     rb_network := if is_host then "" else sp_Network route;
     rb_mask := if is_host then "" else sp_Mask route;
     rb_auto := auto; rb_no := no; rb_reject := reject; rb_comment := comment |}.
Definition about6 (route : StaticRouteSpec) (auto no : bool) : route_body :=
  {| rb_default := false; rb_interface := sp_Interface route; rb_host := "";
     rb_network := sp_Network route; rb_mask := ""; rb_auto := auto; rb_no := no; rb_reject := false;
     rb_comment := "" |}.

Definition AddStaticRoute (route : StaticRouteSpec) : ST W (option string) :=
  if sp_V6 route then mutate (Ipv6Route (about6 route true false)) "add ipv6 static route"
  else mutate (IpRoute (about route true false (sp_Reject route) (sp_Comment route))) "add static route".
Definition RemoveStaticRoute (route : StaticRouteSpec) : ST W (option string) :=
  if sp_V6 route then mutate (Ipv6Route (about6 route false true)) "remove ipv6 static route"
  else mutate (IpRoute (about route false true false "")) "remove static route".
End commands.

(** ** The service ([staticroute/impl.go]) *)

Definition validateRouteList (rl : StaticRouteList) : option string :=
  if String.eqb (TunnelID rl) "" then Some "tunnelID is required"
  else if String.eqb (Name rl) "" then Some "name is required"
  else match subnets_of rl with [] => Some "subnets must not be empty" | _ => None end.

(** The network and, unless it is a host, its mask. *)
Definition parseCIDR (cidr : string) : string + (string * string) :=
  match ParseCIDR cidr with
  | None => inl "invalid CIDR address"
  | Some n =>
      if negb (net_bits n =? 32)%Z then inl "IPv6 subnets not supported"
      else if (net_ones n =? 32)%Z then inr (groups_String (net_groups n), "")
      else inr (groups_String (net_groups n), mask_String n)
  end.

Section service.
Context `{U : GoUnicode} {W : Type} `{D : RouteDevice W}.
(** What the catalogue answers. *)
Variable cat : Catalog.

Definition isOS4Kernel (tunnelID : string) : bool := String.eqb (NDMSName (NewNames tunnelID)) "".

Definition world : Type := StaticRouteStore * W.
Definition on_store {R} (f : ST StaticRouteStore R) : ST world R :=
  λ s, let '(r, c) := f s.1 in (r, (c, s.2)).
Definition on_device {R} (f : ST W R) : ST world R := λ s, let '(r, w) := f s.2 in (r, (s.1, w)).

Definition ipRouteAdd (subnet ifaceName : string) : ST W (option string) :=
  ip_run ["route"; "replace"; subnet; "dev"; ifaceName].
Definition ipRouteDel (subnet ifaceName : string) : ST W (option string) :=
  ip_run ["route"; "del"; subnet; "dev"; ifaceName].

Definition route_spec (ifaceName network mask : string) (reject : bool) (comment : string) : StaticRouteSpec :=
  let is_host := String.eqb mask "" in
  {| sp_Interface := ifaceName; sp_Host := if is_host then network else "";
     sp_Network := if is_host then "" else network; sp_Mask := if is_host then "" else mask;
     sp_Reject := reject; sp_Comment := comment; sp_V6 := false |}.

Definition addRoute (subnet ifaceName fallback : string) (os4kernel : bool) : ST W (option string) :=
  let '(cidr, comment) := ParseSubnetComment subnet in
  if os4kernel then ipRouteAdd cidr ifaceName
  else match parseCIDR cidr with
  | inl e => mret (Some ("parse CIDR " +:+ cidr +:+ ": " +:+ e))
  | inr (network, mask) =>
      AddStaticRoute (route_spec ifaceName network mask (String.eqb fallback "reject") comment)
  end.

Definition removeRoute (subnet ifaceName : string) (os4kernel : bool) : ST W (option string) :=
  let '(cidr, _) := ParseSubnetComment subnet in
  if os4kernel then ipRouteDel cidr ifaceName
  else match parseCIDR cidr with
  | inl e => mret (Some e)
  | inr (network, mask) => RemoveStaticRoute (route_spec ifaceName network mask false "")
  end.

(** [for _, x := range l { f(x) }], errors logged. *)
Fixpoint each {S R X} (f : X → ST S R) (l : list X) : ST S unit :=
  match l with [] => mret tt | x :: l => _ ← f x; each f l end.

Definition applyRoutes (rl : StaticRouteList) : ST W unit :=
  let os4k := isOS4Kernel (TunnelID rl) in
  up ← gets (ifaceExists (TunnelID rl));
  if os4k && negb up then mret tt
  else match ResolveInterface cat (TunnelID rl) with
  | inl _ => mret tt
  | inr ifaceName => each (λ subnet, addRoute subnet ifaceName (Fallback rl) os4k) (subnets_of rl)
  end.

Definition removeRoutes (tunnelID : string) (subnets : list string) : ST W unit :=
  let os4k := isOS4Kernel tunnelID in
  up ← gets (ifaceExists tunnelID);
  if os4k && negb up then mret tt
  else match ResolveInterface cat tunnelID with
  | inl _ => mret tt
  | inr ifaceName => each (λ subnet, removeRoute subnet ifaceName os4k) subnets
  end.

Definition List_ : ST world (string + list StaticRouteList) := on_store ListRouteLists.
Definition Get (id : string) : ST world (string + StaticRouteList) := on_store (GetRouteList id).

(** [nano], [now]: the two readings of the clock, the first as [UnixNano]. *)
Definition Create (nano : Z) (now : Time) (rl : StaticRouteList) : ST world (string + StaticRouteList) :=
  let stamp := format_RFC3339 now in
  let rl := set_UpdatedAt stamp (set_CreatedAt stamp (set_ID ("srl" +:+ Itoa nano) rl)) in
  match validateRouteList rl with
  | Some e => mret (inl e)
  | None =>
      e ← on_store (AddRouteList rl);
      match e with
      | Some e => mret (inl ("create route list: " +:+ e))
      | None =>
          _ ← (if Enabled rl then on_device (applyRoutes rl) else mret tt);
          mret (inr rl)
      end
  end.

(** A field that the request does not send keeps its value. *)
Definition fill_from (old rl : StaticRouteList) : StaticRouteList :=
  let rl := if String.eqb (Name rl) "" then set_Name (Name old) rl else rl in
  let rl := if String.eqb (TunnelID rl) "" then set_TunnelID (TunnelID old) rl else rl in
  let rl := match Subnets rl with None => set_Subnets (Subnets old) rl | Some _ => rl end in
  set_CreatedAt (CreatedAt old) rl.

Definition Update (now : Time) (rl : StaticRouteList) : ST world (string + StaticRouteList) :=
  old ← on_store (GetRouteList (ID rl));
  match old with
  | inl e => mret (inl ("update route list: get existing: " +:+ e))
  | inr old =>
      let rl := fill_from old rl in
      match validateRouteList rl with
      | Some e => mret (inl e)
      | None =>
          let rl := set_UpdatedAt (format_RFC3339 now) rl in
          e ← on_store (UpdateRouteList rl);
          match e with
          | Some e => mret (inl ("update route list: " +:+ e))
          | None =>
              _ ← (if Enabled old then on_device (removeRoutes (TunnelID old) (subnets_of old)) else mret tt);
              _ ← (if Enabled rl then on_device (applyRoutes rl) else mret tt);
              mret (inr rl)
          end
      end
  end.

Definition Delete (id : string) : ST world (option string) :=
  existing ← on_store (GetRouteList id);
  match existing with
  | inl e => mret (Some ("delete route list: " +:+ e))
  | inr existing =>
      _ ← (if Enabled existing then on_device (removeRoutes (TunnelID existing) (subnets_of existing))
           else mret tt);
      check (λ e, "delete route list: " +:+ e) (on_store (DeleteRouteList id)) (mret None)
  end.

Definition SetEnabled (now : Time) (id : string) (enabled : bool) : ST world (option string) :=
  rl ← on_store (GetRouteList id);
  match rl with
  | inl e => mret (Some ("set enabled: " +:+ e))
  | inr rl =>
      if Bool.eqb (Enabled rl) enabled then mret None
      else
        let flip r := set_UpdatedAt (format_RFC3339 now) (set_Enabled enabled r) in
        _ ← on_store (modify (write_through id flip));
        let rl := flip rl in
        e ← on_store (UpdateRouteList rl);
        match e with
        | Some e => mret (Some ("set enabled: save: " +:+ e))
        | None =>
            _ ← on_device (if enabled then applyRoutes rl else removeRoutes (TunnelID rl) (subnets_of rl));
            mret None
        end
  end.

Definition Import (nano : Z) (now : Time) (tunnelID name batContent : string)
    : ST world (string + StaticRouteList) :=
  let '(subnets, parseErrors) := ParseBat batContent in
  match subnets with
  | [] => mret (inl (match parseErrors with
                     | [] => "no valid routes found in file"
                     | _ => "no valid routes found; parse errors"
                     end))
  | _ =>
      Create nano now {| ID := ""; Name := name; TunnelID := tunnelID; Subnets := Some subnets;
                         Fallback := ""; IconURL := ""; Enabled := true; CreatedAt := ""; UpdatedAt := "" |}
  end.

(** *** The hooks of the tunnels *)

Definition allListsForTunnel (tunnelID : string) : ST StaticRouteStore (list StaticRouteList) :=
  if String.eqb tunnelID "" then mret []
  else
    all ← ListRouteLists;
    mret (match all with inl _ => [] | inr l => filter (λ r, TunnelID r = tunnelID) l end).

Definition listsForTunnel (tunnelID : string) : ST StaticRouteStore (list StaticRouteList) :=
  if String.eqb tunnelID "" then mret []
  else
    all ← ListRouteLists;
    mret (match all with
          | inl _ => []
          | inr l => filter (λ r, TunnelID r = tunnelID ∧ Enabled r = true) l
          end).

Definition OnTunnelStart (tunnelID tunnelIface : string) : ST world (option string) :=
  if negb (isOS4Kernel tunnelID) then mret None
  else
    lists ← on_store (listsForTunnel tunnelID);
    _ ← on_device (each (λ rl, each (λ subnet, ipRouteAdd (ParseSubnetComment subnet).1 tunnelIface)
                                    (subnets_of rl)) lists);
    mret None.

Definition OnTunnelStop (tunnelID : string) : ST world (option string) :=
  if negb (isOS4Kernel tunnelID) then mret None
  else
    up ← on_device (gets (ifaceExists tunnelID));
    if negb up then mret None
    else
      lists ← on_store (listsForTunnel tunnelID);
      _ ← on_device (each (λ rl, if String.eqb (Fallback rl) "reject" then mret tt
                                 else removeRoutes (TunnelID rl) (subnets_of rl)) lists);
      mret None.

Definition OnTunnelDelete (now : Time) (tunnelID : string) : ST world (option string) :=
  if String.eqb tunnelID "" then mret None
  else
    lists ← on_store (allListsForTunnel tunnelID);
    match lists with
    | [] => mret None
    | _ =>
        _ ← (if isOS4Kernel tunnelID then mret tt
             else on_device (each (λ rl, if Enabled rl then removeRoutes (TunnelID rl) (subnets_of rl)
                                         else mret tt) lists));
        _ ← on_store (each (λ rl, UpdateRouteList
                                    (set_UpdatedAt (format_RFC3339 now) (set_TunnelID "" rl))) lists);
        mret None
    end.

Definition Reconcile : ST world (option string) :=
  all ← on_store ListRouteLists;
  match all with
  | inl e => mret (Some ("reconcile: list route lists: " +:+ e))
  | inr all =>
      _ ← on_device (each (λ rl,
             if negb (Enabled rl) then mret tt
             else if String.eqb (TunnelID rl) "" then mret tt
             else
               up ← gets (ifaceExists (TunnelID rl));
               if isOS4Kernel (TunnelID rl) && negb up then mret tt else applyRoutes rl) all);
      mret None
  end.
End service.
