(* ===== verification/StaticRouteProps.v ===== *)
(** * Static routes: the installed routes are those of the stored lists

    [RouteLaws]: what the service relies on of the router and of the [ip] tool.
    [Inv]: the device holds the foreign routes and besides them exactly the routes of
    the enabled lists that have a tunnel; every operation keeps it as long as no two
    enabled lists lay claim to the same route. *)
From S2P Require Import Prelude GoLib GoText Names Catalog StaticParse StaticParseProps StaticRoute.

(** ** What an import stores is what is applied *)

Section import.
Context `{U : GoUnicode}.

Lemma network4_applies n : network4 n → ∃ network mask, parseCIDR (IPNet_String n) = inr (network, mask).
Proof.
  intros Hn. unfold parseCIDR. rewrite ParseCIDR_String by done. destruct Hn as (g & h & E & _).
  unfold net_bits. rewrite E. simpl. destruct (net_ones n =? 32)%Z; eauto.
Qed.

(** C19: Importing a [.bat] file loses nothing on the way to the router: in an ASCII file
    whose route lines are about IPv4 addresses, every subnet of the import is read back,
    when it is applied, as the network of its line with the comment of that line, and
    that network is one the router's commands accept. *)
Theorem import_applies content s :
  str_forallb is_ascii_byte content = true → Forall ipv4_line (split_byte newline content) →
  s ∈ (ParseBat content).1 →
  ∃ line net comment network mask, line ∈ split_byte newline content ∧
    parse_line line = BatRoute net comment ∧ ParseSubnetComment s = (net, comment) ∧
    parseCIDR (ParseSubnetComment s).1 = inr (network, mask).
Proof.
  intros Ha H4 Hin. destruct (ParseBat_spec content) as (routes & _ & _ & Hr & Hp & _).
  rewrite Hp in Hin. apply list_elem_of_fmap in Hin as ([net comment] & -> & Hin).
  apply Hr, list_elem_of_fmap in Hin as (line & El & Hline).
  destruct (parse_line_route line net comment) as (Hac & Htc & Hn); [by eapply split_byte_forallb|done|].
  destruct (Hn (proj1 (Forall_forall _ _) H4 _ Hline)) as (n & Hn4 & En).
  assert (ParseSubnetComment (format_route (net, comment)) = (net, comment)) as E.
  { unfold format_route. cbn [fst snd]. rewrite ParseSubnetComment_Format; [by rewrite Htc| |done| | |].
    all: rewrite En; try (apply IPNet_String_chars; [done|by intros [[] [] [] [] [] [] [] []]|done..]).
    - rewrite TrimSpace_ascii by (apply IPNet_String_chars; [done|by intros [[] [] [] [] [] [] [] []]|done..]).
      rewrite trim_left_none, trim_right_none; [done|..];
        (apply IPNet_String_chars; [done|by intros [[] [] [] [] [] [] [] []]|done..]).
    - destruct Hn4 as (g & h & Eg & _). rewrite (IPNet_String_4 n g h) by done.
      apply app_ne_r. done. }
  destruct (network4_applies n Hn4) as (network & mask & Ec). exists line, net, comment, network, mask.
  rewrite <- En in Ec. rewrite E. cbn [fst]. symmetry in El. by repeat split.
Qed.
End import.

(** ** The store when no file access fails *)

(** The lists in the file. *)
Definition on_disk (c : StaticRouteStore) (l : list StaticRouteList) : Prop :=
  sr_faults c = [] ∧ (sr_disk c = Some (SrData l) ∨ sr_disk c = None ∧ l = []).
(** The cache, if there is one, is the file. *)
Definition in_sync (c : StaticRouteStore) (l : list StaticRouteList) : Prop :=
  on_disk c l ∧ (sr_data c = None ∨ sr_data c = Some l).

Section store.
Context (c : StaticRouteStore) (l : list StaticRouteList).

Lemma load_ok : on_disk c l → loadUnlocked c = (inr l, set_cache l c) ∧ on_disk (set_cache l c) l.
Proof.
  intros [Hf Hd]. split; [|by split]. unfold loadUnlocked, sr_fault.
  destruct Hd as [->|[-> ->]]; [by rewrite Hf|done].
Qed.

Lemma save_ok l' : sr_faults c = [] → ∃ c', saveUnlocked l' c = (None, c') ∧ in_sync c' l'.
Proof.
  intros Hf. unfold saveUnlocked, sr_fault. simpl. rewrite Hf. eexists. split; [done|].
  split; [split; [done|by left]|by right].
Qed.

Lemma Get_ok : in_sync c l → ∃ c', data_Get c = (inr l, c') ∧ in_sync c' l ∧ sr_data c' = Some l.
Proof.
  intros [Hd [E|E]]; unfold data_Get; rewrite E.
  - destruct (load_ok Hd) as [-> ?]. eexists. split; [done|]. split; [|done]. split; [done|by right].
  - eexists. split; [done|]. split; [|done]. split; [done|by right].
Qed.

Lemma edit_ok id f l' : on_disk c l → at_id id f l = Some l' →
  ∃ c', store_edit id f c = (None, c') ∧ in_sync c' l'.
Proof.
  intros Hd Ha. destruct (load_ok Hd) as [E [Hf _]]. unfold store_edit, mbind, ST_bind. rewrite E, Ha.
  unfold saveUnlocked, sr_fault. simpl in *. rewrite Hf. eexists. split; [done|].
  split; [split; [done|by left]|by right].
Qed.

Lemma edit_none id f : on_disk c l → at_id id f l = None → ∃ e, (store_edit id f c).1 = Some e ∧
  in_sync (store_edit id f c).2 l.
Proof.
  intros Hd Ha. destruct (load_ok Hd) as [E Hd']. unfold store_edit, mbind, ST_bind. rewrite E, Ha.
  eexists. split; [done|]. split; [done|by right].
Qed.

Lemma Add_ok rl : on_disk c l → ∃ c', AddRouteList rl c = (None, c') ∧ in_sync c' (l ++ [rl]).
Proof.
  intros Hd. destruct (load_ok Hd) as [E [Hf _]]. unfold AddRouteList, mbind, ST_bind. rewrite E.
  unfold saveUnlocked, sr_fault. simpl in *. rewrite Hf. eexists. split; [done|].
  split; [split; [done|by left]|by right].
Qed.

Lemma write_through_disk id f : on_disk c l → on_disk (write_through id f c) l.
Proof. unfold write_through. by repeat case_match. Qed.
End store.

(** The list that an ID finds. *)
Lemma find_split id l r : List.find (has_id id) l = Some r →
  ID r = id ∧ ∃ l1 l2, l = l1 ++ r :: l2 ∧ ∀ f, at_id id f l = Some (l1 ++ f r ++ l2).
Proof.
  induction l as [|x l IH]; [done|]. simpl. destruct (has_id id x) eqn:E.
  - intros [= ->]. unfold has_id in E. to_prop. split; [done|]. by exists [], l.
  - intros [? (l1 & l2 & -> & Hl)]%IH. split; [done|]. exists (x :: l1), l2. split; [done|].
    intros f. by rewrite Hl.
Qed.

Lemma find_none id l f : List.find (has_id id) l = None → at_id id f l = None.
Proof. induction l as [|x l IH]; [done|]. simpl. destruct (has_id id x); [done|]. intros H%IH. by rewrite H. Qed.

Lemma GetRouteList_ok c l id : in_sync c l → ∃ c', in_sync c' l ∧ sr_data c' = Some l ∧
  GetRouteList id c = (match List.find (has_id id) l with Some r => inr r | None => inl "route list not found" end, c').
Proof.
  intros (c' & E & ? & ?)%Get_ok. exists c'. split; [done|]. split; [done|].
  unfold GetRouteList, mbind, ST_bind. by rewrite E.
Qed.

(** ** What the service relies on of the device *)

Inductive rkey := KHost (iface host : string) | KNet (iface network mask : string) | KDev (dev prefix : string).
#[export] Instance rkey_eq_dec : EqDecision rkey.
Proof. solve_decision. Defined.

(** The kernel holds one route of the [ip] tool per prefix, whatever its device. *)
Definition slot (k : rkey) : rkey := match k with KDev _ p => KDev "" p | _ => k end.

Definition spec_key (sp : StaticRouteSpec) : rkey :=
  if String.eqb (sp_Host sp) "" then KNet (sp_Interface sp) (sp_Network sp) (sp_Mask sp)
  else KHost (sp_Interface sp) (sp_Host sp).

(** What is known of the device: its routes, that it answers, and how the [ip] tool reads
    a prefix ([None]: it refuses it). *)
Class RouteView (W : Type) := {
  installed : W → rkey → Prop;
  healthy : W → Prop;
  ip_prefix : string → option string;
}.

Definition effect {W} `{RouteDevice W} `{RouteView W} (w w' : W) (P : rkey → Prop) : Prop :=
  healthy w' ∧ (∀ t, ifaceExists t w' = ifaceExists t w) ∧ ∀ k, installed w' k ↔ P k.

Class RouteLaws (W : Type) `{RouteDevice W} `{RouteView W} := {
  law_save w : healthy w → effect w (save_Request w) (installed w);
  law_add w sp reject comment : healthy w →
    effect w (route_Post (IpRoute (about sp true false reject comment)) w).2
      (λ k, k = spec_key sp ∨ installed w k);
  law_remove w sp : healthy w →
    effect w (route_Post (IpRoute (about sp false true false "")) w).2
      (λ k, installed w k ∧ k ≠ spec_key sp);
  law_replace w cidr dev : healthy w → ifaceExists dev w = true →
    effect w (ip_run ["route"; "replace"; cidr; "dev"; dev] w).2
      (λ k, match ip_prefix cidr with
            | Some p => k = KDev dev p ∨ installed w k ∧ slot k ≠ slot (KDev dev p)
            | None => installed w k
            end);
  law_del w cidr dev : healthy w →
    effect w (ip_run ["route"; "del"; cidr; "dev"; dev] w).2
      (λ k, installed w k ∧ KDev dev <$> ip_prefix cidr ≠ Some k);
}.

(** ** What the service does to the device *)

Section device.
Context `{U : GoUnicode} {W : Type} `{D : RouteDevice W} `{V : !RouteView W} `{L : !RouteLaws W}.

Lemma effect_trans w w1 w2 (P Q : rkey → Prop) :
  effect w w1 P → effect w1 w2 Q → effect w w2 Q.
Proof. intros (_ & I1 & _) (H2 & I2 & E2). split; [done|]. split; [|done]. intros t. by rewrite I2, I1. Qed.

Lemma effect_ext w w' (P Q : rkey → Prop) : effect w w' P → (∀ k, P k ↔ Q k) → effect w w' Q.
Proof. intros (H & I & E) HPQ. split; [done|]. split; [done|]. intros k. by rewrite E. Qed.

Lemma effect_refl w : healthy w → effect w w (installed w).
Proof. by intros. Qed.

(** The request to save changes nothing here, and an error only leaves it out. *)
Lemma mutate_effect w p op P : healthy w → effect w (route_Post p w).2 P → effect w (mutate p op w).2 P.
Proof.
  intros Hw H. unfold mutate, check, mbind, ST_bind. destruct (route_Post p w) as [[e|] w']; [done|].
  unfold modify, mret, ST_ret. simpl in *. eapply effect_ext.
  - eapply (effect_trans _ w'); [exact H|]. apply law_save. by destruct H.
  - by destruct H as (_ & _ & H).
Qed.

Variable cat : Catalog.

(** The route that a subnet of a tunnel's list stands for, if it is one. *)
Definition subnet_key (tunnelID subnet : string) : option rkey :=
  match ResolveInterface cat tunnelID with
  | inl _ => None
  | inr iface =>
      let cidr := (ParseSubnetComment subnet).1 in
      if isOS4Kernel tunnelID then KDev iface <$> ip_prefix cidr
      else match parseCIDR cidr with
      | inl _ => None
      | inr (network, mask) => Some (spec_key (route_spec iface network mask false ""))
      end
  end.

Definition list_keys (tunnelID : string) (subnets : list string) : list rkey :=
  omap (subnet_key tunnelID) subnets.
Definition claims (r : StaticRouteList) : list rkey := list_keys (TunnelID r) (subnets_of r).

(** The routes of a kernel tunnel of OS4 need its interface. *)
Definition live (w : W) (tunnelID : string) : Prop := isOS4Kernel tunnelID = true → ifaceExists tunnelID w = true.

(** A kernel tunnel of OS4 is its own interface. *)
Hypothesis os4_iface : ∀ t, isOS4Kernel t = true → ResolveInterface cat t = inr t.

Lemma same_slot t s s' k k' : subnet_key t s = Some k → subnet_key t s' = Some k' → slot k = slot k' → k = k'.
Proof.
  unfold subnet_key. destruct (ResolveInterface cat t) as [|i]; [done|]. destruct (isOS4Kernel t).
  - intros (p & _ & ->)%fmap_Some (p' & _ & ->)%fmap_Some. by intros [= ->].
  - intros H H'. repeat (case_match; try done). simplify_eq/=. unfold spec_key. by repeat case_match.
Qed.

Definition free_of_slots (K : rkey → Prop) (k : rkey) : Prop := ∀ k', K k' → slot k' ≠ slot k.

#[local] Instance free_of_slots_proper :
  Proper (pointwise_relation rkey iff ==> eq ==> iff) free_of_slots.
Proof. intros K K' HK k ? <-. unfold free_of_slots. split; intros H k' Hk'%HK; by apply H. Qed.

Lemma addRoute_effect w t iface s fallback : healthy w → live w t → ResolveInterface cat t = inr iface →
  effect w (addRoute s iface fallback (isOS4Kernel t) w).2
    (λ k, subnet_key t s = Some k ∨ installed w k ∧ free_of_slots (λ k', subnet_key t s = Some k') k).
Proof.
  intros Hw Hl Hr. unfold addRoute, subnet_key, free_of_slots. rewrite Hr.
  destruct (ParseSubnetComment s) as [cidr comment]. cbn [fst]. destruct (isOS4Kernel t) eqn:Eo.
  - rewrite (os4_iface t Eo) in Hr. injection Hr as <-. eapply effect_ext; [apply law_replace; [done|by apply Hl]|].
    intros k. simpl. destruct (ip_prefix cidr) as [p|]; simpl; [|naive_solver]. split.
    + intros [->|[? Hs]]; [by left|right]. split; [done|]. intros k' [= <-]. by intros E.
    + intros [[= ->]|[? Hs]]; [by left|right]. split; [done|]. intros E. by eapply Hs.
  - destruct (parseCIDR cidr) as [e|[network mask]]; [eapply effect_ext; [by apply effect_refl|naive_solver]|].
    unfold AddStaticRoute. simpl. eapply effect_ext; [apply mutate_effect; [done|by apply law_add]|].
    intros k. simpl. set (k0 := spec_key (route_spec iface network mask (String.eqb fallback "reject") comment)).
    change (spec_key (route_spec iface network mask false "")) with k0. split.
    + intros [->|Hi]; [by left|]. destruct (base.decide (slot k0 = slot k)) as [E|E].
      * left. f_equal. unfold k0, spec_key in *. destruct k, (String.eqb _ _); simpl in *; by simplify_eq.
      * right. split; [done|]. by intros k' [= <-].
    + intros [[= ->]|[? _]]; auto.
Qed.

Lemma removeRoute_effect w t iface s : healthy w → ResolveInterface cat t = inr iface →
  effect w (removeRoute s iface (isOS4Kernel t) w).2 (λ k, installed w k ∧ subnet_key t s ≠ Some k).
Proof.
  intros Hw Hr. unfold removeRoute, subnet_key. rewrite Hr. destruct (ParseSubnetComment s) as [cidr comment].
  cbn [fst]. destruct (isOS4Kernel t) eqn:Eo; [by apply law_del|].
  destruct (parseCIDR cidr) as [e|[network mask]]; [eapply effect_ext; [by apply effect_refl|naive_solver]|].
  unfold RemoveStaticRoute. simpl. eapply effect_ext; [apply mutate_effect; [done|by apply law_remove]|].
  intros k. simpl. naive_solver.
Qed.

Lemma in_list_keys t l k : k ∈ list_keys t l ↔ ∃ s, s ∈ l ∧ subnet_key t s = Some k.
Proof. apply list_elem_of_omap. Qed.

Lemma live_ifaces w w' t : (∀ t, ifaceExists t w' = ifaceExists t w) → live w t → live w' t.
Proof. unfold live. intros E H ?. rewrite E. auto. Qed.

(** Applying the subnets one after another is applying all of them. *)
Lemma add_all t iface fallback l w : healthy w → live w t → ResolveInterface cat t = inr iface →
  effect w (each (λ s, addRoute s iface fallback (isOS4Kernel t)) l w).2
    (λ k, k ∈ list_keys t l ∨ installed w k ∧ free_of_slots (.∈ list_keys t l) k).
Proof.
  revert w. induction l as [|s l IH]; intros w Hw Hl Hr.
  { eapply effect_ext; [by apply effect_refl|]. intros k. unfold free_of_slots. simpl. set_solver. }
  cbn [each]. unfold mbind at 1, ST_bind at 1.
  pose proof (addRoute_effect w t iface s fallback Hw Hl Hr) as H1.
  destruct (addRoute s iface fallback (isOS4Kernel t) w) as [e w1]. simpl in H1.
  destruct H1 as (Hw1 & Hi1 & Hk1). eapply effect_ext.
  { eapply (effect_trans _ w1); [done|]. apply IH; [done|by eapply live_ifaces|done]. }
  intros k. cbv beta. rewrite Hk1. setoid_rewrite in_list_keys. unfold free_of_slots. split.
  - intros [(s' & ? & ?)|[[?|[? Hf]] Hf']].
    + left. exists s'. split; [by right|done].
    + left. exists s. split; [by left|done].
    + right. split; [done|]. intros k' (s' & [->|Hs']%elem_of_cons & Hk'); [by apply Hf|apply Hf'; eauto].
  - intros [(s' & [->|Hs']%elem_of_cons & Hk)|[? Hf]].
    + destruct (base.decide (k ∈ list_keys t l)) as [Hk'|Hn]; [left; by apply in_list_keys|right].
      split; [by left|]. intros k' (s' & Hs' & Hk') E. apply Hn, in_list_keys. exists s'. split; [done|].
      by rewrite Hk', (same_slot t s' s k' k).
    + left. eauto.
    + right. split; [right; split; [done|]|].
      * intros k' Hk'. apply Hf. exists s. split; [by left|done].
      * intros k' (s' & ? & ?). apply Hf. exists s'. split; [by right|done].
Qed.

Lemma remove_all t iface l w : healthy w → ResolveInterface cat t = inr iface →
  effect w (each (λ s, removeRoute s iface (isOS4Kernel t)) l w).2 (λ k, installed w k ∧ k ∉ list_keys t l).
Proof.
  revert w. induction l as [|s l IH]; intros w Hw Hr.
  { eapply effect_ext; [by apply effect_refl|]. intros k. simpl. set_solver. }
  cbn [each]. unfold mbind at 1, ST_bind at 1. pose proof (removeRoute_effect w t iface s Hw Hr) as H1.
  destruct (removeRoute s iface (isOS4Kernel t) w) as [e w1]. simpl in H1. destruct H1 as (Hw1 & Hi1 & Hk1).
  eapply effect_ext; [eapply (effect_trans _ w1); [done|by apply IH]|].
  intros k. cbv beta. rewrite Hk1, !in_list_keys. setoid_rewrite elem_of_cons. naive_solver.
Qed.

Lemma no_interface t l e : ResolveInterface cat t = inl e → list_keys t l = [].
Proof.
  intros E. unfold list_keys. induction l as [|s l IH]; [done|]. csimpl. unfold subnet_key at 1. by rewrite E.
Qed.

Lemma dead_live w t : isOS4Kernel t && negb (ifaceExists t w) = true → ¬ live w t.
Proof. intros H Hl. to_prop. rewrite Hl in H0 by done. done. Qed.
Lemma live_dead w t : isOS4Kernel t && negb (ifaceExists t w) = false → live w t.
Proof. unfold live. destruct (isOS4Kernel t), (ifaceExists t w); naive_solver. Qed.

Lemma applyRoutes_effect w rl : healthy w →
  effect w (applyRoutes cat rl w).2
    (λ k, live w (TunnelID rl) ∧ k ∈ claims rl ∨
          installed w k ∧ free_of_slots (λ k', live w (TunnelID rl) ∧ k' ∈ claims rl) k).
Proof.
  intros Hw. unfold applyRoutes, mbind, ST_bind, gets, claims.
  destruct (isOS4Kernel (TunnelID rl) && negb (ifaceExists (TunnelID rl) w)) eqn:E.
  - apply dead_live in E. eapply effect_ext; [by apply effect_refl|]. intros k. unfold free_of_slots.
    cbn [snd mret ST_ret]. naive_solver.
  - apply live_dead in E.
    destruct (ResolveInterface cat (TunnelID rl)) as [e|iface] eqn:Er.
    + eapply effect_ext; [by apply effect_refl|]. intros k. unfold free_of_slots.
      rewrite (no_interface _ _ e) by done. set_solver.
    + eapply effect_ext; [by apply add_all|]. intros k. unfold free_of_slots. naive_solver.
Qed.

Lemma removeRoutes_effect w t l : healthy w →
  effect w (removeRoutes cat t l w).2 (λ k, installed w k ∧ ¬ (live w t ∧ k ∈ list_keys t l)).
Proof.
  intros Hw. unfold removeRoutes, mbind, ST_bind, gets.
  destruct (isOS4Kernel t && negb (ifaceExists t w)) eqn:E.
  - apply dead_live in E. eapply effect_ext; [by apply effect_refl|]. intros k. cbn [snd mret ST_ret].
    naive_solver.
  - apply live_dead in E.
    destruct (ResolveInterface cat t) as [e|iface] eqn:Er.
    + eapply effect_ext; [by apply effect_refl|]. intros k. rewrite (no_interface _ _ e) by done. set_solver.
    + eapply effect_ext; [by apply remove_all|]. naive_solver.
Qed.

(** ** The lists and their routes *)

(** The foreign routes: those of nobody's list, and none on the interface of a kernel
    tunnel of OS4. *)
Variable F : rkey → Prop.
Hypothesis foreign_dev : ∀ d p, isOS4Kernel d = true → ¬ F (KDev d p).

Definition wants (w : W) (r : StaticRouteList) (k : rkey) : Prop :=
  Enabled r = true ∧ TunnelID r ≠ "" ∧ live w (TunnelID r) ∧ k ∈ claims r.
Definition wanted (w : W) (l : list StaticRouteList) (k : rkey) : Prop := ∃ r, r ∈ l ∧ wants w r k.

(** No two enabled lists, and no enabled list and a foreign route, are about the same
    route; a list without a tunnel still claims what its empty tunnel resolves to. *)
Record sound (l : list StaticRouteList) : Prop := {
  sound_ids : NoDup (ID <$> l);
  sound_lists : ∀ r r' k k', r ∈ l → r' ∈ l → Enabled r = true → Enabled r' = true →
    k ∈ claims r → k' ∈ claims r' → slot k = slot k' → r = r';
  sound_foreign : ∀ r k k', r ∈ l → Enabled r = true → k ∈ claims r → F k' → slot k ≠ slot k';
}.

Definition holds (l : list StaticRouteList) (w : W) : Prop :=
  healthy w ∧ ∀ k, installed w k ↔ F k ∨ wanted w l k.

Definition Inv (s : world (W := W)) : Prop := ∃ l, in_sync s.1 l ∧ sound l ∧ holds l s.2.

Lemma wanted_app w l1 l2 k : wanted w (l1 ++ l2) k ↔ wanted w l1 k ∨ wanted w l2 k.
Proof. unfold wanted. setoid_rewrite elem_of_app. naive_solver. Qed.

Lemma wants_ifaces w w' r k : (∀ t, ifaceExists t w' = ifaceExists t w) → wants w' r k ↔ wants w r k.
Proof. intros E. unfold wants, live. by rewrite E. Qed.
Lemma wanted_ifaces w w' l k : (∀ t, ifaceExists t w' = ifaceExists t w) → wanted w' l k ↔ wanted w l k.
Proof. intros E. unfold wanted. by setoid_rewrite (wants_ifaces w w' _ _ E). Qed.

(** The lists [o] make room for the lists [n]: their routes [Ko] are taken out, the
    routes [Kn] put in. *)
Lemma swap w w' o n rest (Ko Kn : rkey → Prop) :
  sound (o ++ rest) → sound (n ++ rest) → holds (o ++ rest) w →
  (∀ k, wanted w o k → Ko k) → (∀ k, Ko k → ∃ r, r ∈ o ∧ Enabled r = true ∧ k ∈ claims r) →
  (∀ k, Kn k ↔ wanted w n k) →
  effect w w' (λ k, Kn k ∨ (installed w k ∧ ¬ Ko k) ∧ free_of_slots Kn k) →
  holds (n ++ rest) w'.
Proof.
  intros So Sn [Hw Hk] Hwo Ho Hn (Hw' & Hi & Hk'). split; [done|]. intros k.
  rewrite Hk', Hk, (wanted_ifaces w w'), wanted_app, Hn by done. rewrite wanted_app. split.
  - intros [?|[[[?|[?|?]] Hno] _]]; auto. by destruct Hno; apply Hwo.
  - assert (∀ k', (F k' ∨ wanted w rest k') → free_of_slots Kn k') as Hfree.
    { intros k' Hr k2 (r & Hr2 & He & _ & _ & Hc)%Hn E. destruct Hr as [Hf|(r' & Hr' & He' & _ & _ & Hc')].
      - eapply (sound_foreign _ Sn r k2 k'); [set_solver|done..].
      - assert (r = r') as -> by (eapply (sound_lists _ Sn r r' k2 k'); set_solver).
        pose proof (sound_ids _ Sn) as Hd. rewrite fmap_app in Hd. apply NoDup_app in Hd as (_ & Hd & _).
        apply (Hd (ID r')); by apply list_elem_of_fmap_2. }
    assert (∀ k', (F k' ∨ wanted w rest k') → ¬ Ko k') as Hkeep.
    { intros k' Hr (r & Hr2 & He & Hc)%Ho. destruct Hr as [Hf|(r' & Hr' & He' & _ & _ & Hc')].
      - eapply (sound_foreign _ So r k' k'); [set_solver|done..].
      - assert (r = r') as -> by (eapply (sound_lists _ So r r' k' k'); set_solver).
        pose proof (sound_ids _ So) as Hd. rewrite fmap_app in Hd. apply NoDup_app in Hd as (_ & Hd & _).
        apply (Hd (ID r')); by apply list_elem_of_fmap_2. }
    intros [Hf|[?|Hr]]; [right|by left|right]; (split; [split; [tauto|apply Hkeep; auto]|apply Hfree; auto]).
Qed.

Lemma sound_perm l l' : l ≡ₚ l' → sound l → sound l'.
Proof.
  intros Hp [Hd Hl Hf]. split.
  - by rewrite <- Hp.
  - intros r r' k k'. rewrite <- Hp. apply Hl.
  - intros r k k'. rewrite <- Hp. apply Hf.
Qed.

Lemma row_holds_perm l l' w : l ≡ₚ l' → holds l w → holds l' w.
Proof. intros Hp [Hw Hk]. split; [done|]. intros k. rewrite Hk. unfold wanted. by setoid_rewrite Hp. Qed.

Lemma sound_tail r l : sound (r :: l) → sound l.
Proof.
  intros [Hd Hl Hf]. split; [by apply NoDup_cons in Hd as [_ ?]| |].
  - intros; eapply Hl; [by right|by right|done..].
  - intros r' k k' Hr. by apply Hf; right.
Qed.

Lemma put_in r l w : sound (r :: l) → Enabled r = true → TunnelID r ≠ "" → holds l w →
  holds (r :: l) (applyRoutes cat r w).2.
Proof.
  intros Hs He Ht Hh. apply (swap w _ [] [r] l (λ _, False) (λ k, live w (TunnelID r) ∧ k ∈ claims r)).
  - by eapply sound_tail.
  - done.
  - done.
  - by intros k (? & ?%elem_of_nil & _).
  - done.
  - intros k. unfold wanted, wants. set_solver.
  - eapply effect_ext; [apply applyRoutes_effect; by destruct Hh|]. intros k. tauto.
Qed.

Lemma take_out r l w : sound (r :: l) → Enabled r = true → holds (r :: l) w →
  holds l (removeRoutes cat (TunnelID r) (subnets_of r) w).2.
Proof.
  intros Hs He Hh.
  apply (swap w _ [r] [] l (λ k, live w (TunnelID r) ∧ k ∈ claims r) (λ _, False)).
  - done.
  - by eapply sound_tail.
  - done.
  - intros k (r' & ->%list_elem_of_singleton & _ & _ & ?). done.
  - intros k [_ Hc]. exists r. split; [by left|done].
  - intros k. unfold wanted. set_solver.
  - eapply effect_ext; [apply removeRoutes_effect; by destruct Hh|]. intros k. unfold free_of_slots.
    unfold claims. naive_solver.
Qed.

(** A list that wants nothing. *)
Lemma holds_skip r l w : (∀ k, ¬ wants w r k) → holds (r :: l) w ↔ holds l w.
Proof.
  intros Hn. unfold holds, wanted. split; intros [Hw Hk]; (split; [done|]; intros k; rewrite Hk; set_solver).
Qed.
Lemma disabled_wants w r k : Enabled r = false → ¬ wants w r k.
Proof. intros E [E' _]. congruence. Qed.
Lemma orphan_wants w r k : TunnelID r = "" → ¬ wants w r k.
Proof. intros E (_ & E' & _). done. Qed.

Definition file_lists (c : StaticRouteStore) : list StaticRouteList :=
  match sr_disk c with Some (SrData l) => l | _ => [] end.
Lemma file_lists_sync c l : in_sync c l → file_lists c = l.
Proof. unfold file_lists. by intros [[_ [->|[-> ->]]] _]. Qed.

Lemma Inv_intro c w l : in_sync c l → sound (file_lists c) → holds l w → Inv (c, w).
Proof. intros Hc Hs Hh. rewrite (file_lists_sync c l) in Hs by done. by exists l. Qed.

(** ** The operations *)

(** Where the service reads the store: the state it goes on from. *)
Lemma read_list c l id : in_sync c l → ∃ c', in_sync c' l ∧ ∀ w : W,
  on_store (GetRouteList id) (c, w) =
    (match List.find (has_id id) l with Some r => inr r | None => inl "route list not found" end, (c', w)).
Proof.
  intros (c' & Hc' & _ & E)%(GetRouteList_ok c l id). exists c'. split; [done|]. intros w.
  unfold on_store. simpl. by rewrite E.
Qed.

Ltac run := unfold mbind, ST_bind, mret, ST_ret, on_store, on_device, check; cbn [fst snd].

Lemma validated rl : validateRouteList rl = None → TunnelID rl ≠ "".
Proof. unfold validateRouteList. destruct (String.eqb_spec (TunnelID rl) ""); [done|]. done. Qed.

Lemma StaticCreate_inv nano now rl s :
  Inv s → sound (file_lists (Create cat nano now rl s).2.1) → Inv (Create cat nano now rl s).2.
Proof.
  destruct s as [c w]. intros (l & Hc & Hs & Hh). unfold Create. set (r := set_UpdatedAt _ _).
  destruct (validateRouteList r) as [e|] eqn:Ev; [intros _; by exists l|]. apply validated in Ev.
  destruct (Add_ok c l r (proj1 Hc)) as (c' & E & Hc'). run. rewrite E. cbn [fst snd].
  assert (∀ w', holds (r :: l) w' → holds (l ++ [r]) w') as Hperm.
  { intros w'. apply row_holds_perm, Permutation_cons_append. }
  destruct (Enabled r) eqn:Ee; cbn beta iota.
  - rewrite (surjective_pairing (applyRoutes cat r w)). cbn [fst snd]. intros Hs'.
    apply (Inv_intro _ _ (l ++ [r])); [done..|]. apply Hperm, put_in; try done.
    rewrite (file_lists_sync c' (l ++ [r])) in Hs' by done.
    eapply sound_perm; [symmetry; apply Permutation_cons_append|done].
  - cbn [fst snd]. intros Hs'. apply (Inv_intro _ _ (l ++ [r])); [done..|]. apply Hperm, holds_skip; [|done].
    intros k. by apply disabled_wants.
Qed.

Lemma drop_old old l w : sound (old :: l) → holds (old :: l) w →
  holds l (if Enabled old then (removeRoutes cat (TunnelID old) (subnets_of old) w).2 else w).
Proof.
  intros Hs Hh. destruct (Enabled old) eqn:E; [by apply take_out|].
  apply holds_skip in Hh; [done|]. intros k. by apply disabled_wants.
Qed.

Lemma add_new r l w : sound (r :: l) → TunnelID r ≠ "" → holds l w →
  holds (r :: l) (if Enabled r then (applyRoutes cat r w).2 else w).
Proof.
  intros Hs Ht Hh. destruct (Enabled r) eqn:E; [by apply put_in|].
  apply holds_skip; [|done]. intros k. by apply disabled_wants.
Qed.

Lemma if_snd {A} (b : bool) (m : ST W A) (w : W) (a : A) :
  ((if b then m else mret a) w).2 = if b then (m w).2 else w.
Proof. by destruct b. Qed.

Lemma middle {A} (x : A) l1 l2 : l1 ++ [x] ++ l2 ≡ₚ x :: (l1 ++ l2).
Proof. simpl. by rewrite Permutation_middle. Qed.

Lemma Inv_read c w l id : in_sync c l → sound l → holds l w →
  ∃ c', in_sync c' l ∧ Inv (c', w) ∧
  on_store (GetRouteList id) (c, w) =
    (match List.find (has_id id) l with Some r => inr r | None => inl "route list not found" end, (c', w)).
Proof.
  intros Hc Hs Hh. destruct (read_list c l id Hc) as (c' & Hc' & E). exists c'.
  split; [done|]. split; [by exists l|done].
Qed.

(** From the lists around the one that is edited to the lists in their order. *)
Lemma Inv_middle c w l1 r l2 : in_sync c (l1 ++ [r] ++ l2) → sound (file_lists c) →
  (sound (r :: (l1 ++ l2)) → holds (r :: (l1 ++ l2)) w) → Inv (c, w).
Proof.
  intros Hc Hs Hh. apply (Inv_intro _ _ _ Hc Hs). eapply row_holds_perm; [symmetry; apply middle|].
  apply Hh. eapply sound_perm; [apply middle|]. by rewrite <- (file_lists_sync _ _ Hc).
Qed.

Lemma fill_ID old rl : ID (fill_from old rl) = ID rl.
Proof. unfold fill_from. by repeat case_match. Qed.

Lemma bind_eq {St A B} (m : ST St A) (k : A → ST St B) s a s' : m s = (a, s') → (m ≫= k) s = k a s'.
Proof. intros E. unfold mbind, ST_bind. by rewrite E. Qed.

Lemma device_if (b : bool) (m : ST W unit) c (w : W) :
  (if b then on_device m else mret tt) (c, w) = (tt, (c, if b then (m w).2 else w)).
Proof. destruct b; [|done]. unfold on_device. cbn [fst snd]. by destruct (m w) as [[] ?]. Qed.

Lemma store_eq {R} (f : ST StaticRouteStore R) c (w : W) a c' : f c = (a, c') → on_store f (c, w) = (a, (c', w)).
Proof. intros E. unfold on_store. cbn [fst]. by rewrite E. Qed.

Lemma edit_middle c l1 old l2 r : on_disk c (l1 ++ old :: l2) → ID r = ID old →
  (∀ f, at_id (ID old) f (l1 ++ old :: l2) = Some (l1 ++ f old ++ l2)) →
  ∃ c', UpdateRouteList r c = (None, c') ∧ in_sync c' (l1 ++ [r] ++ l2).
Proof.
  intros Hd Hid Hat. apply (edit_ok c (l1 ++ old :: l2)); [done|]. by rewrite Hid, Hat.
Qed.

Lemma middle_old (l1 l2 : list StaticRouteList) old w :
  sound (l1 ++ old :: l2) → holds (l1 ++ old :: l2) w → sound (old :: (l1 ++ l2)) ∧ holds (old :: (l1 ++ l2)) w.
Proof.
  intros Hs Hh. assert (l1 ++ old :: l2 ≡ₚ old :: (l1 ++ l2)) as E by (symmetry; apply Permutation_middle).
  split; [by eapply sound_perm|by eapply row_holds_perm].
Qed.

Lemma StaticUpdate_inv now rl s :
  Inv s → sound (file_lists (Update cat now rl s).2.1) → Inv (Update cat now rl s).2.
Proof.
  destruct s as [c w]. intros (l & Hc & Hs & Hh).
  destruct (Inv_read c w l (ID rl) Hc Hs Hh) as (c1 & Hc1 & HI & E). unfold Update. rewrite (bind_eq _ _ _ _ _ E).
  destruct (List.find _ l) as [old|] eqn:Ef; [|intros _; exact HI].
  apply find_split in Ef as (Hid & l1 & l2 & -> & Hat). cbv zeta. rewrite <- Hid in Hat.
  destruct (validateRouteList _) as [e|] eqn:Ev; [intros _; exact HI|]. apply validated in Ev.
  set (r := set_UpdatedAt _ _).
  destruct (edit_middle c1 l1 old l2 r (proj1 Hc1)) as (c2 & E2 & Hc2); [|done|].
  { transitivity (ID (fill_from old rl)); [done|]. by rewrite fill_ID. }
  rewrite (bind_eq _ _ _ _ _ (store_eq _ _ w _ _ E2)), !(bind_eq _ _ _ _ _ (device_if _ _ _ _)).
  cbn [mret ST_ret fst snd]. intros Hs'. apply (Inv_middle _ _ l1 r l2); [done..|]. intros Hs2.
  destruct (middle_old _ _ _ _ Hs Hh) as [Hso Hho]. apply add_new; [done..|]. by apply drop_old.
Qed.

Lemma StaticDelete_inv id s : Inv s → Inv (Delete cat id s).2.
Proof.
  destruct s as [c w]. intros (l & Hc & Hs & Hh).
  destruct (Inv_read c w l id Hc Hs Hh) as (c1 & Hc1 & HI & E). unfold Delete. rewrite (bind_eq _ _ _ _ _ E).
  destruct (List.find _ l) as [old|] eqn:Ef; [|exact HI].
  apply find_split in Ef as (Hid & l1 & l2 & -> & Hat).
  rewrite (bind_eq _ _ _ _ _ (device_if _ _ _ _)).
  destruct (edit_ok c1 _ id (λ _, []) (l1 ++ [] ++ l2) (proj1 Hc1) (Hat _)) as (c2 & E2 & Hc2).
  unfold check. rewrite (bind_eq _ _ _ _ _ (store_eq _ _ _ _ _ E2)).
  destruct (middle_old _ _ _ _ Hs Hh) as [Hso Hho]. exists (l1 ++ l2). split; [done|].
  split; [by eapply sound_tail|by apply drop_old].
Qed.

Lemma StaticSetEnabled_inv now id b s :
  Inv s → (b = true → ∀ r, r ∈ file_lists s.1 → ID r = id → TunnelID r ≠ "") →
  sound (file_lists (SetEnabled cat now id b s).2.1) → Inv (SetEnabled cat now id b s).2.
Proof.
  destruct s as [c w]. intros (l & Hc & Hs & Hh) Hb. cbn [fst] in *. rewrite (file_lists_sync _ _ Hc) in Hb.
  destruct (Inv_read c w l id Hc Hs Hh) as (c1 & Hc1 & HI & E). unfold SetEnabled. rewrite (bind_eq _ _ _ _ _ E).
  destruct (List.find _ l) as [old|] eqn:Ef; [|intros _; exact HI].
  apply find_split in Ef as (Hid & l1 & l2 & -> & Hat). rewrite <- Hid in Hat. specialize (λ B, Hb B old).
  destruct (Bool.eqb (Enabled old) b) eqn:Eb; [intros _; exact HI|]. cbv zeta.
  set (r := set_UpdatedAt _ (set_Enabled b old)).
  pose proof (write_through_disk c1 (l1 ++ old :: l2) id (λ r, set_UpdatedAt (format_RFC3339 now) (set_Enabled b r)) (proj1 Hc1)) as Hd.
  set (cw := write_through _ _ c1) in *.
  rewrite (bind_eq _ _ _ tt (cw, w)) by done.
  destruct (edit_middle cw l1 old l2 r Hd) as (c2 & E2 & Hc2); [done..|].
  rewrite (bind_eq _ _ _ _ _ (store_eq _ _ w _ _ E2)).
  destruct (middle_old _ _ _ _ Hs Hh) as [Hso Hho].
  set (m := if b then applyRoutes cat r else removeRoutes cat (TunnelID r) (subnets_of r)).
  assert (on_device m (c2, w) = (tt, (c2, (m w).2))) as Em by (apply (device_if true)).
  rewrite (bind_eq _ _ _ _ _ Em). cbn [mret ST_ret fst snd]. intros Hs'.
  apply (Inv_middle _ _ l1 r l2); [done..|]. intros Hs2. unfold m. destruct b.
  - apply put_in; [done|done| |].
    + apply Hb; [done|set_solver|done].
    + apply holds_skip in Hho; [done|]. intros k. apply disabled_wants. by destruct (Enabled old).
  - apply holds_skip; [intros k; by apply disabled_wants|].
    change (TunnelID r) with (TunnelID old). change (subnets_of r) with (subnets_of old).
    apply take_out; [done| |done]. by destruct (Enabled old).
Qed.

Lemma Import_inv nano now t name bat s :
  Inv s → sound (file_lists (Import cat nano now t name bat s).2.1) → Inv (Import cat nano now t name bat s).2.
Proof.
  unfold Import. destruct (ParseBat bat) as [[|sn subnets] errs]; [by intros|]. apply StaticCreate_inv.
Qed.

(** *** A tunnel is deleted *)

Definition orphan (now : Time) (r : StaticRouteList) : StaticRouteList :=
  set_UpdatedAt (format_RFC3339 now) (set_TunnelID "" r).

Lemma find_member l r : NoDup (ID <$> l) → r ∈ l → List.find (has_id (ID r)) l = Some r.
Proof.
  induction l as [|x l IH]; [by intros _ ?%elem_of_nil|]. rewrite fmap_cons, NoDup_cons. intros [Hx Hd].
  intros [->|Hr]%elem_of_cons; simpl; unfold has_id at 1; [by rewrite String.eqb_refl|].
  destruct (String.eqb_spec (ID x) (ID r)) as [E|_]; [|by apply IH].
  destruct Hx. rewrite E. by apply list_elem_of_fmap_2.
Qed.

Lemma orphan_all now ls : ∀ c l rest, in_sync c l → NoDup (ID <$> l) → l ≡ₚ ls ++ rest →
  ∃ c' l', each (λ r, UpdateRouteList (orphan now r)) ls c = (tt, c') ∧ in_sync c' l' ∧
    l' ≡ₚ (orphan now <$> ls) ++ rest.
Proof.
  induction ls as [|r ls IH]; intros c l rest Hc Hd Hp; [by exists c, l|].
  destruct (find_split (ID r) l r) as (_ & l1 & l2 & -> & Hat).
  { apply find_member; [done|]. rewrite Hp. by left. }
  destruct (edit_middle c l1 r l2 (orphan now r) (proj1 Hc)) as (c1 & E & Hc1); [done|done|].
  assert (l1 ++ l2 ≡ₚ ls ++ rest) as Hp'.
  { apply (Permutation_cons_inv (a := r)). by rewrite Permutation_middle, Hp. }
  destruct (IH c1 (l1 ++ [orphan now r] ++ l2) (orphan now r :: rest) Hc1) as (c' & l' & E' & Hc' & Hl').
  - rewrite !fmap_app in *. done.
  - rewrite middle, Hp'. apply Permutation_middle.
  - exists c', l'. split; [|split; [done|]].
    + cbn [each]. rewrite (bind_eq _ _ _ _ _ E). exact E'.
    + rewrite Hl'. csimpl. symmetry. apply Permutation_middle.
Qed.

Lemma drop_all ls rest w : sound (ls ++ rest) → holds (ls ++ rest) w →
  holds rest (each (λ r, if Enabled r then removeRoutes cat (TunnelID r) (subnets_of r) else mret tt) ls w).2.
Proof.
  revert w. induction ls as [|r ls IH]; intros w Hs Hh; [done|]. cbn [each]. unfold mbind, ST_bind.
  pose proof (drop_old r (ls ++ rest) w Hs Hh) as H. apply sound_tail in Hs.
  destruct (Enabled r); [|by apply IH]. destruct (removeRoutes _ _ _ w) as [[] w']. by apply IH.
Qed.

Lemma skip_all ls rest w : (∀ r k, r ∈ ls → ¬ wants w r k) → holds (ls ++ rest) w ↔ holds rest w.
Proof.
  induction ls as [|r ls IH]; intros Hn; [done|]. simpl. rewrite holds_skip; [|by intros k; apply Hn; left].
  apply IH. intros r' k Hr. by apply Hn; right.
Qed.

Lemma StaticOnTunnelDelete_inv now t s :
  Inv s → (isOS4Kernel t = true → ifaceExists t s.2 = false) →
  sound (file_lists (OnTunnelDelete cat now t s).2.1) → Inv (OnTunnelDelete cat now t s).2.
Proof.
  destruct s as [c w]. intros (l & Hc & Hs & Hh) Hgone. cbn [fst snd] in *. unfold OnTunnelDelete, allListsForTunnel.
  destruct (String.eqb_spec t "") as [->|Ht]; [intros _; by exists l|].
  destruct (Get_ok c l Hc) as (c1 & E & Hc1 & _). set (ls := filter (λ r, TunnelID r = t) l).
  assert (on_store (all ← ListRouteLists; mret (match all with inl _ => [] | inr l => filter (λ r, TunnelID r = t) l end))
            (c, w) = (ls, (c1, w))) as E1.
  { apply store_eq. unfold ListRouteLists. by rewrite (bind_eq _ _ _ _ _ E). }
  rewrite (bind_eq _ _ _ _ _ E1). assert (l ≡ₚ ls ++ filter (λ r, TunnelID r ≠ t) l) as Hp
    by (symmetry; apply filter_app_complement).
  set (rest := filter (λ r, TunnelID r ≠ t) l) in *. clearbody rest.
  assert (∀ r, r ∈ ls → TunnelID r = t) as Hls by (intros r [? _]%list_elem_of_filter; done).
  clearbody ls. destruct ls as [|r0 ls0] eqn:Els; [intros _; by exists l|]. rewrite <- Els in *. clear Els.
  set (m := if isOS4Kernel t then _ else _).
  assert (∃ w', m (c1, w) = (tt, (c1, w')) ∧ holds rest w') as (w' & Em & Hw').
  { unfold m. apply (sound_perm _ _ Hp) in Hs. apply (row_holds_perm _ _ _ Hp) in Hh.
    destruct (isOS4Kernel t) eqn:Eo.
    - exists w. split; [done|]. apply skip_all in Hh; [done|]. intros r k Hr (_ & _ & Hl & _).
      rewrite (Hls r Hr) in Hl. specialize (Hl Eo). by rewrite Hgone in Hl.
    - eexists. split; [apply (device_if true)|]. by apply drop_all. }
  rewrite (bind_eq _ _ _ _ _ Em).
  destruct (orphan_all now ls c1 l rest Hc1 (sound_ids _ Hs) Hp) as (c2 & l' & E2 & Hc2 & Hp2).
  rewrite (bind_eq _ _ _ _ _ (store_eq _ _ _ _ _ E2)). cbn [mret ST_ret fst snd]. intros Hs'.
  apply (Inv_intro _ _ l'); [done..|]. eapply row_holds_perm; [symmetry; exact Hp2|]. apply skip_all; [|done].
  intros r k (r' & -> & _)%list_elem_of_fmap. by apply orphan_wants.
Qed.

(** *** Routes are asserted again *)

Definition asserts (K : StaticRouteList → list rkey) (f : StaticRouteList → ST W unit) (w0 : W) : Prop :=
  ∀ w r, healthy w → (∀ t, ifaceExists t w = ifaceExists t w0) →
  effect w (f r w).2 (λ k, k ∈ K r ∨ installed w k ∧ free_of_slots (.∈ K r) k).

Lemma each_asserts K f w0 ls w :
  asserts K f w0 → (∀ r k, r ∈ ls → k ∈ K r → Enabled r = true ∧ k ∈ claims r) →
  sound ls → healthy w → (∀ t, ifaceExists t w = ifaceExists t w0) →
  effect w (each f ls w).2 (λ k, k ∈ ls ≫= K ∨ installed w k ∧ free_of_slots (.∈ ls ≫= K) k).
Proof.
  intros Hf. revert w. induction ls as [|r ls IH]; intros w HK Hs Hw Hi.
  { eapply effect_ext; [by apply effect_refl|]. intros k. unfold free_of_slots. cbn. set_solver. }
  cbn [each]. unfold mbind at 1, ST_bind at 1. pose proof (Hf w r Hw Hi) as H1.
  destruct (f r w) as [[] w1]. cbn [snd] in H1. destruct H1 as (Hw1 & Hi1 & Hk1).
  eapply effect_ext.
  { eapply (effect_trans _ w1); [done|]. apply IH; [set_solver|by eapply sound_tail|done|].
    intros t. by rewrite Hi1. }
  intros k. cbv beta. rewrite Hk1. unfold free_of_slots. csimpl. setoid_rewrite elem_of_app. split.
  - intros [?|[[?|[? Hfr]] Hfl]]; [by left; right|by left; left|right].
    split; [done|]. intros k' [?|?]; auto.
  - intros [[Hr|?]|[? Hfr]]; [|by left|right; split; [right; split; [done|]|]; auto]. right.
    split; [by left|]. intros k' (r' & Hk' & Hr')%list_elem_of_bind E.
    destruct (HK r k) as [He Hc]; [by left|done|]. destruct (HK r' k') as [He' Hc']; [by right|done|].
    assert (r = r') as <- by (eapply (sound_lists _ Hs r r' k k'); [by left|by right|done..]).
    pose proof (sound_ids _ Hs) as Hd. csimpl in Hd. apply NoDup_cons in Hd as [Hd _].
    apply Hd. by apply list_elem_of_fmap_2.
Qed.

(** What is known of the device when some routes of the lists may be missing. *)
Definition lacks (l : list StaticRouteList) (w : W) : Prop :=
  healthy w ∧ (∀ k, F k → installed w k) ∧ ∀ k, installed w k → F k ∨ wanted w l k.

Lemma asserted l w w' (K : list rkey) : sound l → lacks l w →
  (∀ k, k ∈ K → wanted w l k) → (∀ k, wanted w l k → k ∈ K ∨ installed w k) →
  effect w w' (λ k, k ∈ K ∨ installed w k ∧ free_of_slots (.∈ K) k) → holds l w'.
Proof.
  intros Hs (Hw & HF & Hin) HK Hall (Hw' & Hi & Hk). split; [done|]. intros k.
  rewrite Hk, (wanted_ifaces w w') by done. split.
  - intros [?|[? _]]; [right|]; auto.
  - intros [Hf|Hwt].
    + right. split; [auto|]. intros k' (r & Hr & He & _ & _ & Hc)%HK. by eapply sound_foreign.
    + destruct (base.decide (k ∈ K)) as [|Hn]; [by left|right]. destruct (Hall k Hwt) as [|Hins]; [done|].
      split; [done|]. intros k' Hk' E. pose proof (HK k' Hk') as (r' & Hr' & He' & _ & _ & Hc').
      destruct Hwt as (r & Hr & He & _ & _ & Hc).
      assert (r' = r) as -> by (by eapply (sound_lists _ Hs r' r k' k)).
      apply in_list_keys in Hc as (sn & _ & Esn), Hc' as (sn' & _ & Esn').
      apply Hn. by rewrite <- (same_slot _ _ _ _ _ Esn' Esn E).
Qed.

Lemma holds_lacks l w : holds l w → lacks l w.
Proof. intros [Hw Hk]. split; [done|]. split; intros k; rewrite Hk; auto. Qed.

(** The routes of the lists that [Reconcile] installs. *)
Definition reconciled (w : W) (r : StaticRouteList) : list rkey :=
  if Enabled r && negb (String.eqb (TunnelID r) "") && (negb (isOS4Kernel (TunnelID r)) || ifaceExists (TunnelID r) w)
  then claims r else [].

Lemma reconciled_wants w r k : k ∈ reconciled w r ↔ wants w r k.
Proof.
  clear foreign_dev F os4_iface. unfold reconciled, wants, live. destruct (Enabled r), (String.eqb_spec (TunnelID r) ""),
    (isOS4Kernel (TunnelID r)), (ifaceExists (TunnelID r) w); simpl; set_solver.
Qed.

Lemma Reconcile_restores c w l :
  in_sync c l → sound l → lacks l w → Inv (Reconcile cat (c, w)).2.
Proof.
  intros Hc Hs Hl. unfold Reconcile. destruct (Get_ok c l Hc) as (c1 & E & Hc1 & _).
  rewrite (bind_eq _ _ _ _ _ (store_eq _ _ w _ _ E)).
  set (f := λ rl, if negb (Enabled rl) then _ else _).
  assert (on_device (each f l) (c1, w) = (tt, (c1, (each f l w).2))) as Em by (apply (device_if true)).
  rewrite (bind_eq _ _ _ _ _ Em). cbn [mret ST_ret snd]. exists l. split; [done|]. split; [done|].
  apply (asserted _ w _ (l ≫= reconciled w)); [done..| | |].
  - intros k (r & Hk & Hr)%list_elem_of_bind. exists r. split; [done|]. by apply reconciled_wants.
  - intros k (r & Hr & Hk). left. apply list_elem_of_bind. exists r. split; [by apply reconciled_wants|done].
  - apply (each_asserts (reconciled w) f w); [|intros r k _ (? & _ & _ & ?)%reconciled_wants; done|done|by destruct Hl|done].
    intros w2 r Hw2 Hi. unfold f, reconciled. destruct (Enabled r); simpl;
      [|eapply effect_ext; [by apply effect_refl|intros k; unfold free_of_slots; simpl; set_solver]].
    destruct (String.eqb_spec (TunnelID r) ""); simpl;
      [eapply effect_ext; [by apply effect_refl|intros k; unfold free_of_slots; simpl; set_solver]|].
    unfold mbind, ST_bind, gets. rewrite <- Hi.
    destruct (isOS4Kernel (TunnelID r) && negb (ifaceExists (TunnelID r) w2)) eqn:E2.
    + to_prop. rewrite H, H0. simpl. eapply effect_ext; [by apply effect_refl|].
      intros k; unfold free_of_slots; simpl; set_solver.
    + apply live_dead in E2 as Hlive. pose proof (applyRoutes_effect w2 r Hw2) as Ha.
      assert (negb (isOS4Kernel (TunnelID r)) || ifaceExists (TunnelID r) w2 = true) as ->
        by (by destruct (isOS4Kernel _), (ifaceExists _ w2)).
      eapply effect_ext; [exact Ha|]. intros k. unfold free_of_slots. naive_solver.
Qed.

(** ** The life of a kernel tunnel of OS4, and of the router *)

(** The interface of a tunnel appears, without routes; it goes, and takes its routes. *)
Definition appears (t : string) (w w' : W) : Prop :=
  healthy w' ∧ (∀ t', ifaceExists t' w' = if bool_decide (t' = t) then true else ifaceExists t' w) ∧
  ∀ k, installed w' k ↔ installed w k.
Definition gone (t : string) (w w' : W) : Prop :=
  healthy w' ∧ (∀ t', ifaceExists t' w' = if bool_decide (t' = t) then false else ifaceExists t' w) ∧
  ∀ k, installed w' k ↔ installed w k ∧ ∀ p, k ≠ KDev t p.

Lemma claims_dev r k : k ∈ claims r → isOS4Kernel (TunnelID r) = true → ∃ p, k = KDev (TunnelID r) p.
Proof.
  intros (s & _ & E)%in_list_keys Ho. unfold subnet_key in E. rewrite (os4_iface _ Ho), Ho in E.
  apply fmap_Some in E as (p & _ & ->). eauto.
Qed.

Lemma claims_other r d p : KDev d p ∈ claims r → isOS4Kernel (TunnelID r) = true ∧ d = TunnelID r.
Proof.
  intros (s & _ & E)%in_list_keys. unfold subnet_key in E. destruct (isOS4Kernel (TunnelID r)) eqn:Ho.
  - rewrite (os4_iface _ Ho) in E. apply fmap_Some in E as (p' & _ & [= -> ->]). done.
  - repeat (case_match; try done). simplify_eq. unfold spec_key in *. by case_match.
Qed.

Lemma listsForTunnel_ok c l t : in_sync c l → t ≠ "" → ∃ c', in_sync c' l ∧ ∀ w : W,
  on_store (listsForTunnel t) (c, w) = (filter (λ r, TunnelID r = t ∧ Enabled r = true) l, (c', w)).
Proof.
  intros Hc Ht. destruct (Get_ok c l Hc) as (c1 & E & Hc1 & _). exists c1. split; [done|]. intros w.
  apply store_eq. unfold listsForTunnel. destruct (String.eqb_spec t ""); [done|]. unfold ListRouteLists.
  by rewrite (bind_eq _ _ _ _ _ E).
Qed.

Lemma os4_nonempty t : isOS4Kernel t = true → t ≠ "".
Proof. by intros H ->. Qed.

Lemma each_ext {R X} (f g : X → ST W R) l w : (∀ x w, f x w = g x w) → each f l w = each g l w.
Proof.
  intros E. revert w. induction l as [|x l IH]; intros w; [done|]. cbn [each]. unfold mbind, ST_bind. rewrite E.
  by destruct (g x w).
Qed.

Lemma StaticOnTunnelStart_inv t c w w1 : isOS4Kernel t = true → Inv (c, w) → appears t w w1 →
  Inv (OnTunnelStart t t (c, w1)).2.
Proof.
  intros Ho (l & Hc & Hs & Hh) (Hw1 & Hi1 & Hk1). cbn [fst snd] in *. unfold OnTunnelStart. rewrite Ho. cbn [negb].
  destruct (listsForTunnel_ok c l t Hc (os4_nonempty _ Ho)) as (c1 & Hc1 & E).
  rewrite (bind_eq _ _ _ _ _ (E w1)). set (ls := filter _ l).
  assert (∀ r, r ∈ ls ↔ (TunnelID r = t ∧ Enabled r = true) ∧ r ∈ l) as Hls by (intros r; unfold ls; by rewrite list_elem_of_filter).
  assert (ifaceExists t w1 = true) as Ht by (by rewrite Hi1, bool_decide_true).
  set (f := λ rl, each _ (subnets_of rl)).
  assert (on_device (each f ls) (c1, w1) = (tt, (c1, (each f ls w1).2))) as Em by (apply (device_if true)).
  rewrite (bind_eq _ _ _ _ _ Em). cbn [mret ST_ret snd]. exists l. split; [done|]. split; [done|].
  assert (∀ r k, wants w r k → wants w1 r k) as Hmono.
  { intros r k (? & ? & Hl & ?). split; [done|]. split; [done|]. split; [|done]. intros Ho'.
    rewrite Hi1. destruct (bool_decide _); [done|by apply Hl]. }
  apply (asserted _ w1 _ (ls ≫= claims)); [done| | | |].
  - split; [done|]. destruct Hh as [_ Hk]. split; intros k; rewrite Hk1, Hk; [by left|].
    intros [?|(r & ? & ?)]; [by left|right]. exists r. split; [done|by apply Hmono].
  - intros k (r & Hk & [[Et He] Hr]%Hls)%list_elem_of_bind. exists r. split; [done|].
    split; [done|]. rewrite Et. split; [by apply os4_nonempty|]. split; [by intros _|done].
  - intros k (r & Hr & He & Hne & Hl & Hk). destruct (base.decide (TunnelID r = t)) as [Et|Et].
    + left. apply list_elem_of_bind. exists r. split; [done|]. by apply Hls.
    + right. apply Hk1. destruct Hh as [_ Hin]. apply Hin. right. exists r. split; [done|].
      split; [done|]. split; [done|]. split; [|done]. intros Ho'. specialize (Hl Ho').
      by rewrite Hi1, bool_decide_false in Hl.
  - apply (effect_ext _ _ (λ k, k ∈ ls ≫= (λ r, list_keys t (subnets_of r)) ∨
      installed w1 k ∧ free_of_slots (.∈ ls ≫= (λ r, list_keys t (subnets_of r))) k)).
    + apply (each_asserts _ f w1); [|intros r k [[<- ?] ?]%Hls ?; done| |done|done].
      * intros w2 r Hw2 Hi2. unfold f. rewrite (each_ext _ (λ s, addRoute s t "" (isOS4Kernel t))).
        2: { intros s w3. unfold addRoute. rewrite Ho. by destruct (ParseSubnetComment s). }
        apply (add_all t t "" (subnets_of r) w2 Hw2); [intros _; by rewrite Hi2|by apply os4_iface].
      * split; [eapply sublist_NoDup; [apply sound_ids, Hs|apply fmap_sublist, sublist_filter]| |].
        -- intros r r' k k' [_ ?]%Hls [_ ?]%Hls. by apply (sound_lists _ Hs).
        -- intros r k k' [_ ?]%Hls. by apply (sound_foreign _ Hs).
    + assert (∀ k, k ∈ ls ≫= (λ r, list_keys t (subnets_of r)) ↔ k ∈ ls ≫= claims) as Heq.
      { intros k. rewrite !list_elem_of_bind. split; intros (r & Hk & Hr); exists r; (split; [|done]);
          apply Hls in Hr as [[<- _] _]; done. }
      intros k. unfold free_of_slots. by setoid_rewrite Heq.
Qed.

(** What taking out the routes of some lists may do. *)
Definition takes_out (ls : list StaticRouteList) (w w' : W) : Prop :=
  healthy w' ∧ (∀ t, ifaceExists t w' = ifaceExists t w) ∧ (∀ k, installed w' k → installed w k) ∧
  ∀ k, installed w k → (∀ r, r ∈ ls → k ∉ claims r) → installed w' k.

Lemma each_takes_out (f : StaticRouteList → ST W unit) ls w :
  (∀ r w, healthy w → takes_out [r] w (f r w).2) → healthy w → takes_out ls w (each f ls w).2.
Proof.
  intros Hf. revert w. induction ls as [|r ls IH]; intros w Hw; [by repeat split|].
  cbn [each]. unfold mbind, ST_bind. destruct (Hf r w Hw) as (Hw1 & Hi1 & Hs1 & Hk1).
  destruct (f r w) as [[] w1]. cbn [snd] in *. destruct (IH w1 Hw1) as (Hw2 & Hi2 & Hs2 & Hk2).
  split; [done|]. split; [intros t; by rewrite Hi2, Hi1|]. split; [auto|]. intros k Hk Hn.
  apply Hk2; [apply Hk1; [done|]|]; intros r' Hr'; apply Hn; [|by right].
  apply list_elem_of_singleton in Hr' as ->. by left.
Qed.

Lemma StaticOnTunnelStop_inv t c w w2 : isOS4Kernel t = true → Inv (c, w) →
  gone t (OnTunnelStop cat t (c, w)).2.2 w2 → Inv ((OnTunnelStop cat t (c, w)).2.1, w2).
Proof.
  intros Ho (l & Hc & Hs & Hh). cbn [fst snd] in *.
  assert (∃ c' w1 ls, (OnTunnelStop cat t (c, w)).2 = (c', w1) ∧ in_sync c' l ∧ takes_out ls w w1 ∧
    ∀ r, r ∈ ls → TunnelID r = t ∧ Enabled r = true ∧ r ∈ l) as (c' & w1 & ls & -> & Hc' & Hw1 & Hls).
  { unfold OnTunnelStop. rewrite Ho. cbn [negb].
    rewrite (bind_eq _ _ (c, w) (ifaceExists t w) (c, w)) by done. destruct (ifaceExists t w); cbn [negb].
    - destruct (listsForTunnel_ok c l t Hc (os4_nonempty _ Ho)) as (c1 & Hc1 & E).
      rewrite (bind_eq _ _ _ _ _ (E w)). set (ls := filter _ l). set (f := λ rl, if String.eqb _ _ then _ else _).
      assert (on_device (each f ls) (c1, w) = (tt, (c1, (each f ls w).2))) as Em by (apply (device_if true)).
      rewrite (bind_eq _ _ _ _ _ Em). exists c1, (each f ls w).2, ls. split; [done|]. split; [done|]. split.
      + apply each_takes_out; [|by destruct Hh]. intros r w3 Hw3. unfold f.
        destruct (String.eqb _ _); [by repeat split|].
        destruct (removeRoutes_effect w3 (TunnelID r) (subnets_of r) Hw3) as (? & ? & Hk).
        split; [done|]. split; [done|]. split; intros k; rewrite Hk; [by intros [? _]|].
        intros ? Hn. split; [done|]. intros [_ Hin]. by apply (Hn r); [left|].
      + intros r Hr. unfold ls in Hr. apply list_elem_of_filter in Hr. tauto.
    - exists c, w, []. split; [done|]. split; [done|]. split; [|by intros r ?%elem_of_nil].
      split; [by destruct Hh|]. by repeat split. }
  intros (Hw2 & Hi2 & Hk2). exists l. split; [done|]. split; [done|]. split; [done|]. intros k. cbn [fst snd] in *.
  destruct Hw1 as (_ & Hi1 & Hsub & Hkeep), Hh as [_ Hk]. rewrite Hk2. split.
  - intros [[Hf|(r & Hr & He & Hne & Hl & Hc2)]%Hsub%Hk Hnd]; [by left|right]. exists r. split; [done|].
    split; [done|]. split; [done|]. split; [|done]. intros Ho'. rewrite Hi2, Hi1.
    rewrite bool_decide_false; [by apply Hl|]. intros Et.
    destruct (claims_dev r k Hc2 Ho') as (p & ->). apply (Hnd p). by rewrite Et.
  - intros [Hf|(r & Hr & He & Hne & Hl & Hc2)].
    + split; [|intros p ->; by eapply foreign_dev]. apply Hkeep; [apply Hk; by left|].
      intros r' (_ & He' & Hr')%Hls Hc3. by eapply (sound_foreign _ Hs r').
    + assert (TunnelID r ≠ t) as Hnt.
      { intros Et. assert (isOS4Kernel (TunnelID r) = true) as Ho' by (by rewrite Et).
        specialize (Hl Ho'). by rewrite Hi2, bool_decide_true in Hl. }
      split.
      * apply Hkeep.
        -- apply Hk. right. exists r. split; [done|]. split; [done|]. split; [done|]. split; [|done].
           intros Ho'. specialize (Hl Ho'). by rewrite Hi2, Hi1, bool_decide_false in Hl.
        -- intros r' (Et' & He' & Hr')%Hls Hc3.
           assert (r = r') as <- by (by eapply (sound_lists _ Hs r r' k k)). done.
      * intros p ->. by apply claims_other in Hc2 as [_ ?].
Qed.

(** After a restart of the router and of the program: nothing is cached, and routes of
    the lists may be missing. *)
Definition forget (c : StaticRouteStore) : StaticRouteStore :=
  {| sr_data := None; sr_disk := sr_disk c; sr_faults := sr_faults c |}.

Inductive route_step : world (W := W) → world (W := W) → Prop :=
  | step_create nano now rl s : let s' := (Create cat nano now rl s).2 in
      sound (file_lists s'.1) → route_step s s'
  | step_update now rl s : let s' := (Update cat now rl s).2 in
      sound (file_lists s'.1) → route_step s s'
  | step_delete id s : route_step s (Delete cat id s).2
  | step_enable now id b s : let s' := (SetEnabled cat now id b s).2 in
      (b = true → ∀ r, r ∈ file_lists s.1 → ID r = id → TunnelID r ≠ "") →
      sound (file_lists s'.1) → route_step s s'
  | step_import nano now t name bat s : let s' := (Import cat nano now t name bat s).2 in
      sound (file_lists s'.1) → route_step s s'
  | step_tunnel_delete now t s : let s' := (OnTunnelDelete cat now t s).2 in
      (isOS4Kernel t = true → ifaceExists t s.2 = false) → sound (file_lists s'.1) → route_step s s'
  | step_start t c w w1 : isOS4Kernel t = true → appears t w w1 →
      route_step (c, w) (OnTunnelStart t t (c, w1)).2
  | step_stop t c w w2 : isOS4Kernel t = true → gone t (OnTunnelStop cat t (c, w)).2.2 w2 →
      route_step (c, w) ((OnTunnelStop cat t (c, w)).2.1, w2)
  | step_reboot c w w1 : lacks (file_lists c) w1 → route_step (c, w) (Reconcile cat (forget c, w1)).2.

Lemma route_step_inv s s' : route_step s s' → Inv s → Inv s'.
Proof.
  intros [ | | | | | | | |c w w1 Hl] HI.
  - by apply StaticCreate_inv.
  - by apply StaticUpdate_inv.
  - by apply StaticDelete_inv.
  - by apply StaticSetEnabled_inv.
  - by apply Import_inv.
  - by apply StaticOnTunnelDelete_inv.
  - by eapply StaticOnTunnelStart_inv.
  - by apply StaticOnTunnelStop_inv.
  - destruct HI as (l & Hc & Hs & _). cbn [fst] in *. rewrite (file_lists_sync c l) in Hl by done.
    apply (Reconcile_restores _ _ l); [|done..]. split; [apply Hc|by left].
Qed.

(** C14: The routes on the router are those of the stored lists.  From a state in which
    they are, through any sequence of creating, updating, deleting, switching and
    importing lists, of tunnels being deleted, of kernel tunnels starting and stopping and
    of restarts followed by [Reconcile], on a healthy system (file accesses and the
    commands for routes succeed), the device holds the foreign routes untouched and
    besides them exactly the routes of the enabled lists that have a tunnel (and, for a
    kernel tunnel of OS4, its interface).  The conditions, most of which the service does
    not enforce: IDs are distinct; no two enabled lists claim one route, and none the place
    of a foreign route; no list without a tunnel is switched on ([orphan_switched_on]); a
    kernel tunnel is deleted after its interface; and one that stops loses its interface,
    with which the kernel drops all its routes, also those of lists with the fallback
    "reject", which [OnTunnelStop] means to keep as a blackhole. *)
Theorem static_routes_follow_lists s s' : Inv s → rtc route_step s s' →
  ∃ l, in_sync s'.1 l ∧ ∀ k, installed s'.2 k ↔
    F k ∨ ∃ r, r ∈ l ∧ Enabled r = true ∧ TunnelID r ≠ "" ∧ live s'.2 (TunnelID r) ∧ k ∈ claims r.
Proof.
  intros HI Hst. assert (Inv s') as (l & Hc & _ & _ & Hk).
  { induction Hst as [|s1 s2 s3 H12 _ IH]; [done|]. by eapply IH, route_step_inv. }
  exists l. split; [done|]. exact Hk.
Qed.
End device.
