(* ===== verification/StaticRouteSim.v ===== *)
(** * Static routes: a concrete router, witnesses and what the service leaves open

    A device of which the laws hold, the inputs at which the theorems apply, and the
    runs that the theorems leave out: a route that two lists share, a list without a
    tunnel that is switched on, a write that fails, and an IPv6 import. *)
From S2P Require Import Prelude GoLib GoText Names Catalog StaticParse StaticParseProps StaticRoute StaticRouteProps.

(** ** Texts *)

Example ip_String_ex :
  (λ s, ip_String <$> ParseIP s) <$> ["2001:db8:0:0:1:0:0:1"; "::"; "::1"; "1::"; "1:0:2:3:4:5:6:7"; "10.0.0.1"]
  = Some <$> ["2001:db8::1:0:0:1"; "::"; "::1"; "1::"; "1:0:2:3:4:5:6:7"; "10.0.0.1"].
Proof. reflexivity. Qed.
Example ParseCIDR_ex :
  (λ s, IPNet_String <$> ParseCIDR s) <$> ["10.1.2.3/8"; "1.2.3.4/032"; "2001:db8::1/20"; "::ffff:1.2.3.4/120"; "1.2.3.4"; "1.2.3.4/33"; "1.2.3.4/"]
  = [Some "10.0.0.0/8"; Some "1.2.3.4/32"; Some "2001::/20"; Some "1.2.3.0/24"; None; None; None].
Proof. reflexivity. Qed.
Example maskToCIDR_ex :
  maskToCIDR <$> ["255.255.255.0"; "0.0.0.0"; "255.255.255.255"; "255.0.255.0"; "ffff::"; "128.0.0.0"]
  = [Some 24; Some 0; Some 32; None; None; Some 1]%Z.
Proof. reflexivity. Qed.
Example ParseBat_ex :
  let u := plain_unicode in
  ParseBat ("@echo off" +:+ nl +:+ "ROUTE ADD 10.1.2.3 MASK 255.0.0.0 0.0.0.0 !my  net" +:+ nl +:+
            "route add 1.2.3.4 mask 255.255.255.255 0.0.0.0" +:+ nl +:+
            "route add 10.9.9.9 mask 255.0.0.0 0.0.0.0" +:+ nl +:+ "route add 1.2.3.4 mask 255.0.255.0 0.0.0.0")
  = (["1.2.3.4/32"; "10.0.0.0/8 !my net"],
     [InvalidMask "255.0.255.0" "route add 1.2.3.4 mask 255.0.255.0 0.0.0.0"]).
Proof. vm_compute. reflexivity. Qed.

(** ** The device *)

Record dev := { dv_routes : list rkey; dv_ifaces : list string }.

Definition body_key (b : route_body) : rkey :=
  if rb_default b then KNet (rb_interface b) "0.0.0.0" "0.0.0.0"
  else if String.eqb (rb_host b) "" then KNet (rb_interface b) (rb_network b) (rb_mask b)
  else KHost (rb_interface b) (rb_host b).

Definition put_key (k : rkey) (w : dev) : dev :=
  {| dv_routes := k :: filter (λ k', slot k' ≠ slot k) (dv_routes w); dv_ifaces := dv_ifaces w |}.
Definition drop_key (k : rkey) (w : dev) : dev :=
  {| dv_routes := filter (.≠ k) (dv_routes w); dv_ifaces := dv_ifaces w |}.

Definition dev_Post (p : route_payload) (w : dev) : option string * dev :=
  match p with
  | IpRoute b => (None, if rb_no b then drop_key (body_key b) w else put_key (body_key b) w)
  | Ipv6Route _ => (Some "no IPv6 here", w)
  end.

(** The [ip] tool takes a network without host bits, or an address. *)
Definition dev_prefix (cidr : string) : option string :=
  match ParseCIDR cidr with
  | Some n => if String.eqb (IPNet_String n) cidr then Some cidr else None
  | None => if ParseIP_ok cidr then Some (cidr +:+ "/32") else None
  end.

Definition dev_ip (args : list string) (w : dev) : option string * dev :=
  match args with
  | ["route"; op; cidr; "dev"; d] =>
      match dev_prefix cidr with
      | None => (Some "invalid prefix", w)
      | Some p =>
          if String.eqb op "replace" then
            if bool_decide (d ∈ dv_ifaces w) then (None, put_key (KDev d p) w) else (Some "no device", w)
          else if String.eqb op "del" then (None, drop_key (KDev d p) w)
          else (Some "usage", w)
      end
  | _ => (Some "usage", w)
  end.

#[export] Instance dev_device : RouteDevice dev := {|
  route_Post := dev_Post;
  save_Request := λ w, w;
  ip_run := dev_ip;
  ifaceExists := λ t w, bool_decide (t ∈ dv_ifaces w);
|}.

#[export] Instance dev_view : RouteView dev := {|
  installed := λ w k, k ∈ dv_routes w;
  healthy := λ _, True;
  ip_prefix := dev_prefix;
|}.

Lemma put_effect k w : effect w (put_key k w) (λ k', k' = k ∨ installed w k' ∧ slot k' ≠ slot k).
Proof.
  split; [done|]. split; [done|]. intros k'. cbn [installed dev_view put_key dv_routes].
  rewrite elem_of_cons, list_elem_of_filter. tauto.
Qed.

Lemma drop_effect k w : effect w (drop_key k w) (λ k', installed w k' ∧ k' ≠ k).
Proof.
  split; [done|]. split; [done|]. intros k'. cbn [installed dev_view drop_key dv_routes].
  rewrite list_elem_of_filter. tauto.
Qed.

Lemma about_key sp auto no reject comment : body_key (about sp auto no reject comment) = spec_key sp.
Proof. unfold body_key, about, spec_key. simpl. by destruct (String.eqb_spec (sp_Host sp) ""). Qed.

Lemma slot_spec sp k : slot k = slot (spec_key sp) → k = spec_key sp.
Proof. unfold spec_key. destruct (String.eqb _ _), k; simpl; by intros [=]; subst. Qed.

#[export] Instance dev_laws : RouteLaws dev.
Proof.
  split.
  - intros w _. by split.
  - intros w sp reject comment _. simpl. rewrite about_key. eapply effect_ext; [apply put_effect|].
    intros k. simpl. destruct (base.decide (slot k = slot (spec_key sp))) as [E|E]; [|tauto].
    apply slot_spec in E. tauto.
  - intros w sp _. simpl. rewrite about_key. apply drop_effect.
  - intros w cidr d _ Hd. cbn [ip_run dev_device dev_ip ip_prefix dev_view] in *.
    destruct (dev_prefix cidr) as [p|]; [|by split]. cbn [ifaceExists dev_device] in Hd. simpl. rewrite Hd. apply put_effect.
  - intros w cidr d _. cbn [ip_run dev_device dev_ip ip_prefix dev_view].
    destruct (dev_prefix cidr) as [p|]; [|eapply effect_ext; [by apply effect_refl|]; simpl; naive_solver].
    simpl. eapply effect_ext; [apply drop_effect|]. simpl. naive_solver.
Qed.

(** ** A router with one route of its own, two tunnels and two lists *)

#[local] Instance the_unicode : GoUnicode := plain_unicode.

Definition the_catalog : Catalog := {|
  cat_tunnels := None; cat_state := λ _, StateUnknown; cat_wan := None; cat_ifaces := None;
  cat_system_name := λ s, s; cat_entry := λ _, None; cat_exists := λ _, true |}.

Lemma the_catalog_os4 t : isOS4Kernel t = true → ResolveInterface the_catalog t = inr t.
Proof.
  unfold isOS4Kernel, ResolveInterface, NewNames. intros H.
  destruct (HasPrefix t "awgm") eqn:Ep; [|by destruct (extractTunnelNum t)].
  apply HasPrefix_inv in Ep as [s ->]. simpl. done.
Qed.

Definition own_route : rkey := KNet "ISP" "10.0.0.0" "255.0.0.0".
Definition the_foreign (k : rkey) : Prop := k = own_route.

Definition a_list (id t : string) (subnets : list string) (enabled : bool) : StaticRouteList := {|
  ID := id; Name := "n"; TunnelID := t; Subnets := Some subnets; Fallback := ""; IconURL := "";
  Enabled := enabled; CreatedAt := ""; UpdatedAt := "" |}.

Definition a_store (l : list StaticRouteList) : StaticRouteStore :=
  {| sr_data := Some l; sr_disk := Some (SrData l); sr_faults := [] |}.

(** The conditions of [sound], evaluated. *)
Definition list_claims (r : StaticRouteList) : list rkey := claims (W := dev) the_catalog r.
Definition apart (r r' : StaticRouteList) : bool :=
  bool_decide (r = r') || negb (Enabled r) || negb (Enabled r') ||
  forallb (λ k, forallb (λ k', bool_decide (slot k ≠ slot k')) (list_claims r')) (list_claims r).
Definition soundb (l : list StaticRouteList) : bool :=
  bool_decide (NoDup (ID <$> l)) && forallb (λ r, forallb (apart r) l) l &&
  forallb (λ r, negb (Enabled r) || forallb (λ k, bool_decide (slot k ≠ slot own_route)) (list_claims r)) l.

Lemma soundb_sound l : soundb l = true → sound the_catalog the_foreign l.
Proof.
  unfold soundb. intros [[Hd Ha]%andb_true_iff Hf]%andb_true_iff. apply bool_decide_eq_true in Hd.
  rewrite forallb_forall in Ha, Hf. split; [done| |].
  - intros r r' k k' Hr Hr' He He' Hk Hk' Es. apply list_elem_of_In in Hr, Hr', Hk, Hk'.
    specialize (Ha r Hr). rewrite forallb_forall in Ha. specialize (Ha r' Hr'). unfold apart in Ha.
    rewrite He, He' in Ha. destruct (bool_decide (r = r')) eqn:E; [by apply bool_decide_eq_true in E|].
    simpl in Ha. rewrite forallb_forall in Ha. specialize (Ha k Hk). rewrite forallb_forall in Ha.
    specialize (Ha k' Hk'). by apply bool_decide_eq_true in Ha.
  - intros r k k' Hr He Hk ->. apply list_elem_of_In in Hr, Hk. specialize (Hf r Hr). rewrite He in Hf.
    simpl in Hf. rewrite forallb_forall in Hf. specialize (Hf k Hk). by apply bool_decide_eq_true in Hf.
Qed.

Definition two_lists : list StaticRouteList :=
  [a_list "a" "awg1" ["192.0.2.0/24 !docs"; "198.51.100.7"; "198.51.100.7/32"] true; a_list "b" "awgm2" ["203.0.113.0/24"] false].
Definition s0 : world (W := dev) :=
  (a_store two_lists, {| dv_routes := [own_route; KNet "OpkgTun1" "192.0.2.0" "255.255.255.0"; KHost "OpkgTun1" "198.51.100.7"];
                         dv_ifaces := [] |}).

(** The second list is switched on, its tunnel starts, and a file is imported. *)
Definition s1 : world (W := dev) := (SetEnabled the_catalog 0 "b" true s0).2.
Definition s2 : world (W := dev) :=
  (OnTunnelStart "awgm2" "awgm2" (s1.1, {| dv_routes := dv_routes s1.2; dv_ifaces := ["awgm2"] |})).2.
Definition a_file : string := "route add 10.20.30.40 mask 255.255.0.0 0.0.0.0 !office".
Definition s3 : world (W := dev) := (Import the_catalog 7 0 "awg1" "office" a_file s2).2.

Example s3_routes : dv_routes s3.2 =
  [KNet "OpkgTun1" "10.20.0.0" "255.255.0.0"; KDev "awgm2" "203.0.113.0/24"; own_route;
   KNet "OpkgTun1" "192.0.2.0" "255.255.255.0"; KHost "OpkgTun1" "198.51.100.7"].
Proof. vm_compute. reflexivity. Qed.

Lemma holds_check l w : dv_routes w = own_route :: (l ≫= reconciled (W := dev) the_catalog w) →
  holds (W := dev) the_catalog the_foreign l w.
Proof.
  intros E. split; [done|]. intros k. cbn [installed dev_view]. rewrite E, elem_of_cons, list_elem_of_bind.
  unfold the_foreign, wanted. split.
  - intros [?|(r & Hk & Hr)]; [by left|right]. exists r. split; [done|]. exact (proj1 (reconciled_wants _ _ _ _) Hk).
  - intros [?|(r & Hr & Hk)]; [by left|right]. exists r. split; [exact (proj2 (reconciled_wants _ _ _ _) Hk)|done].
Qed.

Lemma s0_Inv : Inv the_catalog the_foreign s0.
Proof.
  exists two_lists. split; [split; [by split; [|left]|by right]|]. split.
  - apply soundb_sound. by vm_compute.
  - apply holds_check. by vm_compute.
Qed.

Lemma static_routes_follow_lists_witness :
  Inv the_catalog the_foreign s0 ∧ rtc (route_step the_catalog the_foreign) s0 s3 ∧
  ∃ l, in_sync s3.1 l ∧ ∀ k, installed s3.2 k ↔
    the_foreign k ∨ ∃ r, r ∈ l ∧ Enabled r = true ∧ TunnelID r ≠ "" ∧ live s3.2 (TunnelID r) ∧ k ∈ claims the_catalog r.
Proof.
  assert (rtc (route_step (W := dev) the_catalog the_foreign) s0 s3) as Hst.
  { apply (rtc_l _ _ s1).
    { apply (step_enable the_catalog the_foreign 0 "b" true s0).
      - intros _ r Hr E. vm_compute in Hr. set_solver.
      - apply soundb_sound. by vm_compute. }
    apply (rtc_l _ _ s2).
    { unfold s2. destruct s1 as [c w] eqn:E1. apply (step_start the_catalog the_foreign "awgm2" c w); [done|].
      assert (w = s1.2) as -> by (by rewrite E1). split; [done|]. split; [|done].
      intros t. vm_compute dv_ifaces. cbn [ifaceExists dev_device dv_ifaces].
      destruct (base.decide (t = "awgm2")) as [->|Hn].
      - by vm_compute.
      - rewrite (bool_decide_false (t = "awgm2")) by done. vm_compute s1. cbn [snd dv_ifaces].
        rewrite !bool_decide_false by set_solver. done. }
    apply (rtc_l _ _ s3); [|apply rtc_refl].
    apply (step_import the_catalog the_foreign 7 0 "awg1" "office" a_file s2). apply soundb_sound. by vm_compute. }
  split; [exact s0_Inv|]. split; [exact Hst|].
  apply (static_routes_follow_lists the_catalog the_catalog_os4 the_foreign) with (s := s0); [|exact s0_Inv|exact Hst].
  intros d p _ [=].
Defined.

Lemma import_applies_witness :
  str_forallb is_ascii_byte a_file = true ∧
  ∃ line net comment network mask, line ∈ split_byte newline a_file ∧
    parse_line line = BatRoute net comment ∧ ParseSubnetComment "10.20.0.0/16 !office" = (net, comment) ∧
    parseCIDR (ParseSubnetComment "10.20.0.0/16 !office").1 = inr (network, mask).
Proof.
  split; [done|]. apply (import_applies a_file "10.20.0.0/16 !office"); [done| |].
  - apply List.Forall_cons; [|apply List.Forall_nil]. intros a b ip l [= <- <- <- <-] _. by vm_compute.
  - assert ((ParseBat a_file).1 = ["10.20.0.0/16 !office"]) as -> by (by vm_compute). by left.
Defined.

(** ** What the service leaves open *)

Definition bare (routes : list rkey) : dev := {| dv_routes := routes; dv_ifaces := [] |}.
Definition docs_route (iface : string) : rkey := KNet iface "192.0.2.0" "255.255.255.0".

(** Two enabled lists with one subnet: switching one of them off takes the route from
    both, and the other list stays enabled without it. *)
Definition sharing : list StaticRouteList :=
  [a_list "a" "awg1" ["192.0.2.0/24"] true; a_list "b" "awg1" ["192.0.2.0/24"] true].
Theorem shared_subnet_lost :
  let r := SetEnabled the_catalog 0 "a" false (a_store sharing, bare [docs_route "OpkgTun1"]) in
  r.1 = None ∧ dv_routes r.2.2 = [] ∧
  ∃ b, List.find (has_id "b") (file_lists r.2.1) = Some b ∧ Enabled b = true ∧
       list_claims b = [docs_route "OpkgTun1"].
Proof.
  split; [by vm_compute|]. split; [by vm_compute|]. exists (a_list "b" "awg1" ["192.0.2.0/24"] true).
  by repeat (split; [by vm_compute|]).
Qed.

(** A list without a tunnel can be switched on: its routes go through [OpkgTun0], to which
    the empty identifier resolves. *)
Theorem orphan_switched_on :
  let r := SetEnabled the_catalog 0 "a" true (a_store [a_list "a" "" ["192.0.2.0/24"] false], bare []) in
  r.1 = None ∧ dv_routes r.2.2 = [docs_route "OpkgTun0"].
Proof. split; by vm_compute. Qed.

(** The service switches the cached list before it is saved: when the file cannot be
    written the call fails, and the next one finds nothing to do, although neither the
    file nor the router has changed. *)
Definition faulty (l : list StaticRouteList) : world (W := dev) :=
  ({| sr_data := Some l; sr_disk := Some (SrData l); sr_faults := [false; true] |}, bare []).
Theorem failed_switch_sticks :
  let l := [a_list "a" "awg1" ["192.0.2.0/24"] false] in
  let r := SetEnabled the_catalog 0 "a" true (faulty l) in
  let r' := SetEnabled the_catalog 0 "a" true r.2 in
  r.1 = Some "set enabled: save: write static routes file" ∧ r'.1 = None ∧ dv_routes r'.2.2 = [] ∧
  file_lists r'.2.1 = l.
Proof. repeat (split; [by vm_compute|]). by vm_compute. Qed.

(** A list that could not be stored is listed all the same, until the file is read again. *)
Theorem failed_create_listed :
  let r := Create the_catalog 5 0 (a_list "" "awg1" ["192.0.2.0/24"] true) (faulty []) in
  r.1 = inl "create route list: write static routes file" ∧ file_lists r.2.1 = [] ∧
  match (List_ r.2).1 with inr l => ID <$> l = ["srl5"] | inl _ => False end.
Proof. repeat (split; [by vm_compute|]). by vm_compute. Qed.

(** A route of IPv6 is imported, stored and reported as enabled, but never installed. *)
Theorem ipv6_import_never_applied :
  let r := Import the_catalog 5 0 "awg1" "six" "route add 2001:db8:: mask 255.255.255.0 ::1" (a_store [], bare []) in
  match r.1 with inr x => Subnets x = Some ["2001:d00::/24"] ∧ Enabled x = true | inl _ => False end ∧
  dv_routes r.2.2 = [] ∧ parseCIDR "2001:d00::/24" = inl "IPv6 subnets not supported".
Proof. split; [by vm_compute|]. split; by vm_compute. Qed.
